(* ===== verification/_CoqProject ===== *)
-Q . S2P
Prelude.v
GasPrice.v
GasPriceFacts.v
GasPriceEstimate.v
FuelTypes.v
BlockTypes.v
ExecutorTypes.v
Executor.v
ExecutorFrame.v
ExecutorLedger.v
ExecutorRoundtrip.v
ExecutorAccounting.v
ExecutorFacts.v
ExecutorSamples.v
Transactional.v
TransactionalFacts.v
StructuredStorage.v
MerklizedTable.v
HistoricalDatabase.v
HistoricalDatabaseFacts.v
Importer.v
ImporterFacts.v
UpgradableExecutor.v
Producer.v
ProducerFacts.v
NodeSamples.v
Sync.v
SyncFacts.v
SyncNode.v
SyncSamples.v
PoA.v
PoAFacts.v
PoANode.v
PoASamples.v
TxStatus.v
TxStatusFacts.v
OffChain.v
OffChainFacts.v
CoinsQuery.v
CoinsQueryFacts.v
OffChainSamples.v
Compression.v
CompressionFacts.v
CompressionSamples.v
TxPoolTypes.v
TxPoolGraph.v
TxPool.v
TxPoolPending.v
TxPoolPendingFacts.v
TxPoolPendingClaims.v
TxPoolForest.v
TxPoolGraphFacts.v
TxPoolTables.v
TxPoolSelection.v
TxPoolFacts.v
TxPoolBlocks.v
TxPoolClaims.v
TxPoolWorker.v
TxPoolWorkerFacts.v
TxPoolSamples.v
TxPoolWorkerSamples.v
Relayer.v
RelayerFacts.v
P2P.v
P2PFacts.v
P2PSwarm.v
P2PSwarmFacts.v
P2PReserved.v
P2PSamples.v
GasPriceService.v
GasPriceServiceFacts.v
GasPriceNode.v
GasPriceSamples.v
