(* ===== verification/Prelude.v ===== *)
(** * fuel-core: a verification of the block path of the node

    ** The program

    fuel-core ([src/crates]) is a node of the Fuel network.  Users submit
    transactions to the transaction pool ([services/txpool_v2]).  The producer
    ([services/producer]) makes a header for the next block and has the executor
    ([services/upgradable-executor], [services/executor]) run forced transactions
    of the settlement layer and transactions of the pool on the database, at
    the price that the gas price algorithm ([fuel-gas-price-algorithm]), fed by
    its service ([services/gas_price_service]), gives;
    the service of [services/consensus_module/poa] decides when, signs the block
    and has it committed.
    The block importer ([services/importer]), with the verifiers of
    [services/consensus_module], checks and executes blocks of other nodes
    again, and stores blocks and the changes of their execution through storage
    transactions ([storage]) in the database ([fuel-core/src/database.rs]),
    which keeps a history to read and to roll back to past heights
    ([fuel-core/src/state]).  What happens to a transaction is told to clients
    by the status manager ([services/tx_status_manager]), finished blocks are
    compressed for the data availability layer ([compression]), and a worker
    ([fuel-core/src/graphql_api/worker_service.rs]) derives from them the
    indexes that the queries for balances and coins to spend
    ([fuel-core/src/coins_query.rs]) read.  A node that is behind asks its peers
    for headers and transactions and imports the blocks ([services/sync]), the
    relayer ([services/relayer]) downloads the events of the settlement layer
    that the executor includes, and the network layer ([services/p2p]) decides
    which peers may connect and keeps the reserved ones connected.

    ** Conventions

    A Rust function is a Rocq function with the same name, or with the name of
    its type in front when several types have one.  [Result] is [result], a
    function on [&mut self] is a function in the monad [ST] or one that returns
    the new state; a failed [expect], an index out of bounds and a division by
    zero are [None] of an option.  A machine integer is a [Z] with the type it
    is used at: arithmetic is [checked_add], [saturating_sub] and so on at
    [u8] to [u128], as in the source.  Maps are [gmap], sets [gset]; where the
    code depends on the order of a hash map, the order is a parameter.  A loop
    that is not structural takes fuel, with a theorem that the fuel is enough.
    Asynchronous tasks are the sequence of the calls they make.  A small
    definition that is part of an operation (the body of a loop, a branch)
    corresponds to lines of that operation.

    ** Files

    - [Prelude.v]: results, the state monad, machine integers, record update,
      tactics and lemmas shared by all files.
    - [GasPrice.v], [GasPriceFacts.v]: [fuel-gas-price-algorithm/src/v0.rs] and
      [v1.rs], the whole updaters.  Over every history of L2 blocks and DA
      recordings the fields stay in range and the prices inside the configured
      envelope; one update moves the DA price by a bounded step.
    - [GasPriceEstimate.v]: the estimate of [utils.rs], with the floating point
      numbers as binary64 values; when it reads past its table, and how far the
      table is from compound growth.
    - [FuelTypes.v], [BlockTypes.v]: transactions, coins, messages, headers and
      blocks of [crates/types]; a generated block is consistent with its header,
      and a block id binds every field up to collisions of the hash.
    - [ExecutorTypes.v], [Executor.v]: [services/executor/src/executor.rs]
      completely: relayed transactions, transactions of the source, the mint
      transaction, production, dry run and validation.  The lemmas are in
      [ExecutorFrame.v]; [ExecutorLedger.v] shows that events replay to the
      database, apart from those that a forced transaction logged before it
      failed; [ExecutorRoundtrip.v] that produced blocks validate to the same
      result; [ExecutorAccounting.v] that fees, gas and ids balance;
      [ExecutorFacts.v] isolation of skipped transactions, limits, termination
      and the import from the settlement layer.  [ExecutorSamples.v] runs a
      small chain.
    - [Transactional.v], [TransactionalFacts.v], [StructuredStorage.v],
      [MerklizedTable.v]: [crates/storage]: transactions over a key-value store
      refine a map, commits under both conflict policies, typed tables, and
      tables with a Merkle tree, which are append-only logs.
    - [HistoricalDatabase.v], [HistoricalDatabaseFacts.v]: the database with a
      history.  A view at a past height answers as the database did then, for
      exactly the heights of the rewind policy, and rolling blocks back undoes
      them; both need that no key of a column is a beginning of another, that
      the lengths of its keys differ by at most 8, and that a block is committed
      as one set of changes.
    - [Importer.v], [ImporterFacts.v]: the block importer, the verifiers and
      the commits of the on-chain database.  Its database is a chain of blocks
      after any calls; an import is all or nothing.
    - [UpgradableExecutor.v], [Producer.v], [ProducerFacts.v]: which state an
      execution sees and who runs it; headers, the choice of the DA height,
      production and dry runs.  A produced block is imported by every node with
      the same database and leads them to the same database; this composes the
      producer, the executor, the verifier, the importer and the tables.
      [NodeSamples.v] runs a node.
    - [PoA.v], [PoAFacts.v]: [services/consensus_module/poa]: the task that
      follows whether the node is synchronised, and the main task that produces
      blocks, against the interface [Ports] of the services it calls.  The task
      is synchronised only after a quiet period; under [ChainPorts], the promise
      of those services, it keeps the heights of the chain in order, and its times
      if the predefined blocks have times that fit.
      [PoANode.v] implements the ports with the producer and the importer as the
      adapters of [fuel-core/src/service/adapters] do, while other blocks are
      imported: the chain of the node stays in order, and a produced block is
      committed and accepted by its peers.  [PoASamples.v] runs them.
    - [Sync.v], [SyncFacts.v]: [services/sync]: the state of the heights, the
      cache and its chunks, and the import of a range, against the interface
      [SyncPorts] of the node; the promise of the node is [SafePorts].
      [SyncNode.v] implements them with the importer: only blocks that carry the
      configured seal are added, and with honest peers a range is imported.
      [SyncSamples.v] runs them, and shows a block that is executed twice.
    - [Relayer.v], [RelayerFacts.v]: [services/relayer]: logs, pages, the history
      of events and a run.  The history is exactly that of the settlement layer,
      and it is what the executor is given.
    - [P2P.v], [P2PFacts.v]: [services/p2p]: the table of peers, with slots,
      scores and heartbeats, and the limits on connections.  The table keeps its
      invariant; the slot of a peer that leaves a full table stays closed.
      [P2PSwarm.v] has the reports about reserved nodes inside the wrapper that
      limits them, and the swarm as the source of every order of calls.
      [P2PSwarmFacts.v] shows that the limits hold, [P2PReserved.v] that reserved
      nodes are tracked, and that a dial to one that fails is not repeated.
      [P2PSamples.v] runs them.
    - [GasPriceService.v], [GasPriceServiceFacts.v]: [services/gas_price_service],
      version 1: the service that feeds blocks and costs to [GasPrice.V1], its
      stored metadata, its start and the source of costs.  A start restores the
      algorithm, and taking blocks from the chain matches taking them live; one
      failed commit or one bundle without bytes stops the updates until the next
      start.
      [GasPriceNode.v] composes the two services with stops and restarts: costs
      are counted once.  [GasPriceSamples.v] runs them, and shows a cost that is
      counted twice, a stale algorithm and a fee that is cut.
    - [TxStatus.v], [TxStatusFacts.v]: the status manager, its subscriptions
      and its task.  It answers the latest status; a subscriber gets a prefix of
      the statuses of its transaction, all of them if it keeps up.
    - [OffChain.v], [OffChainFacts.v]: the worker that processes imported
      blocks for the API and keeps the indexes of balances, coins, owners and
      assets.  After any chain of executed blocks in which no forced
      transaction failed while it was executed, the indexes are those of the
      coins and messages in the database, and the supplies of assets have grown
      by what was minted less what was burned; this composes the worker with the
      executor.
    - [CoinsQuery.v], [CoinsQueryFacts.v]: balances and coins to spend, with
      and without the indexes.  Over indexes that follow the ledger both give the
      same balances, the totals of the ledger, and both find coins exactly when
      some cover the amount (a maximum of zero coins excepted).
      [OffChainSamples.v] runs the worker and the queries on the chain of
      [ExecutorSamples.v].
    - [Compression.v], [CompressionFacts.v], [CompressionSamples.v]: compression
      with temporal registries and decompression; over the life of a chain they
      are a round trip.
    - [TxPoolTypes.v], [TxPoolGraph.v], [TxPool.v]: the graph of dependencies,
      the collision manager, the selection and the pool of [services/txpool_v2].
      [TxPoolForest.v], [TxPoolGraphFacts.v], [TxPoolTables.v],
      [TxPoolSelection.v], [TxPoolFacts.v], [TxPoolBlocks.v] hold the lemmas and
      [TxPoolClaims.v] the theorems: an invariant of every reachable state, no
      panic, exact counters, the effect of insertion, removal, extraction and
      blocks.  That an insertion does not panic, and the counters, need sums that
      fit 64 bits and blocks that list a transaction after its dependencies.  The
      pool is that of a build without debug assertions; those of [process_block]
      are modelled, and fail for a block with two transactions of the pool one of
      which depends on the other.
    - [TxPoolPending.v], [TxPoolPendingFacts.v], [TxPoolPendingClaims.v]: the
      pool of transactions that wait for their inputs; every one is answered,
      unless it is inserted again while it waits.
    - [TxPoolWorker.v], [TxPoolWorkerFacts.v]: the worker that owns both pools;
      every submission has an outcome, and the pending pool keeps to its share.
      [TxPoolSamples.v] and [TxPoolWorkerSamples.v] run them.

    ** Parameters

    Code that is not part of the repository is a class with the behaviour that
    the proofs rely on as laws: hashing and root calculation ([Hashing]), the
    virtual machine and the encodings of fuel-tx ([FuelVm], [FuelVmLaws]), the
    binary Merkle tree of fuel-merkle ([BinaryMerkleTree]), the graph of
    petgraph ([StableDiGraph]), the order of hash sets ([HashOrder],
    [ColumnOrder]), WebAssembly ([WasmRuntime]), the registry keys of
    fuel-compression ([RegistryKeys]), receipts and the ids of contracts
    ([ReceiptsAndContracts]), the interval timer of tokio ([TokioInterval]), the
    binary interface of the contract on the settlement layer ([EthAbi]), the
    addresses of libp2p ([Multiaddrs]), and signatures and the recovery of keys
    from them.  The sources of transactions and events, the answers of peers
    ([SyncNetwork]) and of the settlement layer ([EthNode]), the inputs of the
    swarm ([SwarmInput]), the settings of the chain and the size of a serialized
    block for the gas price, the answers of the block committer
    ([honest_committer] says what is relied on), views of past heights, the random numbers of a
    selection ([Rng]) and the clock are parameters too.  Every class has an
    instance, mostly in the files of samples, where the theorems are applied.

    ** Bounds

    Fuel of the executor's loop over a source: a source that shrinks with each
    delivery ends within its size.  Fuel of the walks over the graph of the
    pool: the number of nodes, enough since the graph is a forest towards its
    dependents.  The search for a registry key that is not in use: one more
    than the keys in use.  The pages of a download of the relayer: the number of blocks,
    since a page has at least one.  The trees of blocks hold less than [2^64]
    leaves, which heights of 32 bits ensure; a range to synchronise ends below
    the largest height, and so does a run of the gas price service; its channel
    of costs does not overflow.

    ** Not modelled

    Gossip, requests and discovery on the network and their codecs, the retries
    of the relayer between its runs, the gas price service of version 0, the
    HTTP client of the block committer and the metrics, the services around the
    pool, preconfirmation signatures, the shared sequencer, the schema and
    server of the GraphQL API with its other queries, the iterators of RocksDB
    and the wiring of services: input and output, or tasks around the parts
    above.  The sequential lock [services/src/seqlock.rs], whose correctness
    rests on the memory orderings of its accesses.  The worker for the API is modelled with compression switched
    off; compression is verified on its own.  Compression sees a transaction as
    its compressible fields and the rest: the traversal of a transaction is
    generated by fuel-compression.  The storage of the gas price service fails
    only where the recorded height is read and where a block is committed.  The
    [fault-proving] feature is off, as in the default build. *)
From stdpp Require Export prelude gmap list.
From Stdlib Require Export ZArith Lia.
Open Scope Z_scope.

(** ** Results

    Rust's [Result<A, E>].  The error type comes first so that [result E] is
    a monad. *)
Inductive result (E A : Type) : Type :=
| Ok (a : A)
| Err (e : E).
Arguments Ok {E A} a.
Arguments Err {E A} e.

#[export] Instance result_ret E : MRet (result E) := λ A a, Ok a.
#[export] Instance result_bind E : MBind (result E) := λ A B f m,
  match m with Ok a => f a | Err e => Err e end.
#[export] Instance result_fmap E : FMap (result E) := λ A B f m,
  match m with Ok a => Ok (f a) | Err e => Err e end.

(** [map_err] and [ok_or] of the standard library. *)
Definition map_err {E F A} (f : E → F) (r : result E A) : result F A :=
  match r with Ok a => Ok a | Err e => Err (f e) end.
Definition ok_or {E A} (o : option A) (e : E) : result E A :=
  match o with Some a => Ok a | None => Err e end.

Definition unwrap_or {A} (d : A) (o : option A) : A :=
  match o with Some a => a | None => d end.

Definition is_ok {E A} (r : result E A) : bool :=
  match r with Ok _ => true | Err _ => false end.

(** [iter().map(f).collect::<Result<_, _>>()] *)
Fixpoint result_map {E A B} (f : A → result E B) (l : list A) : result E (list B) :=
  match l with
  | [] => Ok []
  | x :: l => y ← f x; ys ← result_map f l; mret (y :: ys)
  end.
Lemma result_map_ok {E A B} (f : A → result E B) (l : list A) (ys : list B) :
  Forall2 (λ x y, f x = Ok y) l ys → result_map f l = Ok ys.
Proof. induction 1 as [|x y l ys Hx _ IH]; [done|]. cbn. rewrite Hx. cbn. by rewrite IH. Qed.

(** ** Stateful, fallible code

    [ST S E A] is a Rust function that takes [&mut S] and returns
    [Result<A, E>].  The state is returned on the error path as well: an early
    [return Err(..)] (or [?]) keeps every mutation made before it. *)
Definition ST (S E A : Type) : Type := S → result E A * S.

#[export] Instance ST_ret S E : MRet (ST S E) := λ A a s, (Ok a, s).
#[export] Instance ST_bind S E : MBind (ST S E) := λ A B f m s,
  match m s with
  | (Ok a, s') => f a s'
  | (Err e, s') => (Err e, s')
  end.

Definition st_get {S E} : ST S E S := λ s, (Ok s, s).
Definition st_modify {S E} (f : S → S) : ST S E unit := λ s, (Ok (), f s).
Definition st_err {S E A} (e : E) : ST S E A := λ s, (Err e, s).
Definition st_lift {S E A} (r : result E A) : ST S E A := λ s, (r, s).

(** [for x in l { body(x)?; }] *)
Fixpoint st_for {S E A} (f : A → ST S E unit) (l : list A) : ST S E unit :=
  match l with
  | [] => mret ()
  | x :: l => f x ≫= λ _, st_for f l
  end.

(** ** Machine integers

    A machine integer is a [Z] together with the type it is used at; every
    operation of the source names its type, so the model does too. *)
Record int_ty : Type := IntTy { int_min : Z; int_max : Z }.

Definition unsigned (bits : Z) : int_ty := IntTy 0 (2 ^ bits - 1).
Definition signed (bits : Z) : int_ty := IntTy (- 2 ^ (bits - 1)) (2 ^ (bits - 1) - 1).
Definition u8 := unsigned 8.
Definition u16 := unsigned 16.
Definition u32 := unsigned 32.
Definition u64 := unsigned 64.
Definition u128 := unsigned 128.
Definition i64 := signed 64.
Definition i128 := signed 128.
(** The model fixes a 64-bit target. *)
Definition usize := u64.

Definition in_range (t : int_ty) (x : Z) : Prop := int_min t ≤ x ≤ int_max t.
#[export] Instance in_range_dec t x : Decision (in_range t x).
Proof. unfold in_range. apply _. Defined.

Definition clamp (t : int_ty) (x : Z) : Z := Z.max (int_min t) (Z.min x (int_max t)).
Definition fit (t : int_ty) (x : Z) : option Z :=
  if decide (in_range t x) then Some x else None.

Definition saturating_add t a b := clamp t (a + b).
Definition saturating_sub t a b := clamp t (a - b).
Definition saturating_mul t a b := clamp t (a * b).
Definition checked_add t a b := fit t (a + b).
Definition checked_sub t a b := fit t (a - b).
(** Division of machine integers truncates towards zero. *)
Definition checked_div t a b : option Z :=
  if decide (b = 0) then None else fit t (Z.quot a b).
Definition saturating_div t a b := clamp t (Z.quot a b).
(** [saturating_abs] *)
Definition saturating_abs t a := clamp t (Z.abs a).
(** [T::try_from(x)] between integer types *)
Definition try_into (t : int_ty) (x : Z) : option Z := fit t x.
(** [div_ceil] on unsigned integers *)
Definition div_ceil a b := if decide (a mod b = 0) then a / b else a / b + 1.

(** ** Record update

    [r <| f := v |>] is the Rust assignment [r.f = v].  A record type opts in
    with an [Eta] instance, its constructor applied to its projections. *)
Class Eta (R : Type) := eta : R → R.
Ltac record_update p v r :=
  let R := type of r in
  let i := constr:(_ : Eta R) in
  let i := eval red in i in
  let e := eval cbv beta in (i r) in
  let e := eval pattern (p r) in e in
  match e with ?f _ => let t := eval cbv beta in (f v) in exact t end.
Notation "r <| p := v |>" := (ltac:(record_update p v r))
  (at level 1, p at level 99, v at level 200, only parsing).

(** ** Facts about stateful code *)
Lemma bind_case {S E A B} (m : ST S E A) (f : A → ST S E B) s :
  (m ≫= f) s = match m s with (Ok a, s') => f a s' | (Err e, s') => (Err e, s') end.
Proof. reflexivity. Qed.

Lemma st_for_app {S E A} (f : A → ST S E unit) l k s :
  st_for f (l ++ k) s = (st_for f l ≫= λ _, st_for f k) s.
Proof.
  revert s. induction l as [|a l IH]; intros s; [done|]. simpl. rewrite !bind_case.
  destruct (f a s) as [[] s1]; [|done]. by rewrite IH, bind_case.
Qed.

(** A loop all of whose successful steps are in a preorder. *)
Lemma st_for_preorder {S E A} (R : S → S → Prop) (f : A → ST S E unit) l :
  (∀ s, R s s) → (∀ s1 s2 s3, R s1 s2 → R s2 s3 → R s1 s3) →
  (∀ a s r s', f a s = (r, s') → is_ok r = true → R s s') →
  ∀ s u s', st_for f l s = (Ok u, s') → R s s'.
Proof.
  intros Hrefl Htrans Hf. induction l as [|a l IH]; intros s u s'; simpl.
  - by intros [= _ <-].
  - rewrite bind_case. destruct (f a s) as [[] s1] eqn:Hf1; [|done]. intros Hrun.
    eapply Htrans; [by eapply Hf|by eapply IH].
Qed.

(** ** Facts about machine integers *)
Lemma clamp_range t x : int_min t ≤ int_max t → in_range t (clamp t x).
Proof. unfold in_range, clamp. lia. Qed.

Lemma clamp_id t x : in_range t x → clamp t x = x.
Proof. unfold in_range, clamp. lia. Qed.

Lemma clamp_mono t x y : x ≤ y → clamp t x ≤ clamp t y.
Proof. unfold clamp. lia. Qed.

Lemma clamp_le t x : int_min t ≤ x → clamp t x ≤ x.
Proof. unfold clamp. lia. Qed.

Lemma clamp_ge_min t x : int_min t ≤ clamp t x.
Proof. unfold clamp. lia. Qed.

Lemma fit_Some t x y : fit t x = Some y ↔ x = y ∧ in_range t y.
Proof. unfold fit. case_decide; intuition congruence. Qed.

Lemma fit_ok t x : in_range t x → fit t x = Some x.
Proof. intros Hx. by apply fit_Some. Qed.
Lemma fit_None t x : fit t x = None ↔ ¬ in_range t x.
Proof. unfold fit. case_decide; intuition congruence. Qed.

Lemma unsigned_nonempty b : 0 ≤ b → int_min (unsigned b) ≤ int_max (unsigned b).
Proof. intros. simpl. pose proof (Z.pow_pos_nonneg 2 b). lia. Qed.

Lemma unsigned_sat_sub b x y :
  in_range (unsigned b) x → 0 ≤ y → saturating_sub (unsigned b) x y = Z.max 0 (x - y).
Proof. unfold in_range, saturating_sub, clamp; simpl. lia. Qed.

(** The concrete types, with their bounds evaluated: [lia] sees numerals. *)
Ltac int_bounds :=
  change u8 with (IntTy 0 255) in *;
  change u16 with (IntTy 0 65535) in *;
  change u32 with (IntTy 0 4294967295) in *;
  change usize with u64 in *;
  change u64 with (IntTy 0 18446744073709551615) in *;
  change u128 with (IntTy 0 340282366920938463463374607431768211455) in *;
  change i64 with (IntTy (-9223372036854775808) 9223372036854775807) in *;
  change i128 with (IntTy (-170141183460469231731687303715884105728)
                          170141183460469231731687303715884105727) in *.
Ltac int_unfold :=
  unfold saturating_add, saturating_sub, saturating_mul, saturating_div,
    saturating_abs, in_range, clamp in *;
  int_bounds; cbn [int_min int_max] in *.
Ltac int_lia := int_unfold; lia.
(** Closed range conditions, by evaluation. *)
Ltac eval_ranges := vm_compute; repeat split; solve [reflexivity | discriminate].

(** ** Lists *)
Lemma last_drop {A} (l : list A) n : (n < length l)%nat → last (drop n l) = last l.
Proof. intros. rewrite !last_lookup, lookup_drop, length_drop. f_equal. lia. Qed.

Lemma list_filter_all {A} (P : A → Prop) `{∀ x, Decision (P x)} (l : list A) : (∀ x, x ∈ l → P x) → filter P l = l.
Proof.
  induction l as [|x l IH]; intros HP; [done|]. rewrite filter_cons_True by (apply HP; left).
  f_equal. apply IH. intros y Hy. apply HP. by right.
Qed.

Lemma list_filter_ext {A} (P Q : A → Prop) `{∀ x, Decision (P x)} `{∀ x, Decision (Q x)} (l : list A) :
  (∀ x, x ∈ l → P x ↔ Q x) → filter P l = filter Q l.
Proof.
  induction l as [|x l IH]; intros HP; [done|]. rewrite !filter_cons, IH by (intros y Hy; apply HP; by right).
  pose proof (HP x ltac:(left)). repeat case_decide; tauto.
Qed.

Lemma map_to_list_disjoint_union `{Countable K} {A} (m1 m2 : gmap K A) :
  m1 ##ₘ m2 → map_to_list (m1 ∪ m2) ≡ₚ map_to_list m1 ++ map_to_list m2.
Proof.
  intros Hd. apply NoDup_Permutation; [apply NoDup_map_to_list| |].
  - apply NoDup_app. split; [apply NoDup_map_to_list|]. split; [|apply NoDup_map_to_list].
    intros [k a] H1%elem_of_map_to_list H2%elem_of_map_to_list. by eapply map_disjoint_spec.
  - intros [k a]. rewrite elem_of_app, !elem_of_map_to_list. by apply lookup_union_Some.
Qed.

(** ** Sums over finite maps *)
Definition map_sum `{Countable K} {A} (f : A → Z) (m : gmap K A) : Z :=
  map_fold (λ _ a acc, f a + acc) 0 m.

Section map_sum.
Context `{Countable K} {A : Type} (f : A → Z).
Implicit Types (m : gmap K A).

Lemma map_sum_empty : map_sum f (∅ : gmap K A) = 0.
Proof. apply map_fold_empty. Qed.

Lemma map_sum_insert m k a : m !! k = None → map_sum f (<[k := a]> m) = f a + map_sum f m.
Proof. intros Hk. unfold map_sum. rewrite map_fold_insert_L; [done| |done]. intros; lia. Qed.

Lemma map_sum_delete m k a : m !! k = Some a → map_sum f m = f a + map_sum f (delete k m).
Proof.
  intros Hk. rewrite <- (map_sum_insert (delete k m) k a) by apply lookup_delete_eq.
  by rewrite insert_delete_eq, insert_id.
Qed.

Lemma map_sum_nonneg m : (∀ k a, m !! k = Some a → 0 ≤ f a) → 0 ≤ map_sum f m.
Proof.
  induction m as [|k a m Hk IH] using map_ind; intros Hpos.
  - by rewrite map_sum_empty.
  - rewrite map_sum_insert by done.
    pose proof (Hpos k a ltac:(by rewrite lookup_insert_eq)).
    assert (0 ≤ map_sum f m); [|lia].
    apply IH. intros k' a' Hk'. apply (Hpos k'). rewrite lookup_insert_ne; congruence.
Qed.

Lemma map_sum_le_size m b :
  (∀ k a, m !! k = Some a → f a ≤ b) → map_sum f m ≤ Z.of_nat (size m) * b.
Proof.
  induction m as [|k a m Hk IH] using map_ind; intros Hb.
  - by rewrite map_sum_empty, map_size_empty.
  - rewrite map_sum_insert, map_size_insert_None by done.
    pose proof (Hb k a ltac:(by rewrite lookup_insert_eq)).
    assert (map_sum f m ≤ Z.of_nat (size m) * b); [|nia].
    apply IH. intros k' a' Hk'. apply (Hb k'). rewrite lookup_insert_ne; congruence.
Qed.
End map_sum.

(** A map keyed by integers of an interval is no larger than the interval. *)
Lemma map_size_interval {A} (m : gmap Z A) (n : Z) :
  0 ≤ n → (∀ k a, m !! k = Some a → 0 ≤ k < n) → Z.of_nat (size m) ≤ n.
Proof.
  intros Hn Hk. rewrite <- size_dom.
  assert (dom m ⊆ (list_to_set (seqZ 0 n) : gset Z)) as Hsub%subseteq_size.
  { intros k [a Ha]%elem_of_dom. apply elem_of_list_to_set, elem_of_seqZ.
    specialize (Hk k a Ha). lia. }
  rewrite size_list_to_set in Hsub by apply NoDup_seqZ.
  rewrite length_seqZ in Hsub. lia.
Qed.
