(* ===== verification/GasPrice.v ===== *)
(** * The gas price algorithm (crates/fuel-gas-price-algorithm)

    [V0] models v0.rs and [V1] models v1.rs.  A method that takes [&mut self]
    is a function on the updater record; the fallible ones are in the [ST]
    monad, so that what they leave behind on an error is part of the model.
    The [f64] estimate behind [worst_case] is in GasPriceEstimate.v. *)
From stdpp Require Import strings.
From S2P Require Import Prelude.

(** ** Version 0: the execution price alone *)
Module V0.

Inductive Error :=
| SkippedL2Block (expected got : Z).

Record AlgorithmV0 := MkAlgorithmV0 {
  alg_new_exec_price : Z;      (* u64 *)
  alg_for_height : Z;          (* u32 *)
  alg_percentage : Z           (* u64 *)
}.

Record AlgorithmUpdaterV0 := MkUpdaterV0 {
  new_exec_price : Z;                      (* u64 *)
  min_exec_gas_price : Z;                  (* u64 *)
  exec_gas_price_change_percent : Z;       (* u64 *)
  l2_block_height : Z;                     (* u32 *)
  l2_block_fullness_threshold_percent : Z  (* u64 *)
}.

#[export] Instance eta_updater_v0 : Eta AlgorithmUpdaterV0 := λ r,
  MkUpdaterV0 (new_exec_price r) (min_exec_gas_price r)
    (exec_gas_price_change_percent r) (l2_block_height r)
    (l2_block_fullness_threshold_percent r).

Definition new (price min_price percent height threshold : Z) : AlgorithmUpdaterV0 :=
  MkUpdaterV0 (Z.max price min_price) min_price percent height threshold.

Definition change_amount (self : AlgorithmUpdaterV0) (principle : Z) : Z :=
  saturating_div u64
    (saturating_mul u64 principle (exec_gas_price_change_percent self)) 100.

Definition update_exec_gas_price (self : AlgorithmUpdaterV0) (used capacity : Z) : AlgorithmUpdaterV0 :=
  let exec_gas_price := new_exec_price self in
  let fullness_percent :=
    unwrap_or (l2_block_fullness_threshold_percent self)
      (checked_div u64 (saturating_mul u64 used 100) capacity) in
  let exec_gas_price :=
    match Z.compare fullness_percent (l2_block_fullness_threshold_percent self) with
    | Gt | Eq => saturating_add u64 exec_gas_price (change_amount self exec_gas_price)
    | Lt => saturating_sub u64 exec_gas_price (change_amount self exec_gas_price)
    end in
  self <| new_exec_price := Z.max (min_exec_gas_price self) exec_gas_price |>.

Definition update_l2_block_data (height used capacity : Z) : ST AlgorithmUpdaterV0 Error unit := λ self,
  let expected := saturating_add u32 (l2_block_height self) 1 in
  if decide (height ≠ expected) then (Err (SkippedL2Block expected height), self)
  else
    let self := self <| l2_block_height := height |> in
    (Ok (), update_exec_gas_price self used capacity).

Definition algorithm (self : AlgorithmUpdaterV0) : AlgorithmV0 :=
  MkAlgorithmV0 (new_exec_price self) (l2_block_height self)
    (exec_gas_price_change_percent self).

Definition calculate (a : AlgorithmV0) : Z := alg_new_exec_price a.

(** The ranges of the struct's fields. *)
Record wf (u : AlgorithmUpdaterV0) : Prop := {
  wf_price : in_range u64 (new_exec_price u);
  wf_min : in_range u64 (min_exec_gas_price u);
  wf_percent : in_range u64 (exec_gas_price_change_percent u);
  wf_height : in_range u32 (l2_block_height u);
  wf_threshold : in_range u64 (l2_block_fullness_threshold_percent u);
  wf_floor : min_exec_gas_price u ≤ new_exec_price u
}.

End V0.

(** ** Version 1: execution price and DA price *)
Module V1.

Inductive Error :=
| SkippedL2Block (expected got : Z)
| CouldNotCalculateCostPerByte (bytes cost : Z)
| FailedToIncludeL2BlockData (msg : string)
| L2BlockExpectedNotFound (height : Z)
| CouldNotInsertUnrecordedBlock (msg : string)
| CouldNotRemoveUnrecordedBlock (msg : string).

Record AlgorithmV1 := MkAlgorithmV1 {
  alg_new_exec_price : Z;            (* u64 *)
  alg_exec_price_percentage : Z;     (* u64 *)
  alg_new_da_gas_price : Z;          (* u64 *)
  alg_da_gas_price_percentage : Z;   (* u64 *)
  alg_for_height : Z                 (* u32 *)
}.

Definition calculate (a : AlgorithmV1) : Z :=
  saturating_add u64 (alg_new_exec_price a) (alg_new_da_gas_price a).

(** The [UnrecordedBlocks] trait, and its [BTreeMap] implementation. *)
Class UnrecordedBlocks (U : Type) := {
  ub_insert : Z → Z → ST U string unit;
  ub_remove : Z → ST U string (option Z)
}.

#[export] Instance btree_unrecorded_blocks : UnrecordedBlocks (gmap Z Z) := {|
  ub_insert := λ height bytes m, (Ok (), <[height := bytes]> m);
  ub_remove := λ height m, (Ok (m !! height), delete height m)
|}.

(** [ClampedPercentage] is its [u8] value. *)
Definition ClampedPercentage_new (maybe_value : Z) : Z := Z.min maybe_value 100.

Inductive DAGasPriceSafetyMode := Normal | Capped | AlwaysDecrease.

Record L2ActivityTracker := MkTracker {
  max_activity : Z;                  (* u16 *)
  capped_activity_threshold : Z;     (* u16 *)
  decrease_activity_threshold : Z;   (* u16 *)
  chain_activity : Z;                (* u16 *)
  block_activity_threshold : Z       (* ClampedPercentage *)
}.

#[export] Instance eta_tracker : Eta L2ActivityTracker := λ r,
  MkTracker (max_activity r) (capped_activity_threshold r)
    (decrease_activity_threshold r) (chain_activity r) (block_activity_threshold r).

Definition tracker_new_full (normal capped decrease threshold : Z) : L2ActivityTracker :=
  let capped_activity_threshold := saturating_add u16 decrease capped in
  let max_activity := saturating_add u16 capped_activity_threshold normal in
  MkTracker max_activity capped_activity_threshold decrease max_activity threshold.

Definition tracker_new (normal capped decrease activity threshold : Z) : L2ActivityTracker :=
  let tracker := tracker_new_full normal capped decrease threshold in
  tracker <| chain_activity := Z.min activity (max_activity tracker) |>.

Definition tracker_new_always_normal : L2ActivityTracker :=
  tracker_new 100 0 0 100 (ClampedPercentage_new 0).

Definition safety_mode (self : L2ActivityTracker) : DAGasPriceSafetyMode :=
  if decide (capped_activity_threshold self ≤ chain_activity self) then Normal
  else if decide (decrease_activity_threshold self ≤ chain_activity self) then Capped
  else AlwaysDecrease.

Definition tracker_update (self : L2ActivityTracker) (block_usage : Z) : L2ActivityTracker :=
  if decide (block_usage < block_activity_threshold self) then
    self <| chain_activity := saturating_sub u16 (chain_activity self) 1 |>
  else
    self <| chain_activity :=
              Z.min (saturating_add u16 (chain_activity self) 1) (max_activity self) |>.

Record AlgorithmUpdaterV1 := MkUpdaterV1 {
  new_scaled_exec_price : Z;                (* u64 *)
  min_exec_gas_price : Z;                   (* u64 *)
  exec_gas_price_change_percent : Z;        (* u16 *)
  l2_block_height : Z;                      (* u32 *)
  l2_block_fullness_threshold_percent : Z;  (* ClampedPercentage *)
  new_scaled_da_gas_price : Z;              (* u64 *)
  gas_price_factor : Z;                     (* NonZeroU64 *)
  min_da_gas_price : Z;                     (* u64 *)
  max_da_gas_price : Z;                     (* u64 *)
  max_da_gas_price_change_percent : Z;      (* u16 *)
  total_da_rewards : Z;                     (* u128 *)
  latest_known_total_da_cost : Z;           (* u128 *)
  projected_total_da_cost : Z;              (* u128 *)
  da_p_component : Z;                       (* i64 *)
  da_d_component : Z;                       (* i64 *)
  last_profit : Z;                          (* i128 *)
  second_to_last_profit : Z;                (* i128 *)
  latest_da_cost_per_byte : Z;              (* u128 *)
  l2_activity : L2ActivityTracker;
  unrecorded_blocks_bytes : Z               (* u128 *)
}.

#[export] Instance eta_updater_v1 : Eta AlgorithmUpdaterV1 := λ r,
  MkUpdaterV1 (new_scaled_exec_price r) (min_exec_gas_price r)
    (exec_gas_price_change_percent r) (l2_block_height r)
    (l2_block_fullness_threshold_percent r) (new_scaled_da_gas_price r)
    (gas_price_factor r) (min_da_gas_price r) (max_da_gas_price r)
    (max_da_gas_price_change_percent r) (total_da_rewards r)
    (latest_known_total_da_cost r) (projected_total_da_cost r)
    (da_p_component r) (da_d_component r) (last_profit r)
    (second_to_last_profit r) (latest_da_cost_per_byte r) (l2_activity r)
    (unrecorded_blocks_bytes r).

Definition descaled_exec_price (self : AlgorithmUpdaterV1) : Z :=
  new_scaled_exec_price self / gas_price_factor self.

Definition descaled_da_price (self : AlgorithmUpdaterV1) : Z :=
  new_scaled_da_gas_price self / gas_price_factor self.

Definition algorithm (self : AlgorithmUpdaterV1) : AlgorithmV1 :=
  MkAlgorithmV1 (descaled_exec_price self) (exec_gas_price_change_percent self)
    (descaled_da_price self) (max_da_gas_price_change_percent self)
    (l2_block_height self).

Definition min_scaled_exec_gas_price (self : AlgorithmUpdaterV1) : Z :=
  saturating_mul u64 (min_exec_gas_price self) (gas_price_factor self).

Definition min_scaled_da_gas_price (self : AlgorithmUpdaterV1) : Z :=
  saturating_mul u64 (min_da_gas_price self) (gas_price_factor self).

Definition max_scaled_da_gas_price (self : AlgorithmUpdaterV1) : Z :=
  saturating_mul u64 (Z.max (max_da_gas_price self) (min_da_gas_price self))
    (gas_price_factor self).

Definition exec_change (self : AlgorithmUpdaterV1) (principle : Z) : Z :=
  saturating_div u64
    (saturating_mul u64 principle (exec_gas_price_change_percent self)) 100.

(** i128, although every operation inside is on u64 *)
Definition max_change (self : AlgorithmUpdaterV1) : Z :=
  saturating_div u64
    (saturating_mul u64 (new_scaled_da_gas_price self)
       (max_da_gas_price_change_percent self)) 100.

Definition p (self : AlgorithmUpdaterV1) : Z :=
  saturating_mul i128
    (unwrap_or 0 (checked_div i128 (last_profit self) (da_p_component self))) (-1).

Definition d (self : AlgorithmUpdaterV1) : Z :=
  let slope := saturating_sub i128 (last_profit self) (second_to_last_profit self) in
  saturating_mul i128 (unwrap_or 0 (checked_div i128 slope (da_d_component self))) (-1).

Definition da_change (self : AlgorithmUpdaterV1) (p d : Z) : Z :=
  let scaled_pd_change :=
    saturating_mul i128 (saturating_add i128 p d) (gas_price_factor self) in
  let clamped_change := Z.min (saturating_abs i128 scaled_pd_change) (max_change self) in
  saturating_mul i128 (Z.sgn scaled_pd_change) clamped_change.

Definition da_change_accounting_for_activity (self : AlgorithmUpdaterV1) (maybe_da_change : Z) : Z :=
  if decide (0 < maybe_da_change) then
    match safety_mode (l2_activity self) with
    | Normal => maybe_da_change
    | Capped => 0
    | AlwaysDecrease => saturating_mul i128 (max_change self) (-1)
    end
  else maybe_da_change.

Definition update_da_gas_price (self : AlgorithmUpdaterV1) : AlgorithmUpdaterV1 :=
  let maybe_scaled_da_change := da_change self (p self) (d self) in
  let scaled_da_change := da_change_accounting_for_activity self maybe_scaled_da_change in
  let maybe_new_scaled_da_gas_price :=
    unwrap_or (if decide (0 < scaled_da_change) then int_max u64 else 0)
      (checked_add i128 (new_scaled_da_gas_price self) scaled_da_change ≫= try_into u64) in
  self <| new_scaled_da_gas_price :=
            Z.min (Z.max (min_scaled_da_gas_price self) maybe_new_scaled_da_gas_price)
                  (max_scaled_da_gas_price self) |>.

Definition update_exec_gas_price (self : AlgorithmUpdaterV1) (used capacity : Z) : AlgorithmUpdaterV1 :=
  let threshold := l2_block_fullness_threshold_percent self in
  let scaled_exec_gas_price := new_scaled_exec_price self in
  let fullness_percent :=
    unwrap_or threshold (checked_div u64 (saturating_mul u64 used 100) capacity) in
  let scaled_exec_gas_price :=
    match Z.compare fullness_percent threshold with
    | Gt | Eq => saturating_add u64 scaled_exec_gas_price (exec_change self scaled_exec_gas_price)
    | Lt => saturating_sub u64 scaled_exec_gas_price (exec_change self scaled_exec_gas_price)
    end in
  self <| new_scaled_exec_price :=
            Z.max (min_scaled_exec_gas_price self) scaled_exec_gas_price |>.

Definition update_last_profit (self : AlgorithmUpdaterV1) (new_profit : Z) : AlgorithmUpdaterV1 :=
  let self := self <| second_to_last_profit := last_profit self |> in
  self <| last_profit := new_profit |>.

Definition clamped_rewards_as_i128 (self : AlgorithmUpdaterV1) : Z :=
  unwrap_or (int_max i128) (try_into i128 (total_da_rewards self)).

Definition clamped_projected_cost_as_i128 (self : AlgorithmUpdaterV1) : Z :=
  unwrap_or (int_max i128) (try_into i128 (projected_total_da_cost self)).

Definition da_portion_of_fee (self : AlgorithmUpdaterV1) (fee_wei : Z) : Z :=
  let numerator := saturating_mul u128 fee_wei (descaled_da_price self) in
  let denominator :=
    saturating_add u128 (descaled_exec_price self) (descaled_da_price self) in
  if decide (denominator = 0) then 0 else div_ceil numerator denominator.

Definition update_projected_da_cost (self : AlgorithmUpdaterV1) (block_bytes : Z) : AlgorithmUpdaterV1 :=
  let block_projected_da_cost :=
    saturating_mul u128 block_bytes (latest_da_cost_per_byte self) in
  self <| projected_total_da_cost :=
            saturating_add u128 (projected_total_da_cost self) block_projected_da_cost |>.

Definition update_da_rewards (self : AlgorithmUpdaterV1) (fee_wei : Z) : AlgorithmUpdaterV1 :=
  let block_da_reward := da_portion_of_fee self fee_wei in
  self <| total_da_rewards := saturating_add u128 (total_da_rewards self) block_da_reward |>.

Definition update_activity (self : AlgorithmUpdaterV1) (used capacity : Z) : AlgorithmUpdaterV1 :=
  let block_activity := saturating_mul u64 used 100 / capacity in
  let usage := ClampedPercentage_new (unwrap_or 100 (try_into u8 block_activity)) in
  self <| l2_activity := tracker_update (l2_activity self) usage |>.

Definition recalculate_projected_cost (self : AlgorithmUpdaterV1) : AlgorithmUpdaterV1 :=
  let projection_portion :=
    saturating_mul u128 (unrecorded_blocks_bytes self) (latest_da_cost_per_byte self) in
  self <| projected_total_da_cost :=
            saturating_add u128 (latest_known_total_da_cost self) projection_portion |>.

(** The part of [update_l2_block_data] between the height check and the
    insertion into the unrecorded blocks. *)
Definition update_prices_for_block (self : AlgorithmUpdaterV1)
    (height used capacity block_bytes fee_wei : Z) : AlgorithmUpdaterV1 :=
  let self := self <| l2_block_height := height |> in
  let self := update_da_rewards self fee_wei in
  let rewards := clamped_rewards_as_i128 self in
  let self := update_projected_da_cost self block_bytes in
  let projected_total_da_cost := clamped_projected_cost_as_i128 self in
  let last_profit := saturating_sub i128 rewards projected_total_da_cost in
  let self := update_last_profit self last_profit in
  let self := update_activity self used capacity in
  let self := update_exec_gas_price self used capacity in
  update_da_gas_price self.

Section unrecorded.
Context {U : Type} `{UnrecordedBlocks U}.

Definition update_l2_block_data (height used capacity block_bytes fee_wei : Z)
    : ST (AlgorithmUpdaterV1 * U) Error unit := λ '(self, unrecorded_blocks),
  let expected := saturating_add u32 (l2_block_height self) 1 in
  if decide (height ≠ expected) then
    (Err (SkippedL2Block expected height), (self, unrecorded_blocks))
  else
    let self := update_prices_for_block self height used capacity block_bytes fee_wei in
    match ub_insert height block_bytes unrecorded_blocks with
    | (Err e, unrecorded_blocks) =>
        (Err (CouldNotInsertUnrecordedBlock e), (self, unrecorded_blocks))
    | (Ok _, unrecorded_blocks) =>
        let self := self <| unrecorded_blocks_bytes :=
          saturating_add u128 (unrecorded_blocks_bytes self) block_bytes |> in
        (Ok (), (self, unrecorded_blocks))
    end.

(** The loop of [update_unrecorded_block_bytes]: [total] is its accumulator. *)
Fixpoint remove_heights (heights : list Z) (total : Z) : ST U Error Z := λ unrecorded_blocks,
  match heights with
  | [] => (Ok total, unrecorded_blocks)
  | expected_height :: heights =>
      match ub_remove expected_height unrecorded_blocks with
      | (Err e, unrecorded_blocks) =>
          (Err (CouldNotRemoveUnrecordedBlock e), unrecorded_blocks)
      | (Ok (Some bytes), unrecorded_blocks) =>
          remove_heights heights (saturating_add u128 total bytes) unrecorded_blocks
      | (Ok None, unrecorded_blocks) => remove_heights heights total unrecorded_blocks
      end
  end.

(** The heights a [RangeInclusive<u32>] iterates over, in order. *)
Definition range_heights (heights : Z * Z) : list Z :=
  seqZ heights.1 (heights.2 - heights.1 + 1).

Definition update_unrecorded_block_bytes (heights : Z * Z)
    : ST (AlgorithmUpdaterV1 * U) Error unit := λ '(self, unrecorded_blocks),
  match remove_heights (range_heights heights) 0 unrecorded_blocks with
  | (Err e, unrecorded_blocks) => (Err e, (self, unrecorded_blocks))
  | (Ok total, unrecorded_blocks) =>
      let self := self <| unrecorded_blocks_bytes :=
        saturating_sub u128 (unrecorded_blocks_bytes self) total |> in
      (Ok (), (self, unrecorded_blocks))
  end.

Definition da_block_update (heights : Z * Z) (recorded_bytes recording_cost : Z)
    : ST (AlgorithmUpdaterV1 * U) Error unit := λ st,
  match update_unrecorded_block_bytes heights st with
  | (Err e, st) => (Err e, st)
  | (Ok _, (self, unrecorded_blocks)) =>
      let new_da_block_cost :=
        saturating_add u128 (latest_known_total_da_cost self) recording_cost in
      let self := self <| latest_known_total_da_cost := new_da_block_cost |> in
      match checked_div u128 recording_cost recorded_bytes with
      | None =>
          (Err (CouldNotCalculateCostPerByte recorded_bytes recording_cost),
           (self, unrecorded_blocks))
      | Some compressed_cost_per_bytes =>
          let self := self <| latest_da_cost_per_byte := compressed_cost_per_bytes |> in
          (Ok (), (self, unrecorded_blocks))
      end
  end.

Definition update_da_record_data (heights : Z * Z) (recorded_bytes recording_cost : Z)
    : ST (AlgorithmUpdaterV1 * U) Error unit := λ st,
  if decide (heights.1 ≤ heights.2) then
    match da_block_update heights recorded_bytes recording_cost st with
    | (Err e, st) => (Err e, st)
    | (Ok _, (self, unrecorded_blocks)) =>
        let self := recalculate_projected_cost self in
        let self := update_da_gas_price self in
        (Ok (), (self, unrecorded_blocks))
    end
  else (Ok (), st).

End unrecorded.

End V1.
