(* ===== verification/GasPriceFacts.v ===== *)
(** * Properties of the gas price algorithm

    [V0Facts] and [V1Facts] hold the theorems about [GasPrice.V0] and
    [GasPrice.V1]: field ranges, the price envelope, the per-block rate limit,
    the reaction to profit and to activity, and the accounting of bytes that
    have not been recorded on the DA chain. *)
From stdpp Require Import strings.
From S2P Require Import Prelude GasPrice.

(** ** Shared arithmetic *)

(** A percentage of a price, computed with saturation, is between zero and the
    exact percentage. *)
Lemma percent_bounds price percent :
  in_range u64 price → 0 ≤ percent →
  0 ≤ saturating_div u64 (saturating_mul u64 price percent) 100 ≤ price * percent / 100
  ∧ in_range u64 (saturating_div u64 (saturating_mul u64 price percent) 100).
Proof.
  intros Hp Hc. unfold saturating_div.
  assert (0 ≤ saturating_mul u64 price percent ≤ price * percent
          ∧ saturating_mul u64 price percent ≤ 18446744073709551615) as (Hm & Hm').
  { int_unfold. nia. }
  rewrite Z.quot_div_nonneg by lia.
  pose proof (Z.div_le_mono _ _ 100 ltac:(lia) (proj2 Hm)).
  pose proof (Z.div_pos (saturating_mul u64 price percent) 100).
  pose proof (Z.div_le_upper_bound (saturating_mul u64 price percent) 100
                18446744073709551615 ltac:(lia)).
  int_unfold. lia.
Qed.

(** A block fullness, as a percentage of the capacity. *)
Lemma checked_percent used capacity :
  0 < capacity → in_range u64 used →
  checked_div u64 (saturating_mul u64 used 100) capacity
  = Some (saturating_mul u64 used 100 / capacity).
Proof.
  intros Hcap Hused. unfold checked_div. rewrite decide_False by lia.
  assert (in_range u64 (saturating_mul u64 used 100)) as Hm by (apply clamp_range; done).
  revert Hm. generalize (saturating_mul u64 used 100). intros y Hy.
  rewrite Z.quot_div_nonneg by int_lia. apply fit_Some. split; [done|].
  pose proof (Z.div_pos y capacity). pose proof (Z.div_le_upper_bound y capacity y).
  int_unfold. nia.
Qed.

Module V0Facts.
Import V0.

(** A block at the expected height keeps the updater well formed, moves the
    price by at most [exec_gas_price_change_percent] percent, upwards for a
    block at least as full as the threshold and downwards otherwise, and never
    below the minimum; a block at any other height is an error that leaves the
    updater alone. *)
Theorem v0_block_update u height used capacity :
  wf u → in_range u32 height → in_range u64 used → in_range u64 capacity → 0 < capacity →
  let x := new_exec_price u in
  let delta := x * exec_gas_price_change_percent u / 100 in
  let '(r, u') := update_l2_block_data height used capacity u in
  let x' := calculate (algorithm u') in
  wf u'
  ∧ (height = saturating_add u32 (l2_block_height u) 1 →
     r = Ok () ∧ l2_block_height u' = height
     ∧ (if decide (l2_block_fullness_threshold_percent u ≤ saturating_mul u64 used 100 / capacity)
        then x ≤ x' ≤ x + delta else x - delta ≤ x' ≤ x))
  ∧ (height ≠ saturating_add u32 (l2_block_height u) 1 →
     r = Err (SkippedL2Block (saturating_add u32 (l2_block_height u) 1) height) ∧ u' = u).
Proof.
  intros Hwf Hh Hused Hcap Hcap' x delta. unfold update_l2_block_data. case_decide as Hd; [done|].
  assert (0 ≤ exec_gas_price_change_percent u) as Hpct by (destruct Hwf; int_lia).
  pose proof (wf_price u Hwf) as Hx. pose proof (wf_min u Hwf) as Hmin.
  pose proof (wf_floor u Hwf) as Hfloor.
  destruct (percent_bounds x _ Hx Hpct) as [Hc Hc'].
  unfold update_exec_gas_price, algorithm, calculate.
  cbn [new_exec_price alg_new_exec_price l2_block_height min_exec_gas_price
       exec_gas_price_change_percent l2_block_fullness_threshold_percent].
  rewrite checked_percent by done. cbn [unwrap_or].
  unfold change_amount; cbn [exec_gas_price_change_percent].
  fold x in Hfloor, Hx |- *. fold delta in Hc.
  revert Hc Hc'. generalize (saturating_div u64 (saturating_mul u64 x (exec_gas_price_change_percent u)) 100).
  intros c Hc Hc'. generalize (saturating_mul u64 used 100 / capacity); intros full.
  split; [|split; [|done]].
  - destruct Hwf. constructor; try assumption; cbn [new_exec_price min_exec_gas_price];
      destruct (full ?= _); int_lia.
  - intros _. split_and!; [done..|].
    destruct (Z.compare_spec full (l2_block_fullness_threshold_percent u));
      case_decide; try lia; int_lia.
Qed.

Lemma v0_block_update_witness :
  wf (new 100 10 10 5 50)
  ∧ wf (update_l2_block_data 6 60 100 (new 100 10 10 5 50)).2
  ∧ calculate (algorithm (update_l2_block_data 6 60 100 (new 100 10 10 5 50)).2) = 110.
Proof.
  assert (wf (new 100 10 10 5 50)) as Hwf by (constructor; eval_ranges).
  split_and!; [done| |reflexivity].
  apply (v0_block_update (new 100 10 10 5 50) 6 60 100 Hwf); [eval_ranges..|lia].
Defined.

End V0Facts.

Module V1Facts.
Import V1.

(** The ranges of the fields of the updater. *)
Record tracker_wf (a : L2ActivityTracker) : Prop := {
  wf_max_activity : in_range u16 (max_activity a);
  wf_activity : 0 ≤ chain_activity a ≤ max_activity a;
  wf_thresholds :
    0 ≤ decrease_activity_threshold a ≤ capped_activity_threshold a
    ∧ capped_activity_threshold a ≤ max_activity a
}.

Record wf (u : AlgorithmUpdaterV1) : Prop := {
  wf_exec : in_range u64 (new_scaled_exec_price u);
  wf_min_exec : in_range u64 (min_exec_gas_price u);
  wf_exec_percent : in_range u16 (exec_gas_price_change_percent u);
  wf_height : in_range u32 (l2_block_height u);
  wf_threshold : 0 ≤ l2_block_fullness_threshold_percent u ≤ 100;
  wf_da : in_range u64 (new_scaled_da_gas_price u);
  wf_factor : in_range u64 (gas_price_factor u) ∧ 0 < gas_price_factor u;
  wf_min_da : in_range u64 (min_da_gas_price u);
  wf_max_da : in_range u64 (max_da_gas_price u);
  wf_da_percent : in_range u16 (max_da_gas_price_change_percent u);
  wf_rewards : in_range u128 (total_da_rewards u);
  wf_known_cost : in_range u128 (latest_known_total_da_cost u);
  wf_projected_cost : in_range u128 (projected_total_da_cost u);
  wf_p : in_range i64 (da_p_component u);
  wf_d : in_range i64 (da_d_component u);
  wf_profit : in_range i128 (last_profit u);
  wf_profit2 : in_range i128 (second_to_last_profit u);
  wf_cost_per_byte : in_range u128 (latest_da_cost_per_byte u);
  wf_tracker : tracker_wf (l2_activity u);
  wf_bytes : in_range u128 (unrecorded_blocks_bytes u)
}.

(** An update of one field keeps [wf] when the new value is in range; values
    produced by a saturating operation always are. *)
Ltac wf_field H :=
  destruct H; constructor; try assumption; try (apply clamp_range; discriminate).

(** *** The DA price *)

Lemma max_change_bounds u :
  wf u → 0 ≤ max_change u ≤ new_scaled_da_gas_price u * max_da_gas_price_change_percent u / 100
         ∧ in_range u64 (max_change u).
Proof.
  intros []. apply percent_bounds; [done|]. int_lia.
Qed.

(** The change asked for by the controller never exceeds the configured
    percentage of the current price. *)
Lemma da_change_bound u p d : wf u → Z.abs (da_change u p d) ≤ max_change u.
Proof.
  intros Hwf. destruct (max_change_bounds u Hwf) as ([Hm _] & Hr).
  unfold da_change. set (x := saturating_mul i128 (saturating_add i128 p d) _).
  assert (0 ≤ saturating_abs i128 x) by int_lia.
  set (y := Z.min (saturating_abs i128 x) (max_change u)).
  assert (0 ≤ y ≤ max_change u) by lia.
  destruct (Z.sgn_spec x) as [[_ ->]|[[_ ->]|[_ ->]]]; int_lia.
Qed.

Lemma da_change_sign u p d :
  wf u → (p + d ≤ 0 → da_change u p d ≤ 0) ∧ (0 ≤ p + d → 0 ≤ da_change u p d).
Proof.
  intros Hwf. destruct (max_change_bounds u Hwf) as ([Hm _] & Hr).
  pose proof (wf_factor u Hwf) as [_ Hf].
  unfold da_change. set (x := saturating_mul i128 (saturating_add i128 p d) _).
  assert ((p + d ≤ 0 → x ≤ 0) ∧ (0 ≤ p + d → 0 ≤ x)) as Hx.
  { subst x. unfold saturating_mul, saturating_add.
    assert ((p + d ≤ 0 → clamp i128 (p + d) ≤ 0) ∧ (0 ≤ p + d → 0 ≤ clamp i128 (p + d)))
      as [H1 H2] by int_lia.
    revert H1 H2. generalize (clamp i128 (p + d)). intros z H1 H2. int_unfold. nia. }
  assert (0 ≤ saturating_abs i128 x) by int_lia.
  set (y := Z.min (saturating_abs i128 x) (max_change u)).
  assert (0 ≤ y) by lia.
  destruct (Z.sgn_spec x) as [[? ->]|[[? ->]|[? ->]]]; int_lia.
Qed.

Lemma accounting_bound u c :
  wf u → Z.abs c ≤ max_change u → Z.abs (da_change_accounting_for_activity u c) ≤ max_change u.
Proof.
  intros Hwf Hc. destruct (max_change_bounds u Hwf) as ([Hm _] & Hr).
  unfold da_change_accounting_for_activity. case_decide; [|done].
  destruct (safety_mode _); int_lia.
Qed.

Lemma scaled_da_bounds_ordered u :
  wf u → 0 ≤ min_scaled_da_gas_price u ≤ max_scaled_da_gas_price u
         ∧ max_scaled_da_gas_price u ≤ int_max u64.
Proof.
  intros Hwf. pose proof (wf_factor u Hwf). pose proof (wf_min_da u Hwf).
  unfold min_scaled_da_gas_price, max_scaled_da_gas_price, saturating_mul.
  assert (clamp u64 (min_da_gas_price u * gas_price_factor u)
          ≤ clamp u64 (Z.max (max_da_gas_price u) (min_da_gas_price u) * gas_price_factor u)).
  { apply clamp_mono. nia. }
  int_lia.
Qed.

(** The unclamped new DA price: the old one plus the change, saturated at the
    bounds of [u64]. *)
Lemma update_da_gas_price_eq u c :
  wf u → c = da_change_accounting_for_activity u (da_change u (p u) (d u)) →
  new_scaled_da_gas_price (update_da_gas_price u) =
    Z.min (Z.max (min_scaled_da_gas_price u) (clamp u64 (new_scaled_da_gas_price u + c)))
      (max_scaled_da_gas_price u).
Proof.
  intros Hwf ->. unfold update_da_gas_price; cbn [new_scaled_da_gas_price].
  set (c := da_change_accounting_for_activity _ _).
  assert (Z.abs c ≤ max_change u) as Hc.
  { apply accounting_bound, da_change_bound; done. }
  destruct (max_change_bounds u Hwf) as (_ & Hr). pose proof (wf_da u Hwf) as Hd.
  do 2 f_equal. unfold checked_add.
  assert (in_range i128 (new_scaled_da_gas_price u + c)) as Hin by int_lia.
  rewrite (proj2 (fit_Some _ _ _) (conj eq_refl Hin)). cbn [mbind option_bind].
  unfold try_into. destruct (fit u64 _) as [z|] eqn:Hz; cbn [unwrap_or].
  - apply fit_Some in Hz as [<- Hz]. by rewrite clamp_id.
  - apply fit_None in Hz. case_decide; int_lia.
Qed.

Definition in_envelope (u : AlgorithmUpdaterV1) : Prop :=
  min_scaled_da_gas_price u ≤ new_scaled_da_gas_price u ≤ max_scaled_da_gas_price u.

Lemma quot_between x c :
  0 < c → (0 ≤ x → 0 ≤ Z.quot x c ≤ x) ∧ (x ≤ 0 → x ≤ Z.quot x c ≤ 0).
Proof.
  intros Hc.
  assert (∀ y, 0 ≤ y → 0 ≤ y / c ≤ y) as Hdiv.
  { intros y Hy. split; [apply Z.div_pos; lia|]. apply Z.div_le_upper_bound; [lia|]. nia. }
  split; intros Hs.
  - rewrite Z.quot_div_nonneg by lia. auto.
  - rewrite <- (Z.opp_involutive x), Z.quot_opp_l, Z.quot_div_nonneg by lia.
    specialize (Hdiv (- x)). lia.
Qed.

(** The sign of the P and D terms: a positive profit (or slope) asks for a
    decrease. *)
Lemma quot_term_sign x c :
  in_range i128 x → in_range i64 c → 0 < c →
  let t := saturating_mul i128 (unwrap_or 0 (checked_div i128 x c)) (-1) in
  (0 ≤ x → t ≤ 0) ∧ (x ≤ 0 → 0 ≤ t).
Proof.
  intros Hx Hc Hpos t. subst t. unfold checked_div. rewrite decide_False by lia.
  pose proof (quot_between x c Hpos) as [H1 H2]. revert H1 H2.
  generalize (Z.quot x c). intros y H1 H2.
  destruct (fit i128 y) as [q|] eqn:Hq; cbn [unwrap_or].
  - apply fit_Some in Hq as [<- Hq]. int_lia.
  - apply fit_None in Hq. exfalso. apply Hq. int_lia.
Qed.

Lemma pd_sign u :
  wf u → 0 < da_p_component u → 0 < da_d_component u →
  (0 ≤ last_profit u → second_to_last_profit u ≤ last_profit u → p u + d u ≤ 0)
  ∧ (last_profit u ≤ 0 → last_profit u ≤ second_to_last_profit u → 0 ≤ p u + d u).
Proof.
  intros Hwf HP HD.
  pose proof (quot_term_sign _ _ (wf_profit u Hwf) (wf_p u Hwf) HP) as [Hp1 Hp2].
  assert (in_range i128 (saturating_sub i128 (last_profit u) (second_to_last_profit u)))
    as Hslope by int_lia.
  pose proof (quot_term_sign _ _ Hslope (wf_d u Hwf) HD) as [Hd1 Hd2].
  fold (p u) in Hp1, Hp2. fold (d u) in Hd1, Hd2.
  pose proof (wf_profit u Hwf). pose proof (wf_profit2 u Hwf).
  split; intros Hs1 Hs2.
  - specialize (Hp1 Hs1). assert (d u ≤ 0); [|lia]. apply Hd1. int_lia.
  - specialize (Hp2 Hs1). assert (0 ≤ d u); [|lia]. apply Hd2. int_lia.
Qed.

(** The new price is between the old price and the old price plus the change,
    as long as the old price is inside the envelope. *)
Lemma update_da_gas_price_between u c :
  wf u → in_envelope u → c = da_change_accounting_for_activity u (da_change u (p u) (d u)) →
  let x := new_scaled_da_gas_price u in
  let x' := new_scaled_da_gas_price (update_da_gas_price u) in
  (0 ≤ c → x ≤ x' ≤ x + c) ∧ (c ≤ 0 → x + c ≤ x' ≤ x).
Proof.
  intros Hwf Henv Hc x x'. subst x x'. rewrite (update_da_gas_price_eq u c Hwf Hc).
  unfold in_envelope in Henv. pose proof (scaled_da_bounds_ordered u Hwf).
  pose proof (wf_da u Hwf). int_lia.
Qed.

(** *** Ranges are preserved *)

Lemma in_range_max t x y : in_range t x → in_range t y → in_range t (Z.max x y).
Proof. unfold in_range. lia. Qed.

Lemma saturating_in_range t x :
  int_min t ≤ int_max t → in_range t (clamp t x).
Proof. apply clamp_range. Qed.

Lemma wf_update_da_gas_price u : wf u → wf (update_da_gas_price u).
Proof.
  intros Hwf. pose proof (update_da_gas_price_eq u _ Hwf eq_refl) as Heq.
  pose proof (scaled_da_bounds_ordered u Hwf).
  assert (in_range u64 (new_scaled_da_gas_price (update_da_gas_price u))) as Hda.
  { rewrite Heq. int_lia. }
  wf_field Hwf.
Qed.

Lemma exec_change_bounds u x :
  wf u → in_range u64 x →
  0 ≤ exec_change u x ≤ x * exec_gas_price_change_percent u / 100
  ∧ in_range u64 (exec_change u x).
Proof. intros [] Hx. apply percent_bounds; [done|]. int_lia. Qed.

Lemma wf_update_exec_gas_price u used capacity :
  wf u → wf (update_exec_gas_price u used capacity).
Proof.
  intros Hwf.
  assert (in_range u64 (new_scaled_exec_price (update_exec_gas_price u used capacity))) as He.
  { unfold update_exec_gas_price; cbn [new_scaled_exec_price].
    apply in_range_max; [apply clamp_range; done|].
    destruct (_ ?= _); apply clamp_range; done. }
  wf_field Hwf.
Qed.

Lemma tracker_wf_update a usage : tracker_wf a → tracker_wf (tracker_update a usage).
Proof.
  intros []. unfold tracker_update. case_decide; constructor; cbn; int_lia.
Qed.

Lemma clamped_as_i128_range x : in_range u128 x → in_range i128 (unwrap_or (int_max i128) (try_into i128 x)).
Proof.
  intros Hx. unfold try_into. destruct (fit i128 x) as [y|] eqn:Hy; cbn.
  - by apply fit_Some in Hy as [_ ?].
  - int_lia.
Qed.

Lemma wf_update_prices u height used capacity bytes fee :
  wf u → in_range u32 height → wf (update_prices_for_block u height used capacity bytes fee).
Proof.
  intros Hwf Hh. unfold update_prices_for_block.
  apply wf_update_da_gas_price, wf_update_exec_gas_price.
  set (u1 := update_projected_da_cost _ bytes).
  assert (wf u1) as Hwf1.
  { wf_field Hwf. }
  set (profit := saturating_sub i128 _ _).
  assert (in_range i128 profit) as Hprofit by (apply clamp_range; done).
  wf_field Hwf1. by apply tracker_wf_update.
Qed.

Section updates.
Context {U : Type} `{UnrecordedBlocks U}.
Implicit Types (u : AlgorithmUpdaterV1) (ub : U).

Lemma wf_update_l2 u ub height used capacity bytes fee :
  wf u → in_range u32 height →
  wf (update_l2_block_data height used capacity bytes fee (u, ub)).2.1.
Proof.
  intros Hwf Hh. unfold update_l2_block_data. case_decide; [done|].
  pose proof (wf_update_prices u height used capacity bytes fee Hwf Hh) as Hwf'.
  revert Hwf'. generalize (update_prices_for_block u height used capacity bytes fee).
  intros u1 Hwf1. destruct (ub_insert _ _ _) as [[] ub']; cbn [fst snd]; [|done].
  wf_field Hwf1.
Qed.

Lemma wf_update_unrecorded u ub hs :
  wf u → wf (update_unrecorded_block_bytes hs (u, ub)).2.1.
Proof.
  intros Hwf. unfold update_unrecorded_block_bytes.
  destruct (remove_heights _ _ _) as [[] ub']; cbn [fst snd]; [|done].
  wf_field Hwf.
Qed.

Lemma wf_da_block_update u ub hs bytes cost :
  wf u → wf (da_block_update hs bytes cost (u, ub)).2.1.
Proof.
  intros Hwf. unfold da_block_update. pose proof (wf_update_unrecorded u ub hs Hwf) as Hwf1.
  destruct (update_unrecorded_block_bytes hs (u, ub)) as [[] [u1 ub1]]; cbn [fst snd] in *; [|done].
  destruct (checked_div u128 cost bytes) as [q|] eqn:Hq; cbn [fst snd].
  - assert (in_range u128 q) as Hq'.
    { unfold checked_div in Hq. case_decide; [done|]. by apply fit_Some in Hq as [_ ?]. }
    wf_field Hwf1.
  - wf_field Hwf1.
Qed.

Lemma wf_update_da u ub hs bytes cost :
  wf u → wf (update_da_record_data hs bytes cost (u, ub)).2.1.
Proof.
  intros Hwf. unfold update_da_record_data. case_decide; [|done].
  pose proof (wf_da_block_update u ub hs bytes cost Hwf) as Hwf1.
  destruct (da_block_update hs bytes cost (u, ub)) as [[] [u1 ub1]]; cbn [fst snd] in *; [|done].
  apply wf_update_da_gas_price. wf_field Hwf1.
Qed.
End updates.

(** *** Bytes waiting to be recorded

    With the [BTreeMap] implementation, the counter of unrecorded bytes is the
    sum of the map's values. *)
Record accounting (u : AlgorithmUpdaterV1) (m : gmap Z Z) : Prop := {
  acc_sum : unrecorded_blocks_bytes u = map_sum id m;
  acc_heights : ∀ h b, m !! h = Some b → 0 ≤ h ≤ l2_block_height u;
  acc_bytes : ∀ h b, m !! h = Some b → in_range u64 b
}.

(** The sum cannot saturate: there are at most [2^32] heights of less than
    [2^64] bytes each. *)
Lemma unrecorded_sum_range m :
  (∀ h b, m !! h = Some b → 0 ≤ h < 2 ^ 32) → (∀ h b, m !! h = Some b → in_range u64 b) →
  0 ≤ map_sum id m ≤ 2 ^ 32 * 2 ^ 64.
Proof.
  intros Hh Hb. split.
  - apply map_sum_nonneg. intros h b Hm. specialize (Hb h b Hm). unfold id. int_lia.
  - pose proof (map_size_interval m (2 ^ 32) ltac:(lia) Hh).
    assert (map_sum id m ≤ Z.of_nat (size m) * 2 ^ 64).
    { apply map_sum_le_size. intros h b Hm. specialize (Hb h b Hm). unfold id. int_lia. }
    nia.
Qed.

Lemma remove_heights_spec hs : ∀ (m : gmap Z Z) total,
  (∀ h b, m !! h = Some b → 0 ≤ b) → 0 ≤ total → total + map_sum id m ≤ int_max u128 →
  ∃ m', remove_heights hs total m = (Ok (total + (map_sum id m - map_sum id m')), m')
        ∧ (∀ h, m' !! h = if decide (h ∈ hs) then None else m !! h).
Proof.
  induction hs as [|h hs IH]; intros m total Hpos Ht Hle.
  - exists m. split; [by rewrite Z.sub_diag, Z.add_0_r|]. intros h. by rewrite decide_False by set_solver.
  - cbn [remove_heights ub_remove btree_unrecorded_blocks].
    assert (∀ h' b, delete h m !! h' = Some b → 0 ≤ b) as Hpos'.
    { intros h' b [_ Hb]%lookup_delete_Some. eauto. }
    pose proof (map_sum_nonneg id _ Hpos') as Hnn.
    assert (∀ (m' : gmap Z Z), (∀ h', m' !! h' = if decide (h' ∈ hs) then None else delete h m !! h') →
              ∀ h', m' !! h' = if decide (h' ∈ h :: hs) then None else m !! h') as Hlook.
    { intros m' Hm' h'. rewrite Hm'. destruct (decide (h' = h)) as [->|].
      - rewrite lookup_delete_eq, (decide_True (P := h ∈ h :: hs)) by set_solver. by case_decide.
      - rewrite lookup_delete_ne by done.
        apply decide_ext. set_solver. }
    destruct (m !! h) as [b|] eqn:Hb.
    + pose proof (Hpos h b Hb). pose proof (map_sum_delete id m h b Hb) as Hsum. simpl in Hsum.
      assert (saturating_add u128 total b = total + b) as ->.
      { apply clamp_id. int_lia. }
      destruct (IH (delete h m) (total + b)) as (m' & Hr & Hm'); [done|lia|lia|].
      exists m'. split; [|by apply Hlook]. rewrite Hr. do 2 f_equal. lia.
    + rewrite delete_id in * by done.
      destruct (IH m total) as (m' & Hr & Hm'); [done..|].
      exists m'. split; [done|]. by apply Hlook.
Qed.

(** Removing a range of heights keeps the accounting and forgets exactly that
    range. *)
Lemma accounting_remove u m hs :
  wf u → accounting u m →
  ∃ u' m', update_unrecorded_block_bytes hs (u, m) = (Ok (), (u', m'))
    ∧ u' = u <| unrecorded_blocks_bytes := map_sum id m' |>
    ∧ accounting u' m'
    ∧ (∀ h, m' !! h = if decide (h ∈ range_heights hs) then None else m !! h).
Proof.
  intros Hwf [Hsum Hh Hb].
  assert (∀ h b, m !! h = Some b → 0 ≤ h < 2 ^ 32) as Hh32.
  { intros h b Hm. specialize (Hh h b Hm). pose proof (wf_height u Hwf). int_lia. }
  pose proof (unrecorded_sum_range m Hh32 Hb) as Hrange.
  destruct (remove_heights_spec (range_heights hs) m 0) as (m' & Hr & Hm').
  { intros h b Hm. specialize (Hb h b Hm). int_lia. }
  { done. }
  { int_bounds. simpl. lia. }
  assert (∀ h b, m' !! h = Some b → m !! h = Some b) as Hsub.
  { intros h b. rewrite Hm'. by case_decide. }
  assert (0 ≤ map_sum id m' ≤ 2 ^ 32 * 2 ^ 64) as Hrange' by (apply unrecorded_sum_range; eauto).
  unfold update_unrecorded_block_bytes. rewrite Hr. eexists _, m'. split; [reflexivity|].
  assert (saturating_sub u128 (unrecorded_blocks_bytes u) (0 + (map_sum id m - map_sum id m'))
          = map_sum id m') as ->.
  { rewrite Hsum. int_lia. }
  split; [done|]. split; [|done]. split; cbn; [done|eauto..].
Qed.

Lemma update_prices_height u height used capacity bytes fee :
  l2_block_height (update_prices_for_block u height used capacity bytes fee) = height.
Proof. done. Qed.

Lemma update_prices_unrecorded u height used capacity bytes fee :
  unrecorded_blocks_bytes (update_prices_for_block u height used capacity bytes fee)
  = unrecorded_blocks_bytes u.
Proof. done. Qed.

Lemma accounting_l2 u m height used capacity bytes fee :
  wf u → accounting u m → l2_block_height u < int_max u32 → in_range u64 bytes →
  let '(_, (u', m')) := update_l2_block_data height used capacity bytes fee (u, m) in
  accounting u' m'.
Proof.
  intros Hwf [Hsum Hh Hb] Hlast Hbytes. unfold update_l2_block_data.
  case_decide as Hheight; [done|].
  assert (height = l2_block_height u + 1) as ->.
  { rewrite Hheight. pose proof (wf_height u Hwf). int_lia. }
  pose proof (update_prices_height u (l2_block_height u + 1) used capacity bytes fee) as Hl.
  pose proof (update_prices_unrecorded u (l2_block_height u + 1) used capacity bytes fee) as Hu.
  revert Hl Hu. generalize (update_prices_for_block u (l2_block_height u + 1) used capacity bytes fee).
  intros u1 Hl Hu. cbn [ub_insert btree_unrecorded_blocks].
  assert (m !! (l2_block_height u + 1) = None) as Hnew.
  { apply eq_None_ne_Some_2. intros b Hm%Hh. lia. }
  assert (∀ h b, m !! h = Some b → 0 ≤ h < 2 ^ 32) as Hh32.
  { intros h b Hm. specialize (Hh h b Hm). pose proof (wf_height u Hwf). int_lia. }
  pose proof (unrecorded_sum_range m Hh32 Hb) as Hrange.
  split; cbn [unrecorded_blocks_bytes l2_block_height].
  - rewrite Hu, map_sum_insert, Hsum by done. unfold id at 2. int_lia.
  - intros h b [[<- <-]|[_ Hm]]%lookup_insert_Some.
    + pose proof (wf_height u Hwf). int_lia.
    + specialize (Hh h b Hm). lia.
  - intros h b [[<- <-]|[_ Hm]]%lookup_insert_Some; eauto.
Qed.

Lemma accounting_frame u u' m :
  unrecorded_blocks_bytes u' = unrecorded_blocks_bytes u → l2_block_height u' = l2_block_height u →
  accounting u m → accounting u' m.
Proof. intros Hb Hl []. split; [congruence|rewrite Hl; done|done]. Qed.

(** What recording a batch on the DA chain does, case by case. *)
Lemma update_da_record_data_cases u m hs bytes cost :
  wf u → accounting u m → hs.1 ≤ hs.2 → in_range u128 cost → in_range u32 bytes →
  ∃ u' m', accounting u' m'
    ∧ (∀ h, m' !! h = if decide (h ∈ range_heights hs) then None else m !! h)
    ∧ latest_known_total_da_cost u' = saturating_add u128 (latest_known_total_da_cost u) cost
    ∧ (bytes = 0 →
       update_da_record_data hs bytes cost (u, m)
         = (Err (CouldNotCalculateCostPerByte bytes cost), (u', m'))
       ∧ new_scaled_da_gas_price u' = new_scaled_da_gas_price u)
    ∧ (bytes ≠ 0 →
       update_da_record_data hs bytes cost (u, m) = (Ok (), (u', m'))
       ∧ latest_da_cost_per_byte u' = cost / bytes
       ∧ projected_total_da_cost u' =
           saturating_add u128 (latest_known_total_da_cost u')
             (saturating_mul u128 (map_sum id m') (cost / bytes))).
Proof.
  intros Hwf Hacc Hhs Hcost Hbytes.
  destruct (accounting_remove u m hs Hwf Hacc) as (u1 & m1 & Hr & Hu1 & Hacc1 & Hm1).
  unfold update_da_record_data. rewrite decide_True by done. unfold da_block_update.
  rewrite Hr. destruct (decide (bytes = 0)) as [->|Hnz].
  - eexists _, m1. split; [|split; [exact Hm1|split; [|split; [intros _; split; [reflexivity|]|done]]]].
    + eapply accounting_frame; [| |exact Hacc1]; done.
    + by rewrite Hu1.
    + by rewrite Hu1.
  - assert (checked_div u128 cost bytes = Some (cost / bytes)) as ->.
    { unfold checked_div. rewrite decide_False by done.
      rewrite Z.quot_div_nonneg by int_lia. apply fit_Some. split; [done|].
      pose proof (Z.div_pos cost bytes). pose proof (Z.div_le_upper_bound cost bytes cost).
      int_unfold. nia. }
    eexists _, m1. split; [|split; [exact Hm1|split; [|split; [done|intros _; split; [reflexivity|]]]]].
    + eapply accounting_frame; [| |exact Hacc1]; done.
    + by rewrite Hu1.
    + split; [done|]. cbn. rewrite (acc_sum _ _ Hacc1). done.
Qed.

(** *** Histories

    The updater is driven by two kinds of events: an L2 block, and a batch of
    blocks recorded on the DA chain.  Failed calls are part of the history:
    they may leave a changed state behind. *)
Inductive event :=
| L2Block (height used capacity block_bytes fee_wei : Z)
| DaRecord (heights : Z * Z) (recorded_bytes recording_cost : Z).

Definition valid_event (u : AlgorithmUpdaterV1) (e : event) : Prop :=
  match e with
  | L2Block height _ _ block_bytes _ =>
      in_range u32 height ∧ in_range u64 block_bytes ∧ l2_block_height u < int_max u32
  | DaRecord _ recorded_bytes recording_cost =>
      in_range u32 recorded_bytes ∧ in_range u128 recording_cost
  end.

Definition apply_event (e : event) (st : AlgorithmUpdaterV1 * gmap Z Z) : AlgorithmUpdaterV1 * gmap Z Z :=
  match e with
  | L2Block height used capacity block_bytes fee_wei =>
      (update_l2_block_data height used capacity block_bytes fee_wei st).2
  | DaRecord heights recorded_bytes recording_cost =>
      (update_da_record_data heights recorded_bytes recording_cost st).2
  end.

Inductive reachable (st0 : AlgorithmUpdaterV1 * gmap Z Z) : AlgorithmUpdaterV1 * gmap Z Z → Prop :=
| reach_init : reachable st0 st0
| reach_event st e : reachable st0 st → valid_event st.1 e → reachable st0 (apply_event e st).

Record inv (st : AlgorithmUpdaterV1 * gmap Z Z) : Prop := {
  inv_wf : wf st.1;
  inv_envelope : in_envelope st.1;
  inv_exec_floor : min_scaled_exec_gas_price st.1 ≤ new_scaled_exec_price st.1;
  inv_accounting : accounting st.1 st.2
}.

Lemma envelope_after_update u : wf u → in_envelope (update_da_gas_price u).
Proof.
  intros Hwf. unfold in_envelope.
  change (min_scaled_da_gas_price (update_da_gas_price u)) with (min_scaled_da_gas_price u).
  change (max_scaled_da_gas_price (update_da_gas_price u)) with (max_scaled_da_gas_price u).
  rewrite (update_da_gas_price_eq u _ Hwf eq_refl). pose proof (scaled_da_bounds_ordered u Hwf). lia.
Qed.

Lemma exec_floor_after_update u used capacity :
  let u' := update_da_gas_price (update_exec_gas_price u used capacity) in
  min_scaled_exec_gas_price u' ≤ new_scaled_exec_price u'.
Proof. apply Z.le_max_l. Qed.

Lemma update_prices_floor_envelope u height used capacity bytes fee :
  wf u → in_range u32 height →
  let u' := update_prices_for_block u height used capacity bytes fee in
  in_envelope u' ∧ min_scaled_exec_gas_price u' ≤ new_scaled_exec_price u'.
Proof.
  intros Hwf Hh. cbv zeta. unfold update_prices_for_block. cbv zeta.
  set (u1 := update_activity _ _ _).
  assert (wf u1) as Hwf1.
  { subst u1. wf_field Hwf; cbn [l2_activity update_activity]; try (apply clamp_range; discriminate).
    by apply tracker_wf_update. }
  clearbody u1. split; [apply envelope_after_update, wf_update_exec_gas_price, Hwf1|].
  apply exec_floor_after_update.
Qed.

Lemma update_l2_eq u (m : gmap Z Z) height used capacity bytes fee :
  update_l2_block_data height used capacity bytes fee (u, m) =
  if decide (height ≠ saturating_add u32 (l2_block_height u) 1)
  then (Err (SkippedL2Block (saturating_add u32 (l2_block_height u) 1) height), (u, m))
  else
    let u1 := update_prices_for_block u height used capacity bytes fee in
    (Ok (), (u1 <| unrecorded_blocks_bytes :=
                     saturating_add u128 (unrecorded_blocks_bytes u1) bytes |>,
             <[height := bytes]> m)).
Proof. reflexivity. Qed.

Lemma set_bytes_prices u x :
  let u' := u <| unrecorded_blocks_bytes := x |> in
  in_envelope u' = in_envelope u
  ∧ (min_scaled_exec_gas_price u' ≤ new_scaled_exec_price u')
    = (min_scaled_exec_gas_price u ≤ new_scaled_exec_price u).
Proof. done. Qed.

Lemma inv_l2 st height used capacity bytes fee :
  inv st → in_range u32 height → in_range u64 bytes → l2_block_height st.1 < int_max u32 →
  inv (update_l2_block_data height used capacity bytes fee st).2.
Proof.
  destruct st as [u m]. intros Hinv Hh Hb Hl. pose proof Hinv as [Hwf _ _ Hacc]. cbn [fst snd] in *.
  pose proof (wf_update_l2 u m height used capacity bytes fee Hwf Hh) as Hwf'.
  pose proof (accounting_l2 u m height used capacity bytes fee Hwf Hacc Hl Hb) as Hacc'.
  pose proof (update_prices_floor_envelope u height used capacity bytes fee Hwf Hh) as [He Hf].
  revert Hwf' Hacc'. rewrite update_l2_eq. case_decide; [done|].
  revert He Hf. generalize (update_prices_for_block u height used capacity bytes fee).
  intros u1 He Hf Hwf' Hacc'. cbn [fst snd] in *.
  destruct (set_bytes_prices u1 (saturating_add u128 (unrecorded_blocks_bytes u1) bytes)) as [He' Hf'].
  split; cbn [fst snd]; [done|by rewrite He'|by rewrite Hf'|done].
Qed.

Lemma da_block_update_prices u (m : gmap Z Z) hs bytes cost :
  let u' := (da_block_update hs bytes cost (u, m)).2.1 in
  in_envelope u' = in_envelope u ∧
  (min_scaled_exec_gas_price u' ≤ new_scaled_exec_price u') =
  (min_scaled_exec_gas_price u ≤ new_scaled_exec_price u).
Proof.
  unfold da_block_update, update_unrecorded_block_bytes.
  destruct (remove_heights _ _ _) as [[] m']; [|done]. by destruct (checked_div _ _ _).
Qed.

Lemma inv_da st hs bytes cost :
  inv st → in_range u32 bytes → in_range u128 cost →
  inv (update_da_record_data hs bytes cost st).2.
Proof.
  destruct st as [u m]. intros [Hwf Henv Hfloor Hacc] Hb Hc. cbn [fst snd] in *.
  destruct (decide (hs.1 ≤ hs.2)) as [Hhs|Hhs].
  2: { unfold update_da_record_data. rewrite decide_False by done. by split. }
  pose proof (wf_update_da u m hs bytes cost Hwf) as Hwf'.
  pose proof (wf_da_block_update u m hs bytes cost Hwf) as Hwf1.
  pose proof (da_block_update_prices u m hs bytes cost) as [He Hf].
  destruct (update_da_record_data_cases u m hs bytes cost) as (u' & m' & Hacc' & _ & _ & H0 & Hnz);
    [done..|].
  assert (∃ r, update_da_record_data hs bytes cost (u, m) = (r, (u', m'))) as [r Hr].
  { destruct (decide (bytes = 0)) as [->|Hne]; [destruct (H0 eq_refl)|destruct (Hnz Hne)]; eauto. }
  revert Hwf' Hr. unfold update_da_record_data. rewrite decide_True by done.
  destruct (da_block_update hs bytes cost (u, m)) as [[] [u1 m1]]; cbn [fst snd] in *;
    intros Hwf' [= <- <- <-]; cbn [fst snd] in *.
  - assert (wf (recalculate_projected_cost u1)) as Hwf2 by wf_field Hwf1.
    split; cbn [fst snd]; [done|by apply envelope_after_update| |done].
    change (min_scaled_exec_gas_price u1 ≤ new_scaled_exec_price u1). by rewrite Hf.
  - split; cbn [fst snd]; [done|by rewrite He|by rewrite Hf|done].
Qed.

Lemma inv_event st e : inv st → valid_event st.1 e → inv (apply_event e st).
Proof.
  intros Hinv. destruct e; cbn [valid_event apply_event].
  - intros (? & ? & ?). by apply inv_l2.
  - intros (? & ?). by apply inv_da.
Qed.

(** *** Theorems *)

(** C38 Whatever L2 blocks and DA recordings the updater is fed, successfully or
    not, its fields stay inside their machine types, the DA price stays between
    the configured minimum and maximum, the execution price does not fall below
    its minimum, and the counter of unrecorded bytes is exactly the sum of the
    bytes of the unrecorded blocks. *)
Theorem gas_price_history_invariant st0 st :
  inv st0 → reachable st0 st → inv st.
Proof. intros Hinv. induction 1; [done|]. by apply inv_event. Qed.

(** Rate limit of the DA price: one update moves it by at most
    [max_da_gas_price_change_percent] percent of its value, whatever the
    profits, the P and D components and the scale factor are. *)
Theorem da_price_rate_limited u :
  wf u → in_envelope u →
  Z.abs (new_scaled_da_gas_price (update_da_gas_price u) - new_scaled_da_gas_price u)
  ≤ new_scaled_da_gas_price u * max_da_gas_price_change_percent u / 100.
Proof.
  intros Hwf Henv. destruct (max_change_bounds u Hwf) as [[_ Hm] _].
  pose proof (update_da_gas_price_between u _ Hwf Henv eq_refl) as Hb.
  cbv zeta in Hb. pose proof (accounting_bound u _ Hwf (da_change_bound u (p u) (d u) Hwf)). lia.
Qed.

(** The documented control law of the DA price (with positive P and D
    components): a profit that is not shrinking never raises the price, and a
    loss that is not shrinking never lowers it as long as the chain is in the
    normal activity range. *)
Theorem da_price_control_direction u :
  wf u → in_envelope u → 0 < da_p_component u → 0 < da_d_component u →
  (0 ≤ last_profit u → second_to_last_profit u ≤ last_profit u →
   new_scaled_da_gas_price (update_da_gas_price u) ≤ new_scaled_da_gas_price u)
  ∧ (last_profit u ≤ 0 → last_profit u ≤ second_to_last_profit u →
     safety_mode (l2_activity u) = Normal →
     new_scaled_da_gas_price u ≤ new_scaled_da_gas_price (update_da_gas_price u)).
Proof.
  intros Hwf Henv HP HD. destruct (pd_sign u Hwf HP HD) as [Hpos Hneg].
  destruct (da_change_sign u (p u) (d u) Hwf) as [Hdec Hinc].
  pose proof (update_da_gas_price_between u _ Hwf Henv eq_refl) as [Hup Hdown].
  split.
  - intros H1 H2. apply Hdown. unfold da_change_accounting_for_activity.
    rewrite decide_False; [auto|]. specialize (Hdec (Hpos H1 H2)). lia.
  - intros H1 H2 Hmode. apply Hup. unfold da_change_accounting_for_activity.
    rewrite Hmode. case_decide; auto.
Qed.

(** The activity safety modes: outside the normal range the DA price never
    rises; and in the always-decrease range a wanted increase becomes the
    largest allowed decrease. *)
Theorem da_price_safety_modes u :
  wf u → in_envelope u →
  (safety_mode (l2_activity u) ≠ Normal →
   new_scaled_da_gas_price (update_da_gas_price u) ≤ new_scaled_da_gas_price u)
  ∧ (safety_mode (l2_activity u) = AlwaysDecrease → 0 < da_change u (p u) (d u) →
     new_scaled_da_gas_price (update_da_gas_price u)
     = Z.max (min_scaled_da_gas_price u) (clamp u64 (new_scaled_da_gas_price u - max_change u))).
Proof.
  intros Hwf Henv. destruct (max_change_bounds u Hwf) as [[Hm _] Hm'].
  split.
  - intros Hmode. pose proof (update_da_gas_price_between u _ Hwf Henv eq_refl) as [_ Hdown].
    apply Hdown. unfold da_change_accounting_for_activity. case_decide; [|lia].
    destruct (safety_mode _); [done|done|int_lia].
  - intros Hmode Hpos. rewrite (update_da_gas_price_eq u _ Hwf eq_refl).
    unfold da_change_accounting_for_activity. rewrite decide_True, Hmode by done.
    pose proof (scaled_da_bounds_ordered u Hwf). pose proof (wf_da u Hwf).
    unfold in_envelope in Henv. int_lia.
Qed.

(** The execution price of the next block: a block at least as full as the
    threshold raises it and an emptier one lowers it, in both cases by at most
    [exec_gas_price_change_percent] percent and never below the minimum. *)
Theorem exec_price_update u used capacity :
  wf u → min_scaled_exec_gas_price u ≤ new_scaled_exec_price u → 0 < capacity →
  in_range u64 capacity → in_range u64 used →
  let x := new_scaled_exec_price u in
  let x' := new_scaled_exec_price (update_exec_gas_price u used capacity) in
  let delta := x * exec_gas_price_change_percent u / 100 in
  min_scaled_exec_gas_price u ≤ x'
  ∧ (if decide (l2_block_fullness_threshold_percent u ≤ saturating_mul u64 used 100 / capacity)
     then x ≤ x' ≤ x + delta else x - delta ≤ x' ≤ x).
Proof.
  intros Hwf Hfloor Hcap Hcap' Hused x x' delta.
  destruct (exec_change_bounds u x Hwf (wf_exec u Hwf)) as [Hc Hc'].
  pose proof (wf_exec u Hwf) as Hx. fold x in Hx. split; [apply Z.le_max_l|].
  subst x'. unfold update_exec_gas_price; cbn [new_scaled_exec_price]. fold x.
  rewrite checked_percent by done.
  cbn [unwrap_or]. fold delta in Hc. fold x in Hfloor.
  destruct (Z.compare_spec (saturating_mul u64 used 100 / capacity)
              (l2_block_fullness_threshold_percent u)); case_decide; try lia; int_lia.
Qed.

(** Recording a batch of blocks on the DA chain: exactly the blocks of the
    range are forgotten, the known cost grows by the recording cost, and the
    projection is the known cost plus the remaining bytes at the new cost per
    byte.  A batch of zero bytes is an error that still forgets the blocks and
    adds the cost, and leaves the price alone. *)
Theorem da_record_spec u m hs bytes cost :
  wf u → accounting u m → hs.1 ≤ hs.2 → in_range u128 cost → in_range u32 bytes →
  ∃ u' m', accounting u' m'
    ∧ (∀ h, m' !! h = if decide (h ∈ range_heights hs) then None else m !! h)
    ∧ latest_known_total_da_cost u' = saturating_add u128 (latest_known_total_da_cost u) cost
    ∧ (bytes = 0 →
       update_da_record_data hs bytes cost (u, m)
         = (Err (CouldNotCalculateCostPerByte bytes cost), (u', m'))
       ∧ new_scaled_da_gas_price u' = new_scaled_da_gas_price u)
    ∧ (bytes ≠ 0 →
       update_da_record_data hs bytes cost (u, m) = (Ok (), (u', m'))
       ∧ latest_da_cost_per_byte u' = cost / bytes
       ∧ projected_total_da_cost u' =
           saturating_add u128 (latest_known_total_da_cost u')
             (saturating_mul u128 (map_sum id m') (cost / bytes))).
Proof. apply update_da_record_data_cases. Qed.

(** *** Witnesses *)

Definition sample_tracker : L2ActivityTracker := tracker_new 100 50 50 180 30.

Definition sample_updater : AlgorithmUpdaterV1 :=
  MkUpdaterV1 1000 5 10 7 50 2000 100 10 40 20 5000 300 400 3 2 (-600) (-500) 4
    sample_tracker 30.

Definition sample_unrecorded : gmap Z Z := <[6 := 10]> (<[7 := 20]> ∅).

Lemma sample_wf : wf sample_updater.
Proof. constructor; eval_ranges. Qed.

Lemma sample_accounting : accounting sample_updater sample_unrecorded.
Proof.
  assert (∀ h b, sample_unrecorded !! h = Some b → 0 ≤ h ≤ 7 ∧ in_range u64 b) as Hall.
  { unfold sample_unrecorded.
    intros h b [[<- <-]|[_ [[<- <-]|[_ Hb]]%lookup_insert_Some]]%lookup_insert_Some;
      [eval_ranges..|]. by rewrite lookup_empty in Hb. }
  split; [reflexivity|apply Hall..].
Qed.

Lemma sample_inv : inv (sample_updater, sample_unrecorded).
Proof.
  split; cbn [fst snd]; [apply sample_wf|eval_ranges|eval_ranges|].
  apply sample_accounting.
Qed.

Lemma gas_price_history_invariant_witness :
  inv (apply_event (L2Block 8 90 100 50 10000)
         (apply_event (DaRecord (6, 7) 15 100) (sample_updater, sample_unrecorded))).
Proof.
  apply (gas_price_history_invariant (sample_updater, sample_unrecorded)); [apply sample_inv|].
  apply reach_event; [apply reach_event; [apply reach_init|]|].
  - eval_ranges.
  - eval_ranges.
Defined.

Lemma da_price_rate_limited_witness :
  Z.abs (new_scaled_da_gas_price (update_da_gas_price sample_updater) - 2000) ≤ 400.
Proof.
  apply (da_price_rate_limited sample_updater); [apply sample_wf|eval_ranges].
Defined.

Lemma da_price_control_direction_witness :
  2000 ≤ new_scaled_da_gas_price (update_da_gas_price sample_updater).
Proof.
  apply (da_price_control_direction sample_updater);
    [apply sample_wf|eval_ranges|eval_ranges..].
Defined.

Definition sample_quiet : AlgorithmUpdaterV1 :=
  sample_updater <| l2_activity := tracker_new 100 50 50 20 30 |>.

Lemma sample_quiet_wf : wf sample_quiet.
Proof.
  pose proof sample_wf as Hwf. destruct Hwf. constructor; try assumption.
  eval_ranges.
Qed.

Lemma da_price_safety_modes_witness :
  new_scaled_da_gas_price (update_da_gas_price sample_quiet) = Z.max 1000 (clamp u64 (2000 - 400)).
Proof.
  apply (da_price_safety_modes sample_quiet);
    [apply sample_quiet_wf|eval_ranges|vm_compute; reflexivity..].
Defined.

Lemma exec_price_update_witness :
  500 ≤ new_scaled_exec_price (update_exec_gas_price sample_updater 10 100).
Proof.
  apply (exec_price_update sample_updater 10 100);
    [apply sample_wf|eval_ranges..].
Defined.

Lemma da_record_spec_witness :
  ∃ u' m', update_da_record_data (6, 6) 5 100 (sample_updater, sample_unrecorded) = (Ok (), (u', m'))
           ∧ m' !! 6 = None ∧ projected_total_da_cost u' = 800.
Proof.
  destruct (da_record_spec sample_updater sample_unrecorded (6, 6) 5 100)
    as (u' & m' & Hacc & Hm & _ & _ & Hok);
    [apply sample_wf|apply sample_accounting|eval_ranges..|].
  exists u', m'. destruct (Hok ltac:(discriminate)) as (Heq & _ & Hp).
  split; [exact Heq|]. split; [by rewrite Hm|].
  revert Heq. vm_compute. intros [= <- <-]. reflexivity.
Defined.
End V1Facts.
