(* ===== verification/GasPriceEstimate.v ===== *)
(** * The [f64] price estimate (crates/fuel-gas-price-algorithm/src/utils.rs)

    [cumulative_percentage_change] is computed in IEEE-754 binary64, modelled
    with the Standard Library's executable specification of floating point
    ([SpecFloat], 53 bits of precision, exponents up to 1024).  Indexing an
    array out of bounds panics, so the function returns an option: [None] is a
    panic.  [f64::exp] and [f64::ln], whose results Rust leaves to the platform,
    are parameters. *)
From Stdlib Require Import SpecFloat.
From stdpp Require Import strings.
From S2P Require Import Prelude GasPrice.

(** ** Binary64 *)
Definition f64 := spec_float.
Definition f64_mul (x y : f64) : f64 := SFmul 53 1024 x y.
Definition f64_add (x y : f64) : f64 := SFadd 53 1024 x y.
Definition f64_div (x y : f64) : f64 := SFdiv 53 1024 x y.
Definition f64_gtb (x y : f64) : bool := SFltb y x.
(** [n as f64] for an unsigned integer *)
Definition f64_of_Z (n : Z) : f64 := binary_normalize 53 1024 n 0 false.

(** A decimal literal [m / 10^k], rounded to the nearest [f64]. *)
Record decimal := D { dec_m : Z; dec_k : Z }.
Definition f64_of_decimal (x : decimal) : f64 :=
  if decide (dec_m x = 0) then S754_zero false
  else
    let '(q, e, l) := SFdiv_core_binary 53 1024 (dec_m x) 0 (10 ^ dec_k x) 0 in
    binary_round_aux 53 1024 false q e l.

(** The least integer at or above a finite [f64]. *)
Definition f64_ceil_Z (s : bool) (m : positive) (e : Z) : Z :=
  let z := if s then - Zpos m else Zpos m in
  if decide (0 ≤ e) then z * 2 ^ e else - ((- z) / 2 ^ (- e)).

(** [x.ceil() as u64]: the cast saturates, and maps NaN to zero. *)
Definition f64_ceil_as_u64 (x : f64) : Z :=
  match x with
  | S754_zero _ => 0
  | S754_nan => 0
  | S754_infinity s => if s then 0 else int_max u64
  | S754_finite s m e => clamp u64 (f64_ceil_Z s m e)
  end.

(** ** The table *)
Definition BLOCK_COUNT_M : Z := 25.
Definition PERCENTAGE_COUNT_N : Z := 25.

Definition PRECOMPUTED_EXP : list (list decimal) :=
  [[D 10 1; D 10 1; D 10 1; D 10 1; D 10 1; D 10 1; D 10 1; D 10 1; D 10 1; D 10 1;
    D 10 1; D 10 1; D 10 1; D 10 1; D 10 1; D 10 1; D 10 1; D 10 1; D 10 1; D 10 1;
    D 10 1; D 10 1; D 10 1; D 10 1; D 10 1];
   [D 10 1; D 101 2; D 102 2; D 103 2; D 104 2; D 105 2; D 106 2; D 107 2; D 108 2;
    D 109 2; D 11 1; D 111 2; D 112 2; D 113 2; D 11400000000000001 16; D 115 2;
    D 116 2; D 117 2; D 118 2; D 119 2; D 12 1; D 121 2; D 122 2; D 123 2; D 124 2];
   [D 10 1; D 10201 4; D 10404 4; D 10609 4; D 10816000000000001 16; D 11025 4;
    D 11236000000000002 16; D 11449 4; D 11664 4; D 11881000000000002 16;
    D 12100000000000002 16; D 12321000000000002 16; D 12544000000000002 16;
    D 12768999999999997 16; D 12996000000000003 16; D 13224999999999998 16; D 13456 4;
    D 13688999999999998 16; D 13923999999999999 16; D 14161 4; D 144 2; D 14641 4;
    D 14884 4; D 15129 4; D 15376 4];
   [D 10 1; D 10303010000000001 16; D 10612080000000002 16; D 1092727 6; D 1124864 6;
    D 11576250000000001 16; D 1191016 6; D 12250430000000003 16;
    D 12597120000000002 16; D 12950290000000002 16; D 13310000000000004 16;
    D 13676310000000003 16; D 14049280000000004 16; D 14428969999999997 16;
    D 14815440000000004 16; D 15208749999999998 16; D 15608959999999996 16;
    D 16016129999999997 16; D 16430319999999998 16; D 16851589999999996 16; D 1728 3;
    D 17715609999999997 16; D 1815848 6; D 18608669999999998 16; D 19066239999999999 16];
   [D 10 1; D 104060401 8; D 108243216 8; D 11255088100000001 16;
    D 11698585600000002 16; D 12155062500000002 16; D 12624769600000003 16;
    D 13107960100000002 16; D 13604889600000003 16; D 14115816100000005 16;
    D 14641000000000004 16; D 15180704100000004 16; D 15735193600000006 16;
    D 16304736099999995 16; D 16889601600000006 16; D 17490062499999994 16;
    D 18106393599999995 16; D 18738872099999995 16; D 19387777599999996 16;
    D 200533921 8; D 20736 4; D 214358881 8; D 22153345599999996 16; D 228886641 8;
    D 23642137599999997 16];
   [D 10 1; D 10510100501000001 16; D 11040808032 10; D 11592740743 10;
    D 12166529024000001 16; D 12762815625000004 16; D 13382255776000003 16;
    D 14025517307000004 16; D 14693280768000005 16; D 15386239549000007 16;
    D 16105100000000006 16; D 16850581551000008 16; D 17623416832000007 16;
    D 18424351792999991 16; D 1925414582400001 15; D 20113571874999994 16;
    D 21003416575999996 16; D 21924480356999996 16; D 2287757756799999 15;
    D 23863536598999997 16; D 24883199999999994 16; D 25937424601 10;
    D 27027081631999996 16; D 28153056842999997 16; D 29316250623999998 16];
   [D 10 1; D 10615201506010001 16; D 1126162419264 12; D 11940522965290001 16;
    D 12653190184960004 16; D 13400956406250004 16; D 14185191122560004 16;
    D 15007303518490005 16; D 15868743229440005 16; D 16771001108410009 16;
    D 17715610000000008 16; D 1870414552161001 15; D 19738226851840013 16;
    D 2081951752608999 15; D 21949726239360015 16; D 2313060765624999 15;
    D 2436396322815999 15; D 2565164201768999 15; D 26995541530239993 16;
    D 2839760855280999 15; D 29859839999999997 16; D 31384283767209995 16;
    D 32973039591039996 16; D 3462825991689 12; D 3635215077376 12];
   [D 10 1; D 107213535210701 14; D 114868566764928 14; D 12298738654248702 16;
    D 13159317792358403 16; D 14071004226562505 16; D 15036302589913604 16;
    D 16057814764784306 16; D 17138242687795209 16; D 1828039120816691 15;
    D 1948717100000001 15; D 20761601528987113 16; D 22106814074060814 16;
    D 23526054804481684 16; D 25022687912870416 16; D 26600198804687487 16;
    D 2826219734466559 15; D 3001242116069729 15; D 31854739005683186 16;
    D 3379315417784389 15; D 35831807999999987 16; D 37974983358324095 16;
    D 4022710830106879 15; D 425927596977747 14; D 450766669594624 14];
   [D 10 1; D 10828567056280802 16; D 11716593810022657 16; D 12667700813876164 16;
    D 13685690504052739 16; D 1477455443789063 15; D 15938480745308423 16;
    D 1718186179831921 15; D 18509302102818825 16; D 19925626416901934 16;
    D 2143588810000001 15; D 23045377697175695 16; D 24759631762948113 16;
    D 265844419290643 14; D 2852586422067228 15; D 30590228625390607 16;
    D 3278414891981208 15; D 35114532758015824 16; D 37588592026706156 16;
    D 4021385347163423 15; D 42998169599999985 16; D 4594972986357216 15;
    D 4907707212730393 15; D 5238909442826288 15; D 5589506702973337 15];
   [D 10 1; D 1093685272684361 15; D 1195092568622311 15; D 1304773183829245 15;
    D 1423311812421485 15; D 15513282159785162 16; D 16894789590026928 16;
    D 18384592124201555 16; D 19990046271044333 16; D 2171893279442311 15;
    D 2357947691000002 15; D 2558036924386503 15; D 2773078757450189 15;
    D 30040419379842658 16; D 32519485211566406 16; D 35178762919199196 16;
    D 3802961274698201 15; D 4108400332687851 15; D 4435453859151326 15;
    D 4785448563124474 15; D 51597803519999985 16; D 5559917313492231 15;
    D 5987402799531079 15; D 6443858614676334 15; D 6930988311686938 15];
   [D 10 1; D 11046221254112045 16; D 12189944199947573 16; D 13439163793441222 16;
    D 14802442849183444 16; D 16288946267774422 16; D 17908476965428546 16;
    D 19671513572895665 16; D 2158924997272788 15; D 2367363674592119 15;
    D 2593742460100002 15; D 28394209860690185 16; D 3105848208344212 15;
    D 33945673899222197 16; D 37072213141185704 16; D 4045557735707907 15;
    D 4411435078649913 15; D 4806828389244786 15; D 5233835553798564 15;
    D 5694683790118123 15; D 6191736422399997 15; D 6727499949325599 15;
    D 7304631415427917 15; D 792594609605189 14; D 8594425506491802 15];
   [D 10 1; D 11156683466653166 16; D 12433743083946525 16; D 1384233870724446 15;
    D 15394540563150783 16; D 17103393581163144 16; D 18982985583354257 16;
    D 21048519522998363 16; D 23316389970546116 16; D 25804264053054102 16;
    D 2853116706110002 15; D 315175729453661 14; D 34785499933455175 16;
    D 38358611506121085 16; D 422623229809517 14; D 4652391396064092 15;
    D 5117264691233899 15; D 5623989215416399 15; D 6175925953482305 15;
    D 6776673710240566 15; D 7430083706879996 15; D 8140274938683975 15;
    D 8911650326822059 15; D 9748913698143825 15; D 10657087628049839 15];
   [D 10 1; D 11268250301319698 16; D 12682417945625455 16; D 14257608868461793 16;
    D 16010322185676815 16; D 179585632602213 14; D 20121964718355514 16;
    D 2252191588960825 15; D 25181701168189803 16; D 2812664781782897 15;
    D 31384283767210026 16; D 34984505969356374 16; D 38959759925469806 16;
    D 43345231001916815 16; D 4817904819828494 15; D 5350250105473707 15;
    D 5936027041831322 15; D 65800673820371856 16; D 7287592625109121 15;
    D 8064241715186272 15; D 8916100448255998 15; D 9849732675807607 15;
    D 10872213398722911 15; D 11991163848716905 15; D 13214788658781796 15];
   [D 10 1; D 11380932804332895 16; D 12936066304537965 16; D 14685337134515648 16;
    D 16650735073103888 16; D 18856491423232367 16; D 21329282601456847 16;
    D 24098450001880827 16; D 2719623726164499 15; D 3065804612143358 15;
    D 34522712143931034 16; D 38832801625985587 16; D 4363493111652619 15;
    D 4898011103216601 15; D 5492411494604485 15; D 6152787621294762 15;
    D 6885791368524334 15; D 7698678836983509 15; D 8599359297628762 15;
    D 9596447641071666 15; D 10699320537907195 15; D 11918176537727208 15;
    D 13264100346441948 15; D 14749131533921792 15; D 16386337936889422 15];
   [D 10 1; D 11494742132376223 16; D 13194787630628724 16; D 1512589724855112 15;
    D 17316764476028044 16; D 19799315994393987 16; D 22609039557544257 16;
    D 25785341502012487 16; D 29371936242576595 16; D 33417270272362605 16;
    D 37974983358324135 16; D 43104409804844 13; D 4887112285050933 15;
    D 5534752546634758 15; D 6261349103849113 15; D 7075705764488976 15;
    D 7987517987488228 15; D 9007454239270704 15; D 10147243971201938 15;
    D 11419772692875279 15; D 12839184645488631 15; D 1442099361064992 14;
    D 1618220242265918 14; D 18141431786723807 15; D 2031905904174289 14];
   [D 10 1; D 11609689553699987 16; D 13458683383241299 16; D 1557967416600765 15;
    D 18009435055069165 16; D 20789281794113688 16; D 23965581930996915 16;
    D 27590315407153363 16; D 31721691141982724 16; D 36424824596875247 16;
    D 4177248169415655 15; D 4784589488337685 15; D 54735657592570455 16;
    D 6254270377697276 15; D 7137937978387989 15; D 813706162916232 14;
    D 9265520865486343 15; D 10538721459946725 15; D 11973747886018286 15;
    D 13589529504521586 15; D 15407021574586363 15; D 17449402268886406 15;
    D 19742286955644204 15; D 22313961097670283 15; D 25195633211761187 15];
   [D 10 1; D 11725786449236988 16; D 13727857050906125 16; D 16047064390987882 16;
    D 18729812457271933 16; D 21828745883819374 16; D 25403516846856733 16;
    D 295216374856541 14; D 3425942643334134 15; D 3970305881059402 15;
    D 4594972986357222 15; D 531089433205483 14; D 6130393650367892 15;
    D 7067325526797921 15; D 813724929536231 14; D 935762087353667 14;
    D 10748004203964156 15; D 12330304108137664 15; D 14129022505501577 15;
    D 16171540110380683 15; D 1848842588950363 14; D 21113776745352546 15;
    D 24085590085885922 15; D 27446172150134448 15; D 31242585182583866 15];
   [D 10 1; D 11843044313729356 16; D 14002414191924248 16; D 16528476322717518 16;
    D 1947900495556281 15; D 2292018317801034 15; D 26927727857668136 16;
    D 31588152109649887 16; D 3700018054800865 15; D 4327633410354748 15;
    D 5054470284992944 15; D 58950927085808615 16; D 6866040888412039 15;
    D 7986077845281651 15; D 9276464196713034 15; D 1076126400456717 14;
    D 12467684876598419 15; D 14426455806521064 15; D 1667224655649186 14;
    D 1924413273135301 14; D 22186111067404354 15; D 25547669861876578 15;
    D 29384419904780817 15; D 3375879174466537 14; D 3874080562640398 14];
   [D 10 1; D 1196147475686665 15; D 14282462475762734 16; D 17024330612399043 16;
    D 20258165153785326 16; D 2406619233691086 15; D 28543391529128224 16;
    D 33799322757325383 16; D 39960194991849343 16; D 4717120417286677 15;
    D 555991731349224 14; D 6543552906524758 15; D 7689965795021484 15;
    D 9024267965168264 15; D 1057516918425286 14; D 12375453605252243 15;
    D 14462514456854164 15; D 1687895329362965 14; D 1967325093666039 14;
    D 2290051795031009 14; D 2662333328088523 14; D 30912680532870667 15;
    D 358489922838326 13; D 41523313845938404 15; D 4803859897674095 14];
   [D 10 1; D 12081089504435316 16; D 14568111725277988 16; D 17535060530771018 16;
    D 2106849175993674 15; D 25269501953756404 16; D 30255995020875925 16;
    D 36165275350338164 16; D 431570105911973 14; D 5141661254842477 15;
    D 6115909044841463 15; D 7263343726242481 15; D 8612761690424064 15;
    D 10197422800640137 15; D 1205569287004826 14; D 1423177164604008 14;
    D 16776516769950835 15; D 19748375353546685 15; D 2321443610525926 14;
    D 27251616360869 12; D 31947999937062274 15; D 374043434447735 13;
    D 43735770586275784 15; D 51073676030504245 15; D 5956786273115879 14];
   [D 10 1; D 1220190039947967 15; D 1485947395978355 15; D 18061112346694148 16;
    D 2191123143033421 15; D 26532977051444226 16; D 3207135472212848 15;
    D 38696844624861835 16; D 4660957143849308 15; D 5604410767778301 15;
    D 672749994932561 14; D 8062311536129156 15; D 964629309327495 14;
    D 11523087764723352 15; D 13743489871855019 15; D 1636653739294609 14;
    D 19460759453142966 15; D 23105599163649625 15; D 27393034604205923 15;
    D 3242942346943412 14; D 3833759992447472 14; D 45259255568175945 15;
    D 53357640115256444 15; D 62820621517520195 15; D 7386414978663689 14];
   [D 10 1; D 12323919403474468 16; D 15156663438979219 16; D 18602945717094972 16;
    D 2278768068754758 15; D 2785962590401644 15; D 3399563600545619 15;
    D 4140562374860217 15; D 5033833715357253 15; D 6108807736878348 15;
    D 7400249944258172 15; D 894916580510336 14; D 10803848264467947 15;
    D 1302108917413739 14; D 15667578453914723 15; D 18821518001888002 15;
    D 22574480965645837 15; D 27033551021470053 15; D 3232378083296299 14;
    D 38591013928626595 15; D 46005119909369675 15; D 5476369923749289 14;
    D 6509632094061284 14; D 7726936446654983 14; D 9159154573542972 14];
   [D 10 1; D 12447158597509211 16; D 15459796707758804 16; D 19161034088607822 16;
    D 2369918791504948 15; D 2925260719921726 15; D 3603537416578356 15;
    D 4430401741100432 15; D 5436540412585835 15; D 66586004331974005 16;
    D 8140274938683989 15; D 9933574043664734 15; D 121003100562041 13;
    D 1471383076677525 14; D 17861039437462782 15; D 21644745702171196 15;
    D 2618639792014917 14; D 3162925469511997 14; D 3814206138289632 14;
    D 4592330657506564 14; D 5520614389124358 14; D 6626407607736638 14;
    D 7941751154754773 14; D 950413182938563 13; D 11357351671193292 14];
   [D 10 1; D 12571630183484304 16; D 15768992641913981 16; D 19735865111266058 16;
    D 2464715543165146 15; D 30715237559178123 16; D 38197496615730575 16;
    D 4740529862977462 15; D 5871463645592701 15; D 7257874472185167 15;
    D 895430243255239 14; D 11026267188467857 15; D 13552347262948594 15;
    D 1662662876645603 14; D 20361584958707574 15; D 2489145755749688 14;
    D 3037622158737303 14; D 3700622799329035 14; D 45007632431817655 15;
    D 54648734824328095 15; D 6624737266949231 14; D 801795320536133 13;
    D 9688936408800821 14; D 11690082150144326 14; D 1408311607227968 13];
   [D 10 1; D 12697346485319148 16; D 16084372494752261 16; D 2032794106460404 15;
    D 25633041648917523 16; D 32250999437137033 16; D 4048934641267441 15;
    D 50723669533858855 16; D 6341180737240117 15; D 7911083174681831 15;
    D 9849732675807628 15; D 12239156579199317 15; D 15178628934502433 15;
    D 1878809050609531 14; D 2321220685292664 14; D 28625176191121415 15;
    D 3523641704135271 14; D 432972867521497 13; D 5310900626954485 14;
    D 6503199444095041 14; D 794968472033908 13; D 9701723378487208 14;
    D 11820502418736997 14; D 14378801044677522 14; D 174630639296268 12]].

Definition index {A} (l : list A) (i : Z) : option A :=
  if decide (0 ≤ i) then l !! Z.to_nat i else None.

Definition ROUNDING_ERROR_CUTOFF : f64 := f64_of_decimal (D 169485471889892770 1).
Definition ROUNDING_ERROR_COMPENSATION : f64 := f64_of_decimal (D 20000 1).

(** ** The estimate *)
Section estimate.
Context (f64_exp f64_ln : f64 → f64).

Definition change_multiple (blocks percentage : Z) : option f64 :=
  if decide (BLOCK_COUNT_M < blocks ∨ PERCENTAGE_COUNT_N < percentage) then
    Some (f64_exp (f64_mul (f64_of_Z blocks)
            (f64_ln (f64_add (f64_of_decimal (D 10 1))
                       (f64_div (f64_of_Z percentage) (f64_of_decimal (D 1000 1)))))))
  else
    row ← index PRECOMPUTED_EXP blocks;
    f64_of_decimal <$> index row percentage.

Definition cumulative_percentage_change (new_exec_price for_height percentage height : Z) : option Z :=
  let blocks := saturating_sub u32 height for_height in
  multiple ← change_multiple blocks percentage;
  let approx := f64_mul (f64_of_Z new_exec_price) multiple in
  let approx :=
    f64_add approx
      (f64_mul ROUNDING_ERROR_COMPENSATION
         (f64_of_Z (if f64_gtb approx ROUNDING_ERROR_CUTOFF then 1 else 0))) in
  Some (f64_ceil_as_u64 approx).

Definition worst_case_v0 (a : V0.AlgorithmV0) (height : Z) : option Z :=
  cumulative_percentage_change (V0.alg_new_exec_price a) (V0.alg_for_height a)
    (V0.alg_percentage a) height.

Definition worst_case_v1 (a : V1.AlgorithmV1) (height : Z) : option Z :=
  exec ← cumulative_percentage_change (V1.alg_new_exec_price a) (V1.alg_for_height a)
    (V1.alg_exec_price_percentage a) height;
  da ← cumulative_percentage_change (V1.alg_new_da_gas_price a) (V1.alg_for_height a)
    (V1.alg_da_gas_price_percentage a) height;
  Some (saturating_add u64 exec da).
End estimate.

(** ** Facts *)

Lemma table_shape : length PRECOMPUTED_EXP = 25%nat ∧ Forall (λ row, length row = 25%nat) PRECOMPUTED_EXP.
Proof. split; [reflexivity|]. apply (bool_decide_unpack _). vm_compute. exact I. Qed.

Lemma index_spec {A} (l : list A) i : 0 ≤ i → (is_Some (index l i) ↔ i < Z.of_nat (length l)).
Proof.
  intros Hi. unfold index. rewrite decide_True by done. rewrite lookup_lt_is_Some. lia.
Qed.

(** When the multiple exists: beyond the table it is computed, inside it is read. *)
Lemma change_multiple_defined e l blocks percentage :
  0 ≤ blocks → 0 ≤ percentage →
  is_Some (change_multiple e l blocks percentage) ↔
  25 < blocks ∨ 25 < percentage ∨ (blocks < 25 ∧ percentage < 25).
Proof.
  intros Hb Hp. unfold change_multiple, BLOCK_COUNT_M, PERCENTAGE_COUNT_N.
  case_decide as Hc; [split; [lia|eauto]|].
  destruct table_shape as [Hlen Hrows].
  pose proof (index_spec PRECOMPUTED_EXP blocks Hb) as Hrow. rewrite Hlen in Hrow.
  destruct (index PRECOMPUTED_EXP blocks) as [row|] eqn:Hr; cbn.
  - assert (length row = 25%nat) as Hl.
    { unfold index in Hr. rewrite decide_True in Hr by done.
      by eapply Forall_lookup_1 in Hrows. }
    pose proof (index_spec row percentage Hp) as Hcol. rewrite Hl in Hcol.
    rewrite fmap_is_Some, Hcol. assert (blocks < 25) by (apply Hrow; eauto). lia.
  - assert (¬ blocks < 25) by (rewrite <- Hrow; intros []; discriminate).
    split; [intros []; discriminate|lia].
Qed.

(** The estimate panics (it reads past the end of the precomputed table)
    exactly when neither the number of blocks nor the percentage is above 25
    and one of them is 25: the guard of the table lookup is off by one. *)
Theorem estimate_panics_iff e l price for_height percentage height :
  in_range u32 for_height → in_range u32 height → 0 ≤ percentage →
  let blocks := Z.max 0 (height - for_height) in
  cumulative_percentage_change e l price for_height percentage height = None ↔
  blocks ≤ 25 ∧ percentage ≤ 25 ∧ (blocks = 25 ∨ percentage = 25).
Proof.
  intros Hf Hh Hp blocks. unfold cumulative_percentage_change.
  assert (saturating_sub u32 height for_height = blocks) as -> by (subst blocks; int_lia).
  pose proof (change_multiple_defined e l blocks percentage ltac:(lia) Hp) as Hd.
  destruct (change_multiple e l blocks percentage) as [m|]; cbn.
  - split; [done|]. intros Hc. exfalso. destruct Hd as [Hd _].
    specialize (Hd ltac:(eauto)). lia.
  - split; [|done]. intros _. destruct Hd as [_ Hd].
    destruct (decide (25 < blocks ∨ 25 < percentage ∨ (blocks < 25 ∧ percentage < 25))) as [Hc|]; [|lia].
    destruct (Hd Hc); discriminate.
Qed.

(** The table is the compound growth it stands for: entry [(b, p)] differs
    from the exact [((100 + p) / 100) ^ b] by less than one part in [10^14]. *)
Theorem table_is_compound_growth b p row x :
  PRECOMPUTED_EXP !! b = Some row → row !! p = Some x →
  10 ^ 14 * Z.abs (dec_m x * 100 ^ Z.of_nat b - (100 + Z.of_nat p) ^ Z.of_nat b * 10 ^ dec_k x)
  < (100 + Z.of_nat p) ^ Z.of_nat b * 10 ^ dec_k x.
Proof.
  set (good := λ (b p : nat) (x : decimal),
    bool_decide (10 ^ 14 * Z.abs (dec_m x * 100 ^ Z.of_nat b
                   - (100 + Z.of_nat p) ^ Z.of_nat b * 10 ^ dec_k x)
                 < (100 + Z.of_nat p) ^ Z.of_nat b * 10 ^ dec_k x)).
  assert (Forall (λ '(b, row), Forall (λ '(p, x), good b p x = true) (imap pair row))
            (imap pair PRECOMPUTED_EXP)) as Hall.
  { apply (bool_decide_unpack _). vm_compute. exact I. }
  intros Hrow Hx. rewrite Forall_lookup in Hall.
  specialize (Hall b (b, row)). rewrite list_lookup_imap, Hrow in Hall. specialize (Hall eq_refl).
  simpl in Hall. rewrite Forall_lookup in Hall. specialize (Hall p (p, x)).
  rewrite list_lookup_imap, Hx in Hall. specialize (Hall eq_refl).
  exact (bool_decide_eq_true_1 _ Hall).
Qed.

(** The estimate can be below the price it starts from, although the
    compensation is there so that the actual price is always at most the
    estimate: converting a price above [2^53] to [f64] rounds it down, and the
    cut-off above which it is compensated is larger. *)
Theorem estimate_below_current_price e l :
  cumulative_percentage_change e l 9007199254740993 0 0 0 = Some 9007199254740992.
Proof. reflexivity. Qed.

Lemma estimate_panics_iff_witness :
  cumulative_percentage_change id id 1000 5 10 30 = None.
Proof. apply (estimate_panics_iff id id 1000 5 10 30); eval_ranges || (simpl; lia). Defined.

Lemma table_is_compound_growth_witness :
  10 ^ 14 * Z.abs (10303010000000001 * 100 ^ 3 - 101 ^ 3 * 10 ^ 16) < 101 ^ 3 * 10 ^ 16.
Proof. exact (table_is_compound_growth 3 1 _ (D 10303010000000001 16) eq_refl eq_refl). Defined.
