(* ===== verification/FuelTypes.v ===== *)
(** * The data types shared by the executor, the pool and the importer

    Models the entities of crates/types and, field by field, the part of the
    transaction format the services inspect.  Identifiers and hashes of 32
    bytes are the integers their big-endian bytes denote, so the order of
    integers is the order of byte strings and zero is [zeroed()]. *)
From stdpp Require Import strings.
From S2P Require Import Prelude.

(** ** Identifiers *)
Abbreviation Bytes32 := Z (only parsing).
Abbreviation TxId := Z (only parsing).
Abbreviation Address := Z (only parsing).
Abbreviation AssetId := Z (only parsing).
Abbreviation ContractId := Z (only parsing).
Abbreviation BlobId := Z (only parsing).
Abbreviation Nonce := Z (only parsing).
Abbreviation MessageId := Z (only parsing).
Abbreviation BlockHeight := Z (only parsing).
Abbreviation DaBlockHeight := Z (only parsing).

(** [UtxoId { tx_id, output_index }]; the derived order is lexicographic. *)
Definition UtxoId : Type := Z * Z.
(** [TxPointer { block_height, tx_index }] *)
Definition TxPointer : Type := Z * Z.
#[export] Instance UtxoId_eq_dec : EqDecision UtxoId := _.
#[export] Instance UtxoId_countable : Countable UtxoId := _.
#[export] Instance TxPointer_eq_dec : EqDecision TxPointer := _.

(** ** Inputs and outputs of a transaction *)
Record CoinInput := MkCoinInput {
  ci_utxo_id : UtxoId;
  ci_owner : Address;
  ci_amount : Z;
  ci_asset_id : AssetId;
  ci_tx_pointer : TxPointer;
  ci_predicate_gas_used : Z
}.

Record MessageInput := MkMessageInput {
  mi_sender : Address;
  mi_recipient : Address;
  mi_amount : Z;
  mi_nonce : Nonce;
  mi_data : list Z;
  mi_predicate_gas_used : Z
}.

Record ContractInput := MkContractInput {
  xi_utxo_id : UtxoId;
  xi_balance_root : Bytes32;
  xi_state_root : Bytes32;
  xi_tx_pointer : TxPointer;
  xi_contract_id : ContractId
}.

Inductive Input :=
| InputCoinSigned (c : CoinInput)
| InputCoinPredicate (c : CoinInput)
| InputContract (c : ContractInput)
| InputMessageCoinSigned (m : MessageInput)
| InputMessageCoinPredicate (m : MessageInput)
| InputMessageDataSigned (m : MessageInput)
| InputMessageDataPredicate (m : MessageInput).

Record ContractOutput := MkContractOutput {
  xo_input_index : Z;
  xo_balance_root : Bytes32;
  xo_state_root : Bytes32
}.

Inductive Output :=
| OutputCoin (to : Address) (amount : Z) (asset_id : AssetId)
| OutputContract (c : ContractOutput)
| OutputChange (to : Address) (amount : Z) (asset_id : AssetId)
| OutputVariable (to : Address) (amount : Z) (asset_id : AssetId)
| OutputContractCreated (contract_id : ContractId) (state_root : Bytes32).

#[export] Instance CoinInput_eq_dec : EqDecision CoinInput.
Proof. solve_decision. Defined.
#[export] Instance MessageInput_eq_dec : EqDecision MessageInput.
Proof. solve_decision. Defined.
#[export] Instance ContractInput_eq_dec : EqDecision ContractInput.
Proof. solve_decision. Defined.
#[export] Instance Input_eq_dec : EqDecision Input.
Proof. solve_decision. Defined.
#[export] Instance ContractOutput_eq_dec : EqDecision ContractOutput.
Proof. solve_decision. Defined.
#[export] Instance Output_eq_dec : EqDecision Output.
Proof. solve_decision. Defined.

#[export] Instance eta_CoinInput : Eta CoinInput := λ r,
  MkCoinInput (ci_utxo_id r) (ci_owner r) (ci_amount r) (ci_asset_id r)
    (ci_tx_pointer r) (ci_predicate_gas_used r).
#[export] Instance eta_MessageInput : Eta MessageInput := λ r,
  MkMessageInput (mi_sender r) (mi_recipient r) (mi_amount r) (mi_nonce r)
    (mi_data r) (mi_predicate_gas_used r).
#[export] Instance eta_ContractInput : Eta ContractInput := λ r,
  MkContractInput (xi_utxo_id r) (xi_balance_root r) (xi_state_root r)
    (xi_tx_pointer r) (xi_contract_id r).
#[export] Instance eta_ContractOutput : Eta ContractOutput := λ r,
  MkContractOutput (xo_input_index r) (xo_balance_root r) (xo_state_root r).

(** [input.predicate_gas_used()] *)
Definition predicate_gas_used (i : Input) : option Z :=
  match i with
  | InputCoinPredicate c => Some (ci_predicate_gas_used c)
  | InputMessageCoinPredicate m | InputMessageDataPredicate m => Some (mi_predicate_gas_used m)
  | InputCoinSigned _ | InputContract _
  | InputMessageCoinSigned _ | InputMessageDataSigned _ => None
  end.

(** [input.input_data()]: only data messages have it. *)
Definition input_data (i : Input) : option (list Z) :=
  match i with
  | InputMessageDataSigned m | InputMessageDataPredicate m => Some (mi_data m)
  | _ => None
  end.

(** The coin an input names, and the message. *)
Definition input_coin (i : Input) : option CoinInput :=
  match i with InputCoinSigned c | InputCoinPredicate c => Some c | _ => None end.
Definition input_message (i : Input) : option MessageInput :=
  match i with
  | InputMessageCoinSigned m | InputMessageCoinPredicate m
  | InputMessageDataSigned m | InputMessageDataPredicate m => Some m
  | _ => None
  end.

(** ** Transactions

    The five chargeable variants share the fields the executor works on; the
    variant and the rest of the body (script, bytecode, witnesses, policies)
    are carried along.  [tx_expiration] is the expiration policy with its
    default [u32::MAX]. *)
Inductive TxKind := Script | Create | Upgrade | Upload | Blob (blob_id : BlobId).

Record ChargeableTx := MkTx {
  tx_kind : TxKind;
  tx_inputs : list Input;
  tx_outputs : list Output;
  tx_expiration : BlockHeight;
  tx_body : list Z
}.

Record Mint := MkMint {
  mint_tx_pointer : TxPointer;
  mint_input_contract : ContractInput;
  mint_output_contract : ContractOutput;
  mint_amount : Z;
  mint_asset_id : AssetId;
  mint_gas_price : Z
}.

Inductive Transaction :=
| TxChargeable (tx : ChargeableTx)
| TxMint (mint : Mint).

#[export] Instance TxKind_eq_dec : EqDecision TxKind.
Proof. solve_decision. Defined.
#[export] Instance ChargeableTx_eq_dec : EqDecision ChargeableTx.
Proof. solve_decision. Defined.
#[export] Instance Mint_eq_dec : EqDecision Mint.
Proof. solve_decision. Defined.
#[export] Instance Transaction_eq_dec : EqDecision Transaction.
Proof. solve_decision. Defined.

#[export] Instance eta_ChargeableTx : Eta ChargeableTx := λ r,
  MkTx (tx_kind r) (tx_inputs r) (tx_outputs r) (tx_expiration r) (tx_body r).
#[export] Instance eta_Mint : Eta Mint := λ r,
  MkMint (mint_tx_pointer r) (mint_input_contract r) (mint_output_contract r)
    (mint_amount r) (mint_asset_id r) (mint_gas_price r).

(** [TransactionExt::outputs] *)
Definition transaction_outputs (tx : Transaction) : list Output :=
  match tx with TxChargeable tx => tx_outputs tx | TxMint _ => [] end.

(** ** Coins, messages and contracts *)
Record CompressedCoin := MkCompressedCoin {
  cc_owner : Address;
  cc_amount : Z;
  cc_asset_id : AssetId;
  cc_tx_pointer : TxPointer
}.

Record Coin := MkCoin {
  coin_utxo_id : UtxoId;
  coin_owner : Address;
  coin_amount : Z;
  coin_asset_id : AssetId;
  coin_tx_pointer : TxPointer
}.

Definition uncompress (self : CompressedCoin) (utxo_id : UtxoId) : Coin :=
  MkCoin utxo_id (cc_owner self) (cc_amount self) (cc_asset_id self) (cc_tx_pointer self).

Definition coin_matches_input (self : CompressedCoin) (input : Input) : option bool :=
  match input with
  | InputCoinSigned c | InputCoinPredicate c =>
      Some (bool_decide (ci_owner c = cc_owner self)
            && bool_decide (ci_amount c = cc_amount self)
            && bool_decide (ci_asset_id c = cc_asset_id self))
  | _ => None
  end.

Record Message := MkMessage {
  msg_sender : Address;
  msg_recipient : Address;
  msg_nonce : Nonce;
  msg_amount : Z;
  msg_data : list Z;
  msg_da_height : DaBlockHeight
}.

Definition message_matches_input (self : Message) (input : Input) : option bool :=
  match input with
  | InputMessageDataSigned m | InputMessageDataPredicate m
  | InputMessageCoinSigned m | InputMessageCoinPredicate m =>
      let expected_data := if decide (msg_data self = []) then None else Some (msg_data self) in
      Some (bool_decide (msg_sender self = mi_sender m)
            && bool_decide (msg_recipient self = mi_recipient m)
            && bool_decide (msg_nonce self = mi_nonce m)
            && bool_decide (msg_amount self = mi_amount m)
            && bool_decide (expected_data = input_data input))
  | _ => None
  end.

Record ContractUtxoInfo := MkContractUtxoInfo {
  cu_utxo_id : UtxoId;
  cu_tx_pointer : TxPointer
}.
(** [ContractUtxoInfo::default()] *)
Definition ContractUtxoInfo_default : ContractUtxoInfo := MkContractUtxoInfo (0, 0) (0, 0).

(** ** Events of the relayer *)
Record RelayedTransaction := MkRelayedTransaction {
  rtx_nonce : Nonce;
  rtx_max_gas : Z;
  rtx_serialized_transaction : list Z;
  rtx_da_height : DaBlockHeight
}.

Inductive RelayerEvent :=
| EventMessage (message : Message)
| EventTransaction (relayed_tx : RelayedTransaction).

Definition relayer_event_cost (e : RelayerEvent) : Z :=
  match e with EventMessage _ => 0 | EventTransaction tx => rtx_max_gas tx end.

(** ** Headers and blocks

    The default build: without the [fault-proving] feature, a header is
    always of version 1. *)
Record ApplicationHeader (G : Type) := MkApplicationHeader {
  da_height : DaBlockHeight;
  consensus_parameters_version : Z;
  state_transition_bytecode_version : Z;
  app_generated : G
}.
Record ConsensusHeader (G : Type) := MkConsensusHeader {
  prev_root : Bytes32;
  height : BlockHeight;
  time : Z;
  con_generated : G
}.
Arguments MkApplicationHeader {G} _ _ _ _.
Arguments MkConsensusHeader {G} _ _ _ _.
Arguments da_height {G} _.
Arguments consensus_parameters_version {G} _.
Arguments state_transition_bytecode_version {G} _.
Arguments app_generated {G} _.
Arguments prev_root {G} _.
Arguments height {G} _.
Arguments time {G} _.
Arguments con_generated {G} _.

Record GeneratedApplicationFields := MkGeneratedApplicationFields {
  transactions_count : Z;      (* u16 *)
  message_receipt_count : Z;   (* u32 *)
  transactions_root : Bytes32;
  message_outbox_root : Bytes32;
  event_inbox_root : Bytes32
}.
Record GeneratedConsensusFields := MkGeneratedConsensusFields {
  application_hash : Bytes32
}.

Record PartialBlockHeader := MkPartialBlockHeader {
  p_application : ApplicationHeader unit;
  p_consensus : ConsensusHeader unit
}.
Record BlockHeader := MkBlockHeader {
  application : ApplicationHeader GeneratedApplicationFields;
  consensus : ConsensusHeader GeneratedConsensusFields;
  metadata : option Bytes32
}.

#[export] Instance ApplicationHeader_eq_dec `{EqDecision G} : EqDecision (ApplicationHeader G).
Proof. solve_decision. Defined.
#[export] Instance ConsensusHeader_eq_dec `{EqDecision G} : EqDecision (ConsensusHeader G).
Proof. solve_decision. Defined.
#[export] Instance GeneratedApplicationFields_eq_dec : EqDecision GeneratedApplicationFields.
Proof. solve_decision. Defined.
#[export] Instance GeneratedConsensusFields_eq_dec : EqDecision GeneratedConsensusFields.
Proof. solve_decision. Defined.

(** [PartialEq] of [BlockHeaderV1] ignores the cached [metadata]. *)
Definition header_eq (a b : BlockHeader) : Prop :=
  application a = application b ∧ consensus a = consensus b.
#[export] Instance header_eq_dec a b : Decision (header_eq a b).
Proof. unfold header_eq. apply _. Defined.

(** [PartialBlockHeader::from(&BlockHeader)] *)
Definition PartialBlockHeader_from (h : BlockHeader) : PartialBlockHeader :=
  MkPartialBlockHeader
    (MkApplicationHeader (da_height (application h))
       (consensus_parameters_version (application h))
       (state_transition_bytecode_version (application h)) ())
    (MkConsensusHeader (prev_root (consensus h)) (height (consensus h)) (time (consensus h)) ()).

Record Block (T : Type) := MkBlock {
  header : BlockHeader;
  transactions : list T
}.
Arguments MkBlock {T} _ _.
Arguments header {T} _.
Arguments transactions {T} _.

Record PartialFuelBlock := MkPartialFuelBlock {
  pb_header : PartialBlockHeader;
  pb_transactions : list Transaction
}.
#[export] Instance eta_PartialFuelBlock : Eta PartialFuelBlock := λ r,
  MkPartialFuelBlock (pb_header r) (pb_transactions r).

Inductive BlockHeaderError := HeaderTooManyTransactions | HeaderTooManyMessages.
