(* ===== verification/BlockTypes.v ===== *)
(** * Block headers (crates/types/src/blockchain/{header.rs, header/v1.rs, block.rs})

    Generation of a header after execution, its hash and the checks that tie a
    header to its transactions.  SHA-256, the binary Merkle tree and the
    canonical encoding of transactions come from fuel-crypto, fuel-merkle and
    fuel-tx; they are the operations of the class [Hashing]. *)
From S2P Require Import Prelude FuelTypes.

Class Hashing := {
  (** [Hasher::input(..)*; Hasher::digest()]: the digest of the bytes *)
  sha256 : list Z → Bytes32;
  (** [MerkleRootCalculator]: the root over the pushed leaves *)
  merkle_root : list (list Z) → Bytes32;
  (** [Transaction::to_bytes] *)
  tx_to_bytes : Transaction → list Z
}.

(** [x.to_be_bytes()] of an [n]-byte integer; also the bytes of an [n]-byte
    identifier. *)
Fixpoint to_be_bytes (n : nat) (x : Z) : list Z :=
  match n with
  | O => []
  | S n => to_be_bytes n (x / 256) ++ [x mod 256]
  end.

Section header.
Context `{Hashing}.

Definition generate_txns_root (transactions : list Transaction) : Bytes32 :=
  merkle_root (tx_to_bytes <$> transactions).

(** The bytes fed to the hasher, in order. *)
Definition application_preimage (h : ApplicationHeader GeneratedApplicationFields) : list Z :=
  let g := app_generated h in
  to_be_bytes 8 (da_height h) ++ to_be_bytes 4 (consensus_parameters_version h)
  ++ to_be_bytes 4 (state_transition_bytecode_version h)
  ++ to_be_bytes 2 (transactions_count g) ++ to_be_bytes 4 (message_receipt_count g)
  ++ to_be_bytes 32 (transactions_root g) ++ to_be_bytes 32 (message_outbox_root g)
  ++ to_be_bytes 32 (event_inbox_root g).
Definition application_header_hash (h : ApplicationHeader GeneratedApplicationFields) : Bytes32 :=
  sha256 (application_preimage h).

Definition consensus_preimage (h : ConsensusHeader GeneratedConsensusFields) : list Z :=
  to_be_bytes 32 (prev_root h) ++ to_be_bytes 4 (height h) ++ to_be_bytes 8 (time h)
  ++ to_be_bytes 32 (application_hash (con_generated h)).
Definition consensus_header_hash (h : ConsensusHeader GeneratedConsensusFields) : Bytes32 :=
  sha256 (consensus_preimage h).

Definition recalculate_metadata (self : BlockHeader) : BlockHeader :=
  let c := consensus self in
  let c := MkConsensusHeader (prev_root c) (height c) (time c)
             (MkGeneratedConsensusFields (application_header_hash (application self))) in
  MkBlockHeader (application self) c (Some (consensus_header_hash c)).

Definition header_hash (self : BlockHeader) : Bytes32 := consensus_header_hash (consensus self).

Definition header_id (self : BlockHeader) : Bytes32 :=
  match metadata self with Some id => id | None => header_hash self end.

Definition validate_transactions (self : BlockHeader) (transactions : list Transaction) : bool :=
  bool_decide (generate_txns_root transactions = transactions_root (app_generated (application self)))
  && bool_decide (Z.of_nat (length transactions) = transactions_count (app_generated (application self))).

(** [PartialBlockHeader::generate] *)
Definition generate_header (self : PartialBlockHeader) (transactions : list Transaction)
    (outbox_message_ids : list MessageId) (event_inbox_root : Bytes32)
    : result BlockHeaderError BlockHeader :=
  let transactions_root := generate_txns_root transactions in
  let message_outbox_root := merkle_root (to_be_bytes 32 <$> outbox_message_ids) in
  transactions_count ← ok_or (try_into u16 (Z.of_nat (length transactions))) HeaderTooManyTransactions;
  message_receipt_count ← ok_or (try_into u32 (Z.of_nat (length outbox_message_ids))) HeaderTooManyMessages;
  let a := p_application self in
  let c := p_consensus self in
  Ok (recalculate_metadata
    (MkBlockHeader
      (MkApplicationHeader (da_height a) (consensus_parameters_version a)
         (state_transition_bytecode_version a)
         (MkGeneratedApplicationFields transactions_count message_receipt_count
            transactions_root message_outbox_root event_inbox_root))
      (MkConsensusHeader (prev_root c) (height c) (time c) (MkGeneratedConsensusFields 0))
      None)).

(** [Block::new] and [PartialFuelBlock::generate] *)
Definition Block_new (h : PartialBlockHeader) (txs : list Transaction)
    (outbox_message_ids : list MessageId) (event_inbox_root : Bytes32)
    : result BlockHeaderError (Block Transaction) :=
  h ← generate_header h txs outbox_message_ids event_inbox_root;
  Ok (MkBlock h txs).

Definition generate (self : PartialFuelBlock) (outbox_message_ids : list MessageId)
    (event_inbox_root : Bytes32) : result BlockHeaderError (Block Transaction) :=
  Block_new (pb_header self) (pb_transactions self) outbox_message_ids event_inbox_root.

Definition try_from_executed (h : BlockHeader) (txs : list Transaction) : option (Block Transaction) :=
  if validate_transactions h txs then Some (MkBlock h txs) else None.

Definition Block_id {T} (self : Block T) : Bytes32 := header_id (header self).

End header.

(** [Block::compress] and [CompressedBlock::uncompress]; [id] is
    [tx.id(chain_id)]. *)
Definition compress (id : Transaction → TxId) (self : Block Transaction) : Block TxId :=
  MkBlock (header self) (id <$> transactions self).
Definition uncompress_block (self : Block TxId) (txs : list Transaction) : Block Transaction :=
  MkBlock (header self) txs.

(** [PartialFuelBlock::from(Block)] *)
Definition PartialFuelBlock_from (b : Block Transaction) : PartialFuelBlock :=
  MkPartialFuelBlock (PartialBlockHeader_from (header b)) (transactions b).

(** ** Theorems *)

Lemma to_be_bytes_length n x : length (to_be_bytes n x) = n.
Proof. revert x. induction n; intros x; simpl; [done|]. rewrite length_app, IHn. simpl. lia. Qed.

Lemma to_be_bytes_inj n x y :
  0 ≤ x < 256 ^ Z.of_nat n → 0 ≤ y < 256 ^ Z.of_nat n →
  to_be_bytes n x = to_be_bytes n y → x = y.
Proof.
  revert x y. induction n as [|n IH]; intros x y Hx Hy Heq; [simpl in *; lia|].
  rewrite Nat2Z.inj_succ, Z.pow_succ_r in Hx, Hy by lia. simpl in Heq.
  apply app_inj_tail in Heq as [Heq Hmod].
  assert (x / 256 = y / 256) as Hdiv.
  { apply IH; [split; [apply Z.div_pos|apply Z.div_lt_upper_bound]; lia..|done]. }
  rewrite (Z.div_mod x 256), (Z.div_mod y 256) by lia. lia.
Qed.

(** Two concatenations with first parts of the same length. *)
Lemma be_app_inj n x y l k :
  0 ≤ x < 256 ^ Z.of_nat n → 0 ≤ y < 256 ^ Z.of_nat n →
  to_be_bytes n x ++ l = to_be_bytes n y ++ k → x = y ∧ l = k.
Proof.
  intros Hx Hy Heq. apply app_inj_1 in Heq as [Hh Ht]; [|by rewrite !to_be_bytes_length].
  split; [by apply (to_be_bytes_inj n)|done].
Qed.

(** The fields are of the widths the structs declare. *)
Record application_wf (h : ApplicationHeader GeneratedApplicationFields) : Prop := {
  aw_da : in_range u64 (da_height h);
  aw_cpv : in_range u32 (consensus_parameters_version h);
  aw_stv : in_range u32 (state_transition_bytecode_version h);
  aw_count : in_range u16 (transactions_count (app_generated h));
  aw_messages : in_range u32 (message_receipt_count (app_generated h));
  aw_txroot : in_range (unsigned 256) (transactions_root (app_generated h));
  aw_outbox : in_range (unsigned 256) (message_outbox_root (app_generated h));
  aw_inbox : in_range (unsigned 256) (event_inbox_root (app_generated h))
}.
Record consensus_wf (h : ConsensusHeader GeneratedConsensusFields) : Prop := {
  cw_root : in_range (unsigned 256) (prev_root h);
  cw_height : in_range u32 (height h);
  cw_time : in_range u64 (time h);
  cw_hash : in_range (unsigned 256) (application_hash (con_generated h))
}.

(** Peels one fixed-width field off an equality of encodings. *)
Ltac be_peel Heq :=
  apply be_app_inj in Heq as [? Heq]; [subst|cbn -[Z.pow] in *; lia..].

Lemma application_preimage_inj a b :
  application_wf a → application_wf b → application_preimage a = application_preimage b → a = b.
Proof.
  destruct a as [a1 a2 a3 [a4 a5 a6 a7 a8]], b as [b1 b2 b3 [b4 b5 b6 b7 b8]].
  intros [] [] Heq. unfold application_preimage in Heq.
  unfold in_range, u64, u32, u16, unsigned in *.
  cbn [da_height consensus_parameters_version state_transition_bytecode_version app_generated
       transactions_count message_receipt_count transactions_root message_outbox_root
       event_inbox_root int_min int_max] in *.
  repeat be_peel Heq. apply to_be_bytes_inj in Heq; [by subst|lia..].
Qed.

Lemma consensus_preimage_inj a b :
  consensus_wf a → consensus_wf b → consensus_preimage a = consensus_preimage b → a = b.
Proof.
  destruct a as [a1 a2 a3 [a4]], b as [b1 b2 b3 [b4]].
  intros [] [] Heq. unfold consensus_preimage in Heq.
  unfold in_range, u64, u32, unsigned in *.
  cbn [prev_root height time con_generated application_hash int_min int_max] in *.
  repeat be_peel Heq. apply to_be_bytes_inj in Heq; [by subst|lia..].
Qed.

Lemma list_be_bytes_inj (l k : list Z) :
  Forall (in_range (unsigned 256)) l → Forall (in_range (unsigned 256)) k →
  to_be_bytes 32 <$> l = to_be_bytes 32 <$> k → l = k.
Proof.
  intros Hl. revert k. induction Hl as [|x l Hx Hl IH]; intros [|y k] Hk Heq; try done.
  apply Forall_cons in Hk as [Hy Hk]. rewrite !fmap_cons in Heq.
  apply cons_eq_inj in Heq as [Hh Ht]. f_equal; [|by apply IH].
  unfold in_range, unsigned in Hx, Hy. cbn [int_min int_max] in Hx, Hy.
  apply (to_be_bytes_inj 32); [lia..|done].
Qed.

(** Two values with the same image under a function. *)
Definition collision {A B} (f : A → B) : Prop := ∃ x y, x ≠ y ∧ f x = f y.

Lemma eq_or_collision {A B} `{EqDecision A} (f : A → B) x y : f x = f y → x = y ∨ collision f.
Proof. intros Hf. destruct (decide (x = y)); [by left|right; by exists x, y]. Qed.

Section facts.
Context `{Hashing}.

Lemma generate_header_ok p txs ids r h :
  generate_header p txs ids r = Ok h ↔
  Z.of_nat (length txs) ≤ 65535 ∧ Z.of_nat (length ids) ≤ 4294967295
  ∧ h = recalculate_metadata (MkBlockHeader
      (MkApplicationHeader (da_height (p_application p)) (consensus_parameters_version (p_application p))
         (state_transition_bytecode_version (p_application p))
         (MkGeneratedApplicationFields (Z.of_nat (length txs)) (Z.of_nat (length ids))
            (generate_txns_root txs) (merkle_root (to_be_bytes 32 <$> ids)) r))
      (MkConsensusHeader (prev_root (p_consensus p)) (height (p_consensus p)) (time (p_consensus p))
         (MkGeneratedConsensusFields 0)) None).
Proof.
  unfold generate_header, try_into.
  destruct (fit u16 _) as [n|] eqn:Hn; cbn [ok_or mbind result_bind].
  - destruct (fit u32 _) as [m|] eqn:Hm; cbn [ok_or mbind result_bind].
    + apply fit_Some in Hn as [<- Hn], Hm as [<- Hm]. int_unfold.
      split; [intros [= <-]; repeat split; lia|by intros (_ & _ & ->)].
    + apply fit_None in Hm. int_unfold. split; [done|]. intros; exfalso; lia.
  - apply fit_None in Hn. int_unfold. split; [done|]. intros; exfalso; lia.
Qed.

(** Generation keeps the partial header: [PartialBlockHeader::from] is its
    left inverse. *)
Lemma partial_of_generate p txs ids r h :
  generate_header p txs ids r = Ok h → PartialBlockHeader_from h = p.
Proof.
  intros (_ & _ & ->)%generate_header_ok. by destruct p as [[? ? ? []] [? ? ? []]].
Qed.

(** A generated block passes the checks made on blocks that arrive with
    their header: its transactions match the header, reassembling it gives the
    same block, the cached id is the hash of the header, and dropping the
    generated fields gives back the partial block it was generated from. *)
Theorem generated_block_consistent p ids r b :
  generate p ids r = Ok b →
  validate_transactions (header b) (transactions b) = true
  ∧ try_from_executed (header b) (transactions b) = Some b
  ∧ Block_id b = header_hash (header b)
  ∧ PartialFuelBlock_from b = p.
Proof.
  unfold generate, Block_new. destruct (generate_header _ _ _ _) as [h|] eqn:Hg; [|done].
  cbn [mbind result_bind]. intros [= <-]. pose proof (partial_of_generate _ _ _ _ _ Hg) as Hp.
  assert (validate_transactions h (pb_transactions p) = true) as Hv.
  { apply generate_header_ok in Hg as (_ & _ & ->). unfold validate_transactions. simpl.
    by rewrite !bool_decide_true. }
  unfold try_from_executed, PartialFuelBlock_from. cbn [header transactions]. rewrite Hv, Hp.
  split_and!; [done..| |by destruct p].
  apply generate_header_ok in Hg as (_ & _ & ->). done.
Qed.

(** A block id commits to everything in the block: two generated blocks with
    the same id have the same partial header, the same encoded transactions,
    the same message ids and the same inbox root, unless the two blocks exhibit
    a collision of the hash function or of the Merkle root. *)
Theorem block_id_binding p1 p2 t1 t2 m1 m2 r1 r2 h1 h2 :
  generate_header p1 t1 m1 r1 = Ok h1 → generate_header p2 t2 m2 r2 = Ok h2 →
  application_wf (application h1) → application_wf (application h2) →
  consensus_wf (consensus h1) → consensus_wf (consensus h2) →
  Forall (in_range (unsigned 256)) m1 → Forall (in_range (unsigned 256)) m2 →
  header_id h1 = header_id h2 →
  (p1 = p2 ∧ tx_to_bytes <$> t1 = tx_to_bytes <$> t2 ∧ m1 = m2 ∧ r1 = r2)
  ∨ collision sha256 ∨ collision merkle_root.
Proof.
  intros Hg1 Hg2 Ha1 Ha2 Hc1 Hc2 Hm1 Hm2 Hid.
  pose proof (partial_of_generate _ _ _ _ _ Hg1) as Hp1.
  pose proof (partial_of_generate _ _ _ _ _ Hg2) as Hp2.
  assert (∀ p t m r h, generate_header p t m r = Ok h →
    header_id h = sha256 (consensus_preimage (consensus h))
    ∧ application_hash (con_generated (consensus h)) = sha256 (application_preimage (application h))
    ∧ transactions_root (app_generated (application h)) = merkle_root (tx_to_bytes <$> t)
    ∧ message_outbox_root (app_generated (application h)) = merkle_root (to_be_bytes 32 <$> m)
    ∧ event_inbox_root (app_generated (application h)) = r) as Hgen.
  { by intros p t m r h (_ & _ & ->)%generate_header_ok. }
  destruct (Hgen _ _ _ _ _ Hg1) as (Hi1 & Hh1 & Ht1 & Ho1 & Hr1).
  destruct (Hgen _ _ _ _ _ Hg2) as (Hi2 & Hh2 & Ht2 & Ho2 & Hr2).
  rewrite Hi1, Hi2 in Hid.
  apply eq_or_collision in Hid as [Hid|?]; [|by auto].
  apply consensus_preimage_inj in Hid; [|done..].
  assert (sha256 (application_preimage (application h1))
          = sha256 (application_preimage (application h2))) as Happ by congruence.
  apply eq_or_collision in Happ as [Happ|?]; [|by auto].
  apply application_preimage_inj in Happ; [|done..].
  rewrite Happ, Ht2 in Ht1. rewrite Happ, Ho2 in Ho1.
  apply eq_or_collision in Ht1 as [Ht1|?]; [|by auto].
  apply eq_or_collision in Ho1 as [Ho1|?]; [|by auto].
  apply list_be_bytes_inj in Ho1; [|done..].
  left. split_and!; [|congruence..]. rewrite <- Hp1, <- Hp2. unfold PartialBlockHeader_from.
  congruence.
Qed.

End facts.

(** ** Witnesses: a polynomial hash in place of SHA-256 and Merkle trees *)
Definition sample_hash (l : list Z) : Z := foldl (λ a b, (a * 257 + b + 1) mod 2 ^ 256) 7 l.
Definition sample_hashing : Hashing := {|
  sha256 := sample_hash;
  merkle_root := λ ls, sample_hash (concat ls);
  tx_to_bytes := λ tx, match tx with TxChargeable t => tx_body t | TxMint m => [mint_amount m] end
|}.
Definition sample_partial : PartialFuelBlock :=
  MkPartialFuelBlock
    (MkPartialBlockHeader (MkApplicationHeader 5 1 1 ()) (MkConsensusHeader 99 3 1000 ()))
    [TxChargeable (MkTx Script [] [] 4294967295 [1; 2; 3])].

Lemma generated_block_consistent_witness :
  ∃ b, @generate sample_hashing sample_partial [11; 12] 77 = Ok b
       ∧ @try_from_executed sample_hashing (header b) (transactions b) = Some b.
Proof.
  eexists. split; [reflexivity|].
  apply (@generated_block_consistent sample_hashing sample_partial [11; 12] 77). reflexivity.
Defined.

Lemma block_id_binding_witness :
  ∃ h1 h2, @generate_header sample_hashing (pb_header sample_partial) [] [11; 12] 77 = Ok h1
    ∧ @generate_header sample_hashing (pb_header sample_partial) [] [11; 12] 77 = Ok h2
    ∧ ((pb_header sample_partial = pb_header sample_partial
        ∧ @tx_to_bytes sample_hashing <$> [] = @tx_to_bytes sample_hashing <$> []
        ∧ [11; 12] = [11; 12] ∧ 77 = 77)
       ∨ collision (@sha256 sample_hashing) ∨ collision (@merkle_root sample_hashing)).
Proof.
  do 2 eexists. split; [reflexivity|split; [reflexivity|]].
  eapply (@block_id_binding sample_hashing (pb_header sample_partial) (pb_header sample_partial)
            [] [] [11; 12] [11; 12] 77 77); [reflexivity|reflexivity|..|reflexivity].
  - constructor; eval_ranges.
  - constructor; eval_ranges.
  - constructor; eval_ranges.
  - constructor; eval_ranges.
  - repeat constructor; eval_ranges.
  - repeat constructor; eval_ranges.
Defined.
