(* ===== verification/ExecutorTypes.v ===== *)
(** * State, errors and external interfaces of the executor

    The tables of the on-chain database the executor works on, the data it
    accumulates for a block (crates/services/executor/src/executor.rs), the
    error and event types (crates/types/src/services/executor.rs) and the
    ports (crates/services/executor/src/ports.rs).  The virtual machine and
    the transaction checks of fuel-vm and fuel-tx are the operations of the
    class [FuelVm]. *)
From stdpp Require Import strings.
From S2P Require Import Prelude FuelTypes BlockTypes.

(** ** Database *)

(** The parameters the executor reads itself; [cp_rest] stands for the gas
    costs, the fee parameters and the limits it only hands to fuel-vm. *)
Record ConsensusParameters := MkConsensusParameters {
  cp_chain_id : Z;
  cp_block_gas_limit : Z;                    (* u64 *)
  cp_block_transaction_size_limit : Z;       (* u64 *)
  cp_base_asset_id : AssetId;
  cp_rest : list Z
}.

(** The tables only the virtual machine writes: contract code, state and
    balances, blobs and uploaded bytecode as raw key-value pairs of a column,
    the consensus parameters and the versions of the state transition. *)
Record VmTables := MkVmTables {
  vm_columns : gmap (Z * list Z) (list Z);
  consensus_parameters_versions : gmap Z ConsensusParameters;
  state_transition_bytecode_versions : gmap Z Bytes32
}.

Record Db := MkDb {
  coins : gmap UtxoId CompressedCoin;
  messages : gmap Nonce Message;
  contracts_latest_utxo : gmap ContractId ContractUtxoInfo;
  processed_transactions : gset TxId;
  fuel_blocks : gmap BlockHeight (Block TxId);
  vm_tables : VmTables
}.
#[export] Instance eta_Db : Eta Db := λ r,
  MkDb (coins r) (messages r) (contracts_latest_utxo r) (processed_transactions r)
    (fuel_blocks r) (vm_tables r).

(** ** Errors *)
Definition CheckError : Type := string.

Inductive TransactionValidityError :=
| CoinAlreadySpent (utxo_id : UtxoId)
| CoinMismatch (utxo_id : UtxoId)
| CoinDoesNotExist (utxo_id : UtxoId)
| MessageSpendTooEarly (nonce : Nonce)
| ValidityMessageDoesNotExist (nonce : Nonce)
| MessageMismatch (nonce : Nonce)
| ContractDoesNotExist (contract_id : ContractId)
| InvalidContractInputIndex (utxo_id : UtxoId)
| Validation (e : CheckError).

(** The three messages a [GasOverflow] is raised with. *)
Inductive GasOverflowReason :=
| CannotFitInRemainingGas
| ExecutionUsedGasOverflowed
| TotalUsedGasOverflowed.

Inductive ExecutorError :=
| TransactionIdCollision (id : TxId)
| TooManyTransactions
| TooManyOutputs
| OutputAlreadyExists
| FeeOverflow
| GasOverflow (reason : GasOverflowReason) (augend addend : Z)
| TxSizeOverflow
| MintMissing
| MintHasUnexpectedIndex
| MintIsNotLastTransaction
| MintMismatch
| CoinbaseCannotIncreaseBalance (e : string)
| CoinbaseAmountMismatch
| CoinbaseGasPriceMismatch
| TransactionValidity (e : TransactionValidityError)
| RelayerError (e : string)
| BlockHeaderErr (e : BlockHeaderError)
| VmExecution (error : string) (transaction_id : TxId)
| InvalidTransaction (e : CheckError)
| InvalidTransactionOutcome (transaction_id : TxId)
| BlockMismatch
| ContractUtxoMissing (contract_id : ContractId)
| MessageDoesNotExist (nonce : Nonce)
| ExecutingGenesisBlock
| DaHeightExceededItsLimit
| PreviousBlockIsNotFound
| RelayerGivesIncorrectMessages
| ConsensusParametersNotFound (version : Z)
| TransactionExpired (expiration block_height : BlockHeight)
| StorageError (e : string)
| Other (e : string).

Inductive ForcedTransactionFailure :=
| CodecError
| ForcedCheckError (e : CheckError)
| InvalidTransactionType
| InsufficientMaxGas (claimed_max_gas actual_max_gas : Z).

(** [failure : String] of the event is the error it was printed from. *)
Inductive ForcedFailure :=
| FailedValidation (e : ForcedTransactionFailure)
| FailedExecution (e : ExecutorError).

Inductive ExecutorEvent :=
| MessageImported (message : Message)
| MessageConsumed (message : Message)
| CoinCreated (coin : Coin)
| CoinConsumed (coin : Coin)
| ForcedTransactionFailed (id : Bytes32) (block_height : BlockHeight) (failure : ForcedFailure).

(** ** Execution results *)
Inductive ProgramState := PsReturn (w : Z) | PsReturnData (digest : Z) | PsRevert (w : Z).

(** Receipts, with the fields the executor reads. *)
Inductive Receipt :=
| ReceiptScriptResult (gas_used : Z)
| ReceiptMessageOut (message_id : MessageId)
| ReceiptPanic (contract_id : option ContractId)
| ReceiptOther (payload : list Z).

Definition receipt_message_id (r : Receipt) : option MessageId :=
  match r with ReceiptMessageOut id => Some id | _ => None end.

Inductive TransactionExecutionResult :=
| Success (result : option ProgramState) (receipts : list Receipt) (total_gas total_fee : Z)
| Failed (result : option ProgramState) (receipts : list Receipt) (total_gas total_fee : Z).

Definition total_gas (r : TransactionExecutionResult) : Z :=
  match r with Success _ _ g _ | Failed _ _ g _ => g end.
Definition total_fee (r : TransactionExecutionResult) : Z :=
  match r with Success _ _ _ f | Failed _ _ _ f => f end.

Record TransactionExecutionStatus := MkStatus {
  st_id : TxId;
  st_result : TransactionExecutionResult
}.

Inductive PreconfirmationStatus :=
| SqueezedOut (reason : ExecutorError)
| PreSuccess (tx_pointer : TxPointer) (total_gas total_fee : Z) (receipts : list Receipt)
    (outputs : list Output)
| PreFailure (tx_pointer : TxPointer) (total_gas total_fee : Z) (receipts : list Receipt)
    (outputs : list Output).

(** ** The data accumulated for a block *)
Record ExecutionData := MkExecutionData {
  coinbase : Z;          (* u64 *)
  used_gas : Z;          (* u64 *)
  used_size : Z;         (* u32 *)
  tx_count : Z;          (* u16 *)
  found_mint : bool;
  message_ids : list MessageId;
  tx_status : list TransactionExecutionStatus;
  events : list ExecutorEvent;
  skipped_transactions : list (TxId * ExecutorError);
  ed_event_inbox_root : Bytes32
}.
#[export] Instance eta_ExecutionData : Eta ExecutionData := λ r,
  MkExecutionData (coinbase r) (used_gas r) (used_size r) (tx_count r) (found_mint r)
    (message_ids r) (tx_status r) (events r) (skipped_transactions r) (ed_event_inbox_root r).

Definition ExecutionData_new : ExecutionData :=
  MkExecutionData 0 0 0 0 false [] [] [] [] 0.

Record ExecutionOptions := MkExecutionOptions {
  forbid_fake_coins : bool;
  dry_run : bool
}.

(** ** Ports *)
Inductive MaybeCheckedTransaction :=
| MaybeChecked (tx : Transaction) (version : Z)
| MaybeUnchecked (tx : Transaction).

Definition maybe_tx (t : MaybeCheckedTransaction) : Transaction :=
  match t with MaybeChecked tx _ | MaybeUnchecked tx => tx end.

Definition transaction_expiration (tx : Transaction) : BlockHeight :=
  match tx with TxChargeable tx => tx_expiration tx | TxMint _ => int_max u32 end.

(** [MaybeCheckedTransaction::expiration] *)
Definition expiration (t : MaybeCheckedTransaction) : BlockHeight :=
  transaction_expiration (maybe_tx t).

(** [TransactionsSource], as a state that [next] updates. *)
Class TransactionsSource (TS : Type) := {
  next : TS → Z → Z → Z → list MaybeCheckedTransaction * TS
}.

(** [OnceTransactionsSource] drains a vector. *)
#[export] Instance OnceTransactionsSource : TransactionsSource (list MaybeCheckedTransaction) := {|
  next := λ txs _ transactions_limit _,
    let limit := Z.to_nat (Z.min transactions_limit (Z.of_nat (length txs))) in
    (take limit txs, drop limit txs)
|}.

Record Components (TS : Type) := MkComponents {
  header_to_produce : PartialBlockHeader;
  transactions_source : TS;
  coinbase_recipient : ContractId;
  gas_price : Z
}.
Arguments MkComponents {TS} _ _ _ _.
Arguments header_to_produce {TS} _.
Arguments transactions_source {TS} _.
Arguments coinbase_recipient {TS} _.
Arguments gas_price {TS} _.

(** [RelayerPort] *)
Record Relayer := MkRelayer {
  enabled : bool;
  get_events : DaBlockHeight → result string (list RelayerEvent)
}.

(** ** fuel-tx and fuel-vm *)

(** What [Interpreter::transact] returns: whether the state transition should
    revert, the final program state, the transaction with its outputs, the
    receipts, the tables it wrote to and, with the [AttemptContinue] verifier,
    the contracts missing from the inputs. *)
Record VmResult := MkVmResult {
  vr_should_revert : bool;
  vr_state : ProgramState;
  vr_tx : ChargeableTx;
  vr_receipts : list Receipt;
  vr_tables : VmTables;
  vr_missing_contract_inputs : list ContractId
}.

Class FuelVm := {
  (** [tx.id(chain_id)], also the id cached in a checked transaction *)
  tx_id : Z → Transaction → TxId;
  (** [Chargeable] *)
  max_gas : ConsensusParameters → ChargeableTx → Z;
  min_gas : ConsensusParameters → ChargeableTx → Z;
  max_fee_limit : ChargeableTx → Z;
  refund_fee : ConsensusParameters → ChargeableTx → Z → Z → option Z;
  metered_bytes_size : ChargeableTx → Z;
  (** [into_checked_basic], [into_checked_reusable_memory], [check_predicates],
      [check_signatures] and [into_ready]: the error, if any.  A [Checked]
      transaction is the transaction. *)
  into_checked_basic : BlockHeight → ConsensusParameters → Transaction → option CheckError;
  into_checked : BlockHeight → ConsensusParameters → Db → Transaction → option CheckError;
  check_predicates : ConsensusParameters → Db → ChargeableTx → option CheckError;
  check_signatures : Z → ChargeableTx → option CheckError;
  into_ready : Z → ConsensusParameters → BlockHeight → ChargeableTx → option CheckError;
  (** [Interpreter::transact]; the flag selects the [AttemptContinue] verifier *)
  transact : bool → PartialBlockHeader → ContractId → Z → ConsensusParameters → Db →
             ChargeableTx → result string VmResult;
  (** [fuel_vm::interpreter::contract::balance_increase] *)
  balance_increase : VmTables → ContractId → AssetId → Z → result string VmTables;
  (** [MerkleRootStorage::root] of a contract's balances and of its state *)
  contract_balance_root : VmTables → ContractId → Bytes32;
  contract_state_root : VmTables → ContractId → Bytes32;
  (** [Transaction::from_bytes] *)
  tx_from_bytes : list Z → option Transaction;
  (** [compute_message_id] of a message *)
  message_id : Message → MessageId
}.

(** [RelayedTransactionV1::id] *)
Definition relayed_tx_id `{Hashing} (tx : RelayedTransaction) : Bytes32 :=
  sha256 (to_be_bytes 32 (rtx_nonce tx) ++ to_be_bytes 8 (rtx_max_gas tx)
          ++ rtx_serialized_transaction tx).

(** [relayer::Event::hash] *)
Definition relayer_event_hash `{Hashing, FuelVm} (e : RelayerEvent) : Bytes32 :=
  match e with
  | EventMessage m => message_id m
  | EventTransaction tx => relayed_tx_id tx
  end.
