(* ===== verification/Executor.v ===== *)
(** * The block executor (crates/services/executor/src/executor.rs)

    One definition per method of [BlockExecutor].  A storage transaction is
    the view of the database it presents: a nested [write_transaction] that is
    committed replaces the view of its parent and one that is dropped leaves it
    alone (TransactionalFacts.v shows that the overlay code does this).
    Methods that take [&mut storage] and [&mut execution_data] are in the [ST]
    monad, so that what they leave behind on an early return is part of the
    model.  Failures of the storage backend itself are not modelled. *)
From stdpp Require Import strings.
From S2P Require Import Prelude FuelTypes BlockTypes ExecutorTypes.

(** A transaction's storage and the execution data. *)
Definition TxState : Type := Db * ExecutionData.

(** Lifts code that works on one of the two. *)
Definition on_db {A} (m : ST Db ExecutorError A) : ST TxState ExecutorError A := λ s,
  let '(r, db) := m s.1 in (r, (db, s.2)).
Definition modify_db (f : Db → Db) : ST TxState ExecutorError unit := λ s, (Ok (), (f s.1, s.2)).
Definition modify_data (f : ExecutionData → ExecutionData) : ST TxState ExecutorError unit := λ s,
  (Ok (), (s.1, f s.2)).
Definition push_event (e : ExecutorEvent) : ST TxState ExecutorError unit :=
  modify_data (λ d, d <| events := events d ++ [e] |>).
(** [if cond { return Err(e) }] *)
Definition fail_if {S E} (cond : bool) (e : E) : ST S E unit :=
  if cond then st_err e else mret ().
(** A third-party check that returns its error. *)
Definition checked {E F} (o : option E) (f : E → F) : result F unit :=
  match o with Some e => Err (f e) | None => Ok () end.

(** [Result::try_for_each] and mapping a fallible function over a slice. *)
Fixpoint try_map {E A B} (f : A → result E B) (l : list A) : result E (list B) :=
  match l with
  | [] => Ok []
  | x :: l => y ← f x; k ← try_map f l; Ok (y :: k)
  end.

Definition max_tx_count : Z := saturating_sub u16 (int_max u16) 1.

(** The block under construction, its storage transaction and its data. *)
Record ExecState := MkExecState {
  ex_block : PartialFuelBlock;
  ex_db : Db;
  ex_data : ExecutionData
}.

(** The local state of [process_l2_txs]. *)
Record L2State (TS : Type) := MkL2State {
  l2_ex : ExecState;
  l2_source : TS;
  l2_sent : list (list PreconfirmationStatus);
  l2_status : list PreconfirmationStatus;
  remaining_gas_limit : Z;
  remaining_block_transaction_size_limit : Z;
  remaining_tx_count : Z
}.
Arguments MkL2State {TS} _ _ _ _ _ _ _.
Arguments l2_ex {TS} _.
Arguments l2_source {TS} _.
Arguments l2_sent {TS} _.
Arguments l2_status {TS} _.
Arguments remaining_gas_limit {TS} _.
Arguments remaining_block_transaction_size_limit {TS} _.
Arguments remaining_tx_count {TS} _.

Section executor.
Context `{Hashing, FuelVm}.
Context (relayer : Relayer) (consensus_params : ConsensusParameters) (options : ExecutionOptions).

Definition id_of (tx : Transaction) : TxId := tx_id (cp_chain_id consensus_params) tx.

(** ** Inputs *)

Definition get_coin_or_default (db : Db) (utxo_id : UtxoId) (owner : Address) (amount : Z)
    (asset_id : AssetId) : result ExecutorError CompressedCoin :=
  if forbid_fake_coins options then
    ok_or (coins db !! utxo_id) (TransactionValidity (CoinDoesNotExist utxo_id))
  else Ok (MkCompressedCoin owner amount asset_id (0, 0)).

(** [ContractRef::validated_utxo] *)
Definition validated_utxo (db : Db) (contract_id : ContractId) (utxo_validation : bool)
    : result ExecutorError ContractUtxoInfo :=
  let maybe_utxo_id := contracts_latest_utxo db !! contract_id in
  if utxo_validation then ok_or maybe_utxo_id (ContractUtxoMissing contract_id)
  else Ok (unwrap_or ContractUtxoInfo_default maybe_utxo_id).

Definition compute_coin_input (db : Db) (c : CoinInput) : result ExecutorError CoinInput :=
  coin ← get_coin_or_default db (ci_utxo_id c) (ci_owner c) (ci_amount c) (ci_asset_id c);
  Ok (c <| ci_tx_pointer := cc_tx_pointer coin |>).

Definition compute_input (db : Db) (input : Input) : result ExecutorError Input :=
  match input with
  | InputCoinSigned c => c ← compute_coin_input db c; Ok (InputCoinSigned c)
  | InputCoinPredicate c => c ← compute_coin_input db c; Ok (InputCoinPredicate c)
  | InputContract c =>
      utxo_info ← validated_utxo db (xi_contract_id c) (forbid_fake_coins options);
      Ok (InputContract (MkContractInput (cu_utxo_id utxo_info)
            (contract_balance_root (vm_tables db) (xi_contract_id c))
            (contract_state_root (vm_tables db) (xi_contract_id c))
            (cu_tx_pointer utxo_info) (xi_contract_id c)))
  | input => Ok input
  end.

Definition compute_inputs (db : Db) (inputs : list Input) : result ExecutorError (list Input) :=
  try_map (compute_input db) inputs.

Definition verify_input (db : Db) (block_da_height : DaBlockHeight) (input : Input)
    : result ExecutorError unit :=
  match input with
  | InputCoinSigned c | InputCoinPredicate c =>
      match coins db !! ci_utxo_id c with
      | Some coin =>
          if unwrap_or false (coin_matches_input coin input) then Ok ()
          else Err (TransactionValidity (CoinMismatch (ci_utxo_id c)))
      | None => Err (TransactionValidity (CoinDoesNotExist (ci_utxo_id c)))
      end
  | InputContract c =>
      if decide (is_Some (contracts_latest_utxo db !! xi_contract_id c)) then Ok ()
      else Err (TransactionValidity (ContractDoesNotExist (xi_contract_id c)))
  | InputMessageCoinSigned m | InputMessageCoinPredicate m
  | InputMessageDataSigned m | InputMessageDataPredicate m =>
      match messages db !! mi_nonce m with
      | Some message =>
          if decide (msg_da_height message > block_da_height) then
            Err (TransactionValidity (MessageSpendTooEarly (mi_nonce m)))
          else if unwrap_or false (message_matches_input message input) then Ok ()
          else Err (TransactionValidity (MessageMismatch (mi_nonce m)))
      | None => Err (TransactionValidity (ValidityMessageDoesNotExist (mi_nonce m)))
      end
  end.

Definition verify_inputs_exist_and_values_match (db : Db) (inputs : list Input)
    (block_da_height : DaBlockHeight) : result ExecutorError unit :=
  _ ← try_map (verify_input db block_da_height) inputs; Ok ().

(** One iteration of [spend_input_utxos]. *)
Definition spend_coin (c : CoinInput) : ST TxState ExecutorError unit :=
  '(db, _) ← st_get;
  let taken := coins db !! ci_utxo_id c in
  modify_db (λ db, db <| coins := delete (ci_utxo_id c) (coins db) |>) ;;
  '(db, _) ← st_get;
  coin ← st_lift
    match taken with
    | Some coin => Ok coin
    | None => get_coin_or_default db (ci_utxo_id c) (ci_owner c) (ci_amount c) (ci_asset_id c)
    end;
  push_event (CoinConsumed (uncompress coin (ci_utxo_id c))).

Definition spend_message (nonce : Nonce) : ST TxState ExecutorError unit :=
  '(db, _) ← st_get;
  modify_db (λ db, db <| messages := delete nonce (messages db) |>) ;;
  message ← st_lift (ok_or (messages db !! nonce) (MessageDoesNotExist nonce));
  push_event (MessageConsumed message).

Definition spend_input (reverted : bool) (input : Input) : ST TxState ExecutorError unit :=
  match input with
  | InputCoinSigned c | InputCoinPredicate c => spend_coin c
  | InputMessageDataSigned m | InputMessageDataPredicate m =>
      if reverted then mret () else spend_message (mi_nonce m)
  | InputMessageCoinSigned m | InputMessageCoinPredicate m => spend_message (mi_nonce m)
  | InputContract _ => mret ()
  end.

Definition spend_input_utxos (inputs : list Input) (reverted : bool) : ST TxState ExecutorError unit :=
  st_for (spend_input reverted) inputs.

(** ** Outputs *)

Definition insert_coin (block_height : BlockHeight) (utxo_id : UtxoId) (amount : Z)
    (asset_id : AssetId) (to : Address) : ST TxState ExecutorError unit :=
  if decide (amount > 0) then
    '(db, data) ← st_get;
    let coin := MkCompressedCoin to amount asset_id (block_height, tx_count data) in
    modify_db (λ db, db <| coins := <[utxo_id := coin]> (coins db) |>) ;;
    fail_if (bool_decide (is_Some (coins db !! utxo_id))) OutputAlreadyExists ;;
    push_event (CoinCreated (uncompress coin utxo_id))
  else mret ().

Definition set_latest_utxo (contract_id : ContractId) (utxo_id : UtxoId) (tx_pointer : TxPointer)
    : ST TxState ExecutorError unit :=
  modify_db (λ db, db <| contracts_latest_utxo :=
    <[contract_id := MkContractUtxoInfo utxo_id tx_pointer]> (contracts_latest_utxo db) |>).

Definition persist_output (block_height : BlockHeight) (id : TxId) (inputs : list Input)
    (tx_idx : Z) (output_index : nat) (output : Output) : ST TxState ExecutorError unit :=
  index ← st_lift (ok_or (try_into u16 (Z.of_nat output_index)) TooManyOutputs);
  let utxo_id := (id, index) in
  match output with
  | OutputCoin to amount asset_id | OutputChange to amount asset_id
  | OutputVariable to amount asset_id => insert_coin block_height utxo_id amount asset_id to
  | OutputContract c =>
      match inputs !! Z.to_nat (xo_input_index c) with
      | Some (InputContract i) => set_latest_utxo (xi_contract_id i) utxo_id (block_height, tx_idx)
      | _ => st_err (TransactionValidity (InvalidContractInputIndex utxo_id))
      end
  | OutputContractCreated contract_id _ =>
      set_latest_utxo contract_id utxo_id (block_height, tx_idx)
  end.

Definition persist_output_utxos (block_height : BlockHeight) (id : TxId) (inputs : list Input)
    (outputs : list Output) : ST TxState ExecutorError unit :=
  '(_, data) ← st_get;
  st_for (λ '(output_index, output),
      persist_output block_height id inputs (tx_count data) output_index output)
    (imap pair outputs).

Definition compute_state_of_output (db : Db) (inputs : list Input) (id : TxId) (output : Output)
    : result ExecutorError Output :=
  match output with
  | OutputContract c =>
      match inputs !! Z.to_nat (xo_input_index c) with
      | Some (InputContract i) =>
          Ok (OutputContract (MkContractOutput (xo_input_index c)
                (contract_balance_root (vm_tables db) (xi_contract_id i))
                (contract_state_root (vm_tables db) (xi_contract_id i))))
      | _ => Err (InvalidTransactionOutcome id)
      end
  | output => Ok output
  end.

Definition compute_state_of_not_utxo_outputs (db : Db) (outputs : list Output)
    (inputs : list Input) (id : TxId) : result ExecutorError (list Output) :=
  try_map (compute_state_of_output db inputs id) outputs.

Definition update_tx_outputs (db : Db) (id : TxId) (tx : ChargeableTx)
    : result ExecutorError ChargeableTx :=
  outputs ← compute_state_of_not_utxo_outputs db (tx_outputs tx) (tx_inputs tx) id;
  Ok (tx <| tx_outputs := outputs |>).

(** ** Execution of a chargeable transaction *)

(** The gas of the first [ScriptResult] receipt. *)
Fixpoint script_gas_used (receipts : list Receipt) : Z :=
  match receipts with
  | [] => 0
  | ReceiptScriptResult gas_used :: _ => gas_used
  | _ :: receipts => script_gas_used receipts
  end.

Definition total_fee_paid (tx : ChargeableTx) (receipts : list Receipt) (gas_price : Z)
    : result ExecutorError (Z * Z) :=
  let min_gas := min_gas consensus_params tx in
  let max_fee := max_fee_limit tx in
  let used_gas := script_gas_used receipts in
  fee ← ok_or (refund_fee consensus_params tx used_gas gas_price) FeeOverflow;
  total_used_gas ← ok_or (checked_add u64 min_gas used_gas) (GasOverflow TotalUsedGasOverflowed min_gas used_gas);
  tx_fee ← ok_or (checked_sub u64 max_fee fee) FeeOverflow;
  Ok (total_used_gas, tx_fee).

Definition update_execution_data (tx : ChargeableTx) (receipts : list Receipt) (gas_price : Z)
    (reverted : bool) (state : ProgramState) (id : TxId) : ST TxState ExecutorError unit :=
  '(tx_used_gas, tx_fee) ← st_lift (total_fee_paid tx receipts gas_price);
  let tx_used_size := unwrap_or (int_max u32) (try_into u32 (metered_bytes_size tx)) in
  '(_, d) ← st_get;
  c ← st_lift (ok_or (checked_add u64 (coinbase d) tx_fee) FeeOverflow);
  modify_data (λ d, d <| coinbase := c |>) ;;
  g ← st_lift (ok_or (checked_add u64 (used_gas d) tx_used_gas)
                 (GasOverflow ExecutionUsedGasOverflowed (used_gas d) tx_used_gas));
  modify_data (λ d, d <| used_gas := g |>) ;;
  s ← st_lift (ok_or (checked_add u32 (used_size d) tx_used_size) TxSizeOverflow);
  modify_data (λ d, d <| used_size := s |>) ;;
  (if reverted then mret ()
   else modify_data (λ d, d <| message_ids := message_ids d ++ omap receipt_message_id receipts |>)) ;;
  let status :=
    if reverted then Failed (Some state) receipts tx_used_gas tx_fee
    else Success (Some state) receipts tx_used_gas tx_fee in
  modify_data (λ d, d <| tx_status := tx_status d ++ [MkStatus id status] |>).

Definition set_predicate_gas_used (id : TxId) (gas_used : Z) (input : Input)
    : result ExecutorError Input :=
  match input with
  | InputCoinPredicate c => Ok (InputCoinPredicate (c <| ci_predicate_gas_used := gas_used |>))
  | InputMessageCoinPredicate m =>
      Ok (InputMessageCoinPredicate (m <| mi_predicate_gas_used := gas_used |>))
  | InputMessageDataPredicate m =>
      Ok (InputMessageDataPredicate (m <| mi_predicate_gas_used := gas_used |>))
  | _ => Err (InvalidTransactionOutcome id)
  end.

(** Walks the recorded gas and the inputs together. *)
Fixpoint update_inputs_used_gas (predicate_gas_used : list (option Z)) (id : TxId)
    (inputs : list Input) : result ExecutorError (list Input) :=
  match predicate_gas_used, inputs with
  | g :: gs, input :: inputs =>
      input ← match g with Some gas_used => set_predicate_gas_used id gas_used input | None => Ok input end;
      inputs ← update_inputs_used_gas gs id inputs;
      Ok (input :: inputs)
  | _, inputs => Ok inputs
  end.

(** [*tx.inputs_mut() = inputs] *)
Definition with_inputs (tx : ChargeableTx) (inputs : list Input) : ChargeableTx :=
  tx <| tx_inputs := inputs |>.

Definition update_input_used_gas (predicate_gas_used : list (option Z)) (id : TxId)
    (tx : ChargeableTx) : result ExecutorError ChargeableTx :=
  inputs ← update_inputs_used_gas predicate_gas_used id (tx_inputs tx);
  Ok (with_inputs tx inputs).

Definition extra_tx_checks (tx : ChargeableTx) (header : PartialBlockHeader) (db : Db)
    : result ExecutorError unit :=
  _ ← checked (check_predicates consensus_params db tx) (λ e, TransactionValidity (Validation e));
  _ ← verify_inputs_exist_and_values_match db (tx_inputs tx) (da_height (p_application header));
  checked (check_signatures (cp_chain_id consensus_params) tx) (λ e, TransactionValidity (Validation e)).

(** The reverted flag and the receipts after a run of the VM: in a dry run the
    contracts that were missing from the inputs become panic receipts. *)
Definition vm_outcome (r : VmResult) : bool * list Receipt :=
  if dry_run options then
    match vr_missing_contract_inputs r with
    | [] => (vr_should_revert r, vr_receipts r)
    | missing => (true, vr_receipts r ++ ((λ contract_id, ReceiptPanic (Some contract_id)) <$> missing))
    end
  else (vr_should_revert r, vr_receipts r).

Definition attempt_tx_execution_with_vm (tx : ChargeableTx) (header : PartialBlockHeader)
    (coinbase_contract_id : ContractId) (gas_price : Z)
    : ST Db ExecutorError (bool * ProgramState * ChargeableTx * list Receipt) :=
  let id := id_of (TxChargeable tx) in
  let gas_used := predicate_gas_used <$> tx_inputs tx in
  st_lift (checked (into_ready gas_price consensus_params (height (p_consensus header)) tx)
             InvalidTransaction) ;;
  db ← st_get;
  r ← st_lift (map_err (λ e, VmExecution e id)
        (transact (dry_run options) header coinbase_contract_id gas_price consensus_params db tx));
  let '(reverted, receipts) := vm_outcome r in
  tx ← st_lift (update_input_used_gas gas_used id (vr_tx r));
  inputs ← st_lift (compute_inputs db (tx_inputs tx));
  let tx := with_inputs tx inputs in
  (if reverted then mret () else st_modify (λ db : Db, db <| vm_tables := vr_tables r |>)) ;;
  db ← st_get;
  tx ← st_lift (update_tx_outputs db id tx);
  mret (reverted, vr_state r, tx, receipts).

Definition execute_chargeable_transaction (tx : ChargeableTx) (header : PartialBlockHeader)
    (coinbase_contract_id : ContractId) (gas_price : Z) : ST TxState ExecutorError Transaction :=
  let id := id_of (TxChargeable tx) in
  '(db, _) ← st_get;
  st_lift (if forbid_fake_coins options then extra_tx_checks tx header db else Ok ()) ;;
  '(reverted, state, tx, receipts) ←
    on_db (attempt_tx_execution_with_vm tx header coinbase_contract_id gas_price);
  spend_input_utxos (tx_inputs tx) reverted ;;
  persist_output_utxos (height (p_consensus header)) id (tx_inputs tx) (tx_outputs tx) ;;
  modify_db (λ db, db <| processed_transactions := {[id]} ∪ processed_transactions db |>) ;;
  update_execution_data tx receipts gas_price reverted state id ;;
  mret (TxChargeable tx).

(** ** Execution of the mint transaction *)

Definition check_mint_amount (mint : Mint) (expected_amount : Z) : result ExecutorError unit :=
  if decide (mint_amount mint ≠ expected_amount) then Err CoinbaseAmountMismatch else Ok ().
Definition check_gas_price (mint : Mint) (expected_gas_price : Z) : result ExecutorError unit :=
  if decide (mint_gas_price mint ≠ expected_gas_price) then Err CoinbaseGasPriceMismatch else Ok ().
Definition check_mint_has_expected_index (mint : Mint) (data : ExecutionData) : result ExecutorError unit :=
  if decide ((mint_tx_pointer mint).2 ≠ tx_count data) then Err MintHasUnexpectedIndex else Ok ().

(** The zeroed contract input and output of a mint without a recipient. *)
Definition mint_input (contract_id : ContractId) : ContractInput :=
  MkContractInput (0, 0) 0 0 (0, 0) contract_id.
Definition mint_output : ContractOutput := MkContractOutput 0 0 0.

Definition verify_mint_for_empty_contract (mint : Mint) : result ExecutorError unit :=
  if decide (mint_amount mint ≠ 0) then Err CoinbaseAmountMismatch
  else if decide (mint_input_contract mint ≠ mint_input 0 ∨ mint_output_contract mint ≠ mint_output)
  then Err MintMismatch
  else Ok ().

Definition store_mint_tx (mint : Mint) (coinbase_id : TxId) : ST TxState ExecutorError Transaction :=
  modify_data (λ d, d <| tx_status := tx_status d ++ [MkStatus coinbase_id (Success None [] 0 0)] |>) ;;
  '(db, _) ← st_get;
  modify_db (λ db, db <| processed_transactions := {[coinbase_id]} ∪ processed_transactions db |>) ;;
  fail_if (bool_decide (coinbase_id ∈ processed_transactions db)) (TransactionIdCollision coinbase_id) ;;
  mret (TxMint mint).

Definition execute_mint_with_vm (header : PartialBlockHeader) (coinbase_id : TxId) (mint : Mint)
    (input : Input) : ST TxState ExecutorError (ContractInput * ContractOutput) :=
  '(db, _) ← st_get;
  tables ← st_lift (map_err CoinbaseCannotIncreaseBalance
    (balance_increase (vm_tables db) (xi_contract_id (mint_input_contract mint))
       (mint_asset_id mint) (mint_amount mint)));
  modify_db (λ db, db <| vm_tables := tables |>) ;;
  let outputs := [OutputContract (mint_output_contract mint)] in
  persist_output_utxos (height (p_consensus header)) coinbase_id [input] outputs ;;
  '(db, _) ← st_get;
  outputs ← st_lift (compute_state_of_not_utxo_outputs db outputs [input] coinbase_id);
  match input, outputs with
  | InputContract input, [OutputContract output] => mret (input, output)
  | InputContract _, _ => st_err (Other "The output of the `Mint` transaction is not a contract")
  | _, _ => st_err (Other "Input of the `Mint` transaction is not a contract")
  end.

Definition execute_mint (mint : Mint) (header : PartialBlockHeader) (gas_price : Z)
    : ST TxState ExecutorError Transaction :=
  modify_data (λ d, d <| found_mint := true |>) ;;
  '(db, data) ← st_get;
  st_lift (check_mint_has_expected_index mint data) ;;
  let coinbase_id := id_of (TxMint mint) in
  st_lift (check_gas_price mint gas_price) ;;
  mint ← (
    if decide (xi_contract_id (mint_input_contract mint) = 0) then
      st_lift (verify_mint_for_empty_contract mint) ;; mret mint
    else
      st_lift (check_mint_amount mint (coinbase data)) ;;
      let input := InputContract (mint_input_contract mint) in
      st_lift (if forbid_fake_coins options
               then verify_inputs_exist_and_values_match db [input] (da_height (p_application header))
               else Ok ()) ;;
      input ← st_lift (compute_input db input);
      '(input, output) ← execute_mint_with_vm header coinbase_id mint input;
      mret (MkMint (mint_tx_pointer mint) input output (mint_amount mint) (mint_asset_id mint)
              (mint_gas_price mint)));
  store_mint_tx mint coinbase_id.

(** ** One transaction of a block *)

Definition check_mint_is_not_found (data : ExecutionData) : result ExecutorError unit :=
  if found_mint data then Err MintIsNotLastTransaction else Ok ().

Definition check_tx_is_not_duplicate (id : TxId) (db : Db) : result ExecutorError unit :=
  if decide (id ∈ processed_transactions db) then Err (TransactionIdCollision id) else Ok ().

Definition convert_maybe_checked_tx_to_checked_tx (tx : MaybeCheckedTransaction)
    (header : PartialBlockHeader) : result ExecutorError Transaction :=
  let block_height := height (p_consensus header) in
  let actual_version := consensus_parameters_version (p_application header) in
  let expiration := expiration tx in
  let check tx := _ ← checked (into_checked_basic block_height consensus_params tx) InvalidTransaction; Ok tx in
  match tx with
  | MaybeUnchecked tx => check tx
  | MaybeChecked tx checked_version =>
      if decide (block_height > expiration) then Err (TransactionExpired expiration block_height)
      else if decide (actual_version = checked_version) then Ok tx
      else check tx
  end.

Definition execute_transaction (tx : MaybeCheckedTransaction) (id : TxId)
    (header : PartialBlockHeader) (coinbase_contract_id : ContractId) (gas_price : Z)
    : ST TxState ExecutorError Transaction :=
  '(db, data) ← st_get;
  st_lift (check_mint_is_not_found data) ;;
  st_lift (check_tx_is_not_duplicate id db) ;;
  checked_tx ← st_lift (convert_maybe_checked_tx_to_checked_tx tx header);
  match checked_tx with
  | TxChargeable tx => execute_chargeable_transaction tx header coinbase_contract_id gas_price
  | TxMint mint => execute_mint mint header gas_price
  end.

(** The inner storage transaction is committed on success and dropped on an
    error; the execution data is shared. *)
Definition execute_transaction_and_commit (tx : MaybeCheckedTransaction) (gas_price : Z)
    (coinbase_contract_id : ContractId) : ST ExecState ExecutorError unit := λ s,
  let count := tx_count (ex_data s) in
  let '(r, (db, data)) :=
    execute_transaction tx (id_of (maybe_tx tx)) (pb_header (ex_block s)) coinbase_contract_id
      gas_price (ex_db s, ex_data s) in
  match r with
  | Err e => (Err e, MkExecState (ex_block s) (ex_db s) data)
  | Ok tx =>
      let b := ex_block s in
      let block := MkPartialFuelBlock (pb_header b) (pb_transactions b ++ [tx]) in
      match checked_add u16 count 1 with
      | Some count => (Ok (), MkExecState block db (data <| tx_count := count |>))
      | None => (Err TooManyTransactions, MkExecState block db data)
      end
  end.

(** ** Transactions and messages from the relayer *)

Definition RELAYED_GAS_PRICE : Z := 0.

Definition modify_ex_data (f : ExecutionData → ExecutionData) : ST ExecState ExecutorError unit := λ s,
  (Ok (), MkExecState (ex_block s) (ex_db s) (f (ex_data s))).

(** [match m { Ok(_) => .., Err(err) => handle(err) }] *)
Definition st_catch {S E A} (m : ST S E A) (handle : E → ST S E A) : ST S E A := λ s,
  match m s with
  | (Ok a, s) => (Ok a, s)
  | (Err e, s) => handle e s
  end.

Definition process_relayed_tx (block_header : PartialBlockHeader) (coinbase_contract_id : ContractId)
    (tx : Transaction) : ST ExecState ExecutorError unit :=
  let maybe_checked :=
    MaybeChecked tx (consensus_parameters_version (p_application block_header)) in
  st_catch (execute_transaction_and_commit maybe_checked RELAYED_GAS_PRICE coinbase_contract_id)
    (λ err, modify_ex_data (λ d, d <| events := events d ++
       [ForcedTransactionFailed (id_of (maybe_tx maybe_checked)) (height (p_consensus block_header))
          (FailedExecution err)] |>)).

Definition process_relayed_txs (forced_transactions : list Transaction)
    (coinbase_contract_id : ContractId) : ST ExecState ExecutorError unit := λ s,
  st_for (process_relayed_tx (pb_header (ex_block s)) coinbase_contract_id) forced_transactions s.

(** [TransactionExt::max_gas] *)
Definition transaction_max_gas (tx : Transaction) : result ExecutorError Z :=
  match tx with
  | TxChargeable tx => Ok (max_gas consensus_params tx)
  | TxMint _ => Err (Other "Mint transaction doesn't have max_gas")
  end.

Definition parse_tx_bytes (relayed_tx : RelayedTransaction)
    : result ForcedTransactionFailure Transaction :=
  ok_or (tx_from_bytes (rtx_serialized_transaction relayed_tx)) CodecError.

Definition tx_is_valid_variant (tx : Transaction) : result ForcedTransactionFailure unit :=
  match tx with TxMint _ => Err InvalidTransactionType | TxChargeable _ => Ok () end.

Definition relayed_tx_claimed_enough_max_gas (tx : Transaction) (relayed_tx : RelayedTransaction)
    : result ForcedTransactionFailure unit :=
  let claimed_max_gas := rtx_max_gas relayed_tx in
  actual_max_gas ← map_err (λ _, InvalidTransactionType) (transaction_max_gas tx);
  if decide (actual_max_gas > claimed_max_gas)
  then Err (InsufficientMaxGas claimed_max_gas actual_max_gas) else Ok ().

Definition get_checked_tx (tx : Transaction) (height : BlockHeight) (db : Db)
    : result ForcedTransactionFailure Transaction :=
  _ ← checked (into_checked height consensus_params db tx) ForcedCheckError; Ok tx.

Definition validate_forced_tx (relayed_tx : RelayedTransaction) (block_height : BlockHeight) (db : Db)
    : result ForcedTransactionFailure Transaction :=
  parsed_tx ← parse_tx_bytes relayed_tx;
  _ ← tx_is_valid_variant parsed_tx;
  _ ← relayed_tx_claimed_enough_max_gas parsed_tx relayed_tx;
  get_checked_tx parsed_tx block_height db.

(** The events of one DA block; the accumulator holds the leaves of the root
    calculator and the forced transactions that passed the checks. *)
Fixpoint process_da_events (block_height : BlockHeight) (da : DaBlockHeight)
    (evs : list RelayerEvent) (acc : list (list Z) * list Transaction)
    : ST TxState ExecutorError (list (list Z) * list Transaction) :=
  match evs with
  | [] => mret acc
  | event :: evs =>
      let '(leaves, forced) := acc in
      let leaves := leaves ++ [to_be_bytes 32 (relayer_event_hash event)] in
      match event with
      | EventMessage message =>
          fail_if (bool_decide (msg_da_height message ≠ da)) RelayerGivesIncorrectMessages ;;
          modify_db (λ db, db <| messages := <[msg_nonce message := message]> (messages db) |>) ;;
          push_event (MessageImported message) ;;
          process_da_events block_height da evs (leaves, forced)
      | EventTransaction relayed_tx =>
          '(db, _) ← st_get;
          match validate_forced_tx relayed_tx block_height db with
          | Ok checked_tx => process_da_events block_height da evs (leaves, forced ++ [checked_tx])
          | Err err =>
              push_event (ForcedTransactionFailed (relayed_tx_id relayed_tx) block_height
                            (FailedValidation err)) ;;
              process_da_events block_height da evs (leaves, forced)
          end
      end
  end.

Fixpoint process_da_heights (block_height : BlockHeight) (das : list DaBlockHeight)
    (acc : list (list Z) * list Transaction)
    : ST TxState ExecutorError (list (list Z) * list Transaction) :=
  match das with
  | [] => mret acc
  | da :: das =>
      evs ← st_lift (map_err RelayerError (get_events relayer da));
      acc ← process_da_events block_height da evs acc;
      process_da_heights block_height das acc
  end.

Definition process_da (block_height : BlockHeight) (da_block_height : DaBlockHeight)
    : ST TxState ExecutorError (list Transaction) :=
  prev_block_height ← st_lift (ok_or (checked_sub u32 block_height 1) ExecutingGenesisBlock);
  '(db, _) ← st_get;
  prev_block ← st_lift (ok_or (fuel_blocks db !! prev_block_height) PreviousBlockIsNotFound);
  let previous_da_height := da_height (application (header prev_block)) in
  next_unprocessed_da_height ←
    st_lift (ok_or (checked_add u64 previous_da_height 1) DaHeightExceededItsLimit);
  '(leaves, checked_forced_txs) ←
    process_da_heights block_height
      (seqZ next_unprocessed_da_height (da_block_height - next_unprocessed_da_height + 1)) ([], []);
  modify_data (λ d, d <| ed_event_inbox_root := merkle_root leaves |>) ;;
  mret checked_forced_txs.

Definition get_relayed_txs (block_height : BlockHeight) (da_block_height : DaBlockHeight)
    : ST TxState ExecutorError (list Transaction) :=
  if enabled relayer then process_da block_height da_block_height else mret [].

Definition process_l1_txs (coinbase_contract_id : ContractId) : ST ExecState ExecutorError unit := λ s,
  let h := pb_header (ex_block s) in
  let '(r, (db, data)) :=
    get_relayed_txs (height (p_consensus h)) (da_height (p_application h)) (ex_db s, ex_data s) in
  let s := MkExecState (ex_block s) db data in
  match r with
  | Ok relayed_txs => process_relayed_txs relayed_txs coinbase_contract_id s
  | Err e => (Err e, s)
  end.

(** ** Transactions from the source *)

Definition is_dynamic_output (output : Output) : bool :=
  match output with
  | OutputChange _ _ _ => true
  | OutputVariable _ amount _ => bool_decide (amount ≠ 0)
  | _ => false
  end.

Definition convert_tx_execution_result_to_preconfirmation (tx : Transaction)
    (tx_exec_result : TransactionExecutionResult) (block_height : BlockHeight) (tx_index : Z)
    : PreconfirmationStatus :=
  let tx_pointer := (block_height, tx_index) in
  let dynamic_outputs := filter (λ o, is_dynamic_output o) (transaction_outputs tx) in
  match tx_exec_result with
  | Success _ receipts total_gas total_fee =>
      PreSuccess tx_pointer total_gas total_fee receipts dynamic_outputs
  | Failed _ receipts total_gas total_fee =>
      PreFailure tx_pointer total_gas total_fee receipts dynamic_outputs
  end.

(** The preconfirmation port: [try_send] hands back what it could not send.
    The calls made to it are recorded. *)
Context (try_send : list PreconfirmationStatus → list PreconfirmationStatus).

Definition block_transaction_size_limit : Z :=
  unwrap_or (int_max u32) (try_into u32 (cp_block_transaction_size_limit consensus_params)).

Section l2.
Context `{TransactionsSource TS} (gas_price : Z) (coinbase_contract_id : ContractId).

(** The three [remaining_*] variables recomputed from the data. *)
Definition with_remaining (ex : ExecState) (source : TS) (sent : list (list PreconfirmationStatus))
    (status : list PreconfirmationStatus) : L2State TS :=
  MkL2State ex source sent status
    (saturating_sub u64 (cp_block_gas_limit consensus_params) (used_gas (ex_data ex)))
    (saturating_sub u32 block_transaction_size_limit (used_size (ex_data ex)))
    (saturating_sub u16 max_tx_count (tx_count (ex_data ex))).

(** The status sent for a transaction that was executed. *)
Definition executed_status (ex : ExecState) : option PreconfirmationStatus :=
  latest_executed_tx ← last (tx_status (ex_data ex));
  tx ← last (pb_transactions (ex_block ex));
  Some (convert_tx_execution_result_to_preconfirmation tx (st_result latest_executed_tx)
          (height (p_consensus (pb_header (ex_block ex)))) (tx_count (ex_data ex))).

(** Executes a transaction; one that fails is put on the list of skipped ones. *)
Definition execute_or_skip (transaction : MaybeCheckedTransaction) (ex : ExecState)
    : option (ExecState * PreconfirmationStatus) :=
  match execute_transaction_and_commit transaction gas_price coinbase_contract_id ex with
  | (Ok _, ex) => st ← executed_status ex; Some (ex, st)
  | (Err err, ex) =>
      let ex := (modify_ex_data (λ d, d <| skipped_transactions :=
                   skipped_transactions d ++ [(id_of (maybe_tx transaction), err)] |>) ex).2 in
      Some (ex, SqueezedOut err)
  end.

(** The body of the inner loop.  [None] stands for a failed [expect]. *)
Definition process_l2_tx (transaction : MaybeCheckedTransaction) (s : L2State TS)
    : option (result ExecutorError unit * L2State TS) :=
  let id := id_of (maybe_tx transaction) in
  match transaction_max_gas (maybe_tx transaction) with
  | Err e => Some (Err e, s)
  | Ok tx_max_gas =>
      if decide (tx_max_gas > remaining_gas_limit s) then
        let ex := (modify_ex_data (λ d, d <| skipped_transactions := skipped_transactions d ++
                    [(id, GasOverflow CannotFitInRemainingGas tx_max_gas (remaining_gas_limit s))] |>) (l2_ex s)).2 in
        Some (Ok (), MkL2State ex (l2_source s) (l2_sent s) (l2_status s) (remaining_gas_limit s)
                (remaining_block_transaction_size_limit s) (remaining_tx_count s))
      else
        match execute_or_skip transaction (l2_ex s) with
        | Some (ex, st) =>
            let status := l2_status s ++ [st] in
            Some (Ok (), with_remaining ex (l2_source s) (l2_sent s ++ [status]) (try_send status))
        | None => None
        end
  end.

Fixpoint process_l2_batch (txs : list MaybeCheckedTransaction) (s : L2State TS)
    : option (result ExecutorError unit * L2State TS) :=
  match txs with
  | [] => Some (Ok (), s)
  | tx :: txs =>
      match process_l2_tx tx s with
      | Some (Ok _, s) => process_l2_batch txs s
      | r => r
      end
  end.

(** [l2_tx_source.next(..).into_iter().take(remaining_tx_count)] *)
Definition next_batch (s : L2State TS) : list MaybeCheckedTransaction * L2State TS :=
  let '(txs, source) :=
    next (l2_source s) (remaining_gas_limit s) (remaining_tx_count s)
      (remaining_block_transaction_size_limit s) in
  (take (Z.to_nat (remaining_tx_count s)) txs,
   MkL2State (l2_ex s) source (l2_sent s) (l2_status s) (remaining_gas_limit s)
     (remaining_block_transaction_size_limit s) (remaining_tx_count s)).

(** The outer loop.  [None] stands for running out of fuel. *)
Fixpoint process_l2_loop (fuel : nat) (s : L2State TS)
    : option (result ExecutorError unit * L2State TS) :=
  match fuel with
  | O => None
  | S fuel =>
      let '(txs, s) := next_batch s in
      match txs with
      | [] => Some (Ok (), s)
      | _ =>
          match process_l2_batch txs s with
          | Some (Ok _, s) => process_l2_loop fuel s
          | r => r
          end
      end
  end.

Definition process_l2_txs (fuel : nat) (source : TS) (sent : list (list PreconfirmationStatus))
    (ex : ExecState)
    : option (result ExecutorError unit * (ExecState * TS * list (list PreconfirmationStatus))) :=
  '(r, s) ← process_l2_loop fuel (with_remaining ex source sent []);
  Some (r, (l2_ex s, l2_source s,
    match r, l2_status s with
    | Ok _, [] | Err _, _ => l2_sent s
    | Ok _, status => l2_sent s ++ [status]
    end)).

(** [loop { process_l2_txs; wait }]: the waiter answers [NewTransaction]
    [rounds] times and then [Timeout]. *)
Fixpoint process_l2_rounds (rounds fuel : nat) (source : TS)
    (sent : list (list PreconfirmationStatus)) (ex : ExecState)
    : option (result ExecutorError unit * (ExecState * TS * list (list PreconfirmationStatus))) :=
  match process_l2_txs fuel source sent ex with
  | Some (Ok _, (ex, source, sent)) =>
      match rounds with
      | O => Some (Ok (), (ex, source, sent))
      | S rounds => process_l2_rounds rounds fuel source sent ex
      end
  | r => r
  end.

End l2.

(** ** Block production *)

Definition produce_mint_tx (coinbase_contract_id : ContractId) (gas_price : Z)
    : ST ExecState ExecutorError unit := λ s,
  let amount_to_mint :=
    if decide (coinbase_contract_id ≠ 0) then coinbase (ex_data s) else 0 in
  let block_height := height (p_consensus (pb_header (ex_block s))) in
  let coinbase_tx :=
    MkMint (block_height, tx_count (ex_data s)) (mint_input coinbase_contract_id) mint_output
      amount_to_mint (cp_base_asset_id consensus_params) gas_price in
  execute_transaction_and_commit (MaybeUnchecked (TxMint coinbase_tx)) gas_price
    coinbase_contract_id s.

(** The result of an execution: the block, its data and the changed database. *)
Definition produce_block `{TransactionsSource TS} (rounds fuel : nat) (components : Components TS)
    (db : Db) : option (result ExecutorError ExecState * list (list PreconfirmationStatus)) :=
  let s := MkExecState (MkPartialFuelBlock (header_to_produce components) []) db ExecutionData_new in
  match process_l1_txs (coinbase_recipient components) s with
  | (Err e, _) => Some (Err e, [])
  | (Ok _, s) =>
      '(r, (s, _, sent)) ← process_l2_rounds (gas_price components) (coinbase_recipient components)
                             rounds fuel (transactions_source components) [] s;
      match r with
      | Err e => Some (Err e, sent)
      | Ok _ =>
          match produce_mint_tx (coinbase_recipient components) (gas_price components) s with
          | (Err e, _) => Some (Err e, sent)
          | (Ok _, s) => Some (Ok s, sent)
          end
      end
  end.

Definition dry_run_block `{TransactionsSource TS} (fuel : nat) (components : Components TS)
    (db : Db) : option (result ExecutorError ExecState) :=
  let s := MkExecState (MkPartialFuelBlock (header_to_produce components) []) db ExecutionData_new in
  '(r, (s, _, _)) ← process_l2_txs (gas_price components) (coinbase_recipient components)
                      fuel (transactions_source components) [] s;
  Some (match r with Ok _ => Ok s | Err e => Err e end).

Definition execute `{TransactionsSource TS} (rounds fuel : nat) (components : Components TS)
    (db : Db) : option (result ExecutorError ExecState) :=
  if dry_run options then dry_run_block fuel components db
  else fst <$> produce_block rounds fuel components db.

(** ** Block validation *)

Definition get_coinbase_info_from_mint_tx (txs : list Transaction)
    : result ExecutorError (Z * ContractId) :=
  match last txs with
  | Some (TxMint mint) => Ok (mint_gas_price mint, xi_contract_id (mint_input_contract mint))
  | _ => Err MintMissing
  end.

Fixpoint check_transactions_match (new_txs old_txs : list Transaction) : result ExecutorError unit :=
  match new_txs, old_txs with
  | new_tx :: new_txs, old_tx :: old_txs =>
      if decide (new_tx ≠ old_tx) then Err (InvalidTransactionOutcome (id_of old_tx))
      else check_transactions_match new_txs old_txs
  | _, _ => Ok ()
  end.

Definition check_block_matches (new_partial_block : PartialFuelBlock) (old_block : Block Transaction)
    (data : ExecutionData) : result ExecutorError unit :=
  _ ← check_transactions_match (pb_transactions new_partial_block) (transactions old_block);
  new_block ← map_err BlockHeaderErr
    (generate new_partial_block (message_ids data) (ed_event_inbox_root data));
  if decide (header_eq (header new_block) (header old_block)) then Ok () else Err BlockMismatch.

Definition validate_block (block : Block Transaction) (db : Db) : result ExecutorError ExecState :=
  let s := MkExecState (MkPartialFuelBlock (PartialBlockHeader_from (header block)) []) db
             ExecutionData_new in
  '(gas_price, coinbase_contract_id) ← get_coinbase_info_from_mint_tx (transactions block);
  match process_l1_txs coinbase_contract_id s with
  | (Err e, _) => Err e
  | (Ok _, s) =>
      let processed_l1_tx_count := length (pb_transactions (ex_block s)) in
      match st_for (λ tx, execute_transaction_and_commit (MaybeUnchecked tx) gas_price
                            coinbase_contract_id)
              (drop processed_l1_tx_count (transactions block)) s with
      | (Err e, _) => Err e
      | (Ok _, s) => _ ← check_block_matches (ex_block s) block (ex_data s); Ok s
      end
  end.

End executor.

(** ** The entry points of [ExecutionInstance] *)
Section instance.
Context `{Hashing, FuelVm}.

Record ExecutionInstance := MkExecutionInstance {
  in_relayer : Relayer;
  in_database : Db;
  in_forbid_fake_coins : bool
}.

Record ExecutionResult := MkExecutionResult {
  res_block : Block Transaction;
  res_skipped_transactions : list (TxId * ExecutorError);
  res_tx_status : list TransactionExecutionStatus;
  res_events : list ExecutorEvent;
  res_changes : Db
}.

Record ValidationResult := MkValidationResult {
  val_tx_status : list TransactionExecutionStatus;
  val_events : list ExecutorEvent;
  val_changes : Db
}.

(** [into_executor]: the parameters of the version the header names. *)
Definition into_executor (self : ExecutionInstance) (version : Z)
    : result ExecutorError ConsensusParameters :=
  ok_or (consensus_parameters_versions (vm_tables (in_database self)) !! version)
    (ConsensusParametersNotFound version).

Definition produce_without_commit `{TransactionsSource TS}
    (try_send : list PreconfirmationStatus → list PreconfirmationStatus) (rounds fuel : nat)
    (self : ExecutionInstance) (components : Components TS) (dry_run : bool)
    : option (result ExecutorError ExecutionResult) :=
  match into_executor self (consensus_parameters_version (p_application (header_to_produce components))) with
  | Err e => Some (Err e)
  | Ok consensus_params =>
      r ← execute (in_relayer self) consensus_params
            (MkExecutionOptions (in_forbid_fake_coins self) dry_run) try_send rounds fuel components
            (in_database self);
      Some (s ← r;
            let data := ex_data s in
            block ← map_err BlockHeaderErr (generate (ex_block s) (message_ids data) (ed_event_inbox_root data));
            Ok (MkExecutionResult block (skipped_transactions data) (tx_status data) (events data) (ex_db s)))
  end.

Definition validate_without_commit (self : ExecutionInstance) (block : Block Transaction)
    : result ExecutorError ValidationResult :=
  consensus_params ← into_executor self (consensus_parameters_version (application (header block)));
  s ← validate_block (in_relayer self) consensus_params
        (MkExecutionOptions (in_forbid_fake_coins self) false) block (in_database self);
  Ok (MkValidationResult (tx_status (ex_data s)) (events (ex_data s)) (ex_db s)).

End instance.
