(* ===== verification/ExecutorFrame.v ===== *)
(** * What the execution of a transaction depends on

    The executor appends to its log (the events and the skipped transactions)
    but never reads it.  [rel] relates two computations that behave alike from
    states that differ in the log only; every step of the executor is related
    to itself.  The facts about the error path of a transaction are here as
    well: what an early return leaves behind in the execution data. *)
From stdpp Require Import strings.
From S2P Require Import Prelude FuelTypes BlockTypes ExecutorTypes Executor.

(** The execution data without the log. *)
Definition core (d : ExecutionData) : ExecutionData :=
  MkExecutionData (coinbase d) (used_gas d) (used_size d) (tx_count d) (found_mint d)
    (message_ids d) (tx_status d) [] [] (ed_event_inbox_root d).

(** Two runs that differ in the log only and append the same events. *)
Definition rel {A} (m1 m2 : ST TxState ExecutorError A) : Prop :=
  ∀ db d1 d2, core d1 = core d2 →
  ∃ r db' d1' d2' new,
    m1 (db, d1) = (r, (db', d1')) ∧ m2 (db, d2) = (r, (db', d2')) ∧ core d1' = core d2'
    ∧ events d1' = events d1 ++ new ∧ events d2' = events d2 ++ new
    ∧ skipped_transactions d1' = skipped_transactions d1
    ∧ skipped_transactions d2' = skipped_transactions d2.


Lemma rel_lift {A} (r : result ExecutorError A) : rel (st_lift r) (st_lift r).
Proof. intros db d1 d2 Hd. exists r, db, d1, d2, []. rewrite !app_nil_r. done. Qed.
Lemma rel_ret {A} (a : A) : rel (mret a) (mret a).
Proof. apply (rel_lift (Ok a)). Qed.
Lemma rel_err {A} e : rel (st_err (A := A) e) (st_err e).
Proof. apply (rel_lift (Err e)). Qed.
Lemma rel_fail_if b e : rel (fail_if b e) (fail_if b e).
Proof. destruct b; [apply rel_err|apply rel_ret]. Qed.

Lemma rel_bind {A B} (m1 m2 : ST TxState ExecutorError A) (f1 f2 : A → ST TxState ExecutorError B) :
  rel m1 m2 → (∀ a, rel (f1 a) (f2 a)) → rel (m1 ≫= f1) (m2 ≫= f2).
Proof.
  intros Hm Hf db d1 d2 Hd.
  destruct (Hm db d1 d2 Hd) as (r & db' & d1' & d2' & new & E1 & E2 & Hd' & He1 & He2 & Hs1 & Hs2).
  unfold mbind, ST_bind. rewrite E1, E2. destruct r as [a|e].
  - destruct (Hf a db' d1' d2' Hd')
      as (r' & db'' & d1'' & d2'' & new' & F1 & F2 & Hd'' & He1' & He2' & Hs1' & Hs2').
    exists r', db'', d1'', d2'', (new ++ new').
    rewrite He1', He2', He1, He2, !(assoc_L (++)). split_and!; congruence.
  - by exists (Err e), db', d1', d2', new.
Qed.

Lemma rel_get {A} (k1 k2 : TxState → ST TxState ExecutorError A) :
  (∀ db d1 d2, core d1 = core d2 → rel (k1 (db, d1)) (k2 (db, d2))) →
  rel (st_get ≫= k1) (st_get ≫= k2).
Proof. intros Hk db d1 d2 Hd. by apply (Hk db d1 d2 Hd db d1 d2). Qed.

Lemma rel_modify_db f : rel (modify_db f) (modify_db f).
Proof. intros db d1 d2 Hd. exists (Ok ()), (f db), d1, d2, []. rewrite !app_nil_r. done. Qed.

Lemma rel_push_event e : rel (push_event e) (push_event e).
Proof.
  intros db d1 d2 Hd. unfold push_event, modify_data. simpl.
  do 4 eexists. exists [e]. split_and!; [done..|]. by unfold core in *; simpl in *; simplify_eq.
Qed.

(** An update of the data that does not touch the log and respects [core]. *)
Lemma rel_modify_data f1 f2 :
  (∀ d1 d2, core d1 = core d2 → core (f1 d1) = core (f2 d2)) →
  (∀ d, events (f1 d) = events d ∧ skipped_transactions (f1 d) = skipped_transactions d) →
  (∀ d, events (f2 d) = events d ∧ skipped_transactions (f2 d) = skipped_transactions d) →
  rel (modify_data f1) (modify_data f2).
Proof.
  intros Hc H1 H2 db d1 d2 Hd. exists (Ok ()), db, (f1 d1), (f2 d2), [].
  destruct (H1 d1) as [-> ->], (H2 d2) as [-> ->]. rewrite !app_nil_r. split_and!; auto.
Qed.

Lemma rel_on_db {A} (m : ST Db ExecutorError A) : rel (on_db m) (on_db m).
Proof.
  intros db d1 d2 Hd. unfold on_db; simpl. destruct (m db) as [r db'].
  exists r, db', d1, d2, []. rewrite !app_nil_r. done.
Qed.

Lemma rel_for {A} (f1 f2 : A → ST TxState ExecutorError unit) l :
  (∀ a, rel (f1 a) (f2 a)) → rel (st_for f1 l) (st_for f2 l).
Proof. intros Hf. induction l; simpl; [apply rel_ret|]. apply rel_bind; auto. Qed.

Create HintDb rel discriminated.
#[export] Hint Resolve rel_lift rel_ret rel_err rel_fail_if rel_modify_db rel_push_event rel_on_db : rel.

(** Fields of data with the same core. *)
Lemma core_fields d1 d2 :
  core d1 = core d2 →
  coinbase d1 = coinbase d2 ∧ used_gas d1 = used_gas d2 ∧ used_size d1 = used_size d2
  ∧ tx_count d1 = tx_count d2 ∧ found_mint d1 = found_mint d2 ∧ message_ids d1 = message_ids d2
  ∧ tx_status d1 = tx_status d2 ∧ ed_event_inbox_root d1 = ed_event_inbox_root d2.
Proof. unfold core. intros [=]. auto 10. Qed.

Ltac rel_data :=
  apply rel_modify_data;
  [ let d1 := fresh "d" in let d2 := fresh "d" in let Hd := fresh "Hd" in
    intros d1 d2 Hd; unfold core in *; simpl in *; simplify_eq; try congruence
  | done | done ].

Section frame.
Context `{Hashing, FuelVm}.
Context (relayer : Relayer) (cp : ConsensusParameters) (options : ExecutionOptions).

Lemma rel_spend_input reverted input :
  rel (spend_input options reverted input) (spend_input options reverted input).
Proof.
  assert (∀ c, rel (spend_coin options c) (spend_coin options c)) as Hcoin.
  { intros c. apply rel_get. intros db d1 d2 _. apply rel_bind; [auto with rel|intros _].
    apply rel_get. intros db' d1' d2' _. apply rel_bind; auto with rel. }
  assert (∀ n, rel (spend_message n) (spend_message n)) as Hmsg.
  { intros n. apply rel_get. intros db d1 d2 _. apply rel_bind; [auto with rel|intros _].
    apply rel_bind; auto with rel. }
  destruct input; simpl; auto with rel; destruct reverted; auto with rel.
Qed.

Lemma rel_insert_coin h u amount asset to :
  rel (insert_coin h u amount asset to) (insert_coin h u amount asset to).
Proof.
  unfold insert_coin. case_decide; [|auto with rel]. apply rel_get. intros db d1 d2 Hd.
  apply core_fields in Hd as (_ & _ & _ & -> & _).
  apply rel_bind; [auto with rel|intros _]. apply rel_bind; auto with rel.
Qed.

Lemma rel_persist_output h id inputs idx i output :
  rel (persist_output h id inputs idx i output) (persist_output h id inputs idx i output).
Proof.
  apply rel_bind; [auto with rel|intros index].
  destruct output; try apply rel_insert_coin; [|apply rel_modify_db].
  destruct (inputs !! _) as [[]|]; first [apply rel_err|apply rel_modify_db].
Qed.

Lemma rel_persist_output_utxos h id inputs outputs :
  rel (persist_output_utxos h id inputs outputs) (persist_output_utxos h id inputs outputs).
Proof.
  apply rel_get. intros db d1 d2 Hd. apply core_fields in Hd as (_ & _ & _ & -> & _).
  apply rel_for. intros [i output]. apply rel_persist_output.
Qed.

Lemma rel_update_execution_data tx receipts gp reverted state id :
  rel (update_execution_data cp tx receipts gp reverted state id)
      (update_execution_data cp tx receipts gp reverted state id).
Proof.
  apply rel_bind; [auto with rel|intros [g f]]. apply rel_get. intros db d1 d2 Hd.
  destruct (core_fields _ _ Hd) as (-> & -> & -> & _).
  apply rel_bind; [auto with rel|intros c]. apply rel_bind; [rel_data|intros _].
  apply rel_bind; [auto with rel|intros gg]. apply rel_bind; [rel_data|intros _].
  apply rel_bind; [auto with rel|intros s]. apply rel_bind; [rel_data|intros _].
  apply rel_bind; [|intros _; rel_data].
  destruct reverted; [auto with rel|]. rel_data.
Qed.

Lemma rel_execute_chargeable tx hdr cb gp :
  rel (execute_chargeable_transaction cp options tx hdr cb gp)
      (execute_chargeable_transaction cp options tx hdr cb gp).
Proof.
  apply rel_get. intros db d1 d2 Hd. apply rel_bind; [auto with rel|intros _].
  apply rel_bind; [auto with rel|intros [[[reverted state] tx'] receipts]].
  apply rel_bind; [apply rel_for; intros; apply rel_spend_input|intros _].
  apply rel_bind; [apply rel_persist_output_utxos|intros _].
  apply rel_bind; [auto with rel|intros _].
  apply rel_bind; [apply rel_update_execution_data|intros _; auto with rel].
Qed.

Lemma rel_execute_mint mint hdr gp :
  rel (execute_mint cp options mint hdr gp) (execute_mint cp options mint hdr gp).
Proof.
  apply rel_bind; [rel_data|intros _]. apply rel_get. intros db d1 d2 Hd.
  unfold check_mint_has_expected_index.
  destruct (core_fields _ _ Hd) as (-> & _ & _ & -> & _).
  do 2 (apply rel_bind; [auto with rel|intros _]).
  apply rel_bind.
  - case_decide.
    + apply rel_bind; auto with rel.
    + do 2 (apply rel_bind; [auto with rel|intros _]). apply rel_bind; [auto with rel|intros input].
      apply rel_bind; [|intros []; auto with rel].
      apply rel_get. intros db' d1' d2' Hd'. apply rel_bind; [auto with rel|intros tables].
      apply rel_bind; [auto with rel|intros _]. apply rel_bind; [apply rel_persist_output_utxos|intros _].
      apply rel_get. intros db'' d1'' d2'' Hd''. apply rel_bind; [auto with rel|intros outputs].
      destruct input; auto with rel. destruct outputs as [|[] []]; auto with rel.
  - intros m. apply rel_bind; [rel_data|intros _]. apply rel_get. intros db' d1' d2' Hd'.
    apply rel_bind; [auto with rel|intros _]. apply rel_bind; auto with rel.
Qed.

Lemma rel_execute_transaction tx id hdr cb gp :
  rel (execute_transaction cp options tx id hdr cb gp)
      (execute_transaction cp options tx id hdr cb gp).
Proof.
  apply rel_get. intros db d1 d2 Hd. unfold check_mint_is_not_found.
  destruct (core_fields _ _ Hd) as (_ & _ & _ & _ & -> & _).
  do 2 (apply rel_bind; [auto with rel|intros _]).
  apply rel_bind; [auto with rel|intros []]; [apply rel_execute_chargeable|apply rel_execute_mint].
Qed.

(** ** The error path *)

(** Computations that never change the data outside the log. *)
Definition keeps_core {A} (m : ST TxState ExecutorError A) : Prop :=
  ∀ db d, core (m (db, d)).2.2 = core d.

Lemma kc_lift {A} (r : result ExecutorError A) : keeps_core (st_lift r).
Proof. done. Qed.
Lemma kc_ret {A} (a : A) : keeps_core (mret a).
Proof. done. Qed.
Lemma kc_err {A} e : keeps_core (st_err (A := A) e).
Proof. done. Qed.
Lemma kc_fail_if b e : keeps_core (fail_if b e).
Proof. by destruct b. Qed.
Lemma kc_bind {A B} (m : ST TxState ExecutorError A) (f : A → ST TxState ExecutorError B) :
  keeps_core m → (∀ a, keeps_core (f a)) → keeps_core (m ≫= f).
Proof.
  intros Hm Hf db d. unfold mbind, ST_bind. specialize (Hm db d).
  destruct (m (db, d)) as [[a|e] [db' d']]; simpl in *; [|done]. by rewrite Hf.
Qed.
Lemma kc_get {A} (k : TxState → ST TxState ExecutorError A) :
  (∀ s, keeps_core (k s)) → keeps_core (st_get ≫= k).
Proof. intros Hk db d. apply (Hk (db, d)). Qed.
Lemma kc_modify_db f : keeps_core (modify_db f).
Proof. done. Qed.
Lemma kc_push_event e : keeps_core (push_event e).
Proof. done. Qed.
Lemma kc_on_db {A} (m : ST Db ExecutorError A) : keeps_core (on_db m).
Proof. intros db d. unfold on_db; simpl. by destruct (m db). Qed.
Lemma kc_for {A} (f : A → ST TxState ExecutorError unit) l :
  (∀ a, keeps_core (f a)) → keeps_core (st_for f l).
Proof. intros Hf. induction l; simpl; [apply kc_ret|]. by apply kc_bind. Qed.

#[local] Hint Resolve kc_lift kc_ret kc_err kc_fail_if kc_modify_db kc_push_event kc_on_db : rel.

Lemma kc_spend_input reverted input : keeps_core (spend_input options reverted input).
Proof.
  assert (∀ c, keeps_core (spend_coin options c)) as Hcoin.
  { intros c. apply kc_get. intros []. apply kc_bind; [auto with rel|intros _].
    apply kc_get. intros []. apply kc_bind; auto with rel. }
  assert (∀ n, keeps_core (spend_message n)) as Hmsg.
  { intros n. apply kc_get. intros []. apply kc_bind; [auto with rel|intros _].
    apply kc_bind; auto with rel. }
  destruct input; simpl; auto with rel; destruct reverted; auto with rel.
Qed.

Lemma kc_insert_coin h u amount asset to : keeps_core (insert_coin h u amount asset to).
Proof.
  unfold insert_coin. case_decide; [|auto with rel]. apply kc_get. intros [].
  apply kc_bind; [auto with rel|intros _]. apply kc_bind; auto with rel.
Qed.

Lemma kc_persist_output_utxos h id inputs outputs :
  keeps_core (persist_output_utxos h id inputs outputs).
Proof.
  apply kc_get. intros []. apply kc_for. intros [i output].
  apply kc_bind; [auto with rel|intros index].
  destruct output; try apply kc_insert_coin; [|apply kc_modify_db].
  destruct (inputs !! _) as [[]|]; first [apply kc_err|apply kc_modify_db].
Qed.

(** An overflow of the block's own counters: the only errors raised after the
    counters have been touched. *)
Definition counter_overflow (e : ExecutorError) : bool :=
  match e with
  | GasOverflow ExecutionUsedGasOverflowed _ _ | TxSizeOverflow => true
  | _ => false
  end.

Definition status_of (reverted : bool) (state : ProgramState) (receipts : list Receipt) (g f : Z) :=
  if reverted then Failed (Some state) receipts g f else Success (Some state) receipts g f.

(** The effect of [update_execution_data]. *)
Lemma update_execution_data_spec tx receipts gp reverted state id db d :
  match update_execution_data cp tx receipts gp reverted state id (db, d) with
  | (Ok _, (db', d')) =>
      db' = db ∧ ∃ g f, total_fee_paid cp tx receipts gp = Ok (g, f)
      ∧ d' = MkExecutionData (coinbase d + f) (used_gas d + g)
               (used_size d + unwrap_or (int_max u32) (try_into u32 (metered_bytes_size tx)))
               (tx_count d) (found_mint d)
               (message_ids d ++ if reverted then [] else omap receipt_message_id receipts)
               (tx_status d ++ [MkStatus id (status_of reverted state receipts g f)])
               (events d) (skipped_transactions d) (ed_event_inbox_root d)
  | (Err e, (db', d')) =>
      db' = db ∧ (counter_overflow e = false → d' = d)
      ∧ (used_gas d' = used_gas d
         ∨ ∃ g f, total_fee_paid cp tx receipts gp = Ok (g, f) ∧ used_gas d' = used_gas d + g)
  end.
Proof.
  unfold update_execution_data, mbind, ST_bind, st_lift.
  destruct (total_fee_paid _ _ _ _) as [[g f]|e] eqn:Hfee; cbn -[checked_add]; [|split_and!; [done|done|by left]].
  unfold checked_add.
  destruct (fit u64 (coinbase d + f)) as [c|] eqn:Hc; cbn; [|split_and!; [done|done|by left]].
  destruct (fit u64 (used_gas d + g)) as [gg|] eqn:Hg; cbn; [|split_and!; [done|done|by left]].
  destruct (fit u32 (used_size d + _)) as [s|] eqn:Hs; cbn.
  2: { apply fit_Some in Hg as [<- _]. split_and!; [done|done|right; by exists g, f]. }
  apply fit_Some in Hc as [<- _], Hg as [<- _], Hs as [<- _].
  destruct reverted; cbn; (split; [done|]); exists g, f; (split; [done|]); by rewrite ?app_nil_r.
Qed.

(** Computations that keep the set of processed transactions. *)
Definition keeps_processed {A} (m : ST TxState ExecutorError A) : Prop :=
  ∀ db d, processed_transactions (m (db, d)).2.1 = processed_transactions db.

Lemma kp_bind {A B} (m : ST TxState ExecutorError A) (f : A → ST TxState ExecutorError B) :
  keeps_processed m → (∀ a, keeps_processed (f a)) → keeps_processed (m ≫= f).
Proof.
  intros Hm Hf db d. rewrite bind_case. specialize (Hm db d).
  destruct (m (db, d)) as [[a|e] [db' d']]; simpl in *; [|done]. by rewrite Hf.
Qed.
Lemma kp_get {A} (k : TxState → ST TxState ExecutorError A) :
  (∀ s, keeps_processed (k s)) → keeps_processed (st_get ≫= k).
Proof. intros Hk db d. apply (Hk (db, d)). Qed.
Lemma kp_for {A} (f : A → ST TxState ExecutorError unit) l :
  (∀ a, keeps_processed (f a)) → keeps_processed (st_for f l).
Proof. intros Hf. induction l; simpl; [done|]. by apply kp_bind. Qed.

Ltac kp := cbv zeta; repeat match goal with
  | |- keeps_processed (st_get ≫= _) => apply kp_get; intros []
  | |- keeps_processed (_ ≫= _) => apply kp_bind; [|intros ?]
  | |- keeps_processed (fail_if ?b _) => by destruct b
  | |- keeps_processed _ => done
  end.

Lemma kp_spend_input rv i : keeps_processed (spend_input options rv i).
Proof.
  assert (∀ c, keeps_processed (spend_coin options c)) as Hc by (intros; unfold spend_coin; kp).
  assert (∀ n, keeps_processed (spend_message n)) as Hm by (intros; unfold spend_message; kp).
  destruct i; simpl; try destruct rv; auto; done.
Qed.

Lemma kp_persist_output_utxos h id inputs outputs :
  keeps_processed (persist_output_utxos h id inputs outputs).
Proof.
  assert (∀ u amount asset to, keeps_processed (insert_coin h u amount asset to)) as Hi.
  { intros. unfold insert_coin. case_decide; kp. }
  apply kp_get; intros []. apply kp_for. intros [i o]. unfold persist_output.
  apply kp_bind; [done|intros index]. destruct o; try apply Hi; [|done].
  by destruct (inputs !! _) as [[]|].
Qed.

Lemma processed_attempt tx hdr cb gp db :
  processed_transactions (attempt_tx_execution_with_vm cp options tx hdr cb gp db).2
  = processed_transactions db.
Proof.
  unfold attempt_tx_execution_with_vm. rewrite !bind_case. unfold st_lift.
  destruct (checked _ _); [|done]. rewrite bind_case. cbn [st_get].
  rewrite bind_case. destruct (map_err _ _) as [r|]; [|done].
  destruct (vm_outcome options r) as [rv rs]. rewrite bind_case.
  destruct (update_input_used_gas _ _ _); [|done]. rewrite bind_case.
  destruct (compute_inputs _ _ _) as [ins|]; [|done]. rewrite bind_case.
  destruct rv; cbn -[update_tx_outputs]; rewrite bind_case; cbn -[update_tx_outputs];
    rewrite bind_case; cbn -[update_tx_outputs]; by destruct (update_tx_outputs _ _ _).
Qed.

(** The stages of a chargeable transaction: it fails before the data outside
    the log is touched, or it reaches [update_execution_data], with the storage
    and the log changed. *)
Lemma execute_chargeable_stages tx hdr cb gp db d r db' d' :
  execute_chargeable_transaction cp options tx hdr cb gp (db, d) = (r, (db', d')) →
  let id := id_of cp (TxChargeable tx) in
  (core d' = core d ∧ is_ok r = false) ∨
  ∃ rv st tx1 rs db1 db3 d3 u,
    attempt_tx_execution_with_vm cp options tx hdr cb gp db = (Ok (rv, st, tx1, rs), db1)
    ∧ core d3 = core d ∧ processed_transactions db3 = processed_transactions db
    ∧ update_execution_data cp tx1 rs gp rv st id
        (db3 <| processed_transactions := {[id]} ∪ processed_transactions db3 |>, d3) = (u, (db', d'))
    ∧ r = match u with Ok _ => Ok (TxChargeable tx1) | Err e => Err e end.
Proof.
  intros Hrun id. revert Hrun. unfold execute_chargeable_transaction. fold id.
  rewrite bind_case. cbn [st_get]. rewrite bind_case. unfold st_lift.
  destruct (if forbid_fake_coins options then _ else _); [|intros [= <- _ <-]; by left]. rewrite bind_case.
  pose proof (processed_attempt tx hdr cb gp db) as Hp. unfold on_db. cbn [fst snd].
  destruct (attempt_tx_execution_with_vm _ _ _ _ _ _ _) as [[[[[rv st] tx1] rs]|] db1] eqn:Ha;
    [|intros [= <- _ <-]; by left].
  cbn in Hp. rewrite bind_case.
  pose proof (kp_for _ (tx_inputs tx1) (kp_spend_input rv) db1 d) as Hp2.
  pose proof (kc_for _ (tx_inputs tx1) (kc_spend_input rv) db1 d) as Hc2.
  unfold spend_input_utxos.
  destruct (st_for _ _ _) as [[] [db2 d2]]; cbn in Hp2, Hc2; [|intros [= <- _ <-]; by left].
  rewrite bind_case.
  pose proof (kp_persist_output_utxos (height (p_consensus hdr)) id (tx_inputs tx1) (tx_outputs tx1) db2 d2) as Hp3.
  pose proof (kc_persist_output_utxos (height (p_consensus hdr)) id (tx_inputs tx1) (tx_outputs tx1) db2 d2) as Hc3.
  destruct (persist_output_utxos _ _ _ _ _) as [[] [db3 d3]]; cbn in Hp3, Hc3;
    [|intros [= <- _ <-]; left; split; [congruence|done]].
  rewrite bind_case. unfold modify_db. cbn [fst snd]. rewrite bind_case.
  destruct (update_execution_data _ _ _ _ _ _ _ _) as [u [db4 d4]] eqn:Hu. intros Hr. right.
  exists rv, st, tx1, rs, db1, db3, d3, u. split; [done|]. split; [congruence|]. split; [congruence|].
  destruct u; injection Hr as <- <- <-; by rewrite Hu.
Qed.

(** A chargeable transaction that fails leaves the data outside the log alone. *)
Lemma execute_chargeable_error tx hdr cb gp db d e db' d' :
  execute_chargeable_transaction cp options tx hdr cb gp (db, d) = (Err e, (db', d')) →
  counter_overflow e = false → core d' = core d.
Proof.
  intros Hrun He. apply execute_chargeable_stages in Hrun
    as [[? _]|(rv & st & tx1 & rs & db1 & db3 & d3 & u & _ & Hc & _ & Hu & Hr)]; [done|].
  match type of Hu with update_execution_data _ ?a ?b ?c ?x ?y ?z ?w = _ =>
    pose proof (update_execution_data_spec a b c x y z w.1 w.2) as Hspec end.
  cbn [fst snd] in Hspec. rewrite Hu in Hspec. destruct u; [done|]. injection Hr as ->.
  destruct Hspec as (_ & Hd & _). by rewrite Hd.
Qed.

(** ** The counter of transactions

    It is changed by [execute_transaction_and_commit] alone. *)
Definition keeps_count {A} (m : ST TxState ExecutorError A) : Prop :=
  ∀ db d, tx_count (m (db, d)).2.2 = tx_count d.

Lemma kn_core {A} (m : ST TxState ExecutorError A) : keeps_core m → keeps_count m.
Proof. intros Hm db d. by apply (core_fields _ _ (Hm db d)). Qed.
Lemma kn_bind {A B} (m : ST TxState ExecutorError A) (f : A → ST TxState ExecutorError B) :
  keeps_count m → (∀ a, keeps_count (f a)) → keeps_count (m ≫= f).
Proof.
  intros Hm Hf db d. rewrite bind_case. specialize (Hm db d).
  destruct (m (db, d)) as [[a|e] [db' d']]; simpl in *; [|done]. by rewrite Hf.
Qed.
Lemma kn_get {A} (k : TxState → ST TxState ExecutorError A) :
  (∀ s, keeps_count (k s)) → keeps_count (st_get ≫= k).
Proof. intros Hk db d. apply (Hk (db, d)). Qed.
Lemma kn_data f : (∀ d, tx_count (f d) = tx_count d) → keeps_count (modify_data f).
Proof. intros Hf db d. apply Hf. Qed.

Ltac kn := cbv zeta; repeat match goal with
  | |- keeps_count (st_get ≫= _) => apply kn_get; intros []
  | |- keeps_count (_ ≫= _) => apply kn_bind; [|intros ?]
  | |- keeps_count (modify_data _) => by apply kn_data
  | |- keeps_count _ => apply kn_core; solve [auto with rel]
  end.

Lemma kn_execute_chargeable tx hdr cb gp :
  keeps_count (execute_chargeable_transaction cp options tx hdr cb gp).
Proof.
  apply kn_get; intros []. apply kn_bind; [kn|intros _].
  apply kn_bind; [kn|intros [[[rv st] t] rs]].
  apply kn_bind; [apply kn_core, kc_for; intros; apply kc_spend_input|intros _].
  apply kn_bind; [apply kn_core, kc_persist_output_utxos|intros _].
  apply kn_bind; [kn|intros _]. apply kn_bind; [|intros; kn].
  apply kn_bind; [kn|intros []]. destruct rv; kn.
Qed.

Lemma kn_execute_mint mint hdr gp : keeps_count (execute_mint cp options mint hdr gp).
Proof.
  apply kn_bind; [kn|intros _]. apply kn_get; intros [].
  do 2 (apply kn_bind; [kn|intros _]). apply kn_bind; [|intros m; unfold store_mint_tx; kn].
  case_decide; [kn|]. do 2 (apply kn_bind; [kn|intros _]). apply kn_bind; [kn|intros input].
  apply kn_bind; [|intros []; kn]. apply kn_get; intros [].
  do 2 (apply kn_bind; [kn|intros]). apply kn_bind; [apply kn_core, kc_persist_output_utxos|intros _].
  apply kn_get; intros []. apply kn_bind; [kn|intros outputs].
  destruct input; try (by kn). destruct outputs as [|[] []]; kn.
Qed.

Lemma kn_execute_transaction tx id hdr cb gp :
  keeps_count (execute_transaction cp options tx id hdr cb gp).
Proof.
  apply kn_get; intros []. do 2 (apply kn_bind; [kn|intros _]).
  apply kn_bind; [kn|intros []]; [apply kn_execute_chargeable|apply kn_execute_mint].
Qed.

Lemma kc_process_da_events h da evs acc : keeps_core (process_da_events cp h da evs acc).
Proof.
  revert acc. induction evs as [|[m|rtx] evs IH]; intros [leaves forced]; cbn [process_da_events];
    [auto with rel|..].
  - do 3 (apply kc_bind; [auto with rel|intros _]). apply IH.
  - apply kc_get; intros []. destruct (validate_forced_tx _ _ _ _); [apply IH|].
    apply kc_bind; [auto with rel|intros; apply IH].
Qed.

Lemma kc_process_da_heights h das acc : keeps_core (process_da_heights relayer cp h das acc).
Proof.
  revert acc. induction das; intros acc; [apply kc_ret|]. apply kc_bind; [auto with rel|intros evs].
  apply kc_bind; [apply kc_process_da_events|auto].
Qed.

Lemma kn_get_relayed_txs h da : keeps_count (get_relayed_txs relayer cp h da).
Proof.
  unfold get_relayed_txs. destruct (enabled relayer); [|kn].
  apply kn_bind; [kn|intros]. apply kn_get; intros []. do 2 (apply kn_bind; [kn|intros]).
  apply kn_bind; [apply kn_core, kc_process_da_heights|intros []]. kn.
Qed.

End frame.

(** ** The loops over the source

    A preorder on executor states that contains every commit of a transaction
    and every addition to the list of skipped ones contains the whole loop. *)
Section l2_preorder.
Context `{Hashing, FuelVm} (cp : ConsensusParameters) (options : ExecutionOptions).
Context `{TransactionsSource TS} (try_send : list PreconfirmationStatus → list PreconfirmationStatus).
Context (gp : Z) (cb : ContractId) (R : ExecState → ExecState → Prop) `{!PreOrder R}.
Hypothesis (R_commit : ∀ tx s r s',
  execute_transaction_and_commit cp options tx gp cb s = (r, s') → R s s').
Hypothesis (R_skip : ∀ p s,
  R s (MkExecState (ex_block s) (ex_db s)
        ((ex_data s) <| skipped_transactions := skipped_transactions (ex_data s) ++ [p] |>))).

Lemma l2_tx_R tx (s : L2State TS) r s' :
  process_l2_tx cp options try_send gp cb tx s = Some (r, s') → R (l2_ex s) (l2_ex s').
Proof.
  unfold process_l2_tx. destruct (transaction_max_gas _ _); [|by intros [= <- <-]].
  case_decide; [intros [= <- <-]; apply R_skip|]. unfold execute_or_skip.
  destruct (execute_transaction_and_commit _ _ _ _ _ _) as [[] ex] eqn:E; apply R_commit in E.
  - destruct (executed_status ex); [|done]. cbn. by intros [= <- <-].
  - cbn. intros [= <- <-]. etrans; [done|apply R_skip].
Qed.

Lemma l2_batch_R txs : ∀ (s : L2State TS) r s',
  process_l2_batch cp options try_send gp cb txs s = Some (r, s') → R (l2_ex s) (l2_ex s').
Proof.
  induction txs as [|tx txs IH]; intros s r s'; simpl; [by intros [= <- <-]|].
  destruct (process_l2_tx _ _ _ _ _ tx s) as [[[] s1]|] eqn:E; [|intros [= <- <-]; by eapply l2_tx_R|done].
  intros Hrun. etrans; [by eapply l2_tx_R|by eapply IH].
Qed.

Lemma next_batch_ex (s : L2State TS) : l2_ex (next_batch s).2 = l2_ex s.
Proof. unfold next_batch. by destruct (next _ _ _ _). Qed.

Lemma l2_loop_R fuel : ∀ (s : L2State TS) r s',
  process_l2_loop cp options try_send gp cb fuel s = Some (r, s') → R (l2_ex s) (l2_ex s').
Proof.
  induction fuel as [|fuel IH]; intros s r s'; [done|]. cbn [process_l2_loop].
  pose proof (next_batch_ex s) as Hex. destruct (next_batch s) as [txs s0]. rewrite <- Hex. cbn [snd].
  destruct txs as [|tx txs]; [by intros [= <- <-]|].
  destruct (process_l2_batch _ _ _ _ _ _ s0) as [[[] s1]|] eqn:E; [|intros [= <- <-]; by eapply l2_batch_R|done].
  intros Hrun. etrans; [by eapply l2_batch_R|by eapply IH].
Qed.

Lemma l2_txs_R fuel (src : TS) sent ex r ex' src' sent' :
  process_l2_txs cp options try_send gp cb fuel src sent ex = Some (r, (ex', src', sent')) → R ex ex'.
Proof.
  unfold process_l2_txs. destruct (process_l2_loop _ _ _ _ _ _ _) as [[r1 s1]|] eqn:E; [|done].
  cbn. intros [= -> <- _ _]. by apply l2_loop_R in E.
Qed.

Lemma l2_rounds_R rounds fuel : ∀ (src : TS) sent ex r ex' src' sent',
  process_l2_rounds cp options try_send gp cb rounds fuel src sent ex = Some (r, (ex', src', sent')) →
  R ex ex'.
Proof.
  induction rounds as [|rounds IH]; intros src sent ex r ex' src' sent'; simpl;
    (destruct (process_l2_txs _ _ _ _ _ _ _ _ _) as [[[] [[ex1 src1] sent1]]|] eqn:E;
     [|intros [= <- <- <- <-]; by eapply l2_txs_R|done]).
  - intros [= <- <- <- <-]. by eapply l2_txs_R.
  - intros Hrun. etrans; [by eapply l2_txs_R|by eapply IH].
Qed.

End l2_preorder.
