(* ===== verification/ExecutorLedger.v ===== *)
(** * The event log is a faithful record of the UTXO set

    The events of a block are what the off-chain services index coins and
    messages by.  [replay] is the specification: it applies an event to the
    coins and messages and refuses an event that does not fit (a coin consumed
    that is not there or differs, a coin created twice, a message consumed that
    is not there).  The theorems say that the events a transaction or a block
    appends replay to exactly the tables it leaves behind; in particular no
    coin and no message is spent twice. *)
From stdpp Require Import strings.
From S2P Require Import Prelude FuelTypes BlockTypes ExecutorTypes Executor ExecutorFrame.

Definition Ledger : Type := gmap UtxoId CompressedCoin * gmap Nonce Message.
Definition ledger (db : Db) : Ledger := (coins db, messages db).

Definition compress_coin (c : Coin) : CompressedCoin :=
  MkCompressedCoin (coin_owner c) (coin_amount c) (coin_asset_id c) (coin_tx_pointer c).

#[export] Instance CompressedCoin_eq_dec : EqDecision CompressedCoin.
Proof. solve_decision. Defined.
#[export] Instance Message_eq_dec : EqDecision Message.
Proof. solve_decision. Defined.

Definition replay_event (e : ExecutorEvent) (l : Ledger) : option Ledger :=
  match e with
  | MessageImported m => Some (l.1, <[msg_nonce m := m]> l.2)
  | MessageConsumed m =>
      if decide (l.2 !! msg_nonce m = Some m) then Some (l.1, delete (msg_nonce m) l.2) else None
  | CoinCreated c =>
      if decide (l.1 !! coin_utxo_id c = None)
      then Some (<[coin_utxo_id c := compress_coin c]> l.1, l.2) else None
  | CoinConsumed c =>
      if decide (l.1 !! coin_utxo_id c = Some (compress_coin c))
      then Some (delete (coin_utxo_id c) l.1, l.2) else None
  | ForcedTransactionFailed _ _ _ => Some l
  end.

Fixpoint replay (evs : list ExecutorEvent) (l : Ledger) : option Ledger :=
  match evs with
  | [] => Some l
  | e :: evs => l ← replay_event e l; replay evs l
  end.

Lemma replay_app evs1 evs2 l : replay (evs1 ++ evs2) l = replay evs1 l ≫= replay evs2.
Proof. revert l. induction evs1 as [|e evs1 IH]; intros l; [done|]. simpl.
  destruct (replay_event e l); simpl; auto. Qed.

(** Messages are stored under their nonce. *)
Definition messages_keyed (db : Db) : Prop :=
  ∀ n m, messages db !! n = Some m → msg_nonce m = n.

(** A successful run appends events that replay to the new tables. *)
Definition logs {A} (m : ST TxState ExecutorError A) : Prop :=
  ∀ db d a db' d', m (db, d) = (Ok a, (db', d')) → messages_keyed db →
  messages_keyed db' ∧ ∃ new, events d' = events d ++ new ∧ replay new (ledger db) = Some (ledger db').

Lemma logs_lift {A} (r : result ExecutorError A) : logs (st_lift r).
Proof. intros db d a db' d' [= _ <- <-] Hk. split; [done|]. exists []. by rewrite app_nil_r. Qed.
Lemma logs_ret {A} (a : A) : logs (mret a).
Proof. apply (logs_lift (Ok a)). Qed.
Lemma logs_err {A} e : logs (st_err (A := A) e).
Proof. done. Qed.
Lemma logs_fail_if b e : logs (fail_if b e).
Proof. destruct b; [apply logs_err|apply logs_ret]. Qed.
Lemma logs_bind {A B} (m : ST TxState ExecutorError A) (f : A → ST TxState ExecutorError B) :
  logs m → (∀ a, logs (f a)) → logs (m ≫= f).
Proof.
  intros Hm Hf db d b db' d'. rewrite bind_case.
  destruct (m (db, d)) as [[a|] [db1 d1]] eqn:E; [|done]. intros E' Hk.
  destruct (Hm _ _ _ _ _ E Hk) as (Hk1 & new1 & He1 & Hr1).
  destruct (Hf a _ _ _ _ _ E' Hk1) as (Hk2 & new2 & He2 & Hr2).
  split; [done|]. exists (new1 ++ new2). rewrite He2, He1, (assoc_L (++)). split; [done|].
  by rewrite replay_app, Hr1.
Qed.
Lemma logs_get {A} (k : TxState → ST TxState ExecutorError A) :
  (∀ s, logs (k s)) → logs (st_get ≫= k).
Proof. intros Hk db d. apply (Hk (db, d)). Qed.
Lemma logs_for {A} (f : A → ST TxState ExecutorError unit) l :
  (∀ a, logs (f a)) → logs (st_for f l).
Proof. intros Hf. induction l; simpl; [apply logs_ret|]. by apply logs_bind. Qed.
Lemma logs_modify_db f :
  (∀ db, coins (f db) = coins db ∧ messages (f db) = messages db) → logs (modify_db f).
Proof.
  intros Hf db d a db' d' [= _ <- <-] Hk. destruct (Hf db) as [Hc Hm].
  split; [unfold messages_keyed; by rewrite Hm|]. exists []. rewrite app_nil_r.
  unfold ledger. by rewrite Hc, Hm.
Qed.
Lemma logs_modify_data f : (∀ d, events (f d) = events d) → logs (modify_data f).
Proof.
  intros Hf db d a db' d' [= _ <- <-] Hk. split; [done|]. exists []. by rewrite Hf, app_nil_r.
Qed.
Lemma logs_on_db {A} (m : ST Db ExecutorError A) :
  (∀ db, ledger (m db).2 = ledger db) → logs (on_db m).
Proof.
  intros Hm db d a db' d' Hrun Hk. unfold on_db in Hrun. cbn [fst snd] in Hrun. specialize (Hm db).
  destruct (m db) as [r db1]. injection Hrun as _ <- <-. unfold ledger in Hm.
  injection Hm as Hc Hmm. split; [unfold messages_keyed; simpl; by rewrite Hmm|].
  exists []. rewrite app_nil_r. unfold ledger. simpl. by rewrite Hc, Hmm.
Qed.

#[export] Hint Resolve logs_lift logs_ret logs_err logs_fail_if : rel.

Lemma delete_keyed db n : messages_keyed db →
  messages_keyed (MkDb (coins db) (delete n (messages db)) (contracts_latest_utxo db)
    (processed_transactions db) (fuel_blocks db) (vm_tables db)).
Proof. intros Hk n' m. simpl. intros [_ Hm]%lookup_delete_Some. by apply Hk. Qed.

Section ledger.
Context `{Hashing, FuelVm}.
Context (relayer : Relayer) (cp : ConsensusParameters) (options : ExecutionOptions).
Hypothesis (no_fakes : forbid_fake_coins options = true).

Lemma logs_spend_coin c : logs (spend_coin options c).
Proof.
  intros db d a db' d'. unfold spend_coin. rewrite bind_case. cbn. rewrite bind_case. cbn.
  rewrite bind_case. unfold st_lift, get_coin_or_default. rewrite no_fakes. cbn [st_get].
  rewrite bind_case. cbn [coins]. rewrite lookup_delete_eq. cbn [ok_or].
  destruct (coins db !! ci_utxo_id c) as [coin|] eqn:Hc; [|done]. cbn. intros [= _ <- <-] Hk.
  split; [done|]. eexists. split; [done|]. simpl. rewrite decide_True; [done|].
  by destruct coin.
Qed.

Lemma logs_spend_message n : logs (spend_message n).
Proof.
  intros db d a db' d'. unfold spend_message. rewrite bind_case. cbn. rewrite bind_case. cbn.
  destruct (messages db !! n) as [m|] eqn:Hm; [|done]. cbn. intros [= _ <- <-] Hk.
  split; [by apply (delete_keyed db)|]. eexists. split; [done|]. simpl.
  rewrite (Hk _ _ Hm). by rewrite decide_True.
Qed.

Lemma logs_spend_input reverted input : logs (spend_input options reverted input).
Proof.
  destruct input; simpl; try destruct reverted;
    auto using logs_spend_coin, logs_spend_message, logs_ret.
Qed.

Lemma logs_insert_coin h u amount asset to : logs (insert_coin h u amount asset to).
Proof.
  unfold insert_coin. case_decide; [|auto with rel]. intros db d a db' d'.
  rewrite bind_case. cbn. rewrite bind_case. cbn. rewrite bind_case.
  destruct (coins db !! u) as [|] eqn:Hu; [by rewrite bool_decide_true|].
  rewrite bool_decide_false by (by intros []). cbn. intros [= _ <- <-] Hk. split; [done|].
  eexists. split; [done|]. simpl. by rewrite decide_True.
Qed.

Lemma logs_persist_output_utxos h id inputs outputs :
  logs (persist_output_utxos h id inputs outputs).
Proof.
  apply logs_get. intros []. apply logs_for. intros [i output].
  apply logs_bind; [auto with rel|intros index].
  destruct output; try apply logs_insert_coin; [|by apply logs_modify_db].
  destruct (inputs !! _) as [[]|]; first [apply logs_err|by apply logs_modify_db].
Qed.

Lemma ledger_attempt tx hdr cb gp db :
  ledger (attempt_tx_execution_with_vm cp options tx hdr cb gp db).2 = ledger db.
Proof.
  unfold attempt_tx_execution_with_vm. rewrite !bind_case. unfold st_lift.
  destruct (checked _ _); [|done]. rewrite bind_case. cbn [st_get].
  rewrite bind_case. destruct (map_err _ _) as [r|]; [|done].
  destruct (vm_outcome options r) as [rv rs]. rewrite bind_case.
  destruct (update_input_used_gas _ _ _); [|done]. rewrite bind_case.
  destruct (compute_inputs _ _ _) as [ins|]; [|done]. rewrite bind_case.
  destruct rv; cbn -[update_tx_outputs]; rewrite bind_case; cbn -[update_tx_outputs];
    rewrite bind_case; cbn -[update_tx_outputs]; by destruct (update_tx_outputs _ _ _).
Qed.

Lemma logs_execute_chargeable tx hdr cb gp :
  logs (execute_chargeable_transaction cp options tx hdr cb gp).
Proof.
  apply logs_get. intros [db d]. apply logs_bind; [auto with rel|intros _].
  apply logs_bind; [apply logs_on_db; intros; apply ledger_attempt|intros [[[rv st] t] rs]].
  apply logs_bind; [apply logs_for; intros; apply logs_spend_input|intros _].
  apply logs_bind; [apply logs_persist_output_utxos|intros _].
  apply logs_bind; [by apply logs_modify_db|intros _]. apply logs_bind; [|auto with rel].
  intros db1 d1 [] db1' d1' Hrun Hk.
  pose proof (update_execution_data_spec cp t rs gp rv st (id_of cp (TxChargeable tx)) db1 d1) as Hu.
  rewrite Hrun in Hu. destruct Hu as (-> & g & f & _ & ->). split; [done|].
  exists []. by rewrite app_nil_r.
Qed.

Lemma logs_execute_mint mint hdr gp : logs (execute_mint cp options mint hdr gp).
Proof.
  apply logs_bind; [by apply logs_modify_data|intros _]. apply logs_get. intros [db d].
  do 2 (apply logs_bind; [auto with rel|intros _]). apply logs_bind.
  - case_decide; [apply logs_bind; auto with rel|].
    do 2 (apply logs_bind; [auto with rel|intros _]). apply logs_bind; [auto with rel|intros input].
    apply logs_bind; [|intros []; auto with rel].
    apply logs_get. intros []. apply logs_bind; [auto with rel|intros tables].
    apply logs_bind; [by apply logs_modify_db|intros _].
    apply logs_bind; [apply logs_persist_output_utxos|intros _].
    apply logs_get. intros []. apply logs_bind; [auto with rel|intros outputs].
    destruct input; auto with rel. destruct outputs as [|[] []]; auto with rel.
  - intros m. apply logs_bind; [by apply logs_modify_data|intros _]. apply logs_get. intros [].
    apply logs_bind; [by apply logs_modify_db|intros _]. apply logs_bind; auto with rel.
Qed.

Lemma logs_execute_transaction tx id hdr cb gp : logs (execute_transaction cp options tx id hdr cb gp).
Proof.
  apply logs_get. intros [db d]. do 2 (apply logs_bind; [auto with rel|intros _]).
  apply logs_bind; [auto with rel|intros []]; [apply logs_execute_chargeable|apply logs_execute_mint].
Qed.

Lemma logs_process_da_events h da evs acc :
  logs (process_da_events cp h da evs acc).
Proof.
  revert acc. induction evs as [|e evs IH]; intros [leaves forced]; [apply logs_ret|].
  destruct e as [m|rtx]; cbn [process_da_events].
  - apply logs_bind; [auto with rel|intros _].
    intros db d a db' d'. rewrite bind_case. cbn [modify_db fst snd]. rewrite bind_case.
    cbn [push_event modify_data fst snd]. intros Hrun Hk.
    destruct (IH _ _ _ _ _ _ Hrun) as (Hk' & new & He & Hr).
    2: split; [done|]; exists (MessageImported m :: new); split; [rewrite He; simpl; by rewrite <- (assoc_L (++))|exact Hr].
    intros n m'. simpl. rewrite lookup_insert_Some. intros [[<- <-]|[_ Hm']]; [done|by apply Hk].
  - apply logs_get. intros [db d]. destruct (validate_forced_tx _ _ _ _); [apply IH|].
    apply logs_bind; [|intros _; apply IH].
    intros db1 d1 a db1' d1' [= _ <- <-] Hk. split; [done|]. eexists. by split.
Qed.

Lemma logs_process_da_heights h das acc : logs (process_da_heights relayer cp h das acc).
Proof.
  revert acc. induction das as [|da das IH]; intros acc; [apply logs_ret|].
  apply logs_bind; [auto with rel|intros evs].
  apply logs_bind; [apply logs_process_da_events|auto].
Qed.

Lemma logs_get_relayed_txs h da : logs (get_relayed_txs relayer cp h da).
Proof.
  unfold get_relayed_txs. destruct (enabled relayer); [|auto with rel].
  apply logs_bind; [auto with rel|intros prev]. apply logs_get. intros [].
  apply logs_bind; [auto with rel|intros b]. apply logs_bind; [auto with rel|intros n].
  apply logs_bind; [apply logs_process_da_heights|intros []].
  apply logs_bind; [by apply logs_modify_data|auto with rel].
Qed.

(** Importing from the relayer only appends events. *)
Definition appends {A} (m : ST TxState ExecutorError A) : Prop :=
  ∀ db d, ∃ new, events (m (db, d)).2.2 = events d ++ new.
Lemma appends_same {A} (m : ST TxState ExecutorError A) :
  (∀ db d, events (m (db, d)).2.2 = events d) → appends m.
Proof. intros Hm db d. exists []. by rewrite Hm, app_nil_r. Qed.
Lemma appends_bind {A B} (m : ST TxState ExecutorError A) (f : A → ST TxState ExecutorError B) :
  appends m → (∀ a, appends (f a)) → appends (m ≫= f).
Proof.
  intros Hm Hf db d. rewrite bind_case. destruct (Hm db d) as [n1 E1].
  destruct (m (db, d)) as [[a|e] [db' d']]; simpl in *; [|by exists n1].
  destruct (Hf a db' d') as [n2 ->]. exists (n1 ++ n2). by rewrite E1, (assoc_L (++)).
Qed.
Lemma appends_push e : appends (push_event e).
Proof. intros db d. by exists [e]. Qed.

Lemma appends_da_events h da evs acc : appends (process_da_events cp h da evs acc).
Proof.
  revert acc. induction evs as [|e evs IH]; intros [leaves forced]; [by apply appends_same|].
  destruct e as [m|rtx]; cbn [process_da_events].
  - apply appends_bind; [apply appends_same; intros; by destruct (bool_decide _)|intros _].
    apply appends_bind; [by apply appends_same|intros _].
    apply appends_bind; [apply appends_push|intros _; apply IH].
  - apply appends_bind; [by apply appends_same|intros []].
    destruct (validate_forced_tx _ _ _ _); [apply IH|].
    apply appends_bind; [apply appends_push|intros _; apply IH].
Qed.

Lemma appends_get_relayed_txs h da : appends (get_relayed_txs relayer cp h da).
Proof.
  assert (∀ das acc, appends (process_da_heights relayer cp h das acc)) as Hhs.
  { induction das; intros acc; [by apply appends_same|].
    apply appends_bind; [by apply appends_same|intros evs].
    apply appends_bind; [apply appends_da_events|auto]. }
  unfold get_relayed_txs. destruct (enabled relayer); [|by apply appends_same].
  apply appends_bind; [by apply appends_same|intros prev].
  apply appends_bind; [by apply appends_same|intros []].
  apply appends_bind; [by apply appends_same|intros b].
  apply appends_bind; [by apply appends_same|intros n].
  apply appends_bind; [apply Hhs|intros []]. by apply appends_same.
Qed.

(** *** Blocks *)

Definition is_execution_failure (e : ExecutorEvent) : bool :=
  match e with ForcedTransactionFailed _ _ (FailedExecution _) => true | _ => false end.
(** No forced transaction failed while it was executed. *)
Definition no_execution_failure (evs : list ExecutorEvent) : Prop :=
  Forall (λ e, is_execution_failure e = false) evs.

(** The events that count: all of them, unless a forced transaction failed
    while it was executed, whose earlier events stay in the log. *)
Definition counted (kept evs : list ExecutorEvent) : Prop :=
  kept `sublist_of` evs ∧ (no_execution_failure evs → kept = evs).

Lemma counted_app k1 k2 e1 e2 : counted k1 e1 → counted k2 e2 → counted (k1 ++ k2) (e1 ++ e2).
Proof.
  intros [S1 A1] [S2 A2]. split; [by apply sublist_app|]. intros [H1 H2]%Forall_app.
  by rewrite A1, A2.
Qed.

(** A step of the block executor that appends events, those of which that
    count replay to the tables it leaves. *)
Definition ex_logs (s s' : ExecState) : Prop :=
  ∃ new kept, events (ex_data s') = events (ex_data s) ++ new ∧ counted kept new
  ∧ (messages_keyed (ex_db s) →
     messages_keyed (ex_db s') ∧ replay kept (ledger (ex_db s)) = Some (ledger (ex_db s'))).

Lemma ex_logs_trans s1 s2 s3 : ex_logs s1 s2 → ex_logs s2 s3 → ex_logs s1 s3.
Proof.
  intros (n1 & k1 & E1 & C1 & H1) (n2 & k2 & E2 & C2 & H2). exists (n1 ++ n2), (k1 ++ k2).
  split; [by rewrite E2, E1, (assoc_L (++))|]. split; [by apply counted_app|]. intros Hk.
  destruct (H1 Hk) as [Hk2 R1]. destruct (H2 Hk2) as [Hk3 R2]. split; [done|].
  by rewrite replay_app, R1.
Qed.

(** What the execution of a transaction logs; a transaction that fails leaves
    the tables as they were unless it only found the block full. *)
Lemma commit_logs tx gp cb s r s' :
  execute_transaction_and_commit cp options tx gp cb s = (r, s') →
  ∃ new kept, events (ex_data s') = events (ex_data s) ++ new
  ∧ kept `sublist_of` new ∧ (is_ok r = true → kept = new)
  ∧ (messages_keyed (ex_db s) →
     messages_keyed (ex_db s') ∧ replay kept (ledger (ex_db s)) = Some (ledger (ex_db s'))).
Proof.
  unfold execute_transaction_and_commit. intros Hrun.
  destruct (rel_execute_transaction cp options tx (id_of cp (maybe_tx tx)) (pb_header (ex_block s))
              cb gp (ex_db s) (ex_data s) (ex_data s) eq_refl)
    as (r' & db & d1 & d2 & new & E1 & _ & _ & He & _). rewrite E1 in Hrun.
  destruct r' as [t|e].
  - assert (messages_keyed (ex_db s) → messages_keyed db ∧ replay new (ledger (ex_db s)) = Some (ledger db)) as Hl.
    { intros Hk. destruct (logs_execute_transaction _ _ _ _ _ _ _ _ _ _ E1 Hk) as (Hk' & new' & He' & Hr').
      rewrite He in He'. by apply app_inv_head in He' as <-. }
    exists new, new. by destruct (checked_add _ _ _); injection Hrun as <- <-.
  - injection Hrun as <- <-. exists new, []. split; [done|]. split; [apply sublist_nil_l|done].
Qed.

Lemma commit_ex_logs tx gp cb s r s' :
  execute_transaction_and_commit cp options tx gp cb s = (r, s') → is_ok r = true → ex_logs s s'.
Proof.
  intros Hrun Hr. destruct (commit_logs _ _ _ _ _ _ Hrun) as (new & kept & He & Hsub & Hall & Hl).
  exists new, kept. split; [done|]. split; [by split; [|intros _; apply Hall]|done].
Qed.

Lemma relayed_logs hdr cb tx s r s' :
  process_relayed_tx cp options hdr cb tx s = (r, s') → is_ok r = true ∧ ex_logs s s'.
Proof.
  unfold process_relayed_tx, st_catch. cbn [maybe_tx].
  destruct (execute_transaction_and_commit _ _ _ _ _ _) as [[[]|e] s1] eqn:E; intros [= <- <-].
  - split; [done|]. by eapply commit_ex_logs.
  - split; [done|]. destruct (commit_logs _ _ _ _ _ _ E) as (new & kept & He & Hsub & _ & Hl). simpl.
    eexists (new ++ [_]), (kept ++ [_]). split; [simpl; by rewrite He, <- (assoc_L (++))|].
    split; [split; [by apply sublist_app|]|].
    + intros Hno. apply Forall_app in Hno as [_ Hno]. by apply Forall_cons in Hno as [? _].
    + intros Hk. destruct (Hl Hk) as [Hk' Hr]. split; [done|]. by rewrite replay_app, Hr.
Qed.

Lemma ex_logs_refl s : ex_logs s s.
Proof. exists [], []. rewrite app_nil_r. by repeat split. Qed.

Lemma l1_logs cb s u s' :
  process_l1_txs relayer cp options cb s = (Ok u, s') → ex_logs s s'.
Proof.
  unfold process_l1_txs.
  destruct (get_relayed_txs _ _ _ _ _) as [[txs|e] [db d]] eqn:E; [|done]. intros Hrun.
  apply ex_logs_trans with (MkExecState (ex_block s) db d).
  - destruct (appends_get_relayed_txs (height (p_consensus (pb_header (ex_block s))))
                (da_height (p_application (pb_header (ex_block s)))) (ex_db s) (ex_data s))
      as [new Hnew]. rewrite E in Hnew. cbn [fst snd] in Hnew. exists new, new.
    split; [done|]. split; [by split|]. intros Hk.
    destruct (logs_get_relayed_txs _ _ _ _ _ _ _ E Hk) as (Hk' & new' & He & Hr).
    rewrite Hnew in He. apply app_inv_head in He as <-. done.
  - revert Hrun. apply st_for_preorder; [apply ex_logs_refl|apply ex_logs_trans|].
    intros tx s1 r s2 Hrun _. by eapply relayed_logs.
Qed.

Lemma validate_block_replays block db s :
  validate_block relayer cp options block db = Ok s → messages_keyed db →
  messages_keyed (ex_db s)
  ∧ ∃ kept, counted kept (events (ex_data s)) ∧ replay kept (ledger db) = Some (ledger (ex_db s)).
Proof.
  unfold validate_block.
  destruct (get_coinbase_info_from_mint_tx _) as [[gp cb]|]; [|done]. cbn [mbind result_bind].
  destruct (process_l1_txs _ _ _ _ _) as [[u|] s1] eqn:E1; [|done].
  destruct (st_for _ _ s1) as [[v|] s2] eqn:E2; [|done].
  destruct (check_block_matches _ _ _ _) as [[]|]; [|done]. cbn [mbind result_bind]. intros [= <-].
  apply l1_logs in E1.
  assert (ex_logs s1 s2) as E2'.
  { revert E2. apply st_for_preorder; [apply ex_logs_refl|apply ex_logs_trans|].
    intros tx s3 r s4 Hrun Hr. by eapply commit_ex_logs. }
  destruct (ex_logs_trans _ _ _ E1 E2') as (new & kept & He & Hc & Hlog). simpl in He, Hlog.
  rewrite He. intros Hk. destruct (Hlog Hk). eauto.
Qed.

End ledger.

(** C2 The events of a validated block are a record of what it did to the
    coins and messages.  Assume that coin inputs are checked against the
    database ([forbid_fake_coins], a node that runs with utxo validation) and
    that before the block every message is stored under its own nonce.  Then after
    the block messages are again stored under their nonces, and a subsequence
    of the events, replayed on the tables before the block, is accepted event
    by event and gives exactly the tables after it.  The subsequence is the
    whole log unless a forced transaction of the DA layer failed while it was
    executed: such a transaction leaves the tables alone, the events it had
    logged stay.  So every coin and message consumed by the counted events was
    there with the recorded contents, none is consumed twice, and no coin is
    created over an existing one. *)
Theorem validated_events_replay `{Hashing, FuelVm} relayer cp options block db s :
  forbid_fake_coins options = true →
  validate_block relayer cp options block db = Ok s → messages_keyed db →
  messages_keyed (ex_db s)
  ∧ ∃ kept, kept `sublist_of` events (ex_data s)
    ∧ (no_execution_failure (events (ex_data s)) → kept = events (ex_data s))
    ∧ replay kept (ledger db) = Some (ledger (ex_db s)).
Proof.
  intros Hf Hv Hk. destruct (validate_block_replays _ _ _ Hf _ _ _ Hv Hk) as [Hk' (kept & [Hs Ha] & Hr)].
  split; [done|]. by exists kept.
Qed.
