(* ===== verification/ExecutorRoundtrip.v ===== *)
(** * Blocks that are produced are valid

    A block producer executes candidate transactions, skips the ones that fail
    and publishes the executed ones, with the inputs and outputs the execution
    filled in.  Everybody else executes the published transactions.  The
    theorem of this file is that the second execution accepts the block and
    ends in the same database, given the documented treatment of malleable
    fields by fuel-tx and fuel-vm ([FuelVmLaws]). *)
From stdpp Require Import strings.
From S2P Require Import Prelude FuelTypes BlockTypes ExecutorTypes Executor ExecutorFrame.

(** ** Malleable fields

    The fields a transaction's id does not cover and the VM zeroes before it
    runs: the pointers and roots of inputs and outputs and the amounts of
    change and variable outputs. *)
Definition strip_input (i : Input) : Input :=
  match i with
  | InputCoinSigned c => InputCoinSigned (c <| ci_tx_pointer := (0, 0) |>)
  | InputCoinPredicate c => InputCoinPredicate (c <| ci_tx_pointer := (0, 0) |>)
  | InputContract c => InputContract (mint_input (xi_contract_id c))
  | i => i
  end.
Definition strip_output (o : Output) : Output :=
  match o with
  | OutputContract c => OutputContract (MkContractOutput (xo_input_index c) 0 0)
  | OutputChange to _ asset_id => OutputChange to 0 asset_id
  | OutputVariable _ _ _ => OutputVariable 0 0 0
  | o => o
  end.
Definition strip_tx (tx : ChargeableTx) : ChargeableTx :=
  MkTx (tx_kind tx) (strip_input <$> tx_inputs tx) (strip_output <$> tx_outputs tx)
    (tx_expiration tx) (tx_body tx).
Definition strip_mint (m : Mint) : Mint :=
  MkMint (mint_tx_pointer m) (mint_input (xi_contract_id (mint_input_contract m)))
    (MkContractOutput (xo_input_index (mint_output_contract m)) 0 0)
    (mint_amount m) (mint_asset_id m) (mint_gas_price m).
Definition strip (tx : Transaction) : Transaction :=
  match tx with TxChargeable tx => TxChargeable (strip_tx tx) | TxMint m => TxMint (strip_mint m) end.

(** The VM zeroes the gas of predicates as well. *)
Definition zero_gas (i : Input) : Input :=
  match i with
  | InputCoinPredicate c => InputCoinPredicate (c <| ci_predicate_gas_used := 0 |>)
  | InputMessageCoinPredicate m => InputMessageCoinPredicate (m <| mi_predicate_gas_used := 0 |>)
  | InputMessageDataPredicate m => InputMessageDataPredicate (m <| mi_predicate_gas_used := 0 |>)
  | i => i
  end.
Definition vm_view (tx : ChargeableTx) : ChargeableTx :=
  with_inputs (strip_tx tx) (zero_gas <$> tx_inputs (strip_tx tx)).

Class FuelVmLaws `{FuelVm} : Prop := {
  (** the id and the checks do not look at malleable fields *)
  tx_id_strip c tx : tx_id c (strip tx) = tx_id c tx;
  into_checked_basic_strip h cp tx : into_checked_basic h cp (strip tx) = into_checked_basic h cp tx;
  check_predicates_strip cp db tx : check_predicates cp db (strip_tx tx) = check_predicates cp db tx;
  check_signatures_strip c tx : check_signatures c (strip_tx tx) = check_signatures c tx;
  into_ready_strip gp cp h tx : into_ready gp cp h (strip_tx tx) = into_ready gp cp h tx;
  (** nor does the VM *)
  transact_strip b hdr cb gp cp db tx :
    transact b hdr cb gp cp db (strip_tx tx) = transact b hdr cb gp cp db tx;
  (** which writes nothing but them to the transaction *)
  transact_tx b hdr cb gp cp db tx r :
    transact b hdr cb gp cp db tx = Ok r → vm_view (vr_tx r) = vm_view tx
}.

(** ** Generic facts *)
Lemma try_map_ext {E A B} (f g : A → result E B) l :
  (∀ x, f x = g x) → try_map f l = try_map g l.
Proof. intros Hfg. induction l as [|x l IH]; simpl; [done|]. by rewrite Hfg, IH. Qed.

Lemma try_map_fmap {E A B C} (f : B → result E C) (h : A → B) l :
  try_map f (h <$> l) = try_map (λ x, f (h x)) l.
Proof. induction l as [|x l IH]; [done|]. rewrite fmap_cons. cbn [try_map]. by rewrite IH. Qed.

(** A fallible map that keeps a view of the elements. *)
Lemma try_map_view {E A B C} (f : A → result E B) (v : A → C) (w : B → C) l k :
  (∀ x y, f x = Ok y → w y = v x) → try_map f l = Ok k → w <$> k = v <$> l.
Proof.
  intros Hf. revert k. induction l as [|x l IH]; simpl; intros k; [by intros [= <-]|].
  destruct (f x) as [y|] eqn:E1; [|done]. simpl.
  destruct (try_map f l) as [k'|] eqn:E2; [|done]. simpl. intros [= <-].
  rewrite !fmap_cons. f_equal; auto.
Qed.

Section strip.
Context `{Hashing, FuelVmLaws}.
Context (relayer : Relayer) (cp : ConsensusParameters) (options : ExecutionOptions).

Lemma id_of_strip tx : id_of cp (strip tx) = id_of cp tx.
Proof. apply tx_id_strip. Qed.

Lemma verify_input_strip db da i : verify_input db da (strip_input i) = verify_input db da i.
Proof. by destruct i. Qed.

Lemma verify_inputs_strip db da l1 l2 :
  strip_input <$> l1 = strip_input <$> l2 →
  verify_inputs_exist_and_values_match db l1 da = verify_inputs_exist_and_values_match db l2 da.
Proof.
  intros Hl. unfold verify_inputs_exist_and_values_match.
  rewrite <- (try_map_ext (λ x, verify_input db da (strip_input x)) _ l1) by (intros; apply verify_input_strip).
  rewrite <- (try_map_ext (λ x, verify_input db da (strip_input x)) _ l2) by (intros; apply verify_input_strip).
  by rewrite <- (try_map_fmap (verify_input db da) strip_input l1),
    <- (try_map_fmap (verify_input db da) strip_input l2), Hl.
Qed.

Lemma gas_used_strip (l1 l2 : list Input) :
  strip_input <$> l1 = strip_input <$> l2 → predicate_gas_used <$> l1 = predicate_gas_used <$> l2.
Proof.
  intros Hl. assert (∀ l : list Input, predicate_gas_used <$> l = predicate_gas_used <$> (strip_input <$> l)) as Hs.
  { intros l. rewrite <- list_fmap_compose. apply list_fmap_ext. by intros ? []. }
  by rewrite (Hs l1), (Hs l2), Hl.
Qed.

(** *** The executed transaction differs in malleable fields only *)

Lemma compute_input_strip db i i' :
  compute_input options db i = Ok i' → strip_input i' = strip_input i.
Proof.
  assert (∀ c c', compute_coin_input options db c = Ok c' →
    c' <| ci_tx_pointer := (0, 0) |> = c <| ci_tx_pointer := (0, 0) |>) as Hc.
  { intros c c'. unfold compute_coin_input. destruct (get_coin_or_default _ _ _ _ _ _); [|done].
    by intros [= <-]. }
  destruct i as [c|c|c|m|m|m|m]; simpl; try (by intros [= <-]).
  - destruct (compute_coin_input options db c) eqn:E; [|done]. simpl. intros [= <-]. simpl.
    by rewrite (Hc _ _ E).
  - destruct (compute_coin_input options db c) eqn:E; [|done]. simpl. intros [= <-]. simpl.
    by rewrite (Hc _ _ E).
  - destruct (validated_utxo _ _ _); [|done]. simpl. by intros [= <-].
Qed.

Lemma compute_state_of_output_strip db inputs id o o' :
  compute_state_of_output db inputs id o = Ok o' → strip_output o' = strip_output o.
Proof.
  destruct o; simpl; try (by intros [= <-]).
  destruct (inputs !! _) as [[]|]; try done. by intros [= <-].
Qed.

(** Restoring the recorded gas undoes what the VM did to it. *)
Lemma restore_gas id (ins : list Input) : ∀ ins2 ins3 : list Input,
  zero_gas <$> (strip_input <$> ins2) = zero_gas <$> (strip_input <$> ins) →
  update_inputs_used_gas (predicate_gas_used <$> ins) id ins2 = Ok ins3 →
  strip_input <$> ins3 = strip_input <$> ins.
Proof.
  induction ins as [|i ins IH]; intros [|j ins2] ins3; cbn [fmap list_fmap]; try done.
  { by intros _ [= <-]. }
  intros [Hij Hrest]%cons_eq_inj. cbn [update_inputs_used_gas].
  destruct (match predicate_gas_used i with Some _ => _ | None => _ end) as [j'|] eqn:E; [|done].
  cbn [mbind result_bind].
  destruct (update_inputs_used_gas _ _ _) as [k|] eqn:E2; [|done]. cbn [mbind result_bind].
  intros [= <-]. cbn [fmap list_fmap]. f_equal; [|by eapply IH].
  destruct i, j; simplify_eq/=; try done;
    repeat match goal with c : CoinInput |- _ => destruct c | m : MessageInput |- _ => destruct m
      | c : ContractInput |- _ => destruct c end;
    simplify_eq/=; done.
Qed.

Lemma strip_tx_inputs tx1 tx2 :
  strip_tx tx1 = strip_tx tx2 → strip_input <$> tx_inputs tx1 = strip_input <$> tx_inputs tx2.
Proof. by intros [=]. Qed.

Lemma attempt_strip tx hdr cb gp db rv st tx' rs db' :
  attempt_tx_execution_with_vm cp options tx hdr cb gp db = (Ok (rv, st, tx', rs), db') →
  strip_tx tx' = strip_tx tx.
Proof.
  unfold attempt_tx_execution_with_vm. rewrite bind_case. unfold st_lift.
  destruct (checked _ _); [|done]. rewrite bind_case. cbn [st_get]. rewrite bind_case.
  destruct (transact _ _ _ _ _ _ _) as [r|] eqn:Hr; [|done]. cbn [map_err].
  destruct (vm_outcome options r) as [rv1 rs1]. rewrite bind_case.
  destruct (update_input_used_gas _ _ _) as [t1|] eqn:H1'; [|done]. rewrite bind_case.
  destruct (compute_inputs _ _ _) as [ins|] eqn:H2'; [|done]. rewrite bind_case.
  apply transact_tx in Hr. unfold vm_view, with_inputs, strip_tx in Hr. injection Hr as Hk Hi Ho He Hb.
  unfold update_input_used_gas in H1'.
  destruct (update_inputs_used_gas _ _ _) as [k|] eqn:Hg; [|done]. injection H1' as <-.
  apply restore_gas in Hg; [|done]. cbn [tx_inputs with_inputs] in H2'.
  apply (try_map_view _ strip_input strip_input) in H2'; [|intros; by eapply compute_input_strip].
  assert (∀ db0, match update_tx_outputs db0 (id_of cp (TxChargeable tx))
      (with_inputs (with_inputs (vr_tx r) k) ins) with
    | Ok t => strip_tx t = strip_tx tx | Err _ => True end) as Hout.
  { intros db0. unfold update_tx_outputs.
    destruct (compute_state_of_not_utxo_outputs _ _ _ _) as [o|] eqn:H3'; [|done]. cbn [mbind result_bind].
    apply (try_map_view _ strip_output strip_output) in H3'; [|intros; by eapply compute_state_of_output_strip].
    unfold strip_tx. cbn [with_inputs tx_kind tx_inputs tx_outputs tx_expiration tx_body] in *.
    by rewrite H2', Hg, H3', Hk, Ho, He, Hb. }
  destruct rv1; cbn -[update_tx_outputs]; rewrite bind_case; cbn -[update_tx_outputs];
    rewrite bind_case; match goal with |- context [update_tx_outputs ?d ?i ?t] =>
      specialize (Hout d); destruct (update_tx_outputs d i t) end; [|done| |done];
    by intros [= _ _ <- _ _].
Qed.

(** Two transactions that differ in malleable fields only execute alike. *)
Lemma execute_chargeable_ext tx1 tx2 hdr cb gp s :
  strip_tx tx1 = strip_tx tx2 →
  execute_chargeable_transaction cp options tx1 hdr cb gp s
  = execute_chargeable_transaction cp options tx2 hdr cb gp s.
Proof.
  intros Hs. pose proof (strip_tx_inputs _ _ Hs) as Hi.
  assert (id_of cp (TxChargeable tx1) = id_of cp (TxChargeable tx2)) as Hid.
  { rewrite <- !(id_of_strip (TxChargeable _)). simpl. by rewrite Hs. }
  assert (∀ db, extra_tx_checks cp tx1 hdr db = extra_tx_checks cp tx2 hdr db) as Hextra.
  { intros db. unfold extra_tx_checks. rewrite (verify_inputs_strip _ _ _ _ Hi).
    rewrite <- (check_predicates_strip cp db tx1), <- (check_signatures_strip _ tx1), Hs.
    by rewrite check_predicates_strip, check_signatures_strip. }
  assert (∀ db, attempt_tx_execution_with_vm cp options tx1 hdr cb gp db
              = attempt_tx_execution_with_vm cp options tx2 hdr cb gp db) as Hatt.
  { intros db. unfold attempt_tx_execution_with_vm. rewrite (gas_used_strip _ _ Hi), Hid.
    rewrite <- (into_ready_strip gp cp _ tx1), Hs, into_ready_strip.
    rewrite !bind_case. unfold st_lift. destruct (checked _ _); [|done].
    rewrite !bind_case. cbn [st_get].
    by rewrite <- (transact_strip _ _ _ _ _ _ tx1), Hs, transact_strip. }
  unfold execute_chargeable_transaction. rewrite !bind_case. destruct s as [db d]. cbn [st_get].
  rewrite Hextra, Hid, !bind_case. unfold st_lift.
  destruct (if forbid_fake_coins options then _ else _); [|done].
  rewrite !bind_case. unfold on_db. cbn [fst]. by rewrite Hatt.
Qed.

Lemma execute_chargeable_result tx hdr cb gp db d t s' :
  execute_chargeable_transaction cp options tx hdr cb gp (db, d) = (Ok t, s') →
  ∃ tx', t = TxChargeable tx' ∧ strip_tx tx' = strip_tx tx.
Proof.
  unfold execute_chargeable_transaction. rewrite bind_case. cbn [st_get]. rewrite bind_case. unfold st_lift.
  destruct (if forbid_fake_coins options then _ else _); [|done]. rewrite bind_case.
  unfold on_db. cbn [fst snd].
  destruct (attempt_tx_execution_with_vm _ _ _ _ _ _ _) as [[[[[rv st] tx'] rs]|] db1] eqn:Ha; [|done].
  apply attempt_strip in Ha. rewrite bind_case.
  destruct (spend_input_utxos _ _ _ _) as [[] s1]; [|done]. rewrite bind_case.
  destruct (persist_output_utxos _ _ _ _ _) as [[] s2]; [|done]. rewrite bind_case.
  cbn [modify_db]. rewrite bind_case.
  destruct (update_execution_data _ _ _ _ _ _ _ _) as [[] s3]; [|done].
  intros [= <- _]. by exists tx'.
Qed.

Lemma execute_mint_with_vm_ext hdr id m1 m2 input s :
  strip_mint m1 = strip_mint m2 →
  execute_mint_with_vm hdr id m1 input s = execute_mint_with_vm hdr id m2 input s.
Proof.
  destruct m1 as [p1 i1 [x1 b1 s1] a1 as1 g1], m2 as [p2 i2 [x2 b2 s2] a2 as2 g2].
  unfold strip_mint. cbn. intros [= -> Hid -> -> -> ->].
  unfold execute_mint_with_vm. cbn [mint_input_contract mint_asset_id mint_amount mint_output_contract].
  rewrite Hid. reflexivity.
Qed.

Lemma execute_mint_ext m1 m2 hdr gp s :
  xi_contract_id (mint_input_contract m1) ≠ 0 → strip_mint m1 = strip_mint m2 →
  execute_mint cp options m1 hdr gp s = execute_mint cp options m2 hdr gp s.
Proof.
  intros Hnz Hs.
  assert (id_of cp (TxMint m1) = id_of cp (TxMint m2)) as Hid.
  { rewrite <- !(id_of_strip (TxMint _)). simpl. by rewrite Hs. }
  unfold execute_mint. rewrite Hid. pose proof Hs as Hs'. unfold strip_mint in Hs'.
  injection Hs' as Hp Hc Hx Ha Has Hg.
  unfold check_mint_has_expected_index, check_gas_price, check_mint_amount.
  rewrite <- Hp, <- Hg, <- Ha, <- Has, <- Hc.
  rewrite !bind_case. destruct (modify_data _ s) as [[] s1]; [|done].
  rewrite !bind_case. destruct s1 as [db d]. cbn [st_get].
  rewrite !bind_case. destruct (st_lift _ _) as [[] s2]; [|done].
  rewrite !bind_case. destruct (st_lift _ _) as [[] s3]; [|done].
  rewrite !(decide_False (P := xi_contract_id (mint_input_contract m1) = 0)) by done.
  assert (∀ da, verify_input db da (InputContract (mint_input_contract m1))
              = verify_input db da (InputContract (mint_input_contract m2))) as Hv.
  { intros da. simpl. by rewrite Hc. }
  assert (compute_input options db (InputContract (mint_input_contract m1))
        = compute_input options db (InputContract (mint_input_contract m2))) as Hci.
  { simpl. by rewrite Hc. }
  rewrite !bind_case. destruct (st_lift _ _) as [[] s4]; [|done]. cbn [fst snd].
  unfold verify_inputs_exist_and_values_match. cbn [try_map]. rewrite Hv, Hci.
  rewrite !bind_case. destruct (st_lift _ _) as [[] s5]; [|done].
  rewrite !bind_case. destruct (st_lift _ _) as [input s6]; destruct input as [input|]; [|done].
  rewrite !bind_case. by rewrite (execute_mint_with_vm_ext hdr _ m1 m2).
Qed.

Lemma execute_mint_with_vm_result hdr id m input s i o s' :
  execute_mint_with_vm hdr id m input s = (Ok (i, o), s') →
  input = InputContract i ∧ xo_input_index o = xo_input_index (mint_output_contract m).
Proof.
  unfold execute_mint_with_vm. rewrite bind_case. destruct s as [db d]. cbn [st_get].
  rewrite bind_case. destruct (st_lift _ _) as [[] s1]; [|done].
  rewrite bind_case. destruct (modify_db _ _) as [[] s2]; [|done].
  rewrite bind_case. destruct (persist_output_utxos _ _ _ _ _) as [[] s3]; [|done].
  rewrite bind_case. destruct s3 as [db3 d3]. cbn [st_get]. rewrite bind_case. unfold st_lift.
  destruct (compute_state_of_not_utxo_outputs _ _ _ _) as [os|] eqn:Ho; [|done].
  apply (try_map_view _ strip_output strip_output) in Ho; [|intros; by eapply compute_state_of_output_strip].
  destruct input; try done. destruct os as [|[] []]; try done.
  intros [= <- <- _]. split; [done|]. by injection Ho as [= Hx].
Qed.

Lemma execute_mint_result m hdr gp s t s' :
  execute_mint cp options m hdr gp s = (Ok t, s') →
  ∃ m', t = TxMint m' ∧ strip_mint m' = strip_mint m
        ∧ (xi_contract_id (mint_input_contract m) = 0 → m' = m).
Proof.
  unfold execute_mint. rewrite bind_case. destruct (modify_data _ s) as [[] s1]; [|done].
  rewrite bind_case. destruct s1 as [db d]. cbn [st_get].
  rewrite bind_case. destruct (st_lift _ _) as [[] s2]; [|done].
  rewrite bind_case. destruct (st_lift _ _) as [[] s3]; [|done].
  assert (∀ m1 s4 t s', store_mint_tx m1 (id_of cp (TxMint m)) s4 = (Ok t, s') → t = TxMint m1) as Hstore.
  { intros m1 [db4 d4] t' s4'. unfold store_mint_tx. rewrite !bind_case. cbn.
    rewrite bind_case. cbn. rewrite bind_case. by destruct (bool_decide _); intros [= <- _]. }
  rewrite bind_case. case_decide as Hz; rewrite bind_case.
  - destruct (st_lift _ _) as [[] s4]; [|done]. intros ->%Hstore. by exists m.
  - destruct (st_lift _ _) as [[] s4]; [|done].
    rewrite bind_case. destruct (st_lift _ _) as [[] s5]; [|done].
    rewrite bind_case. unfold st_lift.
    destruct (compute_input options db _) as [input|] eqn:Hin; [|done].
    rewrite bind_case. destruct (execute_mint_with_vm _ _ _ _ _) as [[[i o]|] s6] eqn:Hvm; [|done].
    intros ->%Hstore. apply execute_mint_with_vm_result in Hvm as [-> Ho].
    apply compute_input_strip in Hin. injection Hin as Hc.
    eexists. split; [done|]. split; [|done]. unfold strip_mint. simpl. by rewrite Hc, Ho.
Qed.

Lemma convert_ok tx hdr t :
  convert_maybe_checked_tx_to_checked_tx cp tx hdr = Ok t → t = maybe_tx tx.
Proof.
  unfold convert_maybe_checked_tx_to_checked_tx. destruct tx as [tx v|tx]; simpl.
  - case_decide; [done|]. case_decide; [by intros [= <-]|].
    destruct (checked _ _); [|done]. by intros [= <-].
  - destruct (checked _ _); [|done]. by intros [= <-].
Qed.

Lemma strip_execute_same tx t id hdr cb gp db d s' :
  execute_transaction cp options tx id hdr cb gp (db, d) = (Ok t, s') →
  into_checked_basic (height (p_consensus hdr)) cp (maybe_tx tx) = None →
  strip t = strip (maybe_tx tx)
  ∧ execute_transaction cp options (MaybeUnchecked t) id hdr cb gp (db, d) = (Ok t, s').
Proof.
  unfold execute_transaction. rewrite ?bind_case. unfold st_get, st_lift. rewrite ?bind_case.
  destruct (check_mint_is_not_found d); [|done]. rewrite ?bind_case.
  destruct (check_tx_is_not_duplicate id db); [|done]. rewrite ?bind_case.
  destruct (convert_maybe_checked_tx_to_checked_tx cp tx hdr) as [t0|] eqn:Hconv; [|done].
  apply convert_ok in Hconv as ->. intros Hrun Hchk.
  assert (∀ t', strip t' = strip (maybe_tx tx) →
    convert_maybe_checked_tx_to_checked_tx cp (MaybeUnchecked t') hdr = Ok t') as Hconv'.
  { intros t' Hs. simpl. by rewrite <- into_checked_basic_strip, Hs, into_checked_basic_strip, Hchk. }
  destruct (maybe_tx tx) as [c|m] eqn:Htx.
  - pose proof Hrun as Hres. apply execute_chargeable_result in Hres as (c' & -> & Hs).
    assert (strip (TxChargeable c') = strip (TxChargeable c)) as Hs' by (simpl; by rewrite Hs).
    split; [done|]. rewrite Hconv' by done. rewrite <- Hrun. by apply execute_chargeable_ext.
  - pose proof Hrun as Hres. apply execute_mint_result in Hres as (m' & -> & Hs & Hz).
    assert (strip (TxMint m') = strip (TxMint m)) as Hs' by (simpl; by rewrite Hs).
    split; [done|]. rewrite Hconv' by done. rewrite <- Hrun.
    destruct (decide (xi_contract_id (mint_input_contract m) = 0)) as [Hz'|Hnz]; [by rewrite Hz|].
    symmetry. by apply execute_mint_ext.
Qed.

(** *** Two executors in lockstep *)

(** A producer and a validator at the same point: they agree on the block and
    the database, and on the data up to the log, where the producer may have
    recorded more. *)
Record similar (s1 s2 : ExecState) : Prop := {
  sim_block : ex_block s1 = ex_block s2;
  sim_db : ex_db s1 = ex_db s2;
  sim_core : core (ex_data s1) = core (ex_data s2);
  sim_events : events (ex_data s2) `sublist_of` events (ex_data s1);
  sim_same : skipped_transactions (ex_data s1) = [] → events (ex_data s1) = events (ex_data s2)
}.

Lemma similar_refl s : similar s s.
Proof. by split. Qed.

Lemma commit_replay tx gp cb s s' :
  execute_transaction_and_commit cp options tx gp cb s = (Ok (), s') →
  into_checked_basic (height (p_consensus (pb_header (ex_block s)))) cp (maybe_tx tx) = None →
  ∃ t, ex_block s' = MkPartialFuelBlock (pb_header (ex_block s)) (pb_transactions (ex_block s) ++ [t])
    ∧ strip t = strip (maybe_tx tx)
    ∧ skipped_transactions (ex_data s') = skipped_transactions (ex_data s)
    ∧ ∀ s2, similar s s2 → ∃ s2',
        execute_transaction_and_commit cp options (MaybeUnchecked t) gp cb s2 = (Ok (), s2')
        ∧ similar s' s2'.
Proof.
  unfold execute_transaction_and_commit. intros Hrun Hchk.
  destruct (execute_transaction _ _ _ _ _ _ _ _) as [[t|] [db d]] eqn:E; [|done].
  destruct (checked_add u16 _ _) as [c|] eqn:Hc; [|done]. injection Hrun as <-.
  destruct (strip_execute_same _ _ _ _ _ _ _ _ _ E Hchk) as [Hs E'].
  destruct (rel_execute_transaction cp options tx (id_of cp (maybe_tx tx)) (pb_header (ex_block s))
    cb gp (ex_db s) (ex_data s) (ex_data s) eq_refl) as (? & ? & ? & ? & ? & Ea & _ & _ & _ & _ & Hsk & _).
  rewrite E in Ea. injection Ea as <- <- <-.
  exists t. split; [done|]. split; [done|]. split; [done|]. intros s2 [Hb Hdb Hcore Hev Hsame].
  destruct (rel_execute_transaction cp options (MaybeUnchecked t) (id_of cp (maybe_tx tx))
    (pb_header (ex_block s)) cb gp (ex_db s) _ _ Hcore)
    as (r & db' & d1' & d2' & new & E1 & E2 & Hcore' & He1 & He2 & Hs1 & Hs2).
  rewrite E' in E1. injection E1 as <- <- <-.
  assert (id_of cp t = id_of cp (maybe_tx tx)) as Hid by (by rewrite <- (id_of_strip t), Hs, id_of_strip).
  cbn [maybe_tx]. rewrite <- Hb, <- Hdb, Hid, E2.
  destruct (core_fields _ _ Hcore) as (_ & _ & _ & Ht & _). rewrite <- Ht, Hc.
  eexists. split; [done|]. split; cbn [ex_block ex_db ex_data]; [by rewrite Hb|done| | |].
  - unfold core in *. cbn. by injection Hcore' as -> -> -> _ -> -> -> ->.
  - cbn [events]. rewrite He1, He2. by apply sublist_app.
  - cbn [skipped_transactions events]. rewrite Hs1, He1, He2. intros Hnil. by rewrite Hsame.
Qed.

(** A segment of production, from [s] to [s'], and its replay: the validator
    executes the transactions it added to the block. *)
Definition replays (gp : Z) (cb : ContractId) (s s' : ExecState) : Prop :=
  ∃ txs,
    ex_block s' = MkPartialFuelBlock (pb_header (ex_block s)) (pb_transactions (ex_block s) ++ txs)
    ∧ ∀ s2, similar s s2 → ∃ s2',
        st_for (λ tx, execute_transaction_and_commit cp options (MaybeUnchecked tx) gp cb) txs s2
        = (Ok (), s2') ∧ similar s' s2'.

Lemma replays_refl gp cb s : replays gp cb s s.
Proof.
  exists []. rewrite app_nil_r. split; [by destruct (ex_block s)|]. intros s2 Hs. by exists s2.
Qed.

Lemma replays_trans gp cb s1 s2 s3 :
  replays gp cb s1 s2 → replays gp cb s2 s3 → replays gp cb s1 s3.
Proof.
  intros (l1 & B1 & R1) (l2 & B2 & R2). exists (l1 ++ l2).
  split; [rewrite B2, B1; cbn [pb_header pb_transactions]; by rewrite (assoc_L (++))|].
  intros t Ht. destruct (R1 t Ht) as (t1 & E1 & Ht1). destruct (R2 t1 Ht1) as (t2 & E2 & Ht2).
  exists t2. split; [|done]. by rewrite st_for_app, bind_case, E1.
Qed.

(** The producer adds to its log without executing anything. *)
Lemma replays_log gp cb s d :
  core d = core (ex_data s) → events (ex_data s) `sublist_of` events d →
  skipped_transactions d ≠ [] →
  replays gp cb s (MkExecState (ex_block s) (ex_db s) d).
Proof.
  intros Hcore Hev Hsk. exists []. rewrite app_nil_r.
  split; [by destruct s as [[] ? ?]|]. intros s2 [Hb Hdb Hc He _].
  exists s2. split; [done|]. split; cbn; [done|done|congruence|by etrans|done].
Qed.

(** Skipped transactions did not overflow the counters of the block. *)
Definition clean (s : ExecState) : Prop :=
  Forall (λ p : TxId * ExecutorError, counter_overflow p.2 = false) (skipped_transactions (ex_data s)).

Definition skips_extend (s s' : ExecState) : Prop :=
  ∃ new, skipped_transactions (ex_data s') = skipped_transactions (ex_data s) ++ new.

#[local] Instance skips_extend_preorder : PreOrder skips_extend.
Proof.
  split; [intros s; exists []; by rewrite app_nil_r|].
  intros s1 s2 s3 [n1 E1] [n2 E2]. exists (n1 ++ n2). by rewrite E2, E1, (assoc_L (++)).
Qed.

Lemma clean_before s s' : skips_extend s s' → clean s' → clean s.
Proof. intros [new E]. unfold clean. rewrite E. by intros [? _]%Forall_app. Qed.

Lemma execute_transaction_error tx c id hdr cb gp db d e db' d' :
  maybe_tx tx = TxChargeable c →
  execute_transaction cp options tx id hdr cb gp (db, d) = (Err e, (db', d')) →
  counter_overflow e = false → core d' = core d.
Proof.
  intros Htx. unfold execute_transaction. unfold st_get, st_lift. rewrite ?bind_case.
  destruct (check_mint_is_not_found d); [|by intros [= _ _ <-]]. rewrite ?bind_case.
  destruct (check_tx_is_not_duplicate id db); [|by intros [= _ _ <-]]. rewrite ?bind_case.
  destruct (convert_maybe_checked_tx_to_checked_tx cp tx hdr) as [t0|] eqn:Hconv;
    [|by intros [= _ _ <-]].
  apply convert_ok in Hconv as ->. rewrite Htx. apply execute_chargeable_error.
Qed.

(** A transaction marked as checked under the current parameters passes the
    basic checks at this height. *)
Definition well_checked (hdr : PartialBlockHeader) (tx : MaybeCheckedTransaction) : Prop :=
  match tx with
  | MaybeChecked t v =>
      v = consensus_parameters_version (p_application hdr) →
      height (p_consensus hdr) ≤ transaction_expiration t →
      into_checked_basic (height (p_consensus hdr)) cp t = None
  | MaybeUnchecked _ => True
  end.

Lemma convert_well_checked tx hdr t :
  well_checked hdr tx → convert_maybe_checked_tx_to_checked_tx cp tx hdr = Ok t →
  into_checked_basic (height (p_consensus hdr)) cp (maybe_tx tx) = None.
Proof.
  unfold convert_maybe_checked_tx_to_checked_tx. destruct tx as [tx v|tx]; simpl; intros Hw.
  - unfold expiration. simpl. case_decide; [done|].
    case_decide; [intros _; apply Hw; [done|lia]|].
    by destruct (into_checked_basic _ _ _).
  - by destruct (into_checked_basic _ _ _).
Qed.

Lemma commit_ok_checked tx gp cb s s' :
  well_checked (pb_header (ex_block s)) tx →
  execute_transaction_and_commit cp options tx gp cb s = (Ok (), s') →
  into_checked_basic (height (p_consensus (pb_header (ex_block s)))) cp (maybe_tx tx) = None.
Proof.
  intros Hw. unfold execute_transaction_and_commit.
  destruct (execute_transaction _ _ _ _ _ _ _ _) as [[t|] [db d]] eqn:E; [|done]. intros _. revert E.
  unfold execute_transaction, st_get, st_lift. rewrite ?bind_case.
  destruct (check_mint_is_not_found _); [|done]. rewrite ?bind_case.
  destruct (check_tx_is_not_duplicate _ _); [|done]. rewrite ?bind_case.
  destruct (convert_maybe_checked_tx_to_checked_tx cp tx _) as [t0|] eqn:Hconv; [|done].
  intros _. by eapply convert_well_checked.
Qed.

(** What a commit does to the counter of transactions and to the log. *)
Lemma commit_frame tx gp cb s r s' :
  execute_transaction_and_commit cp options tx gp cb s = (r, s') →
  skipped_transactions (ex_data s') = skipped_transactions (ex_data s)
  ∧ events (ex_data s) `sublist_of` events (ex_data s')
  ∧ pb_header (ex_block s') = pb_header (ex_block s)
  ∧ (0 ≤ tx_count (ex_data s) < 65535 →
     match r with
     | Ok _ => tx_count (ex_data s') = tx_count (ex_data s) + 1
     | Err e => ex_block s' = ex_block s ∧ ex_db s' = ex_db s
     end).
Proof.
  unfold execute_transaction_and_commit. intros Hrun.
  destruct (rel_execute_transaction cp options tx (id_of cp (maybe_tx tx)) (pb_header (ex_block s))
    cb gp (ex_db s) (ex_data s) (ex_data s) eq_refl)
    as (r' & db' & d1 & d2 & new & E & _ & _ & He & _ & Hsk & _). rewrite E in Hrun.
  assert (events (ex_data s) `sublist_of` events d1) as Hev by (rewrite He; by apply sublist_inserts_r).
  assert (0 ≤ tx_count (ex_data s) < 65535 →
          checked_add u16 (tx_count (ex_data s)) 1 = Some (tx_count (ex_data s) + 1)) as Hc.
  { intros Hn. apply fit_Some. split; [done|]. int_unfold. lia. }
  destruct r' as [t|]; [|by injection Hrun as <- <-].
  destruct (checked_add u16 _ 1) eqn:Hadd; injection Hrun as <- <-; cbn;
    (split_and!; [done..|]); intros Hn; specialize (Hc Hn); congruence.
Qed.

Lemma commit_skips tx gp cb s r s' :
  execute_transaction_and_commit cp options tx gp cb s = (r, s') → skips_extend s s'.
Proof. intros (Hsk & _)%commit_frame. exists []. by rewrite Hsk, app_nil_r. Qed.

Lemma push_skips p s :
  skips_extend s (MkExecState (ex_block s) (ex_db s)
    ((ex_data s) <| skipped_transactions := skipped_transactions (ex_data s) ++ [p] |>)).
Proof. by exists [p]. Qed.

Section l2.
Context `{TransactionsSource TS} (try_send : list PreconfirmationStatus → list PreconfirmationStatus).
Context (gp : Z) (cb : ContractId).

(** The limit on the number of transactions is recomputed with the counter. *)
Definition l2_inv (hdr : PartialBlockHeader) (s : L2State TS) : Prop :=
  pb_header (ex_block (l2_ex s)) = hdr
  ∧ 0 ≤ tx_count (ex_data (l2_ex s))
  ∧ remaining_tx_count s = saturating_sub u16 max_tx_count (tx_count (ex_data (l2_ex s))).


Lemma l2_tx_replays hdr tx (s : L2State TS) u s' :
  process_l2_tx cp options try_send gp cb tx s = Some (Ok u, s') →
  l2_inv hdr s → tx_count (ex_data (l2_ex s)) < 65535 → well_checked hdr tx →
  clean (l2_ex s') →
  l2_source s' = l2_source s ∧ l2_inv hdr s'
  ∧ tx_count (ex_data (l2_ex s')) ≤ tx_count (ex_data (l2_ex s)) + 1
  ∧ replays gp cb (l2_ex s) (l2_ex s').
Proof.
  intros Hrun (Hhdr & Hpos & Hrem) Hlt Hw Hclean. revert Hrun. unfold process_l2_tx.
  destruct (maybe_tx tx) as [c|m] eqn:Htx; [|done]. cbn [transaction_max_gas]. case_decide.
  { intros [= <- <-]. cbn. split_and!; [done|done|lia|]. apply replays_log; [done|done|].
    cbn. by destruct (skipped_transactions _). }
  unfold execute_or_skip. rewrite Htx.
  destruct (execute_transaction_and_commit _ _ _ _ _ _) as [[[]|e] ex] eqn:E;
    destruct (commit_frame _ _ _ _ _ _ E) as (Hsk & Hev & Hh & Hr); specialize (Hr ltac:(lia)).
  - destruct (executed_status ex); [|done]. cbn. intros [= <- <-]. cbn.
    split; [done|]. split; [split_and!; cbn; [congruence|lia|done]|]. split; [lia|].
    rewrite <- Hhdr in Hw. pose proof (commit_ok_checked _ _ _ _ _ Hw E) as Hchk.
    destruct (commit_replay _ _ _ _ _ E Hchk) as (t & Hb & _ & _ & Hrep).
    exists [t]. split; [done|]. intros s2 Hs2. destruct (Hrep s2 Hs2) as (s2' & E2 & Hs2').
    exists s2'. split; [|done]. simpl. by rewrite bind_case, E2.
  - cbn. intros [= <- <-]. destruct Hr as [Hb Hdb]. revert Hclean. unfold clean. cbn.
    rewrite Forall_app, Forall_singleton. intros [_ He]. cbn in He.
    assert (core (ex_data ex) = core (ex_data (l2_ex s))) as Hcore.
    { revert E. unfold execute_transaction_and_commit.
      destruct (execute_transaction _ _ _ _ _ _ _ _) as [[t|] [db d]] eqn:Ex.
      - destruct (checked_add u16 _ 1) eqn:Hadd; [done|].
        intros [= <- <-]. apply fit_None in Hadd. int_unfold. lia.
      - intros [= -> <-]. cbn. by eapply execute_transaction_error. }
    destruct (core_fields _ _ Hcore) as (_ & _ & _ & Hcnt & _).
    split; [done|]. split; [split_and!; cbn; [congruence|lia|done]|]. split; [lia|].
    rewrite Hb, Hdb. apply replays_log; [done|done|]. cbn. by destruct (skipped_transactions _).
Qed.

Lemma l2_batch_replays hdr txs : ∀ (s : L2State TS) u s',
  process_l2_batch cp options try_send gp cb txs s = Some (Ok u, s') →
  l2_inv hdr s → (txs ≠ [] → tx_count (ex_data (l2_ex s)) + Z.of_nat (length txs) ≤ 65534) →
  Forall (well_checked hdr) txs → clean (l2_ex s') →
  l2_source s' = l2_source s ∧ l2_inv hdr s' ∧ replays gp cb (l2_ex s) (l2_ex s').
Proof.
  induction txs as [|tx txs IH]; intros s u s'; simpl.
  - intros [= <- <-] Hinv _ _ _. split_and!; [done|apply Hinv..|apply replays_refl].
  - destruct (process_l2_tx _ _ _ _ _ tx s) as [[[] s1]|] eqn:E; [|done..].
    intros Hrun Hinv Hlen Hw Hclean. apply Forall_cons in Hw as [Hw Hws].
    specialize (Hlen ltac:(done)).
    pose proof (clean_before _ _ (l2_batch_R cp options try_send gp cb _ (λ tx, commit_skips tx gp cb) push_skips _ _ _ _ Hrun) Hclean) as Hclean1.
    destruct (l2_tx_replays _ _ _ _ _ E Hinv ltac:(lia) Hw Hclean1) as (Hsrc & Hinv1 & Hcnt & Hrep).
    destruct (IH _ _ _ Hrun Hinv1 ltac:(intros _; lia) Hws Hclean) as (Hsrc' & Hinv' & Hrep').
    split_and!; [congruence|apply Hinv'..|by eapply replays_trans].
Qed.

(** The source hands out transactions that are what they are marked as. *)
Context (hdr : PartialBlockHeader) (Q : TS → Prop).
Hypothesis (source_ok : ∀ ts g n z, Q ts →
  Forall (well_checked hdr) (next ts g n z).1 ∧ Q (next ts g n z).2).

Lemma l2_loop_replays fuel : ∀ (s : L2State TS) u s',
  process_l2_loop cp options try_send gp cb fuel s = Some (Ok u, s') →
  l2_inv hdr s → Q (l2_source s) → clean (l2_ex s') →
  Q (l2_source s') ∧ l2_inv hdr s' ∧ replays gp cb (l2_ex s) (l2_ex s').
Proof.
  induction fuel as [|fuel IH]; intros s u s'; [done|]. cbn [process_l2_loop].
  destruct (next_batch s) as [txs s0] eqn:Hn. intros Hrun Hinv HQ Hclean.
  assert (l2_ex s0 = l2_ex s ∧ l2_inv hdr s0 ∧ Q (l2_source s0) ∧ Forall (well_checked hdr) txs
    ∧ (txs ≠ [] → tx_count (ex_data (l2_ex s0)) + Z.of_nat (length txs) ≤ 65534))
    as (Hex & Hinv0 & HQ0 & Hw & Hlen).
  { unfold next_batch in Hn.
    destruct (source_ok (l2_source s) (remaining_gas_limit s) (remaining_tx_count s)
                (remaining_block_transaction_size_limit s) HQ) as [Hw HQ'].
    destruct (next _ _ _ _) as [l src]. injection Hn as <- <-. cbn in *.
    split_and!; [done|apply Hinv..|done|by apply Forall_take|].
    destruct Hinv as (_ & Hpos & ->). unfold max_tx_count. int_unfold.
    intros Hne. rewrite length_take.
    destruct (decide (tx_count (ex_data (l2_ex s)) < 65534)); [lia|].
    exfalso. apply Hne. replace (Z.to_nat _) with 0%nat by lia. done. }
  rewrite <- Hex.
  destruct txs as [|tx txs]; [injection Hrun as <- <-; split_and!; [done|apply Hinv0..|apply replays_refl]|].
  destruct (process_l2_batch _ _ _ _ _ _ s0) as [[[] s1]|] eqn:E; [|done..].
  pose proof (clean_before _ _ (l2_loop_R cp options try_send gp cb _ (λ tx, commit_skips tx gp cb) push_skips _ _ _ _ Hrun) Hclean) as Hclean1.
  destruct (l2_batch_replays _ _ _ _ _ E Hinv0 Hlen Hw Hclean1) as (Hsrc & Hinv1 & Hrep).
  destruct (IH _ _ _ Hrun Hinv1 ltac:(by rewrite Hsrc) Hclean) as (HQ' & Hinv' & Hrep').
  split_and!; [done|apply Hinv'..|by eapply replays_trans].
Qed.

Lemma l2_txs_replays fuel src sent ex u ex' src' sent' :
  process_l2_txs cp options try_send gp cb fuel src sent ex = Some (Ok u, (ex', src', sent')) →
  pb_header (ex_block ex) = hdr → 0 ≤ tx_count (ex_data ex) → Q src → clean ex' →
  pb_header (ex_block ex') = hdr ∧ 0 ≤ tx_count (ex_data ex') ∧ Q src' ∧ replays gp cb ex ex'.
Proof.
  unfold process_l2_txs. destruct (process_l2_loop _ _ _ _ _ _ _) as [[r1 s1]|] eqn:E; [|done].
  cbn. intros [= -> <- <- _] Hh Hc HQ Hclean.
  destruct (l2_loop_replays _ _ _ _ E) as (HQ' & (Hh' & Hc' & _) & Hrep); [done..|].
  done.
Qed.

Lemma l2_rounds_replays rounds fuel : ∀ src sent ex u ex' src' sent',
  process_l2_rounds cp options try_send gp cb rounds fuel src sent ex = Some (Ok u, (ex', src', sent')) →
  pb_header (ex_block ex) = hdr → 0 ≤ tx_count (ex_data ex) → Q src → clean ex' →
  pb_header (ex_block ex') = hdr ∧ replays gp cb ex ex'.
Proof.
  induction rounds as [|rounds IH]; intros src sent ex u ex' src' sent'; simpl;
    (destruct (process_l2_txs _ _ _ _ _ _ _ _ _) as [[[] [[ex1 src1] sent1]]|] eqn:E; [|done..]).
  - intros [= <- <- <- <-] Hh Hc HQ Hclean.
    destruct (l2_txs_replays _ _ _ _ _ _ _ _ E) as (? & _ & _ & ?); done.
  - intros Hrun Hh Hc HQ Hclean.
    pose proof (clean_before _ _ (l2_rounds_R cp options try_send gp cb _ (λ tx, commit_skips tx gp cb) push_skips _ _ _ _ _ _ _ _ _ Hrun) Hclean) as Hclean1.
    destruct (l2_txs_replays _ _ _ _ _ _ _ _ E) as (Hh1 & Hc1 & HQ1 & Hrep); [done..|].
    destruct (IH _ _ _ _ _ _ _ Hrun) as [Hh2 Hrep2]; [done..|].
    split; [done|]. by eapply replays_trans.
Qed.

End l2.

(** *** The relayer's part of a block *)

Definition l1_frame (s s' : ExecState) : Prop :=
  pb_header (ex_block s') = pb_header (ex_block s)
  ∧ (0 ≤ tx_count (ex_data s) → 0 ≤ tx_count (ex_data s')).

Lemma commit_l1_frame tx gp cb s r s' :
  execute_transaction_and_commit cp options tx gp cb s = (r, s') → l1_frame s s'.
Proof.
  intros Hrun. split; [by apply (commit_frame _ _ _ _ _ _ Hrun)|]. revert Hrun.
  unfold execute_transaction_and_commit.
  pose proof (kn_execute_transaction cp options tx (id_of cp (maybe_tx tx)) (pb_header (ex_block s))
                cb gp (ex_db s) (ex_data s)) as Hkn.
  destruct (execute_transaction _ _ _ _ _ _ _ _) as [[t|] [db d]]; cbn in Hkn.
  - destruct (checked_add u16 _ _) as [c|] eqn:Hc; intros [= <- <-]; cbn; [|lia].
    apply fit_Some in Hc as [_ Hc]. int_unfold. lia.
  - intros [= <- <-]. cbn. lia.
Qed.

Lemma l1_txs_frame cb s u s' :
  process_l1_txs relayer cp options cb s = (Ok u, s') → l1_frame s s'.
Proof.
  unfold process_l1_txs.
  pose proof (kn_get_relayed_txs relayer cp (height (p_consensus (pb_header (ex_block s))))
    (da_height (p_application (pb_header (ex_block s)))) (ex_db s) (ex_data s)) as Hkn.
  destruct (get_relayed_txs _ _ _ _ _) as [[txs|] [db d]]; cbn in Hkn; [|done]. intros Hrun.
  assert (l1_frame (MkExecState (ex_block s) db d) s') as [Hh Hc].
  { revert Hrun. unfold process_relayed_txs. generalize (MkExecState (ex_block s) db d) at 2 3.
    intros s0. generalize (pb_header (ex_block (MkExecState (ex_block s) db d))). intros h.
    revert s0. induction txs as [|tx txs IH]; intros s0; simpl; [by intros [= _ <-]|].
    rewrite bind_case. unfold process_relayed_tx, st_catch.
    destruct (execute_transaction_and_commit _ _ _ _ _ s0) as [[] s1] eqn:E;
      apply commit_l1_frame in E as [Hh1 Hc1]; [|unfold modify_ex_data];
      intros [Hh2 Hc2]%IH; (split; [by etrans|]); cbn in *; auto. }
  split; [done|]. cbn in Hc. by rewrite Hkn in Hc.
Qed.

Lemma produce_block_header `{TransactionsSource TS} try_send rounds fuel (c : Components TS) db s sent :
  produce_block relayer cp options try_send rounds fuel c db = Some (Ok s, sent) →
  pb_header (ex_block s) = header_to_produce c.
Proof.
  unfold produce_block. destruct (process_l1_txs _ _ _ _ _) as [[u1|] s1] eqn:E1; [|done].
  destruct (process_l2_rounds _ _ _ _ _ _ _ _ _ s1) as [[r2 [[s2 src2] sent2]]|] eqn:E2; [|done].
  cbn [mbind option_bind]. destruct r2 as [u2|]; [|done].
  destruct (produce_mint_tx _ _ _ _ s2) as [[[]|] s3] eqn:E3; [|done]. intros [= <- <-].
  apply commit_frame in E3 as (_ & _ & -> & _). 
  assert (pb_header (ex_block s2) = pb_header (ex_block s1)) as ->.
  { assert (PreOrder (λ s s', pb_header (ex_block s') = pb_header (ex_block s))).
    { split; [by intros s|]. intros x y z. congruence. }
    revert E2. apply (l2_rounds_R cp options try_send _ _
      (λ s s', pb_header (ex_block s') = pb_header (ex_block s))); [|done].
    intros tx s r s' Hrun. by apply (commit_frame _ _ _ _ _ _ Hrun). }
  by apply l1_txs_frame in E1 as [-> _].
Qed.

(** Transactions compared with themselves match. *)
Lemma check_transactions_match_refl txs : check_transactions_match cp txs txs = Ok ().
Proof. induction txs as [|t txs IH]; simpl; [done|]. by rewrite decide_False by auto. Qed.

(** *** Production followed by validation *)

Lemma produced_validates `{TransactionsSource TS} try_send rounds fuel (c : Components TS) db s sent b Q :
  produce_block relayer cp options try_send rounds fuel c db = Some (Ok s, sent) →
  generate (ex_block s) (message_ids (ex_data s)) (ed_event_inbox_root (ex_data s)) = Ok b →
  (∀ ts g n z, Q ts → Forall (well_checked (header_to_produce c)) (next ts g n z).1
                      ∧ Q (next ts g n z).2) →
  Q (transactions_source c) → clean s →
  ∃ s2, validate_block relayer cp options b db = Ok s2 ∧ similar s s2.
Proof.
  intros Hprod Hgen HQ HQ0 Hclean. revert Hprod. unfold produce_block.
  set (s0 := MkExecState _ _ _).
  destruct (process_l1_txs _ _ _ _ s0) as [[u1|] s1] eqn:E1; [|done].
  destruct (process_l2_rounds _ _ _ _ _ _ _ _ _ s1) as [[r2 [[s2 src2] sent2]]|] eqn:E2; [|done].
  cbn [mbind option_bind]. destruct r2 as [u2|]; [|done].
  destruct (produce_mint_tx _ _ _ _ s2) as [[[]|] s3] eqn:E3; [|done]. intros [= <- <-].
  destruct (l1_txs_frame _ _ _ _ E1) as [Hh1 Hc1]. specialize (Hc1 ltac:(done)). cbn in Hh1.
  unfold produce_mint_tx in E3.
  pose proof (commit_frame _ _ _ _ _ _ E3) as (Hsk3 & _ & Hh3 & _).
  assert (clean s2) as Hclean2 by (unfold clean; by rewrite <- Hsk3).
  destruct (l2_rounds_replays try_send (gas_price c) (coinbase_recipient c) (header_to_produce c) Q HQ
              _ _ _ _ _ _ _ _ _ E2) as [Hh2 (l2 & Hb2 & Hrep2)]; [done..|].
  destruct (commit_replay _ _ _ _ _ E3) as (t & Hb3 & Hst & _ & Hrep3).
  { refine (commit_ok_checked _ _ _ _ _ _ E3). exact I. }
  cbn [maybe_tx] in Hst. destruct t as [?|m]; [done|].
  assert (mint_gas_price m = gas_price c ∧ xi_contract_id (mint_input_contract m) = coinbase_recipient c)
    as [Hgp Hcb] by (cbn in Hst; unfold strip_mint in Hst; cbn in Hst; by injection Hst).
  unfold generate, Block_new in Hgen.
  destruct (generate_header _ _ _ _) as [h|] eqn:Hg; [|done]. injection Hgen as <-.
  unfold validate_block. cbn [transactions header].
  assert (pb_transactions (ex_block s3)
    = pb_transactions (ex_block s1) ++ (l2 ++ [TxMint m])) as Htxs.
  { rewrite Hb3. cbn. rewrite Hb2. cbn. by rewrite <- (assoc_L (++)). }
  unfold get_coinbase_info_from_mint_tx. rewrite Htxs, (assoc_L (++)), last_snoc.
  cbn [mbind result_bind]. rewrite Hgp, Hcb.
  rewrite (partial_of_generate _ _ _ _ _ Hg).
  assert (pb_header (ex_block s3) = header_to_produce c) as Hh by congruence.
  rewrite Hh. fold s0. rewrite E1, <- (assoc_L (++)), drop_app_length.
  destruct (Hrep2 s1 (similar_refl s1)) as (t2 & Et2 & Ht2).
  destruct (Hrep3 t2 Ht2) as (t3 & Et3 & Ht3).
  rewrite st_for_app, bind_case, Et2. cbn [st_for]. rewrite bind_case, Et3.
  exists t3. split; [|done]. cbn [mret ST_ret].
  destruct Ht3 as [Hb _ Hcore _ _]. destruct (core_fields _ _ Hcore) as (_ & _ & _ & _ & _ & Hm & _ & Hr).
  unfold check_block_matches. cbn [transactions].
  rewrite <- Hb, Htxs, check_transactions_match_refl. cbn [mbind result_bind].
  unfold generate, Block_new. rewrite <- Hm, <- Hr, Hg. cbn [mbind result_bind map_err header].
  by rewrite decide_True.
Qed.

End strip.

Lemma produced_instance_validates `{Hashing, FuelVmLaws} `{TransactionsSource TS}
    try_send rounds fuel (self : ExecutionInstance) (c : Components TS) res cp (Q : TS → Prop) :
  produce_without_commit try_send rounds fuel self c false = Some (Ok res) →
  into_executor self (consensus_parameters_version (p_application (header_to_produce c))) = Ok cp →
  (∀ ts g n z, Q ts →
     Forall (well_checked cp (header_to_produce c)) (next ts g n z).1 ∧ Q (next ts g n z).2) →
  Q (transactions_source c) →
  Forall (λ p, counter_overflow p.2 = false) (res_skipped_transactions res) →
  ∃ v, validate_without_commit self (res_block res) = Ok v
    ∧ val_changes v = res_changes res
    ∧ val_tx_status v = res_tx_status res
    ∧ val_events v `sublist_of` res_events res
    ∧ (res_skipped_transactions res = [] → val_events v = res_events res).
Proof.
  unfold produce_without_commit. intros Hprod Hcp HQ HQ0 Hclean. rewrite Hcp in Hprod.
  unfold execute in Hprod. cbn [dry_run] in Hprod.
  destruct (produce_block _ _ _ _ _ _ _ _) as [[[s|] sent]|] eqn:E; [|done..].
  cbn in Hprod. injection Hprod as Hprod.
  destruct (generate _ _ _) as [b|] eqn:Hg; [|done]. cbn in Hprod. injection Hprod as <-.
  cbn in Hclean |- *.
  destruct (produced_validates _ _ _ _ _ _ _ _ _ _ _ _ E Hg HQ HQ0 Hclean) as (s2 & Hval & Hs).
  unfold generate, Block_new in Hg. destruct (generate_header _ _ _ _) as [h|] eqn:Hgen; [|done].
  injection Hg as <-. unfold validate_without_commit.
  assert (consensus_parameters_version (application (header (MkBlock h (pb_transactions (ex_block s)))))
    = consensus_parameters_version (p_application (header_to_produce c))) as ->.
  { cbn. apply partial_of_generate in Hgen. unfold PartialBlockHeader_from in Hgen.
    rewrite <- (produce_block_header _ _ _ _ _ _ _ _ _ _ E), <- Hgen. done. }
  rewrite Hcp. cbn [mbind result_bind]. rewrite Hval.
  eexists. split; [done|]. cbn. destruct Hs as [_ Hdb Hcore Hev Hsame].
  destruct (core_fields _ _ Hcore) as (_ & _ & _ & _ & _ & _ & Hst & _).
  split_and!; [done|done|done|]. intros. by rewrite Hsame.
Qed.

(** C1 A block that was produced is accepted by every validator that has the
    same database, and leads to the same database and the same transaction
    statuses.  The events of the validation are among those of the production,
    and are the same when no candidate was skipped.  The hypotheses: the
    transactions the source marks as checked are checked; and no candidate was
    skipped because the block's own gas or size counter overflowed. *)
Theorem produced_blocks_are_valid `{Hashing, FuelVmLaws} `{TransactionsSource TS}
    try_send rounds fuel (self : ExecutionInstance) (c : Components TS) res cp (Q : TS → Prop) :
  produce_without_commit try_send rounds fuel self c false = Some (Ok res) →
  into_executor self (consensus_parameters_version (p_application (header_to_produce c))) = Ok cp →
  (∀ ts g n z, Q ts →
     Forall (well_checked cp (header_to_produce c)) (next ts g n z).1 ∧ Q (next ts g n z).2) →
  Q (transactions_source c) →
  Forall (λ p, counter_overflow p.2 = false) (res_skipped_transactions res) →
  ∃ v, validate_without_commit self (res_block res) = Ok v
    ∧ val_changes v = res_changes res
    ∧ val_tx_status v = res_tx_status res
    ∧ val_events v `sublist_of` res_events res
    ∧ (res_skipped_transactions res = [] → val_events v = res_events res).
Proof. apply produced_instance_validates. Qed.
