(* ===== verification/ExecutorAccounting.v ===== *)
(** * The bookkeeping of a block

    The counters of the execution data agree with the transactions of the
    block: one status per transaction, in order and under its id; the coinbase
    is the sum of the fees; the ids are new; the mint transaction comes last
    and mints the coinbase. *)
From stdpp Require Import strings.
From S2P Require Import Prelude FuelTypes BlockTypes ExecutorTypes Executor ExecutorFrame ExecutorRoundtrip.

Definition sum_list (l : list Z) : Z := foldr Z.add 0 l.
Definition fees (sts : list TransactionExecutionStatus) : Z :=
  sum_list ((λ st, total_fee (st_result st)) <$> sts).
Definition gas (sts : list TransactionExecutionStatus) : Z :=
  sum_list ((λ st, total_gas (st_result st)) <$> sts).

Lemma sum_list_app l k : sum_list (l ++ k) = sum_list l + sum_list k.
Proof. induction l as [|x l IH]; simpl; [done|]. rewrite IH. lia. Qed.
Lemma fees_snoc sts st : fees (sts ++ [st]) = fees sts + total_fee (st_result st).
Proof. unfold fees. rewrite fmap_app, sum_list_app. simpl. lia. Qed.
Lemma gas_snoc sts st : gas (sts ++ [st]) = gas sts + total_gas (st_result st).
Proof. unfold gas. rewrite fmap_app, sum_list_app. simpl. lia. Qed.

Definition is_mint (tx : Transaction) : bool :=
  match tx with TxMint _ => true | TxChargeable _ => false end.

Section accounting.
Context `{Hashing, FuelVmLaws}.
Context (relayer : Relayer) (cp : ConsensusParameters) (options : ExecutionOptions).

(** ** Effects of one transaction *)

(** What a successful chargeable transaction does to the data. *)
Lemma execute_chargeable_effect tx hdr cb gp db d t db' d' :
  execute_chargeable_transaction cp options tx hdr cb gp (db, d) = (Ok t, (db', d')) →
  ∃ tx' st, t = TxChargeable tx' ∧ id_of cp t = id_of cp (TxChargeable tx)
    ∧ processed_transactions db' = {[id_of cp (TxChargeable tx)]} ∪ processed_transactions db
    ∧ tx_status d' = tx_status d ++ [MkStatus (id_of cp (TxChargeable tx)) st]
    ∧ coinbase d' = coinbase d + total_fee st ∧ used_gas d' = used_gas d + total_gas st
    ∧ found_mint d' = found_mint d.
Proof.
  intros Hrun. destruct (execute_chargeable_result _ _ _ _ _ _ _ _ _ _ Hrun) as (tx' & Ht & Hs).
  assert (id_of cp t = id_of cp (TxChargeable tx)) as Hid.
  { rewrite Ht, <- (id_of_strip cp (TxChargeable tx')), <- (id_of_strip cp (TxChargeable tx)). simpl. by rewrite Hs. }
  apply execute_chargeable_stages in Hrun as [[_ ?]|(rv & st & tx1 & rs & db1 & db3 & d3 & u & _ & Hc & Hp & Hu & Hr)];
    [done|].
  match type of Hu with update_execution_data _ ?a ?b ?c ?x ?y ?z ?w = _ =>
    pose proof (update_execution_data_spec cp a b c x y z w.1 w.2) as Hspec end.
  cbn [fst snd] in Hspec. rewrite Hu in Hspec. destruct u as [[]|]; [|done].
  destruct Hspec as (-> & g & f & _ & ->). symmetry in Hc.
  apply core_fields in Hc as (Hcb & Hg & _ & _ & Hf & _ & Hst & _).
  exists tx', (status_of rv st rs g f). cbn. rewrite <- Hcb, <- Hg, <- Hf, <- Hst, Hp. by destruct rv.
Qed.

(** What a successful mint transaction does to the data. *)
Lemma execute_mint_effect m hdr gp db d t db' d' :
  execute_mint cp options m hdr gp (db, d) = (Ok t, (db', d')) →
  ∃ m', t = TxMint m' ∧ id_of cp t = id_of cp (TxMint m)
    ∧ processed_transactions db' = {[id_of cp (TxMint m)]} ∪ processed_transactions db
    ∧ tx_status d' = tx_status d ++ [MkStatus (id_of cp (TxMint m)) (Success None [] 0 0)]
    ∧ coinbase d' = coinbase d ∧ used_gas d' = used_gas d ∧ found_mint d' = true
    ∧ (mint_tx_pointer m').2 = tx_count d ∧ mint_gas_price m' = gp
    ∧ mint_amount m' = if decide (xi_contract_id (mint_input_contract m') = 0) then 0 else coinbase d.
Proof.
  intros Hrun. destruct (execute_mint_result _ _ _ _ _ _ _ _ Hrun) as (m' & Ht & Hs & _).
  assert (id_of cp t = id_of cp (TxMint m)) as Hid.
  { rewrite Ht, <- (id_of_strip cp (TxMint m')), <- (id_of_strip cp (TxMint m)). simpl. by rewrite Hs. }
  assert (mint_tx_pointer m' = mint_tx_pointer m ∧ mint_gas_price m' = mint_gas_price m
    ∧ mint_amount m' = mint_amount m
    ∧ xi_contract_id (mint_input_contract m') = xi_contract_id (mint_input_contract m))
    as (Hp' & Hg' & Ha' & Hc') by (unfold strip_mint in Hs; by injection Hs).
  exists m'. split; [done|]. split; [done|]. rewrite Hp', Hg', Ha', Hc'.
  revert Hrun. unfold execute_mint. rewrite bind_case. unfold modify_data at 1. cbn [fst snd].
  rewrite bind_case. cbn [st_get]. rewrite bind_case. unfold st_lift, check_mint_has_expected_index.
  cbn [tx_count]. case_decide as Hidx; [done|]. rewrite bind_case. unfold check_gas_price.
  case_decide as Hgp; [done|].
  assert (∀ m1 db1 d1 t, store_mint_tx m1 (id_of cp (TxMint m)) (db1, d1) = (Ok t, (db', d')) →
    processed_transactions db1 = processed_transactions db →
    core d1 = core (d <| found_mint := true |>) →
    processed_transactions db' = {[id_of cp (TxMint m)]} ∪ processed_transactions db
    ∧ tx_status d' = tx_status d ++ [MkStatus (id_of cp (TxMint m)) (Success None [] 0 0)]
    ∧ coinbase d' = coinbase d ∧ used_gas d' = used_gas d ∧ found_mint d' = true) as Hstore.
  { intros m1 db1 d1 t1. unfold store_mint_tx. rewrite !bind_case. cbn. rewrite bind_case. cbn.
    rewrite bind_case. destruct (bool_decide _); [done|]. cbn. intros [= _ <- <-] Hp1 Hc1.
    apply core_fields in Hc1 as (E1 & E2 & _ & _ & E3 & _ & E4 & _). cbn in *.
    by rewrite Hp1, E1, E2, E3, E4. }
  rewrite bind_case. case_decide as Hz; rewrite bind_case.
  - unfold verify_mint_for_empty_contract. case_decide as Ha; [done|]. case_decide; [done|].
    cbn [mret ST_ret]. intros (-> & -> & -> & -> & ->)%Hstore; [|done..].
    split_and!; try done; by apply dec_stable.
  - unfold check_mint_amount. cbn [coinbase]. case_decide as Ha; [done|].
    rewrite bind_case. destruct (if forbid_fake_coins options then _ else _); [|done].
    rewrite bind_case. destruct (compute_input options db _) as [input|]; [|done]. rewrite bind_case.
    unfold execute_mint_with_vm. rewrite bind_case. cbn [st_get]. rewrite bind_case. unfold st_lift.
    destruct (map_err _ _) as [tables|]; [|done]. rewrite bind_case. unfold modify_db. cbn [fst snd].
    rewrite bind_case.
    match goal with |- context [persist_output_utxos ?a ?b ?c ?x ?w] =>
      pose proof (kp_persist_output_utxos a b c x w.1 w.2) as Hp3;
      pose proof (kc_persist_output_utxos a b c x w.1 w.2) as Hc3 end.
    cbn [fst snd] in Hp3, Hc3.
    destruct (persist_output_utxos _ _ _ _ _) as [[] [db3 d3]]; [|done]. cbn in Hp3, Hc3.
    rewrite bind_case. cbn [st_get]. rewrite bind_case.
    destruct (compute_state_of_not_utxo_outputs _ _ _ _) as [os|]; [|done].
    destruct input; try done. destruct os as [|[] []]; try done. cbn [mret ST_ret].
    intros (-> & -> & -> & -> & ->)%Hstore; [|by rewrite Hp3|done].
    split_and!; try done; by apply dec_stable.
Qed.

(** ** Blocks *)

Definition no_mint (txs : list Transaction) : Prop := Forall (λ tx, is_mint tx = false) txs.

(** A mint transaction at its place after [pre]. *)
Definition mint_fits (pre : list Transaction) (sts : list TransactionExecutionStatus) (m : Mint) : Prop :=
  (mint_tx_pointer m).2 = Z.of_nat (length pre)
  ∧ mint_amount m = if decide (xi_contract_id (mint_input_contract m) = 0) then 0 else fees sts.

Record block_inv (db0 : Db) (s : ExecState) : Prop := {
  bi_count : tx_count (ex_data s) = Z.of_nat (length (pb_transactions (ex_block s)));
  bi_range : in_range u16 (tx_count (ex_data s));
  bi_ids : st_id <$> tx_status (ex_data s) = id_of cp <$> pb_transactions (ex_block s);
  bi_coinbase : coinbase (ex_data s) = fees (tx_status (ex_data s));
  bi_gas : used_gas (ex_data s) = gas (tx_status (ex_data s));
  bi_processed : processed_transactions (ex_db s)
    = list_to_set (id_of cp <$> pb_transactions (ex_block s)) ∪ processed_transactions db0;
  bi_nodup : NoDup (id_of cp <$> pb_transactions (ex_block s));
  bi_fresh : Forall (λ id, id ∉ processed_transactions db0) (id_of cp <$> pb_transactions (ex_block s));
  bi_mint :
    if found_mint (ex_data s)
    then ∃ pre m, pb_transactions (ex_block s) = pre ++ [TxMint m] ∧ no_mint pre
                  ∧ mint_fits pre (tx_status (ex_data s)) m
    else no_mint (pb_transactions (ex_block s))
}.

Lemma block_inv_new db h : block_inv db (MkExecState (MkPartialFuelBlock h []) db ExecutionData_new).
Proof. split; cbn; try done; first [apply NoDup_nil_2|apply Forall_nil_2|set_solver]. Qed.

(** The counters the invariant speaks about. *)
Definition counters (d : ExecutionData) := (coinbase d, used_gas d, tx_count d, found_mint d, tx_status d).

Lemma counters_core d d' : core d = core d' → counters d = counters d'.
Proof. intros (E1 & E2 & _ & E3 & E4 & _ & E5 & _)%core_fields. unfold counters. congruence. Qed.

Lemma block_inv_counters db0 s s' :
  ex_block s' = ex_block s → processed_transactions (ex_db s') = processed_transactions (ex_db s) →
  counters (ex_data s') = counters (ex_data s) → block_inv db0 s → block_inv db0 s'.
Proof.
  intros Hb Hp [= E1 E2 E3 E4 E5] [].
  split; rewrite ?Hb, ?Hp, ?E1, ?E2, ?E3, ?E4, ?E5; done.
Qed.

(** How a transaction extends the invariant, whatever its kind. *)
Lemma block_inv_snoc db0 s t id st db' d' n :
  block_inv db0 s → found_mint (ex_data s) = false → id ∉ processed_transactions (ex_db s) →
  id_of cp t = id → processed_transactions db' = {[id]} ∪ processed_transactions (ex_db s) →
  tx_status d' = tx_status (ex_data s) ++ [MkStatus id st] →
  coinbase d' = coinbase (ex_data s) + total_fee st → used_gas d' = used_gas (ex_data s) + total_gas st →
  checked_add u16 (tx_count (ex_data s)) 1 = Some n →
  (if found_mint d'
   then ∃ m, t = TxMint m ∧ mint_fits (pb_transactions (ex_block s)) (tx_status d') m
   else is_mint t = false) →
  block_inv db0 (MkExecState (MkPartialFuelBlock (pb_header (ex_block s)) (pb_transactions (ex_block s) ++ [t]))
                   db' (d' <| tx_count := n |>)).
Proof.
  intros [] Hf Hnew Hid Hp Hst Hc Hg Hn Ht. apply fit_Some in Hn as [<- Hrange].
  assert (id ∉ id_of cp <$> pb_transactions (ex_block s)) as Hid1.
  { intros Hin. apply Hnew. rewrite bi_processed0. set_solver. }
  rewrite Hf in bi_mint0.
  split; cbn [ex_block ex_db ex_data pb_transactions tx_count tx_status coinbase used_gas found_mint].
  - rewrite length_app. simpl. lia.
  - done.
  - by rewrite Hst, !fmap_app, bi_ids0, <- Hid.
  - rewrite Hst, fees_snoc. cbn. lia.
  - rewrite Hst, gas_snoc. cbn. lia.
  - rewrite Hp, bi_processed0, fmap_app, list_to_set_app_L. simpl. rewrite Hid. set_solver.
  - rewrite fmap_app. simpl. rewrite Hid. apply NoDup_app. split_and!; [done|set_solver|apply NoDup_singleton].
  - rewrite fmap_app. apply Forall_app. split; [done|]. apply Forall_singleton. rewrite Hid. set_solver.
  - destruct (found_mint d').
    + destruct Ht as (m & -> & Hm). by exists (pb_transactions (ex_block s)), m.
    + apply Forall_app. split; [done|]. by apply Forall_singleton.
Qed.

Lemma commit_inv db0 tx gp cb s s' :
  execute_transaction_and_commit cp options tx gp cb s = (Ok (), s') → block_inv db0 s →
  block_inv db0 s' ∧ found_mint (ex_data s') = is_mint (maybe_tx tx).
Proof.
  unfold execute_transaction_and_commit, execute_transaction, st_get, st_lift.
  rewrite ?bind_case. unfold check_mint_is_not_found.
  destruct (found_mint (ex_data s)) eqn:Hf; [done|]. rewrite ?bind_case.
  unfold check_tx_is_not_duplicate. case_decide as Hnew; [done|]. rewrite ?bind_case.
  destruct (convert_maybe_checked_tx_to_checked_tx cp tx _) as [t0|] eqn:Hconv; [|done].
  apply convert_ok in Hconv as ->. intros Hrun Hinv.
  destruct (maybe_tx tx) as [c|m] eqn:Htx.
  - destruct (execute_chargeable_transaction _ _ _ _ _ _ _) as [[t|] [db1 d1]] eqn:E; [|done].
    destruct (checked_add _ _ _) as [n|] eqn:Hn; [|done]. injection Hrun as <-.
    apply execute_chargeable_effect in E as (tx' & st & -> & Hid & Hp & Hst & Hc & Hg & Hfm).
    split; [|cbn; by rewrite Hfm]. eapply block_inv_snoc; try done. by rewrite Hfm, Hf.
  - destruct (execute_mint _ _ _ _ _ _) as [[t|] [db1 d1]] eqn:E; [|done].
    destruct (checked_add _ _ _) as [n|] eqn:Hn; [|done]. injection Hrun as <-.
    apply execute_mint_effect in E
      as (m' & -> & Hid & Hp & Hst & Hc & Hg & Hfm & Hidx & Hgp & Ha).
    split; [|done]. eapply block_inv_snoc; try done; cbn; [lia..|].
    rewrite Hfm. exists m'. split; [done|]. split.
    + rewrite Hidx. apply (bi_count _ _ Hinv).
    + rewrite Ha, Hst, fees_snoc. cbn. rewrite Z.add_0_r. by rewrite (bi_coinbase _ _ Hinv).
Qed.

(** *** The relayer's part *)

(** The error is not an overflow of the counters of the block. *)
Definition harmless_failure (e : ExecutorEvent) : Prop :=
  match e with
  | ForcedTransactionFailed _ _ (FailedExecution err) => counter_overflow err = false
  | _ => True
  end.

(** After the counter of transactions is full nothing can be committed. *)
Definition inv_or_full (db0 : Db) (s : ExecState) : Prop :=
  (block_inv db0 s ∧ found_mint (ex_data s) = false) ∨ tx_count (ex_data s) = 65535.

Lemma commit_full tx gp cb s r s' :
  execute_transaction_and_commit cp options tx gp cb s = (r, s') → tx_count (ex_data s) = 65535 →
  is_ok r = false ∧ tx_count (ex_data s') = 65535.
Proof.
  unfold execute_transaction_and_commit.
  pose proof (kn_execute_transaction cp options tx (id_of cp (maybe_tx tx)) (pb_header (ex_block s))
                cb gp (ex_db s) (ex_data s)) as Hkn. intros Hrun Hfull. rewrite Hfull in *.
  destruct (execute_transaction _ _ _ _ _ _ _ _) as [[t|] [db d]]; cbn in *; injection Hrun as <- <-; done.
Qed.

(** A chargeable transaction either extends the block or leaves the invariant,
    or the counter is full. *)
Lemma commit_chargeable db0 c tx gp cb s r s' :
  execute_transaction_and_commit cp options tx gp cb s = (r, s') →
  maybe_tx tx = TxChargeable c → inv_or_full db0 s →
  no_mint (pb_transactions (ex_block s)) →
  match r with Err e => counter_overflow e = false | Ok _ => True end →
  inv_or_full db0 s' ∧ no_mint (pb_transactions (ex_block s')).
Proof.
  intros Hrun Htx Hinv Hno Hr.
  assert (no_mint (pb_transactions (ex_block s'))) as Hno'.
  { clear Hr. revert Hrun. unfold execute_transaction_and_commit.
    destruct (execute_transaction _ _ _ _ _ _ _ _) as [[t|] [db d]] eqn:E; [|by intros [= <- <-]].
    assert (is_mint t = false).
    { revert E. unfold execute_transaction, st_get, st_lift. rewrite ?bind_case.
      destruct (check_mint_is_not_found _); [|done]. rewrite ?bind_case.
      destruct (check_tx_is_not_duplicate _ _); [|done]. rewrite ?bind_case.
      destruct (convert_maybe_checked_tx_to_checked_tx cp tx _) as [t0|] eqn:Hconv; [|done].
      apply convert_ok in Hconv as ->. rewrite Htx.
      by intros (tx' & -> & _)%execute_chargeable_result. }
    destruct (checked_add _ _ _); intros [= <- <-]; cbn; apply Forall_app; (split; [done|]);
      by apply Forall_singleton. }
  split; [|done]. destruct Hinv as [[Hinv Hf]|Hfull]; [|right; by apply (commit_full _ _ _ _ _ _ Hrun)].
  destruct r as [[]|e].
  { left. destruct (commit_inv _ _ _ _ _ _ Hrun Hinv) as [Hinv' Hm]. by rewrite Hm, Htx. }
  revert Hrun. unfold execute_transaction_and_commit.
  destruct (execute_transaction _ _ _ _ _ _ _ _) as [[t|] [db d]] eqn:E.
  - destruct (checked_add u16 _ 1) eqn:Hadd; [done|]. intros [= <- <-]. right. cbn.
    pose proof (kn_execute_transaction cp options tx (id_of cp (maybe_tx tx)) (pb_header (ex_block s))
                cb gp (ex_db s) (ex_data s)) as Hkn. rewrite E in Hkn. cbn in Hkn. rewrite Hkn.
    pose proof (bi_range _ _ Hinv). apply fit_None in Hadd. int_unfold. lia.
  - intros [= -> <-]. left. pose proof (execute_transaction_error _ _ _ _ _ _ _ _ _ _ _ _ _ Htx E Hr) as Hcore.
    split; [apply (block_inv_counters db0 s); try done; by apply counters_core|]. cbn. apply core_fields in Hcore as (_ & _ & _ & _ & -> & _). done.
Qed.

Lemma forced_no_mint h da evs : ∀ acc s acc' s',
  process_da_events cp h da evs acc s = (Ok acc', s') → no_mint acc.2 → no_mint acc'.2.
Proof.
  induction evs as [|[m|rtx] evs IH]; intros [leaves forced] s acc' s'; cbn [process_da_events].
  - by intros [= <- <-].
  - rewrite bind_case. destruct (bool_decide _); [done|]. cbn [fail_if mret ST_ret].
    rewrite !bind_case. unfold modify_db, push_event, modify_data.
    intros Hrun Hno. exact (IH _ _ _ _ Hrun Hno).
  - rewrite bind_case. destruct s as [db d]. cbn [st_get].
    destruct (validate_forced_tx cp rtx h db) as [t|] eqn:Hv.
    + intros Hrun Hno. apply (IH _ _ _ _ Hrun). apply Forall_app. split; [done|].
      apply Forall_singleton. revert Hv. unfold validate_forced_tx.
      destruct (parse_tx_bytes rtx) as [[c|m]|]; cbn [mbind result_bind tx_is_valid_variant]; [|done..].
      destruct (relayed_tx_claimed_enough_max_gas _ _ _); [|done]. cbn [mbind result_bind].
      unfold get_checked_tx. destruct (checked _ _); [|done]. by intros [= <-].
    + rewrite bind_case. unfold push_event, modify_data.
      intros Hrun Hno. exact (IH _ _ _ _ Hrun Hno).
Qed.

Lemma relayed_txs_effect h da db d txs db' d' :
  get_relayed_txs relayer cp h da (db, d) = (Ok txs, (db', d')) →
  no_mint txs ∧ counters d' = counters d ∧ processed_transactions db' = processed_transactions db.
Proof.
  assert (∀ das acc s acc' s', process_da_heights relayer cp h das acc s = (Ok acc', s') →
    no_mint acc.2 → no_mint acc'.2) as Hno.
  { induction das as [|da' das IH]; intros acc s acc' s'; cbn [process_da_heights]; [by intros [= <- <-]|].
    rewrite bind_case. unfold st_lift. destruct (map_err _ _) as [evs|]; [|done]. rewrite bind_case.
    destruct (process_da_events _ _ _ _ _ _) as [[acc1|] s1] eqn:E; [|done].
    intros Hrun Hacc. apply (IH _ _ _ _ Hrun). by eapply forced_no_mint. }
  assert (∀ evs da acc, keeps_processed (process_da_events cp h da evs acc)) as Hp.
  { induction evs as [|[m|rtx] evs IH]; intros da' [leaves forced]; cbn [process_da_events]; [done|..].
    - apply kp_bind; [by destruct (bool_decide _)|intros _]. do 2 (apply kp_bind; [done|intros _]). apply IH.
    - apply kp_get; intros []. destruct (validate_forced_tx _ _ _ _); [apply IH|].
      apply kp_bind; [done|intros; apply IH]. }
  assert (∀ das acc, keeps_processed (process_da_heights relayer cp h das acc)) as Hps.
  { induction das as [|da' das IH]; intros acc; [done|].
    apply kp_bind; [done|intros]. apply kp_bind; [apply Hp|auto]. }
  unfold get_relayed_txs. destruct (enabled relayer);
    [|intros [= <- <- <-]; split_and!; [apply Forall_nil_2|done..]].
  unfold process_da. rewrite bind_case. unfold st_lift. destruct (ok_or _ _); [|done].
  rewrite bind_case. cbn [st_get]. rewrite bind_case. destruct (ok_or _ _); [|done].
  rewrite bind_case. destruct (ok_or _ _) as [n|]; [|done]. rewrite bind_case.
  pose proof (Hps (seqZ n (da - n + 1)) ([], []) db d) as Hps'.
  pose proof (kc_process_da_heights relayer cp h (seqZ n (da - n + 1)) ([], []) db d) as Hkc.
  destruct (process_da_heights _ _ _ _ _ _) as [[[leaves forced]|] [db1 d1]] eqn:E; [|done].
  cbn in *. rewrite bind_case. cbn. intros [= <- <- <-].
  split; [|split; [|done]].
  - apply (Hno _ _ _ _ _ E), Forall_nil_2.
  - by rewrite <- (counters_core _ _ Hkc).
Qed.

Lemma relayed_sublist hdr cb txs : ∀ s u s',
  st_for (process_relayed_tx cp options hdr cb) txs s = (Ok u, s') →
  events (ex_data s) `sublist_of` events (ex_data s').
Proof.
  induction txs as [|t txs IH]; intros s u s'; simpl; [by intros [= _ <-]|].
  rewrite bind_case. unfold process_relayed_tx at 1, st_catch. cbn [maybe_tx].
  destruct (execute_transaction_and_commit _ _ _ _ _ s) as [[[]|e] s1] eqn:E;
    pose proof (commit_frame _ _ _ _ _ _ _ _ E) as (_ & Hsub & _); intros Hs%IH.
  - by etrans.
  - etrans; [exact Hsub|]. etrans; [|exact Hs]. cbn. by apply sublist_inserts_r.
Qed.

Lemma relayed_inv db0 hdr cb txs : ∀ s u s',
  st_for (process_relayed_tx cp options hdr cb) txs s = (Ok u, s') → no_mint txs →
  inv_or_full db0 s → no_mint (pb_transactions (ex_block s)) →
  Forall harmless_failure (events (ex_data s')) →
  inv_or_full db0 s' ∧ no_mint (pb_transactions (ex_block s'))
  ∧ events (ex_data s) `sublist_of` events (ex_data s').
Proof.
  induction txs as [|t txs IH]; intros s u s'; simpl; [by intros [= _ <-]|].
  rewrite bind_case. unfold process_relayed_tx at 1, st_catch. cbn [maybe_tx].
  intros Hrun [Ht Hts]%Forall_cons Hinv Hno Hev. destruct t as [c|m]; [|done].
  destruct (execute_transaction_and_commit _ _ _ _ _ s) as [[[]|e] s1] eqn:E;
    pose proof (commit_frame _ _ _ _ _ _ _ _ E) as (_ & Hsub & _).
  - destruct (commit_chargeable db0 c _ _ _ s (Ok ()) s1 E eq_refl Hinv Hno I) as [Hinv1 Hno1].
    destruct (IH _ _ _ Hrun Hts Hinv1 Hno1 Hev) as (? & ? & ?). split_and!; [done..|by etrans].
  - unfold modify_ex_data in Hrun.
    match type of Hrun with st_for _ _ ?s2 = _ => set (s2' := s2) in Hrun end.
    assert (counter_overflow e = false → inv_or_full db0 s2' ∧ no_mint (pb_transactions (ex_block s2')))
      as Hs2.
    { intros He. destruct (commit_chargeable db0 c _ _ _ s (Err e) s1 E eq_refl Hinv Hno He) as [Hinv1 Hno1].
      split; [|done]. destruct Hinv1 as [[Hi Hf]|Hfull]; [left|by right].
      split; [|done]. by apply (block_inv_counters db0 s1). }
    assert (events (ex_data s2') `sublist_of` events (ex_data s')) as Hs2'.
    { apply (relayed_sublist hdr cb txs _ _ _ Hrun). }
    assert (counter_overflow e = false) as He.
    { assert (harmless_failure (ForcedTransactionFailed (id_of cp (TxChargeable c))
        (height (p_consensus hdr)) (FailedExecution e))) as Hh; [|done].
      rewrite Forall_forall in Hev. apply Hev. eapply elem_of_sublist; [|exact Hs2'].
      cbn. set_solver. }
    destruct (Hs2 He) as [Hinv2 Hno2].
    destruct (IH _ _ _ Hrun Hts Hinv2 Hno2 Hev) as (? & ? & ?). split_and!; [done..|].
    etrans; [exact Hsub|]. etrans; [|exact Hs2']. cbn. by apply sublist_inserts_r.
Qed.

(** *** Validated blocks *)

Lemma check_transactions_match_lookup new_txs : ∀ old_txs i x y,
  check_transactions_match cp new_txs old_txs = Ok () →
  new_txs !! i = Some x → old_txs !! i = Some y → x = y.
Proof.
  induction new_txs as [|n ns IH]; intros [|o os] [|i] x y; simpl; try done.
  - case_decide as Hd; [done|]. intros _ [= <-] [= <-]. done.
  - case_decide; [done|]. apply IH.
Qed.

Lemma check_transactions_match_eq new_txs old_txs :
  check_transactions_match cp new_txs old_txs = Ok () → length new_txs = length old_txs →
  new_txs = old_txs.
Proof.
  intros Hm Hlen. apply list_eq_same_length with (length old_txs); [done..|].
  intros i x y _ Hx Hy. by eapply check_transactions_match_lookup.
Qed.

Lemma commits_inv db0 gp cb txs : ∀ s u s',
  st_for (λ tx, execute_transaction_and_commit cp options (MaybeUnchecked tx) gp cb) txs s = (Ok u, s') →
  block_inv db0 s →
  block_inv db0 s'
  ∧ length (pb_transactions (ex_block s')) = (length (pb_transactions (ex_block s)) + length txs)%nat
  ∧ (∀ m, last txs = Some (TxMint m) → found_mint (ex_data s') = true).
Proof.
  induction txs as [|t txs IH]; intros s u s'; simpl; [intros [= _ <-] Hinv; split_and!; [done|lia|done]|].
  rewrite bind_case.
  destruct (execute_transaction_and_commit _ _ _ _ _ s) as [[[]|e] s1] eqn:E; [|done].
  intros Hrun Hinv. destruct (commit_inv _ _ _ _ _ _ E Hinv) as [Hinv1 Hm].
  destruct (IH _ _ _ Hrun Hinv1) as (Hinv' & Hlen & Hlast). split; [done|].
  assert (length (pb_transactions (ex_block s1)) = S (length (pb_transactions (ex_block s)))) as Hl1.
  { revert E. unfold execute_transaction_and_commit.
    destruct (execute_transaction _ _ _ _ _ _ _ _) as [[x|] [db d]]; [|done].
    destruct (checked_add _ _ _); [|done]. intros [= <-]. cbn. rewrite length_app. simpl. lia. }
  split; [lia|]. intros m Hlm. destruct txs as [|t' txs]; [|by apply (Hlast m)].
  injection Hlm as ->. injection Hrun as _ <-. by rewrite Hm.
Qed.

Lemma l1_inv cb db hdr u s1 :
  process_l1_txs relayer cp options cb
    (MkExecState (MkPartialFuelBlock hdr []) db ExecutionData_new) = (Ok u, s1) →
  Forall harmless_failure (events (ex_data s1)) →
  inv_or_full db s1 ∧ no_mint (pb_transactions (ex_block s1)).
Proof.
  unfold process_l1_txs. cbn [ex_block ex_db ex_data pb_header].
  destruct (get_relayed_txs _ _ _ _ _) as [[txs|] [db1 d1]] eqn:E; [|done]. intros Hrun Hev.
  apply relayed_txs_effect in E as (Hno & Hc & Hp).
  destruct (relayed_inv db _ _ _ _ _ _ Hrun Hno) as (? & ? & _); [|apply Forall_nil_2|done..].
  left. split; [|by injection Hc].
  by apply (block_inv_counters db (MkExecState (MkPartialFuelBlock hdr []) db ExecutionData_new));
    [..|apply block_inv_new].
Qed.

(** The state that a validation ends in. *)
Lemma validated_state block db s :
  validate_block relayer cp options block db = Ok s →
  Forall harmless_failure (events (ex_data s)) →
  pb_transactions (ex_block s) = transactions block ∧ block_inv db s ∧ found_mint (ex_data s) = true.
Proof.
  unfold validate_block, get_coinbase_info_from_mint_tx.
  destruct (last (transactions block)) as [[c|m0]|] eqn:Hlast; [done| |done]. cbn [mbind result_bind].
  destruct (process_l1_txs _ _ _ _ _) as [[u|] s1] eqn:E1; [|done].
  destruct (st_for _ _ s1) as [[v|] s2] eqn:E2; [|done].
  unfold check_block_matches.
  destruct (check_transactions_match _ _ _) as [[]|] eqn:Hm; [|done]. cbn [mbind result_bind].
  destruct (map_err _ _); [|done]. cbn [mbind result_bind]. case_decide; [|done]. intros [= <-] Hev.
  assert (events (ex_data s1) `sublist_of` events (ex_data s2)) as Hsub.
  { revert E2. apply (st_for_preorder (λ a b, events (ex_data a) `sublist_of` events (ex_data b)));
      [done|by intros ???; etrans|].
    intros t sa r sb Hrun _. by apply (commit_frame _ _ _ _ _ _ _ _ Hrun). }
  destruct (l1_inv _ _ _ _ _ E1) as [Hinv1 Hno1].
  { rewrite Forall_forall in Hev |- *. intros e He. apply Hev. by eapply elem_of_sublist. }
  destruct (drop (length (pb_transactions (ex_block s1))) (transactions block)) as [|t txs] eqn:Hdrop.
  { exfalso. injection E2 as _ <-. apply (f_equal length) in Hdrop. rewrite length_drop in Hdrop. simpl in Hdrop.
    rewrite last_lookup in Hlast. pose proof (lookup_lt_Some _ _ _ Hlast) as Hlt.
    destruct (lookup_lt_is_Some_2 (pb_transactions (ex_block s1)) (pred (length (transactions block))))
      as [x Hx]; [lia|].
    pose proof (check_transactions_match_lookup _ _ _ _ _ Hm Hx Hlast) as ->.
    by apply (Forall_lookup_1 _ _ _ _ Hno1) in Hx. }
  assert (block_inv db s1) as Hinv.
  { destruct Hinv1 as [[? _]|Hfull]; [done|]. simpl in E2. rewrite bind_case in E2.
    destruct (execute_transaction_and_commit _ _ _ _ _ s1) as [[]  s3] eqn:E3; [|done].
    by apply commit_full in E3 as [? _]. }
  destruct (commits_inv _ _ _ _ _ _ _ E2 Hinv) as (Hinv2 & Hlen & Hmint).
  assert (pb_transactions (ex_block s2) = transactions block) as Heq.
  { apply check_transactions_match_eq; [done|]. rewrite Hlen, <- Hdrop, length_drop.
    apply (f_equal length) in Hdrop. rewrite length_drop in Hdrop. simpl in Hdrop. lia. }
  split; [done|]. split; [done|]. rewrite <- Hdrop in Hmint. apply (Hmint m0). rewrite last_drop; [done|].
  apply (f_equal length) in Hdrop. rewrite length_drop in Hdrop. simpl in Hdrop. lia.
Qed.

(** C4 The books of a validated block balance: it is exactly what was executed;
    there is one status per transaction, in order and under its id; the ids are
    pairwise different, were not used before and are recorded as used; the
    coinbase and the used gas are the sums over the statuses; and the block is
    a list of ordinary transactions followed by one mint transaction, which
    points at its own place and mints the sum of the fees (nothing, without a
    recipient).  The hypothesis excludes a forced transaction that failed
    because a counter of the block overflowed. *)
Theorem validated_block_accounting block db s :
  validate_block relayer cp options block db = Ok s →
  Forall harmless_failure (events (ex_data s)) →
  let sts := tx_status (ex_data s) in
  let ids := id_of cp <$> transactions block in
  pb_transactions (ex_block s) = transactions block
  ∧ st_id <$> sts = ids ∧ NoDup ids ∧ Forall (λ id, id ∉ processed_transactions db) ids
  ∧ processed_transactions (ex_db s) = list_to_set ids ∪ processed_transactions db
  ∧ coinbase (ex_data s) = fees sts ∧ used_gas (ex_data s) = gas sts
  ∧ ∃ pre m, transactions block = pre ++ [TxMint m] ∧ no_mint pre ∧ mint_fits pre sts m.
Proof.
  intros Hval Hev. destruct (validated_state _ _ _ Hval Hev) as (Heq & [] & Hmint).
  rewrite Hmint in bi_mint0. rewrite Heq in *. by split_and!.
Qed.

End accounting.
