(* ===== verification/ExecutorFacts.v ===== *)
(** * Further properties of the executor

    Skipped transactions, the gas limit, termination of the loop over the
    source, the import from the DA layer and the preconfirmations. *)
From stdpp Require Import strings.
From S2P Require Import Prelude FuelTypes BlockTypes ExecutorTypes Executor ExecutorFrame ExecutorRoundtrip ExecutorAccounting.

Section facts.
Context `{Hashing, FuelVmLaws}.
Context (relayer : Relayer) (cp : ConsensusParameters) (options : ExecutionOptions).

(** ** Skipped transactions *)

(** C27 A transaction that is skipped does not affect the state: the block under
    construction and the database are untouched, and the counters, the message
    ids, the statuses and the mint flag are what they were; only the event log
    may have grown.  (The two overflow errors of the block's own counters are
    excluded, and the counter of transactions is not full.) *)
Theorem skipped_transaction_is_isolated c tx gp cb s e s' :
  maybe_tx tx = TxChargeable c →
  execute_transaction_and_commit cp options tx gp cb s = (Err e, s') →
  0 ≤ tx_count (ex_data s) < 65535 → counter_overflow e = false →
  ex_block s' = ex_block s ∧ ex_db s' = ex_db s ∧ core (ex_data s') = core (ex_data s)
  ∧ skipped_transactions (ex_data s') = skipped_transactions (ex_data s)
  ∧ events (ex_data s) `sublist_of` events (ex_data s').
Proof.
  intros Htx Hrun Hcnt He.
  destruct (commit_frame _ _ _ _ _ _ _ _ Hrun) as (Hsk & Hev & _ & Hr). specialize (Hr Hcnt).
  destruct Hr as [Hb Hdb]. split_and!; [done..| |done|done].
  revert Hrun. unfold execute_transaction_and_commit.
  destruct (execute_transaction _ _ _ _ _ _ _ _) as [[t|] [db d]] eqn:Ex.
  - destruct (checked_add u16 _ 1) eqn:Hadd; [done|].
    intros [= <- <-]. apply fit_None in Hadd. int_unfold. lia.
  - intros [= -> <-]. cbn. by eapply execute_transaction_error.
Qed.

(** ** The gas limit *)

(** fuel-vm never uses more gas than the maximum it computed up front. *)
Definition vm_respects_max_gas : Prop :=
  (∀ tx, min_gas cp (strip_tx tx) = min_gas cp tx)
  ∧ ∀ b hdr cb gp db tx r, transact b hdr cb gp cp db tx = Ok r →
      min_gas cp tx + script_gas_used (vr_receipts r) ≤ max_gas cp tx.

Lemma vm_outcome_gas r : script_gas_used (vm_outcome options r).2 = script_gas_used (vr_receipts r).
Proof.
  unfold vm_outcome. destruct (dry_run options); [|done].
  destruct (vr_missing_contract_inputs r) as [|c cs]; [done|]. cbn [snd]. generalize (c :: cs). intros l.
  induction (vr_receipts r) as [|[] rs IH]; simpl; auto. by induction l.
Qed.

Lemma attempt_gas tx hdr cb gp db rv st tx' rs db' :
  vm_respects_max_gas →
  attempt_tx_execution_with_vm cp options tx hdr cb gp db = (Ok (rv, st, tx', rs), db') →
  min_gas cp tx' + script_gas_used rs ≤ max_gas cp tx.
Proof.
  intros [Hmin Hmax] Hrun. pose proof (attempt_strip _ _ _ _ _ _ _ _ _ _ _ _ Hrun) as Hs.
  rewrite <- Hmin, Hs, Hmin. revert Hrun. clear Hs.
  unfold attempt_tx_execution_with_vm. rewrite bind_case. unfold st_lift.
  destruct (checked _ _); [|done]. rewrite bind_case. cbn [st_get]. rewrite bind_case.
  destruct (transact _ _ _ _ _ _ _) as [r|] eqn:Hr; [|done]. cbn [map_err].
  apply Hmax in Hr. pose proof (vm_outcome_gas r) as Ho.
  destruct (vm_outcome options r) as [rv1 rs1]. cbn in Ho. rewrite bind_case.
  destruct (update_input_used_gas _ _ _) as [t1|]; [|done]. rewrite bind_case.
  destruct (compute_inputs _ _ _) as [ins|]; [|done]. rewrite bind_case.
  destruct rv1; cbn -[update_tx_outputs]; rewrite bind_case; cbn -[update_tx_outputs];
    rewrite bind_case; destruct (update_tx_outputs _ _ _); [|done| |done];
    intros [= _ _ _ <- _]; lia.
Qed.

Lemma chargeable_gas tx hdr cb gp db d r db' d' :
  vm_respects_max_gas → 0 ≤ max_gas cp tx →
  execute_chargeable_transaction cp options tx hdr cb gp (db, d) = (r, (db', d')) →
  used_gas d' ≤ used_gas d + max_gas cp tx.
Proof.
  intros Hvm Hpos Hrun. apply execute_chargeable_stages in Hrun
    as [[Hc _]|(rv & st & tx1 & rs & db1 & db3 & d3 & u & Ha & Hc & _ & Hu & _)].
  { apply core_fields in Hc as (_ & -> & _). lia. }
  apply attempt_gas in Ha; [|done]. apply core_fields in Hc as (_ & Hg & _).
  assert (∀ g f, total_fee_paid cp tx1 rs gp = Ok (g, f) → g = min_gas cp tx1 + script_gas_used rs) as Hfee.
  { intros g f. unfold total_fee_paid. destruct (refund_fee _ _ _ _); [|done]. cbn [ok_or mbind result_bind].
    unfold checked_add. destruct (fit u64 _) as [x|] eqn:Hx; [|done]. cbn [ok_or mbind result_bind].
    apply fit_Some in Hx as [<- _]. destruct (checked_sub _ _ _); [|done]. by intros [= <- _]. }
  match type of Hu with update_execution_data _ ?a ?b ?c ?x ?y ?z ?w = _ =>
    pose proof (update_execution_data_spec cp a b c x y z w.1 w.2) as Hspec end.
  cbn [fst snd] in Hspec. rewrite Hu in Hspec. destruct u as [u|e].
  - destruct Hspec as (_ & g & f & Hgf & ->). apply Hfee in Hgf. cbn. lia.
  - destruct Hspec as (_ & _ & [->|(g & f & Hgf & ->)]); [lia|]. apply Hfee in Hgf. lia.
Qed.

Lemma commit_gas tx c gp cb s r s' :
  vm_respects_max_gas → maybe_tx tx = TxChargeable c → 0 ≤ max_gas cp c →
  execute_transaction_and_commit cp options tx gp cb s = (r, s') →
  used_gas (ex_data s') ≤ used_gas (ex_data s) + max_gas cp c.
Proof.
  intros Hvm Htx Hpos. unfold execute_transaction_and_commit.
  assert (used_gas (execute_transaction cp options tx (id_of cp (maybe_tx tx))
    (pb_header (ex_block s)) cb gp (ex_db s, ex_data s)).2.2 ≤ used_gas (ex_data s) + max_gas cp c) as Hle.
  { unfold execute_transaction, st_get, st_lift. rewrite ?bind_case.
    destruct (check_mint_is_not_found _); [|cbn; lia]. rewrite ?bind_case.
    destruct (check_tx_is_not_duplicate _ _); [|cbn; lia]. rewrite ?bind_case.
    destruct (convert_maybe_checked_tx_to_checked_tx cp tx _) as [t0|] eqn:Hconv; [|cbn; lia].
    apply convert_ok in Hconv as ->. rewrite Htx.
    destruct (execute_chargeable_transaction _ _ _ _ _ _ _) as [r0 [db0 d0]] eqn:E.
    by apply (chargeable_gas _ _ _ _ _ _ _ _ _ Hvm Hpos E). }
  destruct (execute_transaction _ _ _ _ _ _ _ _) as [[t|] [db d]]; cbn in Hle.
  - destruct (checked_add u16 _ _); intros [= <- <-]; done.
  - by intros [= <- <-].
Qed.

Section l2.
Context `{TransactionsSource TS} (try_send : list PreconfirmationStatus → list PreconfirmationStatus).
Context (gp : Z) (cb : ContractId).

Lemma l2_tx_gas tx (s : L2State TS) r s' B :
  vm_respects_max_gas → (∀ c, in_range u64 (max_gas cp c)) → cp_block_gas_limit cp ≤ B →
  process_l2_tx cp options try_send gp cb tx s = Some (r, s') →
  remaining_gas_limit s = saturating_sub u64 (cp_block_gas_limit cp) (used_gas (ex_data (l2_ex s))) →
  used_gas (ex_data (l2_ex s)) ≤ B →
  remaining_gas_limit s' = saturating_sub u64 (cp_block_gas_limit cp) (used_gas (ex_data (l2_ex s')))
  ∧ used_gas (ex_data (l2_ex s')) ≤ B.
Proof.
  intros Hvm Hmax HB Hrun Hrem Hle. revert Hrun. unfold process_l2_tx.
  destruct (maybe_tx tx) as [c|m] eqn:Htx; [|by intros [= <- <-]]. cbn [transaction_max_gas].
  case_decide as Hfit; [by intros [= <- <-]|]. unfold execute_or_skip.
  destruct (execute_transaction_and_commit _ _ _ _ _ _) as [r0 ex] eqn:E.
  pose proof (Hmax c) as Hc.
  apply commit_gas with (c := c) in E; [|done..|int_lia].
  assert (used_gas (ex_data ex) ≤ B) as Hex by (rewrite Hrem in Hfit; int_lia).
  destruct r0.
  - destruct (executed_status ex); [|done]. cbn. by intros [= <- <-].
  - cbn. by intros [= <- <-].
Qed.

Lemma l2_loop_gas fuel B :
  vm_respects_max_gas → (∀ c, in_range u64 (max_gas cp c)) → cp_block_gas_limit cp ≤ B →
  ∀ (s : L2State TS) r s', process_l2_loop cp options try_send gp cb fuel s = Some (r, s') →
  remaining_gas_limit s = saturating_sub u64 (cp_block_gas_limit cp) (used_gas (ex_data (l2_ex s))) →
  used_gas (ex_data (l2_ex s)) ≤ B → used_gas (ex_data (l2_ex s')) ≤ B.
Proof.
  intros Hvm Hmax HB.
  assert (∀ txs (s : L2State TS) r s', process_l2_batch cp options try_send gp cb txs s = Some (r, s') →
    remaining_gas_limit s = saturating_sub u64 (cp_block_gas_limit cp) (used_gas (ex_data (l2_ex s))) →
    used_gas (ex_data (l2_ex s)) ≤ B →
    remaining_gas_limit s' = saturating_sub u64 (cp_block_gas_limit cp) (used_gas (ex_data (l2_ex s')))
    ∧ used_gas (ex_data (l2_ex s')) ≤ B) as Hbatch.
  { induction txs as [|tx txs IH]; intros s r s'; simpl; [by intros [= <- <-]|].
    destruct (process_l2_tx _ _ _ _ _ tx s) as [[[] s1]|] eqn:E; [|intros [= <- <-]|done]; intros.
    - destruct (l2_tx_gas _ _ _ _ B Hvm Hmax HB E) as [? ?]; [done..|]. by eapply IH.
    - by eapply l2_tx_gas. }
  induction fuel as [|fuel IH]; intros s r s'; [done|]. cbn [process_l2_loop].
  assert (l2_ex (next_batch s).2 = l2_ex s ∧ remaining_gas_limit (next_batch s).2 = remaining_gas_limit s)
    as [Hex Hr] by (unfold next_batch; by destruct (next _ _ _ _)).
  destruct (next_batch s) as [txs s0]. cbn in Hex, Hr. rewrite <- Hex, <- Hr.
  destruct txs as [|tx txs]; [by intros [= <- <-]|].
  destruct (process_l2_batch _ _ _ _ _ _ s0) as [[[] s1]|] eqn:E; [|intros [= <- <-]|done]; intros.
  - destruct (Hbatch _ _ _ _ E) as [? ?]; [done..|]. by eapply IH.
  - by eapply Hbatch.
Qed.

(** C28 The gas limit holds: transactions from the source never take the block
    beyond its gas limit, whatever the source delivers and whichever of them
    fail.  (Gas used before, by forced transactions, is not subject to it.) *)
Theorem l2_gas_within_limit fuel src sent ex r ex' src' sent' :
  vm_respects_max_gas → (∀ c, in_range u64 (max_gas cp c)) →
  process_l2_txs cp options try_send gp cb fuel src sent ex = Some (r, (ex', src', sent')) →
  used_gas (ex_data ex') ≤ Z.max (used_gas (ex_data ex)) (cp_block_gas_limit cp).
Proof.
  intros Hvm Hmax. unfold process_l2_txs.
  destruct (process_l2_loop _ _ _ _ _ _ _) as [[r1 s1]|] eqn:E; [|done].
  cbn. intros [= -> <- _ _].
  apply (l2_loop_gas _ (Z.max (used_gas (ex_data ex)) (cp_block_gas_limit cp)) Hvm Hmax
           ltac:(lia) _ _ _ E); [done|cbn; lia].
Qed.

(** ** Termination of the loop, and the statuses it sends *)

Lemma commit_ok_status tx s s' :
  execute_transaction_and_commit cp options tx gp cb s = (Ok (), s') →
  ∃ t st, ex_block s' = MkPartialFuelBlock (pb_header (ex_block s)) (pb_transactions (ex_block s) ++ [t])
    ∧ last (tx_status (ex_data s')) = Some st ∧ tx_count (ex_data s') = tx_count (ex_data s) + 1.
Proof.
  intros Hrun. pose proof (kn_execute_transaction cp options tx (id_of cp (maybe_tx tx))
    (pb_header (ex_block s)) cb gp (ex_db s) (ex_data s)) as Hkn. revert Hrun Hkn.
  unfold execute_transaction_and_commit, execute_transaction, st_get, st_lift. rewrite ?bind_case.
  destruct (check_mint_is_not_found _); [|done]. rewrite ?bind_case.
  destruct (check_tx_is_not_duplicate _ _); [|done]. rewrite ?bind_case.
  destruct (convert_maybe_checked_tx_to_checked_tx cp tx _) as [[c|m]|]; [..|done].
  - destruct (execute_chargeable_transaction _ _ _ _ _ _ _) as [[t|] [db d]] eqn:E; [|done].
    destruct (checked_add _ _ _) as [n|] eqn:Hn; [|done]. intros [= <-] _.
    apply execute_chargeable_effect in E as (tx' & st & _ & _ & _ & Hst & _).
    apply fit_Some in Hn as [<- _]. eexists _, _. cbn. by rewrite Hst, last_snoc.
  - destruct (execute_mint _ _ _ _ _ _) as [[t|] [db d]] eqn:E; [|done].
    destruct (checked_add _ _ _) as [n|] eqn:Hn; [|done]. intros [= <-] _.
    apply execute_mint_effect in E as (m' & _ & _ & _ & Hst & _).
    apply fit_Some in Hn as [<- _]. eexists _, _. cbn. by rewrite Hst, last_snoc.
Qed.

Lemma executed_status_some tx s s' :
  execute_transaction_and_commit cp options tx gp cb s = (Ok (), s') → is_Some (executed_status s').
Proof.
  intros (t & st & Hb & Hst & _)%commit_ok_status. unfold executed_status.
  rewrite Hst, Hb. cbn. rewrite last_snoc. by eexists.
Qed.

(** The [expect]s of the loop body cannot fail. *)
Lemma l2_batch_total txs : ∀ s : L2State TS,
  ∃ r s', process_l2_batch cp options try_send gp cb txs s = Some (r, s') ∧ l2_source s' = l2_source s.
Proof.
  assert (∀ tx (s : L2State TS), ∃ r s',
    process_l2_tx cp options try_send gp cb tx s = Some (r, s') ∧ l2_source s' = l2_source s) as Htx.
  { intros tx s. unfold process_l2_tx. destruct (transaction_max_gas _ _); [|by eexists _, _].
    case_decide; [by eexists _, _|]. unfold execute_or_skip.
    destruct (execute_transaction_and_commit _ _ _ _ _ _) as [[[]|e] ex] eqn:E.
    - destruct (executed_status_some _ _ _ E) as [st ->]. by eexists _, _.
    - by eexists _, _. }
  induction txs as [|tx txs IH]; intros s; [by eexists _, _|]. cbn [process_l2_batch].
  destruct (Htx tx s) as (r & s1 & -> & Hs). destruct r; [|by eexists _, _].
  destruct (IH s1) as (r & s2 & -> & Hs2). eexists _, _. split; [done|congruence].
Qed.

(** C29 The loop over the source terminates without a panic whenever the source
    gets smaller each time it delivers something; as many rounds as its size
    are enough. *)
Theorem l2_loop_terminates (size : TS → nat) fuel src sent ex :
  (∀ ts g n z, take (Z.to_nat n) (next ts g n z).1 ≠ [] → (size (next ts g n z).2 < size ts)%nat) →
  (size src < fuel)%nat →
  ∃ r, process_l2_txs cp options try_send gp cb fuel src sent ex = Some r.
Proof.
  intros Hsize Hfuel. unfold process_l2_txs.
  assert (∀ s : L2State TS, (size (l2_source s) < fuel)%nat →
    ∃ r, process_l2_loop cp options try_send gp cb fuel s = Some r) as Hloop.
  { clear Hfuel. induction fuel as [|fuel IH]; intros s Hs; [lia|]. cbn [process_l2_loop].
    unfold next_batch.
    pose proof (Hsize (l2_source s) (remaining_gas_limit s) (remaining_tx_count s)
                  (remaining_block_transaction_size_limit s)) as Hlt.
    destruct (next _ _ _ _) as [l src1]. cbn in Hlt.
    destruct (take _ l) as [|tx txs]; [by eexists|].
    match goal with |- context [process_l2_batch _ _ _ _ _ ?x ?y] =>
      destruct (l2_batch_total x y) as (r & s1 & -> & Hs1) end.
    destruct r; [|by eexists]. apply IH. rewrite Hs1. cbn. specialize (Hlt ltac:(done)). lia. }
  destruct (Hloop (with_remaining cp ex src sent []) Hfuel) as [[r s] ->]. by eexists.
Qed.

Definition pre_tx_pointer (st : PreconfirmationStatus) : option TxPointer :=
  match st with PreSuccess p _ _ _ _ | PreFailure p _ _ _ _ => Some p | SqueezedOut _ => None end.

(** The pointer of a preconfirmation is one past the transaction: a
    transaction that lands at index [n] of the block is announced with index
    [n + 1], because the counter has been incremented by then. *)
Theorem preconfirmation_pointer_off_by_one db0 tx s s' :
  execute_transaction_and_commit cp options tx gp cb s = (Ok (), s') → block_inv cp db0 s →
  let n := length (pb_transactions (ex_block s)) in
  ∃ t st, pb_transactions (ex_block s') !! n = Some t
    ∧ executed_status s' = Some st
    ∧ pre_tx_pointer st
      = Some (height (p_consensus (pb_header (ex_block s))), Z.of_nat n + 1).
Proof.
  intros (t & st & Hb & Hst & Hc)%commit_ok_status Hinv n. exists t.
  unfold executed_status. rewrite Hst, Hb. cbn [pb_transactions pb_header mbind option_bind].
  rewrite last_snoc. cbn [mbind option_bind]. eexists. split; [|split; [done|]].
  - unfold n. by rewrite list_lookup_middle.
  - rewrite Hc, (bi_count _ _ _ Hinv).
    unfold convert_tx_execution_result_to_preconfirmation. by destruct (st_result st).
Qed.

End l2.

(** [OnceTransactionsSource] gets smaller. *)
Lemma once_source_size (txs : list MaybeCheckedTransaction) g n z :
  take (Z.to_nat n) (next txs g n z).1 ≠ [] → (length (next txs g n z).2 < length txs)%nat.
Proof.
  cbn. intros Hne. rewrite length_drop.
  assert (0 < Z.to_nat n)%nat by (destruct (Z.to_nat n); [done|lia]).
  destruct txs; [by rewrite !take_nil in Hne|]. simpl. lia.
Qed.

(** ** Import from the DA layer *)

Definition event_leaf (e : RelayerEvent) : list Z := to_be_bytes 32 (relayer_event_hash e).

(** The messages among the events, imported in order. *)
Definition import_messages (evs : list RelayerEvent) (m : gmap Nonce Message) : gmap Nonce Message :=
  foldl (λ m e, match e with EventMessage x => <[msg_nonce x := x]> m | EventTransaction _ => m end) m evs.

Definition event_at (da : DaBlockHeight) (e : RelayerEvent) : Prop :=
  match e with EventMessage x => msg_da_height x = da | EventTransaction _ => True end.

Lemma da_events_spec h da evs : ∀ acc db d acc' db' d',
  process_da_events cp h da evs acc (db, d) = (Ok acc', (db', d')) →
  acc'.1 = acc.1 ++ (event_leaf <$> evs) ∧ messages db' = import_messages evs (messages db)
  ∧ Forall (event_at da) evs ∧ coins db' = coins db.
Proof.
  induction evs as [|e evs IH]; intros [leaves forced] db d acc' db' d'; cbn [process_da_events].
  - intros [= <- <- <-]. cbn. rewrite app_nil_r. split_and!; [done..|apply Forall_nil_2|done].
  - fold (event_leaf e). destruct e as [m|rtx].
    + rewrite bind_case. case_bool_decide as Hda; [done|]. cbn [fail_if mret ST_ret].
      rewrite !bind_case. unfold modify_db, push_event, modify_data. cbn [fst snd].
      intros (-> & -> & Hf & ->)%IH. cbn. rewrite <- (assoc_L (++)). split_and!; [done|done| |done].
      by constructor.
    + rewrite bind_case. cbn [st_get]. destruct (validate_forced_tx cp rtx h db).
      * intros (-> & -> & Hf & ->)%IH. cbn. rewrite <- (assoc_L (++)). split_and!; [done|done| |done].
        by constructor.
      * rewrite bind_case. unfold push_event, modify_data. cbn [fst snd].
        intros (-> & -> & Hf & ->)%IH. cbn. rewrite <- (assoc_L (++)). split_and!; [done|done| |done].
        by constructor.
Qed.

Lemma da_heights_spec h das : ∀ acc db d acc' db' d',
  process_da_heights relayer cp h das acc (db, d) = (Ok acc', (db', d')) →
  ∃ evss, Forall2 (λ da evs, get_events relayer da = Ok evs ∧ Forall (event_at da) evs) das evss
    ∧ acc'.1 = acc.1 ++ (event_leaf <$> concat evss)
    ∧ messages db' = import_messages (concat evss) (messages db) ∧ coins db' = coins db.
Proof.
  induction das as [|da das IH]; intros acc db d acc' db' d'; cbn [process_da_heights].
  - intros [= <- <- <-]. exists []. cbn. rewrite app_nil_r. split_and!; [constructor|done..].
  - rewrite bind_case. unfold st_lift. destruct (get_events relayer da) as [evs|] eqn:Hev; [|done].
    cbn [map_err]. rewrite bind_case.
    destruct (process_da_events _ _ _ _ _ _) as [[acc1|] [db1 d1]] eqn:E; [|done].
    apply da_events_spec in E as (H1' & H2' & H3' & H4').
    intros (evss & Hf & Ha & Hm & Hc)%IH. exists (evs :: evss). cbn [concat].
    rewrite Ha, H1', fmap_app, (assoc_L (++)), Hm, H2', Hc, H4'.
    split_and!; [by constructor|done| |done].
    unfold import_messages. by rewrite foldl_app.
Qed.

(** The import from the DA layer is complete and ordered: a successful run
    has fetched the events of every DA block after the one of the previous
    block, up to the one of the header; each message was reported for the DA
    block it belongs to; all messages are in the database, later ones replacing
    earlier ones with the same nonce; and the event root of the block is the
    Merkle root over the hashes of all the events, in order. *)
Theorem da_import_complete h da db d txs db' d' :
  process_da relayer cp h da (db, d) = (Ok txs, (db', d')) →
  ∃ prev evss,
    fuel_blocks db !! (h - 1) = Some prev
    ∧ Forall2 (λ k evs, get_events relayer k = Ok evs ∧ Forall (event_at k) evs)
        (let p := da_height (application (header prev)) in seqZ (p + 1) (da - p)) evss
    ∧ messages db' = import_messages (concat evss) (messages db)
    ∧ coins db' = coins db
    ∧ ed_event_inbox_root d' = merkle_root (event_leaf <$> concat evss)
    ∧ no_mint txs.
Proof.
  intros Hrun.
  assert (no_mint txs) as Hno.
  { assert (get_relayed_txs (MkRelayer true (get_events relayer)) cp h da (db, d) = (Ok txs, (db', d')))
      as Hg; [exact Hrun|]. by apply relayed_txs_effect in Hg as [? _]. }
  revert Hrun. unfold process_da. rewrite bind_case. unfold st_lift, checked_sub.
  destruct (fit u32 _) as [ph|] eqn:Hph; [|done]. cbn [ok_or]. apply fit_Some in Hph as [<- _].
  rewrite bind_case. cbn [st_get]. rewrite bind_case.
  destruct (fuel_blocks db !! (h - 1)) as [prev|] eqn:Hprev; [|done]. cbn [ok_or]. rewrite bind_case.
  unfold checked_add. destruct (fit u64 _) as [n|] eqn:Hn; [|done]. cbn [ok_or].
  apply fit_Some in Hn as [<- _]. rewrite bind_case.
  destruct (process_da_heights _ _ _ _ _ _) as [[[leaves forced]|] [db1 d1]] eqn:E; [|done].
  rewrite bind_case. cbn. intros [= <- <- <-].
  apply da_heights_spec in E as (evss & Hf & Hl & Hm & Hc). exists prev, evss. cbn in *.
  rewrite Hl. split_and!; [done| |done..].
  by replace (da - da_height (application (header prev)))
    with (da - (da_height (application (header prev)) + 1) + 1) by lia.
Qed.

End facts.
