(* ===== verification/ExecutorSamples.v ===== *)
(** * The executor on a concrete chain

    A small virtual machine that satisfies the laws, a database with one coin,
    a relayer with a message and a forced transaction, and a producer with
    three candidates of which one spends a coin twice.  The theorems about the
    executor are applied to it. *)
From stdpp Require Import strings.
From S2P Require Import Prelude FuelTypes BlockTypes ExecutorTypes Executor ExecutorFrame ExecutorLedger ExecutorRoundtrip ExecutorAccounting ExecutorFacts.

(** Pays seven units of change and keeps everything else zeroed. *)
Definition sample_outputs (outputs : list Output) : list Output :=
  (λ o, match o with OutputChange to _ asset => OutputChange to 7 asset | o => strip_output o end) <$> outputs.

Definition sample_vm : FuelVm := {|
  tx_id := λ _ tx, match tx with
    | TxChargeable t => 100 + unwrap_or 0 (head (tx_body t))
    | TxMint m => 1000 + (mint_tx_pointer m).2
    end;
  max_gas := λ _ _, 100;
  min_gas := λ _ _, 10;
  max_fee_limit := λ _, 50;
  refund_fee := λ _ _ used gp, Some (50 - Z.min 50 (Z.max 0 gp));
  metered_bytes_size := λ _, 20;
  into_checked_basic := λ _ _ _, None;
  into_checked := λ _ _ _ _, None;
  check_predicates := λ _ _ _, None;
  check_signatures := λ _ _, None;
  into_ready := λ _ _ _ _, None;
  transact := λ _ _ _ _ _ db tx,
    Ok (MkVmResult false (PsReturn 1)
          (MkTx (tx_kind tx) (zero_gas <$> (strip_input <$> tx_inputs tx))
             (sample_outputs (tx_outputs tx)) (tx_expiration tx) (tx_body tx))
          [ReceiptScriptResult 5; ReceiptMessageOut 42; ReceiptOther [2; 1; 9]] (vm_tables db) []);
  balance_increase := λ t _ _ _, Ok t;
  contract_balance_root := λ _ _, 11;
  contract_state_root := λ _ _, 12;
  tx_from_bytes := λ bytes, Some (TxChargeable (MkTx Script [] [] 4294967295 bytes));
  message_id := msg_nonce
|}.

Lemma strip_input_idem i : strip_input (strip_input i) = strip_input i.
Proof. by destruct i. Qed.
Lemma zero_strip_idem i : zero_gas (strip_input (zero_gas (strip_input i))) = zero_gas (strip_input i).
Proof. by destruct i as [[]|[]|[]|[]|[]|[]|[]]. Qed.

Lemma sample_vm_laws : @FuelVmLaws sample_vm.
Proof.
  constructor; try done.
  - by intros c [|].
  - intros b hdr cb gp cp db tx. cbn. do 3 f_equal.
    + rewrite <- !list_fmap_compose. apply list_fmap_ext. intros _ i _. cbn. by rewrite strip_input_idem.
    + unfold sample_outputs. rewrite <- list_fmap_compose. apply list_fmap_ext. by intros _ [] _.
  - intros b hdr cb gp cp db tx r. cbn. intros [= <-]. unfold vm_view, strip_tx, with_inputs. cbn. f_equal.
    + rewrite <- !list_fmap_compose. apply list_fmap_ext. intros _ i _. apply zero_strip_idem.
    + unfold sample_outputs. rewrite <- list_fmap_compose. apply list_fmap_ext. by intros _ [] _.
Qed.

#[local] Existing Instance sample_hashing.
#[local] Existing Instance sample_vm.
#[local] Existing Instance sample_vm_laws.

Definition sample_params : ConsensusParameters := MkConsensusParameters 9 250 100000 0 [].
Definition sample_prev_header : BlockHeader :=
  MkBlockHeader (MkApplicationHeader 7 1 1 (MkGeneratedApplicationFields 0 0 0 0 0))
    (MkConsensusHeader 0 4 1000 (MkGeneratedConsensusFields 0)) None.
Definition sample_db : Db :=
  MkDb {[ (1, 0) := MkCompressedCoin 5 30 0 (2, 0) ]} ∅ {[ 77 := ContractUtxoInfo_default ]} ∅
    {[ 4 := MkBlock sample_prev_header [] ]} (MkVmTables ∅ {[ 1 := sample_params ]} {[ 1 := 0 ]}).

Definition sample_message : Message := MkMessage 21 22 23 24 [] 8.
Definition sample_relayer : Relayer :=
  MkRelayer true (λ da,
    if decide (da = 8)
    then Ok [EventMessage sample_message; EventTransaction (MkRelayedTransaction 1 500 [3] 8)]
    else Ok []).

Definition sample_coin_input : Input := InputCoinSigned (MkCoinInput (1, 0) 5 30 0 (0, 0) 0).
Definition sample_spend (id : Z) : Transaction :=
  TxChargeable (MkTx Script [sample_coin_input] [OutputCoin 6 20 0; OutputChange 5 0 0] 4294967295 [id]).
Definition sample_components : Components (list MaybeCheckedTransaction) :=
  MkComponents (MkPartialBlockHeader (MkApplicationHeader 8 1 1 ()) (MkConsensusHeader 99 5 2000 ()))
    [MaybeUnchecked (sample_spend 1); MaybeChecked (sample_spend 2) 1;
     MaybeUnchecked (TxChargeable (MkTx Script [] [OutputCoin 6 1 0] 4294967295 [4]))] 77 3.
Definition sample_instance : ExecutionInstance := MkExecutionInstance sample_relayer sample_db true.
Definition sample_options : ExecutionOptions := MkExecutionOptions true false.

Definition sample_result : option (result ExecutorError ExecutionResult) :=
  Eval vm_compute in
    produce_without_commit (λ l, []) 1 5 sample_instance sample_components false.
Definition sample_block : Block Transaction :=
  Eval vm_compute in
    match sample_result with
    | Some (Ok r) => res_block r
    | _ => MkBlock sample_prev_header []
    end.

Definition sample_start : ExecState :=
  MkExecState (MkPartialFuelBlock (header_to_produce sample_components) []) sample_db ExecutionData_new.
(** The state at the end of the validation of the produced block. *)
Definition sample_state : ExecState :=
  Eval vm_compute in
    match validate_block sample_relayer sample_params sample_options sample_block sample_db with
    | Ok s => s
    | Err _ => sample_start
    end.
(** The state after the first transaction of the source. *)
Definition sample_after_spend : ExecState :=
  Eval vm_compute in
    (execute_transaction_and_commit sample_params sample_options (MaybeUnchecked (sample_spend 1)) 3 77
       sample_start).2.

(** Without the checks for fake coins, a transaction with a coin input and a
    message input whose message does not exist. *)
Definition sample_half_spend : Transaction :=
  TxChargeable (MkTx Script
    [sample_coin_input; InputMessageDataSigned (MkMessageInput 1 2 1 55 [9] 0)] [] 4294967295 [8]).
Definition sample_lenient : ExecutionInstance := MkExecutionInstance sample_relayer sample_db false.
Definition sample_half_components : Components (list MaybeCheckedTransaction) :=
  MkComponents (header_to_produce sample_components) [MaybeUnchecked sample_half_spend] 77 3.

Lemma sample_produced :
  ∃ res, sample_result = Some (Ok res) ∧ res_block res = sample_block.
Proof. eexists. split; reflexivity. Qed.

Lemma sample_validated :
  validate_block sample_relayer sample_params sample_options sample_block sample_db = Ok sample_state.
Proof. vm_compute. reflexivity. Qed.

Lemma sample_block_inv : block_inv sample_params sample_db sample_start.
Proof. apply block_inv_new. Qed.

Lemma validated_events_replay_witness :
  (∃ kept, replay kept (ledger sample_db) = Some (ledger (ex_db sample_state))
     ∧ kept = events (ex_data sample_state))
  ∧ length (events (ex_data sample_state)) = 5%nat.
Proof.
  split; [|reflexivity].
  destruct (validated_events_replay sample_relayer sample_params sample_options sample_block
              sample_db sample_state eq_refl) as [_ (kept & _ & Hall & Hr)].
  - exact sample_validated.
  - intros n m. cbn. by rewrite lookup_empty.
  - exists kept. split; [exact Hr|]. apply Hall. repeat constructor.
Defined.

Lemma produced_blocks_are_valid_witness :
  ∃ v, validate_without_commit sample_instance sample_block = Ok v
    ∧ length (val_tx_status v) = 4%nat.
Proof.
  destruct sample_result as [[res|]|] eqn:E; [|discriminate E|discriminate E].
  destruct (produced_blocks_are_valid (λ l, []) 1 5 sample_instance sample_components res sample_params
    (λ _, True)) as (v & Hv & _ & Hst & _).
  - rewrite <- E. vm_compute. reflexivity.
  - reflexivity.
  - intros ts g n z _. split; [|done]. cbn. apply Forall_forall. by intros [|] _.
  - exact I.
  - injection E as <-. repeat constructor.
  - exists v. injection E as <-. split; [exact Hv|]. by rewrite Hst.
Defined.

Lemma validated_block_accounting_witness :
  coinbase (ex_data sample_state) = fees (tx_status (ex_data sample_state))
  ∧ coinbase (ex_data sample_state) = 6.
Proof.
  split; [|reflexivity].
  apply (validated_block_accounting sample_relayer sample_params sample_options sample_block sample_db).
  - exact sample_validated.
  - repeat constructor.
Defined.

Lemma skipped_transaction_is_isolated_witness :
  ex_db (execute_transaction_and_commit sample_params sample_options
           (MaybeUnchecked (sample_spend 2)) 3 77 sample_after_spend).2 = ex_db sample_after_spend.
Proof.
  destruct (execute_transaction_and_commit _ _ _ _ _ _) as [r s'] eqn:E.
  assert (r = Err (TransactionValidity (CoinDoesNotExist (1, 0)))) as ->.
  { change r with ((r, s').1). rewrite <- E. vm_compute. reflexivity. }
  eapply (skipped_transaction_is_isolated sample_params sample_options _ (MaybeUnchecked (sample_spend 2)) 3 77
    sample_after_spend _ s'); [reflexivity|exact E|cbn; lia|reflexivity].
Defined.

Lemma l2_gas_within_limit_witness :
  ∃ r ex src sent,
    process_l2_txs sample_params sample_options (λ l, []) 3 77 5 (transactions_source sample_components)
      [] sample_start = Some (r, (ex, src, sent))
    ∧ used_gas (ex_data ex) ≤ Z.max 0 250.
Proof.
  destruct (process_l2_txs _ _ _ _ _ _ _ _ _) as [[r [[ex src] sent]]|] eqn:E.
  - exists r, ex, src, sent. split; [done|].
    apply (l2_gas_within_limit sample_params sample_options (λ l, []) 3 77 5
      (transactions_source sample_components) [] sample_start r ex src sent); [|intros c; vm_compute; split; discriminate|exact E].
    split; [intros tx; reflexivity|]. intros b hdr cb gp db tx r' [= <-]. cbn. lia.
  - exfalso. revert E. vm_compute. discriminate.
Defined.

Lemma l2_loop_terminates_witness :
  ∃ r, process_l2_txs sample_params sample_options (λ l, []) 3 77 4
         (transactions_source sample_components) [] sample_start = Some r.
Proof.
  apply (l2_loop_terminates sample_params sample_options (λ l, []) 3 77 length).
  - intros ts g n z. apply once_source_size.
  - cbn. lia.
Defined.

Lemma preconfirmation_pointer_off_by_one_witness :
  ∃ st, executed_status sample_after_spend = Some st ∧ pre_tx_pointer st = Some (5, 1).
Proof.
  destruct (preconfirmation_pointer_off_by_one sample_params sample_options 3 77 sample_db
    (MaybeUnchecked (sample_spend 1)) sample_start sample_after_spend) as (t & st & _ & Hst & Hp).
  - vm_compute. reflexivity.
  - exact sample_block_inv.
  - exists st. split; [exact Hst|exact Hp].
Defined.

Lemma da_import_complete_witness :
  messages (process_da sample_relayer sample_params 5 8 (sample_db, ExecutionData_new)).2.1
  = {[ 23 := sample_message ]}.
Proof.
  destruct (process_da _ _ _ _ _) as [r [db' d']] eqn:E.
  destruct r as [txs|e]; [|exfalso; revert E; vm_compute; discriminate].
  destruct (da_import_complete _ _ _ _ _ _ _ _ _ E) as (prev & evss & Hp & Hf & Hm & _).
  cbn in Hp. injection Hp as <-. cbn. rewrite Hm.
  destruct evss as [|evs [|]]; [by apply Forall2_nil_inv_r in Hf| |].
  - apply Forall2_cons in Hf as [[Hev _] _]. cbn in Hev. injection Hev as <-. reflexivity.
  - apply Forall2_cons in Hf as [_ Hf]. by apply Forall2_nil_inv_l in Hf.
Defined.

(** A skipped transaction can leave events behind.  With the checks for fake
    coins off, a candidate whose message is missing is skipped after its coin
    was consumed: the result of the production then reports the coin as
    consumed although it is still in the database. *)
Theorem skipped_transaction_leaves_events :
  ∃ res coin,
    produce_without_commit (λ l, []) 1 5 sample_lenient sample_half_components false = Some (Ok res)
    ∧ res_skipped_transactions res = [(108, MessageDoesNotExist 55)]
    ∧ CoinConsumed coin ∈ res_events res
    ∧ coins (res_changes res) !! coin_utxo_id coin = coins sample_db !! (1, 0).
Proof.
  eexists _, _. split; [vm_compute; reflexivity|]. split; [vm_compute; reflexivity|]. split.
  - right. left.
  - vm_compute. reflexivity.
Qed.
