(* ===== verification/Transactional.v ===== *)
(** * The key-value storage and its transactions

    [crates/storage]: the traits of a key-value store ([kv_store.rs]), the
    in-memory transaction that collects changes over any store
    ([transactional.rs]), the in-memory store it is tested with and the typed
    tables of the plain blueprint ([codec], [blueprint/plain.rs]).  A
    transaction is itself a store, so transactions nest to any depth. *)
From stdpp Require Import strings sorting.
From S2P Require Import Prelude.

(** Keys and values are byte strings, a column is its number. *)
Abbreviation Key := (list Z).
Abbreviation Value := (list Z).
Abbreviation Column := Z.

Inductive WriteOperation := Insert (value : Value) | Remove.
#[export] Instance WriteOperation_eq_dec : EqDecision WriteOperation.
Proof. solve_decision. Defined.

Inductive StorageError :=
| OutOfBounds (offset buf_len end_ bytes_len : Z)
| Conflict (operation : WriteOperation) (key : Key)
| CodecError (message : string)
| Other (message : string).

(** ** The store *)

(** [KeyValueInspect].  [read] fills the buffer it is given: the second
    component is the buffer afterwards. *)
Class KeyValueInspect (S : Type) := {
  exists_ : S → Key → Column → result StorageError bool;
  size_of_value : S → Key → Column → result StorageError (option Z);
  get : S → Key → Column → result StorageError (option Value);
  read : S → Key → Column → Z → list Z → result StorageError bool * list Z
}.

(** Copies [buf.len()] bytes of the value from [offset] on. *)
Definition read_slice (value : Value) (offset : Z) (buf : list Z) : result StorageError bool * list Z :=
  let bytes_len := Z.of_nat (length value) in
  let buf_len := Z.of_nat (length buf) in
  let end_ := saturating_add usize offset buf_len in
  if decide (end_ > bytes_len) then (Err (OutOfBounds offset buf_len end_ bytes_len), buf)
  else (Ok true, take (length buf) (drop (Z.to_nat offset) value)).

(** The default methods of the trait, in terms of [get]. *)
Definition size_of_value_default (r : result StorageError (option Value)) : result StorageError (option Z) :=
  fmap (M := result StorageError) (fmap (λ value : Value, Z.of_nat (length value))) r.
Definition exists_default (r : result StorageError (option Z)) : result StorageError bool :=
  fmap (M := result StorageError) (λ o : option Z, bool_decide (is_Some o)) r.
Definition read_default (r : result StorageError (option Value)) (offset : Z) (buf : list Z)
    : result StorageError bool * list Z :=
  match r with
  | Err e => (Err e, buf)
  | Ok None => (Ok false, buf)
  | Ok (Some value) => read_slice value offset buf
  end.

(** What a user of a store may rely on: the methods agree with [get]. *)
Class KeyValueLaws (S : Type) `{KeyValueInspect S} := {
  size_of_value_get (s : S) k c : size_of_value s k c = size_of_value_default (get s k c);
  exists_get (s : S) k c : exists_ s k c = exists_default (size_of_value_default (get s k c));
  read_get (s : S) k c offset buf : read s k c offset buf = read_default (get s k c) offset buf
}.

(** ** Changes *)

Abbreviation Tree := (gmap Key WriteOperation).
Abbreviation Changes := (gmap Column Tree).

(** The order of a [HashMap] is unspecified: any enumeration of the columns. *)
Class ColumnOrder := {
  columns : Changes → list (Column * Tree);
  columns_perm ch : columns ch ≡ₚ map_to_list ch
}.

(** The order of a [BTreeMap] with byte strings as keys. *)
Fixpoint bytes_le (a b : Key) : bool :=
  match a, b with
  | [], _ => true
  | _, [] => false
  | x :: a, y :: b => if decide (x = y) then bytes_le a b else bool_decide (x < y)
  end.
Definition entry_le (a b : Key * WriteOperation) : Prop := bytes_le a.1 b.1 = true.
#[export] Instance entry_le_dec a b : Decision (entry_le a b).
Proof. unfold entry_le. apply _. Defined.
Definition entries (t : Tree) : list (Key * WriteOperation) := merge_sort entry_le (map_to_list t).

(** ** The in-memory transaction *)

(** [Modifiable] *)
Class Modifiable (S : Type) := commit_changes : Changes → ST S StorageError unit.

Inductive ConflictPolicy := Fail | Overwrite.

Record InMemoryTransaction (S : Type) := MkTransaction {
  changes : Changes;
  policy : ConflictPolicy;
  storage : S
}.
Arguments MkTransaction {S}.
Arguments changes {S}.
Arguments policy {S}.
Arguments storage {S}.

(** [self.changes.entry(column).or_default()] followed by an insertion. *)
Definition insert_operation (c : Column) (k : Key) (v : WriteOperation) (ch : Changes) : Changes :=
  <[c := <[k := v]> (unwrap_or ∅ (ch !! c))]> ch.

Section transaction.
Context {S : Type}.

Definition transaction (s : S) (p : ConflictPolicy) (ch : Changes) : InMemoryTransaction S :=
  MkTransaction ch p s.
Definition with_policy (p : ConflictPolicy) (self : InMemoryTransaction S) : InMemoryTransaction S :=
  MkTransaction (changes self) p (storage self).
Definition with_changes (ch : Changes) (self : InMemoryTransaction S) : InMemoryTransaction S :=
  MkTransaction ch (policy self) (storage self).
Definition reset_changes (self : InMemoryTransaction S) : InMemoryTransaction S :=
  with_changes ∅ self.
(** [into_transaction], [read_transaction] and [write_transaction] *)
Definition into_transaction (s : S) : InMemoryTransaction S := transaction s Overwrite ∅.

Definition get_from_changes (self : InMemoryTransaction S) (key : Key) (column : Column)
    : option WriteOperation :=
  changes self !! column ≫= λ btree, btree !! key.

#[export] Instance transaction_inspect `{KeyValueInspect S} : KeyValueInspect (InMemoryTransaction S) := {|
  exists_ self key column :=
    match get_from_changes self key column with
    | Some (Insert _) => Ok true
    | Some Remove => Ok false
    | None => exists_ (storage self) key column
    end;
  size_of_value self key column :=
    match get_from_changes self key column with
    | Some (Insert value) => Ok (Some (Z.of_nat (length value)))
    | Some Remove => Ok None
    | None => size_of_value (storage self) key column
    end;
  get self key column :=
    match get_from_changes self key column with
    | Some (Insert value) => Ok (Some value)
    | Some Remove => Ok None
    | None => get (storage self) key column
    end;
  read self key column offset buf :=
    match get_from_changes self key column with
    | Some (Insert value) => read_slice value offset buf
    | Some Remove => (Ok false, buf)
    | None => read (storage self) key column offset buf
    end
|}.

Definition put (key : Key) (column : Column) (value : Value)
    : ST (InMemoryTransaction S) StorageError unit :=
  st_modify (λ self : InMemoryTransaction S,
    with_changes (insert_operation column key (Insert value) (changes self)) self).

(** Replaces the operation for the key; the old one says what was there, and
    without one the store below is asked. *)
Definition exchange `{KeyValueInspect S} (key : Key) (column : Column) (new : WriteOperation)
    : ST (InMemoryTransaction S) StorageError (option Value) := λ self,
  let self' := with_changes (insert_operation column key new (changes self)) self in
  match get_from_changes self key column with
  | Some (Insert value) => (Ok (Some value), self')
  | Some Remove => (Ok None, self')
  | None => (get (storage self) key column, self')
  end.

Definition replace `{KeyValueInspect S} (key : Key) (column : Column) (value : Value) :=
  exchange key column (Insert value).
Definition take_ `{KeyValueInspect S} (key : Key) (column : Column) := exchange key column Remove.

Definition write (key : Key) (column : Column) (buf : list Z)
    : ST (InMemoryTransaction S) StorageError Z := λ self,
  (Ok (Z.of_nat (length buf)),
   with_changes (insert_operation column key (Insert buf) (changes self)) self).

Definition delete_ (key : Key) (column : Column) : ST (InMemoryTransaction S) StorageError unit :=
  st_modify (λ self : InMemoryTransaction S,
    with_changes (insert_operation column key Remove (changes self)) self).

Definition batch_write (column : Column) (ops : list (Key * WriteOperation))
    : ST (InMemoryTransaction S) StorageError unit :=
  st_modify (λ self : InMemoryTransaction S,
    with_changes (<[column := foldl (λ btree '(k, v), <[k := v]> btree)
                    (unwrap_or ∅ (changes self !! column)) ops]> (changes self)) self).

(** The inner loop of [commit_changes], on the tree of a column. *)
Fixpoint commit_entries (p : ConflictPolicy) (ops : list (Key * WriteOperation))
    : ST Tree StorageError unit :=
  match ops with
  | [] => mret ()
  | (k, v) :: ops => λ btree,
      match p with
      | Fail =>
          match btree !! k with
          | Some _ => (Err (Conflict v k), btree)
          | None => commit_entries p ops (<[k := v]> btree)
          end
      | Overwrite => commit_entries p ops (<[k := v]> btree)
      end
  end.

Definition commit_column (cv : Column * Tree) : ST (InMemoryTransaction S) StorageError unit := λ self,
  let '(column, value) := cv in
  match changes self !! column with
  | None => (Ok (), with_changes (<[column := value]> (changes self)) self)
  | Some btree =>
      let '(r, btree') := commit_entries (policy self) (entries value) btree in
      (r, with_changes (<[column := btree']> (changes self)) self)
  end.

#[export] Instance transaction_modifiable `{ColumnOrder} : Modifiable (InMemoryTransaction S) := λ ch,
  st_for commit_column (columns ch).

(** [commit] of a transaction over a modifiable store: the store afterwards. *)
Definition commit `{Modifiable S} (self : InMemoryTransaction S) : result StorageError unit * S :=
  commit_changes (changes self) (storage self).
End transaction.

(** ** The store the transactions are tested with *)
Abbreviation InMemoryStorage := (gmap (Column * Key) Value).
#[export] Instance in_memory_inspect : KeyValueInspect InMemoryStorage := {|
  exists_ s k c := exists_default (size_of_value_default (Ok (s !! (c, k))));
  size_of_value s k c := size_of_value_default (Ok (s !! (c, k)));
  get s k c := Ok (s !! (c, k));
  read s k c offset buf := read_default (Ok (s !! (c, k))) offset buf
|}.
#[export] Instance in_memory_laws : KeyValueLaws InMemoryStorage.
Proof. by constructor. Qed.

Definition apply_operation (c : Column) (s : InMemoryStorage) (kv : Key * WriteOperation) : InMemoryStorage :=
  match kv.2 with Insert v => <[(c, kv.1) := v]> s | Remove => delete (c, kv.1) s end.
#[export] Instance in_memory_modifiable `{ColumnOrder} : Modifiable InMemoryStorage := λ ch s,
  (Ok (), foldl (λ s '(c, t), foldl (apply_operation c) s (entries t)) s (columns ch)).
