(* ===== verification/TransactionalFacts.v ===== *)
(** * Storage transactions behave like maps

    A transaction over a store is a map with the changes applied to the
    contents of the store ([transaction_refines_map]); committing a transaction
    makes its view the view of the store below, at any depth of nesting
    ([commit_overwrite]); and under the failing policy a commit detects exactly
    the keys that were changed on both sides ([commit_fail]). *)
From stdpp Require Import strings sorting.
From S2P Require Import Prelude Transactional.

(** ** The order of bytes *)
Lemma bytes_le_refl a : bytes_le a a = true.
Proof. induction a as [|x a IH]; [done|]. cbn. by rewrite decide_True. Qed.
Lemma bytes_le_total a b : bytes_le a b = true ∨ bytes_le b a = true.
Proof.
  revert b. induction a as [|x a IH]; intros [|y b]; cbn; [by left..|by right|]. case_decide; subst.
  - rewrite decide_True by done. apply IH.
  - rewrite decide_False by done. rewrite !bool_decide_eq_true. lia.
Qed.
Lemma bytes_le_antisym a b : bytes_le a b = true → bytes_le b a = true → a = b.
Proof.
  revert b. induction a as [|x a IH]; intros [|y b]; cbn; try done. case_decide as H; subst.
  - rewrite decide_True by done. intros. f_equal. by apply IH.
  - rewrite decide_False by done. rewrite !bool_decide_eq_true. lia.
Qed.
Lemma bytes_le_trans a b c : bytes_le a b = true → bytes_le b c = true → bytes_le a c = true.
Proof.
  revert b c. induction a as [|x a IH]; intros [|y b] [|z c]; cbn; try done.
  repeat case_decide; subst; rewrite ?bool_decide_eq_true; try done; try lia. apply IH.
Qed.
#[export] Instance entry_le_total : Total entry_le.
Proof. intros a b. apply bytes_le_total. Qed.
#[export] Instance entry_le_trans : Transitive entry_le.
Proof. intros a b c. apply bytes_le_trans. Qed.

Lemma bytes_le_app a b x y :
  (a `prefix_of` b → a = b) → (b `prefix_of` a → a = b) →
  bytes_le (a ++ x) (b ++ y) = if decide (a = b) then bytes_le x y else bytes_le a b.
Proof.
  revert b. induction a as [|u a IH]; intros [|v b] H1 H2; cbn.
  - done.
  - by specialize (H1 (prefix_nil _)).
  - by specialize (H2 (prefix_nil _)).
  - case_decide as H; [subst|by rewrite decide_False by congruence].
    rewrite IH; [|intros Hp; apply (prefix_cons v) in Hp; naive_solver..].
    destruct (decide (a = b)) as [->|Hne]; [by rewrite decide_True|]. by rewrite decide_False by congruence.
Qed.

Abbreviation Ops := (gmap (Column * Key) WriteOperation).
Abbreviation Contents := (gmap (Column * Key) Value).

(** The changes of all columns in one map. *)
Definition flatten (ch : Changes) : Ops :=
  map_uncurry (M1 := gmap Column) (M2 := gmap Key) (M12 := gmap (Column * Key)) ch.
(** The contents of a store after changes. *)
Definition overlay (ops : Ops) (m : Contents) : Contents :=
  merge (λ (o : option WriteOperation) (v : option Value),
    match o with Some (Insert x) => Some x | Some Remove => None | None => v end) ops m.
(** A store that never fails and holds [m]. *)
Definition reads `{KeyValueInspect St} (s : St) (m : Contents) : Prop :=
  ∀ k c, get s k c = Ok (m !! (c, k)).

(** ** The operations of a store and their effect on a map *)
Inductive Op :=
| OpGet (k : Key) (c : Column)
| OpExists (k : Key) (c : Column)
| OpSize (k : Key) (c : Column)
| OpRead (k : Key) (c : Column) (offset : Z) (buf : list Z)
| OpPut (k : Key) (c : Column) (v : Value)
| OpReplace (k : Key) (c : Column) (v : Value)
| OpWrite (k : Key) (c : Column) (buf : list Z)
| OpTake (k : Key) (c : Column)
| OpDelete (k : Key) (c : Column)
| OpBatch (c : Column) (ops : list (Key * WriteOperation)).

Inductive OpResult :=
| RUnit
| RValue (v : option Value)
| RBool (b : bool)
| RSize (n : option Z)
| RWritten (n : Z)
| RRead (r : result StorageError bool * list Z).

Definition run_op `{KeyValueInspect St} (op : Op) : ST (InMemoryTransaction St) StorageError OpResult := λ t,
  match op with
  | OpGet k c => (RValue <$> get t k c, t)
  | OpExists k c => (RBool <$> exists_ t k c, t)
  | OpSize k c => (RSize <$> size_of_value t k c, t)
  | OpRead k c offset buf => (Ok (RRead (read t k c offset buf)), t)
  | OpPut k c v => (put k c v ≫= λ _, mret RUnit) t
  | OpReplace k c v => (replace k c v ≫= λ r, mret (RValue r)) t
  | OpWrite k c buf => (write k c buf ≫= λ n, mret (RWritten n)) t
  | OpTake k c => (take_ k c ≫= λ r, mret (RValue r)) t
  | OpDelete k c => (delete_ k c ≫= λ _, mret RUnit) t
  | OpBatch c ops => (batch_write c ops ≫= λ _, mret RUnit) t
  end.
Fixpoint run_ops `{KeyValueInspect St} (ops : list Op) : ST (InMemoryTransaction St) StorageError (list OpResult) :=
  match ops with
  | [] => mret []
  | op :: ops => r ← run_op op; rs ← run_ops ops; mret (r :: rs)
  end.

Definition spec_op (op : Op) (m : Contents) : OpResult * Contents :=
  match op with
  | OpGet k c => (RValue (m !! (c, k)), m)
  | OpExists k c => (RBool (bool_decide (is_Some (m !! (c, k)))), m)
  | OpSize k c => (RSize ((λ v : Value, Z.of_nat (length v)) <$> m !! (c, k)), m)
  | OpRead k c offset buf =>
      (RRead (match m !! (c, k) with Some v => read_slice v offset buf | None => (Ok false, buf) end), m)
  | OpPut k c v => (RUnit, <[(c, k) := v]> m)
  | OpReplace k c v => (RValue (m !! (c, k)), <[(c, k) := v]> m)
  | OpWrite k c buf => (RWritten (Z.of_nat (length buf)), <[(c, k) := buf]> m)
  | OpTake k c => (RValue (m !! (c, k)), delete (c, k) m)
  | OpDelete k c => (RUnit, delete (c, k) m)
  | OpBatch c ops => (RUnit, foldl (apply_operation c) m ops)
  end.
Fixpoint spec_ops (ops : list Op) (m : Contents) : list OpResult * Contents :=
  match ops with
  | [] => ([], m)
  | op :: ops =>
      let '(r, m) := spec_op op m in
      let '(rs, m) := spec_ops ops m in (r :: rs, m)
  end.

(** ** Flattened changes *)
Lemma flatten_lookup ch c k : flatten ch !! (c, k) = ch !! c ≫= λ t, t !! k.
Proof. apply (lookup_map_uncurry (M1 := gmap Column) (M2 := gmap Key) (MC := gmap (Column * Key))). Qed.

Lemma get_from_changes_flatten {St} (t : InMemoryTransaction St) k c :
  get_from_changes t k c = flatten (changes t) !! (c, k).
Proof. by rewrite flatten_lookup. Qed.

Lemma flatten_insert_operation c k v ch :
  flatten (insert_operation c k v ch) = <[(c, k) := v]> (flatten ch).
Proof.
  apply map_eq. intros [c' k']. unfold insert_operation. rewrite flatten_lookup.
  destruct (decide (c' = c)) as [->|Hc].
  - rewrite lookup_insert_eq. simpl. destruct (decide (k' = k)) as [->|Hk].
    + by rewrite !lookup_insert_eq.
    + rewrite !lookup_insert_ne, flatten_lookup by congruence. by destruct (ch !! c).
  - by rewrite !lookup_insert_ne, flatten_lookup by congruence.
Qed.

Lemma overlay_lookup ops m p :
  overlay ops m !! p
  = match ops !! p with Some (Insert x) => Some x | Some Remove => None | None => m !! p end.
Proof. unfold overlay. rewrite lookup_merge. by destruct (ops !! p) as [[]|], (m !! p). Qed.

Lemma overlay_empty m : overlay ∅ m = m.
Proof. apply map_eq. intros p. by rewrite overlay_lookup, lookup_empty. Qed.

Lemma overlay_insert ops m c k v :
  overlay (<[(c, k) := v]> ops) m = apply_operation c (overlay ops m) (k, v).
Proof.
  apply map_eq. intros p. rewrite overlay_lookup. unfold apply_operation. cbn.
  destruct (decide (p = (c, k))) as [->|Hp].
  - rewrite lookup_insert_eq. destruct v; by rewrite ?lookup_insert_eq, ?lookup_delete_eq.
  - rewrite lookup_insert_ne by congruence.
    destruct v; by rewrite ?lookup_insert_ne, ?lookup_delete_ne, overlay_lookup by congruence.
Qed.

Lemma overlay_union a b m : overlay (a ∪ b) m = overlay a (overlay b m).
Proof.
  apply map_eq. intros p. rewrite !overlay_lookup, lookup_union. by destruct (a !! p) as [[]|], (b !! p) as [[]|].
Qed.

Lemma flatten_batch c ops : ∀ ch,
  flatten (<[c := foldl (λ btree '(k, v), <[k := v]> btree) (unwrap_or ∅ (ch !! c)) ops]> ch)
  = foldl (λ f '(k, v), <[(c, k) := v]> f) (flatten ch) ops.
Proof.
  induction ops as [|[k v] ops IH]; intros ch; simpl.
  - apply map_eq. intros [c' k']. rewrite !flatten_lookup. destruct (decide (c' = c)) as [->|].
    + rewrite lookup_insert_eq. simpl. by destruct (ch !! c).
    + by rewrite lookup_insert_ne.
  - rewrite <- flatten_insert_operation, <- IH. unfold insert_operation.
    by rewrite lookup_insert_eq, insert_insert_eq.
Qed.

Lemma overlay_batch c ops : ∀ f m,
  overlay (foldl (λ f '(k, v), <[(c, k) := v]> f) f ops) m = foldl (apply_operation c) (overlay f m) ops.
Proof.
  induction ops as [|[k v] ops IH]; intros f m; simpl; [done|]. by rewrite IH, overlay_insert.
Qed.

(** ** A transaction is a store *)
#[export] Instance transaction_laws `{KeyValueLaws St} : KeyValueLaws (InMemoryTransaction St).
Proof.
  constructor; intros s k c; cbn; intros; destruct (get_from_changes s k c) as [[]|]; cbn; try done.
  - apply size_of_value_get.
  - apply exists_get.
  - apply read_get.
Qed.

Lemma transaction_reads `{KeyValueInspect St} (t : InMemoryTransaction St) m :
  reads (storage t) m → reads t (overlay (flatten (changes t)) m).
Proof.
  intros Hm k c. cbn. rewrite overlay_lookup, get_from_changes_flatten, Hm.
  by destruct (flatten (changes t) !! (c, k)) as [[]|].
Qed.

Section refinement.
Context `{KeyValueLaws St}.
Implicit Types t : InMemoryTransaction St.

Lemma exchange_spec t m k c v :
  reads t (overlay (flatten (changes t)) m) →
  exchange k c v t
  = (Ok (overlay (flatten (changes t)) m !! (c, k)),
     with_changes (insert_operation c k v (changes t)) t).
Proof.
  intros Hm. specialize (Hm k c). cbn in Hm. unfold exchange.
  destruct (get_from_changes t k c) as [[]|]; by rewrite <- ?Hm; simplify_eq.
Qed.

Lemma run_op_spec op t m :
  reads (storage t) m →
  ∃ t', run_op op t = (Ok (spec_op op (overlay (flatten (changes t)) m)).1, t')
    ∧ storage t' = storage t ∧ policy t' = policy t
    ∧ overlay (flatten (changes t')) m = (spec_op op (overlay (flatten (changes t)) m)).2.
Proof.
  intros Hs. pose proof (transaction_reads t m Hs) as Hm.
  destruct op; cbn [run_op spec_op fst snd]; unfold replace, take_;
    try (exists t; rewrite ?exists_get, ?size_of_value_get, ?read_get, Hm; cbn;
         split; [try done; by destruct (_ !! _)|done]).
  all: rewrite ?bind_case; rewrite ?(exchange_spec t m) by done.
  all: eexists; split; [reflexivity|]; cbn; split; [done|split; [done|]].
  all: by rewrite ?flatten_batch, ?overlay_batch, ?flatten_insert_operation, ?overlay_insert.
Qed.

(** C14 Any sequence of storage operations on a transaction returns exactly what
    it would return on a plain map that holds the contents of the store below
    with the changes applied, never fails, leaves the store below untouched,
    and its changes describe exactly the map at the end.  Reads, existence,
    sizes and bounded reads are included, and the store below may be another
    transaction. *)
Theorem transaction_refines_map ops t m :
  reads (storage t) m →
  ∃ t', run_ops ops t = (Ok (spec_ops ops (overlay (flatten (changes t)) m)).1, t')
    ∧ storage t' = storage t ∧ policy t' = policy t
    ∧ reads t' (spec_ops ops (overlay (flatten (changes t)) m)).2.
Proof.
  revert t. induction ops as [|op ops IH]; intros t Hm; cbn [run_ops spec_ops].
  - exists t. repeat (split; [done|]). by apply transaction_reads.
  - destruct (run_op_spec op t m Hm) as (t1 & Hrun & Hs & Hp & Ho).
    destruct (IH t1) as (t2 & Hrun2 & Hs2 & Hp2 & Hr2); [by rewrite Hs|].
    exists t2. rewrite bind_case, Hrun, bind_case, Hrun2.
    destruct (spec_op op _) as [r m1]. cbn in Ho |- *. rewrite Ho in *.
    destruct (spec_ops ops m1) as [rs m2]. cbn in *.
    repeat split; congruence || done.
Qed.
End refinement.

(** ** Committing changes *)

(** The outcome [r] of committing the operations [ops] over [f], giving [f']:
    a failing commit keeps everything that was there and adds some of [ops]. *)
Definition commit_spec (p : ConflictPolicy) `{FinMap K M} (r : result StorageError unit)
    (ops f f' : M WriteOperation) : Prop :=
  match p with
  | Overwrite => r = Ok () ∧ f' = ops ∪ f
  | Fail => f ⊆ f' ∧ f' ⊆ f ∪ ops ∧ (r = Ok () ↔ ops ##ₘ f) ∧ (r = Ok () → f' = ops ∪ f)
  end.

Section commit_spec.
Context `{FinMap K M}.
Implicit Types ops f : M WriteOperation.

Lemma commit_spec_ok p ops f : (p = Fail → ops ##ₘ f) → commit_spec p (Ok ()) ops f (ops ∪ f).
Proof.
  intros Hd. destruct p; [|done]. specialize (Hd eq_refl).
  split; [by apply map_union_subseteq_r|]. split; [by rewrite map_union_comm|done].
Qed.

Lemma commit_spec_seq p r ops1 ops2 f f1 f2 :
  ops1 ##ₘ ops2 → commit_spec p (Ok ()) ops1 f f1 → commit_spec p r ops2 f1 f2 →
  commit_spec p r (ops1 ∪ ops2) f f2.
Proof.
  intros Hd. destruct p; intros Ha Hb.
  - destruct Ha as (Hsub1 & _ & [Hok1 _] & Heq1). specialize (Hok1 eq_refl). specialize (Heq1 eq_refl). subst f1.
    destruct Hb as (Hsub2 & Hsup2 & Hiff & Heq2). split; [by etrans|].
    rewrite map_union_assoc, (map_union_comm f ops1) by done. split; [done|].
    split.
    + rewrite Hiff, map_disjoint_union_r, map_disjoint_union_l. split; [tauto|]. intros [? ?].
      split; [by symmetry|done].
    + intros ->. rewrite Heq2 by done. by rewrite map_union_assoc, (map_union_comm ops2 ops1).
  - destruct Ha as [_ ->], Hb as [-> ->]. split; [done|].
    by rewrite map_union_assoc, (map_union_comm ops2 ops1).
Qed.

Lemma commit_spec_err p e ops1 ops2 f f1 :
  commit_spec p (Err e) ops1 f f1 → commit_spec p (Err e) (ops1 ∪ ops2) f f1.
Proof.
  destruct p; [|by intros [? _]]. intros (Hsub & Hsup & Hiff & _). split; [done|]. split.
  - etrans; [exact Hsup|]. apply map_union_mono_l, map_union_subseteq_l.
  - split; [|done]. split; [done|]. rewrite map_disjoint_union_l. intros [Ha _]. by apply Hiff in Ha.
Qed.
End commit_spec.

Lemma commit_entries_spec p ops : ∀ t r t',
  NoDup ops.*1 → commit_entries p ops t = (r, t') → commit_spec p r (list_to_map ops) t t'.
Proof.
  induction ops as [|[k v] ops IH]; intros t r t'; cbn [commit_entries list_to_map fmap list_fmap].
  - intros _ [= <- <-]. rewrite <- (left_id_L ∅ (∪) t) at 2. apply commit_spec_ok.
    intros _. apply map_disjoint_empty_l.
  - intros [Hk Hnd]%NoDup_cons Hrun.
    assert (list_to_map ops !! k = @None WriteOperation) as Hnone by by apply not_elem_of_list_to_map_1.
    cbn. rewrite insert_union_singleton_l.
    assert ({[k := v]} ##ₘ (list_to_map ops : Tree)) as Hd by by apply map_disjoint_singleton_l.
    assert (∀ Hn : p = Fail → t !! k = None, commit_spec p (Ok ()) {[k := v]} t (<[k := v]> t)) as Hone.
    { intros Hn. rewrite insert_union_singleton_l. apply commit_spec_ok.
      intros Hp. by apply map_disjoint_singleton_l, Hn. }
    destruct p; [|by eapply commit_spec_seq; [done|apply Hone|apply IH]].
    destruct (t !! k) as [w|] eqn:Et; [|by eapply commit_spec_seq; [done|apply Hone|apply IH]].
    injection Hrun as <- <-. apply commit_spec_err. split; [done|]. split; [apply map_union_subseteq_l|].
    split; [|done]. split; [done|]. intros ?%map_disjoint_singleton_l. congruence.
Qed.

Lemma entries_keys t : NoDup (entries t).*1.
Proof.
  unfold entries. rewrite (fmap_Permutation _ _ _ (merge_sort_Permutation entry_le (map_to_list t))).
  apply NoDup_fst_map_to_list.
Qed.

Lemma entries_map t : list_to_map (entries t) = t.
Proof.
  rewrite (list_to_map_proper (entries t) (map_to_list t)); [apply list_to_map_to_list|apply entries_keys|].
  apply merge_sort_Permutation.
Qed.

(** The operations of one column. *)
Definition in_column (c : Column) (t : Tree) : Ops := flatten {[c := t]}.

Lemma in_column_lookup c t c' k :
  in_column c t !! (c', k) = if decide (c' = c) then t !! k else None.
Proof.
  unfold in_column. rewrite flatten_lookup. case_decide as E; subst.
  - by rewrite lookup_singleton_eq.
  - by rewrite lookup_singleton_ne.
Qed.

Lemma flatten_lookup_insert c t ch c' k :
  flatten (<[c := t]> ch) !! (c', k) = if decide (c' = c) then t !! k else flatten ch !! (c', k).
Proof.
  rewrite !flatten_lookup. case_decide as E; subst; by rewrite ?lookup_insert_eq, ?lookup_insert_ne.
Qed.

Lemma flatten_insert_new c t ch :
  ch !! c = None → flatten (<[c := t]> ch) = in_column c t ∪ flatten ch ∧ in_column c t ##ₘ flatten ch.
Proof.
  intros Hc. split.
  - apply map_eq. intros [c' k]. rewrite flatten_lookup_insert, lookup_union, in_column_lookup, flatten_lookup.
    case_decide; subst; [rewrite Hc; cbn; by destruct (t !! k)|]. by destruct (ch !! c' ≫= _).
  - apply map_disjoint_spec. intros [c' k] x y. rewrite in_column_lookup, flatten_lookup.
    case_decide; subst; by rewrite ?Hc.
Qed.

Lemma commit_spec_column p r c t b b' ch :
  ch !! c = Some b → commit_spec p r t b b' →
  commit_spec p r (in_column c t) (flatten ch) (flatten (<[c := b']> ch)).
Proof.
  intros Hc. assert (∀ k, flatten ch !! (c, k) = b !! k) as Hb by (intros k; by rewrite flatten_lookup, Hc).
  assert (b' = t ∪ b → flatten (<[c := b']> ch) = in_column c t ∪ flatten ch) as Hu.
  { intros ->. apply map_eq. intros [c' k]. rewrite flatten_lookup_insert, !lookup_union, in_column_lookup.
    case_decide; subst; [by rewrite Hb|]. by rewrite (left_id_L None _). }
  destruct p; [|intros [-> ?]; split; [done|by apply Hu]].
  intros (Hsub & Hsup & Hiff & Heq). split; [|split; [|split]].
  - apply map_subseteq_spec. intros [c' k] x. rewrite flatten_lookup_insert. case_decide; subst; [|done].
    rewrite Hb. intros Hx. by apply (lookup_weaken b).
  - apply map_subseteq_spec. intros [c' k] x. rewrite flatten_lookup_insert, lookup_union, in_column_lookup.
    case_decide; subst; [|by rewrite (right_id_L None _)]. rewrite Hb, <- lookup_union. intros Hx. by apply (lookup_weaken b').
  - rewrite Hiff. split; intros Hd; apply map_disjoint_spec.
    + intros [c' k] x y. rewrite in_column_lookup. case_decide; subst; [|done]. rewrite Hb.
      intros ??. by eapply map_disjoint_spec.
    + intros k x y Hx Hy. apply (map_disjoint_spec (in_column c t) (flatten ch)) with (c, k) x y in Hd; [done| |by rewrite Hb].
      rewrite in_column_lookup. by rewrite decide_True.
  - intros Hr. by apply Hu, Heq.
Qed.

Lemma get_overlay `{KeyValueInspect St} (t : InMemoryTransaction St) k c :
  get t k c = match flatten (changes t) !! (c, k) with
              | Some (Insert v) => Ok (Some v)
              | Some Remove => Ok None
              | None => get (storage t) k c
              end.
Proof. cbn. by rewrite get_from_changes_flatten. Qed.

Section commit.
Context `{ColumnOrder} {St : Type}.
Implicit Types t : InMemoryTransaction St.

Lemma commit_column_spec c b t r t' :
  commit_column (c, b) t = (r, t') →
  commit_spec (policy t) r (in_column c b) (flatten (changes t)) (flatten (changes t'))
  ∧ policy t' = policy t ∧ storage t' = storage t.
Proof.
  unfold commit_column. destruct (changes t !! c) as [b0|] eqn:Hc.
  - destruct (commit_entries _ _ _) as [r' b'] eqn:E. intros [= <- <-]. cbn. split; [|done].
    eapply commit_spec_column; [done|]. apply commit_entries_spec in E; [|apply entries_keys].
    by rewrite entries_map in E.
  - intros [= <- <-]. cbn. split; [|done]. destruct (flatten_insert_new c b _ Hc) as [-> Hd].
    by apply commit_spec_ok.
Qed.

Lemma commit_columns_spec l : ∀ t r t',
  NoDup l.*1 → st_for commit_column l t = (r, t') →
  commit_spec (policy t) r (flatten (list_to_map l)) (flatten (changes t)) (flatten (changes t'))
  ∧ policy t' = policy t ∧ storage t' = storage t.
Proof.
  induction l as [|[c b] l IH]; intros t r t'; cbn [st_for].
  - intros _ [= <- <-]. split; [|done]. rewrite <- (left_id_L ∅ (∪) (flatten (changes t))) at 2.
    apply commit_spec_ok. intros _. apply map_disjoint_empty_l.
  - intros [Hc Hnd]%NoDup_cons. rewrite bind_case.
    destruct (commit_column (c, b) t) as [[u|e] t1] eqn:E1.
    all: apply commit_column_spec in E1 as (Hs1 & Hp1 & Hst1).
    all: destruct (flatten_insert_new c b (list_to_map l)) as [Hf Hd];
      [by apply not_elem_of_list_to_map_1|]; rewrite list_to_map_cons; cbn [fst snd]; rewrite Hf.
    + destruct u. intros (Hs2 & Hp2 & Hst2)%IH; [|done]. rewrite Hp1 in Hs2.
      split; [by eapply commit_spec_seq|]. split; congruence.
    + intros [= <- <-]. split; [by apply commit_spec_err|done].
Qed.

Lemma commit_changes_spec ch t r t' :
  commit_changes ch t = (r, t') →
  commit_spec (policy t) r (flatten ch) (flatten (changes t)) (flatten (changes t'))
  ∧ policy t' = policy t ∧ storage t' = storage t.
Proof.
  assert (NoDup (columns ch).*1) as Hnd.
  { rewrite (fmap_Permutation _ _ _ (columns_perm ch)). apply NoDup_fst_map_to_list. }
  intros Hrun. apply commit_columns_spec in Hrun; [|done].
  assert (list_to_map (columns ch) = ch) as Heq; [|by rewrite Heq in Hrun].
  rewrite (list_to_map_proper _ _ Hnd (columns_perm ch)). apply list_to_map_to_list.
Qed.

Lemma get_merged `{KeyValueInspect St} (t : InMemoryTransaction (InMemoryTransaction St)) t' :
  flatten (changes t') = flatten (changes t) ∪ flatten (changes (storage t)) →
  storage t' = storage (storage t) → ∀ k c, get t' k c = get t k c.
Proof.
  intros Hf Hst k c. rewrite get_overlay, (get_overlay t), (get_overlay (storage t)), Hf, Hst, lookup_union.
  by destruct (flatten (changes t) !! _) as [[]|], (flatten (changes (storage t)) !! _) as [[]|].
Qed.

(** Committing a transaction into the transaction below it always succeeds
    under the overwriting policy: afterwards the one below shows, for every
    key, what the committed one showed, and the store at the bottom has not
    been touched. *)
Theorem commit_overwrite `{KeyValueInspect St} (t : InMemoryTransaction (InMemoryTransaction St)) :
  policy (storage t) = Overwrite →
  ∃ t', commit t = (Ok (), t') ∧ storage t' = storage (storage t) ∧ policy t' = Overwrite
    ∧ ∀ k c, get t' k c = get t k c.
Proof.
  intros Hp. unfold commit. destruct (commit_changes (changes t) (storage t)) as [r t'] eqn:E.
  apply commit_changes_spec in E as (Hs & Hpol & Hst). rewrite Hp in Hs, Hpol. destruct Hs as [-> Hf].
  exists t'. repeat split; try done. by apply get_merged.
Qed.

(** Under the failing policy a commit succeeds exactly when no key was
    changed on both sides.  If it succeeds, the store below shows what the
    transaction showed; if not, the store below still has every change it had,
    and has taken over some of the others.  In particular two transactions
    that were started from the same store and changed different keys can be
    committed in either order, with the same result. *)
Theorem commit_fail `{KeyValueInspect St} (t : InMemoryTransaction (InMemoryTransaction St)) r t' :
  policy (storage t) = Fail → commit t = (r, t') →
  (r = Ok () ↔ flatten (changes t) ##ₘ flatten (changes (storage t)))
  ∧ (r = Ok () → ∀ k c, get t' k c = get t k c)
  ∧ flatten (changes (storage t)) ⊆ flatten (changes t')
  ∧ storage t' = storage (storage t)
  ∧ ∀ (u : InMemoryTransaction (InMemoryTransaction St)) t1 t2,
      storage u = storage t → flatten (changes t) ##ₘ flatten (changes u) → r = Ok () →
      commit (transaction t' Fail (changes u)) = (Ok (), t1) →
      commit u = (Ok (), t2) →
      ∃ t3, commit (transaction t2 Fail (changes t)) = (Ok (), t3)
        ∧ flatten (changes t3) = flatten (changes t1) ∧ storage t3 = storage t1.
Proof.
  intros Hp E. unfold commit in *. apply commit_changes_spec in E as (Hs & Hpol & Hst).
  rewrite Hp in Hs, Hpol. destruct Hs as (Hsub & Hsup & Hiff & Heq).
  split; [done|]. split; [intros Hr; apply get_merged; [by apply Heq|done]|].
  split; [done|]. split; [done|].
  cbn. intros u t1 t2 Hu Hd Hr E1 E2. specialize (Heq Hr). apply Hiff in Hr.
  apply commit_changes_spec in E1 as (Hs1 & _ & Hst1). rewrite Hpol in Hs1. destruct Hs1 as (_ & _ & _ & Hf1).
  apply commit_changes_spec in E2 as (Hs2 & Hpol2 & Hst2). rewrite Hu, Hp in *. destruct Hs2 as (_ & _ & Hd2 & Hf2).
  destruct (commit_changes (changes t) t2) as [r3 t3] eqn:E3. exists t3.
  apply commit_changes_spec in E3 as (Hs3 & _ & Hst3). rewrite Hpol2 in Hs3. destruct Hs3 as (_ & _ & Hd3 & Hf3).
  assert (r3 = Ok ()) as ->.
  { apply Hd3. rewrite Hf2 by done. by apply map_disjoint_union_r_2. }
  split; [done|]. rewrite Hf1, Hf3, Hf2, Heq by done. split; [|congruence].
  by rewrite !map_union_assoc, (map_union_comm (flatten (changes t)) (flatten (changes u))).
Qed.
End commit.

(** ** Committing to a plain store *)
Lemma list_to_map_snoc `{Countable K} {A} (l : list (K * A)) k v :
  NoDup (l ++ [(k, v)]).*1 → (list_to_map (l ++ [(k, v)]) : gmap K A) = <[k := v]> (list_to_map l).
Proof.
  intros Hnd. rewrite (list_to_map_proper (l ++ [(k, v)]) ((k, v) :: l)); [done|done|].
  by rewrite Permutation_app_comm.
Qed.

Lemma apply_entries c m l :
  NoDup l.*1 → foldl (apply_operation c) m l = overlay (in_column c (list_to_map l)) m.
Proof.
  induction l as [|[k v] l IH] using rev_ind; intros Hnd.
  - assert (in_column c (list_to_map []) = ∅) as ->; [|by rewrite overlay_empty].
    apply map_eq. intros [c' k]. rewrite in_column_lookup. by case_decide.
  - rewrite foldl_app, list_to_map_snoc by done. cbn.
    rewrite IH by (rewrite fmap_app in Hnd; by apply NoDup_app in Hnd as [? _]).
    rewrite <- overlay_insert. f_equal. apply map_eq. intros [c' k']. rewrite in_column_lookup.
    destruct (decide ((c', k') = (c, k))) as [[= -> ->]|Hne].
    + by rewrite decide_True, !lookup_insert_eq.
    + rewrite lookup_insert_ne, in_column_lookup by done. case_decide; subst; [|done].
      by rewrite lookup_insert_ne by congruence.
Qed.

Lemma commit_in_memory `{ColumnOrder} (t : InMemoryTransaction InMemoryStorage) :
  commit t = (Ok (), overlay (flatten (changes t)) (storage t)).
Proof.
  unfold commit, commit_changes, in_memory_modifiable. f_equal.
  assert (NoDup (columns (changes t)).*1) as Hnd.
  { rewrite (fmap_Permutation _ _ _ (columns_perm (changes t))). apply NoDup_fst_map_to_list. }
  rewrite <- (list_to_map_to_list (changes t)) at 2.
  rewrite <- (list_to_map_proper _ _ Hnd (columns_perm (changes t))).
  revert Hnd. generalize (columns (changes t)), (storage t). clear t.
  intros l. induction l as [|[c b] l IH] using rev_ind; intros m Hnd; [by rewrite overlay_empty|].
  rewrite foldl_app, list_to_map_snoc by done. cbn. rewrite fmap_app in Hnd.
  apply NoDup_app in Hnd as (Hnd & Hnew & _). rewrite IH, apply_entries by (done || apply entries_keys).
  rewrite entries_map, <- overlay_union. f_equal. symmetry. apply flatten_insert_new.
  apply not_elem_of_list_to_map_1. intros Hc. by apply (Hnew c Hc), list_elem_of_singleton.
Qed.

(** ** Examples *)
Definition sample_order : ColumnOrder := {| columns := map_to_list; columns_perm := λ ch, reflexivity _ |}.
#[local] Existing Instance sample_order.

Definition sample_store : InMemoryStorage := {[ (1, [7]) := [1; 2; 3]; (2, [8]) := [4] ]}.
Definition sample_parent (p : ConflictPolicy) : InMemoryTransaction InMemoryStorage :=
  transaction sample_store p {[ 1 := {[ [7] := Remove ]} ]}.
Definition sample_child (p : ConflictPolicy) (k : Key) : InMemoryTransaction (InMemoryTransaction InMemoryStorage) :=
  transaction (sample_parent p) Overwrite {[ 1 := {[ k := Insert [9] ]} ]}.

Lemma sample_reads : reads sample_store sample_store.
Proof. by intros k c. Qed.

Lemma transaction_refines_map_witness :
  ∃ t', run_ops [OpTake [7] 1; OpPut [7] 1 [5; 6]; OpRead [7] 1 1 [0]; OpReplace [8] 2 []; OpExists [9] 2]
          (sample_parent Overwrite)
        = (Ok [RValue None; RUnit; RRead (Ok true, [6]); RValue (Some [4]); RBool false], t').
Proof.
  destruct (transaction_refines_map
    [OpTake [7] 1; OpPut [7] 1 [5; 6]; OpRead [7] 1 1 [0]; OpReplace [8] 2 []; OpExists [9] 2]
    (sample_parent Overwrite) sample_store sample_reads) as (t' & Hrun & _).
  exists t'. rewrite Hrun. vm_compute. reflexivity.
Defined.

Lemma commit_overwrite_witness :
  ∃ t', commit (sample_child Overwrite [7]) = (Ok (), t') ∧ get t' [7] 1 = Ok (Some [9]).
Proof.
  destruct (commit_overwrite (sample_child Overwrite [7]) eq_refl) as (t' & Hc & _ & _ & Hget).
  exists t'. split; [exact Hc|]. rewrite Hget. reflexivity.
Defined.

Lemma commit_fail_witness :
  ∃ r t', commit (sample_child Fail [7]) = (r, t') ∧ r ≠ Ok () ∧ get t' [7] 1 = Ok None.
Proof.
  destruct (commit (sample_child Fail [7])) as [r t'] eqn:E. exists r, t'.
  destruct (commit_fail (sample_child Fail [7]) r t' eq_refl E) as (Hiff & _ & Hsub & _).
  split; [done|]. split.
  - intros Hr. apply Hiff in Hr. by apply (map_disjoint_spec _ _) with (1, [7]) (Insert [9]) Remove in Hr.
  - rewrite get_overlay. by rewrite (lookup_weaken _ _ (1, [7]) Remove eq_refl Hsub).
Defined.
