(* ===== verification/StructuredStorage.v ===== *)
(** * Typed tables

    The codecs of [crates/storage/src/codec] and the tables of the plain
    blueprint ([blueprint.rs], [blueprint/plain.rs]) over a storage
    transaction.  [Postcard], the third-party serializer of most values, is
    any codec that can be decoded. *)
From stdpp Require Import strings.
From S2P Require Import Prelude FuelTypes BlockTypes Transactional TransactionalFacts.

(** ** Codecs *)

(** [Encode] and [Decode] of one type; [valid] are the values of the Rust
    type, for those whose model is a wider one. *)
Record Codec (A : Type) := MkCodec {
  encode : A → list Z;
  decode : list Z → result string A;
  valid : A → Prop
}.
Arguments MkCodec {A}.
Arguments encode {A}.
Arguments decode {A}.
Arguments valid {A}.

Class CodecLaws {A} (cd : Codec A) := decode_encode a : valid cd a → decode cd (encode cd a) = Ok a.

Definition from_be_bytes (bytes : list Z) : Z := foldl (λ acc b, acc * 256 + b) 0 bytes.

(** [Primitive<n>] for the integers, the heights and other [n]-byte values *)
Definition Primitive (n : nat) : Codec Z :=
  MkCodec (to_be_bytes n)
    (λ bytes, if decide (length bytes = n) then Ok (from_be_bytes bytes)
              else Err "could not convert slice to array"%string)
    (λ x, 0 ≤ x < 256 ^ Z.of_nat n).

Definition utxo_id_to_bytes (utxo_id : UtxoId) : list Z :=
  to_be_bytes 32 utxo_id.1 ++ to_be_bytes 2 utxo_id.2.
Definition utxo_id_from_bytes (bytes : list Z) : result string UtxoId :=
  if decide (length bytes = 34%nat)
  then Ok (from_be_bytes (take 32 bytes), from_be_bytes (drop 32 bytes))
  else Err "could not convert slice to array"%string.
Definition PrimitiveUtxoId : Codec UtxoId :=
  MkCodec utxo_id_to_bytes utxo_id_from_bytes
    (λ u, 0 ≤ u.1 < 256 ^ 32 ∧ in_range u16 u.2).

(** [Raw], for a type that any byte string converts to *)
Definition Raw : Codec (list Z) := MkCodec (λ t, t) (λ bytes, Ok bytes) (λ _, True).

(** ** Tables of the plain blueprint *)
Record Table (K V : Type) := MkTable {
  column : Column;
  key_codec : Codec K;
  value_codec : Codec V
}.
Arguments MkTable {K V}.
Arguments column {K V}.
Arguments key_codec {K V}.
Arguments value_codec {K V}.

(** [map(decode_from_value).transpose()] *)
Definition decode_value {V} (cd : Codec V) (value : option Value) : result StorageError (option V) :=
  match value with
  | None => Ok None
  | Some bytes => Some <$> map_err CodecError (decode cd bytes)
  end.

Section plain.
Context {K V St : Type} `{KeyValueInspect St} (M : Table K V).

Definition table_exists (key : K) (self : St) : result StorageError bool :=
  exists_ self (encode (key_codec M) key) (column M).
Definition table_size (key : K) (self : St) : result StorageError (option Z) :=
  size_of_value self (encode (key_codec M) key) (column M).
Definition table_get (key : K) (self : St) : result StorageError (option V) :=
  get self (encode (key_codec M) key) (column M) ≫= decode_value (value_codec M).
End plain.

Section plain_mutate.
Context {K V St : Type} `{KeyValueInspect St} (M : Table K V).

Definition table_put (key : K) (value : V) : ST (InMemoryTransaction St) StorageError unit :=
  put (encode (key_codec M) key) (column M) (encode (value_codec M) value).
Definition table_replace (key : K) (value : V) : ST (InMemoryTransaction St) StorageError (option V) :=
  prev ← replace (encode (key_codec M) key) (column M) (encode (value_codec M) value);
  st_lift (decode_value (value_codec M) prev).
Definition table_take (key : K) : ST (InMemoryTransaction St) StorageError (option V) :=
  prev ← take_ (encode (key_codec M) key) (column M);
  st_lift (decode_value (value_codec M) prev).
Definition table_delete (key : K) : ST (InMemoryTransaction St) StorageError unit :=
  delete_ (encode (key_codec M) key) (column M).
Definition table_insert_batch (set : list (K * V)) : ST (InMemoryTransaction St) StorageError unit :=
  batch_write (column M)
    ((λ '(key, value), (encode (key_codec M) key, Insert (encode (value_codec M) value))) <$> set).
Definition table_remove_batch (set : list K) : ST (InMemoryTransaction St) StorageError unit :=
  batch_write (column M) ((λ key, (encode (key_codec M) key, Remove)) <$> set).
End plain_mutate.

(** ** Codecs: theorems *)
Lemma from_be_bytes_snoc l b : from_be_bytes (l ++ [b]) = from_be_bytes l * 256 + b.
Proof. unfold from_be_bytes. by rewrite foldl_app. Qed.

Lemma from_to_be_bytes n x : 0 ≤ x < 256 ^ Z.of_nat n → from_be_bytes (to_be_bytes n x) = x.
Proof.
  revert x. induction n as [|n IH]; intros x Hx; [unfold from_be_bytes; simpl in *; lia|].
  rewrite Nat2Z.inj_succ, Z.pow_succ_r in Hx by lia. cbn [to_be_bytes].
  rewrite from_be_bytes_snoc, IH.
  - rewrite Z.mul_comm. symmetry. by apply Z.div_mod.
  - split; [apply Z.div_pos|apply Z.div_lt_upper_bound]; lia.
Qed.

#[export] Instance Primitive_laws n : CodecLaws (Primitive n).
Proof.
  intros x Hx. cbn. rewrite decide_True by apply to_be_bytes_length. by rewrite from_to_be_bytes.
Qed.

#[export] Instance PrimitiveUtxoId_laws : CodecLaws PrimitiveUtxoId.
Proof.
  intros [id i] [Hid Hi]. cbn [fst snd] in *. change (utxo_id_from_bytes (utxo_id_to_bytes (id, i)) = Ok (id, i)).
  unfold utxo_id_from_bytes, utxo_id_to_bytes. cbn [fst snd].
  rewrite decide_True by (by rewrite length_app, !to_be_bytes_length).
  rewrite take_app_length', drop_app_length' by (by rewrite to_be_bytes_length).
  rewrite !from_to_be_bytes; [done|unfold in_range, u16, unsigned in Hi; cbn in Hi; lia|done].
Qed.

#[export] Instance Raw_laws : CodecLaws Raw.
Proof. by intros a _. Qed.

Lemma encode_inj `{CodecLaws A cd} a b : valid cd a → valid cd b → encode cd a = encode cd b → a = b.
Proof. intros Ha%decode_encode Hb%decode_encode Heq. congruence. Qed.

Lemma to_be_bytes_cons n x :
  to_be_bytes (S n) x = (x / 256 ^ Z.of_nat n) mod 256 :: to_be_bytes n x.
Proof.
  revert x. induction n as [|n IH]; intros x.
  - cbn. by rewrite Z.div_1_r.
  - change (to_be_bytes (S (S n)) x) with (to_be_bytes (S n) (x / 256) ++ [x mod 256]). rewrite IH.
    cbn [app to_be_bytes]. f_equal. rewrite Z.div_div, Nat2Z.inj_succ, Z.pow_succ_r by lia. done.
Qed.

Lemma to_be_bytes_mod n x : to_be_bytes n (x mod 256 ^ Z.of_nat n) = to_be_bytes n x.
Proof.
  revert x. induction n as [|n IH]; intros x; [done|]. cbn [to_be_bytes].
  rewrite Nat2Z.inj_succ, Z.pow_succ_r by lia. f_equal.
  - rewrite <- (IH (x / 256)). f_equal. rewrite Z.rem_mul_r by lia.
    rewrite (Z.mul_comm 256), Z.div_add by lia. rewrite Z.div_small by (apply Z.mod_pos_bound; lia). lia.
  - f_equal. rewrite Z.rem_mul_r by lia. rewrite Z.add_mod, (Z.mul_comm 256), Z.mod_mul by lia.
    by rewrite Z.add_0_r, !Z.mod_mod by lia.
Qed.

Lemma be_bytes_order n x y :
  0 ≤ x < 256 ^ Z.of_nat n → 0 ≤ y < 256 ^ Z.of_nat n →
  bytes_le (to_be_bytes n x) (to_be_bytes n y) = bool_decide (x ≤ y).
Proof.
  revert x y. induction n as [|n IH]; intros x y Hx Hy.
  { simpl in *. symmetry. apply bool_decide_eq_true. lia. }
  rewrite !to_be_bytes_cons. cbn [bytes_le].
  rewrite Nat2Z.inj_succ, Z.pow_succ_r in Hx, Hy by lia. set (m := 256 ^ Z.of_nat n) in *.
  assert (0 < m) by (unfold m; lia).
  assert (0 ≤ x / m < 256) by (split; [apply Z.div_pos|apply Z.div_lt_upper_bound]; lia).
  assert (0 ≤ y / m < 256) by (split; [apply Z.div_pos|apply Z.div_lt_upper_bound]; lia).
  rewrite !Z.mod_small by done.
  pose proof (Z.div_mod x m ltac:(lia)). pose proof (Z.div_mod y m ltac:(lia)).
  pose proof (Z.mod_pos_bound x m ltac:(lia)). pose proof (Z.mod_pos_bound y m ltac:(lia)).
  case_decide as E.
  - rewrite <- (to_be_bytes_mod n x), <- (to_be_bytes_mod n y). rewrite IH by done. fold m.
    apply bool_decide_ext. nia.
  - apply bool_decide_ext. nia.
Qed.

(** The fixed-width codec of integers and heights is a faithful encoding: a
    value is decoded to itself, anything of another length is refused, every
    decoded byte string is the encoding of its value, and the byte order of the
    encodings, in which the database iterates, is the order of the values. *)
Theorem primitive_codec_faithful n x y bytes :
  0 ≤ x < 256 ^ Z.of_nat n → 0 ≤ y < 256 ^ Z.of_nat n →
  decode (Primitive n) (encode (Primitive n) x) = Ok x
  ∧ (length bytes ≠ n → ∃ e, decode (Primitive n) bytes = Err e)
  ∧ (length bytes = n → Forall (in_range u8) bytes →
     ∃ z, decode (Primitive n) bytes = Ok z ∧ encode (Primitive n) z = bytes)
  ∧ bytes_le (encode (Primitive n) x) (encode (Primitive n) y) = bool_decide (x ≤ y).
Proof.
  intros Hx Hy. split; [by apply (Primitive_laws n)|]. split; [|split].
  - intros Hlen. eexists. cbn. by rewrite decide_False.
  - intros Hlen Hb. exists (from_be_bytes bytes). cbn. rewrite decide_True by done. split; [done|].
    clear x y Hx Hy. revert n Hlen. induction bytes as [|b bytes IH] using rev_ind; intros n <-; [done|].
    apply Forall_app in Hb as [Hb1 Hb2]. apply Forall_cons in Hb2 as [Hb2 _]. unfold in_range, u8, unsigned in Hb2. cbn in Hb2.
    rewrite length_app, Nat.add_comm. cbn [to_be_bytes Nat.add length]. rewrite from_be_bytes_snoc.
    rewrite Z.div_add_l, (Z.div_small b), Z.add_0_r by lia.
    rewrite Z.add_comm, Z.mod_add, (Z.mod_small b) by lia. by rewrite IH.
  - by apply be_bytes_order.
Qed.

(** ** Tables: theorems *)
Section table_facts.
Context {K V St : Type} `{KeyValueLaws St} (M : Table K V) `{CodecLaws K (key_codec M)}
  `{CodecLaws V (value_codec M)}.
Implicit Types t : InMemoryTransaction St.

(** Two keys of two tables that do not share an entry of the store. *)
Definition separate {K' V'} (M' : Table K' V') (k : K) (k' : K') : Prop :=
  column M' ≠ column M ∨ encode (key_codec M') k' ≠ encode (key_codec M) k.

Lemma get_operation k c op t k' c' :
  get (with_changes (insert_operation c k op (changes t)) t) k' c'
  = if decide ((c', k') = (c, k)) then Ok (match op with Insert v => Some v | Remove => None end)
    else get t k' c'.
Proof.
  rewrite !get_overlay. cbn [changes storage with_changes]. rewrite flatten_insert_operation.
  case_decide as E; [|by rewrite lookup_insert_ne].
  injection E as -> ->. rewrite lookup_insert_eq. by destruct op.
Qed.

Lemma exchange_get k c op t :
  exchange k c op t = (get t k c, with_changes (insert_operation c k op (changes t)) t).
Proof. unfold exchange. cbn. by destruct (get_from_changes t k c) as [[]|]. Qed.

(** The three ways to change an entry. *)
Lemma table_operation k op t :
  let t' := with_changes (insert_operation (column M) (encode (key_codec M) k) op (changes t)) t in
  table_get M k t' = decode_value (value_codec M) (match op with Insert v => Some v | Remove => None end)
  ∧ table_exists M k t' = Ok (match op with Insert _ => true | Remove => false end)
  ∧ ∀ {K' V'} (M' : Table K' V') k', separate M' k k' → table_get M' k' t' = table_get M' k' t.
Proof.
  cbv zeta. unfold table_get, table_exists. rewrite exists_get, !get_operation, !decide_True by done.
  split; [done|]. split; [by destruct op|]. intros K' V' M' k' Hsep. rewrite get_operation, decide_False; [done|].
  intros [= Hc Hk]. by destruct Hsep.
Qed.

(** A typed table is a map: what is put under a key is what is read back,
    replacing and taking return what was read before, a taken or deleted key
    is gone, and no entry of the table under another key, or of any table in
    another column, is affected. *)
Theorem table_is_map k v t :
  valid (key_codec M) k → valid (value_codec M) v →
  let t1 := (table_put M k v t).2 in
  let t2 := (table_take M k t).2 in
  table_get M k t1 = Ok (Some v) ∧ table_exists M k t1 = Ok true
  ∧ table_replace M k v t = (table_get M k t, t1)
  ∧ table_take M k t = (table_get M k t, t2) ∧ table_delete M k t = (Ok (), t2)
  ∧ table_get M k t2 = Ok None ∧ table_exists M k t2 = Ok false
  ∧ (∀ k', valid (key_codec M) k' → k' ≠ k →
       table_get M k' t1 = table_get M k' t ∧ table_get M k' t2 = table_get M k' t)
  ∧ ∀ {K' V'} (M' : Table K' V') k', column M' ≠ column M →
       table_get M' k' t1 = table_get M' k' t ∧ table_get M' k' t2 = table_get M' k' t.
Proof.
  intros Hk Hv. cbv zeta.
  assert ((table_take M k t).2
    = with_changes (insert_operation (column M) (encode (key_codec M) k) Remove (changes t)) t) as Ht2.
  { unfold table_take, take_. rewrite bind_case, exchange_get. by destruct (get t _ _). }
  rewrite !Ht2. cbn [table_put put st_modify snd].
  destruct (table_operation k (Insert (encode (value_codec M) v)) t) as (Hg1 & He1 & Ho1).
  destruct (table_operation k Remove t) as (Hg2 & He2 & Ho2).
  cbn in Hg1. rewrite decode_encode in Hg1 by done.
  split; [exact Hg1|]. split; [exact He1|].
  unfold table_replace, table_take, replace, take_. rewrite !bind_case, !exchange_get.
  unfold table_get at 1 2. split; [by destruct (get t _ _)|]. split; [by destruct (get t _ _)|].
  split; [done|]. split; [exact Hg2|]. split; [exact He2|]. split.
  - intros k' Hk' Hne. assert (separate M k k') as Hsep; [|by split; [apply Ho1|apply Ho2]].
    right. intros Heq. by apply Hne, (encode_inj (cd := key_codec M)).
  - intros K' V' M' k' Hc. assert (separate M' k k') as Hsep by by left. by split; [apply Ho1|apply Ho2].
Qed.
End table_facts.

(** ** Examples *)
Definition sample_coins : Table UtxoId (list Z) := MkTable 1 PrimitiveUtxoId Raw.
Definition sample_tx : InMemoryTransaction InMemoryStorage := into_transaction ∅.

Lemma primitive_codec_faithful_witness :
  decode (Primitive 4) (encode (Primitive 4) 70000) = Ok 70000
  ∧ bytes_le (encode (Primitive 4) 255) (encode (Primitive 4) 256) = true.
Proof.
  split.
  - apply (primitive_codec_faithful 4 70000 0 []); lia.
  - destruct (primitive_codec_faithful 4 255 256 []) as (_ & _ & _ & Hle); [lia..|]. exact Hle.
Defined.

Lemma table_is_map_witness :
  table_get sample_coins (7, 1) (table_put sample_coins (7, 1) [3] sample_tx).2 = Ok (Some [3]).
Proof.
  apply (table_is_map sample_coins (7, 1) [3] sample_tx); [|exact I].
  split; [cbn; lia|]. vm_compute. by split.
Defined.
