(* ===== verification/MerklizedTable.v ===== *)
(** * Tables with a Merkle tree over their entries

    [crates/storage/src/blueprint/merklized.rs] and the metadata of
    [tables.rs]: a table that keeps a binary Merkle tree over its values, in
    the order they were inserted.  Rows are typed; a transaction is a table of
    rows with writes on top of it.  The tree is the [MerkleTree] of
    fuel-merkle, which is not part of the sources: loading it at a version and
    pushing one leaf is an operation of the class [BinaryMerkleTree]. *)
From stdpp Require Import strings.
From S2P Require Import Prelude FuelTypes BlockTypes.

(** ** Rows with pending writes *)
Record Rows (K V : Type) `{Countable K} := MkRows {
  row_base : gmap K V;
  row_writes : gmap K (option V)
}.
Arguments MkRows {K V _ _}.
Arguments row_base {K V _ _}.
Arguments row_writes {K V _ _}.

Section rows.
Context {K V : Type} `{Countable K}.

Definition rows_on (base : gmap K V) : Rows K V := MkRows base ∅.
Definition rows_get (r : Rows K V) (k : K) : option V :=
  match row_writes r !! k with Some o => o | None => row_base r !! k end.
Definition rows_put (k : K) (v : V) (r : Rows K V) : Rows K V :=
  MkRows (row_base r) (<[k := Some v]> (row_writes r)).
Definition rows_delete (k : K) (r : Rows K V) : Rows K V :=
  MkRows (row_base r) (<[k := None]> (row_writes r)).
(** The rows once the writes are applied. *)
Definition apply_writes (w : gmap K (option V)) (m : gmap K V) : gmap K V :=
  merge (λ o v, match o with Some o => o | None => v end) w m.
End rows.

(** ** Metadata *)
Inductive DenseMetadataKey (K : Type) := Primary (key : K) | Latest.
Arguments Primary {K} key.
Arguments Latest {K}.
#[export] Instance DenseMetadataKey_eq_dec `{EqDecision K} : EqDecision (DenseMetadataKey K).
Proof. solve_decision. Defined.
#[export] Instance DenseMetadataKey_countable `{Countable K} : Countable (DenseMetadataKey K).
Proof.
  refine (inj_countable' (λ k, match k with Primary k => Some k | Latest => None end)
    (λ o, match o with Some k => Primary k | None => Latest end) _).
  by intros [].
Defined.

(** [version] is the number of leaves. *)
Record DenseMerkleMetadata := MkDenseMerkleMetadata {
  md_root : Bytes32;
  md_version : Z
}.

(** ** The tree *)
Class BinaryMerkleTree := {
  Node : Type;
  (** [MerkleTree::load(storage, version)], then [push(data)]: the nodes to
      write, [leaves_count()] and [root()] *)
  tree_push : (Z → option Node) → Z → list Z → result string (list (Z * Node) * Z * Bytes32)
}.

Definition write_nodes `{BinaryMerkleTree} (writes : list (Z * Node)) (nodes : Rows Z Node) : Rows Z Node :=
  foldl (λ nodes w, rows_put w.1 w.2 nodes) nodes writes.

(** What a tree promises: it stores a list of leaves, of which every prefix
    can be loaded; pushing appends a leaf, and the root is that of the list. *)
Class BinaryMerkleTreeLaws `{Hashing, BinaryMerkleTree} := {
  tree_leaves : (Z → option Node) → Z → option (list (list Z));
  tree_leaves_ext get get' n : (∀ i, get i = get' i) → tree_leaves get n = tree_leaves get' n;
  tree_leaves_zero get : tree_leaves get 0 = Some [];
  tree_push_ok (nodes : Rows Z Node) n l data :
    tree_leaves (rows_get nodes) n = Some l → Z.of_nat (length l) = n → n < int_max u64 →
    ∃ writes, tree_push (rows_get nodes) n data = Ok (writes, n + 1, merkle_root (l ++ [data]))
      ∧ tree_leaves (rows_get (write_nodes writes nodes)) (n + 1) = Some (l ++ [data])
      ∧ ∀ m, m ≤ n → tree_leaves (rows_get (write_nodes writes nodes)) m = tree_leaves (rows_get nodes) m
}.

Inductive TableError :=
| TreeError (e : string)
| OverrideForbidden
| MetadataNotFound.

Section merklized.
Context `{Hashing, BinaryMerkleTree} {K V : Type} `{Countable K}.
(** [ValueEncoder] *)
Variable encode : V → list Z.

Record Merklized := MkMerklized {
  mk_values : Rows K V;
  mk_metadata : Rows (DenseMetadataKey K) DenseMerkleMetadata;
  mk_nodes : Rows Z Node
}.

(** [DenseMerkleMetadata::default()] *)
Definition DenseMerkleMetadata_default : DenseMerkleMetadata := MkDenseMerkleMetadata (merkle_root []) 0.

Definition insert_into_tree (key : K) (value : V) : ST Merklized TableError unit := λ storage,
  let prev_metadata := unwrap_or DenseMerkleMetadata_default (rows_get (mk_metadata storage) Latest) in
  match tree_push (rows_get (mk_nodes storage)) (md_version prev_metadata) (encode value) with
  | Err err => (Err (TreeError err), storage)
  | Ok (writes, version, root) =>
      let metadata := MkDenseMerkleMetadata root version in
      (Ok (), MkMerklized (mk_values storage)
                (rows_put Latest metadata (rows_put (Primary key) metadata (mk_metadata storage)))
                (write_nodes writes (mk_nodes storage)))
  end.

(** Refuses to remove or override an entry; an absent one is no error. *)
Definition merklized_remove (key : K) : ST Merklized TableError unit := λ storage,
  match rows_get (mk_values storage) key with
  | Some _ => (Err OverrideForbidden, storage)
  | None => (Ok (), storage)
  end.

Definition put_value (key : K) (value : V) : ST Merklized TableError unit :=
  st_modify (λ s, MkMerklized (rows_put key value (mk_values s)) (mk_metadata s) (mk_nodes s)).

Definition merklized_get (key : K) (storage : Merklized) : option V := rows_get (mk_values storage) key.
Definition merklized_put (key : K) (value : V) : ST Merklized TableError unit :=
  _ ← put_value key value;
  insert_into_tree key value.
Definition merklized_replace (key : K) (value : V) : ST Merklized TableError (option V) :=
  storage ← st_get;
  let prev := rows_get (mk_values storage) key in
  _ ← put_value key value;
  _ ← (if prev then merklized_remove key else mret ());
  _ ← insert_into_tree key value;
  mret prev.
Definition merklized_take (key : K) : ST Merklized TableError (option V) :=
  _ ← merklized_remove key;
  storage ← st_get;
  let prev := rows_get (mk_values storage) key in
  _ ← st_modify (λ s, MkMerklized (rows_delete key (mk_values s)) (mk_metadata s) (mk_nodes s));
  mret prev.
Definition merklized_delete (key : K) : ST Merklized TableError unit := merklized_remove key.
Definition merklized_root (key : K) (storage : Merklized) : result TableError Bytes32 :=
  md_root <$> ok_or (rows_get (mk_metadata storage) (Primary key)) MetadataNotFound.

(** [SupportsBatching]; [init] is [insert] *)
Definition merklized_insert_batch (set : list (K * V)) : ST Merklized TableError unit :=
  st_for (λ entry, _ ← merklized_replace entry.1 entry.2; mret ()) set.
Definition merklized_remove_batch (set : list K) : ST Merklized TableError unit := st_for merklized_remove set.
End merklized.

(** ** Rows *)
Section rows_facts.
Context {K V : Type} `{Countable K}.
Implicit Types (r : Rows K V).

Lemma rows_get_on (m : gmap K V) k : rows_get (rows_on m) k = m !! k.
Proof. unfold rows_get, rows_on. cbn. by rewrite lookup_empty. Qed.

Lemma rows_get_put_eq k v r : rows_get (rows_put k v r) k = Some v.
Proof. unfold rows_get, rows_put. cbn. by rewrite lookup_insert_eq. Qed.

Lemma rows_get_put_ne k k' v r : k ≠ k' → rows_get (rows_put k v r) k' = rows_get r k'.
Proof. intros. unfold rows_get, rows_put. cbn. by rewrite lookup_insert_ne. Qed.

Lemma apply_writes_lookup (w : gmap K (option V)) (m : gmap K V) k :
  apply_writes w m !! k = match w !! k with Some o => o | None => m !! k end.
Proof. unfold apply_writes. rewrite lookup_merge. by destruct (w !! k), (m !! k). Qed.

Lemma rows_apply r k : apply_writes (row_writes r) (row_base r) !! k = rows_get r k.
Proof. apply apply_writes_lookup. Qed.
End rows_facts.

(** ** The table is a log *)
Section merklized_facts.
Context `{HH : Hashing} `{BT : BinaryMerkleTree} `{BL : !BinaryMerkleTreeLaws} {K V : Type} `{HK : Countable K}.
Context (encode : V → list Z).
Implicit Types (s : Merklized (K := K) (V := V)) (l : list (K * V)).

Definition log_leaves l : list (list Z) := encode <$> l.*2.
(** The metadata after the first [n] entries. *)
Definition log_metadata (n : nat) l : DenseMerkleMetadata :=
  MkDenseMerkleMetadata (merkle_root (take n (log_leaves l))) (Z.of_nat n).

(** The table holds the entries [l], inserted in this order. *)
Record Log s l : Prop := {
  lg_keys : NoDup l.*1;
  lg_values k v : rows_get (mk_values s) k = Some v ↔ (k, v) ∈ l;
  lg_latest : rows_get (mk_metadata s) Latest = if decide (l = []) then None else Some (log_metadata (length l) l);
  lg_primary k m : rows_get (mk_metadata s) (Primary k) = Some m ↔
    ∃ i v, l !! i = Some (k, v) ∧ m = log_metadata (S i) l;
  lg_nodes : tree_leaves (rows_get (mk_nodes s)) (Z.of_nat (length l)) = Some (log_leaves l)
}.

Lemma log_leaves_length l : length (log_leaves l) = length l.
Proof. unfold log_leaves. by rewrite !length_fmap. Qed.

Lemma log_leaves_app l l' : log_leaves (l ++ l') = log_leaves l ++ log_leaves l'.
Proof. unfold log_leaves. by rewrite !fmap_app. Qed.

Lemma log_metadata_app n l l' : (n ≤ length l)%nat → log_metadata n (l ++ l') = log_metadata n l.
Proof. intros Hn. unfold log_metadata. rewrite log_leaves_app, take_app_le; [done|]. by rewrite log_leaves_length. Qed.

Lemma Log_empty : Log (MkMerklized (rows_on ∅) (rows_on ∅) (rows_on ∅)) [].
Proof.
  split; cbn.
  - constructor.
  - intros k v. rewrite rows_get_on, lookup_empty. split; [done|]. by intros ?%not_elem_of_nil.
  - by rewrite rows_get_on, lookup_empty.
  - intros k m. rewrite rows_get_on, lookup_empty. split; [done|]. by intros (i & v & Hi & _).
  - apply tree_leaves_zero.
Qed.

(** Only what reads see matters. *)
Lemma Log_ext s s' l :
  (∀ k, rows_get (mk_values s') k = rows_get (mk_values s) k) →
  (∀ k, rows_get (mk_metadata s') k = rows_get (mk_metadata s) k) →
  (∀ k, rows_get (mk_nodes s') k = rows_get (mk_nodes s) k) → Log s l → Log s' l.
Proof.
  intros Hv Hm Hn [H1 H2 H3 H4 H5]. split; [done| | | |].
  - intros k v. by rewrite Hv.
  - by rewrite Hm.
  - intros k m. by rewrite Hm.
  - by rewrite (tree_leaves_ext _ _ _ Hn).
Qed.

Lemma insert_into_tree_log s l k v :
  Log s l → k ∉ l.*1 → Z.of_nat (length l) < int_max u64 →
  ∃ s', insert_into_tree encode k v (MkMerklized (rows_put k v (mk_values s)) (mk_metadata s) (mk_nodes s)) = (Ok (), s')
    ∧ Log s' (l ++ [(k, v)]).
Proof.
  intros [Hk Hv Hl Hp Hn] Hno Hlen. unfold insert_into_tree. cbn [mk_metadata mk_nodes mk_values].
  assert (md_version (unwrap_or DenseMerkleMetadata_default (rows_get (mk_metadata s) Latest)) = Z.of_nat (length l)) as ->.
  { rewrite Hl. by case_decide as Hnil; [subst l|]. }
  destruct (tree_push_ok (mk_nodes s) (Z.of_nat (length l)) (log_leaves l) (encode v) Hn) as (w & -> & Hnew & _); [by rewrite log_leaves_length|done|].
  assert (log_metadata (S (length l)) (l ++ [(k, v)])
    = MkDenseMerkleMetadata (merkle_root (log_leaves l ++ [encode v])) (Z.of_nat (length l) + 1)) as Hmeta.
  { unfold log_metadata. rewrite log_leaves_app, take_ge by (rewrite length_app, log_leaves_length; cbn; lia). f_equal. lia. }
  eexists. split; [done|]. split; cbn [mk_metadata mk_nodes mk_values].
  - rewrite fmap_app. apply NoDup_app. split; [done|]. split; [|apply NoDup_singleton]. intros x Hx ->%list_elem_of_singleton. done.
  - intros k' v'. rewrite elem_of_app, list_elem_of_singleton. destruct (decide (k' = k)) as [->|Hne].
    + rewrite rows_get_put_eq. split; [intros [= <-]; by right|]. intros [Hin|[= ->]]; [|done].
      destruct Hno. by apply list_elem_of_fmap_2 with (f := fst) in Hin.
    + rewrite rows_get_put_ne by done. rewrite Hv. naive_solver.
  - rewrite rows_get_put_eq, decide_False by (by destruct l). rewrite length_app, Nat.add_comm. by rewrite <- Hmeta.
  - intros k' m. rewrite rows_get_put_ne by done. destruct (decide (k' = k)) as [->|Hne].
    + rewrite rows_get_put_eq, <- Hmeta. split.
      * intros [= <-]. exists (length l), v. split; [|done]. by rewrite lookup_app_r, Nat.sub_diag by done.
      * intros (i & v' & Hi & ->). do 2 f_equal. apply lookup_app_Some in Hi as [Hi|[Hge Hi]].
        -- destruct Hno. apply list_elem_of_lookup_2, (list_elem_of_fmap_2 fst) in Hi. done.
        -- apply list_lookup_singleton_Some in Hi as [Hi _]. lia.
    + rewrite rows_get_put_ne by congruence. rewrite Hp. split; intros (i & v' & Hi & ->).
      * exists i, v'. split; [by apply lookup_app_l_Some|]. rewrite log_metadata_app; [done|]. by apply lookup_lt_Some in Hi.
      * apply lookup_app_Some in Hi as [Hi|[_ Hi]]; [|by apply list_lookup_singleton_Some in Hi as [_ [= -> _]]].
        exists i, v'. split; [done|]. rewrite log_metadata_app; [done|]. by apply lookup_lt_Some in Hi.
  - rewrite length_app, log_leaves_app. cbn [length]. rewrite Nat2Z.inj_add. exact Hnew.
Qed.

(** A new key is appended. *)
Lemma replace_new s l k v :
  Log s l → k ∉ l.*1 → Z.of_nat (length l) < int_max u64 →
  ∃ s', merklized_replace encode k v s = (Ok None, s') ∧ Log s' (l ++ [(k, v)]).
Proof.
  intros HL Hno Hlen. destruct (insert_into_tree_log s l k v HL Hno Hlen) as (s' & Hrun & HL'). exists s'. split; [|done].
  unfold merklized_replace. rewrite bind_case. cbn [st_get]. assert (rows_get (mk_values s) k = None) as ->.
  { destruct (rows_get (mk_values s) k) as [v'|] eqn:Hv; [|done]. apply (lg_values _ _ HL) in Hv.
    destruct Hno. by apply (list_elem_of_fmap_2 fst) in Hv. }
  rewrite bind_case. cbn [put_value st_modify]. rewrite bind_case. cbn [mret ST_ret]. rewrite bind_case, Hrun. done.
Qed.

(** A known key is refused, whatever the operation, and the tree stays. *)
Lemma log_member s l k : Log s l → k ∈ l.*1 ↔ is_Some (rows_get (mk_values s) k).
Proof.
  intros HL. rewrite list_elem_of_fmap. split.
  - intros ([k' v] & -> & Hin). exists v. by apply (lg_values _ _ HL).
  - intros [v Hv]. exists (k, v). split; [done|]. by apply (lg_values _ _ HL).
Qed.

Lemma replace_known s l k v :
  Log s l → k ∈ l.*1 →
  ∃ s', merklized_replace encode k v s = (Err OverrideForbidden, s') ∧ mk_metadata s' = mk_metadata s ∧ mk_nodes s' = mk_nodes s.
Proof.
  intros HL Hin. apply (log_member s l k HL) in Hin as [v' Hv]. unfold merklized_replace. rewrite bind_case. cbn [st_get].
  rewrite Hv, bind_case. cbn [put_value st_modify]. rewrite bind_case. unfold merklized_remove. cbn [mk_values].
  rewrite rows_get_put_eq. by eexists.
Qed.

(** Operations on the table, each in a transaction that is dropped when it
    fails. *)
Inductive MerklizedOp :=
| MerklizedReplace (k : K) (v : V)
| MerklizedTake (k : K)
| MerklizedDelete (k : K)
| MerklizedInsert (set : list (K * V))
| MerklizedRemove (set : list K).
Definition run_merklized (s : Merklized (K := K) (V := V)) (op : MerklizedOp) : Merklized (K := K) (V := V) :=
  match op with
  | MerklizedReplace k v => match merklized_replace encode k v s with (Ok _, s') => s' | (Err _, _) => s end
  | MerklizedTake k => match merklized_take k s with (Ok _, s') => s' | (Err _, _) => s end
  | MerklizedDelete k => match merklized_delete k s with (Ok _, s') => s' | (Err _, _) => s end
  | MerklizedInsert set => match merklized_insert_batch encode set s with (Ok _, s') => s' | (Err _, _) => s end
  | MerklizedRemove set => match merklized_remove_batch set s with (Ok _, s') => s' | (Err _, _) => s end
  end.
(** A batch is added as a whole or not at all. *)
Fixpoint logged_batch l (set : list (K * V)) : option (list (K * V)) :=
  match set with
  | [] => Some l
  | (k, v) :: set => if decide (k ∈ l.*1) then None else logged_batch (l ++ [(k, v)]) set
  end.
(** The first value of every key, in order. *)
Definition logged l (op : MerklizedOp) : list (K * V) :=
  match op with
  | MerklizedReplace k v => if decide (k ∈ l.*1) then l else l ++ [(k, v)]
  | MerklizedInsert set => unwrap_or l (logged_batch l set)
  | MerklizedTake _ | MerklizedDelete _ | MerklizedRemove _ => l
  end.
Definition op_size (op : MerklizedOp) : nat := match op with MerklizedInsert set => length set | _ => 1 end.

Lemma insert_batch_log s l set :
  Log s l → Z.of_nat (length l + length set) ≤ int_max u64 →
  match logged_batch l set with
  | Some l' => ∃ s', merklized_insert_batch encode set s = (Ok (), s') ∧ Log s' l' ∧ length l' = (length l + length set)%nat
  | None => ∃ e s', merklized_insert_batch encode set s = (Err e, s')
  end.
Proof.
  unfold merklized_insert_batch. revert s l. induction set as [|[k v] set IH]; intros s l HL Hlen; cbn [logged_batch st_for].
  - exists s. split; [done|]. split; [done|]. cbn. lia.
  - cbn [length] in Hlen. rewrite bind_case. cbn [fst snd]. rewrite bind_case. case_decide as Hin.
    + destruct (replace_known s l k v HL Hin) as (s' & -> & _). by eexists _, _.
    + destruct (replace_new s l k v HL Hin ltac:(lia)) as (s' & -> & HL'). cbn [mret ST_ret].
      specialize (IH s' _ HL'). rewrite length_app in IH. cbn [length] in IH. specialize (IH ltac:(lia)).
      destruct (logged_batch _ set) as [l'|]; [|done]. destruct IH as (s2 & Hrun & HL2 & Hl2). exists s2.
      split; [done|]. split; [done|]. cbn [length]. lia.
Qed.

Lemma remove_batch_keeps set s : (merklized_remove_batch set s).2 = s.
Proof.
  unfold merklized_remove_batch. induction set as [|k set IH]; [done|]. cbn [st_for]. rewrite bind_case. unfold merklized_remove at 1.
  by destruct (rows_get (mk_values s) k).
Qed.

Lemma run_merklized_log s l op :
  Log s l → Z.of_nat (length l + op_size op) ≤ int_max u64 →
  Log (run_merklized s op) (logged l op) ∧ (length (logged l op) ≤ length l + op_size op)%nat.
Proof.
  intros HL Hlen. destruct op as [k v|k|k|set|set]; cbn [run_merklized logged op_size] in *; try (split; [|lia]).
  - case_decide as Hin; (split; [|rewrite ?length_app; cbn; lia]).
    + destruct (replace_known s l k v HL Hin) as (s' & -> & _). done.
    + by destruct (replace_new s l k v HL Hin ltac:(lia)) as (s' & -> & HL').
  - unfold merklized_take. rewrite bind_case. unfold merklized_remove.
    destruct (rows_get (mk_values s) k) as [v|] eqn:Hv; [done|]. rewrite bind_case. cbn [st_get]. rewrite bind_case. cbn [st_modify mret ST_ret].
    eapply Log_ext; [| | |exact HL]; [|done..]. intros k'. cbn [mk_values]. unfold rows_delete, rows_get. cbn [row_base row_writes].
    destruct (decide (k' = k)) as [->|Hne]; [by rewrite lookup_insert_eq|by rewrite lookup_insert_ne].
  - unfold merklized_delete, merklized_remove. by destruct (rows_get (mk_values s) k).
  - pose proof (insert_batch_log s l set HL Hlen) as Hb. destruct (logged_batch l set) as [l'|]; cbn [unwrap_or].
    + destruct Hb as (s' & -> & HL' & Hl'). split; [done|lia].
    + destruct Hb as (e & s' & ->). split; [done|lia].
  - pose proof (remove_batch_keeps set s) as Hk. destruct (merklized_remove_batch set s) as [[]]; cbn in Hk; by subst.
Qed.

(** A table with a Merkle tree is append-only: after any sequence of replacements,
    takings and deletions, alone or in batches, it holds the first value given
    for every key, the root kept with a key is that of the values up to it in the order of
    insertion, and the latest root that of all of them. *)
Theorem merklized_append_only ops :
  Z.of_nat (sum_list_with op_size ops) ≤ int_max u64 →
  Log (foldl run_merklized (MkMerklized (rows_on ∅) (rows_on ∅) (rows_on ∅)) ops) (foldl logged [] ops).
Proof.
  intros Hlen. assert (∀ s l, Log s l → Z.of_nat (length l + sum_list_with op_size ops) ≤ int_max u64 →
    Log (foldl run_merklized s ops) (foldl logged l ops)) as Hgen.
  { clear Hlen. induction ops as [|op ops IH]; intros s l HL Hb; cbn [foldl]; [done|]. cbn [sum_list_with] in Hb.
    destruct (run_merklized_log s l op HL ltac:(lia)). apply IH; [done|lia]. }
  by apply Hgen; [apply Log_empty|].
Qed.

(** [put] does not refuse a known key: the value is overridden and the tree
    gets a second leaf for it. *)
Lemma put_overrides k v v' :
  ∃ s1 s2, merklized_put encode k v (MkMerklized (rows_on ∅) (rows_on ∅) (rows_on ∅)) = (Ok (), s1)
    ∧ merklized_put encode k v' s1 = (Ok (), s2)
    ∧ merklized_get k s2 = Some v' ∧ merklized_root k s2 = Ok (merkle_root [encode v; encode v']).
Proof.
  destruct (insert_into_tree_log _ [] k v Log_empty) as (s1 & Hrun1 & [_ Hv1 Hl1 _ Hn1]); [apply not_elem_of_nil|vm_compute; done|].
  cbn [app length] in *. rewrite decide_False in Hl1 by done. destruct (tree_push_ok (mk_nodes s1) 1 [encode v] (encode v') Hn1) as (w & Hpush & _); [done|vm_compute; done|].
  exists s1. eexists. split; [unfold merklized_put; rewrite bind_case; exact Hrun1|].
  unfold merklized_put. rewrite bind_case. cbn [put_value st_modify]. unfold insert_into_tree. cbn [mk_metadata mk_nodes mk_values].
  rewrite Hl1. cbn [unwrap_or]. change (md_version (log_metadata 1 [(k, v)])) with 1. rewrite Hpush. split; [done|].
  unfold merklized_get, merklized_root. cbn [mk_metadata mk_nodes mk_values]. rewrite rows_get_put_eq. split; [done|].
  rewrite rows_get_put_ne by done. by rewrite rows_get_put_eq.
Qed.
End merklized_facts.

(** ** A tree

    A tree that stores its leaves only. *)
#[export] Instance leaf_tree `{Hashing} : BinaryMerkleTree := {|
  Node := list Z;
  tree_push get version data :=
    match mapM get (seqZ 0 version) with
    | Some l => Ok ([(version, data)], version + 1, merkle_root (l ++ [data]))
    | None => Err "node not found"%string
    end
|}.
#[export] Instance leaf_tree_laws `{Hashing} : BinaryMerkleTreeLaws.
Proof.
  refine {| tree_leaves get n := mapM get (seqZ 0 n) |}.
  - intros get get' n Hext. apply mapM_ext. intros i. apply Hext.
  - done.
  - intros nodes n l data Hl Hlen _. exists [(n, data)]. cbn [tree_push leaf_tree]. rewrite Hl. split; [done|].
    assert (∀ m, m ≤ n → mapM (rows_get (rows_put n data nodes)) (seqZ 0 m) = mapM (rows_get nodes) (seqZ 0 m)) as Hkeep.
    { intros m Hm. apply Forall_mapM_ext, Forall_forall. intros j Hj%elem_of_seqZ. apply rows_get_put_ne. lia. }
    split; [|exact Hkeep]. rewrite seqZ_app by lia. apply mapM_Some, Forall2_app.
    + apply mapM_Some. by rewrite Hkeep.
    + constructor; [|constructor]. rewrite Z.add_0_l. apply rows_get_put_eq.
Defined.

Lemma merklized_append_only_witness :
  ∃ s l, Log (HH := sample_hashing) (λ v : Z, [v]) s l ∧ l = [(1, 10); (2, 20)] ∧ merklized_get 1 s = Some 10.
Proof.
  pose (ops := [MerklizedReplace 1 10; MerklizedReplace 1 11; MerklizedDelete 1; MerklizedInsert [(2, 20); (1, 12)]; MerklizedInsert [(2, 20)]] : list (MerklizedOp (K := Z) (V := Z))).
  eexists _, _. split; [apply (merklized_append_only (HH := sample_hashing) (λ v : Z, [v]) ops); vm_compute; discriminate|].
  split; vm_compute; reflexivity.
Defined.
