(* ===== verification/HistoricalDatabase.v ===== *)
(** * The database with a history

    [crates/fuel-core/src/state/historical_rocksdb.rs] and its modules: every
    block that is committed leaves behind the changes that undo it, by height
    and, in a duplicate of each column, by key and height.  They serve to roll
    blocks back and to read the state as it was at a past height.

    Rocksdb is the ordered map it keeps on disk.  Its columns are the original
    ones, their duplicates and the two history columns; the operations that
    are stored as values are not serialised.  A storage transaction that is
    committed at the end is the sequence of its writes. *)
From stdpp Require Import fin_maps sorting.
From S2P Require Import Prelude BlockTypes Transactional.

(** ** Columns *)
Definition HISTORY_COLUMN_ID : Z := int_max u32 / 2.
Definition HISTORY_V2_COLUMN_ID : Z := HISTORY_COLUMN_ID + 1.
Definition historical_duplicate_column_id (id : Z) : Z :=
  saturating_sub u32 (saturating_sub u32 HISTORY_COLUMN_ID 1) id.
Inductive HistoricalColumn := OriginalColumn (c : Column) | HistoricalDuplicateColumn (c : Column) | HistoryColumn | HistoryV2Column.
Definition column_id (c : HistoricalColumn) : Z :=
  match c with
  | OriginalColumn c => c
  | HistoricalDuplicateColumn c => historical_duplicate_column_id c
  | HistoryColumn => HISTORY_COLUMN_ID
  | HistoryV2Column => HISTORY_V2_COLUMN_ID
  end.

(** ** The tables *)
Inductive StateRewindPolicy := NoRewind | RewindFullRange | RewindRange (size : Z).
#[export] Instance StateRewindPolicy_eq_dec : EqDecision StateRewindPolicy.
Proof. solve_decision. Defined.

Definition Store : Type := gmap Column (gmap Key Value).
Record HistoricalDb := MkHistoricalDb {
  state_rewind_policy : StateRewindPolicy;
  original : Store;
  duplicates : gmap Column Tree;              (* by [height_key] *)
  modifications_history_v2 : gmap Z Changes;
  modifications_history_v1 : gmap Z Changes;
  has_v1_history : bool
}.
#[export] Instance eta_HistoricalDb : Eta HistoricalDb := λ r,
  MkHistoricalDb (state_rewind_policy r) (original r) (duplicates r) (modifications_history_v2 r) (modifications_history_v1 r)
    (has_v1_history r).

(** [HistoricalRocksDB::new] over the tables that are on disk *)
Definition HistoricalDb_new (policy : StateRewindPolicy) (s : Store) (dup : gmap Column Tree) (v2 v1 : gmap Z Changes)
    : HistoricalDb :=
  MkHistoricalDb policy s dup v2 v1 (bool_decide (is_Some (head (map_to_list v1)))).

Definition column_of {A} (m : gmap Column (gmap Key A)) (c : Column) : gmap Key A := unwrap_or ∅ (m !! c).
Definition store_get (s : Store) (key : Key) (column : Column) : option Value := column_of s column !! key.
Definition change_of (ch : Changes) (key : Key) (column : Column) : option WriteOperation := column_of ch column !! key.

(** Writing changes to rocksdb *)
Definition apply_column (t : Tree) (m : gmap Key Value) : gmap Key Value :=
  merge (λ op old, match op with Some (Insert value) => Some value | Some Remove => None | None => old end) t m.
Definition write_changes (ch : Changes) (s : Store) : Store :=
  merge (λ t old, match t with Some t => Some (apply_column t (unwrap_or ∅ old)) | None => old end) ch s.

Definition height_key (key : Key) (height : Z) : Key := key ++ to_be_bytes 8 height.
(** The entries of a column of the duplicates at a height. *)
Definition at_height (height : Z) (t : Tree) : Tree := kmap (λ key, height_key key height) t.

(** ** Reverse changes *)
Definition reverse_operation (was : option Value) (became : WriteOperation) : option WriteOperation :=
  match was, became with
  | None, Remove => None
  | None, Insert _ => Some Remove
  | Some old_value, Remove => Some (Insert old_value)
  | Some old_value, Insert new_value => if decide (old_value = new_value) then None else Some (Insert old_value)
  end.
Definition reverse_history_changes (self : HistoricalDb) (changes : Changes) : Changes :=
  map_imap (λ column t, Some (map_imap (λ key became, reverse_operation (store_get (original self) key column) became) t)) changes.

Definition remove_historical_modifications (old_height : Z) (reverse_changes : Changes) (self : HistoricalDb) : HistoricalDb :=
  self <| duplicates :=
    merge (λ t old, match t, old with Some t, Some old => Some (old ∖ at_height old_height t) | _, old => old end)
      reverse_changes (duplicates self) |>.

Definition remove_v1_entries (self : HistoricalDb) : HistoricalDb :=
  if has_v1_history self then (self <| modifications_history_v1 := (∅ : gmap Z Changes) |>) <| has_v1_history := false |> else self.

Definition cleanup_old_changes (height : Z) (self : HistoricalDb) : HistoricalDb :=
  match state_rewind_policy self with
  | NoRewind | RewindFullRange => self
  | RewindRange size =>
      let old_height := saturating_sub u64 height size in
      match modifications_history_v2 self !! old_height with
      | Some old_changes =>
          remove_v1_entries (remove_historical_modifications old_height old_changes
            (self <| modifications_history_v2 := delete old_height (modifications_history_v2 self) |>))
      | None => self
      end
  end.

(** [store_modifications_history], for changes that are written with it. *)
Definition store_modifications_history (changes : Changes) (height : Z) (self : HistoricalDb) : HistoricalDb :=
  if decide (state_rewind_policy self = NoRewind) then self
  else
    let reverse_changes := reverse_history_changes self changes in
    let self := cleanup_old_changes height self in
    let old_changes := modifications_history_v2 self !! height in
    let self := self <| modifications_history_v2 := <[height := reverse_changes]> (modifications_history_v2 self) |> in
    let self := match old_changes with Some old_changes => remove_historical_modifications height old_changes self | None => self end in
    self <| duplicates :=
      merge (λ t old, match t with Some t => Some (at_height height t ∪ unwrap_or ∅ old) | None => old end)
        reverse_changes (duplicates self) |>.

(** ** Commits *)
Inductive StorageChanges := OneChanges (changes : Changes) | ChangesList (changes : list Changes).
(** [list.into_iter().flatten().collect()]: a later entry of a [HashMap]
    replaces an earlier one with the same column. *)
Definition flatten_changes (changes : StorageChanges) : Changes :=
  match changes with
  | OneChanges changes => changes
  | ChangesList l => foldl (λ acc ch, ch ∪ acc) ∅ l
  end.
Inductive HistoricalError :=
| ConflictingChanges
| NoHistoryForRequestedHeight (requested_height : Z)
| NotFoundModificationsHistory
| SliceOutOfRange.     (* a panic *)

(** [RocksDb::commit_changes]: one batch, in which no key occurs twice. *)
Definition change_keys (ch : Changes) : gset (Column * Key) :=
  list_to_set (map_to_list ch ≫= λ p, (λ e, (p.1, e.1)) <$> map_to_list p.2).
Fixpoint populate_batch (conflict_finder : gset (Column * Key)) (l : list Changes) (s : Store) : result HistoricalError Store :=
  match l with
  | [] => Ok s
  | changes :: l =>
      if decide (conflict_finder ## change_keys changes) then
        populate_batch (conflict_finder ∪ change_keys changes) l (write_changes changes s)
      else Err ConflictingChanges
  end.
Definition rocksdb_commit_changes (changes : StorageChanges) (s : Store) : result HistoricalError Store :=
  match changes with
  | OneChanges changes => populate_batch ∅ [changes] s
  | ChangesList l => populate_batch ∅ l s
  end.

Definition historical_commit_changes (height : option Z) (changes : StorageChanges) (self : HistoricalDb)
    : result HistoricalError HistoricalDb :=
  match height with
  | Some height =>
      if decide (state_rewind_policy self = NoRewind) then
        s ← rocksdb_commit_changes changes (original self); mret (self <| original := s |>)
      else
        let all_changes := flatten_changes changes in
        let db := store_modifications_history all_changes height self in
        s ← rocksdb_commit_changes (OneChanges all_changes) (original self);
        mret (db <| original := s |>)
  | None => s ← rocksdb_commit_changes changes (original self); mret (self <| original := s |>)
  end.

(** ** Rolling back *)
Definition multiversion_contains (self : HistoricalDb) (height : Z) : bool :=
  let contains_v2 := bool_decide (is_Some (modifications_history_v2 self !! height)) in
  if negb contains_v2 && has_v1_history self then bool_decide (is_Some (modifications_history_v1 self !! height)) else contains_v2.
Definition multiversion_take (height : Z) (self : HistoricalDb) : option Changes * HistoricalDb :=
  let v2_last_changes := modifications_history_v2 self !! height in
  let self := self <| modifications_history_v2 := delete height (modifications_history_v2 self) |> in
  match v2_last_changes with
  | None =>
      if has_v1_history self then
        (modifications_history_v1 self !! height, self <| modifications_history_v1 := delete height (modifications_history_v1 self) |>)
      else (None, self)
  | Some changes => (Some changes, self)
  end.
Definition rollback_block_to (height_to_rollback : Z) (self : HistoricalDb) : result HistoricalError HistoricalDb :=
  match multiversion_take height_to_rollback self with
  | (None, _) => Err NotFoundModificationsHistory
  | (Some last_changes, self) =>
      let self := remove_historical_modifications height_to_rollback last_changes self in
      Ok (self <| original := write_changes last_changes (original self) |>)
  end.

(** ** Views *)
Record ViewAtHeight := MkViewAtHeight { view_height : Z; read_db : HistoricalDb }.
Definition create_view_at (height : Z) (self : HistoricalDb) : result HistoricalError ViewAtHeight :=
  let rollback_height := saturating_add u64 height 1 in
  let contains := multiversion_contains self rollback_height in
  let contains := if contains then contains else multiversion_contains self height in
  if contains then Ok (MkViewAtHeight rollback_height self) else Err (NoHistoryForRequestedHeight height).

(** The first entry from a key on, in the order of bytes. *)
Definition seek (from : Key) (t : Tree) : option (Key * WriteOperation) :=
  head (List.filter (λ e, bytes_le from e.1) (entries t)).
Definition view_get (self : ViewAtHeight) (key : Key) (column : Column) : result HistoricalError (option Value) :=
  let latest := Ok (store_get (original (read_db self)) key column) in
  match seek (height_key key (view_height self)) (column_of (duplicates (read_db self)) column) with
  | Some (found_key, operation) =>
      if decide (length found_key < length key)%nat then Err SliceOutOfRange
      else if decide (take (length key) found_key = key) then
        Ok match operation with Insert value => Some value | Remove => None end
      else latest
  | None => latest
  end.
