(* ===== verification/HistoricalDatabaseFacts.v ===== *)
(** * What the database with a history guarantees

    Reading at a past height gives the state after that block, rolling a
    block back undoes it, and the history reaches as far as the policy says.
    Stores are compared by what they answer. *)
From stdpp Require Import fin_maps sorting.
From S2P Require Import Prelude BlockTypes Transactional TransactionalFacts StructuredStorage HistoricalDatabase.

(** ** Columns *)
(** The column families do not overlap, as long as a database has fewer than
    [2 ^ 30 - 1] columns of its own; this is why each is a table of its own in
    the model. *)
Definition own_column (c : HistoricalColumn) : Prop :=
  match c with
  | OriginalColumn c | HistoricalDuplicateColumn c => 0 ≤ c < 2 ^ 30 - 1
  | HistoryColumn | HistoryV2Column => True
  end.
Lemma column_id_inj a b : own_column a → own_column b → column_id a = column_id b → a = b.
Proof.
  assert (HISTORY_COLUMN_ID = 2 ^ 31 - 1) as Hid by done.
  destruct a, b; cbn [own_column column_id]; unfold historical_duplicate_column_id, HISTORY_V2_COLUMN_ID, saturating_sub, clamp;
    rewrite ?Hid; intros; try done; try (f_equal; lia); cbn in *; try lia.
  all: f_equal; lia.
Qed.

(** ** Lookups *)
Definition op_value (op : WriteOperation) : option Value := match op with Insert value => Some value | Remove => None end.
Definition same_store (s s' : Store) : Prop := ∀ k c, store_get s k c = store_get s' k c.
#[export] Instance same_store_equivalence : Equivalence same_store.
Proof. split; [done| |]; intros x y; unfold same_store; [done|]. intros z Hxy Hyz k c. by rewrite Hxy. Qed.

Lemma write_changes_get ch s k c :
  store_get (write_changes ch s) k c = match change_of ch k c with Some op => op_value op | None => store_get s k c end.
Proof.
  unfold store_get, change_of, column_of, write_changes. rewrite lookup_merge. destruct (ch !! c) as [t|] eqn:E; cbn.
  - unfold apply_column. rewrite lookup_merge. destruct (t !! k) as [[v|]|]; cbn; [done..|].
    by case_match.
  - rewrite lookup_empty. by case_match.
Qed.
#[export] Instance write_changes_proper ch : Proper (same_store ==> same_store) (write_changes ch).
Proof. intros s s' Hs k c. rewrite !write_changes_get. by destruct (change_of ch k c). Qed.

Lemma reverse_history_changes_get db ch k c :
  change_of (reverse_history_changes db ch) k c = change_of ch k c ≫= reverse_operation (store_get (original db) k c).
Proof.
  unfold change_of, column_of, reverse_history_changes. rewrite map_lookup_imap. destruct (ch !! c) as [t|]; cbn; [|by rewrite !lookup_empty].
  by rewrite map_lookup_imap.
Qed.

(** [rc] leads from [s'] back to [s]. *)
Definition undoes (rc : Changes) (s' s : Store) : Prop :=
  ∀ k c, match change_of rc k c with Some op => store_get s k c = op_value op | None => store_get s k c = store_get s' k c end.

Lemma undoes_reverse db ch : undoes (reverse_history_changes db ch) (write_changes ch (original db)) (original db).
Proof.
  intros k c. rewrite reverse_history_changes_get, write_changes_get. destruct (change_of ch k c) as [op|]; [|done].
  cbn. unfold reverse_operation. destruct (store_get (original db) k c) as [old|], op as [v|]; cbn; try done. by case_decide; subst.
Qed.
Lemma undoes_write rc s' s : undoes rc s' s → same_store (write_changes rc s') s.
Proof. intros Hu k c. specialize (Hu k c). rewrite write_changes_get. by destruct (change_of rc k c). Qed.
Lemma undoes_proper rc s1 s1' s2 s2' : same_store s1 s1' → same_store s2 s2' → undoes rc s1 s2 → undoes rc s1' s2'.
Proof. intros H1 H2 Hu k c. specialize (Hu k c). rewrite <- (H1 k c), <- (H2 k c). done. Qed.

(** ** Heights *)
Definition is_height (h : Z) : Prop := 0 ≤ h < 2 ^ 64.
(** A database that has no history yet. *)
Definition fresh_db (policy : StateRewindPolicy) (s : Store) : HistoricalDb := HistoricalDb_new policy s ∅ ∅ ∅.
Lemma height_key_inj k h k' h' : is_height h → is_height h' → height_key k h = height_key k' h' → k = k' ∧ h = h'.
Proof.
  unfold height_key. intros Hh Hh' Heq. apply app_inj_2 in Heq as [-> Heq]; [|by rewrite !to_be_bytes_length].
  split; [done|]. apply (to_be_bytes_inj 8); [exact Hh|exact Hh'|done].
Qed.
Lemma height_key_le k h k' h' :
  is_height h → is_height h' → (k `prefix_of` k' → k = k') → (k' `prefix_of` k → k = k') →
  bytes_le (height_key k h) (height_key k' h') = if decide (k = k') then bool_decide (h ≤ h') else bytes_le k k'.
Proof. intros Hh Hh' H1 H2. unfold height_key. rewrite bytes_le_app by done. case_decide; [|done]. by apply (be_bytes_order 8). Qed.

(** The first entry from a key on. *)
Lemma seek_spec from t :
  match seek from t with
  | Some (k, op) => t !! k = Some op ∧ bytes_le from k = true ∧ ∀ k', is_Some (t !! k') → bytes_le from k' = true → bytes_le k k' = true
  | None => ∀ k, is_Some (t !! k) → bytes_le from k = false
  end.
Proof.
  assert (∀ k op, (k, op) ∈ entries t ↔ t !! k = Some op) as Hin.
  { intros k op. unfold entries. rewrite (merge_sort_Permutation entry_le (map_to_list t)). apply elem_of_map_to_list. }
  assert (StronglySorted entry_le (entries t)) as Hs by (apply StronglySorted_merge_sort; apply _).
  unfold seek. destruct (head _) as [[k op]|] eqn:Hh.
  - destruct (List.filter _ (entries t)) as [|e l] eqn:Hf; [done|]. injection Hh as ->.
    assert ((k, op) ∈ entries t ∧ bytes_le from k = true) as [Hk Hle].
    { assert ((k, op) ∈ List.filter (λ e, bytes_le from e.1) (entries t)) as Hk by (rewrite Hf; left).
      apply list_elem_of_In, filter_In in Hk as [Hk ?]. by split; [apply list_elem_of_In|]. }
    split; [by apply Hin|]. split; [done|]. intros k' [op' Hk'%Hin] Hle'.
    assert (StronglySorted entry_le ((k, op) :: l)) as Hsl.
    { rewrite <- Hf. clear -Hs. induction Hs as [|x l Hl IH Hx]; cbn; [constructor|]. destruct (bytes_le from x.1); [|done].
      constructor; [done|]. rewrite Forall_forall in *. intros y Hy. apply Hx. apply list_elem_of_In, filter_In in Hy as [Hy _].
      by apply list_elem_of_In. }
    apply StronglySorted_inv in Hsl as [_ Hall]. rewrite Forall_forall in Hall.
    assert ((k', op') ∈ (k, op) :: l) as [Heq|Hl]%elem_of_cons.
    { rewrite <- Hf. apply list_elem_of_In, filter_In. split; [by apply list_elem_of_In|done]. }
    + injection Heq as -> _. apply bytes_le_refl.
    + by apply (Hall (k', op')).
  - intros k [op Hk%Hin]. apply not_true_iff_false. intros Hle.
    assert ((k, op) ∈ List.filter (λ e, bytes_le from e.1) (entries t)) as Hk'.
    { apply list_elem_of_In, filter_In. split; [by apply list_elem_of_In|done]. }
    destruct (List.filter _ (entries t)); [by apply not_elem_of_nil in Hk'|done].
Qed.

(** ** The invariant

    [states] is the store after each block; the history holds the blocks above
    [lo] up to the latest, [h].  No key of a column is a prefix of another, and
    their lengths differ by no more than the eight bytes of a height. *)
Section history.
Context (keys : Column → Key → Prop).
Context (keys_prefix_free : ∀ c a b, keys c a → keys c b → a `prefix_of` b → a = b).
Context (keys_spread : ∀ c a b, keys c a → keys c b → (length a ≤ length b + 8)%nat).
Definition proper_keys (ch : Changes) : Prop := ∀ k c, is_Some (change_of ch k c) → keys c k.

Record History (lo h : Z) (states : Z → Store) (db : HistoricalDb) : Prop := {
  hi_store : same_store (original db) (states h);
  hi_range j : is_Some (modifications_history_v2 db !! j) ↔ lo < j ≤ h;
  hi_undo j rc : modifications_history_v2 db !! j = Some rc → undoes rc (states j) (states (j - 1)) ∧ proper_keys rc;
  hi_dup c hk op : column_of (duplicates db) c !! hk = Some op ↔
    ∃ j rc k, modifications_history_v2 db !! j = Some rc ∧ hk = height_key k j ∧ change_of rc k c = Some op;
  hi_v1 : has_v1_history db = false;
  hi_lo : -1 ≤ lo ≤ h;
  hi_h : h < 2 ^ 64
}.

Lemma hi_height lo h states db j : History lo h states db → is_Some (modifications_history_v2 db !! j) → is_height j.
Proof. intros [_ Hr _ _ _ Hlo Hh] Hj%Hr. unfold is_height. lia. Qed.

#[local] Instance height_key_inj_key h : Inj (=) (=) (λ k, height_key k h).
Proof. intros k k' Heq. unfold height_key in Heq. by apply app_inj_2 in Heq as [? _]. Qed.
Lemma at_height_Some h t hk op : at_height h t !! hk = Some op ↔ ∃ k, hk = height_key k h ∧ t !! k = Some op.
Proof. unfold at_height. by rewrite (lookup_kmap_Some (λ k, height_key k h)). Qed.

Lemma remove_duplicates_get h rc db c hk op :
  column_of (duplicates (remove_historical_modifications h rc db)) c !! hk = Some op ↔
    column_of (duplicates db) c !! hk = Some op ∧ ¬ ∃ k, hk = height_key k h ∧ is_Some (change_of rc k c).
Proof.
  unfold remove_historical_modifications, column_of, change_of. cbn [duplicates]. rewrite lookup_merge.
  destruct (rc !! c) as [t|] eqn:Et; unfold column_of; rewrite ?Et; destruct (duplicates db !! c) as [old|]; cbn; rewrite ?lookup_empty.
  - rewrite lookup_difference_Some. split; intros [Ho Hn]; (split; [done|]).
    + intros (k & -> & op' & Hop'). assert (at_height h t !! height_key k h = Some op') as H by (apply at_height_Some; eauto). congruence.
    + apply eq_None_not_Some. intros [op' (k & -> & Hk)%at_height_Some]. apply Hn. exists k. split; [done|]. by exists op'.
  - naive_solver.
  - split; [|tauto]. intros Ho. split; [done|]. intros (k & -> & Hk). rewrite lookup_empty in Hk. by destruct Hk.
  - naive_solver.
Qed.

Lemma add_duplicates_get (h : Z) (rc : Changes) (dup : gmap Column Tree) (c : Column) (hk : Key) (op : WriteOperation) :
  column_of (merge (λ t old, match t with Some t => Some (at_height h t ∪ unwrap_or ∅ old) | None => old end) rc dup) c !! hk = Some op ↔
    (∃ k, hk = height_key k h ∧ change_of rc k c = Some op)
    ∨ (column_of dup c !! hk = Some op ∧ ¬ ∃ k, hk = height_key k h ∧ is_Some (change_of rc k c)).
Proof.
  unfold column_of at 1. rewrite lookup_merge. unfold change_of, column_of. destruct (rc !! c) as [t|]; cbn.
  - rewrite lookup_union_Some_raw, at_height_Some. split; (intros [?|[Hn Ho]]; [by left|right]).
    + split; [by destruct (dup !! c)|]. intros (k & -> & op' & Hk). assert (at_height h t !! height_key k h = Some op') as H by (apply at_height_Some; eauto). congruence.
    + split; [|by destruct (dup !! c)]. apply eq_None_not_Some. intros [op' (k & -> & Hk)%at_height_Some]. apply Ho. exists k. split; [done|]. by exists op'.
  - assert (∀ k, (∅ : Tree) !! k = None) as He by (intros; apply lookup_empty). setoid_rewrite He.
    destruct (dup !! c) as [m|]; cbn; rewrite ?He; split; try naive_solver; intros Ho; right; (split; [done|]); by intros (? & _ & []).
Qed.

(** Dropping the oldest block of the history. *)
Lemma history_drop lo h states db rc :
  History lo h states db → modifications_history_v2 db !! (lo + 1) = Some rc →
  History (lo + 1) h states
    (remove_historical_modifications (lo + 1) rc (db <| modifications_history_v2 := delete (lo + 1) (modifications_history_v2 db) |>)).
Proof.
  intros HI Hrc. pose proof (hi_height _ _ _ _ (lo + 1) HI (mk_is_Some _ _ Hrc)) as Hlo1. destruct HI as [Hs Hr Hu Hd Hv1 Hlo Hh].
  split; cbn [original modifications_history_v2 has_v1_history remove_historical_modifications]; try done.
  - intros j. rewrite lookup_delete_is_Some, Hr. lia.
  - intros j rc' Hj. apply lookup_delete_Some in Hj as [_ Hj]. by apply Hu.
  - intros c hk op. rewrite remove_duplicates_get. cbn [duplicates]. rewrite Hd. split.
    + intros [(j & rc' & k & Hj & -> & Hop) Hn]. exists j, rc', k. split; [|done]. apply lookup_delete_Some. split; [|done].
      intros <-. rewrite Hrc in Hj. injection Hj as <-. apply Hn. exists k. by rewrite Hop.
    + intros (j & rc' & k & [Hne Hj]%lookup_delete_Some & -> & Hop). split; [by exists j, rc', k|].
      intros (k' & Heq & _). assert (is_height j) as Hj' by (destruct (proj1 (Hr j) (mk_is_Some _ _ Hj)); unfold is_height; lia).
      apply height_key_inj in Heq as [_ ->]; done.
  - assert (lo < lo + 1 ≤ h) by (apply Hr; by exists rc). lia.
Qed.

(** A block on top of the history. *)
Lemma history_add lo h states db ch s :
  History lo h states db → h + 1 < 2 ^ 64 → proper_keys ch → same_store s (states (h + 1)) →
  same_store s (write_changes ch (original db)) →
  let rc := reverse_history_changes db ch in
  History lo (h + 1) states
    ((db <| modifications_history_v2 := <[h + 1 := rc]> (modifications_history_v2 db) |>)
       <| duplicates :=
         merge (λ t old, match t with Some t => Some (at_height (h + 1) t ∪ unwrap_or ∅ old) | None => old end) rc (duplicates db) |>
       <| original := s |>).
Proof.
  intros HI Hh1 Hfix Hs1 Hs2 rc. pose proof (λ j, hi_height _ _ _ _ j HI) as Hheight. destruct HI as [Hs Hr Hu Hd Hv1 Hlo Hh].
  assert (is_height (h + 1)) as Hnew by (unfold is_height; lia).
  assert (modifications_history_v2 db !! (h + 1) = None) as Hfresh by (apply eq_None_not_Some; rewrite Hr; lia).
  split; cbn [original modifications_history_v2 duplicates has_v1_history]; try done; [| | |lia].
  - intros j. rewrite lookup_insert_is_Some, Hr. lia.
  - intros j rc' [[<- <-]|[Hne Hj]]%lookup_insert_Some; [|by apply Hu]. split.
    + eapply undoes_proper; [| |apply undoes_reverse].
      * etrans; [|exact Hs1]. by symmetry.
      * by replace (h + 1 - 1) with h by lia.
    + intros k c. unfold rc. rewrite reverse_history_changes_get. intros [op Hop]. apply bind_Some in Hop as (op' & Hop' & _).
      apply Hfix. by exists op'.
  - intros c hk op. rewrite add_duplicates_get, Hd. split.
    + intros [(k & -> & Hop)|[(j & rc' & k & Hj & -> & Hop) _]].
      * exists (h + 1), rc, k. by rewrite lookup_insert_eq.
      * exists j, rc', k. split; [|done]. rewrite lookup_insert_ne; [done|]. intros <-. congruence.
    + intros (j & rc' & k & [[<- <-]|[Hne Hj]]%lookup_insert_Some & -> & Hop); [left; by exists k|]. right.
      split; [by exists j, rc', k|]. intros (k' & Heq & _). apply height_key_inj in Heq as [_ ?]; [done|by apply Hheight; eauto|done].
Qed.

(** The height above which the history is kept, when the latest block is [h]
    and the history began after [h0]. *)
Definition oldest (policy : StateRewindPolicy) (h0 h : Z) : Z :=
  match policy with RewindRange size => Z.max h0 (Z.max (Z.min 0 (h - 1)) (h - size)) | _ => h0 end.
Definition policy_ok (policy : StateRewindPolicy) : Prop :=
  match policy with NoRewind => False | RewindFullRange => True | RewindRange size => 1 ≤ size < 2 ^ 64 end.

Lemma remove_v1_none db : has_v1_history db = false → remove_v1_entries db = db.
Proof. unfold remove_v1_entries. by intros ->. Qed.
Lemma cleanup_history policy h0 h states db :
  state_rewind_policy db = policy → policy_ok policy → -1 ≤ h0 ≤ h → h + 1 < 2 ^ 64 → History (oldest policy h0 h) h states db →
  let db' := cleanup_old_changes (h + 1) db in
  History (oldest policy h0 (h + 1)) h states db' ∧ state_rewind_policy db' = policy ∧ original db' = original db.
Proof.
  intros Hp Hok Hh0 Hh HI. unfold cleanup_old_changes. rewrite Hp. destruct policy as [| |size]; cbn in Hok; [done|done|].
  assert (saturating_sub u64 (h + 1) size = Z.max 0 (h + 1 - size)) as ->.
  { unfold saturating_sub, clamp, u64, unsigned. cbn [int_min int_max]. lia. }
  destruct (modifications_history_v2 db !! Z.max 0 (h + 1 - size)) as [rc|] eqn:Hrc.
  - pose proof (proj1 (hi_range _ _ _ _ HI _) (mk_is_Some _ _ Hrc)) as Hin. cbn [oldest] in Hin.
    assert (Z.max 0 (h + 1 - size) = oldest (RewindRange size) h0 h + 1) as Heq by (cbn [oldest]; lia). rewrite Heq in Hrc |- *.
    apply (history_drop _ _ _ _ _ HI) in Hrc. cbn zeta. rewrite remove_v1_none by exact (hi_v1 _ _ _ _ Hrc).
    replace (oldest (RewindRange size) h0 (h + 1)) with (oldest (RewindRange size) h0 h + 1) by (cbn [oldest]; lia).
    rewrite Hp in Hrc. split_and!; [exact Hrc|done..].
  - split; [|done]. replace (oldest (RewindRange size) h0 (h + 1)) with (oldest (RewindRange size) h0 h); [done|].
    assert (¬ (oldest (RewindRange size) h0 h < Z.max 0 (h + 1 - size) ≤ h)) as Hn.
    { rewrite <- (hi_range _ _ _ _ HI), Hrc. by intros []. }
    pose proof (hi_lo _ _ _ _ HI). cbn [oldest] in *. lia.
Qed.

Lemma commit_history policy h0 h states db ch :
  state_rewind_policy db = policy → policy_ok policy → -1 ≤ h0 ≤ h → h + 1 < 2 ^ 64 → proper_keys ch →
  History (oldest policy h0 h) h states db → states (h + 1) = write_changes ch (states h) →
  ∃ db', historical_commit_changes (Some (h + 1)) (OneChanges ch) db = Ok db'
    ∧ History (oldest policy h0 (h + 1)) (h + 1) states db' ∧ state_rewind_policy db' = policy.
Proof.
  intros Hp Hok Hh0 Hh Hfix HI Hst. unfold historical_commit_changes. rewrite decide_False by (rewrite Hp; by destruct policy).
  cbn [flatten_changes rocksdb_commit_changes populate_batch]. rewrite decide_True by set_solver. cbn. eexists. split; [done|].
  unfold store_modifications_history. rewrite decide_False by (rewrite Hp; by destruct policy).
  destruct (cleanup_history policy h0 h states db Hp Hok Hh0 Hh HI) as (HI' & Hp' & Ho).
  assert (reverse_history_changes db ch = reverse_history_changes (cleanup_old_changes (h + 1) db) ch) as ->.
  { unfold reverse_history_changes. by rewrite Ho. }
  rewrite (proj2 (eq_None_not_Some (modifications_history_v2 (cleanup_old_changes (h + 1) db) !! (h + 1)))); cycle 1.
  { rewrite (hi_range _ _ _ _ HI'). lia. }
  cbn zeta. split; [|done]. refine (history_add _ h states _ ch _ HI' Hh Hfix _ _).
  - rewrite Hst. rewrite <- Ho. f_equiv. apply (hi_store _ _ _ _ HI').
  - by rewrite Ho.
Qed.

(** A key that no block in between changed. *)
Lemma unchanged lo h states db k c a b :
  History lo h states db → lo ≤ a → a ≤ b → b ≤ h →
  (∀ j rc, a < j ≤ b → modifications_history_v2 db !! j = Some rc → change_of rc k c = None) →
  store_get (states a) k c = store_get (states b) k c.
Proof.
  intros HI Hlo Hab Hbh Hnone. replace b with (a + Z.of_nat (Z.to_nat (b - a))) in * by lia. revert Hbh Hnone.
  generalize (Z.to_nat (b - a)). clear Hab b. intros n. induction n as [|n IH]; intros Hbh Hnone; [by rewrite Z.add_0_r|].
  rewrite IH; [|lia|intros j rc Hj; apply Hnone; lia].
  destruct (proj2 (hi_range _ _ _ _ HI (a + Z.of_nat (S n))) ltac:(lia)) as [rc Hrc].
  destruct (hi_undo _ _ _ _ HI _ _ Hrc) as [Hu _]. specialize (Hu k c). rewrite (Hnone (a + Z.of_nat (S n)) rc) in Hu by (done || lia).
  replace (a + Z.of_nat (S n) - 1) with (a + Z.of_nat n) in Hu by lia. done.
Qed.

Lemma height_key_prefix c k k0 j : keys c k → keys c k0 → take (length k) (height_key k0 j) = k ↔ k0 = k.
Proof.
  intros Hk Hk0. unfold height_key. split; [|intros ->; by rewrite take_app_length].
  intros Ht. destruct (decide (length k ≤ length k0)%nat) as [Hl|Hl].
  - symmetry. apply (keys_prefix_free c); [done..|]. rewrite take_app_le in Ht by lia. rewrite <- Ht. apply prefix_take.
  - apply (keys_prefix_free c); [done..|]. rewrite take_app_ge in Ht by lia. rewrite <- Ht. by apply prefix_app_r.
Qed.

Lemma column_key_le c k h k' h' :
  is_height h → is_height h' → keys c k → keys c k' →
  bytes_le (height_key k h) (height_key k' h') = if decide (k = k') then bool_decide (h ≤ h') else bytes_le k k'.
Proof. intros Hh Hh' Hk Hk'. apply height_key_le; [done..|by eapply keys_prefix_free|]. intros. symmetry. by eapply keys_prefix_free. Qed.

(** Reading at a height of the history. *)
Lemma view_get_spec lo h states db x k c :
  History lo h states db → lo ≤ x ≤ h → 0 ≤ x → x + 1 < 2 ^ 64 → keys c k →
  view_get (MkViewAtHeight (x + 1) db) k c = Ok (store_get (states x) k c).
Proof.
  intros HI Hx Hx0 Hx1 Hlen. unfold view_get. cbn [view_height read_db].
  assert (∀ k' j rc, modifications_history_v2 db !! j = Some rc → is_Some (change_of rc k' c) → is_height j ∧ keys c k') as Hj.
  { intros k' j rc Hrc Hc. split; [by eapply hi_height|]. by apply (hi_undo _ _ _ _ HI _ _ Hrc). }
  assert (is_height (x + 1)) as Hxh by (unfold is_height; lia).
  pose proof (seek_spec (height_key k (x + 1)) (column_of (duplicates db) c)) as Hseek.
  destruct (seek _ _) as [[hk op]|].
  - destruct Hseek as (Hhk & Hle & Hmin). apply (hi_dup _ _ _ _ HI) in Hhk as (j & rc & k0 & Hrc & -> & Hop).
    destruct (Hj k0 j rc Hrc (mk_is_Some _ _ Hop)) as [Hjh Hl0]. rewrite decide_False; cycle 1.
    { unfold height_key. rewrite length_app, to_be_bytes_length. pose proof (keys_spread c k k0 Hlen Hl0). lia. }
    rewrite (decide_ext _ (k0 = k)) by (by apply (height_key_prefix c)).
    rewrite (column_key_le c k (x + 1) k0 j) in Hle by done.
    assert (∀ j' rc', x < j' → modifications_history_v2 db !! j' = Some rc' → is_Some (change_of rc' k c) → k0 = k ∧ j ≤ j') as Hfirst.
    { intros j' rc' Hj' Hrc' [op' Hop']. destruct (Hj k j' rc' Hrc' (mk_is_Some _ _ Hop')) as [Hj'h _].
      specialize (Hmin (height_key k j')). rewrite !(column_key_le c) in Hmin by done. rewrite decide_True in Hmin by done.
      specialize (Hmin ltac:(exists op'; apply (hi_dup _ _ _ _ HI); eauto 10) ltac:(apply bool_decide_eq_true; lia)).
      destruct (decide (k = k0)) as [<-|Hne]; [rewrite decide_True in Hmin by done; split; [done|by apply bool_decide_eq_true in Hmin]|].
      rewrite decide_False in Hmin by done. by destruct Hne; apply bytes_le_antisym. }
    destruct (decide (k0 = k)) as [->|Hne].
    + rewrite decide_True in Hle by done. apply bool_decide_eq_true in Hle. destruct (hi_undo _ _ _ _ HI _ _ Hrc) as [Hu _].
      specialize (Hu k c). rewrite Hop in Hu. f_equal. pose proof (proj1 (hi_range _ _ _ _ HI j) (mk_is_Some _ _ Hrc)).
      rewrite (unchanged _ _ _ _ k c x (j - 1) HI) by (try lia; intros j' rc' Hjj Hrc'; apply eq_None_not_Some; intros Hs;
        destruct (Hfirst j' rc' ltac:(lia) Hrc' Hs); lia). by rewrite Hu.
    + f_equal. rewrite (unchanged _ _ _ _ k c x h HI) by (try lia; intros j' rc' Hjj Hrc'; apply eq_None_not_Some; intros Hs;
        destruct (Hfirst j' rc' ltac:(lia) Hrc' Hs); done). apply (hi_store _ _ _ _ HI).
  - f_equal. rewrite (unchanged _ _ _ _ k c x h HI) by (try lia; intros j' rc' Hjj Hrc'; apply eq_None_not_Some; intros [op' Hop'];
      specialize (Hseek (height_key k j') ltac:(exists op'; apply (hi_dup _ _ _ _ HI); eauto 10));
      rewrite (column_key_le c), decide_True in Hseek by (try done; apply (hi_height _ _ _ _ _ HI); eauto); apply bool_decide_eq_false in Hseek; lia).
    apply (hi_store _ _ _ _ HI).
Qed.

(** Rolling back the latest block. *)
Lemma rollback_history lo h states db :
  History lo h states db → lo < h → ∃ db', rollback_block_to h db = Ok db' ∧ History lo (h - 1) states db'.
Proof.
  intros HI Hlt. destruct (proj2 (hi_range _ _ _ _ HI h) ltac:(lia)) as [rc Hrc].
  pose proof (λ j, hi_height _ _ _ _ j HI) as Hheight. unfold rollback_block_to, multiversion_take. rewrite Hrc.
  destruct HI as [Hs Hr Hu Hd Hv1 Hlo Hh]. eexists. split; [done|].
  split; cbn [original modifications_history_v2 has_v1_history remove_historical_modifications]; try done; try lia.
  - etrans; [|apply undoes_write, Hu, Hrc]. by f_equiv.
  - intros j. rewrite lookup_delete_is_Some, Hr. lia.
  - intros j rc' [_ Hj]%lookup_delete_Some. by apply Hu.
  - intros c hk op. cbn [duplicates].
    set (db1 := db <| modifications_history_v2 := delete h (modifications_history_v2 db) |>).
    change (merge _ rc (duplicates db)) with (duplicates (remove_historical_modifications h rc db1)).
    rewrite remove_duplicates_get. cbn [db1 duplicates]. rewrite Hd. split.
    + intros [(j & rc' & k & Hj & -> & Hop) Hn]. exists j, rc', k. split; [|done]. apply lookup_delete_Some. split; [|done].
      intros <-. rewrite Hrc in Hj. injection Hj as <-. apply Hn. exists k. by rewrite Hop.
    + intros (j & rc' & k & [Hne Hj]%lookup_delete_Some & -> & Hop). split; [by exists j, rc', k|].
      intros (k' & Heq & _). apply height_key_inj in Heq as [_ ->]; [done|apply Hheight; eauto..].
Qed.

(** ** Runs *)
Fixpoint commit_blocks (h : Z) (chs : list Changes) (db : HistoricalDb) : result HistoricalError HistoricalDb :=
  match chs with
  | [] => Ok db
  | ch :: chs => db ← historical_commit_changes (Some (h + 1)) (OneChanges ch) db; commit_blocks (h + 1) chs db
  end.
Fixpoint rollback_blocks (n : nat) (h : Z) (db : HistoricalDb) : result HistoricalError HistoricalDb :=
  match n with
  | O => Ok db
  | S n => db ← rollback_block_to h db; rollback_blocks n (h - 1) db
  end.
(** The store after the block at height [h]. *)
Definition state_at (h0 : Z) (s0 : Store) (chs : list Changes) (h : Z) : Store :=
  foldl (λ s ch, write_changes ch s) s0 (take (Z.to_nat (h - h0)) chs).

Lemma commit_blocks_history policy h0 states chs h db :
  policy_ok policy → -1 ≤ h0 ≤ h → h + Z.of_nat (length chs) < 2 ^ 64 → Forall proper_keys chs →
  (∀ i ch, chs !! i = Some ch → states (h + Z.of_nat i + 1) = write_changes ch (states (h + Z.of_nat i))) →
  state_rewind_policy db = policy → History (oldest policy h0 h) h states db →
  ∃ db', commit_blocks h chs db = Ok db' ∧ state_rewind_policy db' = policy
    ∧ History (oldest policy h0 (h + Z.of_nat (length chs))) (h + Z.of_nat (length chs)) states db'.
Proof.
  intros Hok. revert h db. induction chs as [|ch chs IH]; intros h db Hh0 Hlen Hfix Hst Hp HI; cbn [commit_blocks length] in *.
  - exists db. by rewrite Z.add_0_r.
  - apply Forall_cons in Hfix as [Hf Hfix].
    destruct (commit_history policy h0 h states db ch) as (db' & -> & HI' & Hp'); [done|done|done|lia|done|done| |].
    { specialize (Hst 0%nat ch eq_refl). by rewrite !Z.add_0_r in Hst. }
    cbn. destruct (IH (h + 1) db') as (db2 & Hc & Hp2 & HI2); [lia|lia|done| |done|done|].
    { intros i ch' Hi. specialize (Hst (S i) ch' Hi).
      by replace (h + 1 + Z.of_nat i) with (h + Z.of_nat (S i)) by lia. }
    exists db2. by replace (h + Z.of_nat (S (length chs))) with (h + 1 + Z.of_nat (length chs)) by lia.
Qed.

Lemma new_history policy h0 s0 chs :
  policy_ok policy → -1 ≤ h0 < 2 ^ 64 → History (oldest policy h0 h0) h0 (state_at h0 s0 chs) (fresh_db policy s0).
Proof.
  intros Hok Hh0. assert (oldest policy h0 h0 = h0) as -> by (destruct policy; cbn in *; lia).
  split; cbn; try done; try lia.
  - unfold state_at. by rewrite Z.sub_diag.
  - intros j. rewrite lookup_empty. split; [by intros []|lia].
  - intros c hk op. unfold column_of. cbn. rewrite !lookup_empty. split; [done|]. by intros (j & rc & k & Hj & _); rewrite lookup_empty in Hj.
Qed.

Lemma run_history policy h0 s0 chs :
  policy_ok policy → -1 ≤ h0 → h0 + Z.of_nat (length chs) < 2 ^ 64 → Forall proper_keys chs →
  let h := h0 + Z.of_nat (length chs) in
  ∃ db, commit_blocks h0 chs (fresh_db policy s0) = Ok db ∧ History (oldest policy h0 h) h (state_at h0 s0 chs) db.
Proof.
  intros Hok Hh0 Hlen Hfix. destruct (commit_blocks_history policy h0 (state_at h0 s0 chs) chs h0 (fresh_db policy s0)) as (db & Hc & _ & HI);
    [done|lia|done|done| |done|apply new_history; [done|lia]|by exists db].
  intros i ch Hi. unfold state_at. replace (Z.to_nat (h0 + Z.of_nat i + 1 - h0)) with (S i) by lia.
  replace (Z.to_nat (h0 + Z.of_nat i - h0)) with i by lia. by rewrite (take_S_r _ _ _ Hi), foldl_snoc.
Qed.

Lemma create_view_spec lo h states db x :
  History lo h states db → lo < h → 0 ≤ x → x + 1 < 2 ^ 64 →
  create_view_at x db = if decide (lo ≤ x ≤ h) then Ok (MkViewAtHeight (x + 1) db) else Err (NoHistoryForRequestedHeight x).
Proof.
  intros HI Hlt Hx Hx1. unfold create_view_at, multiversion_contains. rewrite (hi_v1 _ _ _ _ HI), !andb_false_r.
  assert (saturating_add u64 x 1 = x + 1) as -> by (unfold saturating_add, clamp, u64, unsigned; cbn [int_min int_max]; lia).
  pose proof (hi_range _ _ _ _ HI (x + 1)) as H1. pose proof (hi_range _ _ _ _ HI x) as H2.
  rewrite (bool_decide_ext _ _ H1), (bool_decide_ext _ _ H2). destruct (bool_decide (lo < x + 1 ≤ h)) eqn:E1.
  - apply bool_decide_eq_true in E1. by rewrite decide_True by lia.
  - apply bool_decide_eq_false in E1. destruct (bool_decide (lo < x ≤ h)) eqn:E2.
    + apply bool_decide_eq_true in E2. by rewrite decide_True by lia.
    + apply bool_decide_eq_false in E2. by rewrite decide_False by lia.
Qed.

Lemma rollback_blocks_history lo h states db n :
  History lo h states db → lo ≤ h - Z.of_nat n →
  ∃ db', rollback_blocks n h db = Ok db' ∧ History lo (h - Z.of_nat n) states db'.
Proof.
  revert h db. induction n as [|n IH]; intros h db HI Hn; [exists db; by rewrite Z.sub_0_r|].
  destruct (rollback_history lo h states db HI) as (db1 & Hr1 & HI1); [lia|].
  destruct (IH (h - 1) db1) as (db2 & Hr2 & HI2); [done|lia|]. exists db2. cbn. rewrite Hr1. cbn. split; [done|].
  by replace (h - Z.of_nat (S n)) with (h - 1 - Z.of_nat n) by lia.
Qed.
End history.

(** C13 The view at a past height is the state after that block.  The keys of
    each column are such that none is a proper beginning of another and that
    their lengths differ by at most 8, as for keys of one length.  After any
    blocks on a database without history, each committed as one set of changes
    of such keys and in sequence with a rewind policy that keeps history, the
    database makes a view for exactly the heights that the policy promises, and
    such a view answers every read of such a key as the database did when that
    block was the latest; for other heights it reports that there is no
    history.  Heights are below [2 ^ 64]. *)
Theorem past_views_are_faithful (keys : Column → Key → Prop) policy h0 s0 chs x :
  (∀ c a b, keys c a → keys c b → a `prefix_of` b → a = b) → (∀ c a b, keys c a → keys c b → (length a ≤ length b + 8)%nat) →
  policy_ok policy → -1 ≤ h0 → h0 + Z.of_nat (length chs) < 2 ^ 64 → Forall (proper_keys keys) chs → chs ≠ [] → 0 ≤ x < 2 ^ 64 - 1 →
  ∃ db, commit_blocks h0 chs (fresh_db policy s0) = Ok db ∧
    let h := h0 + Z.of_nat (length chs) in
    match create_view_at x db with
    | Ok view => oldest policy h0 h ≤ x ≤ h ∧ ∀ k c, keys c k → view_get view k c = Ok (store_get (state_at h0 s0 chs x) k c)
    | Err e => ¬ (oldest policy h0 h ≤ x ≤ h) ∧ e = NoHistoryForRequestedHeight x
    end.
Proof.
  intros Hpf Hsp Hok Hh0 Hlen Hkeys Hne Hx. destruct (run_history keys Hpf Hsp policy h0 s0 chs Hok Hh0 Hlen Hkeys) as (db & Hc & HI). exists db. split; [done|].
  cbn zeta. assert (0 < length chs)%nat by (destruct chs; [done|cbn; lia]).
  rewrite (create_view_spec keys _ _ _ _ x HI) by (destruct policy; cbn in *; lia). case_decide as Hin; [|done]. split; [done|].
  intros k c Hk. apply (view_get_spec keys Hpf Hsp _ _ _ _ x k c HI); [done|lia..|done].
Qed.

(** C23 Rolling back undoes blocks.  With keys of columns none of which is a
    proper beginning of another in the same column and whose lengths differ by
    at most 8: after any blocks on a database without history, each committed as
    one set of changes of such keys and in sequence, as many of the latest as
    the history holds can be rolled back one by one; then the database answers
    as it did before these blocks, and its views of the heights below answer
    every read of such a key as they should.  Heights are below [2 ^ 64]. *)
Theorem rollback_undoes_blocks (keys : Column → Key → Prop) policy h0 s0 chs n :
  (∀ c a b, keys c a → keys c b → a `prefix_of` b → a = b) → (∀ c a b, keys c a → keys c b → (length a ≤ length b + 8)%nat) →
  policy_ok policy → -1 ≤ h0 → h0 + Z.of_nat (length chs) < 2 ^ 64 → Forall (proper_keys keys) chs →
  let h := h0 + Z.of_nat (length chs) in
  oldest policy h0 h ≤ h - Z.of_nat n →
  ∃ db db', commit_blocks h0 chs (fresh_db policy s0) = Ok db ∧ rollback_blocks n h db = Ok db'
    ∧ same_store (original db') (state_at h0 s0 chs (h - Z.of_nat n))
    ∧ ∀ x, 0 ≤ x → oldest policy h0 h ≤ x < h - Z.of_nat n →
        ∃ view, create_view_at x db' = Ok view ∧ ∀ k c, keys c k → view_get view k c = Ok (store_get (state_at h0 s0 chs x) k c).
Proof.
  intros Hpf Hsp Hok Hh0 Hlen Hkeys h Hn. destruct (run_history keys Hpf Hsp policy h0 s0 chs Hok Hh0 Hlen Hkeys) as (db & Hc & HI). exists db. fold h in HI.
  destruct (rollback_blocks_history keys _ _ _ _ n HI Hn) as (db' & Hr & HI').
  exists db'. split_and!; [done..|apply (hi_store keys _ _ _ _ HI')|]. intros x Hx Hin. exists (MkViewAtHeight (x + 1) db').
  rewrite (create_view_spec keys _ _ _ _ x HI') by lia. rewrite decide_True by lia. split; [done|]. intros k c Hk.
  apply (view_get_spec keys Hpf Hsp _ _ _ _ x k c HI'); [lia..|done].
Qed.

Lemma change_keys_singleton c k op : change_keys {[c := {[k := op]}]} = {[(c, k)]}.
Proof.
  unfold change_keys. rewrite map_to_list_singleton, bind_cons. cbn [snd]. rewrite map_to_list_singleton. cbn [fmap list_fmap fst mbind list_bind app].
  cbn [list_to_set foldr]. apply (right_id_L ∅ (∪)).
Qed.

(** Committing a list of changes with history loses what it should not: of two
    changes to the same column, with different keys, only those of the later
    element of the list are written, while a database without history writes
    both. *)
Theorem listed_changes_are_lost policy h s c k k' v v' :
  policy_ok policy → k ≠ k' → store_get s k c = None →
  let l := ChangesList [{[c := {[k := Insert v]}]}; {[c := {[k' := Insert v']}]}] in
  (∃ db, historical_commit_changes (Some h) l (fresh_db policy s) = Ok db
     ∧ store_get (original db) k c = None ∧ store_get (original db) k' c = Some v')
  ∧ ∃ db, historical_commit_changes (Some h) l (fresh_db NoRewind s) = Ok db
     ∧ store_get (original db) k c = Some v ∧ store_get (original db) k' c = Some v'.
Proof.
  intros Hok Hne Hnone l.
  assert (∀ k v k0, change_of {[c := {[k := Insert v]}]} k0 c = if decide (k = k0) then Some (Insert v) else None) as Hch.
  { intros k1 v1 k0. unfold change_of, column_of. rewrite lookup_singleton_eq. cbn. case_decide; subst; [by rewrite lookup_singleton_eq|].
    by rewrite lookup_singleton_ne. }
  split.
  - unfold historical_commit_changes. rewrite decide_False by (by destruct policy). cbn [l flatten_changes foldl rocksdb_commit_changes populate_batch].
    rewrite decide_True by set_solver. eexists. split; [done|]. cbn [original].
    assert ({[c := {[k' := Insert v']}]} ∪ ({[c := {[k := Insert v]}]} ∪ ∅) = ({[c := {[k' := Insert v']}]} : Changes)) as ->.
    { rewrite (right_id_L ∅ (∪)). apply map_eq. intros c0. rewrite lookup_union. destruct (decide (c = c0)) as [<-|].
      - by rewrite !lookup_singleton_eq.
      - by rewrite !lookup_singleton_ne. }
    rewrite !write_changes_get, !Hch. by rewrite decide_False, decide_True.
  - unfold historical_commit_changes. rewrite decide_True by done. cbn [l rocksdb_commit_changes populate_batch].
    rewrite decide_True by set_solver. rewrite decide_True.
    + cbn. eexists. split; [done|]. cbn [original]. rewrite !write_changes_get, !Hch. by rewrite !decide_False, !decide_True by done.
    + rewrite !change_keys_singleton. set_solver.
Qed.

(** A view can answer with another key: where a key of a column begins another
    one, the view takes the change of the longer key for a change of the
    shorter one. *)
Theorem view_confuses_prefix :
  let s0 : Store := {[0 := {[ [1] := [7] ]}]} in
  let ch : Changes := {[0 := {[ [1; 255] := Insert [9] ]}]} in
  store_get s0 [1] 0 = Some [7]
  ∧ ∃ db view, commit_blocks 0 [ch] (fresh_db RewindFullRange s0) = Ok db ∧ create_view_at 0 db = Ok view
     ∧ view_get view [1] 0 = Ok None.
Proof. split; [by vm_compute|]. eexists _, _. split_and!; [vm_compute; reflexivity..]. Qed.

(** ** Samples *)
Definition byte_keys (_ : Column) (k : Key) : Prop := length k = 1%nat.
Lemma byte_keys_prefix_free c a b : byte_keys c a → byte_keys c b → a `prefix_of` b → a = b.
Proof.
  unfold byte_keys. intros Ha Hb [l ->]. rewrite length_app in Hb. assert (length l = 0)%nat as Hl by lia.
  apply nil_length_inv in Hl as ->. by rewrite app_nil_r.
Qed.
Lemma byte_keys_spread c a b : byte_keys c a → byte_keys c b → (length a ≤ length b + 8)%nat.
Proof. unfold byte_keys. lia. Qed.
Lemma proper_singleton (keys : Column → Key → Prop) c k op : keys c k → proper_keys keys {[c := {[k := op]}]}.
Proof.
  intros Hk k' c' [op' Hop']. unfold change_of, column_of in Hop'. destruct (decide (c = c')) as [<-|].
  - rewrite lookup_singleton_eq in Hop'. cbn in Hop'. by apply lookup_singleton_Some in Hop' as [<- _].
  - by rewrite lookup_singleton_ne in Hop'.
Qed.

Definition sample_blocks : list Changes :=
  [{[3 := {[ [1] := Insert [10] ]}]}; {[3 := {[ [1] := Insert [20] ]}]}; {[3 := {[ [1] := Remove ]}]}; {[3 := {[ [2] := Insert [30] ]}]}].
Lemma sample_blocks_proper : Forall (proper_keys byte_keys) sample_blocks.
Proof. repeat (apply Forall_cons; split; [by apply proper_singleton|]). by apply Forall_nil. Qed.

Lemma past_views_are_faithful_witness :
  ∃ db, commit_blocks 0 sample_blocks (fresh_db (RewindRange 2) ∅) = Ok db ∧
    match create_view_at 2 db with
    | Ok view => 2 ≤ 2 ≤ 4 ∧ ∀ k c, byte_keys c k → view_get view k c = Ok (store_get (state_at 0 ∅ sample_blocks 2) k c)
    | Err e => ¬ (2 ≤ 2 ≤ 4) ∧ e = NoHistoryForRequestedHeight 2
    end.
Proof.
  apply (past_views_are_faithful byte_keys (RewindRange 2) 0 ∅ sample_blocks 2);
    [apply byte_keys_prefix_free|apply byte_keys_spread|cbn; lia|lia|cbn; lia|apply sample_blocks_proper|done|lia].
Defined.

Lemma rollback_undoes_blocks_witness :
  ∃ db db', commit_blocks 0 sample_blocks (fresh_db (RewindRange 3) ∅) = Ok db ∧ rollback_blocks 2 4 db = Ok db'
    ∧ same_store (original db') (state_at 0 ∅ sample_blocks 2)
    ∧ ∀ x, 0 ≤ x → 1 ≤ x < 2 →
        ∃ view, create_view_at x db' = Ok view ∧ ∀ k c, byte_keys c k → view_get view k c = Ok (store_get (state_at 0 ∅ sample_blocks x) k c).
Proof.
  apply (rollback_undoes_blocks byte_keys (RewindRange 3) 0 ∅ sample_blocks 2);
    [apply byte_keys_prefix_free|apply byte_keys_spread|cbn; lia|lia|cbn; lia|apply sample_blocks_proper|cbn; lia].
Defined.

Lemma listed_changes_are_lost_witness :
  ∃ db, historical_commit_changes (Some 1) (ChangesList [{[3 := {[ [1] := Insert [10] ]}]}; {[3 := {[ [2] := Insert [20] ]}]}])
      (fresh_db RewindFullRange ∅) = Ok db
    ∧ store_get (original db) [1] 3 = None ∧ store_get (original db) [2] 3 = Some [20].
Proof. apply (listed_changes_are_lost RewindFullRange 1 ∅ 3 [1] [2] [10] [20]); [done|done|by vm_compute]. Defined.
