(* ===== verification/Importer.v ===== *)
(** * Block verifier and importer

    [crates/services/importer/src/{importer,ports,error}.rs], the verifiers of
    [crates/services/consensus_module], the signing keys of
    [crates/chain-config/src/config/consensus.rs], and what the importer uses
    of the on-chain database ([crates/fuel-core/src/database.rs],
    [database/block.rs] and the adapters).  The tables are typed.  The changes
    of an execution to the tables of the executor are kept as the tables they
    lead to, as in the model of the executor.  Recovering a key from a
    signature is third-party code, a parameter; so is the validator, which
    [ImporterFacts.v] instantiates with the executor. *)
From stdpp Require Import strings sorting.
From S2P Require Import Prelude FuelTypes BlockTypes ExecutorTypes MerklizedTable.

(** ** Consensus *)
Record Genesis := MkGenesis {
  chain_config_hash : Bytes32;
  gen_coins_root : Bytes32;
  gen_contracts_root : Bytes32;
  gen_messages_root : Bytes32;
  gen_transactions_root : Bytes32
}.
(** [PoAConsensus] holds the signature. *)
Inductive Consensus := ConsensusGenesis (genesis : Genesis) | ConsensusPoA (signature : list Z).

Record SealedBlock := MkSealedBlock {
  entity : Block Transaction;
  seal : Consensus
}.

Record PoAV2 := MkPoAV2 {
  genesis_signing_key : Address;
  signing_key_overrides : gmap BlockHeight Address
}.
Inductive ConsensusConfig := ConfigPoA (signing_key : Address) | ConfigPoAV2 (poa : PoAV2).

(** The largest key of a map that satisfies [P]: the last in the order of keys. *)
Definition last_key {A} (P : Z → Prop) `{∀ k, Decision (P k)} (m : gmap Z A) : option Z :=
  foldr (λ k acc, if decide (P k) then Some (match acc with Some a => Z.max k a | None => k end) else acc) None
    (elements (dom m)).

Definition signing_key_at (self : PoAV2) (height : BlockHeight) : Address :=
  if decide (signing_key_overrides self = ∅) then genesis_signing_key self
  else unwrap_or (genesis_signing_key self)
         (last_key (λ h, h ≤ height) (signing_key_overrides self) ≫= λ h, signing_key_overrides self !! h).

(** ** The on-chain database *)
Inductive IndexationKind := Balances | CoinsToSpend | AssetMetadata.
Inductive DatabaseMetadata :=
| DatabaseMetadataV1 (version : Z) (height : BlockHeight)
| DatabaseMetadataV2 (version : Z) (height : BlockHeight) (indexation_availability : list IndexationKind).
Definition OnChain_version : Z := 0.

Inductive DatabaseError :=
| MultipleHeightsInCommit (heights : list Z)
| FailedToAdvanceHeight
| HeightsAreNotLinked (prev_height new_height : Z)
| NewHeightIsNotSet (prev_height : Z)
| ConflictingChanges.
Inductive StorageFailure :=
| TableFailure (e : TableError)
| DatabaseFailure (e : DatabaseError)
| NotFound (what : string).

(** [update_metadata] *)
Definition update_metadata (maybe_current_metadata : option DatabaseMetadata) (new_height : BlockHeight) : DatabaseMetadata :=
  match maybe_current_metadata with
  | Some (DatabaseMetadataV1 _ _) => DatabaseMetadataV1 OnChain_version new_height
  | Some (DatabaseMetadataV2 _ _ availability) => DatabaseMetadataV2 OnChain_version new_height availability
  | None => DatabaseMetadataV2 OnChain_version new_height [Balances; CoinsToSpend; AssetMetadata]
  end.

Section database.
Context `{HH : Hashing} `{BT : BinaryMerkleTree} `{VM : FuelVm}.

(** [fuel_blocks] of the executor's tables is the table [FuelBlocks];
    [stage_height] is the height kept beside the data. *)
Record OnChain := MkOnChain {
  ledger : Db;
  block_metadata : gmap (DenseMetadataKey BlockHeight) DenseMerkleMetadata;
  block_nodes : gmap Z Node;
  consensus_table : gmap BlockHeight Consensus;
  transactions_table : gmap TxId Transaction;
  database_metadata : option DatabaseMetadata;
  stage_height : option BlockHeight
}.

(** [Changes]: the tables of the executor after the changes, if it made some,
    and the writes to the tables that the importer owns. *)
Record Changes := MkChanges {
  ch_ledger : option Db;
  ch_blocks : gmap BlockHeight (option (Block TxId));
  ch_block_metadata : gmap (DenseMetadataKey BlockHeight) (option DenseMerkleMetadata);
  ch_block_nodes : gmap Z (option Node);
  ch_consensus : gmap BlockHeight (option Consensus);
  ch_transactions : gmap TxId (option Transaction)
}.
Definition Changes_new : Changes := MkChanges None ∅ ∅ ∅ ∅ ∅.

Definition latest_block_height (self : OnChain) : option BlockHeight :=
  last_key (λ _, True) (fuel_blocks (ledger self)).
Definition latest_block_root (self : OnChain) : option Bytes32 :=
  md_root <$> block_metadata self !! Latest.

(** [fuel_core_poa::ports::Database] of a view *)
Definition get_block (self : OnChain) (height : BlockHeight) : result StorageFailure (Block TxId) :=
  ok_or (fuel_blocks (ledger self) !! height) (NotFound "FuelBlocks").
Definition block_header (self : OnChain) (height : BlockHeight) : result StorageFailure BlockHeader :=
  header <$> get_block self height.
Definition block_header_merkle_root (self : OnChain) (height : BlockHeight) : result StorageFailure Bytes32 :=
  md_root <$> ok_or (block_metadata self !! Primary height) (TableFailure MetadataNotFound).

(** [get_full_block] *)
Fixpoint get_transactions (self : OnChain) (ids : list TxId) : result StorageFailure (list Transaction) :=
  match ids with
  | [] => Ok []
  | id :: ids =>
      tx ← ok_or (transactions_table self !! id) (NotFound "Transactions");
      txs ← get_transactions self ids;
      Ok (tx :: txs)
  end.
Definition get_full_block (self : OnChain) (height : BlockHeight) : result StorageFailure (option (Block Transaction)) :=
  match fuel_blocks (ledger self) !! height with
  | Some block => txs ← get_transactions self (transactions block); Ok (Some (uncompress_block block txs))
  | None => Ok None
  end.

(** ** Storage transactions *)
Record ImportTransaction := MkImportTransaction {
  it_ledger : option Db;
  it_blocks : Merklized (K := BlockHeight) (V := Block TxId);
  it_consensus : Rows BlockHeight Consensus;
  it_transactions : Rows TxId Transaction
}.
Definition storage_transaction (self : OnChain) (changes : Changes) : ImportTransaction :=
  MkImportTransaction (ch_ledger changes)
    (MkMerklized (MkRows (fuel_blocks (ledger self)) (ch_blocks changes))
       (MkRows (block_metadata self) (ch_block_metadata changes))
       (MkRows (block_nodes self) (ch_block_nodes changes)))
    (MkRows (consensus_table self) (ch_consensus changes))
    (MkRows (transactions_table self) (ch_transactions changes)).
Definition into_changes (self : ImportTransaction) : Changes :=
  MkChanges (it_ledger self) (row_writes (mk_values (it_blocks self)))
    (row_writes (mk_metadata (it_blocks self))) (row_writes (mk_nodes (it_blocks self)))
    (row_writes (it_consensus self)) (row_writes (it_transactions self)).
Definition transaction_latest_block_root (self : ImportTransaction) : option Bytes32 :=
  md_root <$> rows_get (mk_metadata (it_blocks self)) Latest.

(** [BlockEncoder] *)
Definition encode_block (block : Block TxId) : list Z := to_be_bytes 32 (Block_id block).

(** The loop of [store_new_block] over the transactions. *)
Fixpoint store_transactions (chain_id : Z) (txs : list Transaction) (found : bool) (rows : Rows TxId Transaction)
    : bool * Rows TxId Transaction :=
  match txs with
  | [] => (found, rows)
  | tx :: txs =>
      let id := tx_id chain_id tx in
      store_transactions chain_id txs (found || bool_decide (is_Some (rows_get rows id))) (rows_put id tx rows)
  end.
(** On an error the nested transaction is dropped, and the caller drops its
    own. *)
Definition store_new_block (chain_id : Z) (block : SealedBlock) (self : ImportTransaction)
    : result StorageFailure (bool * ImportTransaction) :=
  let h := height (consensus (header (entity block))) in
  match merklized_replace encode_block h (compress (tx_id chain_id) (entity block)) (it_blocks self) with
  | (Err e, _) => Err (TableFailure e)
  | (Ok prev, blocks) =>
      let found := bool_decide (is_Some prev) in
      let found := found || bool_decide (is_Some (rows_get (it_consensus self) h)) in
      let '(found, txs) := store_transactions chain_id (transactions (entity block)) found (it_transactions self) in
      Ok (negb found, MkImportTransaction (it_ledger self) blocks (rows_put h (seal block) (it_consensus self)) txs)
  end.

(** ** Committing *)
Definition disjoint_writes `{Countable K} {V} (a b : gmap K (option V)) : Prop := dom a ## dom b.
Definition no_conflict (a b : Changes) : Prop :=
  (ch_ledger a = None ∨ ch_ledger b = None) ∧ disjoint_writes (ch_blocks a) (ch_blocks b)
  ∧ disjoint_writes (ch_block_metadata a) (ch_block_metadata b) ∧ disjoint_writes (ch_block_nodes a) (ch_block_nodes b)
  ∧ disjoint_writes (ch_consensus a) (ch_consensus b) ∧ disjoint_writes (ch_transactions a) (ch_transactions b).
#[export] Instance disjoint_writes_dec `{Countable K} {V} (a b : gmap K (option V)) : Decision (disjoint_writes a b).
Proof. unfold disjoint_writes. apply _. Defined.
#[export] Instance ledger_none_dec (o : option Db) : Decision (o = None).
Proof. destruct o; [right|left]; done. Defined.
#[export] Instance no_conflict_dec a b : Decision (no_conflict a b).
Proof. unfold no_conflict. apply _. Defined.

Definition apply_changes (c : Changes) (self : OnChain) : OnChain :=
  let l := unwrap_or (ledger self) (ch_ledger c) in
  MkOnChain (l <| fuel_blocks := apply_writes (ch_blocks c) (fuel_blocks (ledger self)) |>)
    (apply_writes (ch_block_metadata c) (block_metadata self)) (apply_writes (ch_block_nodes c) (block_nodes self))
    (apply_writes (ch_consensus c) (consensus_table self)) (apply_writes (ch_transactions c) (transactions_table self))
    (database_metadata self) (stage_height self).

(** The heights that the changes insert blocks at, from the highest down. *)
Definition inserted_heights (c : Changes) : list BlockHeight :=
  rev (merge_sort Z.le (elements (dom (omap (λ o : option (Block TxId), o) (ch_blocks c))))).

(** [commit_changes_with_height_update] for the two sets of changes of the
    importer; the data is written in one atomic batch. *)
Definition commit_changes (block_changes changes : Changes) (self : OnChain) : result DatabaseError OnChain :=
  let new_heights := inserted_heights block_changes ++ inserted_heights changes in
  if decide (1 < length new_heights)%nat then Err (MultipleHeightsInCommit new_heights)
  else
    let new_height := last new_heights in
    _ ← match stage_height self, new_height with
        | None, None | None, Some _ => Ok ()
        | Some prev_height, Some new_height =>
            next_expected_height ← ok_or (checked_add u32 prev_height 1) FailedToAdvanceHeight;
            if decide (next_expected_height = new_height) then Ok () else Err (HeightsAreNotLinked prev_height new_height)
        | Some prev_height, None => Err (NewHeightIsNotSet prev_height)
        end;
    if decide (no_conflict block_changes changes) then
      let self := apply_changes changes (apply_changes block_changes self) in
      Ok match new_height with
         | Some new_height =>
             MkOnChain (ledger self) (block_metadata self) (block_nodes self) (consensus_table self)
               (transactions_table self) (Some (update_metadata (database_metadata self) new_height)) (Some new_height)
         | None => self
         end
    else Err ConflictingChanges.
End database.

(** ** The verifiers *)
Record VerifierConfig := MkVerifierConfig {
  vc_consensus : ConsensusConfig;
  vc_block_height : BlockHeight;
  vc_da_block_height : DaBlockHeight
}.

(** The conditions of the [ensure!]s, in the order they are checked. *)
Inductive VerificationError :=
| GenesisPreviousRootNotZeroed
| GenesisTimeNotUnixEpoch
| GenesisDaHeightNotExpected
| GenesisHeightNotExpected
| PoAHeightIsZero
| PreviousRootMismatch
| DaHeightIsLower
| TimeIsLower
| ApplicationHashMismatch
| TransactionsDontMatchHeader
| VerificationStorage (e : StorageFailure).

(** [Tai64::UNIX_EPOCH] *)
Definition UNIX_EPOCH : Z := 10 + 2 ^ 62.

Definition ensure {E} (P : Prop) `{Decision P} (e : E) : result E unit :=
  if decide P then Ok () else Err e.

Section verifier.
Context `{HH : Hashing} `{BT : BinaryMerkleTree} `{VM : FuelVm}.
(** [Signature::recover] of a message with the address of the key,
    [Input::owner] *)
Variable recover_owner : list Z → Bytes32 → option Address.

(** [fuel_core_poa::verifier::verify_consensus] *)
Definition poa_verify_consensus (consensus_config : ConsensusConfig) (h : BlockHeader) (signature : list Z) : bool :=
  let signing_key :=
    match consensus_config with
    | ConfigPoA signing_key => signing_key
    | ConfigPoAV2 poa => signing_key_at poa (height (consensus h))
    end in
  match recover_owner signature (header_id h) with
  | Some k => bool_decide (k = signing_key)
  | None => false
  end.
Definition verify_consensus (self : VerifierConfig) (h : BlockHeader) (seal : Consensus) : bool :=
  match seal with
  | ConsensusGenesis _ => true
  | ConsensusPoA signature => poa_verify_consensus (vc_consensus self) h signature
  end.

Definition verify_genesis_block_fields (expected_genesis_height : BlockHeight) (expected_genesis_da_height : DaBlockHeight)
    (h : BlockHeader) : result VerificationError unit :=
  _ ← ensure (prev_root (consensus h) = 0) GenesisPreviousRootNotZeroed;
  _ ← ensure (time (consensus h) = UNIX_EPOCH) GenesisTimeNotUnixEpoch;
  _ ← ensure (da_height (application h) = expected_genesis_da_height) GenesisDaHeightNotExpected;
  ensure (expected_genesis_height = height (consensus h)) GenesisHeightNotExpected.

(** [fuel_core_poa::verifier::verify_block_fields] *)
Definition poa_verify_block_fields (database : OnChain) (block : Block Transaction) : result VerificationError unit :=
  let h := header block in
  _ ← ensure (height (consensus h) ≠ 0) PoAHeightIsZero;
  let prev_height := height (consensus h) - 1 in
  prev ← map_err VerificationStorage (block_header_merkle_root database prev_height);
  _ ← ensure (prev_root (consensus h) = prev) PreviousRootMismatch;
  prev_header ← map_err VerificationStorage (block_header database prev_height);
  _ ← ensure (da_height (application prev_header) ≤ da_height (application h)) DaHeightIsLower;
  _ ← ensure (time (consensus prev_header) ≤ time (consensus h)) TimeIsLower;
  _ ← ensure (application_hash (con_generated (consensus h)) = application_header_hash (application h)) ApplicationHashMismatch;
  ensure (validate_transactions h (transactions block) = true) TransactionsDontMatchHeader.

Definition verify_block_fields (self : VerifierConfig) (database : OnChain) (seal : Consensus) (block : Block Transaction)
    : result VerificationError unit :=
  match seal with
  | ConsensusGenesis _ => verify_genesis_block_fields (vc_block_height self) (vc_da_block_height self) (header block)
  | ConsensusPoA _ => poa_verify_block_fields database block
  end.
End verifier.

(** ** The importer *)
Inductive ImporterError :=
| SemaphoreTaken
| InvalidUnderlyingDatabaseGenesisState
| InvalidDatabaseStateAfterExecution (expected actual : option Bytes32)
| Overflow
| ZeroNonGenericHeight
| IncorrectBlockHeight (expected actual : BlockHeight)
| BlockIdMismatch (expected actual : Bytes32)
| FailedVerification (e : VerificationError)
| ImportFailedExecution (e : ExecutorError)
| ExecuteGenesis
| NotUnique (height : BlockHeight)
| PreviousBlockProcessingNotFinished
| SendCommandToInnerTaskFailed
| InnerTaskIsNotRunning
| ImportStorage (e : StorageFailure)
| UnsupportedConsensusVariant (consensus : string)
| ActiveBlockResultsSemaphoreClosed
| RayonTaskWasCanceled.

Inductive ImportSource := SourceNetwork | SourceLocal.
Record ImportResult := MkImportResult {
  ir_sealed_block : SealedBlock;
  ir_tx_status : list TransactionExecutionStatus;
  ir_events : list ExecutorEvent;
  ir_source : ImportSource
}.

Section importer.
Context `{HH : Hashing} `{BT : BinaryMerkleTree} `{VM : FuelVm}.

(** [Uncommitted<ImportResult, Changes>] *)
Record UncommittedResult := MkUncommittedResult { un_result : ImportResult; un_changes : Changes }.
Record PrepareImportResult := MkPrepareImportResult { pi_result : UncommittedResult; pi_block_changes : Changes }.
Inductive CommitInput := Uncommitted (result : UncommittedResult) | Prepared (result : PrepareImportResult).

Record VerifyAndExecutionResult := MkVerifyAndExecutionResult {
  ve_tx_status : list TransactionExecutionStatus;
  ve_events : list ExecutorEvent;
  ve_changes : Changes
}.

(** The configuration and the port of the executor. *)
Record ImporterConfig := MkImporterConfig {
  ic_chain_id : Z;
  ic_verifier : VerifierConfig;
  ic_validate : OnChain → Block Transaction → result ExecutorError VerifyAndExecutionResult
}.

Definition create_block_changes (chain_id : Z) (sealed_block : SealedBlock) (database : OnChain) : result ImporterError Changes :=
  let actual_next_height := height (consensus (header (entity sealed_block))) in
  expected_next_height ←
    match seal sealed_block with
    | ConsensusGenesis _ =>
        match latest_block_height database with
        | Some _ => Err InvalidUnderlyingDatabaseGenesisState
        | None => Ok actual_next_height
        end
    | ConsensusPoA _ =>
        if decide (actual_next_height = 0) then Err ZeroNonGenericHeight
        else
          last_db_height ← ok_or (latest_block_height database) (ImportStorage (NotFound "Latest block height"));
          ok_or (checked_add u32 last_db_height 1) Overflow
    end;
  if decide (expected_next_height ≠ actual_next_height)
  then Err (IncorrectBlockHeight expected_next_height actual_next_height)
  else
    '(is_new, transaction) ←
      map_err ImportStorage (store_new_block chain_id sealed_block (storage_transaction database Changes_new));
    if is_new : bool then Ok (into_changes transaction) else Err (NotUnique actual_next_height).

Definition verify_and_execute_block_inner (config : ImporterConfig) (database : OnChain) (sealed_block : SealedBlock)
    : result ImporterError VerifyAndExecutionResult :=
  let block := entity sealed_block in
  let sealed_block_id := Block_id block in
  _ ← map_err FailedVerification (verify_block_fields (ic_verifier config) database (seal sealed_block) block);
  match seal sealed_block with
  | ConsensusGenesis _ => Err ExecuteGenesis
  | ConsensusPoA _ =>
      result ← map_err ImportFailedExecution (ic_validate config database block);
      let actual_block_id := Block_id block in
      if decide (actual_block_id ≠ sealed_block_id) then Err (BlockIdMismatch sealed_block_id actual_block_id)
      else Ok result
  end.

(** Both computations read the same database; the error of the execution
    comes first. *)
Definition prepare_import_result (config : ImporterConfig) (database : OnChain) (sealed_block : SealedBlock)
    : result ImporterError PrepareImportResult :=
  let block_changes_result := create_block_changes (ic_chain_id config) sealed_block database in
  let execution_result := verify_and_execute_block_inner config database sealed_block in
  result ← execution_result;
  block_changes ← block_changes_result;
  Ok (MkPrepareImportResult
        (MkUncommittedResult (MkImportResult sealed_block (ve_tx_status result) (ve_events result) SourceNetwork)
           (ve_changes result))
        block_changes).

(** [_commit_result]: the database after it and the result to announce *)
Definition commit_prepared (prepare : PrepareImportResult) (database : OnChain) : result ImporterError (OnChain * ImportResult) :=
  let result := un_result (pi_result prepare) in
  let expected_block_root := latest_block_root database in
  let db_after_execution := storage_transaction database (un_changes (pi_result prepare)) in
  let actual_block_root := transaction_latest_block_root db_after_execution in
  if decide (actual_block_root ≠ expected_block_root)
  then Err (InvalidDatabaseStateAfterExecution expected_block_root actual_block_root)
  else
    database ← map_err (λ e, ImportStorage (DatabaseFailure e))
                 (commit_changes (pi_block_changes prepare) (into_changes db_after_execution) database);
    Ok (database, result).
Definition commit_input (config : ImporterConfig) (input : CommitInput) (database : OnChain)
    : result ImporterError (OnChain * ImportResult) :=
  prepare ←
    match input with
    | Uncommitted result =>
        block_changes ← create_block_changes (ic_chain_id config) (ir_sealed_block (un_result result)) database;
        Ok (MkPrepareImportResult result block_changes)
    | Prepared result => Ok result
    end;
  commit_prepared prepare database.

(** The importer with its database: [guard_free] is the semaphore of one permit,
    [active_import_results] counts the free permits for results that nobody
    has finished processing yet, [in_progress] the taken ones.  A result that
    is announced keeps its permit as long as a subscriber holds it. *)
Record Importer := MkImporter {
  database : OnChain;
  guard_free : bool;
  active_import_results : nat;
  in_progress : nat;
  subscribed : bool;
  announced : list ImportResult
}.

Definition Importer_new (max_block_notify_buffer : nat) (db : OnChain) : Importer :=
  MkImporter db true max_block_notify_buffer 0 false [].

(** Subscribers finish with [n] results, which frees their permits. *)
Definition finish_results (n : nat) (self : Importer) : Importer :=
  let n := Nat.min n (in_progress self) in
  MkImporter (database self) (guard_free self) (active_import_results self + n) (in_progress self - n) (subscribed self)
    (announced self).
Definition subscribe (self : Importer) : Importer :=
  MkImporter (database self) (guard_free self) (active_import_results self) (in_progress self) true (announced self).

(** Waiting for a permit and committing with it: subscribers finish with
    [finished] results before the timeout.  A failed commit and an
    announcement that nobody receives give the permit back. *)
Definition commit_with_permit (config : ImporterConfig) (finished : nat) (input : CommitInput) (self : Importer)
    : result ImporterError unit * Importer :=
  let self := finish_results finished self in
  match active_import_results self with
  | O => (Err PreviousBlockProcessingNotFinished, self)
  | S permits =>
      match commit_input config input (database self) with
      | Err e => (Err e, self)
      | Ok (db, result) =>
          (Ok (), if subscribed self
                  then MkImporter db (guard_free self) permits (S (in_progress self)) true (announced self ++ [result])
                  else MkImporter db (guard_free self) (S permits) (in_progress self) false (announced self))
      end
  end.

Definition commit_result (config : ImporterConfig) (finished : nat) (uncommitted : UncommittedResult) (self : Importer)
    : result ImporterError unit * Importer :=
  if guard_free self then commit_with_permit config finished (Uncommitted uncommitted) self else (Err SemaphoreTaken, self).
Definition execute_and_commit (config : ImporterConfig) (finished : nat) (sealed_block : SealedBlock) (self : Importer)
    : result ImporterError unit * Importer :=
  if guard_free self then
    match prepare_import_result config (database self) sealed_block with
    | Err e => (Err e, self)
    | Ok result => commit_with_permit config finished (Prepared result) self
    end
  else (Err SemaphoreTaken, self).
End importer.
