(* ===== verification/ImporterFacts.v ===== *)
(** * What the block importer guarantees

    Whatever blocks an importer is given, its database holds a chain: blocks
    at consecutive heights, with the Merkle roots over their ids, their seals
    and their transactions, none of them twice.  An import that fails leaves
    the database as it was; one that succeeds links the block to all blocks
    before it and applies exactly what its execution says. *)
From stdpp Require Import strings sorting.
From S2P Require Import Prelude FuelTypes BlockTypes ExecutorTypes MerklizedTable Importer.

(** ** Rows and writes *)
Section writes.
Context {K V : Type} `{Countable K}.

Lemma apply_no_writes (m : gmap K V) : apply_writes ∅ m = m.
Proof. apply map_eq. intros k. by rewrite apply_writes_lookup, lookup_empty. Qed.

Lemma rows_on_apply (r : Rows K V) (m : gmap K V) k :
  row_base r = m → rows_get (rows_on (apply_writes (row_writes r) m)) k = rows_get r k.
Proof. intros <-. by rewrite rows_get_on, rows_apply. Qed.
End writes.

Section importer_facts.
Context `{HH : Hashing} `{BT : BinaryMerkleTree} `{BL : !BinaryMerkleTreeLaws} `{VM : FuelVm}.
Implicit Types (db : OnChain) (b : SealedBlock) (bs : list SealedBlock).

Lemma write_nodes_base w (nodes : Rows Z Node) : row_base (write_nodes w nodes) = row_base nodes.
Proof. unfold write_nodes. revert nodes. induction w as [|e w IH]; intros nodes; cbn [foldl]; [done|]. by rewrite IH. Qed.

(** A successful replacement writes one value and keeps what is below. *)
Lemma replace_writes {V : Type} (encode : V → list Z) (k : Z) (v : V) s o s' :
  merklized_replace encode k v s = (Ok o, s') →
  row_writes (mk_values s') = <[k := Some v]> (row_writes (mk_values s))
  ∧ row_base (mk_values s') = row_base (mk_values s) ∧ row_base (mk_metadata s') = row_base (mk_metadata s)
  ∧ row_base (mk_nodes s') = row_base (mk_nodes s).
Proof.
  unfold merklized_replace. rewrite bind_case. cbn [st_get]. rewrite bind_case. cbn [put_value st_modify]. rewrite bind_case.
  set (s1 := MkMerklized _ _ _). destruct (rows_get (mk_values s) k) as [v0|].
  - unfold merklized_remove. cbn [mk_values s1]. by rewrite rows_get_put_eq.
  - cbn [mret ST_ret]. rewrite bind_case. unfold insert_into_tree. destruct (tree_push _ _ _) as [[[w version] root]|]; [|done].
    intros [= <- <-]. cbn [mk_values mk_metadata mk_nodes s1]. by rewrite write_nodes_base.
Qed.

(** ** The chain in the database *)
Definition block_height b : BlockHeight := height (consensus (header (entity b))).
Definition tx_ids (chain_id : Z) b : list TxId := tx_id chain_id <$> transactions (entity b).
Definition blocks_view db : Merklized (K := BlockHeight) (V := Block TxId) :=
  MkMerklized (rows_on (fuel_blocks (ledger db))) (rows_on (block_metadata db)) (rows_on (block_nodes db)).
Definition block_entries (chain_id : Z) bs : list (BlockHeight * Block TxId) :=
  (λ b, (block_height b, compress (tx_id chain_id) (entity b))) <$> bs.

(** The database holds exactly the blocks [bs]. *)
Record Chain (chain_id : Z) db bs : Prop := {
  cn_log : Log encode_block (blocks_view db) (block_entries chain_id bs);
  cn_stage : stage_height db = block_height <$> last bs;
  cn_linked i b b' : bs !! i = Some b → bs !! S i = Some b' → block_height b' = block_height b + 1;
  cn_seals h c : consensus_table db !! h = Some c ↔ ∃ b, b ∈ bs ∧ block_height b = h ∧ seal b = c;
  cn_ids : NoDup (bs ≫= tx_ids chain_id);
  cn_txs id tx : transactions_table db !! id = Some tx ↔
    ∃ b, b ∈ bs ∧ tx ∈ transactions (entity b) ∧ tx_id chain_id tx = id
}.

(** Changes that only concern the tables of the executor. *)
Definition execution_only (c : Changes) : Prop :=
  ch_blocks c = ∅ ∧ ch_block_metadata c = ∅ ∧ ch_block_nodes c = ∅ ∧ ch_consensus c = ∅ ∧ ch_transactions c = ∅.

Lemma store_transactions_spec chain_id txs found rows rows' :
  store_transactions chain_id txs found rows = (false, rows') →
  found = false ∧ NoDup (tx_id chain_id <$> txs) ∧ (∀ tx, tx ∈ txs → rows_get rows (tx_id chain_id tx) = None)
  ∧ row_base rows' = row_base rows
  ∧ ∀ id tx, rows_get rows' id = Some tx ↔ rows_get rows id = Some tx ∨ (tx ∈ txs ∧ tx_id chain_id tx = id).
Proof.
  revert found rows. induction txs as [|tx txs IH]; intros found rows; cbn [store_transactions].
  - intros [= -> <-]. split; [done|]. split; [constructor|]. split; [set_solver|]. split; [done|]. set_solver.
  - intros Hrun. destruct (IH _ _ Hrun) as (Hf & Hnd & Hno & Hbase & Hget).
    apply orb_false_iff in Hf as [-> Hnew]. apply bool_decide_eq_false in Hnew. rewrite <- eq_None_not_Some in Hnew.
    assert (∀ tx', tx' ∈ txs → tx_id chain_id tx' ≠ tx_id chain_id tx ∧ rows_get rows (tx_id chain_id tx') = None) as Hne.
    { intros tx' Hin. specialize (Hno tx' Hin). destruct (decide (tx_id chain_id tx' = tx_id chain_id tx)) as [Heq|Hneq].
      - rewrite Heq, rows_get_put_eq in Hno. done.
      - by rewrite rows_get_put_ne in Hno. }
    split; [done|]. split; [|split; [|split; [done|]]].
    + rewrite fmap_cons. constructor; [|done]. intros (tx' & Heq & Hin)%list_elem_of_fmap. by destruct (Hne tx' Hin) as [[] _].
    + intros tx' [->|Hin]%elem_of_cons; [done|]. by apply Hne.
    + intros id tx0. rewrite Hget. destruct (decide (id = tx_id chain_id tx)) as [->|Hid].
      * rewrite rows_get_put_eq, Hnew. split.
        -- intros [[= ->]|[Hin Heq]]; [right; split; [left|done]|right; split; [by right|done]].
        -- intros [?|[[->|Hin]%elem_of_cons Heq]]; [done|by left|right; by split].
      * rewrite rows_get_put_ne by done. rewrite elem_of_cons. naive_solver.
Qed.

Lemma inserted_heights_none c : ch_blocks c = ∅ → inserted_heights c = [].
Proof. intros Hc. unfold inserted_heights. rewrite Hc. done. Qed.

Lemma inserted_heights_one c h cb : ch_blocks c = <[h := Some cb]> ∅ → inserted_heights c = [h].
Proof.
  intros Hc. unfold inserted_heights. rewrite Hc.
  assert (omap (λ o : option (Block TxId), o) (<[h := Some cb]> (∅ : gmap BlockHeight (option (Block TxId)))) = {[h := cb]}) as ->.
  { apply map_eq. intros k. rewrite lookup_omap. destruct (decide (k = h)) as [->|Hk].
    - by rewrite lookup_insert_eq, lookup_singleton_eq.
    - by rewrite lookup_insert_ne, lookup_empty, lookup_singleton_ne. }
  rewrite dom_singleton_L, elements_singleton. done.
Qed.

(** ** Adding one block *)

(** Heights are 32-bit integers, so a chain is short enough for its tree. *)
Definition heights_ok bs : Prop := Forall (λ b, in_range u32 (block_height b)) bs.

Lemma chain_heights chain_id db bs i b0 b :
  Chain chain_id db bs → head bs = Some b0 → bs !! i = Some b → block_height b = block_height b0 + Z.of_nat i.
Proof.
  intros HC H0. revert b. induction i as [|i IH]; intros b Hi.
  - destruct bs; [done|]. cbn in *. injection H0 as <-. injection Hi as <-. lia.
  - destruct (lookup_lt_is_Some_2 bs i) as [b' Hb']; [apply lookup_lt_Some in Hi; lia|].
    rewrite (cn_linked _ _ _ HC i b' b Hb' Hi), (IH b' Hb'). lia.
Qed.

Lemma chain_length chain_id db bs : Chain chain_id db bs → heights_ok bs → Z.of_nat (length bs) < int_max u64.
Proof.
  intros HC Hok. destruct bs as [|b0 bs']; [vm_compute; done|]. set (bs := b0 :: bs') in *.
  destruct (lookup_lt_is_Some_2 bs (length bs - 1)) as [b Hb]; [cbn; lia|].
  pose proof (chain_heights chain_id db bs _ b0 b HC eq_refl Hb) as Hh. unfold heights_ok in Hok. rewrite Forall_forall in Hok.
  pose proof (Hok b (list_elem_of_lookup_2 _ _ _ Hb)) as [_ H1]. pose proof (Hok b0 ltac:(left)) as [H2 _]. int_unfold.
  assert (0 < length bs)%nat by (cbn; lia). lia.
Qed.

(** What [create_block_changes] prepares. *)
Record prepared (chain_id : Z) db bs b (bc : Changes) : Prop := {
  pr_ledger : ch_ledger bc = None;
  pr_blocks : ch_blocks bc = <[block_height b := Some (compress (tx_id chain_id) (entity b))]> ∅;
  pr_log : ∃ s, Log encode_block s (block_entries chain_id (bs ++ [b]))
    ∧ mk_values s = MkRows (fuel_blocks (ledger db)) (ch_blocks bc)
    ∧ mk_metadata s = MkRows (block_metadata db) (ch_block_metadata bc)
    ∧ mk_nodes s = MkRows (block_nodes db) (ch_block_nodes bc);
  pr_seal : consensus_table db !! block_height b = None ∧ ch_consensus bc = <[block_height b := Some (seal b)]> ∅;
  pr_txs : NoDup (tx_ids chain_id b)
    ∧ (∀ tx, tx ∈ transactions (entity b) → transactions_table db !! tx_id chain_id tx = None)
    ∧ ∀ id tx, apply_writes (ch_transactions bc) (transactions_table db) !! id = Some tx ↔
        transactions_table db !! id = Some tx ∨ (tx ∈ transactions (entity b) ∧ tx_id chain_id tx = id)
}.

Lemma rows_eta {K V : Type} `{Countable K} (r : Rows K V) m : row_base r = m → r = MkRows m (row_writes r).
Proof. intros <-. by destruct r. Qed.

Lemma store_new_block_prepared chain_id db bs b t :
  Chain chain_id db bs → heights_ok bs →
  store_new_block chain_id b (storage_transaction db Changes_new) = Ok (true, t) →
  prepared chain_id db bs b (into_changes t).
Proof.
  intros HC Hok. unfold store_new_block. fold (block_height b).
  set (cb := compress (tx_id chain_id) (entity b)). set (s0 := it_blocks _).
  assert (Log encode_block s0 (block_entries chain_id bs)) as HL by exact (cn_log _ _ _ HC).
  destruct (merklized_replace encode_block (block_height b) cb s0) as [[prev|e] s'] eqn:Hrep; [|done].
  destruct (decide (block_height b ∈ (block_entries chain_id bs).*1)) as [Hin|Hno].
  { destruct (replace_known encode_block s0 _ (block_height b) cb HL Hin) as (s1 & Heq & _). congruence. }
  assert (Z.of_nat (length (block_entries chain_id bs)) < int_max u64) as Hlen.
  { unfold block_entries. rewrite length_fmap. by eapply chain_length. }
  destruct (replace_new encode_block s0 _ (block_height b) cb HL Hno Hlen) as (s1 & Heq & HL'). rewrite Heq in Hrep.
  injection Hrep as <- <-. destruct (replace_writes encode_block _ _ _ _ _ Heq) as (Hw & Hb1 & Hb2 & Hb3). cbn [s0 storage_transaction it_blocks it_consensus it_transactions Changes_new
    ch_blocks ch_consensus ch_transactions mk_values mk_metadata mk_nodes row_writes row_base] in *.
  destruct (store_transactions chain_id _ _ _) as [found rows] eqn:Hst. intros [= Hf <-]. destruct found; [done|].
  apply store_transactions_spec in Hst as (Hfnd & Hnd & Hfresh & Hbase & Hget). apply orb_false_iff in Hfnd as [_ Hseal].
  apply bool_decide_eq_false in Hseal. rewrite <- eq_None_not_Some in Hseal.
  split; cbn [into_changes it_ledger it_blocks it_consensus it_transactions ch_ledger ch_blocks ch_consensus ch_transactions
    ch_block_metadata ch_block_nodes rows_put row_writes].
  - done.
  - exact Hw.
  - exists s1. split; [unfold block_entries in *; by rewrite fmap_app|].
    split; [by apply rows_eta|]. split; by apply rows_eta.
  - split; [|done]. by rewrite <- rows_get_on.
  - split; [exact Hnd|]. split; [intros tx Htx; rewrite <- rows_get_on; by apply Hfresh|].
    intros id tx. rewrite <- (rows_get_on (transactions_table db)), <- Hget. cbn [row_base] in Hbase.
    rewrite <- (rows_on_apply rows (transactions_table db) id Hbase), rows_get_on. done.
Qed.

(** The height that a block must have. *)
Definition next_height db b : Prop :=
  match seal b with
  | ConsensusGenesis _ => latest_block_height db = None
  | ConsensusPoA _ => block_height b ≠ 0 ∧ ∃ h, latest_block_height db = Some h ∧ block_height b = h + 1
  end.

Lemma create_block_changes_spec chain_id db bs b bc :
  Chain chain_id db bs → heights_ok bs → create_block_changes chain_id b db = Ok bc →
  prepared chain_id db bs b bc ∧ next_height db b.
Proof.
  intros HC Hok. unfold create_block_changes. fold (block_height b).
  assert (∀ r, (r = Ok (block_height b) → next_height db b) →
    (expected ← r;
     if decide (expected ≠ block_height b) then Err (IncorrectBlockHeight expected (block_height b))
     else '(is_new, t) ← map_err ImportStorage (store_new_block chain_id b (storage_transaction db Changes_new));
          if is_new : bool then Ok (into_changes t) else Err (NotUnique (block_height b))) = Ok bc →
    prepared chain_id db bs b bc ∧ next_height db b) as Htail.
  { intros [expected|e] Hnext; [|done]. cbn [mbind result_bind]. case_decide as He; [done|]. subst expected.
    destruct (store_new_block _ _ _) as [[[] t]|] eqn:Hst; cbn [map_err mbind result_bind]; [|done..]. intros [= <-].
    split; [|by apply Hnext]. by apply (store_new_block_prepared chain_id db bs b t). }
  intros Hrun. apply (Htail _) in Hrun; [done|]. unfold next_height. destruct (seal b) as [g|sig].
  - by destruct (latest_block_height db).
  - case_decide as Hz; [done|]. destruct (latest_block_height db) as [h|]; cbn [ok_or mbind result_bind]; [|done].
    unfold checked_add. destruct (fit u32 (h + 1)) as [h'|] eqn:Hfit; cbn [ok_or]; [|done]. intros [= ->].
    apply fit_Some in Hfit as [Heq _]. split; [done|]. by exists h.
Qed.

Lemma block_entries_app chain_id bs bs' : block_entries chain_id (bs ++ bs') = block_entries chain_id bs ++ block_entries chain_id bs'.
Proof. apply fmap_app. Qed.

(** The database after the changes of a block and of its execution. *)
Lemma apply_changes_chain chain_id db bs b bc c db' :
  Chain chain_id db bs → prepared chain_id db bs b bc → execution_only c →
  (∀ h, stage_height db = Some h → block_height b = h + 1) →
  db' = apply_changes c (apply_changes bc db) →
  Chain chain_id (MkOnChain (ledger db') (block_metadata db') (block_nodes db') (consensus_table db') (transactions_table db')
    (Some (update_metadata (database_metadata db') (block_height b))) (Some (block_height b))) (bs ++ [b]).
Proof.
  intros HC [Hl Hb (s & HL & Hv & Hm & Hn) [Hseal Hcs] (Hnd & Hfresh & Htx)] (E1 & E2 & E3 & E4 & E5) Hnext ->.
  unfold apply_changes. rewrite E1, E2, E3, E4, E5, !apply_no_writes. rewrite Hl. cbn [unwrap_or ledger fuel_blocks block_metadata block_nodes
    consensus_table transactions_table database_metadata stage_height].
  assert (∀ i b1 b2, bs !! i = Some b1 → (bs ++ [b]) !! S i = Some b2 → block_height b2 = block_height b1 + 1) as Hlink.
  { intros i b1 b2 H1 H2. apply lookup_app_Some in H2 as [H2|[Hge H2]]; [by apply (cn_linked _ _ _ HC i)|].
    apply list_lookup_singleton_Some in H2 as [H2 <-]. apply Hnext. rewrite (cn_stage _ _ _ HC), last_lookup.
    assert (Init.Nat.pred (length bs) = i) as -> by lia. by rewrite H1. }
  split; cbn [ledger fuel_blocks block_metadata block_nodes consensus_table transactions_table database_metadata stage_height].
  - eapply Log_ext; [| | |exact HL]; intros k; unfold blocks_view; cbn [mk_values mk_metadata mk_nodes ledger fuel_blocks block_metadata block_nodes].
    + rewrite Hv. by rewrite rows_get_on, apply_writes_lookup.
    + rewrite Hm. by rewrite rows_get_on, apply_writes_lookup.
    + rewrite Hn. by rewrite rows_get_on, apply_writes_lookup.
  - by rewrite last_snoc.
  - intros i b1 b2 H1 H2. apply lookup_app_Some in H1 as [H1|[Hge H1]]; [by apply (Hlink i)|].
    apply lookup_lt_Some in H2. rewrite length_app in H2. cbn in H2. lia.
  - intros h cs. rewrite Hcs, apply_writes_lookup. setoid_rewrite elem_of_app. setoid_rewrite list_elem_of_singleton.
    destruct (decide (h = block_height b)) as [->|Hh].
    + rewrite lookup_insert_eq. split; [intros [= <-]; exists b; auto|]. intros (b' & [Hin|<-] & Hbh & Hbs); [|by rewrite Hbs].
      assert (consensus_table db !! block_height b = Some cs); [|congruence]. apply (cn_seals _ _ _ HC). eauto.
    + rewrite lookup_insert_ne, lookup_empty by done. rewrite (cn_seals _ _ _ HC). naive_solver.
  - rewrite bind_app. apply NoDup_app. split; [apply HC|]. split; [|cbn; by rewrite app_nil_r].
    intros id (b' & Hid & Hb')%list_elem_of_bind Hin. cbn in Hin. rewrite app_nil_r in Hin.
    apply list_elem_of_fmap in Hin as (tx & -> & Hin). apply list_elem_of_fmap in Hid as (tx' & Heq & Htx').
    assert (transactions_table db !! tx_id chain_id tx = Some tx'); [|rewrite Hfresh in *; done].
    apply (cn_txs _ _ _ HC). eauto.
  - intros id tx. rewrite Htx, (cn_txs _ _ _ HC). setoid_rewrite elem_of_app. setoid_rewrite list_elem_of_singleton. naive_solver.
Qed.

(** A commit adds the block to the chain and applies the execution. *)
Lemma commit_prepared_spec chain_id db bs res c bc db' r :
  Chain chain_id db bs → prepared chain_id db bs (ir_sealed_block res) bc → execution_only c →
  commit_prepared (MkPrepareImportResult (MkUncommittedResult res c) bc) db = Ok (db', r) →
  r = res ∧ Chain chain_id db' (bs ++ [ir_sealed_block res])
  ∧ (∀ l, ch_ledger c = Some l → ledger db' = l <| fuel_blocks := fuel_blocks (ledger db') |>).
Proof.
  intros HC Hpr Hex. unfold commit_prepared. cbn [pi_result un_result un_changes pi_block_changes]. case_decide; [done|].
  assert (into_changes (storage_transaction db c) = c) as -> by (by destruct c).
  unfold commit_changes. rewrite (inserted_heights_one bc _ _ (pr_blocks _ _ _ _ _ Hpr)), (inserted_heights_none c) by apply Hex.
  cbn [app length]. rewrite decide_False by lia. cbn [last]. set (b := ir_sealed_block res) in *.
  assert (∀ x : result DatabaseError unit, (x = Ok () → ∀ h, stage_height db = Some h → block_height b = h + 1) →
    map_err (λ e, ImportStorage (DatabaseFailure e)) (_ ← x; if decide (no_conflict bc c) then
      let self := apply_changes c (apply_changes bc db) in
      Ok (MkOnChain (ledger self) (block_metadata self) (block_nodes self) (consensus_table self) (transactions_table self)
            (Some (update_metadata (database_metadata self) (block_height b))) (Some (block_height b)))
      else Err ConflictingChanges) ≫= (λ database, Ok (database, res)) = Ok (db', r) →
    r = res ∧ Chain chain_id db' (bs ++ [b]) ∧ (∀ l, ch_ledger c = Some l → ledger db' = l <| fuel_blocks := fuel_blocks (ledger db') |>)) as Htail.
  { intros [[]|] Hx; [|done]. cbn [mbind result_bind]. case_decide; [|done]. cbn [map_err mbind result_bind]. intros [= <- <-].
    split; [done|]. split; [exact (apply_changes_chain _ _ _ _ _ _ _ HC Hpr Hex (Hx eq_refl) eq_refl)|]. intros l Hl. cbn [ledger]. unfold apply_changes. rewrite Hl. by destruct l. }
  intros Hrun. apply (Htail _) in Hrun; [done|]. intros Hstage h Hh. rewrite Hh in Hstage. unfold checked_add in Hstage.
  destruct (fit u32 (h + 1)) as [h'|] eqn:Hfit; [|done]. cbn [ok_or mbind result_bind] in Hstage. case_decide as Heq; [|done].
  apply fit_Some in Hfit as [-> _]. done.
Qed.

(** ** The latest block *)
Lemma last_key_foldr (P : Z → Prop) `{∀ k, Decision (P k)} (ks : list Z) :
  match foldr (λ k acc, if decide (P k) then Some (match acc with Some a => Z.max k a | None => k end) else acc) None ks with
  | Some m => m ∈ ks ∧ P m ∧ ∀ k, k ∈ ks → P k → k ≤ m
  | None => ∀ k, k ∈ ks → ¬ P k
  end.
Proof.
  induction ks as [|k ks IH]; cbn [foldr]; [by intros k ?%not_elem_of_nil|].
  case_decide as Hk.
  - destruct (foldr _ None ks) as [a|].
    + destruct IH as (Hin & Ha & Hmax). split; [|split].
      * destruct (Z.max_spec k a) as [[_ ->]|[_ ->]]; [by right|by left].
      * by destruct (Z.max_spec k a) as [[_ ->]|[_ ->]].
      * intros k' [->|Hin']%elem_of_cons Hk'; [lia|]. specialize (Hmax k' Hin' Hk'). lia.
    + split; [by left|]. split; [done|]. intros k' [->|Hin']%elem_of_cons Hk'; [done|]. by destruct (IH k' Hin').
  - destruct (foldr _ None ks) as [a|].
    + destruct IH as (Hin & Ha & Hmax). split; [by right|]. split; [done|]. intros k' [->|Hin']%elem_of_cons Hk'; [done|by apply Hmax].
    + intros k' [->|Hin']%elem_of_cons; [done|by apply IH].
Qed.

Lemma last_key_Some {A : Type} (P : Z → Prop) `{∀ k, Decision (P k)} (m : gmap Z A) k :
  is_Some (m !! k) → P k → (∀ k', is_Some (m !! k') → P k' → k' ≤ k) → last_key P m = Some k.
Proof.
  intros Hk HP Hmax. unfold last_key. pose proof (last_key_foldr P (elements (dom m))) as HF. destruct (foldr _ _ _) as [a|].
  - destruct HF as (Hin & Ha & Hle). f_equal. apply Z.le_antisymm.
    + apply Hmax; [|done]. by apply elem_of_dom, elem_of_elements.
    + apply Hle; [|done]. by apply elem_of_elements, elem_of_dom.
  - exfalso. apply (HF k); [|done]. by apply elem_of_elements, elem_of_dom.
Qed.

Lemma last_key_found {A : Type} (P : Z → Prop) `{∀ k, Decision (P k)} (m : gmap Z A) k :
  last_key P m = Some k → is_Some (m !! k) ∧ P k.
Proof.
  intros Hk. unfold last_key in Hk. pose proof (last_key_foldr P (elements (dom m))) as HF. rewrite Hk in HF.
  destruct HF as (Hin & HP & _). split; [|done]. by apply elem_of_dom, elem_of_elements.
Qed.

Lemma chain_block chain_id db bs h cb :
  Chain chain_id db bs → fuel_blocks (ledger db) !! h = Some cb ↔
    ∃ b, b ∈ bs ∧ block_height b = h ∧ compress (tx_id chain_id) (entity b) = cb.
Proof.
  intros HC. rewrite <- rows_get_on. rewrite (lg_values _ _ _ (cn_log _ _ _ HC) h cb). unfold block_entries.
  rewrite list_elem_of_fmap. split; [intros (b & [= -> ->] & Hb)|intros (b & Hb & <- & <-)]; eauto.
Qed.

Lemma chain_latest chain_id db bs : Chain chain_id db bs → latest_block_height db = block_height <$> last bs.
Proof.
  intros HC. destruct (last bs) as [b|] eqn:Hlast.
  - cbn [fmap option_fmap option_map]. apply last_key_Some; [|done|].
    + exists (compress (tx_id chain_id) (entity b)). apply (chain_block chain_id db bs); [done|]. exists b. split; [|done].
      by apply last_Some_elem_of.
    + intros h [cb Hcb] _. apply (chain_block _ _ _ _ _ HC) in Hcb as (b' & Hb' & <- & _).
      apply list_elem_of_lookup in Hb' as [i Hi]. destruct bs as [|b0 bs']; [done|]. rewrite last_lookup in Hlast.
      rewrite (chain_heights _ _ _ i b0 b' HC eq_refl Hi), (chain_heights _ _ _ _ b0 b HC eq_refl Hlast).
      apply lookup_lt_Some in Hi. lia.
  - apply last_None in Hlast as ->. destruct (latest_block_height db) as [h|] eqn:Hh; [|done]. exfalso.
    apply last_key_found in Hh as [[cb Hcb] _].
    apply (chain_block _ _ _ _ _ HC) in Hcb as (b' & Hb' & _). by apply not_elem_of_nil in Hb'.
Qed.

(** Looking up a block of the chain gives it back whole. *)
Lemma get_transactions_chain chain_id db bs b txs :
  Chain chain_id db bs → b ∈ bs → txs ⊆ transactions (entity b) →
  get_transactions db (tx_id chain_id <$> txs) = Ok txs.
Proof.
  intros HC Hb. induction txs as [|tx txs IH]; intros Hsub; [done|]. rewrite fmap_cons. cbn [get_transactions].
  assert (transactions_table db !! tx_id chain_id tx = Some tx) as ->; [apply (cn_txs _ _ _ HC); exists b; split; [done|]; split; [apply Hsub; left|done]|].
  cbn [ok_or mbind result_bind]. rewrite IH; [done|]. intros x Hx. apply Hsub. by right.
Qed.

Lemma get_full_block_chain chain_id db bs b :
  Chain chain_id db bs → b ∈ bs → get_full_block db (block_height b) = Ok (Some (entity b)).
Proof.
  intros HC Hb. unfold get_full_block.
  assert (fuel_blocks (ledger db) !! block_height b = Some (compress (tx_id chain_id) (entity b))) as ->
    by (apply (chain_block _ _ _ _ _ HC); eauto).
  change (transactions (compress (tx_id chain_id) (entity b))) with (tx_id chain_id <$> transactions (entity b)).
  rewrite (get_transactions_chain chain_id db bs b) by done. cbn [mbind result_bind]. by destruct (entity b).
Qed.

(** ** Histories of an importer *)

(** The validator changes only the tables of the executor. *)
Definition validator_ok (config : ImporterConfig) : Prop :=
  ∀ db block r, ic_validate config db block = Ok r → execution_only (ve_changes r).

Inductive ImportOp :=
| CommitResult (finished : nat) (uncommitted : UncommittedResult)
| ExecuteAndCommit (finished : nat) (sealed_block : SealedBlock)
| FinishResults (n : nat)
| Subscribe.
Definition import_step (config : ImporterConfig) (self : Importer) (op : ImportOp) : Importer :=
  match op with
  | CommitResult finished uncommitted => (commit_result config finished uncommitted self).2
  | ExecuteAndCommit finished sealed_block => (execute_and_commit config finished sealed_block self).2
  | FinishResults n => finish_results n self
  | Subscribe => subscribe self
  end.
(** Heights are 32-bit integers; the changes of a block that this node produced
    are those of its execution. *)
Definition op_ok (op : ImportOp) : Prop :=
  match op with
  | CommitResult _ uncommitted =>
      in_range u32 (block_height (ir_sealed_block (un_result uncommitted))) ∧ execution_only (un_changes uncommitted)
  | ExecuteAndCommit _ sealed_block => in_range u32 (block_height sealed_block)
  | _ => True
  end.

Definition is_genesis (c : Consensus) : bool := match c with ConsensusGenesis _ => true | ConsensusPoA _ => false end.
Definition genesis_first bs : Prop := ∀ i b, bs !! i = Some b → is_genesis (seal b) = bool_decide (i = 0%nat).

(** What every importer keeps: its database is a chain whose first block, and
    no other, is the genesis block. *)
Record Imported (config : ImporterConfig) (max : nat) (self : Importer) bs : Prop := {
  im_chain : Chain (ic_chain_id config) (database self) bs;
  im_heights : heights_ok bs;
  im_genesis : genesis_first bs;
  im_announced : (ir_sealed_block <$> announced self) `sublist_of` bs;
  im_permits : (active_import_results self + in_progress self = max)%nat
}.

Lemma genesis_first_snoc chain_id db bs b :
  Chain chain_id db bs → next_height db b → genesis_first bs → genesis_first (bs ++ [b]).
Proof.
  intros HC Hn Hg i b' Hi. apply lookup_app_Some in Hi as [Hi|[Hge Hi]]; [by apply Hg|].
  apply list_lookup_singleton_Some in Hi as [Hi <-]. unfold next_height in Hn. rewrite (chain_latest _ _ _ HC) in Hn.
  destruct (seal b); cbn [is_genesis]; symmetry.
  - apply bool_decide_eq_true. destruct (last bs) eqn:Hl; [done|]. apply last_None in Hl as ->. cbn in *. lia.
  - apply bool_decide_eq_false. destruct Hn as (_ & h & Hh & _). destruct bs; [done|]. cbn in *. lia.
Qed.

(** The input of a commit brings block [b]; what was prepared, was prepared on
    this database. *)
Definition input_result (input : CommitInput) : UncommittedResult :=
  match input with Uncommitted u => u | Prepared p => pi_result p end.
Definition input_ok (config : ImporterConfig) (input : CommitInput) b db : Prop :=
  b = ir_sealed_block (un_result (input_result input)) ∧ execution_only (un_changes (input_result input))
  ∧ match input with
    | Uncommitted _ => True
    | Prepared p => create_block_changes (ic_chain_id config) b db = Ok (pi_block_changes p)
    end.

Lemma commit_input_spec config db bs input b db' r :
  Chain (ic_chain_id config) db bs → heights_ok bs →
  input_ok config input b db →
  commit_input config input db = Ok (db', r) →
  ir_sealed_block r = b ∧ Chain (ic_chain_id config) db' (bs ++ [b]) ∧ next_height db b
  ∧ ∀ l, ch_ledger (un_changes (input_result input)) = Some l →
      ledger db' = l <| fuel_blocks := fuel_blocks (ledger db') |>.
Proof.
  intros HC Hok (-> & Hex & Hbc). unfold commit_input.
  destruct input as [[res c]|[[res c] bc]]; cbn [input_result un_result un_changes pi_result pi_block_changes] in *.
  - clear Hbc. destruct (create_block_changes _ _ _) as [bc|] eqn:Hbc; cbn [mbind result_bind]; [|done].
    apply (create_block_changes_spec _ _ bs) in Hbc as [Hpr Hn]; [|done..]. intros Hrun.
    apply (commit_prepared_spec (ic_chain_id config) _ bs) in Hrun as (-> & HC' & Hl); done.
  - apply (create_block_changes_spec _ _ bs) in Hbc as [Hpr Hn]; [|done..].
    cbn [mbind result_bind]. intros Hrun. apply (commit_prepared_spec (ic_chain_id config) _ bs) in Hrun as (-> & HC' & Hl); done.
Qed.

Lemma finish_results_imported config max n self bs : Imported config max self bs → Imported config max (finish_results n self) bs.
Proof. intros []. split; cbn; [done..|lia]. Qed.

Lemma commit_with_permit_imported config max finished input b self bs :
  Imported config max self bs → in_range u32 (block_height b) → input_ok config input b (database self) →
  let '(r, self') := commit_with_permit config finished input self in Imported config max self' (if is_ok r then bs ++ [b] else bs).
Proof.
  intros HI Hb Hin. unfold commit_with_permit. apply (finish_results_imported _ _ finished) in HI.
  change (database self) with (database (finish_results finished self)) in Hin. set (self' := finish_results finished self) in *.
  destruct (active_import_results self') as [|permits] eqn:Hp; [done|].
  destruct (commit_input config input (database self')) as [[db r]|] eqn:Hc; [|done].
  destruct HI as [HC Hok Hg Ha Hm]. destruct (commit_input_spec _ _ _ _ _ _ _ HC Hok Hin Hc) as (Hr & HC' & Hn & _).
  assert (heights_ok (bs ++ [b])) as Hok' by (apply Forall_app; split; [done|by apply Forall_singleton]).
  pose proof (genesis_first_snoc _ _ _ _ HC Hn Hg) as Hg'.
  cbn [is_ok]. destruct (subscribed self'); split; cbn [database announced active_import_results in_progress]; try done; try lia.
  - rewrite fmap_app. cbn. rewrite Hr. by apply sublist_app.
  - by apply sublist_inserts_r.
Qed.

Lemma prepare_import_result_ok config db b p :
  validator_ok config → prepare_import_result config db b = Ok p → input_ok config (Prepared p) b db.
Proof.
  intros Hv. unfold prepare_import_result, verify_and_execute_block_inner.
  destruct (verify_block_fields _ _ _ _) as [[]|]; cbn [map_err mbind result_bind]; [|done]. destruct (seal b); [done|].
  destruct (ic_validate config db (entity b)) as [r|] eqn:Hr; cbn [map_err mbind result_bind]; [|done].
  case_decide; [done|]. cbn [mbind result_bind]. destruct (create_block_changes _ _ _) as [bc|] eqn:Hbc; cbn [mbind result_bind]; [|done].
  intros [= <-]. split; [done|]. split; [|done]. by apply (Hv db (entity b)).
Qed.

Lemma execute_and_commit_imported config max finished b self bs :
  validator_ok config → in_range u32 (block_height b) → Imported config max self bs →
  let '(r, self') := execute_and_commit config finished b self in Imported config max self' (if is_ok r then bs ++ [b] else bs).
Proof.
  intros Hv Hb HI. unfold execute_and_commit. destruct (guard_free self); [|done].
  destruct (prepare_import_result _ _ _) as [p|] eqn:Hp; [|done]. apply commit_with_permit_imported; [done..|]. by apply prepare_import_result_ok.
Qed.
Lemma import_step_imported config max op self bs :
  validator_ok config → op_ok op → Imported config max self bs → ∃ bs', Imported config max (import_step config self op) bs'.
Proof.
  intros Hv Hop HI. destruct op as [f u|f b|n|]; cbn [import_step op_ok] in *.
  - unfold commit_result. destruct (guard_free self); [|by exists bs]. destruct Hop as [Hb Hex].
    pose proof (commit_with_permit_imported _ _ f (Uncommitted u) _ _ _ HI Hb) as Hc. destruct (commit_with_permit _ _ _ _). eexists. by apply Hc.
  - pose proof (execute_and_commit_imported _ _ f b _ _ Hv Hop HI) as Hc. destruct (execute_and_commit _ _ _ _). by eexists.
  - exists bs. by apply finish_results_imported.
  - exists bs. destruct HI. by split.
Qed.

(** C20 The importer keeps a chain: after any calls of [commit_result] and
    [execute_and_commit], with subscribers that come and finish at any time, the
    database holds blocks at consecutive heights, exactly the first of them a
    genesis block, the roots in its tree are the Merkle roots over their ids, the
    seals and transactions in its tables are theirs and no transaction occurs
    twice.  The announced results are of blocks in the chain, in its order, and
    no permit is ever lost. *)
Theorem importer_keeps_chain config max db ops :
  validator_ok config → Chain (ic_chain_id config) db [] → Forall op_ok ops →
  ∃ bs, Imported config max (foldl (import_step config) (Importer_new max db) ops) bs.
Proof.
  intros Hv HC Hops. assert (∃ bs, Imported config max (Importer_new max db) bs) as HI.
  { exists []. split; cbn; [done|by constructor|by intros i b Hi; rewrite lookup_nil in Hi|done|lia]. }
  revert HI. generalize (Importer_new max db). induction Hops as [|op ops Hop _ IH]; intros self [bs HI]; cbn [foldl]; [by exists bs|].
  apply IH. by apply (import_step_imported _ _ _ _ bs).
Qed.

(** ** One import *)
Lemma chain_root chain_id db bs b root :
  Chain chain_id db bs → last bs = Some b → block_header_merkle_root db (block_height b) = Ok root →
  root = merkle_root ((λ b, encode_block (compress (tx_id chain_id) (entity b))) <$> bs).
Proof.
  intros HC Hl. unfold block_header_merkle_root. destruct (block_metadata db !! _) as [m|] eqn:Hm; [|done]. cbn.
  intros [= <-]. rewrite <- rows_get_on in Hm. apply (lg_primary _ _ _ (cn_log _ _ _ HC)) in Hm as (i & v & Hi & ->).
  unfold block_entries in Hi. rewrite list_lookup_fmap in Hi. destruct (bs !! i) as [b'|] eqn:Hb'; [|done]. injection Hi as Hh _.
  destruct bs as [|b0 bs']; [done|]. rewrite last_lookup in Hl. rewrite (chain_heights _ _ _ i b0 b' HC eq_refl Hb') in Hh.
  rewrite (chain_heights _ _ _ _ b0 b HC eq_refl Hl) in Hh. apply lookup_lt_Some in Hl.
  assert (S i = length (b0 :: bs')) as -> by lia. cbn [md_root log_metadata]. unfold log_leaves, block_entries.
  rewrite <- !list_fmap_compose. rewrite take_ge; [done|]. by rewrite length_fmap.
Qed.

Lemma ensure_bind {E A : Type} (P : Prop) `{Decision P} (e : E) (k : result E A) x :
  (_ ← ensure P e; k) = Ok x → P ∧ k = Ok x.
Proof. unfold ensure. by case_decide. Qed.

Lemma verified_links chain_id db bs b prev :
  Chain chain_id db bs → last bs = Some prev → block_height b = block_height prev + 1 →
  poa_verify_block_fields db (entity b) = Ok () →
  let h := header (entity b) in let hp := header (entity prev) in
  prev_root (consensus h) = merkle_root ((λ b, encode_block (compress (tx_id chain_id) (entity b))) <$> bs)
  ∧ da_height (application hp) ≤ da_height (application h) ∧ time (consensus hp) ≤ time (consensus h)
  ∧ application_hash (con_generated (consensus h)) = application_header_hash (application h)
  ∧ validate_transactions h (transactions (entity b)) = true.
Proof.
  intros HC Hl Hh. unfold poa_verify_block_fields. fold (block_height b).
  replace (block_height b - 1) with (block_height prev) by lia. cbn zeta. intros [_ Hrun]%ensure_bind. revert Hrun.
  destruct (block_header_merkle_root db (block_height prev)) as [root|] eqn:Hroot; [|done]. cbn [map_err mbind result_bind].
  apply (chain_root _ _ _ _ _ HC Hl) in Hroot as ->. intros [Hr Hrun]%ensure_bind. revert Hrun.
  assert (block_header db (block_height prev) = Ok (header (entity prev))) as ->.
  { unfold block_header, get_block.
    assert (fuel_blocks (ledger db) !! block_height prev = Some (compress (tx_id chain_id) (entity prev))) as ->; [|done].
    apply (chain_block _ _ _ _ _ HC). exists prev. split; [|done]. by apply last_Some_elem_of. }
  cbn [map_err mbind result_bind]. intros [Hda [Htime [Happ Hrun]%ensure_bind]%ensure_bind]%ensure_bind.
  unfold ensure in Hrun. case_decide; [|done]. by split_and!.
Qed.

Lemma commit_with_permit_database config finished input self r self' :
  commit_with_permit config finished input self = (r, self') →
  if is_ok r then ∃ res, commit_input config input (database self) = Ok (database self', res) else database self' = database self.
Proof.
  unfold commit_with_permit. change (database (finish_results finished self)) with (database self).
  destruct (active_import_results _) as [|permits]; [by intros [= <- <-]|].
  destruct (commit_input config input (database self)) as [[db' res]|]; [|by intros [= <- <-]].
  intros [= <- <-]. exists res. cbn [finish_results subscribed]. by destruct (subscribed self).
Qed.

(** What an import promises when it succeeds: the block extends the chain,
    points at the root over all blocks before it, has its fields in order, was
    accepted by the validator on the database before, and the tables of the
    executor are those that the validation led to. *)
Definition import_done (config : ImporterConfig) db bs b db' : Prop :=
  Chain (ic_chain_id config) db' (bs ++ [b])
  ∧ get_full_block db' (block_height b) = Ok (Some (entity b))
  ∧ (∃ prev, last bs = Some prev ∧ block_height b = block_height prev + 1
      ∧ da_height (application (header (entity prev))) ≤ da_height (application (header (entity b)))
      ∧ time (consensus (header (entity prev))) ≤ time (consensus (header (entity b))))
  ∧ prev_root (consensus (header (entity b)))
    = merkle_root ((λ b, encode_block (compress (tx_id (ic_chain_id config)) (entity b))) <$> bs)
  ∧ validate_transactions (header (entity b)) (transactions (entity b)) = true
  ∧ ∃ v, ic_validate config db (entity b) = Ok v
      ∧ ∀ l, ch_ledger (ve_changes v) = Some l → ledger db' = l <| fuel_blocks := fuel_blocks (ledger db') |>.

Lemma execute_and_commit_effect config finished b self bs r self' :
  validator_ok config → Chain (ic_chain_id config) (database self) bs → heights_ok bs →
  execute_and_commit config finished b self = (r, self') →
  if is_ok r then import_done config (database self) bs b (database self') else database self' = database self.
Proof.
  intros Hv HC Hok. unfold execute_and_commit. destruct (guard_free self); [|by intros [= <- <-]].
  destruct (prepare_import_result _ _ _) as [p|] eqn:Hp; [|by intros [= <- <-]].
  intros Hc%commit_with_permit_database. destruct (is_ok r); [|done]. destruct Hc as [res Hc].
  destruct (commit_input_spec _ _ _ _ _ _ _ HC Hok (prepare_import_result_ok _ _ _ _ Hv Hp) Hc) as (_ & HC' & Hn & Hl).
  revert Hp Hn. unfold prepare_import_result, verify_and_execute_block_inner, verify_block_fields, next_height.
  destruct (seal b) as [|sig]; [by destruct (verify_genesis_block_fields _ _ _)|].
  destruct (poa_verify_block_fields _ _) as [[]|] eqn:Hver; cbn [map_err mbind result_bind]; [|done].
  destruct (ic_validate config (database self) (entity b)) as [v|] eqn:Hval; cbn [map_err mbind result_bind]; [|done].
  case_decide; [done|]. cbn [mbind result_bind]. destruct (create_block_changes _ _ _) as [bc|]; cbn [mbind result_bind]; [|done].
  intros [= <-] (_ & h & Hlat & Hh). rewrite (chain_latest _ _ _ HC) in Hlat. destruct (last bs) as [prev|] eqn:Hlast; [|done].
  injection Hlat as <-. destruct (verified_links _ _ _ _ _ HC Hlast Hh Hver) as (H1 & H2 & H3 & _ & H5).
  split; [done|]. split; [apply (get_full_block_chain _ _ _ _ HC'); set_solver|]. split; [by exists prev|]. split; [done|].
  split; [done|]. by exists v.
Qed.

(** C22 An import is all or nothing: when [execute_and_commit] succeeds, the block
    extends the chain at the next height, its previous root is the Merkle root
    over the ids of all blocks before, its DA height and time are not below those
    of its predecessor, its transactions match its header, the database returns
    it whole, and the tables of the executor become what validating it on the
    database before gave; when it fails, the database is unchanged. *)
Theorem import_effect config finished b self bs r self' :
  validator_ok config → Chain (ic_chain_id config) (database self) bs → heights_ok bs →
  execute_and_commit config finished b self = (r, self') →
  if is_ok r then import_done config (database self) bs b (database self') else database self' = database self.
Proof. apply execute_and_commit_effect. Qed.

(** ** Blocks that are accepted *)
Lemma store_transactions_fresh chain_id txs rows :
  NoDup (tx_id chain_id <$> txs) → (∀ tx, tx ∈ txs → rows_get rows (tx_id chain_id tx) = None) →
  (store_transactions chain_id txs false rows).1 = false.
Proof.
  revert rows. induction txs as [|tx txs IH]; intros rows Hnd Hno; cbn [store_transactions]; [done|].
  rewrite fmap_cons in Hnd. apply NoDup_cons in Hnd as [Hnew Hnd].
  rewrite (Hno tx) by left. rewrite bool_decide_eq_false_2 by (intros [? ?]; done). apply IH; [done|].
  intros tx' Hin. rewrite rows_get_put_ne; [apply Hno; by right|]. intros Heq. apply Hnew. rewrite Heq. by apply list_elem_of_fmap_2.
Qed.

(** A block at a new height with new transactions. *)
Definition fresh_block (chain_id : Z) db bs b : Prop :=
  block_height b ∉ block_height <$> bs ∧ NoDup (tx_ids chain_id b)
  ∧ ∀ tx, tx ∈ transactions (entity b) → transactions_table db !! tx_id chain_id tx = None.

Lemma store_new_block_fresh chain_id db bs b :
  Chain chain_id db bs → heights_ok bs → fresh_block chain_id db bs b →
  ∃ t, store_new_block chain_id b (storage_transaction db Changes_new) = Ok (true, t).
Proof.
  intros HC Hok (Hh & Hnd & Hno). unfold store_new_block. fold (block_height b).
  set (cb := compress (tx_id chain_id) (entity b)). set (s0 := it_blocks _).
  assert (Log encode_block s0 (block_entries chain_id bs)) as HL by exact (cn_log _ _ _ HC).
  destruct (replace_new encode_block s0 _ (block_height b) cb HL) as (s1 & Heq & _).
  { unfold block_entries. rewrite <- list_fmap_compose. exact Hh. }
  { unfold block_entries. rewrite length_fmap. by eapply chain_length. }
  rewrite Heq. cbn [storage_transaction it_consensus it_transactions Changes_new ch_consensus ch_transactions].
  change (MkRows (consensus_table db) ∅) with (rows_on (consensus_table db)). rewrite rows_get_on.
  destruct (consensus_table db !! block_height b) as [c|] eqn:Hc.
  { apply (cn_seals _ _ _ HC) in Hc as (b' & Hb' & Heqh & _). destruct Hh. rewrite <- Heqh. by apply list_elem_of_fmap_2. }
  rewrite !bool_decide_eq_false_2 by (intros [? ?]; done). cbn [orb].
  change (MkRows (transactions_table db) ∅) with (rows_on (transactions_table db)).
  pose proof (store_transactions_fresh chain_id (transactions (entity b)) (rows_on (transactions_table db)) Hnd) as Hst.
  destruct (store_transactions _ _ _ _) as [found rows]. cbn in Hst. rewrite Hst; [by eexists|].
  intros tx Htx. rewrite rows_get_on. by apply Hno.
Qed.

Lemma create_block_changes_ok chain_id db bs b prev sig :
  Chain chain_id db bs → heights_ok bs → fresh_block chain_id db bs b →
  seal b = ConsensusPoA sig → last bs = Some prev → block_height b = block_height prev + 1 → in_range u32 (block_height b) →
  ∃ bc, create_block_changes chain_id b db = Ok bc.
Proof.
  intros HC Hok Hf Hs Hl Hh Hr. unfold create_block_changes. fold (block_height b). rewrite Hs, (chain_latest _ _ _ HC), Hl.
  cbn [fmap option_fmap option_map ok_or mbind result_bind]. rewrite decide_False; cycle 1.
  { intros H0. unfold heights_ok in Hok. rewrite Forall_forall in Hok.
    destruct (Hok prev) as [Hp _]; [by apply last_Some_elem_of|]. int_unfold. lia. }
  unfold checked_add. rewrite <- Hh. rewrite (proj2 (fit_Some u32 (block_height b) (block_height b))) by done. cbn [ok_or mbind result_bind].
  rewrite decide_False by (by intros []).
  destruct (store_new_block_fresh chain_id db bs b HC Hok Hf) as [t ->]. by eexists.
Qed.

(** Committing the changes of the next block succeeds, and the database
    afterwards depends on the block and the changes of its execution only. *)
Definition committed db b (bc c : Changes) : OnChain :=
  let db' := apply_changes c (apply_changes bc db) in
  MkOnChain (ledger db') (block_metadata db') (block_nodes db') (consensus_table db') (transactions_table db')
    (Some (update_metadata (database_metadata db') (block_height b))) (Some (block_height b)).

Lemma commit_prepared_ok chain_id db bs res c bc prev :
  Chain chain_id db bs → prepared chain_id db bs (ir_sealed_block res) bc → execution_only c →
  last bs = Some prev → block_height (ir_sealed_block res) = block_height prev + 1 →
  in_range u32 (block_height (ir_sealed_block res)) →
  commit_prepared (MkPrepareImportResult (MkUncommittedResult res c) bc) db = Ok (committed db (ir_sealed_block res) bc c, res).
Proof.
  intros HC Hpr (E1 & E2 & E3 & E4 & E5) Hl Hh Hr. unfold commit_prepared. cbn [pi_result un_result un_changes pi_block_changes].
  assert (transaction_latest_block_root (storage_transaction db c) = latest_block_root db) as ->.
  { unfold transaction_latest_block_root, storage_transaction. cbn [it_blocks mk_metadata]. rewrite E2.
    change (MkRows (block_metadata db) ∅) with (rows_on (block_metadata db)). by rewrite rows_get_on. }
  rewrite decide_False by (by intros []). assert (into_changes (storage_transaction db c) = c) as -> by (by destruct c).
  unfold commit_changes. rewrite (inserted_heights_one bc _ _ (pr_blocks _ _ _ _ _ Hpr)), (inserted_heights_none c E1).
  cbn [app length last]. rewrite decide_False by lia. rewrite (cn_stage _ _ _ HC), Hl. cbn [fmap option_fmap option_map].
  unfold checked_add. rewrite <- Hh, (proj2 (fit_Some u32 _ (block_height (ir_sealed_block res)))) by done. cbn [ok_or mbind result_bind].
  rewrite (decide_True (P := block_height (ir_sealed_block res) = _)) by done.
  cbn [mbind result_bind]. rewrite decide_True; [done|]. split; [left; apply Hpr|]. unfold disjoint_writes. rewrite E1, E2, E3, E4, E5.
  rewrite !dom_empty_L. split_and!; set_solver.
Qed.
End importer_facts.
