(* ===== verification/UpgradableExecutor.v ===== *)
(** * The upgradable executor

    [crates/services/upgradable-executor/src/{executor,config}.rs]: which
    database an execution sees, and which state transition function runs it.
    The relayer is one view of the relayer's database.  Modules of uploaded
    bytecode run in a third-party WebAssembly runtime: loading and running
    them is a parameter.  A database backend may keep views of past heights;
    this too is a parameter, with the in-memory backend, which keeps none, as
    an instance.  An option is [None] when the source of transactions does not
    end within the fuel. *)
From stdpp Require Import strings.
From S2P Require Import Prelude FuelTypes BlockTypes ExecutorTypes Executor MerklizedTable Importer.

Record UpgradableConfig := MkUpgradableConfig {
  forbid_fake_coins_default : bool;
  config_native_executor_version : option Z;
  allow_historical_execution : bool
}.

Inductive ProduceBlockMode := Produce | DryRunLatest | DryRunAt (height : BlockHeight).
Definition is_dry_run (self : ProduceBlockMode) : bool :=
  match self with Produce => false | DryRunLatest | DryRunAt _ => true end.

(** [Executor::VERSION], the [LATEST_STATE_TRANSITION_VERSION] *)
Definition VERSION : Z := 24.

(** [BlockHeight::pred] and [BlockHeight::succ] *)
Definition height_pred (self : BlockHeight) : option BlockHeight := checked_sub u32 self 1.
Definition height_succ (self : BlockHeight) : option BlockHeight := checked_add u32 self 1.

Class HistoricalStorage `{Hashing, BinaryMerkleTree, FuelVm} := {
  view_at_height : OnChain → BlockHeight → result string Db
}.
(** [MemoryStore::view_at_height] *)
Definition MemoryStore_view `{Hashing, BinaryMerkleTree, FuelVm} : HistoricalStorage := {|
  view_at_height := λ _ _, Err "The historical view is not implemented for `MemoryStore`"
|}.

(** [get_module] on the latest view, and [Instance::run] of a module. *)
Class WasmRuntime `{Hashing, FuelVm} := {
  Module : Type;
  get_module : Db → Z → result ExecutorError Module;
  run_produce {TS : Type} : TransactionsSource TS → Module → ExecutionInstance → Components TS → bool →
    option (result ExecutorError ExecutionResult);
  run_validate : Module → ExecutionInstance → Block Transaction → result ExecutorError ValidationResult
}.

Section upgradable.
Context `{HH : Hashing} `{BT : BinaryMerkleTree} `{VM : FuelVm} `{HS : !HistoricalStorage} `{WR : !WasmRuntime}.

Inductive ExecutionStrategy := Native | Wasm (module : Module).
Record UpgradableExecutor := MkUpgradableExecutor {
  storage_view_provider : OnChain;
  relayer_view_provider : Relayer;
  upgradable_config : UpgradableConfig;
  execution_strategy : ExecutionStrategy
}.

Definition native_executor_version (self : UpgradableExecutor) : Z :=
  unwrap_or VERSION (config_native_executor_version (upgradable_config self)).

(** [Database::view_at] *)
Definition view_at (self : OnChain) (height : BlockHeight) : result string Db :=
  match stage_height self with
  | None => Ok (ledger self)
  | Some current_height => if decide (current_height = height) then Ok (ledger self) else view_at_height self height
  end.
(** The instance that an execution above [db_height] runs on. *)
Definition execution_instance (self : UpgradableExecutor) (db_height : option BlockHeight) (forbid_fake_coins : bool)
    : result ExecutorError ExecutionInstance :=
  database ← match db_height with
             | Some previous_block_height => map_err StorageError (view_at (storage_view_provider self) previous_block_height)
             | None => Ok (ledger (storage_view_provider self))
             end;
  Ok (MkExecutionInstance (relayer_view_provider self) database forbid_fake_coins).

Definition mode_height (mode : ProduceBlockMode) (header : PartialBlockHeader) : option BlockHeight :=
  match mode with
  | Produce => height_pred (height (p_consensus header))
  | DryRunLatest => None
  | DryRunAt height => height_pred height
  end.

Section produce.
Context {TS : Type} `{SRC : !TransactionsSource TS}.
Context (try_send : list PreconfirmationStatus → list PreconfirmationStatus) (rounds fuel : nat).

Definition native_produce_inner (self : UpgradableExecutor) (block : Components TS) (forbid_fake_coins : bool)
    (mode : ProduceBlockMode) : option (result ExecutorError ExecutionResult) :=
  match execution_instance self (mode_height mode (header_to_produce block)) forbid_fake_coins with
  | Err e => Some (Err e)
  | Ok instance => produce_without_commit try_send rounds fuel instance block (is_dry_run mode)
  end.
Definition wasm_produce_inner (self : UpgradableExecutor) (module : Module) (component : Components TS)
    (forbid_fake_coins : bool) (mode : ProduceBlockMode) : option (result ExecutorError ExecutionResult) :=
  match execution_instance self (mode_height mode (header_to_produce component)) forbid_fake_coins with
  | Err e => Some (Err e)
  | Ok instance => run_produce SRC module instance component (is_dry_run mode)
  end.
Definition produce_inner (self : UpgradableExecutor) (block : Components TS) (forbid_fake_coins : bool)
    (mode : ProduceBlockMode) : option (result ExecutorError ExecutionResult) :=
  let block_version := state_transition_bytecode_version (p_application (header_to_produce block)) in
  let blocks_module := get_module (ledger (storage_view_provider self)) block_version in
  if decide (block_version = native_executor_version self) then
    match execution_strategy self with
    | Native => native_produce_inner self block forbid_fake_coins mode
    | Wasm module =>
        match blocks_module with
        | Ok blocks_module => wasm_produce_inner self blocks_module block forbid_fake_coins mode
        | Err _ => wasm_produce_inner self module block forbid_fake_coins mode
        end
    end
  else
    match blocks_module with
    | Err e => Some (Err e)
    | Ok module => wasm_produce_inner self module block forbid_fake_coins mode
    end.
Definition produce_without_commit_with_source (self : UpgradableExecutor) (components : Components TS)
    : option (result ExecutorError ExecutionResult) :=
  produce_inner self components (forbid_fake_coins_default (upgradable_config self)) Produce.
End produce.

(** [produce_inner_sync]: [TimeoutOnlyTxWaiter] and [TransparentPreconfirmationSender] *)
Definition produce_inner_sync {TS : Type} `{SRC : !TransactionsSource TS} (fuel : nat) (self : UpgradableExecutor)
    (block : Components TS) (forbid_fake_coins : bool) (mode : ProduceBlockMode) : option (result ExecutorError ExecutionResult) :=
  produce_inner (λ _, []) 0 fuel self block forbid_fake_coins mode.
Definition produce_without_commit_with_source_direct_resolve {TS : Type} `{SRC : !TransactionsSource TS} (fuel : nat)
    (self : UpgradableExecutor) (block : Components TS) : option (result ExecutorError ExecutionResult) :=
  produce_inner_sync fuel self block (forbid_fake_coins_default (upgradable_config self)) Produce.

Definition upgradable_dry_run (fuel : nat) (self : UpgradableExecutor) (component : Components (list Transaction))
    (forbid_fake_coins : option bool) (at_height : option BlockHeight)
    : option (result ExecutorError (list (Transaction * TransactionExecutionStatus))) :=
  if bool_decide (is_Some at_height) && negb (allow_historical_execution (upgradable_config self))
  then Some (Err (Other "The historical execution is not allowed"))
  else
    let forbid_fake_coins := unwrap_or (forbid_fake_coins_default (upgradable_config self)) forbid_fake_coins in
    let component := MkComponents (header_to_produce component) (MaybeUnchecked <$> transactions_source component) 0
                       (gas_price component) in
    r ← produce_inner_sync fuel self component forbid_fake_coins
          (match at_height with Some height => DryRunAt height | None => DryRunLatest end);
    Some (res ← r;
          match res_skipped_transactions res with
          | (_, err) :: _ => Err err
          | [] => Ok (zip (transactions (res_block res)) (res_tx_status res))
          end).

Definition native_validate_inner (self : UpgradableExecutor) (block : Block Transaction) (forbid_fake_coins : bool)
    : result ExecutorError ValidationResult :=
  instance ← execution_instance self (height_pred (height (consensus (header block)))) forbid_fake_coins;
  validate_without_commit instance block.
Definition wasm_validate_inner (self : UpgradableExecutor) (module : Module) (block : Block Transaction)
    (forbid_fake_coins : bool) : result ExecutorError ValidationResult :=
  instance ← execution_instance self (height_pred (height (consensus (header block)))) forbid_fake_coins;
  run_validate module instance block.
Definition validate_inner (self : UpgradableExecutor) (block : Block Transaction) (forbid_fake_coins : bool)
    : result ExecutorError ValidationResult :=
  let block_version := state_transition_bytecode_version (application (header block)) in
  let blocks_module := get_module (ledger (storage_view_provider self)) block_version in
  if decide (block_version = native_executor_version self) then
    match execution_strategy self with
    | Native => native_validate_inner self block forbid_fake_coins
    | Wasm module =>
        match blocks_module with
        | Ok blocks_module => wasm_validate_inner self blocks_module block forbid_fake_coins
        | Err _ => wasm_validate_inner self module block forbid_fake_coins
        end
    end
  else
    module ← blocks_module;
    wasm_validate_inner self module block (forbid_fake_coins_default (upgradable_config self)).
Definition validate (self : UpgradableExecutor) (block : Block Transaction) : result ExecutorError ValidationResult :=
  validate_inner self block (forbid_fake_coins_default (upgradable_config self)).

(** The validator of an importer: the executor over the importer's database,
    with the changes it makes to its tables. *)
Definition executor_changes (db : Db) : Changes := MkChanges (Some db) ∅ ∅ ∅ ∅ ∅.
Definition executor_validate (relayer : Relayer) (config : UpgradableConfig) (strategy : ExecutionStrategy)
    (database : OnChain) (block : Block Transaction) : result ExecutorError VerifyAndExecutionResult :=
  v ← validate (MkUpgradableExecutor database relayer config strategy) block;
  Ok (MkVerifyAndExecutionResult (val_tx_status v) (val_events v) (executor_changes (val_changes v))).
End upgradable.
