(* ===== verification/Producer.v ===== *)
(** * The block producer

    [crates/services/producer/src/block_producer.rs] with the adapters of
    [crates/fuel-core/src/service/adapters/producer.rs].  The gas price, the
    cached consensus parameters and the height to which the relayer has synced
    when the wait for it ends are fields of the producer, since other services
    provide them.  An option is [None] when the source of transactions does
    not end within the fuel, and where the code panics. *)
From stdpp Require Import strings.
From S2P Require Import Prelude FuelTypes BlockTypes ExecutorTypes Executor MerklizedTable Importer UpgradableExecutor.

Inductive ProducerError :=
| NoGenesisBlock
| BlockHeightShouldBeHigherThanPrevious (height previous_block : BlockHeight)
| MissingBlock (height : BlockHeight)
| InvalidDaFinalizationState (best previous_block : DaBlockHeight)
| ProductionInProgress
| NoGasPriceFound (e : string)
| NoNewDaHeightFound
| LastTransactionShouldBeMint
| NoReceipts
| ProducerStorage (e : StorageFailure)
| ProducerRelayer (e : string)
| ProducerOther (e : string)
| FailedToProduce (height : BlockHeight) (e : ExecutorError)
| DryRunFailed (e : ExecutorError).

Record RelayerBlockInfo := MkRelayerBlockInfo { gas_cost : Z; info_tx_count : Z }.
Record PreviousBlockInfo := MkPreviousBlockInfo { previous_root : Bytes32; previous_da_height : DaBlockHeight }.

(** ** The relayer adapter *)
Definition add_event (acc : Z * Z) (event : RelayerEvent) : Z * Z :=
  (saturating_add u64 acc.1 (relayer_event_cost event),
   match event with EventMessage _ => acc.2 | EventTransaction _ => saturating_add u64 acc.2 1 end).
Definition get_cost_and_transactions_number_for_block (self : Relayer) (height : DaBlockHeight) : result string RelayerBlockInfo :=
  events ← get_events self height;
  let '(gas_cost, tx_count) := foldl add_event (0, 0) events in
  Ok (MkRelayerBlockInfo gas_cost tx_count).

Section producer.
Context `{HH : Hashing} `{BT : BinaryMerkleTree} `{VM : FuelVm} `{HS : !HistoricalStorage} `{WR : !WasmRuntime}.

(** ** The database of the producer *)
Definition get_full_block_of (self : OnChain) (height : BlockHeight) : result StorageFailure (Block Transaction) :=
  block ← get_block self height;
  txs ← get_transactions self (transactions block);
  Ok (uncompress_block block txs).
Definition latest_consensus_parameters_version (self : OnChain) : result StorageFailure Z :=
  ok_or (last_key (λ _, True) (consensus_parameters_versions (vm_tables (ledger self)))) (NotFound "ConsensusParametersVersions").
Definition latest_state_transition_bytecode_version (self : OnChain) : result StorageFailure Z :=
  ok_or (last_key (λ _, True) (state_transition_bytecode_versions (vm_tables (ledger self))))
    (NotFound "StateTransitionBytecodeVersions").

(** [relayer_synced] is the finalized height when the wait is over, [None]
    without a relayer; [production_free] is the lock of the production. *)
Record Producer := MkProducer {
  config_coinbase_recipient : option ContractId;
  producer_executor : UpgradableExecutor;
  relayer_synced : option DaBlockHeight;
  production_free : bool;
  production_gas_price : result string Z;
  dry_run_gas_price : result string Z;
  consensus_params_at_version : Z → result string ConsensusParameters
}.
Definition view_provider (self : Producer) : OnChain := storage_view_provider (producer_executor self).
Definition producer_relayer (self : Producer) : Relayer := relayer_view_provider (producer_executor self).

Definition wait_for_at_least_height (self : Producer) (height : DaBlockHeight) : DaBlockHeight :=
  match relayer_synced self with Some finalized_da_height => finalized_da_height | None => height end.

(** ** Headers *)
Definition previous_block_info (height : BlockHeight) (view : OnChain) : result ProducerError PreviousBlockInfo :=
  latest_height ← ok_or (stage_height view) NoGenesisBlock;
  prev_height ← ok_or (height_pred height) (BlockHeightShouldBeHigherThanPrevious 0 latest_height);
  previous_block ← map_err ProducerStorage (get_block view prev_height);
  prev_root ← map_err ProducerStorage (block_header_merkle_root view prev_height);
  Ok (MkPreviousBlockInfo prev_root (da_height (application (header previous_block)))).

Definition new_header (height : BlockHeight) (block_time : Z) (view : OnChain) : result ProducerError PartialBlockHeader :=
  previous_block_info ← previous_block_info height view;
  consensus_parameters_version ← map_err ProducerStorage (latest_consensus_parameters_version view);
  state_transition_bytecode_version ← map_err ProducerStorage (latest_state_transition_bytecode_version view);
  Ok (MkPartialBlockHeader
        (MkApplicationHeader (previous_da_height previous_block_info) consensus_parameters_version
           state_transition_bytecode_version ())
        (MkConsensusHeader (previous_root previous_block_info) height block_time ())).

(** The loop over the DA heights above the previous one. *)
Fixpoint extend_da_height (relayer : Relayer) (gas_limit transactions_limit : Z) (heights : list DaBlockHeight)
    (new_best : DaBlockHeight) (total_cost total_transactions : Z) : result ProducerError DaBlockHeight :=
  match heights with
  | [] => Ok new_best
  | height :: heights =>
      info ← map_err ProducerRelayer (get_cost_and_transactions_number_for_block relayer height);
      let total_cost := saturating_add u64 total_cost (gas_cost info) in
      let total_transactions := saturating_add u64 total_transactions (info_tx_count info) in
      if decide (gas_limit < total_cost ∨ transactions_limit < total_transactions) then Ok new_best
      else extend_da_height relayer gas_limit transactions_limit heights height total_cost total_transactions
  end.
Definition select_new_da_height (self : Producer) (gas_limit : Z) (previous_da_height : DaBlockHeight) (transactions_limit : Z)
    : result ProducerError DaBlockHeight :=
  let highest := wait_for_at_least_height self previous_da_height in
  if decide (highest < previous_da_height) then Err (InvalidDaFinalizationState highest previous_da_height)
  else if decide (highest = previous_da_height) then Ok highest
  else
    let next_da_height := saturating_add u64 previous_da_height 1 in
    new_best ← extend_da_height (producer_relayer self) gas_limit transactions_limit
                 (seqZ next_da_height (highest - next_da_height + 1)) previous_da_height 0 0;
    if decide (new_best = previous_da_height) then Err NoNewDaHeightFound else Ok new_best.

Definition with_da_height (h : PartialBlockHeader) (da : DaBlockHeight) : PartialBlockHeader :=
  let a := p_application h in
  MkPartialBlockHeader
    (MkApplicationHeader da (consensus_parameters_version a) (state_transition_bytecode_version a) (app_generated a))
    (p_consensus h).
Definition new_header_with_new_da_height (self : Producer) (height : BlockHeight) (block_time : Z) (view : OnChain)
    : result ProducerError PartialBlockHeader :=
  block_header ← new_header height block_time view;
  let previous_da_height := da_height (p_application block_header) in
  params ← map_err ProducerOther (consensus_params_at_version self (consensus_parameters_version (p_application block_header)));
  new_da_height ← select_new_da_height self (cp_block_gas_limit params) previous_da_height (int_max u16 - 1);
  Ok (with_da_height block_header new_da_height).
Definition new_header_with_da_height (height : BlockHeight) (block_time : Z) (da : DaBlockHeight) (view : OnChain)
    : result ProducerError PartialBlockHeader :=
  block_header ← new_header height block_time view;
  Ok (with_da_height block_header da).
Definition check_height (header : PartialBlockHeader) (view : OnChain) : result ProducerError unit :=
  let height := height (p_consensus header) in
  latest_height ← ok_or (stage_height view) NoGenesisBlock;
  if decide (height ≤ latest_height) then Err (BlockHeightShouldBeHigherThanPrevious height latest_height) else Ok ().

(** ** Production *)
Definition with_context (height : BlockHeight) (r : option (result ExecutorError ExecutionResult))
    : option (result ProducerError ExecutionResult) :=
  map_err (FailedToProduce height) <$> r.

(** The components of the block, until the executor is called. *)
Definition components_to_produce {TS : Type} (self : Producer) (height : BlockHeight) (block_time : Z)
    (tx_source : Z → BlockHeight → result string TS) : result ProducerError (Components TS) :=
  if production_free self then
    gas_price ← map_err NoGasPriceFound (production_gas_price self);
    source ← map_err ProducerOther (tx_source gas_price height);
    let view := view_provider self in
    header ← new_header_with_new_da_height self height block_time view;
    _ ← check_height header view;
    Ok (MkComponents header source (unwrap_or 0 (config_coinbase_recipient self)) gas_price)
  else Err ProductionInProgress.

(** [rounds] and [try_send] are the deadline and the receiver of
    preconfirmations. *)
Definition produce_and_execute {TS : Type} `{SRC : !TransactionsSource TS}
    (try_send : list PreconfirmationStatus → list PreconfirmationStatus) (rounds fuel : nat) (self : Producer)
    (height : BlockHeight) (block_time : Z) (tx_source : Z → BlockHeight → result string TS)
    : option (result ProducerError ExecutionResult) :=
  match components_to_produce self height block_time tx_source with
  | Err e => Some (Err e)
  | Ok component =>
      with_context height (produce_without_commit_with_source try_send rounds fuel (producer_executor self) component)
  end.
(** [get_source] is the pool's; a failure of the adapter to create it does not
    occur. *)
Definition produce_and_execute_block_txpool {TS : Type} `{SRC : !TransactionsSource TS}
    (try_send : list PreconfirmationStatus → list PreconfirmationStatus) (rounds fuel : nat) (self : Producer)
    (height : BlockHeight) (block_time : Z) (get_source : Z → TS) : option (result ProducerError ExecutionResult) :=
  produce_and_execute try_send rounds fuel self height block_time (λ gas_price _, Ok (get_source gas_price)).
(** [produce_without_commit_from_vector] of the adapter: the transactions are
    unchecked and drained once. *)
Definition produce_from_vector (fuel : nat) (self : UpgradableExecutor) (component : Components (list Transaction))
    : option (result ExecutorError ExecutionResult) :=
  produce_without_commit_with_source_direct_resolve fuel self
    (MkComponents (header_to_produce component) (MaybeUnchecked <$> transactions_source component)
       (coinbase_recipient component) (gas_price component)).
Definition produce_and_execute_block_transactions (fuel : nat) (self : Producer) (height : BlockHeight) (block_time : Z)
    (transactions : list Transaction) : option (result ProducerError ExecutionResult) :=
  match components_to_produce self height block_time (λ _ _, Ok transactions) with
  | Err e => Some (Err e)
  | Ok component => with_context height (produce_from_vector fuel (producer_executor self) component)
  end.

Definition predefined_components (self : Producer) (predefined_block : Block Transaction)
    : result ProducerError (Components (list Transaction)) :=
  if production_free self then
    let c := consensus (header predefined_block) in
    let view := view_provider self in
    header_to_produce ←
      new_header_with_da_height (height c) (time c) (da_height (application (header predefined_block))) view;
    _ ← check_height header_to_produce view;
    match last (transactions predefined_block) with
    | Some (TxMint mint_tx) =>
        Ok (MkComponents header_to_produce (removelast (transactions predefined_block))
              (xi_contract_id (mint_input_contract mint_tx)) (mint_gas_price mint_tx))
    | _ => Err LastTransactionShouldBeMint
    end
  else Err ProductionInProgress.
Definition produce_and_execute_predefined (fuel : nat) (self : Producer) (predefined_block : Block Transaction)
    : option (result ProducerError ExecutionResult) :=
  match predefined_components self predefined_block with
  | Err e => Some (Err e)
  | Ok component =>
      with_context (height (consensus (header predefined_block))) (produce_from_vector fuel (producer_executor self) component)
  end.

(** ** Dry run *)
Definition receipts (r : TransactionExecutionResult) : list Receipt :=
  match r with Success _ receipts _ _ | Failed _ receipts _ _ => receipts end.
Definition is_script (tx : Transaction) : bool :=
  match tx with TxChargeable tx => bool_decide (tx_kind tx = Script) | TxMint _ => false end.

Definition dry_run_components (self : Producer) (transactions : list Transaction) (simulated_height : BlockHeight)
    (time : option Z) (gas_price : option Z) : result ProducerError (Components (list Transaction)) :=
  let view := view_provider self in
  let latest_height := unwrap_or 0 (stage_height view) in
  let simulated_time :=
    match time with
    | Some time => time
    | None => match get_block view latest_height with
              | Ok block => FuelTypes.time (consensus (header block))
              | Err _ => UNIX_EPOCH
              end
    end in
  header ← new_header simulated_height simulated_time view;
  gas_price ← match gas_price with Some inner => Ok inner | None => map_err NoGasPriceFound (dry_run_gas_price self) end;
  Ok (MkComponents header transactions (unwrap_or 0 (config_coinbase_recipient self)) gas_price).

Definition producer_dry_run (fuel : nat) (self : Producer) (transactions : list Transaction) (height : option BlockHeight)
    (time : option Z) (utxo_validation : option bool) (gas_price : option Z)
    : option (result ProducerError (list (Transaction * TransactionExecutionStatus))) :=
  simulated_height ← match height with
                     | Some height => Some height
                     | None => height_succ (unwrap_or 0 (stage_height (view_provider self)))
                     end;
  match dry_run_components self transactions simulated_height time gas_price with
  | Err e => Some (Err e)
  | Ok component =>
      r ← upgradable_dry_run fuel (producer_executor self) component utxo_validation height;
      Some (txs ← map_err DryRunFailed r;
            if existsb (λ p : Transaction * TransactionExecutionStatus,
                          is_script p.1 && bool_decide (receipts (st_result p.2) = [])) txs
            then Err NoReceipts else Ok txs)
  end.
End producer.
