(* ===== verification/ProducerFacts.v ===== *)
(** * What the block producer guarantees

    The DA height of a new block takes in as many forced transactions as fit
    into the block and no more; and a block that this producer makes is one
    that every importer with the same database accepts, with the same database
    as the outcome. *)
From stdpp Require Import strings.
From S2P Require Import Prelude FuelTypes BlockTypes ExecutorTypes Executor ExecutorFrame ExecutorRoundtrip ExecutorAccounting MerklizedTable Importer ImporterFacts UpgradableExecutor Producer.

(** ** The DA height *)
Definition events_gas (es : list RelayerEvent) : Z := foldr (λ e acc, relayer_event_cost e + acc) 0 es.
Definition forced_count (es : list RelayerEvent) : Z :=
  foldr (λ e acc, match e with EventMessage _ => acc | EventTransaction _ => 1 + acc end) 0 es.
Definition events_ok (es : list RelayerEvent) : Prop := Forall (λ e, 0 ≤ relayer_event_cost e) es.

Lemma events_gas_app es es' : events_gas (es ++ es') = events_gas es + events_gas es'.
Proof. induction es as [|e es IH]; cbn; [done|]. fold (events_gas (es ++ es')). fold (events_gas es). lia. Qed.

Lemma forced_count_app es es' : forced_count (es ++ es') = forced_count es + forced_count es'.
Proof. induction es as [|[] es IH]; cbn; [done|..]; fold (forced_count (es ++ es')); fold (forced_count es); lia. Qed.

Lemma events_nonneg es : events_ok es → 0 ≤ events_gas es ∧ 0 ≤ forced_count es.
Proof.
  induction 1 as [|e es He _ IH]; cbn; [lia|]. fold (events_gas es). fold (forced_count es). destruct e; cbn in *; lia.
Qed.

(** The adapter's sums, which saturate. *)
Lemma add_events_sum es a b :
  events_ok es → 0 ≤ a ≤ int_max u64 → 0 ≤ b ≤ int_max u64 →
  foldl add_event (a, b) es = (Z.min (int_max u64) (a + events_gas es), Z.min (int_max u64) (b + forced_count es)).
Proof.
  intros Hes. revert a b. induction Hes as [|e es He Hes IH]; intros a b Ha Hb; cbn [foldl].
  - cbn [events_gas forced_count foldr]. f_equal; lia.
  - destruct (events_nonneg es Hes). unfold add_event. cbn [fst snd].
    assert (∀ x y, 0 ≤ x ≤ int_max u64 → 0 ≤ y → saturating_add u64 x y = Z.min (int_max u64) (x + y)) as Hsat.
    { intros x y Hx Hy. unfold saturating_add, clamp. int_unfold. lia. }
    cbn [events_gas forced_count foldr]. fold (events_gas es). fold (forced_count es).
    rewrite Hsat by done. destruct e as [m|tx].
    + rewrite IH by lia. f_equal; lia.
    + rewrite Hsat by lia. rewrite IH by lia. f_equal; lia.
Qed.

Section da_height.
Context (relayer : Relayer) (gas_limit transactions_limit : Z).
Context (Hrel : ∀ h es, get_events relayer h = Ok es → events_ok es).
Context (Hgas : gas_limit < int_max u64) (Htxs : transactions_limit < int_max u64).

Definition fits (es : list RelayerEvent) : Prop := events_gas es ≤ gas_limit ∧ forced_count es ≤ transactions_limit.

(** The heights that the loop takes in, with what the next one would add. *)
Lemma extend_da_height_spec heights best es0 new :
  events_ok es0 → fits es0 →
  extend_da_height relayer gas_limit transactions_limit heights best (events_gas es0) (forced_count es0) = Ok new →
  ∃ pre post ess, heights = pre ++ post ∧ new = default best (last pre)
    ∧ Forall2 (λ h es, get_events relayer h = Ok es) pre ess ∧ fits (es0 ++ concat ess)
    ∧ (post = [] ∨ ∃ h post' es, post = h :: post' ∧ get_events relayer h = Ok es ∧ ¬ fits (es0 ++ concat ess ++ es)).
Proof.
  revert best es0. induction heights as [|h heights IH]; intros best es0 Hes0 Hfit; cbn [extend_da_height].
  - intros [= <-]. exists [], [], []. cbn [concat]. rewrite !app_nil_r.
    split; [done|]. split; [done|]. split; [constructor|]. split; [done|by left].
  - unfold get_cost_and_transactions_number_for_block. destruct (get_events relayer h) as [es|] eqn:Hes; cbn [mbind result_bind map_err]; [|done].
    pose proof (Hrel h es Hes) as Hok. destruct (events_nonneg es Hok), (events_nonneg es0 Hes0). destruct Hfit as [Hf1 Hf2].
    rewrite add_events_sum by (done || int_lia). cbn [mbind result_bind map_err gas_cost info_tx_count].
    assert (∀ x y l, 0 ≤ x → x ≤ l → l < int_max u64 → 0 ≤ y →
      let z := saturating_add u64 x (Z.min (int_max u64) (0 + y)) in (l < z ↔ l < x + y) ∧ (x + y ≤ l → z = x + y)) as Hsat.
    { intros x y l ????. cbn zeta. unfold saturating_add, clamp. replace (int_min u64) with 0 by done. lia. }
    destruct (Hsat (events_gas es0) (events_gas es) gas_limit) as [G1 G2]; [done..|].
    destruct (Hsat (forced_count es0) (forced_count es) transactions_limit) as [T1 T2]; [done..|].
    case_decide as Hover.
    + intros [= <-]. exists [], (h :: heights), []. cbn [concat]. rewrite app_nil_r.
      split; [done|]. split; [done|]. split; [constructor|]. split; [done|]. right. exists h, heights, es. split; [done|]. split; [done|].
      change ([] ++ es) with es. intros [F1 F2]. rewrite events_gas_app in F1. rewrite forced_count_app in F2.
      destruct Hover as [Ho%G1|Ho%T1]; lia.
    + rewrite G2, T2 by lia. rewrite <- events_gas_app, <- forced_count_app. intros Hrun.
      apply IH in Hrun as (pre & post & ess & -> & -> & Hall & Hf & Hpost).
      * exists (h :: pre), post, (es :: ess). cbn [concat]. rewrite <- !app_assoc in *. split; [done|].
        split; [rewrite last_cons; by destruct (last pre)|]. split; [by constructor|]. split; [done|].
        destruct Hpost as [?|(h' & post' & es' & ? & ? & Hno)]; [by left|]. right. exists h', post', es'.
        split; [done|]. split; [done|]. by rewrite <- !app_assoc in Hno |- *.
      * by apply Forall_app.
      * split; [rewrite events_gas_app|rewrite forced_count_app]; lia.
Qed.
End da_height.

Section selection.
Context `{HH : Hashing} `{BT : BinaryMerkleTree} `{VM : FuelVm} `{HS : !HistoricalStorage} `{WR : !WasmRuntime}.

Lemma seqZ_prefix n m pre post :
  0 ≤ m → seqZ n m = pre ++ post → pre = seqZ n (Z.of_nat (length pre))
    ∧ Z.of_nat (length pre) ≤ m ∧ (post = [] → Z.of_nat (length pre) = m)
    ∧ (∀ h post', post = h :: post' → h = n + Z.of_nat (length pre)).
Proof.
  intros Hm Heq. pose proof (f_equal length Heq) as Hlen. rewrite length_seqZ, length_app in Hlen.
  assert (∀ i x, (pre ++ post) !! i = Some x → x = n + Z.of_nat i) as Hat.
  { intros i x Hi. rewrite <- Heq in Hi. apply lookup_seqZ in Hi as [-> _]. done. }
  split; [|split; [lia|split]].
  - apply list_eq. intros i. destruct (pre !! i) as [x|] eqn:Hi.
    + rewrite (Hat i x) by (by apply lookup_app_l_Some). symmetry. apply lookup_seqZ. apply lookup_lt_Some in Hi. lia.
    + symmetry. apply lookup_seqZ_ge. apply lookup_ge_None in Hi. lia.
  - intros ->. cbn in Hlen. lia.
  - intros h post' ->. apply Hat. rewrite lookup_app_r by lia. by rewrite Nat.sub_diag.
Qed.

(** The DA height of a new block: it is between that of the previous block and
    the height the relayer has synced to, and advances whenever the relayer is
    ahead; the events of the DA blocks it takes in fit into the block, their gas
    within the gas limit and their forced transactions within the limit of
    transactions; and it is the highest such height, as the events of the next
    DA block would not fit. *)
Theorem da_height_is_maximal self gas_limit previous transactions_limit new :
  (∀ h es, get_events (producer_relayer self) h = Ok es → events_ok es) →
  0 ≤ gas_limit < int_max u64 → 0 ≤ transactions_limit < int_max u64 →
  in_range u64 previous → in_range u64 (wait_for_at_least_height self previous) →
  select_new_da_height self gas_limit previous transactions_limit = Ok new →
  let highest := wait_for_at_least_height self previous in
  previous ≤ new ≤ highest ∧ (new = previous → highest = previous)
  ∧ ∃ ess, Forall2 (λ h es, get_events (producer_relayer self) h = Ok es) (seqZ (previous + 1) (new - previous)) ess
      ∧ fits gas_limit transactions_limit (concat ess)
      ∧ (new = highest ∨ ∃ es, get_events (producer_relayer self) (new + 1) = Ok es
                               ∧ ¬ fits gas_limit transactions_limit (concat ess ++ es)).
Proof.
  intros Hrel Hgas Htxs Hprev Hhigh. unfold select_new_da_height. cbn zeta. set (highest := wait_for_at_least_height self previous) in *.
  case_decide as Hlow; [done|]. case_decide as Heq.
  - intros [= <-]. rewrite Heq. split; [lia|]. split; [done|]. exists []. rewrite Z.sub_diag. split; [constructor|].
    split; [split; cbn; lia|by left].
  - assert (saturating_add u64 previous 1 = previous + 1) as -> by (clear Hgas Htxs; int_lia).
    destruct (extend_da_height _ _ _ _ _ _ _) as [best|] eqn:Hrun; cbn [mbind result_bind]; [|done].
    case_decide as Hnew; [done|]. intros [= <-].
    apply (extend_da_height_spec _ _ _ Hrel (proj2 Hgas) (proj2 Htxs) _ _ []) in Hrun
      as (pre & post & ess & Hseq & Hbest & Hall & Hfit & Hpost); [|constructor|split; cbn; lia].
    apply seqZ_prefix in Hseq as (Hpre & Hle & Hend & Hnext); [|lia].
    assert (best = previous + Z.of_nat (length pre)) as ->.
    { rewrite Hbest. destruct (last pre) as [x|] eqn:Hl; [|by apply last_None in Hl as ->; cbn; lia].
      rewrite last_lookup, Hpre in Hl. apply lookup_seqZ in Hl. rewrite length_seqZ in Hl. cbn. lia. }
    split; [lia|]. split; [done|]. exists ess.
    replace (previous + Z.of_nat (length pre) - previous) with (Z.of_nat (length pre)) by lia. rewrite <- Hpre.
    split; [done|]. split; [done|]. destruct Hpost as [Hp|(h & post' & es & Hp & Hes & Hno)]; [left; specialize (Hend Hp); lia|].
    right. exists es. rewrite (Hnext _ _ Hp) in Hes. split; [|done]. rewrite <- Hes. f_equal. lia.
Qed.
End selection.

(** ** From the producer to the importer *)
Section production.
Context `{HH : Hashing} `{BT : BinaryMerkleTree} `{BL : !BinaryMerkleTreeLaws} `{VM : FuelVm} `{VL : !FuelVmLaws}.
Context `{HS : !HistoricalStorage} `{WR : !WasmRuntime} {TS : Type} `{SRC : !TransactionsSource TS}.
Implicit Types (db : OnChain) (bs : list SealedBlock) (c : Components TS).

Lemma produced_block_header try_send rounds fuel instance c res :
  produce_without_commit try_send rounds fuel instance c false = Some (Ok res) →
  let h := header (res_block res) in
  PartialBlockHeader_from h = header_to_produce c
  ∧ application_hash (con_generated (consensus h)) = application_header_hash (application h)
  ∧ validate_transactions h (transactions (res_block res)) = true.
Proof.
  unfold produce_without_commit, execute. destruct (into_executor _ _) as [cp|]; [|done]. cbn [dry_run].
  destruct (produce_block _ _ _ _ _ _ _ _) as [[[s|] sent]|] eqn:E; [|done..].
  cbn [fmap option_fmap option_map fst mbind option_bind result_bind]. intros [= Hres].
  unfold generate, Block_new in Hres. destruct (generate_header _ _ _ _) as [h|] eqn:Hg; [|done].
  cbn [mbind result_bind map_err] in Hres. injection Hres as <-. cbn [res_block header transactions].
  rewrite (partial_of_generate _ _ _ _ _ Hg), (produce_block_header _ _ _ _ _ _ _ _ _ _ E). split; [done|].
  apply generate_header_ok in Hg as (_ & _ & ->). split; [done|]. unfold validate_transactions. simpl. by rewrite !bool_decide_true.
Qed.

(** A header for the block after [prev], the last of the chain. *)
Record next_header db bs (h : PartialBlockHeader) (prev : SealedBlock) : Prop := {
  nh_last : last bs = Some prev;
  nh_height : height (p_consensus h) = block_height prev + 1;
  nh_root : block_header_merkle_root db (block_height prev) = Ok (prev_root (p_consensus h));
  nh_da : da_height (application (header (entity prev))) ≤ da_height (p_application h);
  nh_stf : latest_state_transition_bytecode_version db = Ok (state_transition_bytecode_version (p_application h))
}.

Lemma extend_da_height_in relayer gas_limit txs_limit heights best cost txs new :
  extend_da_height relayer gas_limit txs_limit heights best cost txs = Ok new → new = best ∨ new ∈ heights.
Proof.
  revert best cost txs. induction heights as [|h heights IH]; intros best cost txs; cbn [extend_da_height]; [intros [= <-]; by left|].
  destruct (get_cost_and_transactions_number_for_block relayer h) as [info|]; cbn [map_err mbind result_bind]; [|done].
  case_decide; [intros [= <-]; by left|]. intros [->|Hin]%IH; right; [left|by right].
Qed.

Lemma select_new_da_height_ge self gas_limit previous txs_limit new :
  in_range u64 previous → select_new_da_height self gas_limit previous txs_limit = Ok new → previous ≤ new.
Proof.
  intros Hr. unfold select_new_da_height. cbn zeta. case_decide; [done|]. case_decide; [intros [= <-]; lia|].
  destruct (extend_da_height _ _ _ _ _ _ _) as [best|] eqn:E; cbn [mbind result_bind]; [|done]. case_decide; [done|]. intros [= <-].
  apply extend_da_height_in in E as [->|(Hge & _)%elem_of_seqZ]; [lia|]. revert Hge. unfold saturating_add, clamp. int_unfold. lia.
Qed.

Lemma components_next_header chain_id self bs h t tx_source c :
  Chain chain_id (view_provider self) bs →
  Forall (λ b, in_range u64 (da_height (application (header (entity b))))) bs →
  components_to_produce self h t tx_source = Ok c →
  height (p_consensus (header_to_produce c)) = h ∧ time (p_consensus (header_to_produce c)) = t
  ∧ ∃ prev, next_header (view_provider self) bs (header_to_produce c) prev.
Proof.
  intros HC Hda. unfold components_to_produce. destruct (production_free self); [|done].
  destruct (production_gas_price self); cbn [map_err mbind result_bind]; [|done].
  destruct (tx_source _ _); cbn [map_err mbind result_bind]; [|done]. set (db := view_provider self) in *.
  unfold new_header_with_new_da_height, new_header, previous_block_info, check_height. rewrite (cn_stage _ _ _ HC).
  destruct (last bs) as [prev|] eqn:Hlast; cbn [fmap option_fmap option_map ok_or mbind result_bind]; [|done].
  destruct (height_pred h) as [ph|] eqn:Hph; cbn [ok_or mbind result_bind]; [|done].
  apply fit_Some in Hph as [Hph _].
  unfold get_block. destruct (fuel_blocks (ledger db) !! ph) as [pb|] eqn:Hpb; cbn [ok_or map_err mbind result_bind]; [|done].
  destruct (block_header_merkle_root db ph) as [root|] eqn:Hroot; cbn [map_err mbind result_bind]; [|done].
  destruct (latest_consensus_parameters_version db) as [v|]; cbn [map_err mbind result_bind]; [|done].
  destruct (latest_state_transition_bytecode_version db) as [stf|] eqn:Hstf; cbn [map_err mbind result_bind]; [|done].
  cbn [p_application consensus_parameters_version previous_da_height previous_root da_height].
  destruct (consensus_params_at_version self v) as [params|]; cbn [map_err mbind result_bind]; [|done].
  destruct (select_new_da_height _ _ _ _) as [da|] eqn:Hsel; cbn [map_err mbind result_bind]; [|done].
  cbn [with_da_height p_consensus height]. case_decide as Hle; cbn [mbind result_bind]; [done|]. intros [= <-]. cbn. split; [done|]. split; [done|].
  apply (chain_block _ _ _ _ _ HC) in Hpb as (b & Hb & Hbh & <-).
  apply list_elem_of_lookup in Hb as [i Hi]. pose proof Hlast as Hl. destruct bs as [|b0 bs']; [done|]. rewrite last_lookup in Hl.
  assert (b = prev) as ->.
  { pose proof (chain_heights _ _ _ i b0 b HC eq_refl Hi) as H1. pose proof (chain_heights _ _ _ _ b0 prev HC eq_refl Hl) as H2.
    pose proof (lookup_lt_Some _ _ _ Hi) as Hlt. assert (i = pred (length (b0 :: bs'))) as -> by lia. congruence. }
  apply select_new_da_height_ge in Hsel; [|exact (Forall_lookup_1 _ _ _ _ Hda Hi)].
  exists prev. split; cbn; [done|lia| |done|done]. by rewrite Hbh.
Qed.

Lemma ensure_ok {E : Type} (P : Prop) `{Decision P} (e : E) : P → ensure P e = Ok ().
Proof. intros HP. unfold ensure. by rewrite decide_True. Qed.

Lemma verified_block chain_id db bs prev block :
  Chain chain_id db bs → heights_ok bs → next_header db bs (PartialBlockHeader_from (header block)) prev →
  time (consensus (header (entity prev))) ≤ time (consensus (header block)) →
  application_hash (con_generated (consensus (header block))) = application_header_hash (application (header block)) →
  validate_transactions (header block) (transactions block) = true →
  poa_verify_block_fields db block = Ok ().
Proof.
  intros HC Hok [Hl Hh Hroot Hda _] Ht Happ Htx. cbn in Hh, Hroot, Hda. fold (block_height prev) in Hh, Hroot.
  unfold poa_verify_block_fields. cbn zeta.
  assert (prev ∈ bs) as Hin by (by apply last_Some_elem_of).
  pose proof (proj1 (Forall_forall _ _) Hok _ Hin) as [Hp _].
  rewrite (ensure_ok _ PoAHeightIsZero) by (int_unfold; lia). cbn [mbind result_bind].
  replace (height (consensus (header block)) - 1) with (block_height prev) by lia. rewrite Hroot. cbn [map_err mbind result_bind].
  rewrite (ensure_ok _ PreviousRootMismatch) by done. cbn [mbind result_bind]. unfold block_header, get_block.
  assert (fuel_blocks (ledger db) !! block_height prev = Some (compress (tx_id chain_id) (entity prev))) as ->
    by (apply (chain_block _ _ _ _ _ HC); eauto).
  cbn [ok_or fmap result_fmap map_err mbind result_bind compress header]. by rewrite !ensure_ok.
Qed.

(** The transactions in the database are known to the executor. *)
Definition recorded db : Prop := ∀ id, is_Some (transactions_table db !! id) → id ∈ processed_transactions (ledger db).

(** Every batch of the source is checked, as it says. *)
Definition well_sourced (cp : ConsensusParameters) (hdr : PartialBlockHeader) (ts : TS) : Prop :=
  ∃ Q : TS → Prop, Q ts ∧ ∀ ts g n z, Q ts → Forall (well_checked cp hdr) (next ts g n z).1 ∧ Q (next ts g n z).2.

(** An importer that is ready to import, over the database of a producer, with
    the native executor as its validator. *)
Record same_node (self : Producer) (config : ImporterConfig) (im : Importer) : Prop := {
  sn_database : database im = view_provider self;
  sn_ready : guard_free im = true ∧ (0 < active_import_results im)%nat;
  sn_native : execution_strategy (producer_executor self) = Native;
  sn_validate : ic_validate config = executor_validate (producer_relayer self) (upgradable_config (producer_executor self)) Native;
  sn_version : latest_state_transition_bytecode_version (view_provider self) = Ok (native_executor_version (producer_executor self));
  sn_chain_id v cp : consensus_parameters_versions (vm_tables (ledger (view_provider self))) !! v = Some cp →
    cp_chain_id cp = ic_chain_id config
}.

(** What the executor returns for a produced block. *)
Lemma produced_spec try_send rounds fuel self config im bs c prev res :
  same_node self config im → Chain (ic_chain_id config) (view_provider self) bs →
  next_header (view_provider self) bs (header_to_produce c) prev → heights_ok bs →
  (∀ cp, consensus_parameters_versions (vm_tables (ledger (view_provider self))) !! consensus_parameters_version (p_application (header_to_produce c)) = Some cp →
     well_sourced cp (header_to_produce c) (transactions_source c)) →
  produce_without_commit_with_source try_send rounds fuel (producer_executor self) c = Some (Ok res) →
  Forall (λ p, counter_overflow p.2 = false) (res_skipped_transactions res) → Forall harmless_failure (res_events res) →
  PartialBlockHeader_from (header (res_block res)) = header_to_produce c
  ∧ application_hash (con_generated (consensus (header (res_block res)))) = application_header_hash (application (header (res_block res)))
  ∧ validate_transactions (header (res_block res)) (transactions (res_block res)) = true
  ∧ (∃ v, ic_validate config (view_provider self) (res_block res) = Ok v ∧ ve_changes v = executor_changes (res_changes res))
  ∧ (let ids := tx_id (ic_chain_id config) <$> transactions (res_block res) in
     NoDup ids ∧ Forall (λ id, id ∉ processed_transactions (ledger (view_provider self))) ids
     ∧ processed_transactions (res_changes res) = list_to_set ids ∪ processed_transactions (ledger (view_provider self))).
Proof.
  intros [_ _ Hnat Hval Hver Hcid] HC [Hl Hh _ _ Hstf] Hok Hsrc Hprod Hskip Hev. set (db := view_provider self) in *.
  assert (state_transition_bytecode_version (p_application (header_to_produce c)) = native_executor_version (producer_executor self)) as Hv
    by congruence.
  assert (height_pred (height (p_consensus (header_to_produce c))) = Some (block_height prev)) as Hpred.
  { pose proof (proj1 (Forall_forall _ _) Hok prev ltac:(by apply last_Some_elem_of)) as Hp.
    apply fit_Some. rewrite Hh. split; [lia|done]. }
  assert (∀ strategy, execution_instance (MkUpgradableExecutor db (producer_relayer self) (upgradable_config (producer_executor self)) strategy)
      (Some (block_height prev)) (forbid_fake_coins_default (upgradable_config (producer_executor self)))
    = Ok (MkExecutionInstance (producer_relayer self) (ledger db) (forbid_fake_coins_default (upgradable_config (producer_executor self))))) as Hinst.
  { intros strategy. unfold execution_instance, view_at. cbn [storage_view_provider]. rewrite (cn_stage _ _ _ HC), Hl.
    cbn [fmap option_fmap option_map]. by rewrite decide_True. }
  set (inst := MkExecutionInstance _ _ _) in Hinst.
  assert (produce_without_commit try_send rounds fuel inst c false = Some (Ok res)) as Hrun.
  { revert Hprod. unfold produce_without_commit_with_source, produce_inner. rewrite decide_True by done. rewrite Hnat.
    unfold native_produce_inner. cbn [mode_height]. rewrite Hpred. specialize (Hinst (execution_strategy (producer_executor self))).
    unfold db, view_provider, producer_relayer in Hinst. destruct (producer_executor self). cbn in Hinst |- *. by rewrite Hinst. }
  destruct (produced_block_header _ _ _ _ _ _ Hrun) as (Hhdr & Happ & Htxs). split; [done|]. split; [done|]. split; [done|].
  destruct (into_executor inst (consensus_parameters_version (p_application (header_to_produce c)))) as [cp|] eqn:Hcp.
  2: { revert Hrun. unfold produce_without_commit. by rewrite Hcp. }
  assert (consensus_parameters_versions (vm_tables (ledger db)) !! consensus_parameters_version (p_application (header_to_produce c)) = Some cp) as Hlook.
  { revert Hcp. unfold into_executor. cbn [inst in_database]. destruct (_ !! _); cbn [ok_or]; congruence. }
  destruct (Hsrc cp Hlook) as (Q & HQ0 & HQ).
  destruct (produced_instance_validates _ _ _ _ _ _ _ Q Hrun Hcp HQ HQ0 Hskip) as (v & Hvv & Hch & _ & Hsub & _).
  assert (consensus_parameters_version (application (header (res_block res))) = consensus_parameters_version (p_application (header_to_produce c))
    ∧ state_transition_bytecode_version (application (header (res_block res))) = native_executor_version (producer_executor self)
    ∧ height (consensus (header (res_block res))) = height (p_consensus (header_to_produce c))) as (Hcv & Hsv & Hhh).
  { rewrite <- Hv, <- Hhdr. done. }
  split.
  - exists (MkVerifyAndExecutionResult (val_tx_status v) (val_events v) (executor_changes (val_changes v))).
    split; [|by rewrite <- Hch]. rewrite Hval. unfold executor_validate, validate, validate_inner.
    cbn [upgradable_config execution_strategy]. unfold native_executor_version in *. cbn [upgradable_config]. rewrite decide_True by done.
    unfold native_validate_inner. rewrite Hhh, Hpred, Hinst. cbn [mbind result_bind]. rewrite Hvv. done.
  - revert Hvv. unfold validate_without_commit. rewrite Hcv, Hcp. cbn [mbind result_bind].
    destruct (validate_block _ _ _ _ _) as [s|] eqn:Hvb; cbn [mbind result_bind]; [|done]. intros [= <-]. cbn in Hch, Hsub.
    apply validated_state in Hvb as (Htx & [] & _); [|rewrite Forall_forall in Hev |- *; intros e He; apply Hev; by eapply elem_of_sublist].
    rewrite Htx in *. unfold id_of in *. rewrite (Hcid _ _ Hlook) in *. rewrite <- Hch. done.
Qed.

(** Committing either form of a block leads to the same database. *)
Lemma commit_with_permit_ok config finished input self bs res (c : Changes) bc prev :
  (0 < active_import_results self)%nat → Chain (ic_chain_id config) (database self) bs →
  prepared (ic_chain_id config) (database self) bs (ir_sealed_block res) bc → execution_only c →
  last bs = Some prev → block_height (ir_sealed_block res) = block_height prev + 1 → in_range u32 (block_height (ir_sealed_block res)) →
  create_block_changes (ic_chain_id config) (ir_sealed_block res) (database self) = Ok bc →
  (input = Uncommitted (MkUncommittedResult res c) ∨ input = Prepared (MkPrepareImportResult (MkUncommittedResult res c) bc)) →
  ∃ self', commit_with_permit config finished input self = (Ok (), self')
    ∧ database self' = committed (database self) (ir_sealed_block res) bc c.
Proof.
  intros Hperm HC Hpr Hex Hl Hh Hr Hbc Hin. unfold commit_with_permit.
  change (database (finish_results finished self)) with (database self).
  destruct (active_import_results (finish_results finished self)) as [|permits] eqn:Hp; [cbn in Hp; lia|].
  assert (commit_input config input (database self) = Ok (committed (database self) (ir_sealed_block res) bc c, res)) as ->.
  { unfold commit_input. destruct Hin as [-> | ->]; cbn [un_result mbind result_bind]; [rewrite Hbc; cbn [mbind result_bind]|];
      by apply (commit_prepared_ok (ic_chain_id config) _ bs _ _ _ prev). }
  eexists. split; [done|]. by destruct (subscribed _).
Qed.

Lemma next_block_fresh chain_id db bs prev b :
  Chain chain_id db bs → last bs = Some prev → block_height b = block_height prev + 1 → recorded db →
  NoDup (tx_id chain_id <$> transactions (entity b)) →
  Forall (λ id, id ∉ processed_transactions (ledger db)) (tx_id chain_id <$> transactions (entity b)) →
  fresh_block chain_id db bs b.
Proof.
  intros HC Hl Hh Hrec Hnd Hfresh. split; [|split; [done|]].
  - intros (b' & Hb' & Hin)%list_elem_of_fmap. apply list_elem_of_lookup in Hin as [i Hi].
    destruct bs as [|b0 bs']; [done|]. rewrite last_lookup in Hl. pose proof (lookup_lt_Some _ _ _ Hi).
    rewrite (chain_heights _ _ _ _ b0 _ HC eq_refl Hi) in Hb'. rewrite (chain_heights _ _ _ _ b0 _ HC eq_refl Hl) in Hh. lia.
  - intros tx Htx. destruct (transactions_table db !! _) as [tx'|] eqn:E; [|done]. rewrite Forall_forall in Hfresh.
    destruct (Hfresh (tx_id chain_id tx)); [by apply list_elem_of_fmap_2|]. apply Hrec. by rewrite E.
Qed.

Lemma recorded_committed chain_id db bs b bc l :
  prepared chain_id db bs b bc → recorded db →
  processed_transactions l = list_to_set (tx_id chain_id <$> transactions (entity b)) ∪ processed_transactions (ledger db) →
  recorded (committed db b bc (executor_changes l)).
Proof.
  intros Hpr Hrec Hproc id [tx Htx]. cbn [committed transactions_table ledger apply_changes executor_changes ch_transactions ch_ledger
    unwrap_or processed_transactions] in *.
  rewrite Hproc. rewrite apply_no_writes in Htx. apply (pr_txs _ _ _ _ _ Hpr) in Htx as [Hold|[Hin <-]].
  - apply elem_of_union_r, Hrec. by rewrite Hold.
  - apply elem_of_union_l, elem_of_list_to_set. by apply list_elem_of_fmap_2.
Qed.

Lemma produced_block_imported try_send rounds fuel self config im bs h t tx_source res sig finished finished' :
  same_node self config im → Chain (ic_chain_id config) (view_provider self) bs → heights_ok bs →
  Forall (λ b, in_range u64 (da_height (application (header (entity b))))) bs → recorded (view_provider self) →
  in_range u32 h → (∀ prev, last bs = Some prev → time (consensus (header (entity prev))) ≤ t) →
  (∀ c cp, components_to_produce self h t tx_source = Ok c →
     consensus_parameters_versions (vm_tables (ledger (view_provider self)))
       !! consensus_parameters_version (p_application (header_to_produce c)) = Some cp →
     well_sourced cp (header_to_produce c) (transactions_source c)) →
  produce_and_execute try_send rounds fuel self h t tx_source = Some (Ok res) →
  Forall (λ p, counter_overflow p.2 = false) (res_skipped_transactions res) → Forall harmless_failure (res_events res) →
  let b := MkSealedBlock (res_block res) (ConsensusPoA sig) in
  ∃ im1 im2,
    execute_and_commit config finished b im = (Ok (), im1)
    ∧ commit_result config finished'
        (MkUncommittedResult (MkImportResult b (res_tx_status res) (res_events res) SourceLocal) (executor_changes (res_changes res))) im
      = (Ok (), im2)
    ∧ database im1 = database im2 ∧ Chain (ic_chain_id config) (database im1) (bs ++ [b]) ∧ recorded (database im1)
    ∧ ledger (database im1) = (res_changes res) <| fuel_blocks := fuel_blocks (ledger (database im1)) |>.
Proof.
  intros Hsn HC Hok Hda Hrec Hr Ht Hsrc Hrun Hskip Hev b. unfold produce_and_execute in Hrun.
  destruct (components_to_produce self h t tx_source) as [c|] eqn:Hc; [|done]. unfold with_context in Hrun.
  destruct (produce_without_commit_with_source _ _ _ _ _) as [[r|]|] eqn:Hprod; [|done..].
  injection Hrun as ->. destruct (components_next_header _ _ _ _ _ _ _ HC Hda Hc) as (Hhc & Htc & prev & Hnh).
  destruct (produced_spec _ _ _ _ _ _ _ _ _ _ Hsn HC Hnh Hok (λ cp, Hsrc c cp eq_refl) Hprod Hskip Hev)
    as (Hhdr & Happ & Htxs & (v & Hval & Hvc) & Hnd & Hfresh & Hproc). clear Hprod Hsrc.
  pose proof Hnh as [Hl Hhn _ _ _]. destruct Hsn as [Hdb [Hg Hp] _ _ _ _]. set (db := view_provider self) in *.
  rewrite <- Hhdr in Hhc, Htc, Hhn, Hnh. cbn in Hhc, Htc, Hhn. fold (block_height prev) in Hhn.
  change (height (consensus (header (res_block res)))) with (block_height b) in Hhc, Hhn.
  pose proof (next_block_fresh _ _ _ _ b HC Hl Hhn Hrec Hnd Hfresh) as Hfb.
  destruct (create_block_changes_ok (ic_chain_id config) db bs b prev sig) as [bc Hbc]; [done..|by rewrite Hhc|].
  destruct (create_block_changes_spec _ _ bs _ _ HC Hok Hbc) as [Hpr _].
  assert (prepare_import_result config db b = Ok (MkPrepareImportResult (MkUncommittedResult (MkImportResult b (ve_tx_status v) (ve_events v) SourceNetwork)
    (executor_changes (res_changes res))) bc)) as Hprep.
  { unfold prepare_import_result, verify_and_execute_block_inner, verify_block_fields. cbn [seal entity b].
    rewrite (verified_block _ _ _ _ _ HC Hok Hnh); [|by rewrite Htc; apply Ht|done..]. cbn [map_err mbind result_bind].
    rewrite Hval. cbn [map_err mbind result_bind]. rewrite decide_False by (by intros []). cbn [mbind result_bind].
    fold b. rewrite Hbc. cbn [mbind result_bind]. by rewrite Hvc. }
  assert (∀ input res' fin, ir_sealed_block res' = b →
    (input = Uncommitted (MkUncommittedResult res' (executor_changes (res_changes res)))
     ∨ input = Prepared (MkPrepareImportResult (MkUncommittedResult res' (executor_changes (res_changes res))) bc)) →
    ∃ im', commit_with_permit config fin input im = (Ok (), im') ∧ database im' = committed db b bc (executor_changes (res_changes res))) as Hcommit.
  { intros input res' fin <- Hin. rewrite <- Hdb in HC, Hpr, Hbc |- *. apply (commit_with_permit_ok _ _ _ _ bs _ _ _ prev); try done. by rewrite Hhc. }
  destruct (Hcommit (Prepared _) (MkImportResult b (ve_tx_status v) (ve_events v) SourceNetwork) finished eq_refl (or_intror eq_refl)) as (im1 & H1 & D1).
  destruct (Hcommit (Uncommitted _) (MkImportResult b (res_tx_status res) (res_events res) SourceLocal) finished' eq_refl (or_introl eq_refl)) as (im2 & H2 & D2).
  exists im1, im2. unfold execute_and_commit, commit_result. rewrite Hg, Hdb, Hprep. split; [done|]. split; [done|]. rewrite D1, D2. split; [done|].
  split; [|split; [by apply (recorded_committed _ _ _ _ _ _ Hpr)|by destruct (res_changes res)]].
  assert (∀ h0, stage_height db = Some h0 → block_height b = h0 + 1) as Hstage.
  { intros h0. rewrite (cn_stage _ _ _ HC), Hl. by intros [= <-]. }
  by exact (apply_changes_chain _ _ _ _ _ (executor_changes (res_changes res)) _ HC Hpr ltac:(done) Hstage eq_refl).
Qed.

(** C3 From producing to importing: a block that the producer makes on its database
    is accepted by every importer with the same database, both as a block from
    the network, which is verified and executed again, and as the local result
    of the production.  Both lead to the same database, which extends the chain
    by the block and whose tables are what the production computed.  The
    hypotheses: the block time is not below that of the last block; the blocks
    are run by the native executor; the transactions of the source are checked
    as it says and none was skipped because a counter of the block overflowed. *)
Theorem produced_blocks_are_imported try_send rounds fuel self config im bs h t tx_source res sig finished finished' :
  same_node self config im → Chain (ic_chain_id config) (view_provider self) bs → heights_ok bs →
  Forall (λ b, in_range u64 (da_height (application (header (entity b))))) bs → recorded (view_provider self) →
  in_range u32 h → (∀ prev, last bs = Some prev → time (consensus (header (entity prev))) ≤ t) →
  (∀ c cp, components_to_produce self h t tx_source = Ok c →
     consensus_parameters_versions (vm_tables (ledger (view_provider self)))
       !! consensus_parameters_version (p_application (header_to_produce c)) = Some cp →
     well_sourced cp (header_to_produce c) (transactions_source c)) →
  produce_and_execute try_send rounds fuel self h t tx_source = Some (Ok res) →
  Forall (λ p, counter_overflow p.2 = false) (res_skipped_transactions res) → Forall harmless_failure (res_events res) →
  let b := MkSealedBlock (res_block res) (ConsensusPoA sig) in
  ∃ im1 im2,
    execute_and_commit config finished b im = (Ok (), im1)
    ∧ commit_result config finished'
        (MkUncommittedResult (MkImportResult b (res_tx_status res) (res_events res) SourceLocal) (executor_changes (res_changes res))) im
      = (Ok (), im2)
    ∧ database im1 = database im2 ∧ Chain (ic_chain_id config) (database im1) (bs ++ [b]) ∧ recorded (database im1)
    ∧ ledger (database im1) = (res_changes res) <| fuel_blocks := fuel_blocks (ledger (database im1)) |>.
Proof. apply produced_block_imported. Qed.
End production.
