(* ===== verification/NodeSamples.v ===== *)
(** * A node on a concrete chain

    The machine, the database and the relayer of [ExecutorSamples.v] in a node:
    an importer whose database starts with a genesis block at height 4, and a
    producer that makes the block at height 5.  The theorems about the importer
    and the producer are applied to it. *)
From stdpp Require Import strings.
From S2P Require Import Prelude FuelTypes BlockTypes ExecutorTypes Executor ExecutorFrame ExecutorRoundtrip ExecutorAccounting ExecutorSamples MerklizedTable Importer ImporterFacts UpgradableExecutor Producer ProducerFacts.

#[local] Existing Instance sample_hashing.
#[local] Existing Instance sample_vm.
#[local] Existing Instance sample_vm_laws.
#[local] Existing Instance MemoryStore_view.

(** A runtime without any uploaded bytecode. *)
Definition sample_wasm : WasmRuntime := {|
  Module := unit;
  get_module := λ _ _, Err (Other "no bytecode");
  run_produce := λ _ _ _ _ _ _, Some (Err (Other "no bytecode"));
  run_validate := λ _ _ _, Err (Other "no bytecode")
|}.
#[local] Existing Instance sample_wasm.

Definition sample_genesis : SealedBlock := MkSealedBlock (MkBlock sample_prev_header []) (ConsensusGenesis (MkGenesis 0 0 0 0 0)).
Definition sample_empty : OnChain := MkOnChain (sample_db <| fuel_blocks := (∅ : gmap BlockHeight (Block TxId)) |>) ∅ ∅ ∅ ∅ None None.
Definition sample_upgradable : UpgradableConfig := MkUpgradableConfig true (Some 1) false.
Definition sample_config : ImporterConfig :=
  MkImporterConfig 9 (MkVerifierConfig (ConfigPoA 0) 4 7) (executor_validate sample_relayer sample_upgradable Native).
Definition sample_genesis_result : UncommittedResult :=
  MkUncommittedResult (MkImportResult sample_genesis [] [] SourceLocal) Changes_new.

Definition sample_onchain : OnChain :=
  match commit_input sample_config (Uncommitted sample_genesis_result) sample_empty with Ok (db, _) => db | Err _ => sample_empty end.
Definition sample_importer : Importer := MkImporter sample_onchain true 1 0 true [].
Definition sample_producer : Producer :=
  MkProducer (Some 77) (MkUpgradableExecutor sample_onchain sample_relayer sample_upgradable Native) (Some 8) true
    (Ok 3) (Ok 3) (λ _, Ok (MkConsensusParameters 9 1000 100000 0 [])).
Definition sample_source : list MaybeCheckedTransaction := transactions_source sample_components.
Definition sample_production : option (result ProducerError ExecutionResult) :=
  Eval vm_compute in produce_and_execute (λ _, []) 0 5 sample_producer 5 2000 (λ _ _, Ok sample_source).
Definition sample_sealed : SealedBlock :=
  Eval vm_compute in
    match sample_production with
    | Some (Ok res) => MkSealedBlock (res_block res) (ConsensusPoA [1])
    | _ => sample_genesis
    end.

Lemma sample_empty_chain : Chain 9 sample_empty [].
Proof.
  split; cbn; try done.
  - apply Log_empty.
  - intros h c. rewrite lookup_empty. set_solver.
  - constructor.
  - intros id tx. rewrite lookup_empty. set_solver.
Qed.

Lemma sample_genesis_accepted : is_ok (commit_input sample_config (Uncommitted sample_genesis_result) sample_empty) = true.
Proof. vm_compute. reflexivity. Qed.

Lemma sample_chain : Chain 9 sample_onchain [sample_genesis].
Proof.
  pose proof sample_genesis_accepted as Hok. unfold sample_onchain.
  destruct (commit_input sample_config (Uncommitted sample_genesis_result) sample_empty) as [[db r]|] eqn:Hc; [|discriminate Hok].
  assert (input_ok sample_config (Uncommitted sample_genesis_result) sample_genesis sample_empty) as Hin by (repeat split).
  exact (proj1 (proj2 (commit_input_spec sample_config sample_empty [] _ _ _ _ sample_empty_chain (Forall_nil_2 _) Hin Hc))).
Qed.

Lemma sample_validator_ok : validator_ok sample_config.
Proof.
  intros db block r. cbn [ic_validate sample_config]. unfold executor_validate.
  destruct (validate _ _) as [v|]; cbn [mbind result_bind]; [|done]. intros [= <-]. repeat split.
Qed.

Definition sample_ops : list ImportOp :=
  [CommitResult 0 sample_genesis_result; Subscribe; ExecuteAndCommit 0 sample_sealed; ExecuteAndCommit 1 sample_sealed].

Lemma importer_keeps_chain_witness :
  let im := foldl (import_step sample_config) (Importer_new 1 sample_empty) sample_ops in
  (∃ bs, Imported sample_config 1 im bs) ∧ stage_height (database im) = Some 5 ∧ length (announced im) = 1%nat.
Proof.
  split; [|split; vm_compute; reflexivity].
  apply (importer_keeps_chain sample_config 1 sample_empty sample_ops sample_validator_ok sample_empty_chain).
  repeat constructor; vm_compute; discriminate.
Defined.

Lemma import_effect_witness :
  import_done sample_config sample_onchain [sample_genesis] sample_sealed
    (database (execute_and_commit sample_config 0 sample_sealed sample_importer).2).
Proof.
  assert (is_ok (execute_and_commit sample_config 0 sample_sealed sample_importer).1 = true) as Hok by (vm_compute; reflexivity).
  destruct (execute_and_commit sample_config 0 sample_sealed sample_importer) as [r im] eqn:E.
  assert (heights_ok [sample_genesis]) as Hh by (repeat constructor; vm_compute; discriminate).
  pose proof (import_effect sample_config 0 sample_sealed sample_importer [sample_genesis] r im sample_validator_ok
    sample_chain Hh E) as Heff.
  cbn [fst] in Hok. rewrite Hok in Heff. exact Heff.
Defined.

Lemma da_height_is_maximal_witness :
  ∃ ess, Forall2 (λ h es, get_events sample_relayer h = Ok es) (seqZ 8 1) ess ∧ fits 1000 65534 (concat ess).
Proof.
  destruct (da_height_is_maximal sample_producer 1000 7 65534 8) as (_ & _ & ess & Hess & Hfit & _).
  - intros h es. cbn. case_decide; intros [= <-]; repeat constructor; cbn; lia.
  - vm_compute; split; [discriminate|reflexivity].
  - vm_compute; split; [discriminate|reflexivity].
  - vm_compute; split; discriminate.
  - vm_compute; split; discriminate.
  - vm_compute. reflexivity.
  - exists ess. split; [exact Hess|exact Hfit].
Defined.

Lemma sample_same_node : same_node sample_producer sample_config sample_importer.
Proof.
  split; try reflexivity.
  - split; [reflexivity|cbn; lia].
  - intros v cp. assert (consensus_parameters_versions (vm_tables (ledger (view_provider sample_producer))) = {[ 1 := sample_params ]}) as ->
      by (vm_compute; reflexivity).
    intros [<- <-]%lookup_singleton_Some. reflexivity.
Qed.

Lemma produced_blocks_are_imported_witness :
  ∃ im1, execute_and_commit sample_config 0 sample_sealed sample_importer = (Ok (), im1)
    ∧ Chain 9 (database im1) [sample_genesis; sample_sealed].
Proof.
  destruct sample_production as [[res|]|] eqn:E; [|discriminate E|discriminate E].
  destruct (produced_blocks_are_imported (λ _, []) 0 5 sample_producer sample_config sample_importer [sample_genesis] 5 2000
    (λ _ _, Ok sample_source) res [1] 0 0) as (im1 & im2 & H1 & _ & _ & HC & _).
  - exact sample_same_node.
  - exact sample_chain.
  - repeat constructor; vm_compute; discriminate.
  - repeat constructor; vm_compute; discriminate.
  - intros id. assert (transactions_table (view_provider sample_producer) = ∅) as -> by (vm_compute; reflexivity).
    rewrite lookup_empty. intros [? [=]].
  - vm_compute; split; discriminate.
  - intros prev [= <-]. vm_compute. discriminate.
  - intros c cp _ _. exists (λ _, True). split; [exact I|]. intros ts g n z _. split; [|exact I]. cbn. apply Forall_forall.
    intros [|] _; done.
  - rewrite <- E. vm_compute. reflexivity.
  - injection E as <-. repeat constructor.
  - injection E as <-. repeat constructor.
  - injection E as <-. exists im1. split; [exact H1|exact HC].
Defined.
