(* ===== verification/Sync.v ===== *)
(** * Block synchronisation

    [crates/services/sync/src/{state,sync,import}.rs] and [import/cache.rs]: the
    state that heights of the network and committed heights lead to, the cache
    of headers and blocks, and the task that fetches the blocks of a range from
    peers, checks them and has them executed.

    The network is a record of answers: every batch of a range makes at most one
    request for headers and one for transactions, and the first argument is the
    number of the batch, so that the answers can differ from one request to the
    next.  Batches are fetched concurrently and delivered in order; what they
    write to the cache is a list of operations.  The importer and the heights
    that arrive while it works are the class [SyncPorts]. *)
From stdpp Require Import strings.
From S2P Require Import Prelude FuelTypes BlockTypes ExecutorTypes MerklizedTable Importer.

(** [Range<u32>] and [RangeInclusive<u32>] *)
Record Range := MkRange { r_start : Z; r_end : Z }.
Definition r_len (r : Range) : Z := Z.max 0 (r_end r - r_start r).
Definition r_is_empty (r : Range) : bool := bool_decide (r_end r ≤ r_start r).
Record RangeInclusive := MkRangeInclusive { ri_start : Z; ri_end : Z }.
Definition ri_is_empty (r : RangeInclusive) : bool := bool_decide (ri_end r < ri_start r).
Definition ri_contains (r : RangeInclusive) (h : Z) : bool := bool_decide (ri_start r ≤ h ≤ ri_end r).
Definition ri_len (r : RangeInclusive) : Z := Z.max 0 (ri_end r - ri_start r + 1).
(** [(a..b).step_by(step)] *)
Definition step_by (a b step : Z) : list Z := (λ i, a + i * step) <$> seqZ 0 (div_ceil (b - a) step).

(** ** The state of the service *)
Inductive Status := Uninitialized | Processing (range : RangeInclusive) | Committed (height : Z).

#[export] Instance ri_eq_dec : EqDecision RangeInclusive.
Proof. solve_decision. Defined.
#[export] Instance status_eq_dec : EqDecision Status.
Proof. solve_decision. Defined.

Definition State_new (committed observed : option Z) : Status :=
  match committed, observed with
  | Some committed, Some observed =>
      match checked_add u32 committed 1 with
      | None => Committed committed
      | Some next =>
          let range := MkRangeInclusive next observed in
          if ri_is_empty range then Committed committed else Processing range
      end
  | Some committed, None => Committed committed
  | None, Some observed => Processing (MkRangeInclusive 0 observed)
  | None, None => Uninitialized
  end.
Definition process_range (self : Status) : option RangeInclusive :=
  match self with Processing range => Some range | _ => None end.
Definition apply_status (self : Status) (status : option Status) : Status := unwrap_or self status.

Definition commit (height : Z) (self : Status) : Status :=
  apply_status self
    match self with
    | Processing range =>
        if decide (height < ri_start range) then None
        else if decide (height < ri_end range)
        then Some (Processing (MkRangeInclusive (saturating_add u32 height 1) (ri_end range)))
        else Some (Committed height)
    | Uninitialized => Some (Committed height)
    | Committed existing => if decide (height ≤ existing) then None else Some (Committed height)
    end.
(** With the answer whether the status changed *)
Definition observe (height : Z) (self : Status) : Status * bool :=
  let new_status :=
    match self with
    | Uninitialized => Some (Processing (MkRangeInclusive 0 height))
    | Processing range =>
        if decide (ri_end range < height) then Some (Processing (MkRangeInclusive (ri_start range) height)) else None
    | Committed committed =>
        next ← checked_add u32 committed 1;
        let r := MkRangeInclusive next height in
        if ri_is_empty r then None else Some (Processing r)
    end in
  (apply_status self new_status, match new_status with Some _ => true | None => false end).

(** [then_some] and [or_else] of the standard library *)
Definition then_some {A} (b : bool) (a : A) : option A := if b then Some a else None.
Definition or_else {A} (a b : option A) : option A := match a with Some _ => a | None => b end.
Definition before (height : Z) : Status :=
  match checked_sub u32 height 1 with Some prev => Committed prev | None => Uninitialized end.
Definition failed_to_process (range : RangeInclusive) (self : Status) : Status :=
  apply_status self
    (if ri_is_empty range then None
     else
       match self with
       | Uninitialized | Committed _ => None
       | Processing processing =>
           or_else (then_some (ri_contains range (ri_start processing)) (before (ri_start processing)))
             (or_else
                (then_some (ri_contains range (ri_end processing) || ri_contains processing (ri_start range))
                   match checked_sub u32 (ri_start range) 1 with
                   | Some prev => Processing (MkRangeInclusive (ri_start processing) prev)
                   | None => Uninitialized
                   end)
                (then_some (ri_contains processing (ri_end range)) (before (ri_start processing))))
       end).

(** ** Batches and the cache *)
Abbreviation PeerId := Z (only parsing).
Record SealedBlockHeader := MkSealedBlockHeader { sh_entity : BlockHeader; sh_consensus : Consensus }.
Definition sealed_height (h : SealedBlockHeader) : BlockHeight := height (consensus (sh_entity h)).
Definition sealed_header (b : SealedBlock) : SealedBlockHeader := MkSealedBlockHeader (header (entity b)) (seal b).

Record Batch (T : Type) := MkBatch { peer : option PeerId; range : Range; results : list T }.
Arguments MkBatch {T}.
Arguments peer {T}.
Arguments range {T}.
Arguments results {T}.
Definition is_err {T} (self : Batch T) : bool := bool_decide (Z.of_nat (length (results self)) < r_len (range self)).

Inductive CachedData := DataHeader (header : SealedBlockHeader) | DataBlock (block : SealedBlock).
Inductive CachedDataBatch :=
| CachedHeaders (batch : Batch SealedBlockHeader)
| CachedBlocks (batch : Batch SealedBlock)
| CachedNone (range : Range).
Definition chunk_range (self : CachedDataBatch) : Range :=
  match self with CachedHeaders batch => range batch | CachedBlocks batch => range batch | CachedNone range => range end.
Definition is_range_empty (self : CachedDataBatch) : bool := r_is_empty (chunk_range self).

Abbreviation Cache := (gmap Z CachedData) (only parsing).
Definition insert_blocks (batch : Batch SealedBlock) (self : Cache) : Cache :=
  foldl (λ lock block, <[sealed_height (sealed_header block) := DataBlock block]> lock) self (results batch).
Definition insert_headers (batch : Batch SealedBlockHeader) (self : Cache) : Cache :=
  foldl (λ lock header, <[sealed_height header := DataHeader header]> lock) self (results batch).
Definition remove_element (height : Z) (self : Cache) : Cache := delete height self.
(** The entries of the range in the order of heights; [BTreeMap::range] panics on
    an empty range. *)
Definition collect_cache_data (self : Cache) (range : RangeInclusive) : option (list (Z * CachedData)) :=
  if ri_is_empty range then None
  else Some (omap (λ h, (λ d, (h, d)) <$> self !! h) (seqZ (ri_start range) (ri_len range))).

Definition one_block (height : Z) : Range := MkRange height (saturating_add u32 height 1).
(** A chunk that goes on with one more item, or is pushed when it is full *)
Definition grow {T} (wrap : Batch T → CachedDataBatch) (batch : Batch T) (data : T) (height : Z) (chunks : list CachedDataBatch)
    (max_chunk_size : Z) : CachedDataBatch * list CachedDataBatch :=
  if decide (r_len (range batch) = max_chunk_size)
  then (wrap (MkBatch None (one_block height) [data]), chunks ++ [wrap batch])
  else (wrap (MkBatch (peer batch) (MkRange (r_start (range batch)) (saturating_add u32 (r_end (range batch)) 1)) (results batch ++ [data])),
        chunks).
Definition handle_current_chunk (current_chunk : CachedDataBatch) (data : CachedData) (height : Z) (chunks : list CachedDataBatch)
    (max_chunk_size : Z) : CachedDataBatch * list CachedDataBatch :=
  match current_chunk, data with
  | CachedNone _, DataHeader data => (CachedHeaders (MkBatch None (one_block height) [data]), chunks)
  | CachedNone _, DataBlock data => (CachedBlocks (MkBatch None (one_block height) [data]), chunks)
  | CachedHeaders batch, DataHeader data => grow CachedHeaders batch data height chunks max_chunk_size
  | CachedBlocks batch, DataBlock data => grow CachedBlocks batch data height chunks max_chunk_size
  | CachedHeaders batch, DataBlock block =>
      (CachedBlocks (MkBatch None (one_block height) [block]), chunks ++ [CachedHeaders batch])
  | CachedBlocks batch, DataHeader header =>
      (CachedHeaders (MkBatch None (one_block height) [header]), chunks ++ [CachedBlocks batch])
  end.
Definition push_missing_chunks (chunks : list CachedDataBatch) (current_height height max_chunk_size end_ : Z) : list CachedDataBatch :=
  chunks ++ ((λ chunk_start, CachedNone (MkRange chunk_start (Z.min (saturating_add u32 chunk_start max_chunk_size) end_)))
               <$> step_by current_height height max_chunk_size).

Definition push_chunk (current_chunk : CachedDataBatch) (chunks : list CachedDataBatch) : list CachedDataBatch :=
  if is_range_empty current_chunk then chunks else chunks ++ [current_chunk].
(** One turn of the loop of [get_chunks]: the next height, the chunks that are
    complete and the one that is growing *)
Definition chunk_step (max_chunk_size end_ : Z) (s : Z * list CachedDataBatch * CachedDataBatch) (entry : Z * CachedData)
    : Z * list CachedDataBatch * CachedDataBatch :=
  let '(current_height, chunks, current_chunk) := s in
  let '(height, data) := entry in
  let '(chunks, current_chunk) :=
    if decide (height ≠ current_height)
    then (push_missing_chunks (push_chunk current_chunk chunks) current_height height max_chunk_size end_, CachedNone (MkRange 0 0))
    else (chunks, current_chunk) in
  let '(current_chunk, chunks) := handle_current_chunk current_chunk data height chunks max_chunk_size in
  (saturating_add u32 height 1, chunks, current_chunk).
Definition get_chunks (self : Cache) (range : RangeInclusive) (max_chunk_size : Z) : option (list CachedDataBatch) :=
  let end_ := saturating_add u32 (ri_end range) 1 in
  cache_iter ← collect_cache_data self range;
  let '(current_height, chunks, current_chunk) :=
    foldl (chunk_step max_chunk_size end_) (ri_start range, [], CachedNone (MkRange 0 0)) cache_iter in
  Some (push_missing_chunks (push_chunk current_chunk chunks) current_height end_ max_chunk_size end_).

(** ** Fetching *)
Inductive PeerReportReason :=
| SuccessfulBlockImport
| MissingBlockHeaders
| BadBlockHeader
| MissingTransactions
| InvalidTransactions.
Definition Reports : Type := list (PeerId * PeerReportReason).
Definition report_peer (peer_id : option PeerId) (reason : PeerReportReason) : Reports :=
  match peer_id with Some peer_id => [(peer_id, reason)] | None => [] end.
Record SourcePeer (T : Type) := MkSourcePeer { peer_id : PeerId; data : T }.
Arguments MkSourcePeer {T}.
Arguments peer_id {T}.
Arguments data {T}.

(** The ports [PeerToPeerPort] and [ConsensusPort] *)
Record SyncNetwork := MkSyncNetwork {
  get_sealed_block_headers : nat → Range → result string (SourcePeer (option (list SealedBlockHeader)));
  net_get_transactions : nat → Range → result string (SourcePeer (option (list (list Transaction))));
  get_transactions_from_peer : nat → SourcePeer Range → result string (option (list (list Transaction)));
  net_check_sealed_header : SealedBlockHeader → result string bool
}.

(** What the tasks do to the cache *)
Inductive CacheOp :=
| InsertHeaders (batch : Batch SealedBlockHeader)
| InsertBlocks (batch : Batch SealedBlock)
| RemoveElement (height : Z).
Definition apply_op (self : Cache) (op : CacheOp) : Cache :=
  match op with
  | InsertHeaders batch => insert_headers batch self
  | InsertBlocks batch => insert_blocks batch self
  | RemoveElement height => remove_element height self
  end.

Section fetch.
Context `{HH : Hashing} `{VM : FuelVm}.
Context (net : SyncNetwork) (number : nat).

Fixpoint take_expected (headers : list SealedBlockHeader) (heights : list Z) : list SealedBlockHeader :=
  match headers, heights with
  | header :: headers, expected_height :: heights =>
      if decide (sealed_height header = expected_height) then header :: take_expected headers heights else []
  | _, _ => []
  end.
Definition get_headers_batch (range : Range) : Batch SealedBlockHeader * Reports :=
  match get_sealed_block_headers net number range with
  | Err _ => (MkBatch None range [], [])
  | Ok sourced_headers =>
      let headers := take_expected (unwrap_or [] (data sourced_headers)) (seqZ (r_start range) (r_len range)) in
      (MkBatch (Some (peer_id sourced_headers)) range headers,
       if decide (Z.of_nat (length headers) ≠ r_len range) then report_peer (Some (peer_id sourced_headers)) MissingBlockHeaders else [])
  end.

Definition check_sealed_header (header : SealedBlockHeader) (peer_id : option PeerId) : bool * Reports :=
  let validity := match net_check_sealed_header net header with Ok validity => validity | Err _ => false end in
  (validity, if validity then [] else report_peer peer_id BadBlockHeader).
Fixpoint take_checked (headers : list SealedBlockHeader) (peer : option PeerId) : list SealedBlockHeader * Reports :=
  match headers with
  | [] => ([], [])
  | header :: headers =>
      match check_sealed_header header peer with
      | (true, _) => let '(checked_headers, reports) := take_checked headers peer in (header :: checked_headers, reports)
      | (false, reports) => ([], reports)
      end
  end.

Definition get_transactions (range : Range) (peer : option PeerId) : option (SourcePeer (list (list Transaction))) * Reports :=
  match peer with
  | Some peer_id =>
      match get_transactions_from_peer net number (MkSourcePeer peer_id range) with
      | Ok (Some txs) => (Some (MkSourcePeer peer_id txs), [])
      | _ => (None, report_peer (Some peer_id) MissingTransactions)
      end
  | None =>
      match net_get_transactions net number range with
      | Err _ => (None, [])
      | Ok sourced =>
          match data sourced with
          | Some txs => (Some (MkSourcePeer (peer_id sourced) txs), [])
          | None => (None, report_peer (Some (peer_id sourced)) MissingTransactions)
          end
      end
  end.
(** The blocks of the headers and transactions, up to the first that do not fit *)
Fixpoint zip_blocks (headers : list SealedBlockHeader) (transactions : list (list Transaction)) (peer_id : PeerId)
    : list SealedBlock * Reports :=
  match headers, transactions with
  | header :: headers, txs :: transactions =>
      match try_from_executed (sh_entity header) txs with
      | Some block =>
          let '(blocks, reports) := zip_blocks headers transactions peer_id in
          (MkSealedBlock block (sh_consensus header) :: blocks, reports)
      | None => ([], report_peer (Some peer_id) InvalidTransactions)
      end
  | _, _ => ([], [])
  end.
Definition get_blocks (headers : Batch SealedBlockHeader) : Batch SealedBlock * Reports :=
  match get_transactions (range headers) (peer headers) with
  | (None, reports) => (MkBatch (peer headers) (range headers) [], reports)
  | (Some sourced, reports) =>
      let '(blocks, reports') := zip_blocks (results headers) (data sourced) (peer_id sourced) in
      (MkBatch (Some (peer_id sourced)) (range headers) blocks, reports ++ reports')
  end.

(** The stages of [get_block_stream] for one chunk, with what they write to the
    cache.  The wait for the DA height only takes time. *)
Definition fetch_headers (range : Range) : Batch SealedBlockHeader * Reports * list CacheOp :=
  let '(fetched_batch, reports) := get_headers_batch range in
  let '(checked_headers, reports') := take_checked (results fetched_batch) (peer fetched_batch) in
  let batch := MkBatch (peer fetched_batch) range checked_headers in
  (batch, reports ++ reports', if is_err batch then [] else [InsertHeaders batch]).
Definition fetch_blocks (headers : Batch SealedBlockHeader) : Batch SealedBlock * Reports * list CacheOp :=
  if decide (results headers = []) then (MkBatch (peer headers) (range headers) [], [], [])
  else
    let '(batch, reports) := get_blocks headers in
    (batch, reports, if is_err batch then [] else [InsertBlocks batch]).
Definition get_block_batch (chunk : CachedDataBatch) : Batch SealedBlock * Reports * list CacheOp :=
  match chunk with
  | CachedBlocks batch => (batch, [], [])
  | CachedHeaders batch => fetch_blocks batch
  | CachedNone range =>
      let '(headers, reports, ops) := fetch_headers range in
      let '(batch, reports', ops') := fetch_blocks headers in
      (batch, reports ++ reports', ops ++ ops')
  end.
End fetch.

(** ** Importing *)
Inductive IncomingHeight := ObservedHeight (height : BlockHeight) | CommittedHeight (height : BlockHeight).

(** [arrivals] are the heights that arrived since the last time; an execution is
    [None] when the service is stopped before its end. *)
Class SyncPorts (N : Type) := {
  arrivals : N → list IncomingHeight * N;
  port_execute_and_commit : SealedBlock → N → option (result string unit) * N
}.

(** The state that the tasks share, the permit of their [Notify], and the node *)
Record SyncService (N : Type) := MkSyncService { status : Status; notified : bool; node : N }.
Arguments MkSyncService {N}.
Arguments status {N}.
Arguments notified {N}.
Arguments node {N}.
Record SyncConfig := MkSyncConfig { block_stream_buffer_size : Z; header_batch_size : Z }.

Section import.
Context `{HH : Hashing} `{VM : FuelVm} {N : Type} `{P : !SyncPorts N}.

(** [SyncHeights::sync] *)
Definition sync_height (self : SyncService N) (incoming : IncomingHeight) : SyncService N :=
  match incoming with
  | CommittedHeight height => MkSyncService (commit height (status self)) (notified self) (node self)
  | ObservedHeight height =>
      let '(status, state_change) := observe height (status self) in
      MkSyncService status (notified self || state_change) (node self)
  end.
(** The heights that arrive while the import waits *)
Definition let_heights_arrive (self : SyncService N) : SyncService N :=
  let '(heights, n) := arrivals (node self) in
  foldl sync_height (MkSyncService (status self) (notified self) n) heights.

(** [execute_and_commit]; heights arrive while it runs. *)
Definition sync_execute_and_commit (block : SealedBlock) (self : SyncService N) : option (result string unit) * SyncService N :=
  let '(r, n) := port_execute_and_commit block (node self) in
  let self := let_heights_arrive (MkSyncService (status self) (notified self) n) in
  match r with
  | Some (Ok _) => (r, MkSyncService (commit (sealed_height (sealed_header block)) (status self)) (notified self) (node self))
  | _ => (r, self)
  end.
(** The blocks of a batch: how many are done, and what is removed from the cache *)
Fixpoint execute_blocks (blocks : list SealedBlock) (self : SyncService N) : nat * list CacheOp * SyncService N :=
  match blocks with
  | [] => (O, [], self)
  | sealed_block :: blocks =>
      let height := sealed_height (sealed_header sealed_block) in
      match sync_execute_and_commit sealed_block self with
      | (None, self) => (O, [], self)
      | (Some (Ok _), self) =>
          let '(done_, ops, self) := execute_blocks blocks self in (S done_, RemoveElement height :: ops, self)
      | (Some (Err _), self) => (O, [RemoveElement height], self)
      end
  end.
(** The stream of batches up to and with the first that is incomplete *)
Fixpoint scan_err {T} (batches : list (Batch T)) : list (Batch T) :=
  match batches with
  | [] => []
  | batch :: batches => batch :: if is_err batch then [] else scan_err batches
  end.
Fixpoint execute_batches (batches : list (Batch SealedBlock)) (self : SyncService N) : nat * Reports * list CacheOp * SyncService N :=
  match batches with
  | [] => (O, [], [], self)
  | batch :: batches =>
      let '(done_, ops, self) := execute_blocks (results batch) self in
      if decide (Z.of_nat done_ < r_len (range batch)) then (done_, [], ops, self)
      else
        let '(count, reports, ops', self) := execute_batches batches self in
        ((done_ + count)%nat, report_peer (peer batch) SuccessfulBlockImport ++ reports, ops ++ ops', self)
  end.

(** [launch_stream].  [started] is the number of batches whose fetch is started,
    and [delivered] the number that is delivered before a shutdown.  A panic of [get_chunks] ends the task that fetches, and
    nothing is delivered.  [expect] of the batch size is [None]. *)
Definition launch_stream (params : SyncConfig) (net : SyncNetwork) (started delivered : nat) (range : RangeInclusive) (cache : Cache)
    (self : SyncService N) : option (nat * Reports * list CacheOp * SyncService N) :=
  batch_size ← try_into u32 (header_batch_size params);
  if decide (batch_size = 0) then None
  else
    let chunks := unwrap_or [] (get_chunks cache range batch_size) in
    let fetched := take started (imap (get_block_batch net) chunks) in
    let batches := scan_err ((λ f, f.1.1) <$> fetched) in
    let '(count, reports, ops, self) :=
      execute_batches (take delivered batches) self in
    Some (count, mjoin ((λ f, f.1.2) <$> fetched) ++ reports, mjoin ((λ f, f.2) <$> fetched) ++ ops, let_heights_arrive self).

(** The error names the heights that are not imported. *)
Definition import_inner (params : SyncConfig) (net : SyncNetwork) (started delivered : nat) (cache : Cache) (self : SyncService N)
    : option (result RangeInclusive unit * Reports * list CacheOp * SyncService N) :=
  match process_range (status self) with
  | None => Some (Ok (), [], [], self)
  | Some range =>
      '(count, reports, ops, self) ← launch_stream params net started delivered range cache self;
      if decide (Z.of_nat count < ri_len range) then
        count ← try_into u32 (Z.of_nat count);
        let incomplete_range := MkRangeInclusive (saturating_add u32 (ri_start range) count) (ri_end range) in
        Some (Err incomplete_range, reports, ops,
              MkSyncService (failed_to_process incomplete_range (status self)) (notified self) (node self))
      else Some (Ok (), reports, ops, self)
  end.
End import.
