(* ===== verification/SyncFacts.v ===== *)
(** * Block synchronisation: theorems

    The state of the service as two numbers, the chunks of a range, what is
    checked before a block is executed, and the import of a range from peers
    that answer as they should. *)
From stdpp Require Import strings.
From S2P Require Import Prelude FuelTypes BlockTypes ExecutorTypes MerklizedTable Importer Sync.

(** ** The state *)
(** The first height that is not committed, and the height to process up to *)
Record SyncGoal := MkGoal { next_needed : Z; target : option Z }.
Definition goal (self : Status) : SyncGoal :=
  match self with
  | Uninitialized => MkGoal 0 None
  | Processing range => MkGoal (ri_start range) (Some (ri_end range))
  | Committed height => MkGoal (height + 1) None
  end.
Definition goal_commit (height : Z) (g : SyncGoal) : SyncGoal :=
  MkGoal (Z.max (next_needed g) (height + 1)) (t ← target g; if decide (height < t) then Some t else None).
Definition goal_observe (height : Z) (g : SyncGoal) : SyncGoal :=
  if decide (next_needed g ≤ height) then MkGoal (next_needed g) (Some (Z.max height (unwrap_or height (target g)))) else g.
Definition goal_failed (range : RangeInclusive) (g : SyncGoal) : SyncGoal :=
  match target g with
  | None => g
  | Some t =>
      if ri_is_empty range then g
      else if ri_contains range (next_needed g) then MkGoal (next_needed g) None
      else if decide (next_needed g < ri_start range ≤ t) then MkGoal (next_needed g) (Some (ri_start range - 1))
      else g
  end.

Definition status_ok (self : Status) : Prop :=
  match self with
  | Uninitialized => True
  | Processing range => in_range u32 (ri_start range) ∧ in_range u32 (ri_end range) ∧ ri_start range ≤ ri_end range
  | Committed height => in_range u32 height
  end.

Inductive StateEvent := CommitEvent (height : Z) | ObserveEvent (height : Z) | FailedEvent (range : RangeInclusive).
Definition event_ok (e : StateEvent) : Prop :=
  match e with
  | CommitEvent height | ObserveEvent height => in_range u32 height
  | FailedEvent range => in_range u32 (ri_start range) ∧ in_range u32 (ri_end range)
  end.
Definition state_step (self : Status) (e : StateEvent) : Status :=
  match e with
  | CommitEvent height => commit height self
  | ObserveEvent height => (observe height self).1
  | FailedEvent range => failed_to_process range self
  end.
Definition goal_step (g : SyncGoal) (e : StateEvent) : SyncGoal :=
  match e with
  | CommitEvent height => goal_commit height g
  | ObserveEvent height => goal_observe height g
  | FailedEvent range => goal_failed range g
  end.

Ltac status_cases :=
  repeat first
    [ case_decide | case_bool_decide
    | match goal with |- context [fit ?t ?x] => let H := fresh in destruct (fit t x) eqn:H; [apply fit_Some in H as [? H]; subst|apply fit_None in H] end
    | progress cbn [orb andb unwrap_or mbind option_bind next_needed target status_ok goal ri_start ri_end fst snd] in * ];
  unfold in_range in *; int_bounds; cbn [int_min int_max] in *; change (2 ^ 32 - 1) with 4294967295 in *;
  split_and?; first [done | lia | intros; (done || lia) | f_equal; first [done | lia | intros; (done || lia) | f_equal; lia] | exfalso; lia].
Lemma commit_goal height self :
  status_ok self → in_range u32 height → status_ok (commit height self) ∧ goal (commit height self) = goal_commit height (goal self).
Proof.
  unfold commit, apply_status, goal_commit, saturating_add, clamp. intros Hok Hh. destruct self as [|[a b]|c]; cbn in Hok |- *; status_cases.
Qed.
Lemma observe_goal height self :
  status_ok self → in_range u32 height →
  status_ok (observe height self).1 ∧ goal (observe height self).1 = goal_observe height (goal self)
  ∧ ((observe height self).2 = false → (observe height self).1 = self).
Proof.
  unfold observe, apply_status, goal_observe, checked_add, ri_is_empty. intros Hok Hh. destruct self as [|[a b]|c]; cbn in Hok |- *; status_cases.
Qed.
Lemma failed_goal range self :
  status_ok self → in_range u32 (ri_start range) → in_range u32 (ri_end range) →
  status_ok (failed_to_process range self) ∧ goal (failed_to_process range self) = goal_failed range (goal self).
Proof.
  intros Hok Ha Hb. unfold failed_to_process, goal_failed. destruct (ri_is_empty range) eqn:He; [by destruct self|].
  unfold ri_is_empty in He. apply bool_decide_eq_false in He. destruct self as [|[a b]|c]; [done| |done]. destruct range as [c d].
  cbn [goal target next_needed ri_start ri_end status_ok] in *. destruct Hok as (Ha' & Hb' & Hab).
  unfold ri_contains. cbn [ri_start ri_end]. destruct (bool_decide (c ≤ a ≤ d)) eqn:H1.
  { cbn. unfold before, checked_sub. apply bool_decide_eq_true in H1. destruct (fit u32 (a - 1)) as [y|] eqn:Hf.
    - apply fit_Some in Hf as [<- Hf]. cbn. split; [done|]. f_equal. lia.
    - apply fit_None in Hf. cbn. split; [done|]. f_equal. revert Hf Ha'. int_unfold. lia. }
  apply bool_decide_eq_false in H1. destruct (decide (a < c ≤ b)) as [H2|H2].
  - replace (bool_decide (c ≤ b ≤ d) || bool_decide (a ≤ c ≤ b)) with true
      by (symmetry; apply orb_true_iff; right; apply bool_decide_eq_true; lia).
    cbn. unfold checked_sub. rewrite fit_ok by (revert Ha Ha'; int_unfold; lia). cbn. split; [|done].
    split_and!; [done| |lia]. revert Ha Ha'. int_unfold. lia.
  - replace (bool_decide (c ≤ b ≤ d)) with false by (symmetry; apply bool_decide_eq_false; lia).
    replace (bool_decide (a ≤ c ≤ b)) with false by (symmetry; apply bool_decide_eq_false; lia).
    replace (bool_decide (a ≤ d ≤ b)) with false by (symmetry; apply bool_decide_eq_false; lia). done.
Qed.

Definition committed_heights (events : list StateEvent) : list Z :=
  omap (λ e, match e with CommitEvent height => Some height | _ => None end) events.

Lemma state_step_goal self e :
  status_ok self → event_ok e → status_ok (state_step self e) ∧ goal (state_step self e) = goal_step (goal self) e.
Proof.
  intros Hok He. destruct e as [h|h|r]; cbn in *; [by apply commit_goal| |by apply failed_goal; destruct He].
  by destruct (observe_goal h self) as (? & ? & _).
Qed.
Lemma goal_step_next g e :
  next_needed (goal_step g e) = foldl (λ n h, Z.max n (h + 1)) (next_needed g) (committed_heights [e]).
Proof.
  destruct e as [h|h|r]; cbn; [done|unfold goal_observe; by case_decide|].
  unfold goal_failed. destruct (target g); [|done]. destruct (ri_is_empty r); [done|]. destruct (ri_contains r _); [done|]. by case_decide.
Qed.

(** The state of the service is two numbers: the first height that is not
    committed yet, and the height to process up to, if any.  Under any sequence of
    commits, observations and failures from a new state, the first is one more
    than the largest committed height, whatever was observed and whatever
    failed; the second is raised by an observation and lowered to just before
    what failed; and a range to process is never empty and within 32 bits. *)
Theorem sync_state_refines committed observed events :
  (∀ h, committed = Some h → in_range u32 h) → (∀ h, observed = Some h → in_range u32 h) → Forall event_ok events →
  let start := State_new committed observed in
  let self := foldl state_step start events in
  goal self = foldl goal_step (goal start) events
  ∧ next_needed (goal self) = foldl (λ n h, Z.max n (h + 1)) (match committed with Some c => c + 1 | None => 0 end) (committed_heights events)
  ∧ ∀ range, process_range self = Some range → in_range u32 (ri_start range) ∧ in_range u32 (ri_end range) ∧ ri_start range ≤ ri_end range.
Proof.
  intros Hc Ho Hev start. assert (status_ok start ∧ next_needed (goal start) = match committed with Some c => c + 1 | None => 0 end) as [Hok Hn].
  { unfold start, State_new. destruct committed as [c|], observed as [o|]; cbn; [|by split; [apply Hc|]| |done].
    - specialize (Hc c eq_refl). specialize (Ho o eq_refl). unfold checked_add, ri_is_empty. status_cases.
    - specialize (Ho o eq_refl). revert Ho. int_unfold. lia. }
  rewrite <- Hn. clear Hn. clearbody start. revert start Hok. induction Hev as [|e events He _ IH]; intros start Hok; cbn zeta.
  - split; [done|]. split; [done|]. intros range Hr. destruct start; [done| |done]. injection Hr as <-. exact Hok.
  - destruct (state_step_goal start e Hok He) as [Hok' Hg]. cbn [foldl]. destruct (IH _ Hok') as (-> & H2 & H3). rewrite Hg in *.
    split; [done|]. split; [|done]. rewrite H2, (goal_step_next (goal start) e).
    change (e :: events) with ([e] ++ events). unfold committed_heights at 3. rewrite omap_app. by rewrite foldl_app.
Qed.

(** ** Chunks *)
Section chunks.
Context (cache : Cache) (max lim : Z).

(** [Covered a b chunks]: the chunks follow each other from height [a] to [b].
    Cached chunks hold the entries of their heights.  A missing chunk begins where
    nothing is cached; it may go on over heights that are cached, which are then
    in the next chunk as well. *)
Inductive Covered : Z → Z → list CachedDataBatch → Prop :=
| covered_done a : Covered a a []
| covered_headers a b c hs chunks :
    a < b ≤ a + max → Forall2 (λ h d, cache !! h = Some (DataHeader d)) (seqZ a (b - a)) hs →
    Covered b c chunks → Covered a c (CachedHeaders (MkBatch None (MkRange a b) hs) :: chunks)
| covered_blocks a b c bs chunks :
    a < b ≤ a + max → Forall2 (λ h d, cache !! h = Some (DataBlock d)) (seqZ a (b - a)) bs →
    Covered b c chunks → Covered a c (CachedBlocks (MkBatch None (MkRange a b) bs) :: chunks)
| covered_missing a m b c chunks :
    a < m ≤ b → b ≤ a + max → b ≤ lim → (∀ h, a ≤ h < m → cache !! h = None) → (m < b → is_Some (cache !! m)) →
    Covered m c chunks → Covered a c (CachedNone (MkRange a b) :: chunks).

Lemma covered_app a b c l k : Covered a b l → Covered b c k → Covered a c (l ++ k).
Proof.
  induction 1 as [a|a b' c' hs l Hab Hd _ IH|a b' c' bs l Hab Hd _ IH|a m b' c' l Hm Hb Hl Hnone Hsome _ IH]; intros Hk; [done|..]; cbn.
  - econstructor; auto.
  - econstructor; auto.
  - by econstructor; auto.
Qed.

Lemma step_by_cons a b s : 0 < s → a < b → step_by a b s = a :: step_by (a + s) b s.
Proof.
  intros Hs Hab. unfold step_by. assert (div_ceil (b - a) s = div_ceil (b - (a + s)) s + 1) as Hd.
  { unfold div_ceil. replace (b - a) with (b - (a + s) + 1 * s) by lia. rewrite Z_mod_plus_full, Z_div_plus_full by lia. case_decide; lia. }
  assert (0 ≤ div_ceil (b - (a + s)) s) as Hn.
  { unfold div_ceil. set (x := b - (a + s)). pose proof (Z.div_mod x s ltac:(lia)). pose proof (Z.mod_pos_bound x s Hs).
    case_decide; unfold x in *; nia. }
  rewrite Hd, seqZ_cons by lia. rewrite fmap_cons. f_equal; [lia|].
  replace (Z.pred (div_ceil (b - (a + s)) s + 1)) with (div_ceil (b - (a + s)) s) by lia. change (Z.succ 0) with (1 + 0).
  rewrite <- fmap_add_seqZ, <- list_fmap_compose. apply list_fmap_ext. intros i x _. cbn. lia.
Qed.
Lemma step_by_nil a b s : 0 < s → b ≤ a → step_by a b s = [].
Proof.
  intros Hs Hab. unfold step_by. rewrite seqZ_nil; [done|]. unfold div_ceil.
  pose proof (Z.div_mod (b - a) s ltac:(lia)). pose proof (Z.mod_pos_bound (b - a) s Hs). case_decide; nia.
Qed.

Hypothesis (max_pos : 0 < max) (lim_ok : in_range u32 lim).

Lemma covered_push_missing start chunks a b :
  Covered start a chunks → 0 ≤ a ≤ b → b ≤ lim → (∀ h, a ≤ h < b → cache !! h = None) → (b < lim → is_Some (cache !! b)) →
  Covered start b (push_missing_chunks chunks a b max lim).
Proof.
  intros Hc Hab Hl Hnone Hsome. apply (covered_app _ a); [done|]. clear Hc start chunks.
  remember (Z.to_nat (b - a)) as n eqn:Hn. revert a Hab Hnone Hn. induction (lt_wf n) as [n _ IH]. intros a Hab Hnone Hn.
  destruct (decide (a = b)) as [->|Hne]; [rewrite step_by_nil by lia; constructor|].
  rewrite step_by_cons, fmap_cons by lia.
  assert (Z.min (saturating_add u32 a max) lim = Z.min (a + max) lim) as -> by (revert lim_ok; int_unfold; lia).
  destruct (decide (a + max < b)) as [Hlt|Hge].
  - apply (covered_missing a (a + max)); [lia..| |lia|].
    + intros h Hh. apply Hnone. lia.
    + apply (IH (Z.to_nat (b - (a + max)))); [lia..| |done]. intros h Hh. apply Hnone. lia.
  - rewrite step_by_nil by lia. apply (covered_missing a b); [lia..|done| |constructor]. intros Hb. apply Hsome. lia.
Qed.

(** The loop has covered the heights up to [cur], with a chunk that may grow. *)
Definition chunking (start cur : Z) (chunks : list CachedDataBatch) (current : CachedDataBatch) : Prop :=
  (current = CachedNone (MkRange 0 0) ∧ Covered start cur chunks)
  ∨ ∃ c, Covered start c chunks ∧ Covered c cur [current] ∧ match current with CachedNone _ => False | _ => True end.

Lemma covered_one a b chunk : Covered a b [chunk] → match chunk with CachedNone _ => False | _ => True end → chunk_range chunk = MkRange a b ∧ a < b ≤ a + max.
Proof.
  inversion 1 as [|? b' ? ? ? ? ? Hc|? b' ? ? ? ? ? Hc|]; subst; [| |done]; inversion Hc; subst; intros _; by split.
Qed.
Lemma push_chunk_covered start cur chunks current : chunking start cur chunks current → Covered start cur (push_chunk current chunks).
Proof.
  unfold push_chunk, is_range_empty. intros [[-> Hc]|(c & Hc & H1 & Hcur)].
  - unfold r_is_empty. cbn. by rewrite bool_decide_eq_true_2 by done.
  - destruct (covered_one _ _ _ H1 Hcur) as [-> Hlt]. unfold r_is_empty. cbn [r_start r_end]. rewrite bool_decide_eq_false_2 by lia.
    by eapply covered_app.
Qed.

Lemma one_block_range h : 0 ≤ h < lim → one_block h = MkRange h (h + 1).
Proof. intros Hh. unfold one_block. f_equal. revert lim_ok. int_unfold. lia. Qed.
Lemma covered_single h d :
  cache !! h = Some d →
  Covered h (h + 1) [match d with DataHeader x => CachedHeaders (MkBatch None (MkRange h (h + 1)) [x]) | DataBlock x => CachedBlocks (MkBatch None (MkRange h (h + 1)) [x]) end].
Proof.
  intros Hd. destruct d; apply covered_headers with (b := h + 1) || apply covered_blocks with (b := h + 1); try lia; try constructor;
    replace (h + 1 - h) with 1 by lia; by repeat constructor.
Qed.
Lemma seqZ_snoc a h : a ≤ h → seqZ a (h + 1 - a) = seqZ a (h - a) ++ [h].
Proof. intros Hh. replace (h + 1 - a) with ((h - a) + 1) by lia. rewrite seqZ_app by lia. f_equal. replace (a + (h - a)) with h by lia. done. Qed.

Lemma handle_chunking start h chunks current d :
  chunking start h chunks current → cache !! h = Some d → 0 ≤ h < lim →
  let '(current', chunks') := handle_current_chunk current d h chunks max in chunking start (h + 1) chunks' current'.
Proof.
  intros Hinv Hd Hh. pose proof (covered_single h d Hd) as Hs.
  assert (∀ chunks', Covered start h chunks' → chunking start (h + 1) chunks'
    match d with DataHeader x => CachedHeaders (MkBatch None (MkRange h (h + 1)) [x]) | DataBlock x => CachedBlocks (MkBatch None (MkRange h (h + 1)) [x]) end) as Hnew.
  { intros chunks' Hc. right. exists h. split; [done|]. split; [exact Hs|]. by destruct d. }
  destruct Hinv as [[-> Hc]|(c & Hc & H1 & Hcur)].
  { unfold handle_current_chunk. destruct d; rewrite one_block_range by done; by apply Hnew. }
  pose proof (covered_one _ _ _ H1 Hcur) as [Hr Hlt]. pose proof (covered_app _ _ _ _ _ Hc H1) as Hpush.
  assert (saturating_add u32 h 1 = h + 1) as Hsat by (revert lim_ok; int_unfold; lia).
  destruct current as [batch|batch|]; [| |done]; cbn [chunk_range] in Hr;
    inversion H1 as [|? b' ? ? ? ? Hd' Hc'|? b' ? ? ? ? Hd' Hc'|]; subst; inversion Hc'; subst; destruct d as [x|x];
    cbn [handle_current_chunk]; rewrite ?one_block_range by done; try by apply Hnew.
  all: unfold grow; rewrite one_block_range by done; cbn [range r_len r_start r_end peer results]; unfold r_len; cbn [r_start r_end];
    rewrite Hsat; case_decide; [by apply Hnew|]; right; exists c; (split; [done|]); split; [|done].
  - apply covered_headers with (b := h + 1); [lia| |constructor]. rewrite seqZ_snoc by lia. apply Forall2_app; [done|]. by repeat constructor.
  - apply covered_blocks with (b := h + 1); [lia| |constructor]. rewrite seqZ_snoc by lia. apply Forall2_app; [done|]. by repeat constructor.
Qed.

Lemma chunk_step_chunking start cur chunks current h d :
  chunking start cur chunks current → 0 ≤ cur ≤ h → h < lim → (∀ x, cur ≤ x < h → cache !! x = None) → cache !! h = Some d →
  let '(cur', chunks', current') := chunk_step max lim (cur, chunks, current) (h, d) in cur' = h + 1 ∧ chunking start (h + 1) chunks' current'.
Proof.
  intros Hinv Hcur Hh Hnone Hd. unfold chunk_step.
  assert (saturating_add u32 h 1 = h + 1) as -> by (revert lim_ok; int_unfold; lia). case_decide as Hne.
  - pose proof (handle_chunking start h (push_missing_chunks (push_chunk current chunks) cur h max lim) (CachedNone (MkRange 0 0)) d) as Hs.
    destruct (handle_current_chunk _ _ _ _ _). split; [done|]. apply Hs; [|done|lia]. left. split; [done|].
    apply covered_push_missing; [by apply push_chunk_covered|lia..|done|]. intros _. by exists d.
  - assert (h = cur) as -> by tauto. pose proof (handle_chunking start cur chunks current d) as Hs.
    destruct (handle_current_chunk _ _ _ _ _). split; [done|]. apply Hs; [done..|lia].
Qed.

Lemma chunk_loop start n a cur chunks current :
  chunking start cur chunks current → 0 ≤ cur ≤ a → 0 ≤ n → a + n ≤ lim → (∀ x, cur ≤ x < a → cache !! x = None) →
  let '(cur', chunks', current') :=
    foldl (chunk_step max lim) (cur, chunks, current) (omap (λ h, (λ d, (h, d)) <$> cache !! h) (seqZ a n)) in
  chunking start cur' chunks' current' ∧ 0 ≤ cur' ≤ a + n ∧ ∀ x, cur' ≤ x < a + n → cache !! x = None.
Proof.
  intros Hinv Hcur Hn. revert a cur chunks current Hinv Hcur. pattern n. apply natlike_ind; [|clear n Hn|done].
  { intros a cur chunks current Hinv Hcur Hl Hnone. cbn. split; [done|]. split; [lia|]. intros x Hx. apply Hnone. lia. }
  intros n Hn IH a cur chunks current Hinv Hcur Hl Hnone. rewrite seqZ_cons by lia. replace (Z.pred (Z.succ n)) with n by lia.
  replace (a + Z.succ n) with (Z.succ a + n) in * by lia. cbn [omap list_omap]. destruct (cache !! a) as [d|] eqn:Hd; cbn [fmap option_fmap option_map].
  - cbn [foldl]. pose proof (chunk_step_chunking start cur chunks current a d Hinv Hcur ltac:(lia) Hnone Hd) as Hs.
    destruct (chunk_step max lim (cur, chunks, current) (a, d)) as [[cur' chunks'] current']. destruct Hs as [-> Hs].
    apply IH; [done|lia..|]. intros x Hx. lia.
  - apply IH; [done|lia..|]. intros x Hx. destruct (decide (x = a)) as [->|]; [done|]. apply Hnone. lia.
Qed.
End chunks.

Lemma get_chunks_covered cache range max_chunk_size :
  0 ≤ ri_start range ≤ ri_end range → ri_end range < int_max u32 → 0 < max_chunk_size →
  ∃ chunks, get_chunks cache range max_chunk_size = Some chunks
    ∧ Covered cache max_chunk_size (ri_end range + 1) (ri_start range) (ri_end range + 1) chunks.
Proof.
  intros Hr Hmax Hpos. destruct range as [a e]. cbn [ri_start ri_end] in *. assert (in_range u32 (e + 1)) as Hlim by (revert Hmax; int_unfold; lia).
  unfold get_chunks, collect_cache_data, ri_is_empty, ri_len. cbn [ri_start ri_end]. rewrite bool_decide_eq_false_2 by lia.
  cbn [mbind option_bind]. assert (saturating_add u32 e 1 = e + 1) as -> by (revert Hlim; int_unfold; lia).
  pose proof (chunk_loop cache max_chunk_size (e + 1) Hpos Hlim a (e - a + 1) a a [] (CachedNone (MkRange 0 0))) as Hloop.
  replace (Z.max 0 (e - a + 1)) with (e - a + 1) by lia. destruct (foldl _ _ _) as [[cur chunks] current].
  destruct Hloop as (Hinv & Hcur & Hnone); [left; split; [done|constructor]|lia..|].
  eexists. split; [done|]. apply covered_push_missing; [done|done|by apply push_chunk_covered|lia|lia| |lia].
  intros h Hh. apply Hnone. lia.
Qed.

(** The chunks of a range cover it: they follow each other from its first to its
    last height, each has at least one height and at most as many as a batch may
    have, a cached chunk holds exactly what the cache has for its heights, in
    order, and a missing chunk begins with heights that are not cached.  It
    reaches into the next chunk only when that is cached. *)
Theorem chunks_cover cache range max_chunk_size :
  0 ≤ ri_start range ≤ ri_end range → ri_end range < int_max u32 → 0 < max_chunk_size →
  ∃ chunks, get_chunks cache range max_chunk_size = Some chunks
    ∧ Covered cache max_chunk_size (ri_end range + 1) (ri_start range) (ri_end range + 1) chunks.
Proof. apply get_chunks_covered. Qed.

(** ** What is checked before a block is executed *)
Section checked.
Context `{HH : Hashing} `{VM : FuelVm}.
Context (check : SealedBlockHeader → result string bool).

(** The seal of a header was accepted, at a height of 32 bits. *)
Definition header_ok (h : SealedBlockHeader) : Prop := check h = Ok true ∧ in_range u32 (sealed_height h).
Definition block_ok (b : SealedBlock) : Prop :=
  header_ok (sealed_header b) ∧ validate_transactions (header (entity b)) (transactions (entity b)) = true.
Definition data_ok (height : Z) (d : CachedData) : Prop :=
  match d with
  | DataHeader h => sealed_height h = height ∧ header_ok h
  | DataBlock b => sealed_height (sealed_header b) = height ∧ block_ok b
  end.
Definition cache_ok (cache : Cache) : Prop := map_Forall data_ok cache.
Definition op_ok (op : CacheOp) : Prop :=
  match op with
  | InsertHeaders batch => Forall header_ok (results batch)
  | InsertBlocks batch => Forall block_ok (results batch)
  | RemoveElement _ => True
  end.
(** The items of a batch are at the heights from the start of its range. *)
Definition at_heights {T} (height_of : T → Z) (a : Z) (l : list T) : Prop := height_of <$> l = seqZ a (Z.of_nat (length l)).
Definition headers_ok (batch : Batch SealedBlockHeader) : Prop :=
  Forall header_ok (results batch) ∧ at_heights sealed_height (r_start (range batch)) (results batch)
  ∧ Z.of_nat (length (results batch)) ≤ r_len (range batch).
Definition batch_ok (batch : Batch SealedBlock) : Prop :=
  Forall block_ok (results batch) ∧ at_heights (λ b, sealed_height (sealed_header b)) (r_start (range batch)) (results batch)
  ∧ Z.of_nat (length (results batch)) ≤ r_len (range batch).
Definition chunk_ok (chunk : CachedDataBatch) : Prop :=
  match chunk with
  | CachedHeaders batch => headers_ok batch
  | CachedBlocks batch => batch_ok batch
  | CachedNone range => 0 ≤ r_start range ∧ in_range u32 (r_end range)
  end.

Lemma apply_op_ok cache op : cache_ok cache → op_ok op → cache_ok (apply_op cache op).
Proof.
  intros Hc Ho. destruct op as [batch|batch|h]; cbn in *.
  - unfold insert_headers. revert cache Hc. induction Ho as [|x l Hx _ IH]; intros cache Hc; [done|]. cbn. apply IH. by apply map_Forall_insert_2.
  - unfold insert_blocks. revert cache Hc. induction Ho as [|x l Hx _ IH]; intros cache Hc; [done|]. cbn. apply IH. by apply map_Forall_insert_2.
  - by apply map_Forall_delete.
Qed.

Lemma at_heights_cons {T} (f : T → Z) a x l : f x = a → at_heights f (a + 1) l → at_heights f a (x :: l).
Proof.
  unfold at_heights. intros Hx Hl. rewrite fmap_cons, Hx, Hl. cbn [length]. rewrite Nat2Z.inj_succ, (seqZ_cons a) by lia.
  f_equal. f_equal; lia.
Qed.
Lemma at_heights_tail {T} (f : T → Z) a x l : at_heights f a (x :: l) → f x = a ∧ at_heights f (a + 1) l.
Proof.
  unfold at_heights. rewrite fmap_cons. cbn [length]. rewrite Nat2Z.inj_succ, seqZ_cons by lia. intros [= -> ->]. split; [done|].
  f_equal; lia.
Qed.

Lemma at_heights_take {T} (f : T → Z) a l n : at_heights f a l → at_heights f a (take n l).
Proof.
  revert a l. induction n as [|n IH]; intros a [|x l]; [done..|]. intros [Hx Hl]%at_heights_tail. cbn [take]. apply at_heights_cons; [done|].
  by apply IH.
Qed.
Lemma at_heights_fmap {T U} (g : T → U) (f : U → Z) a l : at_heights (λ x, f (g x)) a l ↔ at_heights f a (g <$> l).
Proof. unfold at_heights. by rewrite length_fmap, <- list_fmap_compose. Qed.

(** The items of a cached chunk, [mk] an item of the cache *)
Lemma cached_items_ok {T} (mk : T → CachedData) (f : T → Z) (Q : T → Prop) cache a b l :
  cache_ok cache → (∀ h d, data_ok h (mk d) → f d = h ∧ Q d) → a < b → Forall2 (λ h d, cache !! h = Some (mk d)) (seqZ a (b - a)) l →
  Forall Q l ∧ at_heights f a l ∧ Z.of_nat (length l) = b - a.
Proof.
  intros Hc HQ Hab Hf. pose proof (Forall2_length _ _ _ Hf) as Hlen. rewrite length_seqZ in Hlen.
  assert (Forall2 (λ h d, f d = h ∧ Q d) (seqZ a (b - a)) l) as Hok.
  { eapply Forall2_impl; [done|]. intros h d Hd. exact (HQ _ _ (Hc _ _ Hd)). }
  assert (Z.of_nat (length l) = b - a) as Hl by lia. split_and!; [| |done].
  - clear -Hok. induction Hok as [|h d l l' [_ Hd] _ IH]; by constructor.
  - unfold at_heights. rewrite Hl. clear -Hok. induction Hok as [|h d l l' [<- _] _ IH]; [done|]. rewrite fmap_cons. by f_equal.
Qed.

Lemma covered_ok cache max lim a b chunks :
  cache_ok cache → 0 ≤ a → in_range u32 lim → Covered cache max lim a b chunks → Forall chunk_ok chunks.
Proof.
  intros Hc Ha Hl. induction 1 as [a|a b c hs l Hab Hd _ IH|a b c bs l Hab Hd _ IH|a m b c l Hm Hb Hbl _ _ _ IH]; constructor; try (apply IH; lia).
  - destruct (cached_items_ok DataHeader sealed_height header_ok _ _ _ _ Hc (λ h d H, H) (proj1 Hab) Hd) as (H1 & H2 & H3).
    split_and!; [done..|]. unfold r_len. cbn in *. lia.
  - destruct (cached_items_ok DataBlock (λ b, sealed_height (sealed_header b)) block_ok _ _ _ _ Hc (λ h d H, H) (proj1 Hab) Hd) as (H1 & H2 & H3).
    split_and!; [done..|]. unfold r_len. cbn in *. lia.
  - split; [done|]. cbn. revert Hl. int_unfold. lia.
Qed.

Lemma take_expected_spec headers a n :
  at_heights sealed_height a (take_expected headers (seqZ a n)) ∧ Z.of_nat (length (take_expected headers (seqZ a n))) ≤ Z.max 0 n
  ∧ Forall (λ h, a ≤ sealed_height h < a + n) (take_expected headers (seqZ a n)).
Proof.
  revert a n. induction headers as [|h headers IH]; intros a n; [by split_and!; [|cbn [take_expected length]; lia|constructor]|].
  destruct (decide (0 < n)) as [Hn|Hn]; [|rewrite seqZ_nil by lia; by split_and!; [|cbn [take_expected length]; lia|constructor]].
  rewrite seqZ_cons by lia. cbn [take_expected]. case_decide as Hh; [|by split_and!; [|cbn [length]; lia|constructor]].
  destruct (IH (Z.succ a) (Z.pred n)) as (H1 & H2 & H3). split_and!.
  - apply at_heights_cons; [done|]. by replace (a + 1) with (Z.succ a) by lia.
  - cbn [length]. lia.
  - constructor; [lia|]. eapply Forall_impl; [done|]. intros x Hx. cbn in Hx. lia.
Qed.
Lemma take_checked_spec net headers peer :
  net_check_sealed_header net = check →
  (∃ n, (take_checked net headers peer).1 = take n headers) ∧ Forall (λ h, check h = Ok true) (take_checked net headers peer).1.
Proof.
  intros Hn. induction headers as [|h headers [[n IH1] IH2]]; cbn [take_checked]; [by split; [exists O|]|].
  unfold check_sealed_header. rewrite Hn. destruct (check h) as [[]|] eqn:Hh; [|by split; [exists O|]..].
  destruct (take_checked net headers peer) as [l reports]. cbn in *. split; [exists (S n); cbn; by f_equal|]. by constructor.
Qed.
Lemma zip_blocks_spec headers txs peer :
  (∃ n, sealed_header <$> (zip_blocks headers txs peer).1 = take n headers)
  ∧ Forall (λ b, validate_transactions (header (entity b)) (transactions (entity b)) = true) (zip_blocks headers txs peer).1.
Proof.
  revert txs. induction headers as [|h headers IH]; intros [|tx txs]; cbn [zip_blocks]; [by split; [exists O|]..|].
  unfold try_from_executed. destruct (validate_transactions (sh_entity h) tx) eqn:Hv; [|by split; [exists O|]].
  destruct (IH txs) as [[n H1] H2]. destruct (zip_blocks headers txs peer) as [l reports]. cbn in *. split; [|by constructor].
  exists (S n). cbn. f_equal; [by destruct h|done].
Qed.

Lemma fetch_headers_ok net number range :
  net_check_sealed_header net = check → 0 ≤ r_start range → in_range u32 (r_end range) →
  let '(batch, _, ops) := fetch_headers net number range in headers_ok batch ∧ Forall op_ok ops.
Proof.
  intros Hn Hs He. unfold fetch_headers, get_headers_batch. destruct (get_sealed_block_headers net number range) as [[id d]|e]; cbn zeta.
  2:{ cbn. split; [split_and!; cbn; [done|done|unfold r_len; lia]|]. case_match; by repeat constructor. }
  cbn [data peer_id results peer]. destruct (take_expected_spec (unwrap_or [] d) (r_start range) (r_len range)) as (H1 & H2 & H3).
  set (l := take_expected _ _) in *. destruct (take_checked_spec net l (Some id) Hn) as [[n Ht] Hc]. destruct (take_checked net l (Some id)) as [l' reports].
  cbn [fst] in *. assert (headers_ok (MkBatch (Some id) range l')) as Hok.
  { split_and!; cbn [results Sync.range r_start].
    - rewrite Ht in *. apply Forall_forall. intros h Hh. split; [by eapply Forall_forall in Hc|].
      apply elem_of_take in Hh as (i & Hi & _). eapply Forall_lookup in H3; [|done]. cbn in H3. unfold r_len in H3. revert H3 He. int_unfold. lia.
    - rewrite Ht. by apply at_heights_take.
    - rewrite Ht, length_take. unfold r_len in *. lia. }
  split; [done|]. destruct (is_err _); [constructor|]. constructor; [|constructor]. by destruct Hok.
Qed.
Lemma fetch_blocks_ok net number headers :
  headers_ok headers → let '(batch, _, ops) := fetch_blocks net number headers in batch_ok batch ∧ Forall op_ok ops.
Proof.
  intros (H1 & H2 & H3). assert (∀ p, batch_ok (MkBatch p (range headers) [])) as Hnil by (intros p; split_and!; cbn; [done|done|unfold r_len; lia]).
  unfold fetch_blocks. case_decide; [by split|]. unfold get_blocks.
  destruct (get_transactions net number (range headers) (peer headers)) as [[[id txs]|] reports]; cbn [data peer_id].
  2:{ split; [by apply Hnil|]. case_match; [constructor|]. by repeat constructor. }
  destruct (zip_blocks_spec (results headers) txs id) as [[n Hz] Hv]. destruct (zip_blocks (results headers) txs id) as [l reports']. cbn [fst] in *.
  assert (batch_ok (MkBatch (Some id) (range headers) l)) as Hok.
  { split_and!; cbn [results Sync.range r_start].
    - apply Forall_forall. intros b Hb. split; [|by eapply Forall_forall in Hv].
      assert (sealed_header b ∈ take n (results headers)) as Hin by (rewrite <- Hz; by apply list_elem_of_fmap_2).
      apply elem_of_take in Hin as (i & Hi & _). by eapply Forall_lookup in H1.
    - rewrite (at_heights_fmap sealed_header sealed_height), Hz. by apply at_heights_take.
    - apply (f_equal length) in Hz. rewrite length_fmap, length_take in Hz. lia. }
  split; [done|]. destruct (is_err _); [constructor|]. constructor; [|constructor]. by destruct Hok.
Qed.
Lemma get_block_batch_ok net number chunk :
  net_check_sealed_header net = check → chunk_ok chunk →
  let '(batch, _, ops) := get_block_batch net number chunk in batch_ok batch ∧ Forall op_ok ops.
Proof.
  intros Hn Hc. destruct chunk as [batch|batch|range]; cbn [get_block_batch chunk_ok] in *.
  - by apply fetch_blocks_ok.
  - by split.
  - destruct Hc as [H1 H2]. pose proof (fetch_headers_ok net number range Hn H1 H2) as Hh.
    destruct (fetch_headers net number range) as [[headers reports] ops]. destruct Hh as [Hh Ho].
    pose proof (fetch_blocks_ok net number headers Hh) as Hb. destruct (fetch_blocks net number headers) as [[batch reports'] ops'].
    destruct Hb as [Hb Ho']. split; [done|]. by apply Forall_app.
Qed.

(** ** The service over a node *)
Definition incoming_ok (incoming : IncomingHeight) : Prop :=
  match incoming with ObservedHeight height | CommittedHeight height => in_range u32 height end.
Context {N : Type} `{P : !SyncPorts N}.

(** What the node promises to the service: [safe] is kept when a block is
    executed that passed the checks. *)
Class SafePorts : Type := {
  safe : N → Prop;
  safe_arrivals n : safe n → Forall incoming_ok (arrivals n).1 ∧ safe (arrivals n).2;
  safe_execute b n : block_ok b → safe n → safe (port_execute_and_commit b n).2
}.
Context `{SP : !SafePorts}.
Definition service_ok (s : SyncService N) : Prop := status_ok (status s) ∧ safe (node s).

Lemma sync_height_ok s incoming : incoming_ok incoming → service_ok s → service_ok (sync_height s incoming).
Proof.
  intros Hi [Hs Hn]. destruct incoming as [h|h]; cbn [sync_height incoming_ok] in *.
  - destruct (observe_goal h (status s) Hs Hi) as [Hok _]. destruct (observe h (status s)) as [st change]. by split.
  - split; [|done]. by apply commit_goal.
Qed.
Lemma arrive_ok s : service_ok s → service_ok (let_heights_arrive s).
Proof.
  intros [Hs Hn]. unfold let_heights_arrive. destruct (safe_arrivals (node s) Hn) as [Hi Hn']. destruct (arrivals (node s)) as [hs n]. cbn in *.
  assert (service_ok (MkSyncService (status s) (notified s) n)) as H0 by done. revert H0. generalize (MkSyncService (status s) (notified s) n).
  clear -Hi. induction Hi as [|h hs Hh _ IH]; intros s Hok; [done|]. cbn. apply IH. by apply sync_height_ok.
Qed.
Lemma execute_one_ok b s : block_ok b → service_ok s → service_ok (sync_execute_and_commit b s).2.
Proof.
  intros Hb [Hs Hn]. unfold sync_execute_and_commit. pose proof (safe_execute b (node s) Hb Hn) as Hn'.
  destruct (port_execute_and_commit b (node s)) as [r n]. cbn in Hn'.
  pose proof (arrive_ok (MkSyncService (status s) (notified s) n) (conj Hs Hn')) as Ha. destruct r as [[[]|]|]; [|done..].
  destruct Ha as [Ha1 Ha2]. split; [|done]. cbn. apply commit_goal; [done|]. by destruct Hb as [[_ ?] _].
Qed.
Lemma execute_blocks_ok bs s :
  Forall block_ok bs → service_ok s → let '(_, ops, s') := execute_blocks bs s in Forall op_ok ops ∧ service_ok s'.
Proof.
  intros Hbs. revert s. induction Hbs as [|b bs Hb _ IH]; intros s Hs; cbn [execute_blocks]; [done|].
  pose proof (execute_one_ok b s Hb Hs) as Hs'. destruct (sync_execute_and_commit b s) as [[[[]|]|] s']; cbn in Hs'; [|by (split; [repeat constructor|])..].
  specialize (IH s' Hs'). destruct (execute_blocks bs s') as [[n ops] s'']. destruct IH as [Ho Hs'']. split; [|done]. by constructor.
Qed.
Lemma execute_batches_ok batches s :
  Forall batch_ok batches → service_ok s → let '(_, _, ops, s') := execute_batches batches s in Forall op_ok ops ∧ service_ok s'.
Proof.
  intros Hbs. revert s. induction Hbs as [|b bs (Hb & _) _ IH]; intros s Hs; cbn [execute_batches]; [done|].
  pose proof (execute_blocks_ok (results b) s Hb Hs) as H1. destruct (execute_blocks (results b) s) as [[n ops] s']. destruct H1 as [Ho Hs'].
  case_decide; [done|]. specialize (IH s' Hs'). destruct (execute_batches bs s') as [[[n' reports] ops'] s'']. destruct IH as [Ho' Hs''].
  split; [|done]. by apply Forall_app.
Qed.
Lemma scan_err_sublist {T} (l : list (Batch T)) : ∃ n, scan_err l = take n l.
Proof. induction l as [|b l [n IH]]; cbn; [by exists O|]. destruct (is_err b); [by exists 1%nat|]. exists (S n). cbn. by f_equal. Qed.

(** Every batch of a session, and all it writes to the cache, is checked. *)
Lemma fetched_ok net chunks :
  net_check_sealed_header net = check → Forall chunk_ok chunks →
  Forall (λ f, batch_ok f.1.1 ∧ Forall op_ok f.2) (imap (get_block_batch net) chunks).
Proof.
  intros Hn Hc. apply Forall_lookup. intros i f. rewrite list_lookup_imap. destruct (chunks !! i) as [chunk|] eqn:Hi; [|done].
  intros [= <-]. pose proof (get_block_batch_ok net i chunk Hn (Forall_lookup_1 _ _ _ _ Hc Hi)) as Hb. by destruct (get_block_batch net i chunk) as [[b r] ops].
Qed.
Lemma import_inner_ok params net started delivered cache s out reports ops s' :
  net_check_sealed_header net = check → cache_ok cache → service_ok s →
  (∀ range, process_range (status s) = Some range → ri_end range < int_max u32) →
  import_inner params net started delivered cache s = Some (out, reports, ops, s') → Forall op_ok ops ∧ service_ok s'.
Proof.
  intros Hn Hc Hs Hmax. unfold import_inner. destruct (process_range (status s)) as [range|] eqn:Hp; [|by intros [= <- <- <- <-]].
  assert (in_range u32 (ri_start range) ∧ in_range u32 (ri_end range) ∧ ri_start range ≤ ri_end range) as (Hr1 & Hr2 & Hr3).
  { destruct Hs as [Hs _]. destruct (status s); [done| |done]. injection Hp as <-. exact Hs. }
  specialize (Hmax range eq_refl). unfold launch_stream. destruct (try_into u32 (header_batch_size params)) as [size|] eqn:Hz; [|done]. cbn [mbind option_bind].
  apply fit_Some in Hz as [<- Hz]. case_decide as Hz0; [done|]. assert (0 ≤ ri_start range) as Hr0 by (revert Hr1; int_unfold; lia).
  destruct (get_chunks_covered cache range (header_batch_size params) ltac:(lia) Hmax) as (chunks & -> & Hcov); [revert Hz; int_unfold; lia|].
  cbn [unwrap_or]. apply covered_ok in Hcov; [|done|lia|revert Hr1 Hmax; int_unfold; lia].
  pose proof (Forall_take _ started _ (fetched_ok net chunks Hn Hcov)) as Hf. set (fetched := take started _) in *.
  assert (Forall batch_ok (take delivered (scan_err ((λ f, f.1.1) <$> fetched)))) as Hb.
  { apply Forall_take. destruct (scan_err_sublist ((λ f, f.1.1) <$> fetched)) as [n ->]. apply Forall_take, Forall_fmap.
    eapply Forall_impl; [done|]. by intros f [? _]. }
  pose proof (execute_batches_ok _ s Hb Hs) as He. destruct (execute_batches _ s) as [[[count reports'] ops'] s1]. destruct He as [Ho Hs1].
  apply arrive_ok in Hs1. assert (Forall op_ok (mjoin ((λ f, f.2) <$> fetched) ++ ops')) as Hops.
  { apply Forall_app. split; [|done]. clear -Hf. induction Hf as [|f l [_ Hf] _ IH]; [constructor|]. cbn. by apply Forall_app. }
  cbn [mbind option_bind]. case_decide as Hcount; [|by intros [= <- <- <- <-]]. destruct (try_into u32 (Z.of_nat count)) as [c|] eqn:Hc32; [|done].
  cbn [mbind option_bind]. intros [= <- <- <- <-]. split; [done|]. destruct Hs1 as [Hs1 Hn1]. split; [|done]. cbn.
  apply failed_goal; [done| |done]. cbn. apply fit_Some in Hc32 as [<- Hc32]. revert Hr1 Hc32. int_unfold. lia.
Qed.

(** The cache, what the tasks may still write to it, and the service *)
Record SyncWorld := MkSyncWorld { w_cache : Cache; w_pending : list CacheOp; w_service : SyncService N }.
(** Heights arrive, the import runs with any answers of the network, and what its
    tasks write to the cache happens at any time after they read it. *)
Inductive sync_reach (params : SyncConfig) (w0 : SyncWorld) : SyncWorld → Prop :=
| reach_start : sync_reach params w0 w0
| reach_height w incoming :
    sync_reach params w0 w → incoming_ok incoming →
    sync_reach params w0 (MkSyncWorld (w_cache w) (w_pending w) (sync_height (w_service w) incoming))
| reach_cache w op :
    sync_reach params w0 w → op ∈ w_pending w →
    sync_reach params w0 (MkSyncWorld (apply_op (w_cache w) op) (w_pending w) (w_service w))
| reach_import w net started delivered out reports ops s' :
    sync_reach params w0 w → net_check_sealed_header net = check →
    (∀ range, process_range (status (w_service w)) = Some range → ri_end range < int_max u32) →
    import_inner params net started delivered (w_cache w) (w_service w) = Some (out, reports, ops, s') →
    sync_reach params w0 (MkSyncWorld (w_cache w) (w_pending w ++ ops) s').
Definition world_ok (w : SyncWorld) : Prop := cache_ok (w_cache w) ∧ Forall op_ok (w_pending w) ∧ service_ok (w_service w).

Lemma sync_reach_ok params w0 w : sync_reach params w0 w → world_ok w0 → world_ok w.
Proof.
  intros Hr H0. induction Hr as [|w incoming _ (Hc & Hp & Hs) Hi|w op _ (Hc & Hp & Hs) Ho|w net started delivered out reports ops s' _ (Hc & Hp & Hs) Hn Hm Hrun]; [done|..].
  - split_and!; [done..|]. by apply sync_height_ok.
  - split_and!; [|done..]. apply apply_op_ok; [done|]. by eapply Forall_forall in Hp.
  - destruct (import_inner_ok _ _ _ _ _ _ _ _ _ _ Hn Hc Hs Hm Hrun) as [Ho Hs']. split_and!; [done| |done]. by apply Forall_app.
Qed.

(** ** Honest peers *)
(** All blocks are executed with success. *)
Fixpoint execute_all (blocks : list SealedBlock) (s : SyncService N) : option (SyncService N) :=
  match blocks with
  | [] => Some s
  | b :: blocks => match sync_execute_and_commit b s with (Some (Ok _), s) => execute_all blocks s | _ => None end
  end.
Lemma execute_all_app l k s : execute_all (l ++ k) s = (s ← execute_all l s; execute_all k s).
Proof. revert s. induction l as [|b l IH]; intros s; [done|]. cbn. destruct (sync_execute_and_commit b s) as [[[[]|]|] s']; [apply IH|done..]. Qed.
Lemma execute_blocks_all blocks s s' : execute_all blocks s = Some s' → ∃ ops, execute_blocks blocks s = (length blocks, ops, s').
Proof.
  revert s. induction blocks as [|b blocks IH]; intros s; cbn; [intros [= <-]; by eexists|].
  destruct (sync_execute_and_commit b s) as [[[[]|]|] s1]; [|done..]. intros [ops ->]%IH. by eexists.
Qed.
Lemma execute_batches_all batches s s' :
  Forall (λ b, Z.of_nat (length (results b)) = r_len (range b)) batches → execute_all (mjoin (results <$> batches)) s = Some s' →
  ∃ reports ops, execute_batches batches s = (length (mjoin (results <$> batches)), reports, ops, s').
Proof.
  intros Hf. revert s. induction Hf as [|b batches Hb _ IH]; intros s; cbn; [intros [= <-]; by eexists _, _|].
  rewrite execute_all_app. destruct (execute_all (results b) s) as [s1|] eqn:H1; [|done]. cbn. intros H2.
  apply execute_blocks_all in H1 as [ops ->]. rewrite decide_False by lia. destruct (IH s1 H2) as (reports & ops' & ->).
  rewrite length_app. by eexists _, _.
Qed.

(** No chunk reaches into the next one. *)
Fixpoint consecutive (a : Z) (chunks : list CachedDataBatch) : Prop :=
  match chunks with
  | [] => True
  | chunk :: chunks => r_start (chunk_range chunk) = a ∧ consecutive (r_end (chunk_range chunk)) chunks
  end.

Section honest.
(** [chain] are the blocks of the network from height [first] to [last]. *)
Context (chain : Z → SealedBlock) (first last : Z).
Definition chain_blocks (a n : Z) : list SealedBlock := chain <$> seqZ a n.
Definition chain_ok : Prop := ∀ h, first ≤ h ≤ last → sealed_height (sealed_header (chain h)) = h ∧ block_ok (chain h).
(** Whoever is asked has the blocks. *)
Definition honest (net : SyncNetwork) : Prop :=
  ∀ number range, first ≤ r_start range → r_end range ≤ last + 1 →
    let blocks := chain_blocks (r_start range) (r_len range) in
    (∃ p, get_sealed_block_headers net number range = Ok (MkSourcePeer p (Some (sealed_header <$> blocks))))
    ∧ (∃ p, net_get_transactions net number range = Ok (MkSourcePeer p (Some ((λ b, transactions (entity b)) <$> blocks))))
    ∧ ∀ p, get_transactions_from_peer net number (MkSourcePeer p range) = Ok (Some ((λ b, transactions (entity b)) <$> blocks)).
Definition cache_of_chain (cache : Cache) : Prop :=
  ∀ h d, first ≤ h ≤ last → cache !! h = Some d → d = DataHeader (sealed_header (chain h)) ∨ d = DataBlock (chain h).

Context (net : SyncNetwork) (Hnet : honest net) (Hchain : chain_ok) (Hcheck : net_check_sealed_header net = check).

Lemma take_expected_chain a n : first ≤ a → a + n ≤ last + 1 → take_expected (sealed_header <$> chain_blocks a n) (seqZ a n) = sealed_header <$> chain_blocks a n.
Proof.
  intros Ha Hn. unfold chain_blocks. destruct (decide (0 ≤ n)) as [Hpos|]; [|by rewrite seqZ_nil by lia]. revert a Ha Hn. pattern n.
  apply natlike_ind; [done| |done]. clear n Hpos. intros n Hn IH a Ha Hl. rewrite seqZ_cons by lia. rewrite !fmap_cons. cbn [take_expected].
  rewrite decide_True by (apply Hchain; lia). f_equal. replace (Z.pred (Z.succ n)) with n by lia. apply IH; lia.
Qed.
Lemma take_checked_chain bs peer : Forall block_ok bs → take_checked net (sealed_header <$> bs) peer = (sealed_header <$> bs, []).
Proof.
  induction 1 as [|b bs [[Hb _] _] _ IH]; [done|]. rewrite fmap_cons. cbn [take_checked]. unfold check_sealed_header. rewrite Hcheck, Hb. by rewrite IH.
Qed.
Lemma zip_blocks_chain bs peer : Forall block_ok bs → zip_blocks (sealed_header <$> bs) ((λ b, transactions (entity b)) <$> bs) peer = (bs, []).
Proof.
  induction 1 as [|b bs [_ Hb] _ IH]; [done|]. rewrite !fmap_cons. cbn [zip_blocks]. unfold try_from_executed. cbn [sealed_header sh_entity].
  rewrite Hb, IH. by destruct b as [[]].
Qed.
Lemma chain_blocks_ok a n : first ≤ a → a + n ≤ last + 1 → Forall block_ok (chain_blocks a n).
Proof. intros Ha Hn. apply Forall_fmap, Forall_forall. intros h Hh%elem_of_seqZ. cbn. apply Hchain. lia. Qed.
Lemma length_chain_blocks a n : 0 ≤ n → Z.of_nat (length (chain_blocks a n)) = n.
Proof. intros Hn. unfold chain_blocks. rewrite length_fmap, length_seqZ. lia. Qed.

(** A batch that holds the whole range *)
Definition full_batch (r : Range) (b : Batch SealedBlock) : Prop := range b = r ∧ results b = chain_blocks (r_start r) (r_len r).
Lemma fetch_blocks_chain number p r :
  first ≤ r_start r → r_end r ≤ last + 1 →
  full_batch r (fetch_blocks net number (MkBatch p r (sealed_header <$> chain_blocks (r_start r) (r_len r)))).1.1.
Proof.
  intros Ha Hb. unfold fetch_blocks. case_decide as Hnil; cbn [results] in Hnil.
  { split; [done|]. cbn. by apply fmap_nil_inv in Hnil. }
  unfold get_blocks, get_transactions. cbn [peer Sync.range results]. destruct (Hnet number r Ha Hb) as (_ & [p' ->] & Hp).
  assert (Forall block_ok (chain_blocks (r_start r) (r_len r))) as Hok.
  { unfold r_len. destruct (decide (r_end r ≤ r_start r)); [by replace (Z.max 0 _) with 0 by lia; constructor|]. apply chain_blocks_ok; lia. }
  destruct p as [p|]; [rewrite (Hp p)|]; cbn [data peer_id]; rewrite zip_blocks_chain by done; by case_match.
Qed.
Lemma cached_items_chain {T} (mk : T → CachedData) (f : SealedBlock → T) (cache : Cache) a b l :
  first ≤ a → b ≤ last + 1 → (∀ h d, first ≤ h ≤ last → cache !! h = Some (mk d) → d = f (chain h)) →
  Forall2 (λ h d, cache !! h = Some (mk d)) (seqZ a (b - a)) l → l = f <$> chain_blocks a (b - a).
Proof.
  intros Ha Hb Hmk Hl. unfold chain_blocks. rewrite <- list_fmap_compose.
  assert (Forall2 (λ h d, d = f (chain h)) (seqZ a (b - a)) l) as Hf.
  { apply Forall2_same_length_lookup in Hl as [Hlen Hl]. apply Forall2_same_length_lookup. split; [done|].
    intros i h d Hh Hd. apply Hmk; [|by eapply Hl]. apply lookup_seqZ in Hh. lia. }
  clear -Hf. induction Hf as [|h d hs l -> _ IH]; [done|]. rewrite fmap_cons. by f_equal.
Qed.
Lemma get_block_batch_chain number cache max lim a b c chunk chunks :
  cache_of_chain cache → first ≤ a → b ≤ last + 1 → Covered cache max lim a c (chunk :: chunks) → chunk_range chunk = MkRange a b →
  full_batch (MkRange a b) (get_block_batch net number chunk).1.1.
Proof.
  intros Hcache Ha Hb Hcov Hr. assert (∀ h d, first ≤ h ≤ last → cache !! h = Some (DataHeader d) → d = sealed_header (chain h)) as Hh.
  { intros h d Hh Hd. by destruct (Hcache h _ Hh Hd) as [[= ->]|]. }
  assert (∀ h d, first ≤ h ≤ last → cache !! h = Some (DataBlock d) → d = id (chain h)) as Hbl.
  { intros h d Hh' Hd. by destruct (Hcache h _ Hh' Hd) as [|[= ->]]. }
  inversion Hcov as [|? b' ? hs ? Hab Hd _|? b' ? bs ? Hab Hd _|? m b' ? ? Hm]; subst; cbn in Hr; injection Hr as ->; cbn [get_block_batch];
    assert (r_len (MkRange a b) = b - a) as Hlen by (unfold r_len; cbn; lia).
  - rewrite (cached_items_chain _ _ _ _ _ _ Ha Hb Hh Hd), <- Hlen. by apply fetch_blocks_chain.
  - split; [done|]. rewrite (cached_items_chain _ _ _ _ _ _ Ha Hb Hbl Hd), Hlen. cbn. by rewrite list_fmap_id.
  - destruct (Hnet number (MkRange a b) Ha Hb) as ([p Hp] & _). unfold fetch_headers, get_headers_batch. rewrite Hp. cbn [data peer_id unwrap_or results peer r_start].
    rewrite Hlen, take_expected_chain by lia. rewrite take_checked_chain by (apply chain_blocks_ok; lia).
    pose proof (fetch_blocks_chain number (Some p) (MkRange a b) Ha Hb) as Hf. cbn [r_start] in Hf. rewrite Hlen in Hf.
    by destruct (fetch_blocks _ _ _) as [[? ?] ?].
Qed.

Lemma chain_blocks_app a b c : a ≤ b ≤ c → chain_blocks a (b - a) ++ chain_blocks b (c - b) = chain_blocks a (c - a).
Proof.
  intros Hb. unfold chain_blocks. rewrite <- fmap_app. f_equal. replace (c - a) with ((b - a) + (c - b)) by lia. rewrite seqZ_app by lia.
  do 2 f_equal. lia.
Qed.
Lemma covered_le cache max lim a c chunks : Covered cache max lim a c chunks → a ≤ c.
Proof. induction 1; lia. Qed.

Lemma consecutive_start cache max lim m b c chunks :
  Covered cache max lim m c chunks → consecutive b chunks → m ≤ b ≤ lim → lim ≤ c → m = b.
Proof. intros Hcov Hcons Hb Hl. inversion Hcov; subst; cbn in Hcons; lia. Qed.

(** Consecutive chunks of the chain are fetched completely. *)
Lemma fetched_chain cache max lim a c chunks (number : nat → nat) :
  cache_of_chain cache → first ≤ a → c ≤ last + 1 → lim ≤ c → Covered cache max lim a c chunks → consecutive a chunks →
  let batches := imap (λ i chunk, (get_block_batch net (number i) chunk).1.1) chunks in
  Forall (λ b, Z.of_nat (length (results b)) = r_len (range b)) batches ∧ mjoin (results <$> batches) = chain_blocks a (c - a).
Proof.
  intros Hcache Ha Hc Hlc Hcov. revert number. induction Hcov as [a|a b c hs chunks Hab Hd Hrest IH|a b c bs chunks Hab Hd Hrest IH|a m b c chunks Hm Hb Hl Hn Hs Hrest IH];
    intros number Hcons; cbn zeta.
  { split; [constructor|]. unfold chain_blocks. by rewrite seqZ_nil by lia. }
  all: rewrite imap_cons, fmap_cons; cbn [consecutive chunk_range range r_start r_end] in Hcons; destruct Hcons as [_ Hcons].
  all: pose proof (covered_le _ _ _ _ _ _ Hrest) as Hle.
  3: assert (m = b) as -> by (eapply consecutive_start; [done..|lia|done]).
  all: destruct (IH ltac:(lia) Hc Hlc (λ i, number (S i)) Hcons) as [Hf Hj].
  1: pose proof (get_block_batch_chain (number O) _ _ _ _ b c _ chunks Hcache Ha ltac:(lia) (covered_headers cache max lim _ _ _ _ _ Hab Hd Hrest) eq_refl) as [Hr Hres].
  2: pose proof (get_block_batch_chain (number O) _ _ _ _ b c _ chunks Hcache Ha ltac:(lia) (covered_blocks cache max lim _ _ _ _ _ Hab Hd Hrest) eq_refl) as [Hr Hres].
  3: pose proof (get_block_batch_chain (number O) _ _ _ _ b c _ chunks Hcache Ha ltac:(lia) (covered_missing cache max lim _ _ _ _ _ Hm Hb Hl Hn Hs Hrest) eq_refl) as [Hr Hres].
  all: cbn [r_start] in Hres; replace (r_len (MkRange a b)) with (b - a) in Hres by (unfold r_len; cbn; lia).
  all: split; [constructor; [rewrite Hr, Hres, length_chain_blocks by lia; unfold r_len; cbn; lia|exact Hf]|].
  all: exact (eq_trans (f_equal2 app Hres Hj) (chain_blocks_app a b c ltac:(lia))).
Qed.

(** The heights before [n] are committed, and the task is notified of any height
    beyond [e] that is to be processed. *)
Definition caught_up (e n : Z) (s : SyncService N) : Prop :=
  service_ok s ∧ n ≤ next_needed (goal (status s)) ∧ ∀ t, target (goal (status s)) = Some t → t ≤ e ∨ notified s = true.
Lemma goal_commit_target h g t : target (goal_commit h g) = Some t → target g = Some t.
Proof. unfold goal_commit. cbn [target]. destruct (target g) as [t'|]; [|done]. cbn. case_decide; by intros [= ->]. Qed.
Lemma caught_up_height e n s incoming : incoming_ok incoming → caught_up e n s → caught_up e n (sync_height s incoming).
Proof.
  intros Hi (Hok & Hn & Ht). split; [by apply sync_height_ok|]. destruct Hok as [Hok _]. destruct incoming as [h|h]; cbn [sync_height incoming_ok] in *.
  - destruct (observe_goal h (status s) Hok Hi) as (_ & Hg & Hsame). destruct (observe h (status s)) as [st []]; cbn in *; split.
    + rewrite Hg. unfold goal_observe. by case_decide.
    + intros t _. right. by rewrite orb_true_r.
    + by rewrite Hsame.
    + rewrite Hsame by done. by rewrite orb_false_r.
  - destruct (commit_goal h (status s) Hok Hi) as [_ Hg]. cbn [status notified]. rewrite Hg. split; [cbn; lia|].
    intros t Hx. by apply Ht, (goal_commit_target h).
Qed.
Lemma caught_up_arrive e n s : caught_up e n s → caught_up e n (let_heights_arrive s).
Proof.
  intros (Hok & Hn & Ht). pose proof Hok as [Hs Hsafe]. unfold let_heights_arrive. destruct (safe_arrivals (node s) Hsafe) as [Hi Hn'].
  destruct (arrivals (node s)) as [hs n']. cbn [fst snd] in *.
  assert (caught_up e n (MkSyncService (status s) (notified s) n')) as H0 by done. revert H0. generalize (MkSyncService (status s) (notified s) n').
  clear -Hi. induction Hi as [|h hs Hh _ IH]; intros s Hc; [done|]. cbn. apply IH. by apply caught_up_height.
Qed.
Lemma caught_up_execute e n b s s' :
  block_ok b → caught_up e n s → sync_execute_and_commit b s = (Some (Ok ()), s') → caught_up e (sealed_height (sealed_header b) + 1) s'.
Proof.
  intros Hb Hc Hx. pose proof (execute_one_ok b s Hb (proj1 Hc)) as Hok'. rewrite Hx in Hok'. revert Hx. destruct Hc as ([Hs Hsafe] & Hn & Ht).
  unfold sync_execute_and_commit. pose proof (safe_execute b (node s) Hb Hsafe) as Hsafe'. destruct (port_execute_and_commit b (node s)) as [r n']. cbn in Hsafe'.
  pose proof (caught_up_arrive e n (MkSyncService (status s) (notified s) n') (conj (conj Hs Hsafe') (conj Hn Ht))) as (Ha1 & Ha2 & Ha3).
  destruct r as [[[]|]|]; [|done..]. intros [= <-]. split; [done|]. cbn [status notified].
  destruct (commit_goal (sealed_height (sealed_header b)) (status (let_heights_arrive (MkSyncService (status s) (notified s) n'))) (proj1 Ha1)) as [_ ->];
    [by destruct Hb as [[_ ?] _]|]. split; [cbn; lia|]. intros t Hx. by apply Ha3, (goal_commit_target (sealed_height (sealed_header b))).
Qed.
Lemma caught_up_all e a n s s' :
  first ≤ a → 0 ≤ n → a + n ≤ last + 1 → caught_up e a s → execute_all (chain_blocks a n) s = Some s' → caught_up e (a + n) s'.
Proof.
  intros Ha Hn. revert a s Ha. pattern n. apply natlike_ind; [|clear n Hn|done].
  { intros a s Ha Hl Hc [= <-]. by rewrite Z.add_0_r. }
  intros n Hn IH a s Ha Hl Hc. unfold chain_blocks. rewrite seqZ_cons, fmap_cons by lia. cbn [execute_all].
  destruct (Hchain a ltac:(lia)) as [Hh Hb]. destruct (sync_execute_and_commit (chain a) s) as [[[[]|]|] s1] eqn:Hx; [|done..]. intros Hrest.
  replace (Z.pred (Z.succ n)) with n in Hrest by lia. replace (a + Z.succ n) with (Z.succ a + n) by lia. apply (IH (Z.succ a) s1); [lia..| |exact Hrest].
  pose proof (caught_up_execute e a _ _ _ Hb Hc Hx) as Hc'. rewrite Hh in Hc'. exact Hc'.
Qed.

Lemma scan_err_full batches : Forall (λ b : Batch SealedBlock, Z.of_nat (length (results b)) = r_len (range b)) batches → scan_err batches = batches.
Proof. induction 1 as [|b l Hb _ IH]; [done|]. cbn. unfold is_err. rewrite bool_decide_eq_false_2 by lia. by rewrite IH. Qed.

(** The session is not cut short, and no chunk reaches into the next. *)
Definition undisturbed (params : SyncConfig) (started delivered : nat) (cache : Cache) (range : RangeInclusive) : Prop :=
  ∀ chunks, get_chunks cache range (header_batch_size params) = Some chunks →
    consecutive (ri_start range) chunks ∧ (length chunks ≤ started)%nat ∧ (length chunks ≤ delivered)%nat.

Lemma honest_import params started delivered cache s range s1 :
  service_ok s → process_range (status s) = Some range → first ≤ ri_start range → ri_end range ≤ last → ri_end range < int_max u32 →
  in_range u32 (header_batch_size params) → header_batch_size params ≠ 0 → cache_of_chain cache → undisturbed params started delivered cache range →
  execute_all (chain_blocks (ri_start range) (ri_len range)) s = Some s1 →
  ∃ reports ops, let s' := let_heights_arrive s1 in
    import_inner params net started delivered cache s = Some (Ok (), reports, ops, s')
    ∧ ri_end range < next_needed (goal (status s')) ∧ (process_range (status s') ≠ None → notified s' = true).
Proof.
  intros Hs Hp Hf Hl Hmax Hz Hz0 Hcache Hun Hx. pose proof Hs as [Hst _].
  assert (0 ≤ ri_start range ≤ ri_end range ∧ goal (status s) = MkGoal (ri_start range) (Some (ri_end range))) as [Hr Hg].
  { destruct (status s) as [|r|]; [done| |done]. injection Hp as ->. destruct Hst as (H1 & _ & H3). split; [|done]. revert H1 H3. int_unfold. lia. }
  assert (ri_len range = ri_end range + 1 - ri_start range) as Hlen by (unfold ri_len; lia). rewrite Hlen in Hx.
  assert (0 < header_batch_size params) as Hpos by (revert Hz; int_unfold; lia).
  destruct (get_chunks_covered cache range (header_batch_size params) Hr Hmax Hpos) as (chunks & Hch & Hcov). destruct (Hun chunks Hch) as (Hcons & Hst1 & Hdel).
  destruct (fetched_chain cache (header_batch_size params) (ri_end range + 1) (ri_start range) (ri_end range + 1) chunks (λ i, i) Hcache Hf ltac:(lia) ltac:(lia) Hcov Hcons) as [Hfull Hjoin].
  set (batches := imap _ chunks) in *. rewrite <- Hjoin in Hx. destruct (execute_batches_all batches s s1 Hfull Hx) as (reports & ops & He).
  assert (caught_up (ri_end range) (ri_end range + 1) (let_heights_arrive s1)) as ([Hok' _] & Hnext & Hnot).
  { apply caught_up_arrive. replace (ri_end range + 1) with (ri_start range + (ri_end range + 1 - ri_start range)) by lia.
    apply (caught_up_all _ _ _ s); [lia..| |by rewrite <- Hjoin]. split; [done|]. rewrite Hg. cbn. split; [lia|]. intros t [= <-]. by left. }
  assert ((λ f, f.1.1) <$> take started (imap (get_block_batch net) chunks) = batches) as Hb.
  { rewrite take_ge by (by rewrite length_imap). unfold batches. by rewrite fmap_imap. }
  eexists _, _. cbn zeta. split; [|split; [lia|]].
  - unfold import_inner, launch_stream. rewrite Hp. unfold try_into. rewrite fit_ok by done. cbn [mbind option_bind]. rewrite decide_False by done.
    rewrite Hch. cbn [unwrap_or]. rewrite Hb, scan_err_full by done. rewrite take_ge by (by unfold batches; rewrite length_imap). rewrite He.
    cbn [mbind option_bind]. rewrite decide_False; [done|]. rewrite Hjoin, length_chain_blocks by lia. lia.
  - intros Hpr. destruct (status (let_heights_arrive s1)) as [|r|] eqn:Hst2; [done| |done].
    destruct (Hnot (ri_end r) eq_refl) as [Hle|]; [|done]. destruct Hok' as (_ & _ & Hle'). cbn in Hnext. lia.
Qed.

(** Where nothing is cached, no chunk reaches into the next. *)
Lemma covered_uncached cache max lim a c chunks :
  (∀ h, a ≤ h < lim → cache !! h = None) → Covered cache max lim a c chunks → consecutive a chunks ∧ Z.of_nat (length chunks) ≤ c - a.
Proof.
  intros Hnone Hcov. induction Hcov as [a|a b c hs chunks Hab Hd Hrest IH|a b c bs chunks Hab Hd Hrest IH|a m b c chunks Hm Hb Hl Hn Hs Hrest IH].
  - split; [done|cbn; lia].
  - destruct IH as [H1 H2]; [intros h Hh; apply Hnone; lia|]. split; [done|]. cbn [length]. lia.
  - destruct IH as [H1 H2]; [intros h Hh; apply Hnone; lia|]. split; [done|]. cbn [length]. lia.
  - assert (m = b) as ->.
    { destruct (decide (m = b)); [done|]. destruct (Hs ltac:(lia)) as [d Hd]. by rewrite Hnone in Hd by lia. }
    destruct IH as [H1 H2]; [intros h Hh; apply Hnone; lia|]. split; [done|]. cbn [length]. lia.
Qed.
Lemma undisturbed_uncached params started delivered cache range :
  0 ≤ ri_start range ≤ ri_end range → ri_end range < int_max u32 → 0 < header_batch_size params →
  (∀ h, ri_start range ≤ h ≤ ri_end range → cache !! h = None) → ri_len range ≤ Z.of_nat started → ri_len range ≤ Z.of_nat delivered →
  undisturbed params started delivered cache range.
Proof.
  intros Hr Hmax Hpos Hnone H1 H2 chunks Hch. destruct (get_chunks_covered cache range _ Hr Hmax Hpos) as (chunks' & Hch' & Hcov).
  rewrite Hch in Hch'. injection Hch' as <-. apply covered_uncached in Hcov as [Hcons Hlen]; [|intros h Hh; apply Hnone; lia].
  unfold ri_len in *. split_and!; [done|lia..].
Qed.
End honest.
End checked.
