(* ===== verification/SyncNode.v ===== *)
(** * Block synchronisation in a node

    The ports of [Sync.v] over the model of the importer and its verifier, as the
    adapters of [crates/fuel-core/src/service/adapters] connect them.  The
    importer does not look at signatures; that only signed blocks are imported
    rests on the checks of this service. *)
From stdpp Require Import strings.
From S2P Require Import Prelude FuelTypes BlockTypes ExecutorTypes MerklizedTable Importer ImporterFacts Sync SyncFacts.

Section node.
Context `{HH : Hashing} `{BT : BinaryMerkleTree} `{BL : !BinaryMerkleTreeLaws} `{VM : FuelVm}.
Context (recover_owner : list Z → Bytes32 → option Address) (config : ImporterConfig) (max : nat).

(** What happens around an execution: subscribers finish with results, heights
    arrive, and the service may be stopped, before the block is committed or
    after that. *)
Record Turn := MkTurn {
  turn_finished : nat;
  turn_heights : list IncomingHeight;
  turn_stopped : option bool
}.
Record SyncNode := MkSyncNode {
  sn_importer : Importer;
  sn_arrived : list IncomingHeight;
  sn_turns : list Turn
}.
Definition next_turn (n : SyncNode) : Turn * list Turn :=
  match sn_turns n with [] => (MkTurn 1 [] None, []) | turn :: turns => (turn, turns) end.

(** [BlockImporterAdapter::execute_and_commit], awaited while the service runs *)
Definition adapter_execute_and_commit (block : SealedBlock) (n : SyncNode) : option (result string unit) * SyncNode :=
  let '(turn, turns) := next_turn n in
  let '(r, im) := execute_and_commit config (turn_finished turn) block (sn_importer n) in
  match turn_stopped turn with
  | Some false => (None, MkSyncNode (sn_importer n) (turn_heights turn) turns)
  | Some true => (None, MkSyncNode im (turn_heights turn) turns)
  | None => (Some (map_err (λ _, "the block is not imported") r), MkSyncNode im (turn_heights turn) turns)
  end.
(** [ConsensusAdapter::check_sealed_header] *)
Definition adapter_check_sealed_header (header : SealedBlockHeader) : result string bool :=
  Ok (verify_consensus recover_owner (ic_verifier config) (sh_entity header) (sh_consensus header)).
#[export] Instance sync_node_ports : SyncPorts SyncNode := {|
  arrivals n := (sn_arrived n, MkSyncNode (sn_importer n) [] (sn_turns n));
  port_execute_and_commit := adapter_execute_and_commit
|}.

(** ** What is imported is signed *)
Context (Hvalid : validator_ok config).

(** The block is sealed with the key of its height, and its transactions are those
    of its header. *)
Definition signed (b : SealedBlock) : Prop :=
  (∃ signature, seal b = ConsensusPoA signature
     ∧ poa_verify_consensus recover_owner (vc_consensus (ic_verifier config)) (header (entity b)) signature = true)
  ∧ validate_transactions (header (entity b)) (transactions (entity b)) = true.
Definition turns_ok (turns : list Turn) : Prop := Forall (λ t, Forall incoming_ok (turn_heights t)) turns.
(** The chain is [bs] with signed blocks after it. *)
Definition signed_chain (bs : list SealedBlock) (n : SyncNode) : Prop :=
  bs ≠ [] ∧ (∃ new, Imported config max (sn_importer n) (bs ++ new) ∧ Forall signed new)
  ∧ Forall incoming_ok (sn_arrived n) ∧ turns_ok (sn_turns n).

Lemma next_turn_ok n : turns_ok (sn_turns n) → Forall incoming_ok (turn_heights (next_turn n).1) ∧ turns_ok (next_turn n).2.
Proof. unfold next_turn. destruct (sn_turns n); [done|]. intros Ht. by apply Forall_cons in Ht. Qed.

Lemma import_signed f bs new b im r im' :
  bs ≠ [] → Imported config max im (bs ++ new) → Forall signed new → block_ok adapter_check_sealed_header b →
  execute_and_commit config f b im = (r, im') → ∃ new', Imported config max im' (bs ++ new') ∧ Forall signed new'.
Proof.
  intros Hne HI Hs [[Hc Hr] Hv] Hx. pose proof (execute_and_commit_imported _ _ f b _ _ Hvalid Hr HI) as HI'. rewrite Hx in HI'.
  destruct (is_ok r) eqn:Hok; [|by exists new]. rewrite <- app_assoc in HI'. exists (new ++ [b]). split; [done|].
  apply Forall_app. split; [done|]. apply Forall_singleton. split; [|done].
  pose proof (im_genesis _ _ _ _ HI' (length (bs ++ new)) b) as Hg. rewrite app_assoc, lookup_app_r, Nat.sub_diag in Hg by done. specialize (Hg eq_refl).
  rewrite bool_decide_eq_false_2 in Hg by (rewrite length_app; destruct bs; [done|cbn; lia]).
  unfold adapter_check_sealed_header, verify_consensus in Hc. cbn in Hc. destruct (seal b) as [|sig]; [done|]. exists sig. split; [done|]. by injection Hc.
Qed.

Definition signed_ports (bs : list SealedBlock) : SafePorts adapter_check_sealed_header (N := SyncNode).
Proof.
  refine {| safe := signed_chain bs |}.
  - intros n (Hne & Hc & Ha & Ht). split; [done|]. by split_and!.
  - intros b n Hb (Hne & (new & HI & Hs) & Ha & Ht). destruct (next_turn_ok n Ht) as [Hth Hts]. cbn [port_execute_and_commit sync_node_ports].
    unfold adapter_execute_and_commit. destruct (next_turn n) as [turn turns]. cbn in Hth, Hts.
    destruct (execute_and_commit config (turn_finished turn) b (sn_importer n)) as [r im] eqn:Hx.
    pose proof (import_signed _ _ _ _ _ _ _ Hne HI Hs Hb Hx) as Hn. destruct (turn_stopped turn) as [[]|]; (split_and!; [done| |done..]); cbn; eauto.
Defined.


(** ** Catching up with honest peers *)
(** A peer that executed the blocks one after the other *)
Fixpoint import_all (finished : nat) (blocks : list SealedBlock) (im : Importer) : option Importer :=
  match blocks with
  | [] => Some im
  | b :: blocks => match execute_and_commit config finished b im with (Ok _, im) => import_all finished blocks im | _ => None end
  end.
(** Nobody else holds the importer, and subscribers keep up with it. *)
Definition importer_ready (im : Importer) : Prop :=
  guard_free im = true ∧ (in_progress im ≤ 1)%nat ∧ (1 ≤ active_import_results im + in_progress im)%nat.
Definition turn_quiet (t : Turn) : Prop := turn_stopped t = None ∧ (1 ≤ turn_finished t)%nat.

Lemma execute_same_database f f' b im im1 im' :
  execute_and_commit config f b im = (Ok (), im1) → database im' = database im → importer_ready im' → (1 ≤ f')%nat →
  ∃ im1', execute_and_commit config f' b im' = (Ok (), im1') ∧ database im1' = database im1 ∧ importer_ready im1'.
Proof.
  intros Hx Hdb (Hg & Hp & Ha) Hf. unfold execute_and_commit in *. rewrite Hg, Hdb. destruct (guard_free im); [|done].
  destruct (prepare_import_result config (database im) b) as [p|]; [|done]. apply commit_with_permit_database in Hx as [res Hx]. cbn [is_ok] in Hx.
  unfold commit_with_permit. change (database (finish_results f' im')) with (database im'). rewrite Hdb, Hx.
  destruct (active_import_results (finish_results f' im')) as [|permits] eqn:Hperm; [cbn in Hperm; lia|]. cbn in Hperm.
  eexists. split; [done|]. split; [by destruct (subscribed _)|]. unfold importer_ready. destruct (subscribed (finish_results f' im')); cbn; split_and!; (done || lia).
Qed.
Lemma next_turn_quiet n : Forall turn_quiet (sn_turns n) → turn_quiet (next_turn n).1 ∧ Forall turn_quiet (next_turn n).2.
Proof. unfold next_turn. destruct (sn_turns n); [by split|]. intros Ht. by apply Forall_cons in Ht. Qed.

Lemma let_heights_arrive_node (s : SyncService SyncNode) :
  node (let_heights_arrive s) = MkSyncNode (sn_importer (node s)) [] (sn_turns (node s)).
Proof.
  unfold let_heights_arrive. cbn [arrivals sync_node_ports]. generalize (sn_arrived (node s)).
  assert (∀ hs (s' : SyncService SyncNode), node (foldl sync_height s' hs) = node s') as Hfold.
  { induction hs as [|h hs IH]; intros s'; [done|]. cbn [foldl]. rewrite IH. destruct h; cbn [sync_height]; [by destruct (observe _ _)|done]. }
  intros hs. by rewrite Hfold.
Qed.

Lemma import_all_follows finished blocks im im1 s :
  import_all finished blocks im = Some im1 → database (sn_importer (node s)) = database im → importer_ready (sn_importer (node s)) →
  Forall turn_quiet (sn_turns (node s)) →
  ∃ s1, execute_all blocks s = Some s1 ∧ database (sn_importer (node s1)) = database im1.
Proof.
  revert im s. induction blocks as [|b blocks IH]; intros im s; cbn [import_all execute_all]; [intros [= <-]; by exists s|].
  destruct (execute_and_commit config finished b im) as [[[]|] im2] eqn:Hx; [|done]. intros Hrest Hdb Hready Hq.
  destruct (next_turn_quiet (node s) Hq) as [[Hq1 Hq2] Hq3].
  destruct (execute_same_database _ (turn_finished (next_turn (node s)).1) _ _ _ _ Hx Hdb Hready Hq2) as (im2' & Hx' & Hdb' & Hready').
  unfold sync_execute_and_commit. cbn [port_execute_and_commit sync_node_ports]. unfold adapter_execute_and_commit.
  destruct (next_turn (node s)) as [turn turns]. cbn [fst snd] in *. rewrite Hx', Hq1. cbn [map_err].
  pose proof (let_heights_arrive_node (MkSyncService (status s) (notified s) (MkSyncNode im2' (turn_heights turn) turns))) as Hn.
  set (s2 := let_heights_arrive _) in *. apply (IH im2); cbn [node]; rewrite ?Hn; done.
Qed.

(** C8 A node catches up with its peers.  When there is a range to process, a peer
    executed the blocks of the range on the database that the node has, they are
    sealed by the configured key, everyone who is asked answers with them, what
    the cache holds is of them, and no chunk of the range reaches into the next,
    then the import succeeds: afterwards the node has the database of the peer,
    every height of the range is committed, and if heights beyond it were observed
    meanwhile, the task is notified to go on with them. *)
Theorem honest_sync_catches_up params net started delivered cache s range chain bs finished peer peer' :
  process_range (status s) = Some range → status_ok (status s) → ri_end range < int_max u32 →
  in_range u32 (header_batch_size params) → header_batch_size params ≠ 0 →
  signed_chain bs (node s) → importer_ready (sn_importer (node s)) → Forall turn_quiet (sn_turns (node s)) →
  chain_ok adapter_check_sealed_header chain (ri_start range) (ri_end range) →
  database (sn_importer (node s)) = database peer →
  import_all finished (chain_blocks chain (ri_start range) (ri_len range)) peer = Some peer' →
  honest chain (ri_start range) (ri_end range) net → net_check_sealed_header net = adapter_check_sealed_header →
  cache_of_chain chain (ri_start range) (ri_end range) cache → undisturbed params started delivered cache range →
  ∃ reports ops s', import_inner params net started delivered cache s = Some (Ok (), reports, ops, s')
    ∧ database (sn_importer (node s')) = database peer'
    ∧ ri_end range < next_needed (goal (status s')) ∧ (process_range (status s') ≠ None → notified s' = true).
Proof.
  intros Hp Hst Hmax Hz Hz0 Hsafe Hready Hq Hchain Hdb Hpeer Hnet Hcheck Hcache Hun.
  destruct (import_all_follows _ _ _ _ s Hpeer Hdb Hready Hq) as (s1 & Hall & Hdb1).
  destruct (honest_import adapter_check_sealed_header (SP := signed_ports bs) chain _ _ net Hnet Hchain Hcheck params started delivered cache s range s1
    (conj Hst Hsafe) Hp ltac:(lia) ltac:(lia) Hmax Hz Hz0 Hcache Hun Hall) as (reports & ops & Hrun & Hnext & Hnot).
  exists reports, ops, (let_heights_arrive s1). rewrite let_heights_arrive_node. by split_and!.
Qed.
End node.
