(* ===== verification/SyncSamples.v ===== *)
(** * The synchronisation on concrete chains

    The theorems are applied to the node of [NodeSamples.v], which fetches the
    block that its peer imported; and a cache is shown with which a range of
    valid blocks from honest peers is not imported. *)
From stdpp Require Import strings.
From S2P Require Import Prelude FuelTypes BlockTypes ExecutorTypes Executor ExecutorSamples MerklizedTable Importer ImporterFacts UpgradableExecutor Producer ProducerFacts NodeSamples Sync SyncFacts SyncNode.

#[local] Existing Instance sample_hashing.
#[local] Existing Instance sample_vm.
#[local] Existing Instance sample_vm_laws.
#[local] Existing Instance MemoryStore_view.
#[local] Existing Instance sample_wasm.

(** ** The state *)
Lemma sync_state_refines_witness :
  let events := [ObserveEvent 20; CommitEvent 12; FailedEvent (MkRangeInclusive 15 20); ObserveEvent 14] in
  foldl state_step (State_new (Some 10) None) events = Processing (MkRangeInclusive 13 14)
  ∧ next_needed (goal (foldl state_step (State_new (Some 10) None) events)) = 13.
Proof.
  cbn zeta. split; [reflexivity|].
  refine (eq_trans (proj1 (proj2 (sync_state_refines (Some 10) None _ _ _ _))) _); [..|reflexivity].
  - intros h [= <-]. vm_compute. split; discriminate.
  - done.
  - repeat constructor; vm_compute; discriminate.
Defined.

(** ** Chunks *)
Definition empty_header (h : BlockHeight) : BlockHeader :=
  MkBlockHeader (MkApplicationHeader 7 1 1 (MkGeneratedApplicationFields 0 0 (generate_txns_root []) 0 0))
    (MkConsensusHeader 0 h 1000 (MkGeneratedConsensusFields 0)) None.
Definition empty_block (h : BlockHeight) : SealedBlock := MkSealedBlock (MkBlock (empty_header h) []) (ConsensusPoA [1]).
(** Two headers that an earlier session left *)
Definition left_over : Cache :=
  {[ 3 := DataHeader (sealed_header (empty_block 3)); 4 := DataHeader (sealed_header (empty_block 4)) ]}.

Lemma chunks_cover_witness :
  ∃ chunks, get_chunks left_over (MkRangeInclusive 1 8) 2 = Some chunks ∧ Covered left_over 2 9 1 9 chunks ∧ length chunks = 4%nat.
Proof.
  destruct (chunks_cover left_over (MkRangeInclusive 1 8) 2) as (chunks & H1 & H2).
  - cbn. lia.
  - vm_compute. reflexivity.
  - lia.
  - exists chunks. split; [exact H1|]. split; [exact H2|]. vm_compute in H1. injection H1 as <-. reflexivity.
Defined.

(** ** A node *)
Definition sample_recover (signature : list Z) (id : Bytes32) : option Address := if decide (signature = [1]) then Some 0 else None.
Definition network_chain (h : BlockHeight) : SealedBlock := sample_sealed.
Definition honest_network (chain : Z → SealedBlock) (check : SealedBlockHeader → result string bool) : SyncNetwork :=
  MkSyncNetwork
    (λ _ r, Ok (MkSourcePeer 3 (Some (sealed_header <$> chain_blocks chain (r_start r) (r_len r)))))
    (λ _ r, Ok (MkSourcePeer 4 (Some ((λ b, transactions (entity b)) <$> chain_blocks chain (r_start r) (r_len r)))))
    (λ _ source, Ok (Some ((λ b, transactions (entity b)) <$> chain_blocks chain (r_start (data source)) (r_len (data source)))))
    check.
Lemma honest_network_honest chain check first last : honest chain first last (honest_network chain check).
Proof. intros number [a b] _ _. cbn. split_and!; [by exists 3|by exists 4|done]. Qed.

Definition sample_check : SealedBlockHeader → result string bool := adapter_check_sealed_header sample_recover sample_config.
Definition sample_network : SyncNetwork := honest_network network_chain sample_check.
Definition sample_params_sync : SyncConfig := MkSyncConfig 10 100.
(** The height 6 is observed while the block 5 is executed. *)
Definition sync_node : SyncNode := MkSyncNode sample_importer [] [MkTurn 1 [ObservedHeight 6] None].
#[local] Existing Instance sync_node_ports.
Definition sync_start : SyncService SyncNode := MkSyncService (State_new (Some 4) None) false sync_node.
Definition sync_observed : SyncService SyncNode := sync_height sync_start (ObservedHeight 5).

Lemma sample_genesis_imported : Imported sample_config 1 sample_importer [sample_genesis].
Proof.
  split.
  - exact sample_chain.
  - repeat constructor; vm_compute; discriminate.
  - intros i b [-> <-]%list_lookup_singleton_Some. done.
  - cbn. apply sublist_nil_l.
  - done.
Qed.
Lemma network_chain_ok : chain_ok sample_check network_chain 5 5.
Proof.
  intros h Hh. assert (h = 5) as -> by lia. split; [vm_compute; reflexivity|]. split; [|vm_compute; reflexivity].
  split; [vm_compute; reflexivity|]. vm_compute. split; discriminate.
Qed.
Lemma sync_node_turns : turns_ok (sn_turns sync_node).
Proof. repeat constructor; vm_compute; discriminate. Qed.

(** What remains of a session: its outcome, the state and the notification *)
Definition session_summary (r : option (result RangeInclusive unit * Reports * list CacheOp * SyncService SyncNode))
    : option (result RangeInclusive unit * Status * bool) :=
  (λ r, (r.1.1.1, status r.2, notified r.2)) <$> r.
Definition sample_session : option (result RangeInclusive unit * Reports * list CacheOp * SyncService SyncNode) :=
  import_inner (P := sync_node_ports sample_config) sample_params_sync sample_network 1 1 ∅ sync_observed.
Lemma sample_session_summary : session_summary sample_session = Some (Ok (), Processing (MkRangeInclusive 6 6), true).
Proof. vm_compute. reflexivity. Qed.


Definition peer_import : option Importer := import_all sample_config 1 (chain_blocks network_chain 5 1) sample_importer.
Lemma honest_sync_catches_up_witness :
  ∃ reports ops s' peer', sample_session = Some (Ok (), reports, ops, s') ∧ peer_import = Some peer'
    ∧ database (sn_importer (node s')) = database peer' ∧ notified s' = true.
Proof.
  assert (match peer_import with Some _ => true | None => false end = true) as Hok by (vm_compute; reflexivity).
  destruct peer_import as [peer'|] eqn:Hpeer; [clear Hok|discriminate Hok].
  destruct (honest_sync_catches_up sample_recover sample_config 1 sample_validator_ok sample_params_sync sample_network 1 1 ∅ sync_observed
    (MkRangeInclusive 5 5) network_chain [sample_genesis] 1 sample_importer peer') as (reports & ops & s' & Hrun & Hdb & Hnext & Hnot).
  - reflexivity.
  - vm_compute. repeat split; discriminate.
  - vm_compute. reflexivity.
  - vm_compute. split; discriminate.
  - discriminate.
  - split; [discriminate|]. split; [exists []; split; [exact sample_genesis_imported|constructor]|]. split; [constructor|exact sync_node_turns].
  - split; [reflexivity|]. split; cbn; lia.
  - repeat constructor.
  - exact network_chain_ok.
  - reflexivity.
  - exact Hpeer.
  - apply honest_network_honest.
  - reflexivity.
  - intros h d _. by rewrite lookup_empty.
  - apply undisturbed_uncached; [cbn; lia|vm_compute; reflexivity|cbn; lia|intros h _; apply lookup_empty|vm_compute; discriminate|vm_compute; discriminate].
  - exists reports, ops, s', peer'. split; [exact Hrun|]. split; [reflexivity|]. split; [exact Hdb|].
    pose proof sample_session_summary as Hsum. fold sample_session in Hrun. rewrite Hrun in Hsum. cbn in Hsum. by injection Hsum.
Defined.

(** ** A cache that stops an honest import *)
(** A node that accepts exactly the block after its last *)
Definition counting_ports : SyncPorts Z := {|
  arrivals := λ n, ([], n);
  port_execute_and_commit := λ block n,
    if decide (sealed_height (sealed_header block) = n + 1) then (Some (Ok ()), n + 1) else (Some (Err "not the next block"), n)
|}.

(** The headers 3 and 4 are cached, the block 2 is not, and batches have two
    blocks: the gap at 2 is fetched as the batch of 2 and 3, and then the block 3
    comes again with the cached batch.  Its execution fails, although every peer
    is honest and the cache holds headers of the chain, and the range is given up
    at height 4. *)
Lemma cached_header_is_executed_twice :
  cache_of_chain empty_block 2 8 left_over ∧ honest empty_block 2 8 (honest_network empty_block (λ _, Ok true))
  ∧ (λ r, (r.1.1.1, status r.2, node r.2)) <$>
      import_inner (P := counting_ports) (MkSyncConfig 10 2) (honest_network empty_block (λ _, Ok true)) 10 10 left_over
        (MkSyncService (Processing (MkRangeInclusive 2 8)) false 1)
    = Some (Err (MkRangeInclusive 4 8), Committed 3, 3).
Proof.
  split_and!; [|apply honest_network_honest|vm_compute; reflexivity].
  unfold left_over. intros h d _ [[<- <-]|[_ [<- <-]%lookup_singleton_Some]]%lookup_insert_Some; by left.
Qed.
