(* ===== verification/PoA.v ===== *)
(** * The block production service

    [crates/services/consensus_module/poa/src/service.rs], [sync.rs] and
    [config.rs]: the task that follows whether the node is synchronised with its
    peers, and the main task that decides when a block is produced, at which
    height and time, and has it produced, sealed and committed.

    The services that the main task calls are the class [Ports], one method per
    method of the code's ports, over a state [N] of the rest of the node: time
    passes and other services go on while a method is awaited.  The timer of
    tokio is the class [TokioInterval].  An option is [None] where the code
    panics. *)
From stdpp Require Import strings.
From S2P Require Import Prelude FuelTypes BlockTypes ExecutorTypes Executor MerklizedTable Importer UpgradableExecutor Producer.

(** Nanoseconds, and seconds of TAI64 *)
Abbreviation Instant := Z (only parsing).
Abbreviation Duration := Z (only parsing).
Abbreviation Tai64 := Z (only parsing).
Definition as_secs (d : Duration) : Z := d / 1000000000.
Definition from_secs (s : Z) : Duration := s * 1000000000.

Definition header_height (h : BlockHeader) : BlockHeight := height (consensus h).
Definition header_time (h : BlockHeader) : Tai64 := time (consensus h).

(** ** Synchronisation with the peers *)
Inductive SyncState := NotSynced | SyncedAt (block_header : BlockHeader).
Definition same_state (a b : SyncState) : Prop :=
  match a, b with
  | NotSynced, NotSynced => True
  | SyncedAt a, SyncedAt b => header_eq a b
  | _, _ => False
  end.
#[export] Instance same_state_dec a b : Decision (same_state a b).
Proof. destruct a, b; apply _. Defined.

Definition SyncState_from_config (min_connected_reserved_peers : Z) (time_until_synced : Duration) (header : BlockHeader) : SyncState :=
  if decide (min_connected_reserved_peers = 0 ∧ time_until_synced = 0) then SyncedAt header else NotSynced.

Inductive InnerSyncState :=
| InsufficientPeers (block_header : BlockHeader)
| SufficientPeers (block_header : BlockHeader)
| InnerSynced (block_header : BlockHeader) (has_sufficient_peers : bool).

Definition InnerSyncState_from_config (min_connected_reserved_peers : Z) (time_until_synced : Duration) (block_header : BlockHeader)
    : InnerSyncState :=
  if decide (min_connected_reserved_peers = 0)
  then if decide (time_until_synced = 0) then InnerSynced block_header true else SufficientPeers block_header
  else InsufficientPeers block_header.

(** [tokio::time::Interval]: the first tick completes at once, and after a reset
    the next one completes a period later. *)
Class TokioInterval := {
  Interval : Type;
  interval : Instant → Duration → Interval;
  period : Interval → Duration;
  tick_ready : Interval → Instant → bool;
  tick : Interval → Instant → Interval;
  reset : Interval → Instant → Interval
}.
Class TokioIntervalLaws `{TI : TokioInterval} : Prop := {
  period_interval t p : period (interval t p) = p;
  period_tick x t : period (tick x t) = period x;
  period_reset x t : period (reset x t) = period x;
  first_tick_is_immediate t p : tick_ready (interval t p) t = true;
  tick_after_reset x t now : tick_ready (reset x t) now = true → t + period x ≤ now
}.

(** What the importer announces *)
Record BlockImportInfo := MkBlockImportInfo { bi_block_header : BlockHeader; bi_source : ImportSource }.
Definition is_locally_produced (info : BlockImportInfo) : bool :=
  match bi_source info with SourceLocal => true | SourceNetwork => false end.

Section sync.
Context `{TI : TokioInterval}.

(** [state] is the watched value and [version] counts its changes. *)
Record SyncTask := MkSyncTask {
  min_connected_reserved_peers : Z;
  state : SyncState;
  version : nat;
  inner_state : InnerSyncState;
  timer : option Interval
}.
Definition SyncTask_new (now : Instant) (min_connected_reserved_peers : Z) (time_until_synced : Duration) (block_header : BlockHeader)
    : SyncTask :=
  let inner_state := InnerSyncState_from_config min_connected_reserved_peers time_until_synced block_header in
  let timer := if decide (time_until_synced = 0) then None else Some (interval now time_until_synced) in
  let initial_sync_state := SyncState_from_config min_connected_reserved_peers time_until_synced block_header in
  MkSyncTask min_connected_reserved_peers initial_sync_state 0 inner_state timer.

Definition update_sync_state (new_state : SyncState) (self : SyncTask) : SyncTask :=
  if decide (same_state new_state (state self)) then self
  else MkSyncTask (min_connected_reserved_peers self) new_state (S (version self)) (inner_state self) (timer self).
Definition restart_timer (now : Instant) (self : SyncTask) : SyncTask :=
  MkSyncTask (min_connected_reserved_peers self) (state self) (version self) (inner_state self) ((λ x, reset x now) <$> timer self).
Definition with_inner (inner : InnerSyncState) (self : SyncTask) : SyncTask :=
  MkSyncTask (min_connected_reserved_peers self) (state self) (version self) inner (timer self).

(** The branches of the loop of the task *)
Definition on_peer_count (now : Instant) (latest_peer_count : Z) (self : SyncTask) : SyncTask :=
  let sufficient_peers := bool_decide (min_connected_reserved_peers self ≤ latest_peer_count) in
  match inner_state self with
  | InsufficientPeers block_header =>
      if sufficient_peers then restart_timer now (with_inner (SufficientPeers block_header) self) else self
  | SufficientPeers block_header =>
      if sufficient_peers then self else restart_timer now (with_inner (InsufficientPeers block_header) self)
  | InnerSynced block_header _ => with_inner (InnerSynced block_header sufficient_peers) self
  end.
Definition on_block (now : Instant) (block_info : BlockImportInfo) (self : SyncTask) : SyncTask :=
  let new_header := bi_block_header block_info in
  match inner_state self with
  | InsufficientPeers block_header =>
      if decide (header_height block_header < header_height new_header) then with_inner (InsufficientPeers new_header) self else self
  | SufficientPeers block_header =>
      if decide (header_height block_header < header_height new_header)
      then restart_timer now (with_inner (SufficientPeers new_header) self) else self
  | InnerSynced block_header has_sufficient_peers =>
      if decide (header_height block_header < header_height new_header) then
        if is_locally_produced block_info
        then update_sync_state (SyncedAt new_header) (with_inner (InnerSynced new_header has_sufficient_peers) self)
        else
          update_sync_state NotSynced
            (if has_sufficient_peers then restart_timer now (with_inner (SufficientPeers new_header) self)
             else with_inner (InsufficientPeers new_header) self)
      else self
  end.
Definition on_tick (now : Instant) (self : SyncTask) : SyncTask :=
  let self := MkSyncTask (min_connected_reserved_peers self) (state self) (version self) (inner_state self)
                ((λ x, tick x now) <$> timer self) in
  match inner_state self with
  | SufficientPeers block_header => update_sync_state (SyncedAt block_header) (with_inner (InnerSynced block_header true) self)
  | _ => self
  end.

Inductive SyncEvent := PeerCount (count : Z) | BlockImported (info : BlockImportInfo) | TimerTick.
(** A tick only occurs when the timer is ready. *)
Definition sync_enabled (now : Instant) (event : SyncEvent) (self : SyncTask) : bool :=
  match event with
  | TimerTick => match timer self with Some x => tick_ready x now | None => false end
  | _ => true
  end.
Definition sync_run (now : Instant) (event : SyncEvent) (self : SyncTask) : SyncTask :=
  match event with
  | PeerCount count => on_peer_count now count self
  | BlockImported info => on_block now info self
  | TimerTick => on_tick now self
  end.
End sync.

(** ** The main task *)
Inductive Trigger :=
| TriggerInstant
| TriggerNever
| TriggerInterval (block_time : Duration)
| TriggerOpen (period : Duration).

Inductive Mode := Blocks (number_of_blocks : nat) | BlockWithTransactions (txs : list Transaction).
Record ManualProduction := MkManualProduction { start_time : option Tai64; mode : Mode }.
Inductive RequestType := RequestManual | RequestTrigger.
Inductive ProductionSource := FromTxPool | SpecificTransactions (txs : list Transaction).

(** The errors of the other services *)
Inductive PortFailure :=
| FromProducer (e : ProducerError)
| FromImporter (e : ImporterError)
| FromSigner (e : string)
| FromPredefinedBlocks (e : string).
Inductive PoAError :=
| NoConsensusKey
| TimestampShouldIncrease
| ProductionTimedOut
| ManualWithOpenTrigger
| TimeOverflow
| TimeExceedsSystemLimits
| PortError (e : PortFailure).
Inductive NextAction := PoAContinue | PoAStop | PoAErrorContinue (e : PoAError).

(** [port_produce] is [produce_and_execute_block] awaited for at most the given
    timeout, [None] when that is over first. *)
Class Ports (N : Type) := {
  instant_now : N → Instant;
  clock_now : N → Tai64;
  port_is_available : N → bool;
  port_seal_block : Block Transaction → N → result PortFailure Consensus * N;
  port_produce : BlockHeight → Tai64 → ProductionSource → Instant → Duration → N → option (result PortFailure ExecutionResult) * N;
  port_produce_predefined : Block Transaction → N → result PortFailure ExecutionResult * N;
  port_commit_result : SealedBlock → ExecutionResult → N → result PortFailure unit * N;
  port_notify_skipped_txs : list (TxId * ExecutorError) → N → N;
  port_get_block : BlockHeight → N → result PortFailure (option (Block Transaction));
  sleep_until : Instant → N → N
}.

Record MainTask := MkMainTask {
  trigger : Trigger;
  production_timeout : Duration;
  last_height : BlockHeight;
  last_timestamp : Tai64;
  last_block_created : Instant
}.

Definition increase_time (time : Tai64) (duration : Duration) : result PoAError Tai64 :=
  ok_or (checked_add u64 time (as_secs duration)) TimeOverflow.

Section main.
(** [instant_ty] are the instants of the platform. *)
Context {N : Type} `{P : !Ports N} (instant_ty : int_ty).

Definition extract_block_info (now : Tai64) (instant : Instant) (last_block : BlockHeader) : BlockHeight * Tai64 * Instant :=
  let last_timestamp := header_time last_block in
  let duration_since_last_block := from_secs (saturating_sub u64 now last_timestamp) in
  let last_block_created := unwrap_or instant (checked_sub instant_ty instant duration_since_last_block) in
  (header_height last_block, last_timestamp, last_block_created).
Definition MainTask_new (trigger : Trigger) (production_timeout : Duration) (last_block : BlockHeader) (n : N) : MainTask :=
  let '(last_height, last_timestamp, last_block_created) := extract_block_info (clock_now n) (instant_now n) last_block in
  MkMainTask trigger production_timeout last_height last_timestamp last_block_created.
Definition into_task (self : MainTask) (n : N) : MainTask :=
  match trigger self with
  | TriggerNever | TriggerInstant => self
  | TriggerInterval _ | TriggerOpen _ =>
      MkMainTask (trigger self) (production_timeout self) (last_height self) (last_timestamp self) (instant_now n)
  end.

Definition poa_next_height (self : MainTask) : option BlockHeight := height_succ (last_height self).

Definition next_time_manual (self : MainTask) (n : N) : result PoAError Tai64 :=
  match trigger self with
  | TriggerNever | TriggerInstant => increase_time (last_timestamp self) (Z.max 0 (instant_now n - last_block_created self))
  | TriggerInterval block_time => increase_time (last_timestamp self) block_time
  | TriggerOpen period => increase_time (last_timestamp self) period
  end.
Definition next_time (request_type : RequestType) (self : MainTask) (n : N) : result PoAError Tai64 :=
  match request_type with
  | RequestManual => next_time_manual self n
  | RequestTrigger =>
      let now := clock_now n in
      if decide (last_timestamp self < now) then Ok now else next_time_manual self n
  end.

Definition signal_produce_block (height : BlockHeight) (block_time : Tai64) (source : ProductionSource) (deadline : Instant)
    (self : MainTask) (n : N) : result PoAError ExecutionResult * N :=
  match port_produce height block_time source deadline (production_timeout self) n with
  | (None, n) => (Err ProductionTimedOut, n)
  | (Some (Err e), n) => (Err (PortError e), n)
  | (Some (Ok result), n) => (Ok result, sleep_until deadline n)
  end.

(** Sealing a block and committing it, at the end of both productions. *)
Definition seal_and_commit (result : ExecutionResult) (n : N) : Prelude.result PoAError unit * N :=
  match port_seal_block (res_block result) n with
  | (Err e, n) => (Err (PortError e), n)
  | (Ok seal, n) =>
      let '(r, n) := port_commit_result (MkSealedBlock (res_block result) seal) result n in
      (map_err PortError r, n)
  end.
Definition with_last_block (height : BlockHeight) (timestamp : Tai64) (created : Instant) (self : MainTask) : MainTask :=
  MkMainTask (trigger self) (production_timeout self) height timestamp created.

Definition poa_produce_block (height : BlockHeight) (block_time : Tai64) (source : ProductionSource) (deadline : Instant)
    : ST (MainTask * N) PoAError unit := λ '(self, n),
  let last_block_created := instant_now n in
  if port_is_available n then
    if decide (block_time < last_timestamp self) then (Err TimestampShouldIncrease, (self, n))
    else
      match signal_produce_block height block_time source deadline self n with
      | (Err e, n) => (Err e, (self, n))
      | (Ok result, n) =>
          let n := if decide (res_skipped_transactions result = []) then n
                   else port_notify_skipped_txs (res_skipped_transactions result) n in
          match seal_and_commit result n with
          | (Err e, n) => (Err e, (self, n))
          | (Ok _, n) => (Ok (), (with_last_block height block_time last_block_created self, n))
          end
      end
  else (Err NoConsensusKey, (self, n)).
Definition produce_predefined_block (predefined_block : Block Transaction) : ST (MainTask * N) PoAError unit := λ '(self, n),
  let last_block_created := instant_now n in
  if port_is_available n then
    match port_produce_predefined predefined_block n with
    | (Err e, n) => (Err (PortError e), (self, n))
    | (Ok result, n) =>
        match seal_and_commit result n with
        | (Err e, n) => (Err e, (self, n))
        | (Ok _, n) =>
            let h := header (res_block result) in
            (Ok (), (with_last_block (header_height h) (header_time h) last_block_created self, n))
        end
    end
  else (Err NoConsensusKey, (self, n)).

(** The rest of a manual production of several blocks; [expect] of the next
    height is [None]. *)
Fixpoint produce_blocks (number_of_blocks : nat) (block_time : Tai64) (s : MainTask * N) : option (result PoAError unit * (MainTask * N)) :=
  match number_of_blocks with
  | O => Some (Ok (), s)
  | S number_of_blocks =>
      height ← poa_next_height s.1;
      match poa_produce_block height block_time FromTxPool (instant_now s.2) s with
      | (Err e, s) => Some (Err e, s)
      | (Ok _, s) =>
          match next_time RequestManual s.1 s.2 with
          | Err e => Some (Err e, s)
          | Ok block_time => produce_blocks number_of_blocks block_time s
          end
      end
  end.
Definition produce_manual_blocks (block_production : ManualProduction) (s : MainTask * N)
    : option (result PoAError unit * (MainTask * N)) :=
  match trigger s.1 with
  | TriggerOpen _ => Some (Err ManualWithOpenTrigger, s)
  | _ =>
      match (match start_time block_production with Some time => Ok time | None => next_time RequestManual s.1 s.2 end) with
      | Err e => Some (Err e, s)
      | Ok block_time =>
          match mode block_production with
          | Blocks number_of_blocks => produce_blocks number_of_blocks block_time s
          | BlockWithTransactions txs =>
              height ← poa_next_height s.1;
              Some (poa_produce_block height block_time (SpecificTransactions txs) (instant_now s.2) s)
          end
      end
  end.
Definition produce_next_block (deadline : Instant) (s : MainTask * N) : option (result PoAError unit * (MainTask * N)) :=
  height ← poa_next_height s.1;
  match next_time RequestTrigger s.1 s.2 with
  | Err e => Some (Err e, s)
  | Ok block_time => Some (poa_produce_block height block_time FromTxPool deadline s)
  end.

Definition update_last_block_values (block_header : BlockHeader) (s : MainTask * N) : MainTask * N :=
  let '(self, n) := s in
  let '(height, timestamp, created) := extract_block_info (clock_now n) (instant_now n) block_header in
  if decide (last_height self < height) then (with_last_block height timestamp created self, n) else s.
(** [sync_state] is the watched state, and [changed] the one it changed to if the
    task had to wait for that, [None] when the service is stopped meanwhile. *)
Definition ensure_synced (sync_state : SyncState) (changed : option SyncState) (s : MainTask * N) : option NextAction * (MainTask * N) :=
  let update state := match state with SyncedAt block_header => update_last_block_values block_header s | NotSynced => s end in
  match sync_state with
  | NotSynced => match changed with Some state => (None, update state) | None => (Some PoAStop, s) end
  | SyncedAt _ => (None, update sync_state)
  end.

Definition next_action (r : result PoAError unit) : NextAction :=
  match r with Ok _ => PoAContinue | Err e => PoAErrorContinue e end.
Definition maybe_produce_predefined_block (s : MainTask * N) : option (option NextAction * (MainTask * N)) :=
  poa_next_height ← poa_next_height s.1;
  match port_get_block poa_next_height s.2 with
  | Err e => Some (Some (PoAErrorContinue (PortError e)), s)
  | Ok (Some block) => let '(r, s) := produce_predefined_block block s in Some (Some (next_action r), s)
  | Ok None => Some (None, s)
  end.

(** The answer to a request is part of the result. *)
Definition handle_requested_production (request : option ManualProduction) (s : MainTask * N)
    : option (NextAction * option (result PoAError unit) * (MainTask * N)) :=
  match request with
  | Some block_production =>
      '(r, s) ← produce_manual_blocks block_production s;
      Some (PoAContinue, Some r, s)
  | None => Some (PoAStop, None, s)
  end.
(** After an error the task sleeps for a second. *)
Definition handle_normal_block_production (deadline : Instant) (s : MainTask * N) : option (NextAction * (MainTask * N)) :=
  '(r, s) ← produce_next_block deadline s;
  match r with
  | Ok _ => Some (PoAContinue, s)
  | Err e => Some (PoAErrorContinue e, (s.1, sleep_until (instant_now s.2 + from_secs 1) s.2))
  end.

(** What ends the final wait of [run_task]; with [TriggerNever] it is not a trigger. *)
Inductive Wake := WakeStop | WakeRequest (request : option ManualProduction) | WakeTrigger.
(** The deadline of the next production and the time when it starts *)
Definition next_block_production (s : MainTask * N) : result PoAError (option (Instant * N)) :=
  let '(self, n) := s in
  match trigger self with
  | TriggerNever => Ok None
  | TriggerInstant => Ok (Some (instant_now n, n))
  | TriggerInterval block_time =>
      next_block_time ← ok_or (checked_add instant_ty (last_block_created self) block_time) TimeExceedsSystemLimits;
      let n := sleep_until next_block_time n in Ok (Some (instant_now n, n))
  | TriggerOpen period =>
      deadline ← ok_or (checked_add instant_ty (last_block_created self) period) TimeExceedsSystemLimits;
      Ok (Some (deadline, n))
  end.
Definition run_task (ready : bool) (sync_state : SyncState) (changed : option SyncState) (wake : Wake) (s : MainTask * N)
    : option (NextAction * (MainTask * N)) :=
  if ready then
    match ensure_synced sync_state changed s with
    | (Some action, s) => Some (action, s)
    | (None, s) =>
        '(action, s) ← maybe_produce_predefined_block s;
        match action with
        | Some action => Some (action, s)
        | None =>
            match next_block_production s with
            | Err e => Some (PoAErrorContinue e, s)
            | Ok next =>
                match wake, next with
                | WakeStop, _ | WakeTrigger, None => Some (PoAStop, s)
                | WakeRequest request, _ =>
                    '(action, _, s) ← handle_requested_production request s; Some (action, s)
                | WakeTrigger, Some (deadline, n) => handle_normal_block_production deadline (s.1, n)
                end
            end
        end
    end
  else Some (PoAStop, s).
End main.
