(* ===== verification/PoAFacts.v ===== *)
(** * What the block production service promises

    The node counts as synchronised only after a quiet period with enough peers,
    and the blocks that the main task commits extend the chain at consecutive
    heights and with times that do not decrease, whatever the other services
    import meanwhile. *)
From stdpp Require Import strings.
From S2P Require Import Prelude FuelTypes BlockTypes ExecutorTypes Executor MerklizedTable Importer UpgradableExecutor Producer PoA.

(** ** The task that follows the synchronisation *)
Section sync.
Context `{TIL : TokioIntervalLaws}.

Definition inner_header (inner : InnerSyncState) : BlockHeader :=
  match inner with InsufficientPeers h | SufficientPeers h | InnerSynced h _ => h end.
Definition seen_header (e : Instant * SyncEvent) : option BlockHeader :=
  match e.2 with BlockImported info => Some (bi_block_header info) | _ => None end.

Context (start : Instant) (min_peers : Z) (time_until_synced : Duration) (first : BlockHeader).
(** The events that the task has handled, and its state *)
Inductive sync_reach : list (Instant * SyncEvent) → SyncTask → Prop :=
| sync_start : sync_reach [] (SyncTask_new start min_peers time_until_synced first)
| sync_step events self now event :
    sync_reach events self → sync_enabled now event self = true → sync_reach (events ++ [(now, event)]) (sync_run now event self).

Definition seen (events : list (Instant * SyncEvent)) : list BlockHeader := first :: omap seen_header events.
(** Nothing that speaks against being synchronised at [h] *)
Definition quiet (h : BlockHeader) (e : Instant * SyncEvent) : Prop :=
  match e.2 with
  | PeerCount count => min_peers ≤ count
  | BlockImported info => header_height (bi_block_header info) ≤ header_height h
  | TimerTick => True
  end.
Definition state_of (inner : InnerSyncState) : SyncState :=
  match inner with InnerSynced h _ => SyncedAt h | _ => NotSynced end.

Record SyncInv (events : list (Instant * SyncEvent)) (self : SyncTask) : Prop := {
  si_min : min_connected_reserved_peers self = min_peers;
  si_state : state self = state_of (inner_state self);
  si_seen : inner_header (inner_state self) ∈ seen events;
  si_highest : Forall (λ h, header_height h ≤ header_height (inner_header (inner_state self))) (seen events);
  si_timer : if decide (time_until_synced = 0) then timer self = None else ∃ x, timer self = Some x ∧ period x = time_until_synced;
  si_quiet h x : min_peers ≠ 0 → inner_state self = SufficientPeers h → timer self = Some x →
    ∃ before t0 e after x0, events = before ++ (t0, e) :: after ∧ x = reset x0 t0 ∧ Forall (quiet h) after
}.

Lemma seen_snoc events e : seen (events ++ [e]) = seen events ++ option_list (seen_header e).
Proof. unfold seen. rewrite omap_app. cbn. by destruct (seen_header e). Qed.
Lemma quiet_snoc h events before t0 e after x x0 now event :
  events = before ++ (t0, e) :: after ∧ x = reset x0 t0 ∧ Forall (quiet h) after → quiet h (now, event) →
  ∃ before t0 e after x0, events ++ [(now, event)] = before ++ (t0, e) :: after ∧ x = reset x0 t0 ∧ Forall (quiet h) after.
Proof.
  intros (-> & -> & Hq) Hn. exists before, t0, e, (after ++ [(now, event)]), x0. rewrite <- app_assoc. split_and!; [done..|].
  apply Forall_app. by repeat constructor.
Qed.
Lemma quiet_restart h events now event x :
  ∃ before t0 e after x0, events ++ [(now, event)] = before ++ (t0, e) :: after ∧ reset x now = reset x0 t0 ∧ Forall (quiet h) after.
Proof. by exists events, now, event, [], x. Qed.

Lemma timer_restarted (o : option Interval) now :
  (if decide (time_until_synced = 0) then o = None else ∃ x, o = Some x ∧ period x = time_until_synced) →
  if decide (time_until_synced = 0) then (λ x, reset x now) <$> o = None
  else ∃ x, (λ x, reset x now) <$> o = Some x ∧ period x = time_until_synced.
Proof. case_decide; [by intros ->|]. intros (x & -> & Hp). eexists. split; [done|]. by rewrite period_reset. Qed.

Lemma sync_new_inv : SyncInv [] (SyncTask_new start min_peers time_until_synced first).
Proof.
  unfold SyncTask_new, InnerSyncState_from_config, SyncState_from_config. split; cbn [min_connected_reserved_peers state inner_state timer].
  - done.
  - repeat case_decide; naive_solver.
  - repeat case_decide; left.
  - repeat case_decide; (constructor; [cbn; lia|constructor]).
  - case_decide; [done|]. eexists. split; [done|]. apply period_interval.
  - intros h x Hm. by rewrite decide_False.
Qed.

Lemma peer_count_inv events self now count :
  SyncInv events self → SyncInv (events ++ [(now, PeerCount count)]) (on_peer_count now count self).
Proof.
  intros [Hm Hs Hseen Hhi Ht Hq]. unfold on_peer_count.
  assert (∀ inner, inner_header inner = inner_header (inner_state self) →
    inner_header inner ∈ seen (events ++ [(now, PeerCount count)])
    ∧ Forall (λ h, header_height h ≤ header_height (inner_header inner)) (seen (events ++ [(now, PeerCount count)]))) as Hkeep.
  { intros inner ->. rewrite seen_snoc. cbn. by rewrite app_nil_r. }
  destruct (inner_state self) as [h|h|h b] eqn:Hin.
  - case_bool_decide as Hp; split; cbn [min_connected_reserved_peers state inner_state timer restart_timer with_inner]; rewrite ?Hin; try done; try by apply Hkeep.
    + by apply timer_restarted.
    + intros h' x _ [= <-]. destruct (timer self) as [x0|]; [|done]. cbn. intros [= <-]. apply quiet_restart.
  - case_bool_decide as Hp; split; cbn [min_connected_reserved_peers state inner_state timer restart_timer with_inner]; rewrite ?Hin; try done; try by apply Hkeep.
    + intros h' x Hne [= <-] Hx. destruct (Hq h x Hne eq_refl Hx) as (before & t0 & e & after & x0 & H). eapply quiet_snoc; [exact H|]. cbn. congruence.
    + by apply timer_restarted.
  - split; cbn [min_connected_reserved_peers state inner_state timer with_inner]; try done; by apply Hkeep.
Qed.

Lemma updated_state new_state self : state (update_sync_state new_state self) = new_state ∨ same_state new_state (state self).
Proof. unfold update_sync_state. case_decide; [by right|by left]. Qed.
Lemma update_rest new_state self :
  min_connected_reserved_peers (update_sync_state new_state self) = min_connected_reserved_peers self
  ∧ inner_state (update_sync_state new_state self) = inner_state self ∧ timer (update_sync_state new_state self) = timer self.
Proof. unfold update_sync_state. by case_decide. Qed.

Lemma tick_inv events self now :
  SyncInv events self → SyncInv (events ++ [(now, TimerTick)]) (on_tick now self).
Proof.
  intros [Hm Hs Hseen Hhi Ht Hq]. unfold on_tick.
  assert (if decide (time_until_synced = 0) then (λ x, tick x now) <$> timer self = None
    else ∃ x, (λ x, tick x now) <$> timer self = Some x ∧ period x = time_until_synced) as Ht'.
  { revert Ht. case_decide; [by intros ->|]. intros (x & -> & Hp). eexists. split; [done|]. by rewrite period_tick. }
  cbn [inner_state]. destruct (inner_state self) as [h|h|h b] eqn:Hin.
  2: { set (self1 := with_inner _ _). destruct (updated_state (SyncedAt h) self1) as [Hst|Hst]; [|cbn in Hst; by rewrite Hs in Hst].
       destruct (update_rest (SyncedAt h) self1) as (H1 & H2 & H3).
       split; rewrite ?H1, ?H2, ?H3; cbn [self1 with_inner inner_state timer min_connected_reserved_peers inner_header state_of]; try done;
         rewrite ?seen_snoc; cbn; rewrite ?app_nil_r; done. }
  all: split; cbn [inner_state timer min_connected_reserved_peers state]; rewrite ?Hin; try done; rewrite ?seen_snoc; cbn; rewrite ?app_nil_r; done.
Qed.

Lemma seen_block events self now info :
  SyncInv events self →
  let h := inner_header (inner_state self) in let new := bi_block_header info in
  let events' := events ++ [(now, BlockImported info)] in
  let best := if decide (header_height h < header_height new) then new else h in
  best ∈ seen events' ∧ Forall (λ h, header_height h ≤ header_height best) (seen events').
Proof.
  intros [_ _ Hseen Hhi _ _] h new events' best. unfold events'. rewrite seen_snoc. cbn [seen_header snd option_list].
  unfold best. case_decide as Hlt.
  - split; [apply elem_of_app; right; left|]. apply Forall_app. split; [|by repeat constructor].
    eapply Forall_impl; [exact Hhi|]. intros h' Hh'. cbn in *. fold h in Hh'. lia.
  - split; [by apply elem_of_app; left|]. apply Forall_app. split; [done|]. constructor; [fold new; lia|constructor].
Qed.
Lemma imported_block_inv events self now info :
  SyncInv events self → SyncInv (events ++ [(now, BlockImported info)]) (on_block now info self).
Proof.
  intros HI. destruct (seen_block events self now info HI) as [Hs1 Hs2]. destruct HI as [Hm Hs Hseen Hhi Ht Hq]. unfold on_block.
  destruct (inner_state self) as [h|h|h b] eqn:Hin; cbn [inner_header] in *; destruct (decide (header_height h < _)) as [Hlt|Hge].
  - split; cbn [with_inner inner_state timer state min_connected_reserved_peers inner_header]; done.
  - split; rewrite ?Hin; done.
  - split; cbn [with_inner restart_timer inner_state timer state min_connected_reserved_peers inner_header]; try done; [by apply timer_restarted|].
    intros h' x _ [= <-]. destruct (timer self) as [x0|]; [|done]. cbn. intros [= <-]. apply quiet_restart.
  - split; rewrite ?Hin; try done. intros h' x Hne [= <-] Hx. destruct (Hq h x Hne eq_refl Hx) as (before & t0 & e & after & x0 & H).
    eapply quiet_snoc; [exact H|]. cbn. lia.
  - set (new := bi_block_header info) in *. destruct (is_locally_produced info).
    + set (self1 := with_inner _ _). destruct (updated_state (SyncedAt new) self1) as [Hst|Hst].
      2: { cbn in Hst. rewrite Hs in Hst. destruct Hst as [_ Hc]. unfold header_height in Hlt. rewrite Hc in Hlt. lia. }
      destruct (update_rest (SyncedAt new) self1) as (H1 & H2 & H3). by split; rewrite ?H1, ?H2, ?H3.
    + set (self1 := if b then _ else _). destruct (updated_state NotSynced self1) as [Hst|Hst].
      2: { assert (state self1 = state self) as He by (by unfold self1; destruct b). rewrite He, Hs in Hst. done. }
      destruct (update_rest NotSynced self1) as (H1 & H2 & H3).
      split; rewrite ?H1, ?H2, ?H3, ?Hst; unfold self1; destruct b; cbn [with_inner restart_timer inner_state timer min_connected_reserved_peers inner_header]; try done.
      * by apply timer_restarted.
      * intros h' x _ [= <-]. destruct (timer self) as [x0|]; [|done]. cbn. intros [= <-]. apply quiet_restart.
  - split; rewrite ?Hin; done.
Qed.
Lemma sync_inv events self : sync_reach events self → SyncInv events self.
Proof.
  induction 1 as [|events self now event _ IH _]; [apply sync_new_inv|].
  destruct event; cbn [sync_run]; [by apply peer_count_inv|by apply imported_block_inv|by apply tick_inv].
Qed.

Lemma synced_by_tick events self now event h :
  sync_reach events self → sync_enabled now event self = true → state self = NotSynced → state (sync_run now event self) = SyncedAt h →
  event = TimerTick ∧ (min_peers ≠ 0 → ∃ before t0 e after,
    events = before ++ (t0, e) :: after ∧ t0 + time_until_synced ≤ now ∧ Forall (quiet h) after).
Proof.
  intros Hr He Hn Hy. rewrite (si_state _ _ (sync_inv _ _ (sync_step _ _ _ _ Hr He))) in Hy. destruct (sync_inv _ _ Hr) as [Hm Hs _ _ Ht Hq].
  rewrite Hs in Hn. destruct event as [count|info|]; cbn [sync_run] in Hy.
  - exfalso. revert Hy. unfold on_peer_count. destruct (inner_state self) as [h0|h0|h0 b] eqn:Hin; [..|by rewrite ?Hin in Hn]; case_bool_decide; cbn; rewrite ?Hin; done.
  - exfalso. revert Hy. unfold on_block. destruct (inner_state self) as [h0|h0|h0 b] eqn:Hin; [..|by rewrite ?Hin in Hn]; destruct (decide (header_height _ < _)); cbn; rewrite ?Hin; done.
  - split; [done|]. intros Hne. unfold on_tick in Hy. cbn [inner_state] in Hy.
    destruct (inner_state self) as [h0|h0|h0 b] eqn:Hin; [by cbn in Hy; rewrite ?Hin in Hy| |by rewrite ?Hin in Hn].
    rewrite (proj1 (proj2 (update_rest _ _))) in Hy. injection Hy as <-. cbn in He. destruct (timer self) as [x|] eqn:Hx; [|done].
    destruct (Hq h0 x Hne eq_refl eq_refl) as (before & t0 & e & after & x0 & Hev & -> & Hquiet). exists before, t0, e, after.
    split_and!; [done| |done]. apply tick_after_reset in He. destruct (decide (time_until_synced = 0)); [done|].
    destruct Ht as (x1 & [= <-] & Hp). rewrite period_reset in Hp. lia.
Qed.

(** The task knows when the node is synchronised.  The state that it
    announces is that of its state machine, at the highest block it has seen.  It
    turns to synchronised only by a tick of the timer and, when reserved peers are
    required, only after a quiet period: since an event at least the configured
    time ago the peers sufficed and no higher block was imported.  It turns back only because of a higher block
    from the network. *)
Theorem synced_after_quiet_period events self now event :
  sync_reach events self → sync_enabled now event self = true →
  let self' := sync_run now event self in
  (state self' = state_of (inner_state self') ∧ inner_header (inner_state self') ∈ seen (events ++ [(now, event)])
   ∧ Forall (λ h, header_height h ≤ header_height (inner_header (inner_state self'))) (seen (events ++ [(now, event)])))
  ∧ (∀ h, state self = NotSynced → state self' = SyncedAt h →
       event = TimerTick ∧ (min_peers ≠ 0 → ∃ before t0 e after,
         events = before ++ (t0, e) :: after ∧ t0 + time_until_synced ≤ now ∧ Forall (quiet h) after))
  ∧ (∀ h, state self = SyncedAt h → state self' = NotSynced →
       ∃ info, event = BlockImported info ∧ bi_source info = SourceNetwork ∧ header_height h < header_height (bi_block_header info)).
Proof.
  intros Hr He self'. pose proof (sync_inv _ _ Hr) as HI. assert (SyncInv (events ++ [(now, event)]) self') as HI' by (by apply sync_inv, sync_step).
  split; [by destruct HI'|]. pose proof (si_state _ _ HI') as Hs'. destruct HI as [Hm Hs _ _ Ht Hq]. split.
  - intros h Hn Hy. by apply (synced_by_tick events self).
  - intros h Hy Hn. rewrite Hs' in Hn. rewrite Hs in Hy. unfold self' in Hn. destruct (inner_state self) as [h0|h0|h0 b] eqn:Hin; [done..|]. injection Hy as ->.
    destruct event as [count|info|]; cbn [sync_run] in Hn.
    + unfold on_peer_count in Hn. rewrite Hin in Hn. done.
    + exists info. unfold on_block in Hn. rewrite Hin in Hn. destruct (decide (header_height _ < _)) as [Hlt|]; [|by rewrite Hin in Hn]. unfold is_locally_produced in Hn.
      destruct (bi_source info); [done|]. rewrite (proj1 (proj2 (update_rest _ _))) in Hn. done.
    + unfold on_tick in Hn. cbn [inner_state] in Hn. rewrite ?Hin in Hn. cbn in Hn. by rewrite ?Hin in Hn.
Qed.

(** Without a waiting time a node that requires reserved peers is never
    synchronised: there is no timer, and only its ticks lead there.  So the node
    never produces a block, however many peers it has. *)
Theorem never_synced_without_timer events self :
  time_until_synced = 0 → min_peers ≠ 0 → sync_reach events self → state self = NotSynced.
Proof.
  intros H0 Hm Hr. assert (state self = NotSynced ∧ SyncInv events self) as [? _]; [|done].
  induction Hr as [|events self now event Hr [IH HI] He].
  - split; [|apply sync_new_inv]. cbn. unfold SyncState_from_config. rewrite decide_False; [done|]. by intros [? _].
  - split; [|by apply sync_inv, sync_step]. destruct (state (sync_run now event self)) as [|h] eqn:Hs; [done|].
    destruct (synced_by_tick events self now event h) as [-> _]; [done..|]. cbn in He.
    pose proof (si_timer _ _ HI) as Ht. rewrite decide_True in Ht by done. by rewrite Ht in He.
Qed.

(** When no peers are required, the first tick of the timer counts as the end of
    the waiting time, although it completes at once. *)
Lemma synced_by_first_tick :
  min_peers = 0 → time_until_synced ≠ 0 →
  let self := SyncTask_new start min_peers time_until_synced first in
  state self = NotSynced ∧ sync_enabled start TimerTick self = true ∧ state (sync_run start TimerTick self) = SyncedAt first.
Proof.
  intros Hm Ht self. unfold self, SyncTask_new, SyncState_from_config, InnerSyncState_from_config.
  rewrite !(decide_False (P := time_until_synced = 0)), decide_False, decide_True by naive_solver. cbn. split_and!; [done|apply first_tick_is_immediate|].
  unfold on_tick, update_sync_state. cbn. done.
Qed.
End sync.

(** ** The chain behind the ports *)
Abbreviation HeaderEntry := (BlockHeight * Tai64)%type (only parsing).
Definition header_entry (h : BlockHeader) : HeaderEntry := (header_height h, header_time h).
Section entries.
(** [times] says whether the times of blocks are looked at, beside the heights. *)
Context (times : Prop).
Definition linked_entries (p q : HeaderEntry) : Prop := q.1 = p.1 + 1 ∧ (times → p.2 ≤ q.2).
Definition valid_chain (c : list HeaderEntry) : Prop := ∀ i p q, c !! i = Some p → c !! S i = Some q → linked_entries p q.

Lemma valid_chain_height c i p q j :
  valid_chain c → c !! i = Some p → c !! j = Some q → q.1 - p.1 = Z.of_nat j - Z.of_nat i.
Proof.
  intros Hv. assert (∀ k i p q, c !! i = Some p → c !! (i + k)%nat = Some q → q.1 = p.1 + Z.of_nat k) as Hk.
  { induction k as [|k IH]; intros i0 p0 q0 Hp Hq; [rewrite Nat.add_0_r in Hq; assert (p0 = q0) as -> by congruence; lia|].
    destruct (lookup_lt_is_Some_2 c (i0 + k)) as [m Hm]; [apply lookup_lt_Some in Hq; lia|].
    rewrite Nat.add_succ_r in Hq. destruct (Hv _ _ _ Hm Hq) as [-> _]. rewrite (IH _ _ _ Hp Hm). lia. }
  intros Hi Hj. destruct (le_lt_dec i j) as [Hle|Hlt].
  - assert (i + (j - i) = j)%nat as He by lia. pose proof (Hk (j - i)%nat i p q Hi) as H. rewrite He in H. specialize (H Hj). lia.
  - assert (j + (i - j) = i)%nat as He by lia. pose proof (Hk (i - j)%nat j q p Hj) as H. rewrite He in H. specialize (H Hi). lia.
Qed.
Lemma valid_chain_time c h t t' : valid_chain c → (h, t) ∈ c → (h, t') ∈ c → t = t'.
Proof.
  intros Hv [i Hi]%list_elem_of_lookup [j Hj]%list_elem_of_lookup. pose proof (valid_chain_height c i _ _ j Hv Hi Hj) as H. cbn in H.
  assert (i = j) as -> by lia. congruence.
Qed.
Lemma valid_chain_snoc c p q : valid_chain c → last c = Some p → linked_entries p q → valid_chain (c ++ [q]).
Proof.
  intros Hv Hl Hlink i a b Ha Hb. apply lookup_app_Some in Hb as [Hb|[Hge Hb]].
  - apply (Hv i a b); [|done]. rewrite lookup_app_l in Ha; [done|]. apply lookup_lt_Some in Hb. lia.
  - apply list_lookup_singleton_Some in Hb as [Hz <-]. rewrite last_lookup in Hl.
    assert (i = pred (length c)) as -> by (apply lookup_lt_Some in Hl; lia). rewrite lookup_app_l in Ha by (apply lookup_lt_Some in Hl; lia).
    assert (a = p) as -> by congruence. done.
Qed.

Definition grows (c c' : list HeaderEntry) : Prop := (∃ more, c' = c ++ more) ∧ (valid_chain c → valid_chain c').
#[export] Instance grows_preorder : PreOrder grows.
Proof.
  split; [intros c; split; [exists []; by rewrite app_nil_r|done]|]. intros c1 c2 c3 [[m1 ->] H1] [[m2 ->] H2].
  split; [|by intros ?; apply H2, H1]. exists (m1 ++ m2). by rewrite app_assoc.
Qed.
Lemma grows_elem c c' p : grows c c' → p ∈ c → p ∈ c'.
Proof. intros [[more ->] _] Hp. by apply elem_of_app; left. Qed.
End entries.

(** What the main task relies on: the other services only append blocks that
    fit, a produced block is the one that was asked for, and a commit appends
    the block when it is the next one, without looking at its time.
    [node_inv] is what the node keeps of its own state. *)
Class ChainPorts (times : Prop) (N : Type) `{P : !Ports N} := {
  chain : N → list HeaderEntry;
  node_inv : N → Prop;
  seal_moves b n : node_inv n → let n' := (port_seal_block b n).2 in node_inv n' ∧ grows times (chain n) (chain n');
  produce_moves h t source deadline timeout n :
    node_inv n → let n' := (port_produce h t source deadline timeout n).2 in node_inv n' ∧ grows times (chain n) (chain n');
  produced_as_asked h t source deadline timeout n n' res :
    node_inv n → port_produce h t source deadline timeout n = (Some (Ok res), n') → header_entry (header (res_block res)) = (h, t);
  predefined_moves b n : node_inv n → let n' := (port_produce_predefined b n).2 in node_inv n' ∧ grows times (chain n) (chain n');
  predefined_as_asked b n n' res :
    node_inv n → port_produce_predefined b n = (Ok res, n') → header_entry (header (res_block res)) = header_entry (header b);
  commit_failed b res n n' e : node_inv n → port_commit_result b res n = (Err e, n') → node_inv n' ∧ grows times (chain n) (chain n');
  committed_next b res n n' :
    node_inv n → port_commit_result b res n = (Ok (), n') →
    node_inv n' ∧ ∃ c p, grows times (chain n) c ∧ last c = Some p ∧ header_height (header (entity b)) = p.1 + 1
      ∧ (∃ more, chain n' = c ++ header_entry (header (entity b)) :: more)
      ∧ (valid_chain times (c ++ [header_entry (header (entity b))]) → valid_chain times (chain n'));
  notify_moves l n : node_inv n → let n' := port_notify_skipped_txs l n in node_inv n' ∧ grows times (chain n) (chain n');
  sleep_moves d n : node_inv n → let n' := sleep_until d n in node_inv n' ∧ grows times (chain n) (chain n')
}.

Section main.
Context {N : Type} `{P : !Ports N} {times : Prop} `{CP : !ChainPorts times N} (instant_ty : int_ty).
Implicit Types (self : MainTask) (n : N) (s : MainTask * N).

(** The task remembers a block of the chain. *)
Record Remembers s : Prop := {
  rm_node : node_inv s.2;
  rm_valid : valid_chain times (chain s.2);
  rm_last : (last_height s.1, last_timestamp s.1) ∈ chain s.2
}.
(** The node goes on without losing a block. *)
Definition moves n n' : Prop := node_inv n' ∧ grows times (chain n) (chain n').
Lemma moves_trans n1 n2 n3 : moves n1 n2 → moves n2 n3 → moves n1 n3.
Proof. intros [_ H1] [H2 H3]. split; [done|by etrans]. Qed.

Lemma remembers_moves self n n' : Remembers (self, n) → moves n n' → Remembers (self, n').
Proof. intros [Hn Hv Hin] [Hn' Hg]. split; [done|by apply Hg|]. by eapply grows_elem. Qed.

(** A block with the next height and a time that is not lower, if times matter,
    can be committed safely; it is then the block that the task remembers. *)
Lemma seal_and_commit_remembers res self n r n' :
  Remembers (self, n) →
  (times → (header_entry (header (res_block res))).1 = last_height self + 1
           ∧ last_timestamp self ≤ (header_entry (header (res_block res))).2) →
  seal_and_commit res n = (r, n') →
  valid_chain times (chain n') ∧ moves n n' ∧ (r = Ok () → header_entry (header (res_block res)) ∈ chain n').
Proof.
  intros HF Hht. unfold seal_and_commit. pose proof (seal_moves (res_block res) n (rm_node _ HF)) as Hs.
  destruct (port_seal_block (res_block res) n) as [[seal|e] n1]; cbn in Hs; [|intros [= <- <-]; split_and!; [by apply Hs, HF|done|done]].
  destruct Hs as [Hi1 Hs]. destruct (port_commit_result _ res n1) as [[[]|e] n2] eqn:Hc; intros [= <- <-].
  - destruct (committed_next _ _ _ _ Hi1 Hc) as (Hi2 & c & p & Hg & Hl & Hn & [more Hmore] & Hv). cbn [entity] in *.
    assert (valid_chain times c) as Hvc by (by apply Hg, Hs, HF).
    assert (times → p.2 = last_timestamp self) as Hp.
    { intros Htimes. destruct (Hht Htimes) as [Hh _]. apply (valid_chain_time times c (last_height self)); [done| |].
      - assert ((last_height self, p.2) = p) as ->; [|by apply last_Some_elem_of]. destruct p. cbn in *. f_equal. lia.
      - eapply grows_elem; [exact Hg|]. eapply grows_elem; [exact Hs|]. apply HF. }
    assert (valid_chain times (chain n2)) as Hv2.
    { apply Hv, (valid_chain_snoc times c p); [done..|]. split; [done|]. intros Htimes. rewrite (Hp Htimes). by apply Hht. }
    split_and!; [done| |].
    + split; [done|]. split; [|done]. destruct Hs as [[m1 Hm1] _], Hg as [[m2 ->] _]. rewrite Hmore, Hm1, <- !app_assoc. by eexists.
    + intros _. rewrite Hmore. apply elem_of_app. right. left.
  - apply commit_failed in Hc as [Hi2 Hc]; [|done]. split_and!; [by apply Hc, Hs, HF|split; [done|by etrans]|done].
Qed.

(** What an operation of the task does: the chain stays valid and only grows,
    and on an error the task is as before. *)
Record Progress s s' : Prop := {
  pg_remembers : Remembers s';
  pg_grows : grows times (chain s.2) (chain s'.2)
}.
Lemma progress_refl s : Remembers s → Progress s s.
Proof. by split. Qed.
Lemma progress_trans s1 s2 s3 : Progress s1 s2 → Progress s2 s3 → Progress s1 s3.
Proof. intros [_ H1] [H2 H3]. split; [done|by etrans]. Qed.
Lemma progress_node self n n' : Remembers (self, n) → moves n n' → Progress (self, n) (self, n').
Proof. intros HF Hg. split; [by eapply remembers_moves|apply Hg]. Qed.

Lemma produce_block_progress h t source deadline s r s' :
  Remembers s → h = last_height s.1 + 1 → poa_produce_block h t source deadline s = (r, s') →
  Progress s s' ∧ match r with
                  | Ok _ => (h, t) ∈ chain s'.2 ∧ last_timestamp s.1 ≤ t ∧ (last_height s'.1, last_timestamp s'.1) = (h, t)
                            ∧ last_block_created s'.1 = instant_now s.2 ∧ trigger s'.1 = trigger s.1
                  | Err _ => s'.1 = s.1
                  end.
Proof.
  destruct s as [self n]. cbn [fst snd]. intros HF Hh. unfold poa_produce_block, signal_produce_block.
  destruct (port_is_available n); [|intros [= <- <-]; split; [by apply progress_refl|done]].
  destruct (decide (t < last_timestamp self)) as [|Ht]; [intros [= <- <-]; split; [by apply progress_refl|done]|].
  pose proof (produce_moves h t source deadline (production_timeout self) n (rm_node _ HF)) as Hp.
  destruct (port_produce _ _ _ _ _ n) as [[[res|e]|] n1] eqn:Hprod; cbn in Hp;
    [|intros [= <- <-]; split; [by apply progress_node|done]..].
  apply produced_as_asked in Hprod; [|apply HF]. set (n2 := if decide _ then _ else _).
  assert (moves n n2) as Hg.
  { eapply moves_trans; [exact Hp|]. pose proof (sleep_moves deadline n1 (proj1 Hp)) as Hs. unfold n2. case_decide; [exact Hs|].
    eapply moves_trans; [exact Hs|]. apply notify_moves, Hs. }
  destruct (seal_and_commit res n2) as [r2 n3] eqn:Hc.
  destruct (seal_and_commit_remembers res self n2 r2 n3) as (Hv & Hg' & Hin); [by eapply remembers_moves|rewrite Hprod; cbn; intros _; lia|done|].
  rewrite Hprod in Hin. destruct r2 as [[]|e]; intros [= <- <-].
  - specialize (Hin eq_refl). split; [split; [split; [apply Hg'|done|done]|by apply (moves_trans _ _ _ Hg Hg')]|]. cbn. split_and!; [done|lia|done..].
  - split; [|done]. apply progress_node; [done|by eapply moves_trans].
Qed.
Lemma produce_predefined_progress b s r s' :
  Remembers s → (times → header_height (header b) = last_height s.1 + 1 ∧ last_timestamp s.1 ≤ header_time (header b)) →
  produce_predefined_block b s = (r, s') → Progress s s'.
Proof.
  destruct s as [self n]. cbn [fst snd]. intros HF Hht. unfold produce_predefined_block.
  destruct (port_is_available n); [|intros [= <- <-]; by apply progress_refl].
  pose proof (predefined_moves b n (rm_node _ HF)) as Hp. destruct (port_produce_predefined b n) as [[res|e] n1] eqn:Hprod; cbn in Hp;
    [|intros [= <- <-]; by apply progress_node].
  apply predefined_as_asked in Hprod; [|apply HF]. destruct (seal_and_commit res n1) as [r2 n2] eqn:Hc.
  destruct (seal_and_commit_remembers res self n1 r2 n2) as (Hv & Hg & Hin); [by eapply remembers_moves|by rewrite Hprod|done|].
  destruct r2 as [[]|e]; intros [= <- <-].
  - split; [split; [apply Hg|done|by apply Hin]|by apply (moves_trans _ _ _ Hp Hg)].
  - apply progress_node; [done|by eapply moves_trans].
Qed.

(** The panic of [poa_next_height]: the chain has reached the last height. *)
Definition AtLastHeight s : Prop := ∃ n' h t, grows times (chain s.2) (chain n') ∧ (h, t) ∈ chain n' ∧ ¬ in_range u32 (h + 1).
Lemma next_height_cases s : Remembers s → match poa_next_height s.1 with Some h => h = last_height s.1 + 1 | None => AtLastHeight s end.
Proof.
  intros [_ _ Hin]. unfold poa_next_height, height_succ, checked_add, fit. case_decide as Hr; [done|]. by exists s.2, (last_height s.1), (last_timestamp s.1).
Qed.
Lemma at_last_height_mono s s' : grows times (chain s.2) (chain s'.2) → AtLastHeight s' → AtLastHeight s.
Proof. intros Hg (n' & h & t & Hg' & H). exists n', h, t. split; [by etrans|done]. Qed.

Definition outcome {A} s (o : option (A * (MainTask * N))) : Prop :=
  match o with Some (_, s') => Progress s s' | None => AtLastHeight s end.
Lemma outcome_trans {A} s s' (o : option (A * (MainTask * N))) : Progress s s' → outcome s' o → outcome s o.
Proof. intros Hp. destruct o as [[a s'']|]; cbn; [by apply progress_trans|by apply at_last_height_mono, Hp]. Qed.

Lemma produce_blocks_outcome number t s : Remembers s → outcome s (produce_blocks number t s).
Proof.
  revert t s. induction number as [|number IH]; intros t s HF; cbn [produce_blocks outcome]; [by apply progress_refl|].
  pose proof (next_height_cases s HF) as Hh. destruct (poa_next_height s.1) as [h|]; [|done]. cbn [mbind option_bind].
  destruct (poa_produce_block h t FromTxPool (instant_now s.2) s) as [[[]|e] s1] eqn:Hp; destruct (produce_block_progress _ _ _ _ _ _ _ HF Hh Hp) as [Hpg _]; [|done].
  eapply outcome_trans; [exact Hpg|]. destruct (next_time _ _ _); [apply IH, Hpg|by apply progress_refl, Hpg].
Qed.
Lemma produce_manual_outcome block_production s : Remembers s → outcome s (produce_manual_blocks block_production s).
Proof.
  intros HF. unfold produce_manual_blocks. assert (∀ t, outcome s (match mode block_production with
    | Blocks number => produce_blocks number t s
    | BlockWithTransactions txs => height ← poa_next_height s.1; Some (poa_produce_block height t (SpecificTransactions txs) (instant_now s.2) s) end)) as Hm.
  { intros t. destruct (mode block_production) as [number|txs]; [by apply produce_blocks_outcome|].
    pose proof (next_height_cases s HF) as Hh. destruct (poa_next_height s.1) as [h|]; [|done]. cbn.
    destruct (poa_produce_block h t _ _ s) as [r s1] eqn:Hp. by destruct (produce_block_progress _ _ _ _ _ _ _ HF Hh Hp). }
  destruct (trigger s.1); [..|by apply progress_refl].
  all: destruct (start_time block_production) as [t|]; [apply Hm|]; destruct (next_time RequestManual s.1 s.2); [apply Hm|by apply progress_refl].
Qed.
Lemma produce_next_outcome deadline s : Remembers s → outcome s (produce_next_block deadline s).
Proof.
  intros HF. unfold produce_next_block. pose proof (next_height_cases s HF) as Hh. destruct (poa_next_height s.1) as [h|]; [|done]. cbn [mbind option_bind].
  destruct (next_time RequestTrigger s.1 s.2) as [t|]; [|by apply progress_refl].
  destruct (poa_produce_block h t _ _ s) as [r s1] eqn:Hp. by destruct (produce_block_progress _ _ _ _ _ _ _ HF Hh Hp).
Qed.

(** A state of synchronisation that names a block of the chain *)
Definition sync_known n (state : SyncState) : Prop :=
  match state with SyncedAt h => header_entry h ∈ chain n | NotSynced => True end.
Lemma update_last_block_progress h s : Remembers s → header_entry h ∈ chain s.2 → Progress s (update_last_block_values instant_ty h s).
Proof.
  intros HF Hin. destruct s as [self n]. unfold update_last_block_values, extract_block_info. case_decide; [|by apply progress_refl].
  split; [|done]. split; [apply HF..|done].
Qed.

(** A predefined block for the next height has this height and a time that is
    not below that of its predecessor. *)
Definition predefined_fits n : Prop := ∀ h b, port_get_block h n = Ok (Some b) →
  header_height (header b) = h ∧ ∀ p, p ∈ chain n → p.1 + 1 = h → p.2 ≤ header_time (header b).

Lemma maybe_predefined_outcome s : (times → predefined_fits s.2) → Remembers s → outcome s (maybe_produce_predefined_block s).
Proof.
  intros Hpre HF. unfold maybe_produce_predefined_block. pose proof (next_height_cases s HF) as Hh.
  destruct (poa_next_height s.1) as [h|]; [|done]. cbn [mbind option_bind].
  destruct (port_get_block h s.2) as [[b|]|e] eqn:Hb; [|by apply progress_refl..].
  destruct (produce_predefined_block b s) as [r s1] eqn:Hp. apply (produce_predefined_progress b s r s1); [done| |done].
  intros Htimes. destruct (Hpre Htimes _ _ Hb) as [Hbh Ht]. split; [lia|]. apply (Ht (last_height s.1, last_timestamp s.1)); [apply HF|cbn; lia].
Qed.
Lemma next_production_moves s deadline n' :
  node_inv s.2 → next_block_production instant_ty s = Ok (Some (deadline, n')) → moves s.2 n'.
Proof.
  destruct s as [self n]. cbn [snd]. intros Hn. unfold next_block_production. destruct (trigger self) as [| |d|d]; cbn.
  - by intros [= <- <-].
  - done.
  - destruct (checked_add instant_ty _ d); cbn; [|done]. intros [= <- <-]. by apply sleep_moves.
  - destruct (checked_add instant_ty _ d); cbn; [|done]. by intros [= <- <-].
Qed.

Lemma run_outcome ready sync_state changed wake s :
  (times → predefined_fits s.2) → Remembers s → sync_known s.2 sync_state → (∀ st, changed = Some st → sync_known s.2 st) →
  outcome s (run_task instant_ty ready sync_state changed wake s).
Proof.
  intros Hpre HF Hk1 Hk2. unfold run_task. destruct ready; [|by apply progress_refl].
  destruct (ensure_synced instant_ty sync_state changed s) as [action s1] eqn:He.
  assert (Progress s s1 ∧ s1.2 = s.2) as [Hp1 Hnode].
  { assert (∀ h, (update_last_block_values instant_ty h s).2 = s.2) as Hu.
    { intros h. destruct s. unfold update_last_block_values, extract_block_info. by case_decide. }
    revert He. unfold ensure_synced. destruct sync_state as [|h]; [destruct changed as [[|h]|]|]; intros [= <- <-]; (split; [|by rewrite ?Hu]); try by apply progress_refl.
    - apply update_last_block_progress; [done|exact (Hk2 _ eq_refl)].
    - by apply update_last_block_progress. }
  rewrite <- Hnode in Hpre. clear Hnode.
  destruct action as [action|]; [done|]. eapply outcome_trans; [exact Hp1|]. pose proof (pg_remembers _ _ Hp1) as HF1. clear -Hpre HF1.
  pose proof (maybe_predefined_outcome s1 Hpre HF1) as Hm. destruct (maybe_produce_predefined_block s1) as [[action s2]|]; [|done].
  cbn [mbind option_bind outcome] in *. destruct action as [action|]; [done|]. eapply outcome_trans; [exact Hm|]. pose proof (pg_remembers _ _ Hm) as HF2. clear -HF2.
  destruct (next_block_production instant_ty s2) as [next|e] eqn:Hn; [|by apply progress_refl].
  destruct wake as [|request|]; [by apply progress_refl| |].
  - unfold handle_requested_production. destruct request as [request|]; [|by apply progress_refl].
    pose proof (produce_manual_outcome request s2 HF2) as Ho. destruct (produce_manual_blocks request s2) as [[r s3]|]; done.
  - destruct next as [[deadline n]|]; [|by apply progress_refl]. pose proof (next_production_moves _ _ _ (rm_node _ HF2) Hn) as Hg. destruct s2 as [self n0].
    eapply outcome_trans; [by apply progress_node|]. unfold handle_normal_block_production. cbn [fst].
    pose proof (produce_next_outcome deadline (self, n) (remembers_moves _ _ _ HF2 Hg)) as Ho.
    destruct (produce_next_block deadline (self, n)) as [[[[]|e] [self' n']]|]; [done| |done]. cbn [mbind option_bind outcome fst snd] in *.
    eapply progress_trans; [exact Ho|]. apply progress_node; [apply Ho|]. apply sleep_moves, Ho.
Qed.

(** The states of a node: runs of the task, and what the other services do
    between them *)
Inductive poa_reach (start : MainTask * N) : MainTask * N → Prop :=
| poa_start : poa_reach start start
| poa_run s s' action ready sync_state changed wake :
    poa_reach start s → (times → predefined_fits s.2) → sync_known s.2 sync_state → (∀ st, changed = Some st → sync_known s.2 st) →
    run_task instant_ty ready sync_state changed wake s = Some (action, s') → poa_reach start s'
| poa_others self n n' : poa_reach start (self, n) → moves n n' → poa_reach start (self, n').

Lemma poa_reach_remembers trigger production_timeout last_block n s :
  node_inv n → valid_chain times (chain n) → header_entry last_block ∈ chain n →
  poa_reach (into_task (MainTask_new instant_ty trigger production_timeout last_block n) n, n) s →
  Remembers s ∧ grows times (chain n) (chain s.2).
Proof.
  intros Hn Hv Hin Hr. remember (_, n) as start eqn:Hs in Hr.
  induction Hr as [|s1 s2 action ready st ch wake Hr IH Hpre Hk1 Hk2 Hrun|self n1 n2 Hr IH Hg].
  - subst start. split; [|done]. split; [done..|]. unfold into_task, MainTask_new, extract_block_info. by destruct trigger.
  - destruct IH as [HF Hg]. pose proof (run_outcome ready st ch wake s1 Hpre HF Hk1 Hk2) as Ho. rewrite Hrun in Ho.
    split; [apply Ho|etrans; [exact Hg|apply Ho]].
  - destruct IH as [HF Hg']. split; [by eapply remembers_moves|etrans; [exact Hg'|apply Hg]].
Qed.

(** *** How often blocks are produced *)
(** Production ends by the deadline, and everything else takes no time. *)
Record Prompt : Prop := {
  prompt_produce h t source deadline timeout n : let n' := (port_produce h t source deadline timeout n).2 in
    instant_now n ≤ instant_now n' ≤ Z.max (instant_now n) deadline;
  prompt_seal b n : instant_now (port_seal_block b n).2 = instant_now n;
  prompt_commit b res n : instant_now (port_commit_result b res n).2 = instant_now n;
  prompt_notify l n : instant_now (port_notify_skipped_txs l n) = instant_now n;
  prompt_sleep d n : instant_now (sleep_until d n) = Z.max (instant_now n) d
}.
Lemma produce_block_instant h t source deadline s s' :
  Prompt → poa_produce_block h t source deadline s = (Ok (), s') →
  instant_now s'.2 = Z.max (instant_now s.2) deadline ∧ last_block_created s'.1 = instant_now s.2 ∧ trigger s'.1 = trigger s.1.
Proof.
  intros [Hp Hse Hco Hno Hsl]. destruct s as [self n]. unfold poa_produce_block, signal_produce_block, seal_and_commit.
  destruct (port_is_available n); [|done]. case_decide; [done|]. specialize (Hp h t source deadline (production_timeout self) n).
  destruct (port_produce _ _ _ _ _ n) as [[[res|e]|] n1]; [|done..]. cbn in Hp. set (n2 := if decide _ then _ else _).
  assert (instant_now n2 = Z.max (instant_now n) deadline) as Hn2.
  { unfold n2. case_decide; rewrite ?Hno, Hsl; lia. }
  specialize (Hse (res_block res) n2). destruct (port_seal_block _ n2) as [[seal|e] n3]; [|done]. cbn in Hse.
  specialize (Hco (MkSealedBlock (res_block res) seal) res n3). destruct (port_commit_result _ res n3) as [[[]|e] n4]; [|done]. cbn in Hco.
  intros [= <-]. cbn. split_and!; [lia|done..].
Qed.
Lemma produce_next_instant deadline s s' :
  Prompt → produce_next_block deadline s = Some (Ok (), s') →
  instant_now s'.2 = Z.max (instant_now s.2) deadline ∧ last_block_created s'.1 = instant_now s.2 ∧ trigger s'.1 = trigger s.1.
Proof.
  intros Hpr. unfold produce_next_block. destruct (poa_next_height s.1) as [h|]; [|done]. cbn [mbind option_bind].
  destruct (next_time RequestTrigger s.1 s.2) as [t|]; [|done]. intros [= Hb]. by apply (produce_block_instant h t FromTxPool).
Qed.

(** With the trigger [Open] two blocks are produced per period.  The first stays
    open until the end of the period; but the time that is remembered for it is
    the one when its production began, so that the deadline of the second has
    passed when it is started, and it is produced at once.  Then the task is as
    at the beginning, a period later. *)
Theorem open_trigger_two_blocks_per_period period s d1 n1 s1 d2 n2 s2 :
  Prompt → trigger s.1 = TriggerOpen period → 0 ≤ period → last_block_created s.1 = instant_now s.2 →
  next_block_production instant_ty s = Ok (Some (d1, n1)) → produce_next_block d1 (s.1, n1) = Some (Ok (), s1) →
  next_block_production instant_ty s1 = Ok (Some (d2, n2)) → produce_next_block d2 (s1.1, n2) = Some (Ok (), s2) →
  let t := instant_now s.2 in
  instant_now s1.2 = t + period ∧ instant_now s2.2 = t + period
  ∧ trigger s2.1 = TriggerOpen period ∧ last_block_created s2.1 = instant_now s2.2.
Proof.
  intros Hpr Htr Hp0 Hc Hn1 H1 Hn2 H2. destruct s as [self n], s1 as [self1 m1]. cbn [fst snd] in *. unfold next_block_production in Hn1, Hn2.
  destruct (produce_next_instant _ _ _ Hpr H1) as (I1 & C1 & T1), (produce_next_instant _ _ _ Hpr H2) as (I2 & C2 & T2). cbn [fst snd] in *.
  rewrite T1, Htr in Hn2. rewrite Htr in Hn1. unfold checked_add, fit in *.
  destruct (decide (in_range instant_ty (last_block_created self + period))); [|done]. cbn in Hn1. injection Hn1 as <- <-.
  destruct (decide (in_range instant_ty (last_block_created self1 + period))); [|done]. cbn in Hn2. injection Hn2 as <- <-.
  rewrite T2, T1, Htr. rewrite C1, Hc in *. split_and!; [lia|lia|done|]. rewrite C2, I2. lia.
Qed.
End main.

(** The watched state names a block of the chain when the task is only told of
    such blocks, as [poa_reach] requires. *)
Lemma watched_state_known `{TIL : TokioIntervalLaws} {N : Type} `{P : !Ports N} {times : Prop} `{CP : !ChainPorts times N} start min_peers time_until_synced first events self n :
  sync_reach start min_peers time_until_synced first events self → Forall (λ h, header_entry h ∈ chain n) (seen first events) →
  sync_known n (state self).
Proof.
  intros Hr Hall. destruct (sync_inv _ _ _ _ _ _ Hr) as [_ Hs Hin _ _ _]. rewrite Hs. rewrite Forall_forall in Hall. specialize (Hall _ Hin).
  by destruct (inner_state self).
Qed.
