(* ===== verification/PoANode.v ===== *)
(** * The block production service in a node

    The ports of [PoA.v] over the models of the producer and the importer, as
    the adapters of [crates/fuel-core/src/service/adapters] connect them: the
    promises that the service relies on are discharged by their theorems.  While
    the service waits for a port, blocks of the network may be imported. *)
From stdpp Require Import strings sorting.
From S2P Require Import Prelude FuelTypes BlockTypes ExecutorTypes Executor ExecutorFrame ExecutorRoundtrip ExecutorAccounting MerklizedTable Importer ImporterFacts UpgradableExecutor Producer ProducerFacts PoA PoAFacts.

Section node.
Context `{HH : Hashing} `{BT : BinaryMerkleTree} `{BL : !BinaryMerkleTreeLaws} `{VM : FuelVm} `{VL : !FuelVmLaws}.
Context `{HS : !HistoricalStorage} `{WR : !WasmRuntime} {TS : Type} `{SRC : !TransactionsSource TS}.

(** What happens while a port is awaited: time passes and blocks are imported. *)
Record Pause := MkPause {
  pause_instant : Instant;
  pause_clock : Tai64;
  pause_imports : list (nat * SealedBlock)
}.
Record Node := MkNode {
  nd_importer : Importer;
  nd_instant : Instant;
  nd_clock : Tai64;
  nd_pauses : list Pause;
  nd_skipped : list (TxId * ExecutorError)   (* told to the pool and to the status manager *)
}.
(** [nc_producer] is the producer with its view of the database, [nc_source] the
    source of the pool and [nc_sign] the signature of a block id. *)
Record NodeConfig := MkNodeConfig {
  nc_importer : ImporterConfig;
  nc_max : nat;
  nc_producer : OnChain → Producer;
  nc_source : Z → TS;
  nc_try_send : list PreconfirmationStatus → list PreconfirmationStatus;
  nc_rounds : Instant → nat;
  nc_fuel : nat;
  nc_sign : option (Bytes32 → result string (list Z));
  nc_predefined : gmap BlockHeight (Block Transaction);
  nc_finished : nat
}.
Context (config : NodeConfig).

Definition import_one (im : Importer) (block : nat * SealedBlock) : Importer :=
  (execute_and_commit (nc_importer config) block.1 block.2 im).2.
Definition await (n : Node) : Node :=
  match nd_pauses n with
  | [] => n
  | p :: pauses =>
      MkNode (foldl import_one (nd_importer n) (pause_imports p)) (Z.max (nd_instant n) (pause_instant p)) (pause_clock p) pauses (nd_skipped n)
  end.

(** [FuelBlockSigner::seal_block] *)
Definition seal_block (block : Block Transaction) (n : Node) : result PortFailure Consensus * Node :=
  (match nc_sign config with
   | Some sign => signature ← map_err FromSigner (sign (Block_id block)); Ok (ConsensusPoA signature)
   | None => Err (FromSigner "no key")
   end, await n).
(** The adapter of the producer *)
Definition produce_and_execute_block (height : BlockHeight) (block_time : Tai64) (source : ProductionSource) (deadline : Instant) (db : OnChain)
    : option (result ProducerError ExecutionResult) :=
  match source with
  | FromTxPool =>
      produce_and_execute_block_txpool (nc_try_send config) (nc_rounds config deadline) (nc_fuel config) (nc_producer config db)
        height block_time (nc_source config)
  | SpecificTransactions txs =>
      produce_and_execute_block_transactions (nc_fuel config) (nc_producer config db) height block_time txs
  end.
Definition produce_with_timeout (height : BlockHeight) (block_time : Tai64) (source : ProductionSource) (deadline : Instant)
    (timeout : Duration) (n : Node) : option (result PortFailure ExecutionResult) * Node :=
  let r := produce_and_execute_block height block_time source deadline (database (nd_importer n)) in
  let n' := await n in
  (if decide (nd_instant n + timeout < nd_instant n') then None else map_err FromProducer <$> r, n').
(** A production that does not end is not awaited with a timeout here. *)
Definition produce_predefined (block : Block Transaction) (n : Node) : result PortFailure ExecutionResult * Node :=
  (match produce_and_execute_predefined (nc_fuel config) (nc_producer config (database (nd_importer n))) block with
   | Some r => map_err FromProducer r
   | None => Err (FromPredefinedBlocks "production does not end")
   end, await n).
(** The adapter of the importer; other imports may come first. *)
Definition adapter_commit_result (block : SealedBlock) (res : ExecutionResult) (n : Node) : result PortFailure unit * Node :=
  let n := await n in
  let '(r, im) := commit_result (nc_importer config) (nc_finished config)
    (MkUncommittedResult (MkImportResult block (res_tx_status res) (res_events res) SourceLocal) (executor_changes (res_changes res)))
    (nd_importer n) in
  (map_err FromImporter r, MkNode im (nd_instant n) (nd_clock n) (nd_pauses n) (nd_skipped n)).
Definition notify_skipped (txs : list (TxId * ExecutorError)) (n : Node) : Node :=
  MkNode (nd_importer n) (nd_instant n) (nd_clock n) (nd_pauses n) (nd_skipped n ++ txs).
Definition node_sleep_until (deadline : Instant) (n : Node) : Node :=
  let n := await n in MkNode (nd_importer n) (Z.max (nd_instant n) deadline) (nd_clock n) (nd_pauses n) (nd_skipped n).

#[export] Instance node_ports : Ports Node := {|
  instant_now := nd_instant;
  clock_now := nd_clock;
  port_is_available := λ _, bool_decide (is_Some (nc_sign config));
  port_seal_block := seal_block;
  port_produce := produce_with_timeout;
  port_produce_predefined := produce_predefined;
  port_commit_result := adapter_commit_result;
  port_notify_skipped_txs := notify_skipped;
  port_get_block := λ height _, Ok (nc_predefined config !! height);
  sleep_until := node_sleep_until
|}.

Definition block_entry (b : SealedBlock) : HeaderEntry := header_entry (header (entity b)).


(** ** The promises of the ports *)
Context (times : Prop) (Hvalid : validator_ok (nc_importer config)).



(** A module of another version makes the block that it is asked for. *)
Context (Hwasm : ∀ T (source : TransactionsSource T) module instance c dry_run res,
  run_produce source module instance c dry_run = Some (Ok res) → PartialBlockHeader_from (header (res_block res)) = header_to_produce c).

Lemma produced_header {T} `{S : !TransactionsSource T} try_send rounds fuel executor (c : Components T) res :
  produce_without_commit_with_source try_send rounds fuel executor c = Some (Ok res) →
  PartialBlockHeader_from (header (res_block res)) = header_to_produce c.
Proof.
  unfold produce_without_commit_with_source, produce_inner. set (mode := Produce).
  assert (∀ m, wasm_produce_inner executor m c (forbid_fake_coins_default (upgradable_config executor)) mode = Some (Ok res) →
    PartialBlockHeader_from (header (res_block res)) = header_to_produce c) as Hw.
  { intros m. unfold wasm_produce_inner. destruct (execution_instance _ _ _) as [instance|]; [|done]. apply Hwasm. }
  case_decide; [destruct (execution_strategy executor) as [|m]|].
  - unfold native_produce_inner. destruct (execution_instance _ _ _) as [instance|]; [|done]. intros Hp. by apply produced_block_header in Hp as [? _].
  - destruct (get_module _ _); apply Hw.
  - destruct (get_module _ _); [apply Hw|done].
Qed.
Lemma new_header_entry h t view hdr : new_header h t view = Ok hdr → (height (p_consensus hdr), time (p_consensus hdr)) = (h, t).
Proof.
  unfold new_header. destruct (previous_block_info h view); [|done]. cbn [mbind result_bind].
  destruct (latest_consensus_parameters_version view); [|done]. cbn [map_err mbind result_bind].
  destruct (latest_state_transition_bytecode_version view); [|done]. cbn [map_err mbind result_bind]. by intros [= <-].
Qed.
Lemma components_entry {T} self h t (tx_source : Z → BlockHeight → result string T) c :
  components_to_produce self h t tx_source = Ok c → (height (p_consensus (header_to_produce c)), time (p_consensus (header_to_produce c))) = (h, t).
Proof.
  unfold components_to_produce, new_header_with_new_da_height. destruct (production_free self); [|done].
  destruct (production_gas_price self); cbn [map_err mbind result_bind]; [|done]. destruct (tx_source _ _); cbn [map_err mbind result_bind]; [|done].
  destruct (new_header h t (view_provider self)) as [hdr|] eqn:Hh; cbn [mbind result_bind]; [|done]. apply new_header_entry in Hh.
  destruct (consensus_params_at_version self _); cbn [map_err mbind result_bind]; [|done].
  destruct (select_new_da_height _ _ _ _); cbn [mbind result_bind]; [|done]. destruct (check_height _ _); cbn [mbind result_bind]; [|done].
  intros [= <-]. exact Hh.
Qed.
Lemma partial_entry (h : BlockHeader) p : PartialBlockHeader_from h = p → header_entry h = (height (p_consensus p), time (p_consensus p)).
Proof. by intros <-. Qed.

Lemma produce_block_entry h t source deadline db res :
  produce_and_execute_block h t source deadline db = Some (Ok res) → header_entry (header (res_block res)) = (h, t).
Proof.
  destruct source as [|txs]; cbn [produce_and_execute_block].
  - unfold produce_and_execute_block_txpool, produce_and_execute. destruct (components_to_produce _ _ _ _) as [c|] eqn:Hc; [|done].
    unfold with_context. destruct (produce_without_commit_with_source _ _ _ _ _) as [[r|]|] eqn:Hp; [|done..]. intros [= ->].
    rewrite (partial_entry _ _ (produced_header _ _ _ _ _ _ Hp)). by apply components_entry in Hc.
  - unfold produce_and_execute_block_transactions. destruct (components_to_produce _ _ _ _) as [c|] eqn:Hc; [|done].
    unfold with_context, produce_from_vector, produce_without_commit_with_source_direct_resolve, produce_inner_sync.
    destruct (produce_inner _ _ _ _ _ _ _) as [[r|]|] eqn:Hp; [|done..]. intros [= ->].
    rewrite (partial_entry _ _ (produced_header _ _ _ _ _ _ Hp)). by apply components_entry in Hc.
Qed.





Lemma commit_result_database im im2 finished finished2 u r r2 im' im2' :
  database im2 = database im → commit_result (nc_importer config) finished u im = (Ok r, im') →
  commit_result (nc_importer config) finished2 u im2 = (Ok r2, im2') → database im2' = database im'.
Proof.
  intros Hdb. unfold commit_result. destruct (guard_free im); [|done]. destruct (guard_free im2); [|done].
  intros [res H1]%commit_with_permit_database [res2 H2]%commit_with_permit_database. rewrite Hdb, H1 in H2. by injection H2.
Qed.

(** C6 What the service produces reaches every node.  When the service remembers
    the last block of the node, a key is set, the time is not below that of the
    last block and nothing is imported meanwhile, a production that succeeds ends
    in a commit that succeeds: the chain of the node is extended by the sealed
    block.  And every node with the same database and configuration accepts this
    block from the network and then has the same database.  The other hypotheses
    are those of [produced_blocks_are_imported]. *)
Theorem poa_block_reaches_peers bs prev self n h t deadline res sign sig :
  let im := nd_importer n in
  let producer := nc_producer config (database im) in
  let source := λ gas_price (_ : BlockHeight), Ok (nc_source config gas_price) : result string TS in
  nd_pauses n = [] → 0 ≤ production_timeout self →
  same_node producer (nc_importer config) im → Chain (ic_chain_id (nc_importer config)) (view_provider producer) bs → heights_ok bs →
  Forall (λ b, in_range u64 (da_height (application (header (entity b))))) bs → recorded (view_provider producer) →
  last bs = Some prev → block_entry prev = (last_height self, last_timestamp self) →
  poa_next_height self = Some h → last_timestamp self ≤ t →
  (∀ c cp, components_to_produce producer h t source = Ok c →
     consensus_parameters_versions (vm_tables (ledger (view_provider producer)))
       !! consensus_parameters_version (p_application (header_to_produce c)) = Some cp →
     well_sourced cp (header_to_produce c) (transactions_source c)) →
  produce_and_execute_block h t FromTxPool deadline (database im) = Some (Ok res) →
  Forall (λ p, counter_overflow p.2 = false) (res_skipped_transactions res) → Forall harmless_failure (res_events res) →
  nc_sign config = Some sign → sign (Block_id (res_block res)) = Ok sig →
  let b := MkSealedBlock (res_block res) (ConsensusPoA sig) in
  ∃ self' n', poa_produce_block h t FromTxPool deadline (self, n) = (Ok (), (self', n'))
    ∧ (last_height self', last_timestamp self') = block_entry b
    ∧ Chain (ic_chain_id (nc_importer config)) (database (nd_importer n')) (bs ++ [b])
    ∧ ∀ peer finished, same_node producer (nc_importer config) peer →
        ∃ peer', execute_and_commit (nc_importer config) finished b peer = (Ok (), peer') ∧ database peer' = database (nd_importer n').
Proof.
  intros im producer source Hpa Hto Hsn HC Hok Hda Hrec Hl Hprev Hnh Ht Hsrc Hprod Hskip Hev Hsign Hsig b.
  apply fit_Some in Hnh as [Hh Hr]. assert (header_entry (header (res_block res)) = (h, t)) as Hentry by (by eapply produce_block_entry).
  pose proof Hprod as Hpr. cbn [produce_and_execute_block] in Hpr. unfold produce_and_execute_block_txpool in Hpr.
  assert (∀ prev, last bs = Some prev → time (consensus (header (entity prev))) ≤ t) as Htime.
  { intros prev' Hl'. assert (prev' = prev) as -> by congruence. injection Hprev as _ Hts. unfold header_time in Hts. lia. }
  pose proof (λ peer fin fin' Hs, produced_block_imported _ _ _ producer (nc_importer config) peer bs h t source res sig fin fin'
    Hs HC Hok Hda Hrec Hr Htime Hsrc Hpr Hskip Hev) as Hacc.
  destruct (Hacc im O (nc_finished config) Hsn) as (im1 & im2 & _ & Hcommit & Hsame & HC' & _). fold b in Hcommit, HC'.
  assert (∀ d, await (node_sleep_until d n) = node_sleep_until d n ∧ nd_pauses (node_sleep_until d n) = [] ∧ nd_importer (node_sleep_until d n) = im) as Hsleep.
  { intros d. unfold node_sleep_until, await. rewrite Hpa. cbn. by rewrite Hpa. }
  assert (await n = n) as Haw by (unfold await; by rewrite Hpa).
  eexists _, _. unfold poa_produce_block, signal_produce_block, seal_and_commit. cbn [port_is_available port_produce port_seal_block port_commit_result
    port_notify_skipped_txs sleep_until node_ports instant_now].
  rewrite bool_decide_true by (by rewrite Hsign). rewrite decide_False by lia. unfold produce_with_timeout. fold im. rewrite Hprod, Haw.
  rewrite decide_False by lia. cbn [fmap option_fmap option_map map_err].
  set (n2 := if decide _ then _ else _).
  assert (await n2 = n2 ∧ nd_importer n2 = im) as [Haw2 Him2].
  { unfold n2. destruct (Hsleep deadline) as (H1 & H2 & H3). case_decide; [done|]. unfold notify_skipped, await. cbn [nd_pauses nd_importer]. by rewrite H2. }
  unfold seal_block. rewrite Hsign. rewrite Hsig. cbn [map_err mbind result_bind]. fold b. rewrite Haw2. unfold adapter_commit_result. rewrite Haw2, Him2, Hcommit.
  cbn [map_err]. split; [done|]. cbn [nd_importer with_last_block last_height last_timestamp]. rewrite <- Hsame. split_and!; [by rewrite <- Hentry|done|].
  intros peer finished Hs. destruct (Hacc peer finished (nc_finished config) Hs) as (p1 & p2 & H1 & H2 & Heq & _). exists p1. split; [done|].
  rewrite Heq, Hsame. eapply (commit_result_database im peer); [|exact Hcommit|exact H2].
  rewrite (sn_database _ _ _ Hs), (sn_database _ _ _ Hsn). done.
Qed.
End node.
