(* ===== verification/PoASamples.v ===== *)
(** * The block production service on a concrete node

    The task that follows the synchronisation with a simple timer, and the main
    task in the node of [NodeSamples.v], which produces the block at height 5. *)
From stdpp Require Import strings.
From S2P Require Import Prelude FuelTypes BlockTypes ExecutorTypes Executor ExecutorFrame ExecutorRoundtrip ExecutorAccounting ExecutorSamples MerklizedTable Importer ImporterFacts UpgradableExecutor Producer ProducerFacts NodeSamples PoA PoAFacts PoANode.

#[local] Existing Instance sample_hashing.
#[local] Existing Instance sample_vm.
#[local] Existing Instance sample_vm_laws.
#[local] Existing Instance MemoryStore_view.
#[local] Existing Instance sample_wasm.

(** ** Synchronisation *)
(** The time of the next tick and the period *)
Definition sample_interval : TokioInterval := {|
  Interval := Z * Z;
  interval t p := (t, p);
  period x := x.2;
  tick_ready x now := bool_decide (x.1 ≤ now);
  tick x now := (now + x.2, x.2);
  reset x now := (now + x.2, x.2)
|}.
#[local] Existing Instance sample_interval.
Lemma sample_interval_laws : TokioIntervalLaws.
Proof.
  split; try done.
  - intros t p. by apply bool_decide_eq_true.
  - intros x t now. cbn. by rewrite bool_decide_eq_true.
Qed.
#[local] Existing Instance sample_interval_laws.

Definition quiet_events : list (Z * SyncEvent) := [(0, TimerTick); (1, PeerCount 1)].
Definition quiet_task : SyncTask :=
  foldl (λ self e, sync_run e.1 e.2 self) (SyncTask_new 0 1 10 sample_prev_header) quiet_events.
Lemma quiet_reached : sync_reach 0 1 10 sample_prev_header quiet_events quiet_task.
Proof.
  apply (sync_step 0 1 10 sample_prev_header [(0, TimerTick)] _ 1 (PeerCount 1)); [|done].
  apply (sync_step 0 1 10 sample_prev_header [] _ 0 TimerTick); [|done]. apply sync_start.
Qed.
Lemma synced_after_quiet_period_witness :
  state (sync_run 11 TimerTick quiet_task) = SyncedAt sample_prev_header
  ∧ ∃ before t0 e after, quiet_events = before ++ (t0, e) :: after ∧ t0 + 10 ≤ 11 ∧ Forall (quiet 1 sample_prev_header) after.
Proof.
  split; [reflexivity|].
  destruct (synced_after_quiet_period 0 1 10 sample_prev_header quiet_events quiet_task 11 TimerTick quiet_reached eq_refl) as (_ & H & _).
  destruct (H sample_prev_header eq_refl eq_refl) as [_ Hq]. apply Hq. lia.
Defined.

Lemma never_synced_without_timer_witness :
  state (sync_run 1 (PeerCount 1) (SyncTask_new 0 1 0 sample_prev_header)) = NotSynced.
Proof.
  apply (never_synced_without_timer 0 1 0 sample_prev_header [(1, PeerCount 1)]); [reflexivity|lia|].
  apply (sync_step 0 1 0 sample_prev_header [] _ 1 (PeerCount 1)); [|done]. apply sync_start.
Defined.

(** ** The trigger [Open] *)
(** A node whose state is the time, and where nothing but sleeping takes any *)
Definition prompt_result : ExecutionResult := MkExecutionResult sample_block [] [] [] sample_db.
Definition prompt_ports : Ports Z := {|
  instant_now n := n;
  clock_now n := 2000 + as_secs n;
  port_is_available _ := true;
  port_seal_block _ n := (Ok (ConsensusPoA [1]), n);
  port_produce _ _ _ _ _ n := (Some (Ok prompt_result), n);
  port_produce_predefined _ n := (Ok prompt_result, n);
  port_commit_result _ _ n := (Ok (), n);
  port_notify_skipped_txs _ n := n;
  port_get_block _ _ := Ok None;
  sleep_until d n := Z.max n d
|}.
Lemma prompt_ports_ok : Prompt (P := prompt_ports).
Proof. split; cbn; intros; lia. Qed.
Definition open_task : MainTask := MkMainTask (TriggerOpen (from_secs 3)) 0 4 1000 0.
Lemma open_trigger_two_blocks_per_period_witness :
  ∃ s1 s2, produce_next_block (P := prompt_ports) (from_secs 3) (open_task, 0) = Some (Ok (), s1)
    ∧ produce_next_block (P := prompt_ports) (from_secs 3) s1 = Some (Ok (), s2)
    ∧ last_height s2.1 = 6 ∧ instant_now (Ports := prompt_ports) s2.2 = from_secs 3.
Proof.
  eexists _, _. split; [reflexivity|]. split; [reflexivity|]. split; [reflexivity|].
  eapply (open_trigger_two_blocks_per_period (P := prompt_ports) u64 (from_secs 3) (open_task, 0)).
  - exact prompt_ports_ok.
  - reflexivity.
  - by vm_compute.
  - reflexivity.
  - reflexivity.
  - reflexivity.
  - reflexivity.
  - reflexivity.
Defined.

(** ** A node *)
Definition producer_at (db : OnChain) : Producer :=
  MkProducer (Some 77) (MkUpgradableExecutor db sample_relayer sample_upgradable Native) (Some 8) true
    (Ok 3) (Ok 3) (λ _, Ok (MkConsensusParameters 9 1000 100000 0 [])).
Definition node_config : NodeConfig :=
  MkNodeConfig sample_config 1 producer_at (λ _, sample_source) (λ _, []) (λ _, O) 5 (Some (λ _, Ok [1])) ∅ 0.
(** While the block is produced, an older block arrives from the network. *)
Definition first_node : Node := MkNode sample_importer 100 2000 [MkPause 200 2000 [(O, sample_genesis)]] [].
Definition first_task : MainTask * Node :=
  (into_task (P := node_ports node_config) (MainTask_new (P := node_ports node_config) u64 TriggerInstant (from_secs 20) sample_prev_header first_node) first_node, first_node).

Lemma sample_wasm_headers T (source : TransactionsSource T) module instance c dry_run res :
  run_produce source module instance c dry_run = Some (Ok res) → PartialBlockHeader_from (header (res_block res)) = header_to_produce c.
Proof. done. Qed.

(** Without the other import: the block is committed, and accepted by a peer. *)
Definition quiet_node : Node := MkNode sample_importer 100 2000 [] [].
Definition node_production : option (result ProducerError ExecutionResult) :=
  Eval vm_compute in produce_and_execute_block node_config 5 2000 FromTxPool 100 sample_onchain.
Lemma poa_block_reaches_peers_witness :
  ∃ res self n peer, node_production = Some (Ok res)
    ∧ poa_produce_block (P := node_ports node_config) 5 2000 FromTxPool 100 (first_task.1, quiet_node) = (Ok (), (self, n))
    ∧ execute_and_commit sample_config 0 (MkSealedBlock (res_block res) (ConsensusPoA [1])) sample_importer = (Ok (), peer)
    ∧ database peer = database (nd_importer n).
Proof.
  destruct node_production as [[res|]|] eqn:E; [|discriminate E|discriminate E].
  destruct (poa_block_reaches_peers node_config sample_wasm_headers [sample_genesis] sample_genesis first_task.1 quiet_node 5 2000 100 res
    (λ _, Ok [1]) [1]) as (self & n & Hp & _ & _ & Hpeers).
  - reflexivity.
  - by vm_compute.
  - exact sample_same_node.
  - exact sample_chain.
  - repeat constructor; vm_compute; discriminate.
  - repeat constructor; vm_compute; discriminate.
  - intros id. assert (transactions_table (view_provider sample_producer) = ∅) as Hempty by (vm_compute; reflexivity).
    change (view_provider (nc_producer node_config (database (nd_importer quiet_node)))) with (view_provider sample_producer).
    rewrite Hempty, lookup_empty. intros [? [=]].
  - reflexivity.
  - reflexivity.
  - reflexivity.
  - by vm_compute.
  - intros c cp _ _. exists (λ _, True). split; [exact I|]. intros ts g k z _. split; [|exact I]. cbn. apply Forall_forall.
    intros [|] _; done.
  - rewrite <- E. vm_compute. reflexivity.
  - injection E as <-. repeat constructor.
  - injection E as <-. repeat constructor.
  - reflexivity.
  - reflexivity.
  - destruct (Hpeers sample_importer O sample_same_node) as (peer & H1 & H2). exists res, self, n, peer.
    exact (conj eq_refl (conj Hp (conj H1 H2))).
Defined.
