(* ===== verification/TxStatus.v ===== *)
(** * The transaction status manager

    [crates/services/tx_status_manager/src/{manager,update_sender,tx_status_stream,service}.rs]:
    the latest status of every transaction, kept for a while, and the
    subscribers to its changes.  Channels are tokio's bounded queues: they live
    in a store, and a sender and its receiver refer to the same one.  An
    instant is a number; every reading of the clock is an argument.  The text
    made from the receipts of a failed transaction is a parameter. *)
From stdpp Require Import strings.
From S2P Require Import Prelude FuelTypes ExecutorTypes.

(** ** Statuses *)
Inductive TransactionStatus :=
| StSubmitted (timestamp : Z)
| StSuccess (block_height : BlockHeight) (block_timestamp : Z) (program_state : option ProgramState) (receipts : list Receipt)
    (total_gas total_fee : Z)
| StPreConfirmationSuccess (tx_pointer : TxPointer) (total_gas total_fee : Z) (receipts : option (list Receipt))
    (outputs : option (list Output))
| StSqueezedOut (reason : string)
| StPreConfirmationSqueezedOut (reason : string)
| StFailure (block_height : BlockHeight) (block_timestamp : Z) (program_state : option ProgramState) (receipts : list Receipt)
    (total_gas total_fee : Z) (reason : string)
| StPreConfirmationFailure (tx_pointer : TxPointer) (total_gas total_fee : Z) (receipts : option (list Receipt))
    (outputs : option (list Output)) (reason : string).

Definition status_is_final (self : TransactionStatus) : bool :=
  match self with
  | StSuccess _ _ _ _ _ _ | StFailure _ _ _ _ _ _ _ | StSqueezedOut _ | StPreConfirmationSqueezedOut _ => true
  | StSubmitted _ | StPreConfirmationSuccess _ _ _ _ _ | StPreConfirmationFailure _ _ _ _ _ _ => false
  end.

(** [PreconfirmationStatus] and [Preconfirmation] as they are gossiped *)
Inductive GossipedStatus :=
| GsSqueezedOut (reason : string)
| GsSuccess (tx_pointer : TxPointer) (total_gas total_fee : Z) (receipts : list Receipt) (outputs : list Output)
| GsFailure (tx_pointer : TxPointer) (total_gas total_fee : Z) (receipts : list Receipt) (outputs : list Output).
Inductive P2PPreConfirmationMessage := Delegate | Preconfirmations (preconfirmations : list (TxId * GossipedStatus)).

Section from_gossip.
(** [TransactionExecutionResult::reason] without a program state *)
Variable failure_reason : list Receipt → string.
Definition status_from_gossip (value : GossipedStatus) : TransactionStatus :=
  match value with
  | GsSqueezedOut reason => StPreConfirmationSqueezedOut reason
  | GsSuccess p g f receipts outputs => StPreConfirmationSuccess p g f (Some receipts) (Some outputs)
  | GsFailure p g f receipts outputs =>
      StPreConfirmationFailure p g f (Some receipts) (Some outputs) (failure_reason receipts)
  end.
End from_gossip.

(** ** The stream of one subscriber *)
Inductive TxStatusMessage := MsgStatus (status : TransactionStatus) | MsgFailedStatus.
Definition is_final (self : TxStatusMessage) : bool :=
  match self with MsgStatus status => status_is_final status | MsgFailedStatus => true end.

Inductive StreamState :=
| StateEmpty
| StateSubmitted (s : TransactionStatus)
| StatePreconfirmed (s : TransactionStatus)
| StateEarlySuccess (s : TransactionStatus)
| StateSuccess (s1 s2 : TransactionStatus)
| StateFailed
| StateLateFailed (s : TransactionStatus)
| StateSenderClosed (s : TransactionStatus)
| StateClosed.

Definition add_msg (msg : TxStatusMessage) (state : StreamState) : StreamState :=
  match state, msg with
  | StateEmpty, MsgStatus (StSubmitted _ as s) => StateSubmitted s
  | StateEmpty, MsgStatus (StPreConfirmationSuccess _ _ _ _ _ as s) => StatePreconfirmed s
  | StateEmpty, MsgStatus (StPreConfirmationFailure _ _ _ _ _ _ as s) => StatePreconfirmed s
  | StateEmpty, MsgStatus s => StateEarlySuccess s
  | StateEmpty, MsgFailedStatus => StateFailed
  | StateSubmitted _, MsgStatus (StSubmitted _ as s2) => StateSubmitted s2
  | StateSubmitted _, MsgStatus (StPreConfirmationSuccess _ _ _ _ _ as s2) => StatePreconfirmed s2
  | StateSubmitted _, MsgStatus (StPreConfirmationFailure _ _ _ _ _ _ as s2) => StatePreconfirmed s2
  | StateSubmitted s1, MsgStatus s2 => StateSuccess s1 s2
  | StateSubmitted s1, MsgFailedStatus => StateLateFailed s1
  | StatePreconfirmed s1, MsgStatus s2 => StateSuccess s1 s2
  | StatePreconfirmed s1, MsgFailedStatus => StateLateFailed s1
  | s, _ => s
  end.
Definition add_failure (state : StreamState) : StreamState :=
  match state with
  | StateSubmitted s | StatePreconfirmed s => StateLateFailed s
  | StateEmpty => StateFailed
  | s => s
  end.
Definition try_next (state : StreamState) : option TxStatusMessage * StreamState :=
  match state with
  | StateSubmitted s | StatePreconfirmed s => (Some (MsgStatus s), StateEmpty)
  | StateEmpty => (None, StateEmpty)
  | StateEarlySuccess s | StateSenderClosed s => (Some (MsgStatus s), StateClosed)
  | StateFailed => (Some MsgFailedStatus, StateClosed)
  | StateLateFailed s => (Some (MsgStatus s), StateFailed)
  | StateSuccess s1 s2 => (Some (MsgStatus s1), StateSenderClosed s2)
  | StateClosed => (None, StateClosed)
  end.
Definition is_closed (state : StreamState) : bool := match state with StateClosed => true | _ => false end.

(** ** Channels

    [sent] is every message the channel ever accepted, of which the receiver
    has taken the first [received]. *)
Definition BUFFER_SIZE : nat := 2.
Record Channel := MkChannel { sent : list TxStatusMessage; received : nat; receiver_open : bool }.
Definition Channel_new : Channel := MkChannel [] 0 true.

Inductive SendError := Full | Closed.
Definition channel_try_send (msg : TxStatusMessage) (self : Channel) : result SendError Channel :=
  if receiver_open self then
    if decide (length (sent self) - received self < BUFFER_SIZE)%nat
    then Ok (MkChannel (sent self ++ [msg]) (received self) true)
    else Err Full
  else Err Closed.
(** The next message for the receiver, if there is one. *)
Definition channel_recv (self : Channel) : option TxStatusMessage * Channel :=
  match sent self !! received self with
  | Some msg => (Some msg, MkChannel (sent self) (S (received self)) (receiver_open self))
  | None => (None, self)
  end.
Definition channel_close (self : Channel) : Channel := MkChannel (sent self) (received self) false.

(** ** Subscribers

    A sender holds a permit of the semaphore until it is dropped, so that a
    permit is available as long as there are fewer senders than [capacity]. *)
Record Sender := MkSender { stream : StreamState; sender_tx : nat; created : Z }.
Record UpdateSender := MkUpdateSender {
  senders : gmap TxId (list Sender);
  capacity : nat;
  sender_ttl : Z;
  channels : list Channel
}.
Definition UpdateSender_new (capacity : nat) (ttl : Z) : UpdateSender := MkUpdateSender ∅ capacity ttl [].

Definition count_senders (m : gmap TxId (list Sender)) : nat := map_fold (λ _ l n, (length l + n)%nat) 0%nat m.

(** [Instant::elapsed] and [Instant::duration_since] are zero for instants
    that are not in the past. *)
Definition duration_since (now past : Z) : Z := Z.max 0 (now - past).

Definition sender_alive (now ttl : Z) (sender : Sender) : bool :=
  negb (is_closed (stream sender)) && bool_decide (duration_since now (created sender) < ttl).
Definition remove_closed_and_expired (now ttl : Z) (m : gmap TxId (list Sender)) : gmap TxId (list Sender) :=
  omap (λ l, match List.filter (sender_alive now ttl) l with [] => None | l => Some l end) m.

Definition sender_try_send (msg : TxStatusMessage) (self : Sender) (chans : list Channel)
    : result SendError unit * (Sender * list Channel) :=
  let '(next, state) := try_next (add_msg msg (stream self)) in
  let '(state, chans) :=
    match next, chans !! sender_tx self with
    | Some msg, Some ch =>
        match channel_try_send msg ch with
        | Ok ch => (state, <[sender_tx self := ch]> chans)
        | Err Full => (add_failure state, chans)
        | Err Closed => (StateClosed, chans)
        end
    | _, _ => (state, chans)
    end in
  (if is_closed state then Err Closed else Ok (), (MkSender state (sender_tx self) (created self), chans)).

(** [senders.retain_mut(|sender| sender.try_send(message.clone()).is_ok())] *)
Fixpoint send_to_all (msg : TxStatusMessage) (l : list Sender) (chans : list Channel) : list Sender * list Channel :=
  match l with
  | [] => ([], chans)
  | sender :: l =>
      let '(r, (sender, chans)) := sender_try_send msg sender chans in
      let '(l, chans) := send_to_all msg l chans in
      ((if is_ok r then sender :: l else l), chans)
  end.

Definition send (now : Z) (tx_id : TxId) (message : TxStatusMessage) (self : UpdateSender) : UpdateSender :=
  let m := remove_closed_and_expired now (sender_ttl self) (senders self) in
  match m !! tx_id with
  | Some l =>
      let '(l, chans) := send_to_all message l (channels self) in
      MkUpdateSender (match l with [] => delete tx_id m | _ => <[tx_id := l]> m end) (capacity self) (sender_ttl self) chans
  | None => MkUpdateSender m (capacity self) (sender_ttl self) (channels self)
  end.

(** The receiver that is returned is the index of its channel. *)
Definition subscribe_sender (now : Z) (tx_id : TxId) (self : UpdateSender) : nat * UpdateSender :=
  let tx := length (channels self) in
  (tx, MkUpdateSender (<[tx_id := unwrap_or [] (senders self !! tx_id) ++ [MkSender StateEmpty tx now]]> (senders self))
         (capacity self) (sender_ttl self) (channels self ++ [Channel_new])).
Definition clean_senders (now : Z) (self : UpdateSender) : UpdateSender :=
  MkUpdateSender (remove_closed_and_expired now (sender_ttl self) (senders self)) (capacity self) (sender_ttl self)
    (channels self).
Definition try_subscribe (now : Z) (tx_id : TxId) (self : UpdateSender) : option nat * UpdateSender :=
  let self := clean_senders now self in
  if decide (count_senders (senders self) < capacity self)%nat then
    let '(rx, self) := subscribe_sender now tx_id (clean_senders now self) in
    (Some rx, self)
  else (None, self).

(** ** The manager *)
Record Data := MkData {
  pruning_queue : list (Z * TxId);           (* the front first *)
  non_prunable_statuses : gmap TxId TransactionStatus;
  prunable_statuses : gmap TxId (Z * TransactionStatus)
}.
Definition Data_empty : Data := MkData [] ∅ ∅.
Record TxStatusManager := MkTxStatusManager { data : Data; update_sender : UpdateSender; cache_ttl : Z }.
Definition TxStatusManager_new (tx_status_change : UpdateSender) (ttl : Z) : TxStatusManager :=
  MkTxStatusManager Data_empty tx_status_change ttl.

Definition is_prunable (status : TransactionStatus) : bool := match status with StSubmitted _ => false | _ => true end.

(** The loop of [prune_old_statuses] over the queue, its back first. *)
Fixpoint prune_loop (now ttl : Z) (queue : list (Z * TxId)) (statuses : gmap TxId (Z * TransactionStatus))
    : list (Z * TxId) * gmap TxId (Z * TransactionStatus) :=
  match queue with
  | [] => ([], statuses)
  | (past, tx_id) :: rest =>
      if decide (duration_since now past < ttl) then (queue, statuses)
      else
        prune_loop now ttl rest
          match statuses !! tx_id with
          | Some (timestamp, _) => if decide (timestamp = past) then delete tx_id statuses else statuses
          | None => statuses
          end
  end.
Definition prune_old_statuses (now ttl : Z) (self : Data) : Data :=
  let '(queue, statuses) := prune_loop now ttl (rev (pruning_queue self)) (prunable_statuses self) in
  MkData (rev queue) (non_prunable_statuses self) statuses.
Definition add_new_status (now : Z) (tx_id : TxId) (tx_status : TransactionStatus) (self : Data) : Data :=
  if is_prunable tx_status then
    MkData ((now, tx_id) :: pruning_queue self) (delete tx_id (non_prunable_statuses self))
      (<[tx_id := (now, tx_status)]> (prunable_statuses self))
  else MkData (pruning_queue self) (<[tx_id := tx_status]> (non_prunable_statuses self)) (prunable_statuses self).
Definition register_status (now ttl : Z) (tx_id : TxId) (tx_status : TransactionStatus) (self : Data) : Data :=
  add_new_status now tx_id tx_status (prune_old_statuses now ttl self).

Definition status_update (now : Z) (tx_id : TxId) (tx_status : TransactionStatus) (self : TxStatusManager) : TxStatusManager :=
  MkTxStatusManager (register_status now (cache_ttl self) tx_id tx_status (data self))
    (send now tx_id (MsgStatus tx_status) (update_sender self)) (cache_ttl self).
Definition status (tx_id : TxId) (self : TxStatusManager) : option TransactionStatus :=
  match non_prunable_statuses (data self) !! tx_id with
  | Some status => Some status
  | None => snd <$> prunable_statuses (data self) !! tx_id
  end.
Definition tx_update_subscribe (now : Z) (tx_id : TxId) (self : TxStatusManager) : option nat * TxStatusManager :=
  let '(rx, sender) := try_subscribe now tx_id (update_sender self) in
  (rx, MkTxStatusManager (data self) sender (cache_ttl self)).
Definition skipped_status (reason : string) : TransactionStatus :=
  StSqueezedOut ("Transaction has been skipped during block insertion: " +:+ reason).
Definition notify_skipped_txs (now : Z) (tx_ids_and_reason : list (TxId * string)) (self : TxStatusManager) : TxStatusManager :=
  foldl (λ self p, status_update now p.1 (skipped_status p.2) self) self tx_ids_and_reason.

(** ** The task

    Each request is handled at one instant. *)
Inductive TaskRequest :=
| Gossiped (message : option P2PPreConfirmationMessage)
| UpdateStatus (tx_id : TxId) (status : TransactionStatus)
| NotifySkipped (tx_ids_and_reason : list (TxId * string))
| GetStatus (tx_id : TxId)
| SubscribeTo (tx_id : TxId).
Inductive TaskAnswer := NoAnswer | StatusAnswer (status : option TransactionStatus) | StreamAnswer (receiver : option nat).

Section task.
Variable failure_reason : list Receipt → string.
Definition new_preconfirmations_from_p2p (now : Z) (preconfirmations : P2PPreConfirmationMessage) (self : TxStatusManager)
    : TxStatusManager :=
  match preconfirmations with
  | Delegate => self
  | Preconfirmations l => foldl (λ self p, status_update now p.1 (status_from_gossip failure_reason p.2) self) self l
  end.
Definition handle_request (now : Z) (request : TaskRequest) (self : TxStatusManager) : TaskAnswer * TxStatusManager :=
  match request with
  | Gossiped (Some msg) => (NoAnswer, new_preconfirmations_from_p2p now msg self)
  | Gossiped None => (NoAnswer, self)
  | UpdateStatus tx_id status => (NoAnswer, status_update now tx_id status self)
  | NotifySkipped l => (NoAnswer, notify_skipped_txs now l self)
  | GetStatus tx_id => (StatusAnswer (status tx_id self), self)
  | SubscribeTo tx_id => let '(rx, self) := tx_update_subscribe now tx_id self in (StreamAnswer rx, self)
  end.
End task.
