(* ===== verification/TxStatusFacts.v ===== *)
(** * What the transaction status manager guarantees

    The status it answers is the latest one, until it is too old; and the
    stream of a subscriber is a faithful account of the statuses of its
    transaction since the subscription. *)
From stdpp Require Import strings sorting.
From S2P Require Import Prelude FuelTypes ExecutorTypes TxStatus.

(** ** The latest status *)
Record Update := MkUpdate { up_time : Z; up_tx : TxId; up_status : TransactionStatus }.

Definition register (ttl : Z) (d : Data) (u : Update) : Data := register_status (up_time u) ttl (up_tx u) (up_status u) d.
Definition timely (us : list Update) : Prop := StronglySorted Z.le (up_time <$> us).

(** The last update of a transaction among those that satisfy [P]. *)
Definition last_update (P : Update → bool) (us : list Update) (tx : TxId) : option Update :=
  last (List.filter (λ u, bool_decide (up_tx u = tx) && P u) us).
Definition prunable_update (u : Update) : bool := is_prunable (up_status u).

Lemma last_update_snoc P us u tx :
  last_update P (us ++ [u]) tx = if bool_decide (up_tx u = tx) && P u then Some u else last_update P us tx.
Proof.
  unfold last_update. rewrite List.filter_app. cbn [List.filter]. destruct (_ && _); [by rewrite last_snoc|by rewrite app_nil_r].
Qed.

Lemma last_update_in P us tx u : last_update P us tx = Some u → u ∈ us ∧ up_tx u = tx ∧ P u = true.
Proof.
  intros Hu. apply last_Some_elem_of in Hu. apply list_elem_of_In, filter_In in Hu as [Hin Hb].
  apply andb_true_iff in Hb as [Hb HP]. apply bool_decide_eq_true in Hb. split; [by apply list_elem_of_In|done].
Qed.

(** Pruning a queue in the order of time: it keeps what is young, and removes
    the statuses whose entry it dropped. *)
Lemma prune_loop_spec now ttl queue m :
  StronglySorted Z.le queue.*1 →
  (prune_loop now ttl queue m).1 = List.filter (λ e, bool_decide (duration_since now e.1 < ttl)) queue
  ∧ ∀ tx, (prune_loop now ttl queue m).2 !! tx =
      match m !! tx with
      | Some (t, s) => if decide ((t, tx) ∈ queue ∧ ttl ≤ duration_since now t) then None else Some (t, s)
      | None => None
      end.
Proof.
  revert m. induction queue as [|[past tx0] queue IH]; intros m Hs; cbn [prune_loop].
  - split; [done|]. intros tx. destruct (m !! tx) as [[t s]|] eqn:E; cbn; rewrite E; [|done].
    rewrite decide_False; [done|]. intros [[]%not_elem_of_nil _].
  - cbn in Hs. apply StronglySorted_inv in Hs as [Hs Hall]. rewrite Forall_fmap, Forall_forall in Hall. case_decide as Hyoung.
    + assert (∀ e, e ∈ (past, tx0) :: queue → duration_since now e.1 < ttl) as Hy.
      { intros e [->|He]%elem_of_cons; [done|]. specialize (Hall e He). cbn in Hall. unfold duration_since in *. lia. }
      split.
      * cbn [fst]. symmetry. apply forallb_filter_id, forallb_forall. intros e He%list_elem_of_In. apply bool_decide_eq_true. by apply Hy.
      * intros tx. cbn [snd]. destruct (m !! tx) as [[t s]|]; [|done]. rewrite decide_False; [done|].
        intros [Hin Ho]. specialize (Hy _ Hin). cbn in Hy. lia.
    + destruct (IH (match m !! tx0 with Some (timestamp, _) => if decide (timestamp = past) then delete tx0 m else m | None => m end) Hs)
        as [H1 H2]. split.
      * rewrite H1. cbn [List.filter fst]. by rewrite bool_decide_eq_false_2.
      * intros tx. rewrite H2. clear H1 H2 IH. destruct (decide (tx = tx0)) as [->|Hne].
        -- destruct (m !! tx0) as [[t s]|] eqn:E; [|by rewrite E]. case_decide as Ht.
           ++ subst t. rewrite lookup_delete_eq. rewrite decide_True; [done|]. split; [left|lia].
           ++ rewrite E. apply decide_ext. rewrite elem_of_cons. naive_solver.
        -- assert (match m !! tx0 with Some (timestamp, _) => if decide (timestamp = past) then delete tx0 m else m | None => m end !! tx
             = m !! tx) as ->.
           { destruct (m !! tx0) as [[t s]|]; [|done]. case_decide; [|done]. by rewrite lookup_delete_ne. }
           destruct (m !! tx) as [[t s]|]; [|done]. apply decide_ext. rewrite elem_of_cons. naive_solver.
Qed.

Lemma filter_fmap_filter {A B : Type} (g : A → B) (p p' : A → bool) (f : B → bool) (l : list A) :
  (∀ x, p x && f (g x) = p' x) → List.filter f (g <$> List.filter p l) = g <$> List.filter p' l.
Proof.
  intros Hp. induction l as [|x l IH]; [done|]. cbn [List.filter]. rewrite <- Hp. destruct (p x); cbn [andb fmap list_fmap List.filter].
  - destruct (f (g x)); cbn; [by f_equal|done].
  - done.
Qed.

(** The tables as a function of the updates so far, of which the last was at
    [now]. *)
Definition young (now ttl : Z) (u : Update) : bool := bool_decide (now - up_time u < ttl).
Record Cache (ttl now : Z) (us : list Update) (d : Data) : Prop := {
  ca_times u : u ∈ us → up_time u ≤ now;
  ca_queue : pruning_queue d = rev ((λ u, (up_time u, up_tx u)) <$> List.filter (λ u, prunable_update u && young now ttl u) us);
  ca_submitted tx : non_prunable_statuses d !! tx =
    match last_update (λ _, true) us tx with Some u => if prunable_update u then None else Some (up_status u) | None => None end;
  ca_prunable tx : prunable_statuses d !! tx =
    match last_update prunable_update us tx with
    | Some u => if young now ttl u then Some (up_time u, up_status u) else None
    | None => None
    end
}.

Lemma prune_cache ttl now us d now' :
  0 < ttl → timely us → Cache ttl now us d → now ≤ now' → Cache ttl now' us (prune_old_statuses now' ttl d).
Proof.
  intros Httl Hs [Ht Hq Hn Hp] Hle. unfold prune_old_statuses.
  set (q := (λ u, (up_time u, up_tx u)) <$> List.filter (λ u, prunable_update u && young now ttl u) us) in *.
  assert (∀ t, ttl ≤ duration_since now' t ↔ ¬ (now' - t < ttl)) as Hdur by (intros t; unfold duration_since; lia).
  assert (StronglySorted Z.le q.*1) as Hsq.
  { unfold q. rewrite <- list_fmap_compose. unfold timely in Hs. clear -Hs. induction us as [|u us IH]; [constructor|].
    cbn in Hs. apply StronglySorted_inv in Hs as [Hs Hall]. cbn [List.filter]. destruct (_ && _); [|by apply IH].
    cbn. constructor; [by apply IH|]. rewrite Forall_fmap, Forall_forall in Hall |- *. intros v Hv. apply Hall.
    apply list_elem_of_In, filter_In in Hv as [Hv _]. by apply list_elem_of_In. }
  rewrite Hq, rev_involutive. destruct (prune_loop_spec now' ttl q (prunable_statuses d) Hsq) as [H1 H2].
  destruct (prune_loop now' ttl q (prunable_statuses d)) as [q' m']. cbn in H1, H2. split.
  - intros u Hu. specialize (Ht u Hu). lia.
  - cbn. rewrite H1. f_equal. apply filter_fmap_filter. intros u. cbn. unfold young. destruct (prunable_update u); cbn; [|done].
    apply eq_true_iff_eq. rewrite andb_true_iff, !bool_decide_eq_true. unfold duration_since. lia.
  - cbn. exact Hn.
  - intros tx. cbn. rewrite H2, Hp. destruct (last_update prunable_update us tx) as [u|] eqn:Hu; [|done].
    apply last_update_in in Hu as (Hin & <- & HP). unfold young. destruct (bool_decide (now - up_time u < ttl)) eqn:E1.
    + assert ((up_time u, up_tx u) ∈ q) as Hinq.
      { apply list_elem_of_fmap. exists u. split; [done|]. apply list_elem_of_In, filter_In. split; [by apply list_elem_of_In|].
        unfold young. by rewrite HP, E1. }
      destruct (bool_decide (now' - up_time u < ttl)) eqn:E2.
      * apply bool_decide_eq_true in E2. rewrite decide_False; [done|]. by intros [_ Hd%Hdur].
      * apply bool_decide_eq_false in E2. rewrite decide_True; [done|]. split; [done|by apply Hdur].
    + apply bool_decide_eq_false in E1. rewrite bool_decide_eq_false_2 by lia. done.
Qed.

Lemma add_cache ttl us d u :
  0 < ttl → Cache ttl (up_time u) us d → Cache ttl (up_time u) (us ++ [u]) (add_new_status (up_time u) (up_tx u) (up_status u) d).
Proof.
  intros Httl [Ht Hq Hn Hp].
  assert (young (up_time u) ttl u = true) as Hy by (apply bool_decide_eq_true; lia).
  unfold add_new_status. fold (prunable_update u). destruct (prunable_update u) eqn:HP; split; cbn [pruning_queue non_prunable_statuses prunable_statuses].
  1, 5: intros v [Hv|Hv%list_elem_of_singleton]%elem_of_app; [by apply Ht|by subst].
  1, 4: rewrite List.filter_app; cbn [List.filter]; rewrite HP, ?Hy; cbn [andb]; rewrite ?app_nil_r, ?fmap_app, ?rev_app_distr; cbn; by rewrite Hq.
  all: intros tx; rewrite last_update_snoc, ?HP, ?andb_true_r, ?andb_false_r; destruct (decide (up_tx u = tx)) as [<-|Hne];
    rewrite ?bool_decide_eq_true_2, ?bool_decide_eq_false_2 by done; cbn [andb].
  - by rewrite HP, lookup_delete_eq.
  - by rewrite lookup_delete_ne.
  - by rewrite Hy, lookup_insert_eq.
  - by rewrite lookup_insert_ne.
  - by rewrite HP, lookup_insert_eq.
  - by rewrite lookup_insert_ne.
  - done.
  - done.
Qed.

Lemma register_cache ttl us u now :
  0 < ttl → timely (us ++ [u]) → Cache ttl now us (foldl (register ttl) Data_empty us) → now ≤ up_time u →
  Cache ttl (up_time u) (us ++ [u]) (foldl (register ttl) Data_empty (us ++ [u])).
Proof.
  intros Httl Hs HC Hle. rewrite foldl_snoc. unfold register at 1, register_status. apply add_cache; [done|].
  eapply prune_cache; [done| |exact HC|done]. unfold timely in *. rewrite fmap_app in Hs. by apply StronglySorted_app_1_l in Hs.
Qed.

Lemma registered_cache ttl us :
  0 < ttl → timely us → Cache ttl (from_option up_time 0 (last us)) us (foldl (register ttl) Data_empty us).
Proof.
  intros Httl. induction us as [|u us IH] using rev_ind; intros Hs.
  - cbn. split; cbn; [by intros u ?%not_elem_of_nil|done|intros tx; by rewrite lookup_empty..].
  - rewrite last_snoc. cbn [from_option].
    assert (timely us) as Hs' by (unfold timely in *; rewrite fmap_app in Hs; by apply StronglySorted_app_1_l in Hs).
    apply (register_cache _ _ _ (Z.min (from_option up_time (up_time u) (last us)) (up_time u))); [done|done| |lia].
    destruct (last us) as [v|] eqn:Hl; cbn [from_option].
    + rewrite Z.min_l; [by apply IH|]. unfold timely in Hs. rewrite fmap_app in Hs. apply StronglySorted_app_1_elem_of with (x1 := up_time v) (x2 := up_time u) in Hs; [done| |left].
      apply list_elem_of_fmap_2. by apply last_Some_elem_of.
    + apply last_None in Hl as ->. split; cbn; [by intros v ?%not_elem_of_nil|done|intros tx; by rewrite lookup_empty..].
Qed.

(** ** Histories *)
Section histories.
Context (failure_reason : list Receipt → string).

(** Requests to the task, and what receivers of streams do. *)
Inductive Event := EvRequest (now : Z) (request : TaskRequest) | EvRecv (receiver : nat) | EvDrop (receiver : nat).

Definition on_channel (f : Channel → Channel) (c : nat) (m : TxStatusManager) : TxStatusManager :=
  let us := update_sender m in
  MkTxStatusManager (data m) (MkUpdateSender (senders us) (capacity us) (sender_ttl us) (alter f c (channels us))) (cache_ttl m).
Definition event_step (m : TxStatusManager) (ev : Event) : TxStatusManager :=
  match ev with
  | EvRequest now r => (handle_request failure_reason now r m).2
  | EvRecv c => on_channel (λ ch, (channel_recv ch).2) c m
  | EvDrop c => on_channel channel_close c m
  end.

(** The status updates an event brings. *)
Definition request_updates (now : Z) (r : TaskRequest) : list Update :=
  match r with
  | Gossiped (Some (Preconfirmations l)) => (λ p, MkUpdate now p.1 (status_from_gossip failure_reason p.2)) <$> l
  | UpdateStatus tx s => [MkUpdate now tx s]
  | NotifySkipped l => (λ p, MkUpdate now p.1 (skipped_status p.2)) <$> l
  | _ => []
  end.
Definition event_updates (ev : Event) : list Update := match ev with EvRequest now r => request_updates now r | _ => [] end.
Definition apply_update (m : TxStatusManager) (u : Update) : TxStatusManager := status_update (up_time u) (up_tx u) (up_status u) m.

Lemma foldl_updates {A : Type} (g : A → Update) (f : TxStatusManager → A → TxStatusManager) l m :
  (∀ m x, f m x = apply_update m (g x)) → foldl f m l = foldl apply_update m (g <$> l).
Proof. intros Hf. revert m. induction l as [|x l IH]; intros m; cbn; [done|]. by rewrite Hf, IH. Qed.

(** Requests other than subscriptions are their updates. *)
Lemma event_step_updates m ev :
  match ev with
  | EvRequest now (SubscribeTo tx) => event_step m ev = (tx_update_subscribe now tx m).2
  | EvRequest now r => event_step m ev = foldl apply_update m (request_updates now r)
  | _ => True
  end.
Proof.
  destruct ev as [now r| |]; [|done..]. destruct r as [[[|l]|]|tx s|l|tx|tx]; cbn; try done.
  - by apply foldl_updates.
  - by apply foldl_updates.
  - by destruct (tx_update_subscribe now tx m).
Qed.

Lemma updates_data us m :
  data (foldl apply_update m us) = foldl (register (cache_ttl m)) (data m) us ∧ cache_ttl (foldl apply_update m us) = cache_ttl m.
Proof. revert m. induction us as [|u us IH]; intros m; cbn [foldl]; [done|]. by destruct (IH (apply_update m u)) as [-> ->]. Qed.

Lemma event_step_data m ev :
  data (event_step m ev) = foldl (register (cache_ttl m)) (data m) (event_updates ev) ∧ cache_ttl (event_step m ev) = cache_ttl m.
Proof.
  pose proof (event_step_updates m ev) as Hev. destruct ev as [now r| |]; [|done..]. cbn [event_updates].
  destruct r as [o|tx s|l|tx|tx]; rewrite Hev; try apply updates_data.
  unfold tx_update_subscribe. by destruct (try_subscribe now tx (update_sender m)).
Qed.

(** C36 The status that the manager answers is the latest one it was told, from
    whatever source, and it answers it as long as it should: a submitted
    transaction for good, any other status until an update that comes at least
    the time to live later.  The hypothesis: the clock does not run backwards. *)
Theorem status_is_latest sender ttl evs tx :
  0 < ttl → timely (evs ≫= event_updates) →
  let us := evs ≫= event_updates in
  status tx (foldl event_step (TxStatusManager_new sender ttl) evs) =
    match last_update (λ _, true) us tx with
    | Some u =>
        if is_prunable (up_status u) && bool_decide (ttl ≤ from_option up_time 0 (last us) - up_time u) then None
        else Some (up_status u)
    | None => None
    end.
Proof.
  intros Httl Hs us. set (m := TxStatusManager_new sender ttl).
  assert (∀ m, data (foldl event_step m evs) = foldl (register (cache_ttl m)) (data m) us) as Hd.
  { unfold us. clear. induction evs as [|ev evs IH]; intros m; [done|]. cbn [foldl]. rewrite IH.
    destruct (event_step_data m ev) as [-> ->]. rewrite bind_cons, foldl_app. done. }
  unfold status. rewrite (Hd m). change (cache_ttl m) with ttl. change (data m) with Data_empty.
  destruct (registered_cache ttl us Httl Hs) as [_ _ Hn Hp]. rewrite Hn, Hp. clear Hn Hp Hd m.
  assert (last_update prunable_update us tx = match last_update (λ _, true) us tx with
    Some u => if prunable_update u then Some u else last_update prunable_update us tx | None => None end) as Hlast.
  { clear Hs. generalize us. clear. intros us. induction us as [|u us IH] using rev_ind; [done|]. rewrite !last_update_snoc.
    destruct (bool_decide (up_tx u = tx)); cbn [andb]; [by destruct (prunable_update u)|done]. }
  destruct (last_update (λ _, true) us tx) as [u|] eqn:Hu; [|by rewrite Hlast].
  fold (prunable_update u). destruct (prunable_update u); [|done]. rewrite Hlast. unfold young. cbn [andb].
  destruct (bool_decide (ttl ≤ _)) eqn:E; [apply bool_decide_eq_true in E|apply bool_decide_eq_false in E].
  - by rewrite bool_decide_eq_false_2 by lia.
  - by rewrite bool_decide_eq_true_2 by lia.
Qed.

(** ** One subscriber

    What the manager does, as one subscriber sees it: the sender it has, while
    it is kept, and its channel. *)
Record View := MkView { v_sender : option Sender; v_channel : Channel }.

Definition view_clean (now ttl : Z) (v : View) : View :=
  MkView (match v_sender v with Some s => if sender_alive now ttl s then Some s else None | None => None end) (v_channel v).
Definition deliver (msg : TxStatusMessage) (s : Sender) (ch : Channel) : Sender * Channel :=
  let '(r, (s', chans)) := sender_try_send msg (MkSender (stream s) 0 (created s)) [ch] in
  (MkSender (stream s') (sender_tx s) (created s), unwrap_or ch (chans !! 0%nat)).
Definition view_send (now ttl : Z) (msg : TxStatusMessage) (v : View) : View :=
  let v := view_clean now ttl v in
  match v_sender v with
  | Some s =>
      let '(s, ch) := deliver msg s (v_channel v) in
      MkView (if is_closed (stream s) then None else Some s) ch
  | None => v
  end.
Definition view_update (ttl : Z) (tx : TxId) (v : View) (u : Update) : View :=
  if decide (up_tx u = tx) then view_send (up_time u) ttl (MsgStatus (up_status u)) v else view_clean (up_time u) ttl v.
Definition view_event (ttl : Z) (tx : TxId) (c : nat) (v : View) (ev : Event) : View :=
  match ev with
  | EvRequest now (SubscribeTo _) => view_clean now ttl v
  | EvRequest now r => foldl (view_update ttl tx) v (request_updates now r)
  | EvRecv c' => if decide (c' = c) then MkView (v_sender v) (channel_recv (v_channel v)).2 else v
  | EvDrop c' => if decide (c' = c) then MkView (v_sender v) (channel_close (v_channel v)) else v
  end.

Definition on (c : nat) (s : Sender) : bool := bool_decide (sender_tx s = c).
Definition mine (c : nat) (l : list Sender) : list Sender := List.filter (on c) l.
Definition senders_of (m : gmap TxId (list Sender)) (tx : TxId) : list Sender := unwrap_or [] (m !! tx).
Record Sees (c : nat) (tx : TxId) (ttl : Z) (us : UpdateSender) (v : View) : Prop := {
  see_ttl : sender_ttl us = ttl;
  see_channel : channels us !! c = Some (v_channel v);
  see_sender tx' : mine c (senders_of (senders us) tx') = if decide (tx' = tx) then option_list (v_sender v) else []
}.

Lemma sender_try_send_local msg s chans ch :
  chans !! sender_tx s = Some ch →
  let d := deliver msg s ch in
  sender_try_send msg s chans = (if is_closed (stream d.1) then Err Closed else Ok (), (d.1, <[sender_tx s := d.2]> chans)).
Proof.
  intros Hch. unfold deliver, sender_try_send. cbn [stream sender_tx created].
  destruct (try_next (add_msg msg (stream s))) as [[m|] st]; rewrite ?Hch; cbn [lookup list_lookup].
  - destruct (channel_try_send m ch) as [ch'|[]]; cbn; rewrite ?list_insert_id by done; by destruct st.
  - cbn. rewrite list_insert_id by done. by destruct st.
Qed.

Lemma sender_try_send_frame msg s chans c :
  sender_tx s ≠ c → let r := sender_try_send msg s chans in r.2.2 !! c = chans !! c ∧ sender_tx r.2.1 = sender_tx s.
Proof.
  intros Hne. unfold sender_try_send. destruct (try_next _) as [[m|] st]; [|done].
  destruct (chans !! sender_tx s) as [ch|]; [|done]. destruct (channel_try_send m ch) as [ch'|[]]; cbn; [|done..].
  by rewrite list_lookup_insert_ne.
Qed.

Lemma send_to_all_mine msg c l chans ch :
  chans !! c = Some ch → (length (mine c l) ≤ 1)%nat →
  let r := send_to_all msg l chans in
  match mine c l with
  | [s] => let d := deliver msg s ch in r.2 !! c = Some d.2 ∧ mine c r.1 = if is_closed (stream d.1) then [] else [d.1]
  | _ => r.2 !! c = Some ch ∧ mine c r.1 = []
  end.
Proof.
  revert chans ch. induction l as [|s l IH]; intros chans ch Hch Hlen; [done|]. cbn [send_to_all].
  unfold mine in *. cbn [List.filter] in *. destruct (on c s) eqn:Hon.
  - apply bool_decide_eq_true in Hon as Hc. rewrite sender_try_send_local with (ch := ch) by (by rewrite Hc). rewrite Hc.
    destruct (List.filter (on c) l) as [|? ?] eqn:Hl; [|cbn in Hlen; lia].
    specialize (IH (<[c := (deliver msg s ch).2]> chans) (deliver msg s ch).2).
    destruct (send_to_all msg l _) as [l' chans'] eqn:E. destruct IH as [IH1 IH2].
    { apply list_lookup_insert_eq. by apply lookup_lt_Some in Hch. } { cbn. lia. }
    split; [done|]. cbn [fst] in IH2. assert (on c (deliver msg s ch).1 = true) as Hd.
    { unfold deliver. destruct (sender_try_send _ _ _) as [? [? ?]]. exact Hon. }
    destruct (is_closed (stream (deliver msg s ch).1)); cbn [is_ok fst List.filter]; [done|]. by rewrite Hd, IH2.
  - apply bool_decide_eq_false in Hon as Hc. pose proof (sender_try_send_frame msg s chans c Hc) as [Hf Ht].
    destruct (sender_try_send msg s chans) as [r [s' chans1]]. cbn in Hf, Ht. specialize (IH chans1 ch).
    destruct (send_to_all msg l chans1) as [l' chans']. rewrite Hf in IH. specialize (IH Hch Hlen). cbn [fst snd] in *.
    assert (List.filter (on c) (if is_ok r then s' :: l' else l') = List.filter (on c) l') as ->; [|exact IH].
    destruct (is_ok r); [|done]. cbn [List.filter]. unfold on at 1. by rewrite Ht, bool_decide_eq_false_2.
Qed.

Lemma filter_filter_comm {A : Type} (f g : A → bool) (l : list A) : List.filter f (List.filter g l) = List.filter g (List.filter f l).
Proof.
  induction l as [|x l IH]; [done|]. cbn. destruct (f x) eqn:Ef, (g x) eqn:Eg; cbn; rewrite ?Ef, ?Eg, ?IH; done.
Qed.

Lemma senders_of_clean now ttl m tx :
  senders_of (remove_closed_and_expired now ttl m) tx = List.filter (sender_alive now ttl) (senders_of m tx).
Proof.
  unfold senders_of, remove_closed_and_expired. rewrite lookup_omap. destruct (m !! tx) as [l|]; [|done]. cbn.
  by destruct (List.filter _ l).
Qed.

Lemma sees_clean c tx ttl us v now : Sees c tx ttl us v → Sees c tx ttl (clean_senders now us) (view_clean now ttl v).
Proof.
  intros [<- Hch Hs]. split; [done..|]. intros tx'. unfold clean_senders. cbn [senders]. unfold mine.
  rewrite senders_of_clean, filter_filter_comm. fold (mine c (senders_of (senders us) tx')). rewrite Hs.
  case_decide; [|done]. unfold view_clean. destruct (v_sender v) as [s|]; [|done]. cbn. by destruct (sender_alive _ _ s).
Qed.

Lemma senders_of_put m tx l tx' :
  senders_of (match l with [] => delete tx m | _ => <[tx := l]> m end) tx' = if decide (tx' = tx) then l else senders_of m tx'.
Proof.
  unfold senders_of. case_decide as H; [subst|]; destruct l; rewrite ?lookup_insert_eq, ?lookup_delete_eq, ?lookup_insert_ne, ?lookup_delete_ne; done.
Qed.

Lemma send_cleaned now tx msg us :
  send now tx msg us =
    let us := clean_senders now us in
    let '(l, chans) := send_to_all msg (senders_of (senders us) tx) (channels us) in
    MkUpdateSender (match l with [] => delete tx (senders us) | _ => <[tx := l]> (senders us) end) (capacity us) (sender_ttl us) chans.
Proof.
  unfold send, clean_senders, senders_of. cbn. destruct (_ !! tx) as [l|] eqn:E; [done|]. cbn. by rewrite delete_id.
Qed.

Lemma sees_update c tx us v ttl u :
  Sees c tx ttl us v →
  Sees c tx ttl (send (up_time u) (up_tx u) (MsgStatus (up_status u)) us) (view_update ttl tx v u).
Proof.
  intros Hsees%(sees_clean _ _ _ _ _ (up_time u)). rewrite send_cleaned. set (us' := clean_senders _ us) in *.
  unfold view_update, view_send. set (v' := view_clean _ ttl v) in *. clearbody us' v'. clear v us.
  destruct Hsees as [Httl Hch Hs]. pose proof (Hs (up_tx u)) as Hmine. cbn zeta.
  pose proof (send_to_all_mine (MsgStatus (up_status u)) c (senders_of (senders us') (up_tx u)) _ _ Hch) as Hsend.
  destruct (send_to_all _ _ _) as [l chans]. cbn [fst snd] in Hsend. rewrite Hmine in Hsend.
  assert (∀ o, mine c l = o →
    ∀ tx', mine c (senders_of (match l with [] => delete (up_tx u) (senders us') | _ => <[up_tx u := l]> (senders us') end) tx')
      = if decide (tx' = up_tx u) then o else if decide (tx' = tx) then option_list (v_sender v') else []) as Hput.
  { intros o <- tx'. rewrite senders_of_put, <- Hs. by destruct (decide (tx' = up_tx u)). }
  case_decide as Htx.
  - subst tx. destruct (v_sender v') as [s|] eqn:Ev; cbn [option_list] in Hsend.
    + destruct Hsend as [Hc Hl]; [cbn; lia|]. destruct (deliver _ s _) as [s' ch']. cbn [fst snd] in *. split; [done..|].
      intros tx'. cbn [senders]. rewrite (Hput _ Hl). case_decide; [|done]. by destruct (is_closed _).
    + destruct Hsend as [Hc Hl]; [cbn; lia|]. split; [done..|]. intros tx'. cbn [senders]. rewrite (Hput _ Hl), Ev. by case_decide.
  - destruct Hsend as [Hc Hl]; [cbn; lia|]. split; [done..|]. intros tx'. cbn [senders]. rewrite (Hput _ Hl).
    destruct (decide (tx' = up_tx u)) as [->|]; [|done]. by rewrite decide_False.
Qed.

Lemma view_clean_twice now ttl v : view_clean now ttl (view_clean now ttl v) = view_clean now ttl v.
Proof. unfold view_clean. destruct v as [[s|] ch]; cbn; [|done]. destruct (sender_alive now ttl s) eqn:E; by rewrite ?E. Qed.

Lemma senders_of_subscribe now tx us tx' :
  senders_of (senders (subscribe_sender now tx us).2) tx' =
    senders_of (senders us) tx' ++ if decide (tx' = tx) then [MkSender StateEmpty (length (channels us)) now] else [].
Proof.
  unfold senders_of, subscribe_sender. cbn. case_decide as H; [subst; by rewrite lookup_insert_eq|].
  rewrite lookup_insert_ne by done. by rewrite app_nil_r.
Qed.

Lemma sees_subscribe c tx ttl us v now tx0 :
  Sees c tx ttl us v → Sees c tx ttl (try_subscribe now tx0 us).2 (view_clean now ttl v).
Proof.
  intros Hsees. unfold try_subscribe. apply sees_clean with (now := now) in Hsees. case_decide; [|done].
  apply sees_clean with (now := now) in Hsees. rewrite view_clean_twice in Hsees. revert Hsees.
  generalize (clean_senders now (clean_senders now us)) (view_clean now ttl v). clear. intros us v [Httl Hch Hs].
  destruct (subscribe_sender now tx0 us) as [rx us'] eqn:E. replace us' with (subscribe_sender now tx0 us).2 by (by rewrite E).
  split; [done|..]; cbn [snd].
  - cbn. by apply lookup_app_l_Some.
  - intros tx'. rewrite senders_of_subscribe. unfold mine. rewrite List.filter_app. fold (mine c (senders_of (senders us) tx')).
    rewrite Hs. apply lookup_lt_Some in Hch. destruct (decide (tx' = tx0)); cbn [List.filter]; [|by rewrite app_nil_r].
    unfold on. cbn. by rewrite bool_decide_eq_false_2, app_nil_r by lia.
Qed.

Lemma sees_channel c tx ttl us v c' f :
  Sees c tx ttl us v →
  Sees c tx ttl (MkUpdateSender (senders us) (capacity us) (sender_ttl us) (alter f c' (channels us)))
    (if decide (c' = c) then MkView (v_sender v) (f (v_channel v)) else v).
Proof.
  intros [Httl Hch Hs]. case_decide as H; split; try done; cbn.
  - subst c'. by rewrite list_lookup_alter_eq, Hch.
  - by rewrite list_lookup_alter_ne.
Qed.

(** The manager and the view of a subscriber stay in step. *)
Lemma sees_event c tx ttl m v ev :
  Sees c tx ttl (update_sender m) v → Sees c tx ttl (update_sender (event_step m ev)) (view_event ttl tx c v ev).
Proof.
  intros Hsees. pose proof (event_step_updates m ev) as Hev. destruct ev as [now r|c'|c'].
  - assert (∀ us m v, Sees c tx ttl (update_sender m) v →
      Sees c tx ttl (update_sender (foldl apply_update m us)) (foldl (view_update ttl tx) v us)) as Hus.
    { clear. induction us as [|u us IH]; intros m v Hv; [done|]. cbn [foldl]. apply IH. by apply sees_update. }
    destruct r as [o|tx0 s|l|tx0|tx0]; rewrite Hev; try by apply Hus.
    pose proof (sees_subscribe c tx ttl _ v now tx0 Hsees) as Hsub. unfold tx_update_subscribe.
    by destruct (try_subscribe now tx0 (update_sender m)).
  - by apply (sees_channel c tx ttl (update_sender m) v c' (λ ch, (channel_recv ch).2)).
  - by apply sees_channel.
Qed.

Lemma sees_events c tx ttl m v evs :
  Sees c tx ttl (update_sender m) v →
  Sees c tx ttl (update_sender (foldl event_step m evs)) (foldl (view_event ttl tx c) v evs).
Proof. revert m v. induction evs as [|ev evs IH]; intros m v Hv; [done|]. cbn [foldl]. apply IH. by apply sees_event. Qed.

(** Senders refer to channels that exist. *)
Definition Bounded (us : UpdateSender) : Prop := ∀ tx s, s ∈ senders_of (senders us) tx → (sender_tx s < length (channels us))%nat.

Lemma send_to_all_bounded msg l chans :
  let r := send_to_all msg l chans in
  length r.2 = length chans ∧ ∀ s, s ∈ r.1 → ∃ s', s' ∈ l ∧ sender_tx s = sender_tx s'.
Proof.
  revert chans. induction l as [|s l IH]; intros chans; cbn [send_to_all]; [split; [done|intros s []%not_elem_of_nil]|].
  assert (let r := sender_try_send msg s chans in length r.2.2 = length chans ∧ sender_tx r.2.1 = sender_tx s) as [H1 H2].
  { unfold sender_try_send. destruct (try_next _) as [[m|] st]; [|done]. destruct (chans !! sender_tx s) as [ch|]; [|done].
    destruct (channel_try_send m ch) as [ch'|[]]; cbn; [|done..]. by rewrite length_insert. }
  destruct (sender_try_send msg s chans) as [r [s1 chans1]]. cbn in H1, H2. specialize (IH chans1) as [IH1 IH2].
  destruct (send_to_all msg l chans1) as [l' chans']. cbn in *. split; [congruence|]. intros s0 Hs0.
  assert (s0 = s1 ∨ s0 ∈ l') as [->|Hin] by (destruct (is_ok r); set_solver).
  - exists s. split; [left|done].
  - destruct (IH2 s0 Hin) as (s' & Hs' & ->). exists s'. split; [by right|done].
Qed.

Lemma bounded_clean now us : Bounded us → Bounded (clean_senders now us).
Proof.
  intros Hb tx s Hs. unfold clean_senders in *. cbn [senders channels] in *. rewrite senders_of_clean in Hs.
  apply list_elem_of_In, filter_In in Hs as [Hs%list_elem_of_In _]. eauto.
Qed.
Lemma bounded_send now tx msg us : Bounded us → Bounded (send now tx msg us).
Proof.
  intros Hb%(bounded_clean now). rewrite send_cleaned. revert Hb. generalize (clean_senders now us). clear us. intros us Hb.
  pose proof (send_to_all_bounded msg (senders_of (senders us) tx) (channels us)) as [H1 H2]. cbn zeta.
  destruct (send_to_all _ _ _) as [l chans]. cbn in H1, H2. intros tx' s. cbn [senders channels]. rewrite senders_of_put, H1.
  case_decide as H; [|apply Hb]. intros (s' & Hs' & ->)%H2. by eapply Hb.
Qed.
Lemma bounded_subscribe now tx us : Bounded us → Bounded (try_subscribe now tx us).2.
Proof.
  intros Hb%(bounded_clean now). unfold try_subscribe. case_decide; [|done]. apply (bounded_clean now) in Hb. revert Hb.
  generalize (clean_senders now (clean_senders now us)). clear. intros us Hb tx' s.
  destruct (subscribe_sender now tx us) as [rx us'] eqn:E. replace us' with (subscribe_sender now tx us).2 by (by rewrite E).
  cbn [snd]. rewrite senders_of_subscribe. cbn [channels subscribe_sender snd]. rewrite length_app. cbn [length].
  intros [Hs%Hb|Hs]%elem_of_app; [lia|]. case_decide; [|by apply not_elem_of_nil in Hs].
  apply list_elem_of_singleton in Hs as ->. cbn. lia.
Qed.
Lemma bounded_event m ev : Bounded (update_sender m) → Bounded (update_sender (event_step m ev)).
Proof.
  intros Hb. pose proof (event_step_updates m ev) as Hev. destruct ev as [now r|c|c].
  - assert (∀ us m, Bounded (update_sender m) → Bounded (update_sender (foldl apply_update m us))) as Hus.
    { clear. induction us as [|u us IH]; intros m Hm; [done|]. cbn [foldl]. apply IH. by apply bounded_send. }
    destruct r as [o|tx0 s|l|tx0|tx0]; rewrite Hev; try by apply Hus.
    pose proof (bounded_subscribe now tx0 _ Hb) as Hsub. unfold tx_update_subscribe.
    by destruct (try_subscribe now tx0 (update_sender m)).
  - intros tx s Hs. cbn. rewrite length_alter. by apply (Hb tx).
  - intros tx s Hs. cbn. rewrite length_alter. by apply (Hb tx).
Qed.

Definition run (cap : nat) (sttl ttl : Z) (evs : list Event) : TxStatusManager :=
  foldl event_step (TxStatusManager_new (UpdateSender_new cap sttl) ttl) evs.

Lemma bounded_run cap sttl ttl evs : Bounded (update_sender (run cap sttl ttl evs)).
Proof.
  unfold run. induction evs as [|ev evs IH] using rev_ind.
  - intros tx s Hs. by apply not_elem_of_nil in Hs.
  - rewrite foldl_snoc. by apply bounded_event.
Qed.

(** A new subscriber has an empty channel of its own. *)
Lemma subscribe_sees now tx m c m' :
  Bounded (update_sender m) → tx_update_subscribe now tx m = (Some c, m') →
  Sees c tx (sender_ttl (update_sender m)) (update_sender m') (MkView (Some (MkSender StateEmpty c now)) Channel_new).
Proof.
  unfold tx_update_subscribe, try_subscribe. generalize (update_sender m). intros us Hb Hsub. case_decide; [|done].
  apply (bounded_clean now), (bounded_clean now) in Hb. change (sender_ttl us) with (sender_ttl (clean_senders now (clean_senders now us))).
  revert Hb Hsub. generalize (clean_senders now (clean_senders now us)). clear. intros us Hb Hsub.
  destruct (subscribe_sender now tx us) as [rx us'] eqn:E. injection Hsub as -> <-.
  replace us' with (subscribe_sender now tx us).2 by (by rewrite E). assert (c = length (channels us)) as -> by (by injection E as <-).
  split; [done|..]; cbn [update_sender].
  - cbn. by rewrite lookup_app_r, Nat.sub_diag by lia.
  - intros tx'. rewrite senders_of_subscribe. unfold mine. rewrite List.filter_app.
    rewrite (List.filter_ext_in (on (length (channels us))) (λ _, false)), List.filter_false; cycle 1.
    { intros s Hs%list_elem_of_In%Hb. apply bool_decide_eq_false. lia. }
    case_decide; [|done]. cbn. unfold on. cbn. by rewrite bool_decide_eq_true_2.
Qed.

Fixpoint until_final (l : list TransactionStatus) : list TransactionStatus :=
  match l with [] => [] | s :: l => if status_is_final s then [s] else s :: until_final l end.
Definition ongoing (l : list TransactionStatus) : Prop := Forall (λ s, status_is_final s = false) l.
Definition statuses_of (tx : TxId) (us : list Update) : list TransactionStatus :=
  up_status <$> List.filter (λ u, bool_decide (up_tx u = tx)) us.

Lemma until_final_app h h' : until_final h `prefix_of` until_final (h ++ h').
Proof.
  induction h as [|s h IH]; cbn; [apply prefix_nil|]. destruct (status_is_final s); [done|]. by apply prefix_cons.
Qed.
Lemma until_final_ongoing h h' : ongoing h → until_final (h ++ h') = h ++ until_final h'.
Proof. induction 1 as [|s h Hs Hh IH]; [done|]. cbn. by rewrite Hs, IH. Qed.
Lemma until_final_over h h' : ¬ ongoing h → until_final (h ++ h') = until_final h.
Proof.
  unfold ongoing. induction h as [|s h IH]; cbn; intros Hn; [by destruct Hn|]. destruct (status_is_final s) eqn:E; [done|]. f_equal. apply IH.
  intros Hh. apply Hn. by constructor.
Qed.

(** The stream of a subscriber, at the arrival of a status. *)
Lemma deliver_empty st s ch :
  stream s = StateEmpty →
  deliver (MsgStatus st) s ch =
    match channel_try_send (MsgStatus st) ch with
    | Ok ch => (MkSender (if status_is_final st then StateClosed else StateEmpty) (sender_tx s) (created s), ch)
    | Err Full => (MkSender (if status_is_final st then StateClosed else StateFailed) (sender_tx s) (created s), ch)
    | Err Closed => (MkSender StateClosed (sender_tx s) (created s), ch)
    end.
Proof.
  intros Hs. unfold deliver, sender_try_send. cbn [stream sender_tx created]. rewrite Hs.
  destruct st; cbn; destruct (channel_try_send _ ch) as [ch'|[]]; done.
Qed.
Lemma deliver_failed msg s ch :
  stream s = StateFailed →
  deliver msg s ch =
    (MkSender StateClosed (sender_tx s) (created s),
     match channel_try_send MsgFailedStatus ch with Ok ch => ch | Err _ => ch end).
Proof.
  intros Hs. unfold deliver, sender_try_send. cbn [stream sender_tx created]. rewrite Hs. cbn.
  destruct (channel_try_send _ ch) as [ch'|[]]; done.
Qed.
Lemma channel_try_send_sent msg ch ch' : channel_try_send msg ch = Ok ch' → sent ch' = sent ch ++ [msg].
Proof. unfold channel_try_send. destruct (receiver_open ch); [|done]. case_decide; [|done]. by intros [= <-]. Qed.

(** What a subscriber was told of the statuses [h] of its transaction. *)
Definition Told (h : list TransactionStatus) (ch : Channel) : Prop :=
  ∃ p, p `prefix_of` until_final h ∧ (sent ch = MsgStatus <$> p ∨ sent ch = (MsgStatus <$> p) ++ [MsgFailedStatus]).
Definition Account (h : list TransactionStatus) (v : View) : Prop :=
  match v_sender v with
  | Some s =>
      (stream s = StateEmpty ∧ ongoing h ∧ sent (v_channel v) = MsgStatus <$> h)
      ∨ (stream s = StateFailed ∧ ∃ p, p `prefix_of` until_final h ∧ sent (v_channel v) = MsgStatus <$> p)
  | None => Told h (v_channel v)
  end.

Lemma told_app h h' ch : Told h ch → Told (h ++ h') ch.
Proof. intros (p & Hp & Hs). exists p. split; [|done]. etrans; [done|]. apply until_final_app. Qed.
Lemma account_told h v : Account h v → Told h (v_channel v).
Proof.
  unfold Account. destruct (v_sender v) as [s|]; [|done]. intros [(_ & Ho & Hs)|(_ & p & Hp & Hs)].
  - exists h. split; [|by left]. rewrite <- (app_nil_r h) at 2. rewrite until_final_ongoing by done. by rewrite app_nil_r.
  - exists p. split; [done|by left].
Qed.
Lemma account_clean now ttl h v : Account h v → Account h (view_clean now ttl v).
Proof.
  intros Ha. pose proof (account_told h v Ha). unfold Account, view_clean in *. cbn.
  destruct (v_sender v) as [s|]; [|done]. by destruct (sender_alive now ttl s).
Qed.

Lemma account_update ttl tx h v u : Account h v → Account (h ++ statuses_of tx [u]) (view_update ttl tx v u).
Proof.
  intros Ha%(account_clean (up_time u) ttl). unfold view_update, view_send, statuses_of. cbn [List.filter].
  case_decide as Htx; [rewrite bool_decide_eq_true_2 by done|rewrite bool_decide_eq_false_2 by done; cbn; by rewrite app_nil_r].
  destruct (view_clean (up_time u) ttl v) as [[s|] ch]; cbn [v_sender v_channel fmap list_fmap]; [|by apply told_app].
  destruct Ha as [(Hs & Ho & Hsent)|(Hs & p & Hp & Hsent)]; cbn [v_channel] in Hsent.
  - rewrite deliver_empty by done.
    assert (Told (h ++ [up_status u]) ch) as Htold.
    { apply told_app, (account_told h (MkView (Some s) ch)). by left. }
    destruct (channel_try_send _ ch) as [ch'|[]] eqn:Ech; [apply channel_try_send_sent in Ech; rewrite Hsent in Ech|..];
      destruct (status_is_final (up_status u)) eqn:Ef; cbn; try exact Htold.
    + exists (h ++ [up_status u]). rewrite until_final_ongoing by done. cbn. rewrite Ef. split; [done|]. left. by rewrite fmap_app.
    + left. split; [done|]. split; [|by rewrite fmap_app]. apply Forall_app. split; [done|]. by constructor.
    + right. split; [done|]. exists h. split; [|done]. rewrite until_final_ongoing by done. by eexists.
  - rewrite deliver_failed by done. apply told_app. exists p. split; [done|].
    destruct (channel_try_send _ ch) as [ch'|e] eqn:Ech; [right|by left]. apply channel_try_send_sent in Ech. cbn. by rewrite Ech, Hsent.
Qed.

Lemma statuses_of_app tx us us' : statuses_of tx (us ++ us') = statuses_of tx us ++ statuses_of tx us'.
Proof. unfold statuses_of. by rewrite List.filter_app, fmap_app. Qed.

Lemma account_updates ttl tx us h v : Account h v → Account (h ++ statuses_of tx us) (foldl (view_update ttl tx) v us).
Proof.
  revert h v. induction us as [|u us IH]; intros h v Ha; cbn [foldl]; [by rewrite app_nil_r|].
  change (u :: us) with ([u] ++ us). rewrite statuses_of_app, app_assoc. by apply IH, account_update.
Qed.
Lemma account_channel h s ch ch' : sent ch' = sent ch → Account h (MkView s ch) → Account h (MkView s ch').
Proof. intros Hs. unfold Account, Told. cbn. by rewrite Hs. Qed.
Lemma channel_recv_sent ch : sent (channel_recv ch).2 = sent ch.
Proof. unfold channel_recv. by destruct (sent ch !! received ch). Qed.

Lemma account_events ttl tx c evs h v :
  Account h v → Account (h ++ statuses_of tx (evs ≫= event_updates)) (foldl (view_event ttl tx c) v evs).
Proof.
  revert h v. induction evs as [|ev evs IH]; intros h v Ha; cbn [foldl]; [by rewrite app_nil_r|].
  rewrite bind_cons, statuses_of_app, app_assoc. apply IH. destruct v as [s ch].
  destruct ev as [now r|c'|c']; cbn [event_updates view_event].
  - destruct r; try by apply account_updates. cbn. rewrite app_nil_r. by apply account_clean.
  - cbn. rewrite app_nil_r. case_decide; [|done]. eapply account_channel; [apply channel_recv_sent|done].
  - cbn. rewrite app_nil_r. case_decide; [|done]. by eapply account_channel.
Qed.

(** C37 A subscriber is told the truth, in order.  However requests,
    subscriptions, receivers and receivers that go away interleave after its
    subscription, its channel holds a prefix of the statuses its transaction
    has had since, up to the first final one, followed at most by the message
    that the stream failed: nothing is invented, reordered or repeated, and
    nothing comes after a final status. *)
Theorem subscription_stream cap sttl ttl before now tx c m evs :
  tx_update_subscribe now tx (run cap sttl ttl before) = (Some c, m) →
  ∃ ch, channels (update_sender (foldl event_step m evs)) !! c = Some ch
    ∧ Told (statuses_of tx (evs ≫= event_updates)) ch.
Proof.
  intros Hsub. apply subscribe_sees in Hsub; [|apply bounded_run]. apply (sees_events _ _ _ _ _ evs) in Hsub as [_ Hch _].
  eexists. split; [exact Hch|]. apply account_told, (account_events _ tx c evs []). left. by split_and!; [|constructor|].
Qed.

(** ** A subscriber that keeps up *)
Definition unread (ch : Channel) : nat := length (sent ch) - received ch.
Record Complete (c : nat) (since : Z) (h : list TransactionStatus) (v : View) : Prop := {
  co_open : receiver_open (v_channel v) = true;
  co_sent : sent (v_channel v) = MsgStatus <$> until_final h;
  co_sender : match v_sender v with Some s => s = MkSender StateEmpty c since ∧ ongoing h | None => ¬ ongoing h end
}.

Lemma complete_clean c since ttl h v now : duration_since now since < ttl → Complete c since h v → view_clean now ttl v = v.
Proof.
  intros Hn [_ _ Hs]. unfold view_clean. destruct v as [[s|] ch]; cbn in *; [|done]. destruct Hs as [-> _].
  unfold sender_alive. cbn. by rewrite bool_decide_eq_true_2.
Qed.

Lemma complete_update c since ttl tx h v u :
  duration_since (up_time u) since < ttl → (unread (v_channel v) + length (statuses_of tx [u]) ≤ BUFFER_SIZE)%nat →
  Complete c since h v →
  Complete c since (h ++ statuses_of tx [u]) (view_update ttl tx v u)
  ∧ (unread (v_channel (view_update ttl tx v u)) ≤ unread (v_channel v) + length (statuses_of tx [u]))%nat.
Proof.
  intros Hn Hroom Hc. unfold view_update, view_send. rewrite (complete_clean _ _ _ _ _ _ Hn Hc).
  unfold statuses_of in *. cbn [List.filter] in *.
  destruct (decide (up_tx u = tx)) as [Htx|Htx];
    [rewrite bool_decide_eq_true_2 in * by done|rewrite bool_decide_eq_false_2 in * by done; cbn [fmap list_fmap length]; rewrite app_nil_r; split; [done|lia]].
  destruct Hc as [Ho Hsent Hs]. destruct v as [[s|] ch]; cbn [v_sender v_channel fmap list_fmap length] in *.
  - destruct Hs as [-> Hon]. rewrite deliver_empty by done. unfold channel_try_send. rewrite Ho, decide_True by (unfold unread in Hroom; lia).
    cbn [v_channel stream]. rewrite <- (app_nil_r h), until_final_ongoing, app_nil_r in Hsent by done.
    split; [|unfold unread; cbn; rewrite length_app; cbn; lia]. split.
    + done.
    + rewrite until_final_ongoing by done. cbn. rewrite Hsent. destruct (status_is_final (up_status u)); by rewrite fmap_app.
    + unfold ongoing. destruct (status_is_final (up_status u)) eqn:Ef; cbn.
      * intros [_ Hf]%Forall_app. rewrite Forall_singleton in Hf. congruence.
      * split; [done|]. apply Forall_app. split; [done|]. by constructor.
  - split; [|cbn; lia]. split; [done|..]; cbn.
    + by rewrite until_final_over.
    + intros [Hh _]%Forall_app. done.
Qed.

Lemma complete_updates c since ttl tx us h v :
  (∀ u, u ∈ us → duration_since (up_time u) since < ttl) → (unread (v_channel v) + length (statuses_of tx us) ≤ BUFFER_SIZE)%nat →
  Complete c since h v → Complete c since (h ++ statuses_of tx us) (foldl (view_update ttl tx) v us).
Proof.
  revert h v. induction us as [|u us IH]; intros h v Ht Hroom Hc; cbn [foldl]; [by rewrite app_nil_r|].
  change (u :: us) with ([u] ++ us) in *. rewrite statuses_of_app in *. rewrite length_app in Hroom.
  destruct (complete_update c since ttl tx h v u) as [Hc' Hr]; [apply Ht; set_solver|lia|done|].
  rewrite app_assoc. apply IH; [set_solver|lia|done].
Qed.

(** The receiver of channel [c] keeps up with event [ev] at [m]: there is room
    for the statuses of its transaction, the subscription has not expired, and
    it does not go away. *)
Definition keeps_up (c : nat) (tx : TxId) (since : Z) (m : TxStatusManager) (ev : Event) : Prop :=
  match ev with
  | EvRequest now r =>
      duration_since now since < sender_ttl (update_sender m)
      ∧ ∃ ch, channels (update_sender m) !! c = Some ch ∧ (unread ch + length (statuses_of tx (request_updates now r)) ≤ BUFFER_SIZE)%nat
  | EvRecv _ => True
  | EvDrop c' => c' ≠ c
  end.

Lemma request_updates_time now r u : u ∈ request_updates now r → up_time u = now.
Proof.
  destruct r as [[[|l]|]|tx0 s|l|tx0|tx0]; cbn; try (by intros []%not_elem_of_nil).
  - by intros (? & -> & _)%list_elem_of_fmap.
  - by intros ->%list_elem_of_singleton.
  - by intros (? & -> & _)%list_elem_of_fmap.
Qed.

Lemma complete_event c since ttl tx h m v ev :
  Sees c tx ttl (update_sender m) v → keeps_up c tx since m ev → Complete c since h v →
  Complete c since (h ++ statuses_of tx (event_updates ev)) (view_event ttl tx c v ev).
Proof.
  intros [Httl Hch _] Hk Hc. destruct ev as [now r|c'|c']; cbn [event_updates view_event keeps_up] in *.
  - destruct Hk as [Ht (ch & Hch' & Hroom)]. rewrite Httl in Ht. rewrite Hch in Hch'. injection Hch' as <-.
    assert (∀ u, u ∈ request_updates now r → duration_since (up_time u) since < ttl) as Hts by (by intros u ->%request_updates_time).
    destruct r; try by apply complete_updates. cbn [request_updates]. rewrite app_nil_r. by rewrite (complete_clean c since ttl h).
  - rewrite app_nil_r. case_decide; [|done]. destruct Hc as [Ho Hs Hv]. split; cbn; [|by rewrite channel_recv_sent|done].
    unfold channel_recv. by destruct (sent _ !! _).
  - rewrite app_nil_r. by rewrite decide_False.
Qed.

(** A subscriber that keeps up misses nothing: if its receiver stays, always
    has room for the statuses of its transaction and the subscription does not
    expire, its channel gets every status, up to and with the first final
    one. *)
Theorem subscription_complete cap sttl ttl before now tx c m evs :
  tx_update_subscribe now tx (run cap sttl ttl before) = (Some c, m) →
  (∀ pre ev post, evs = pre ++ ev :: post → keeps_up c tx now (foldl event_step m pre) ev) →
  ∃ ch, channels (update_sender (foldl event_step m evs)) !! c = Some ch
    ∧ sent ch = MsgStatus <$> until_final (statuses_of tx (evs ≫= event_updates)).
Proof.
  intros Hsub Hk. apply subscribe_sees in Hsub; [|apply bounded_run]. set (sttl' := sender_ttl _) in Hsub.
  set (v := MkView _ _) in Hsub.
  assert (∀ evs', evs' `prefix_of` evs →
    Complete c now (statuses_of tx (evs' ≫= event_updates)) (foldl (view_event sttl' tx c) v evs')) as Hc.
  { intros evs' Hpre. induction evs' as [|ev evs' IH] using rev_ind; [by split; [..|split; [|constructor]]|].
    rewrite bind_app, statuses_of_app, foldl_snoc. cbn [mbind list_bind]. rewrite app_nil_r. destruct Hpre as [post Hpost].
    rewrite <- app_assoc in Hpost. eapply complete_event; [by apply sees_events|by eapply Hk|]. apply IH. by eexists. }
  specialize (Hc evs ltac:(done)). apply (sees_events _ _ _ _ _ evs) in Hsub as [_ Hch _].
  eexists. split; [exact Hch|]. apply Hc.
Qed.

(** ** The limits of the manager *)
Lemma send_config now tx msg us :
  capacity (send now tx msg us) = capacity us ∧ sender_ttl (send now tx msg us) = sender_ttl us.
Proof. rewrite send_cleaned. cbn. by destruct (send_to_all _ _ _). Qed.
Lemma event_config m ev :
  capacity (update_sender (event_step m ev)) = capacity (update_sender m)
  ∧ sender_ttl (update_sender (event_step m ev)) = sender_ttl (update_sender m).
Proof.
  pose proof (event_step_updates m ev) as Hev. destruct ev as [now r| |]; [|done..].
  assert (∀ us m, capacity (update_sender (foldl apply_update m us)) = capacity (update_sender m)
    ∧ sender_ttl (update_sender (foldl apply_update m us)) = sender_ttl (update_sender m)) as Hus.
  { clear. induction us as [|u us IH]; intros m; [done|]. cbn [foldl]. destruct (IH (apply_update m u)) as [-> ->].
    apply send_config. }
  destruct r; rewrite Hev; try apply Hus. unfold tx_update_subscribe, try_subscribe. by case_decide.
Qed.
Lemma run_ttl cap sttl ttl evs : sender_ttl (update_sender (run cap sttl ttl evs)) = sttl.
Proof.
  unfold run. induction evs as [|ev evs IH] using rev_ind; [done|]. rewrite foldl_snoc. by rewrite (proj2 (event_config _ _)).
Qed.

Lemma count_senders_insert m tx l :
  (count_senders (<[tx := l]> m) + length (senders_of m tx) = length l + count_senders m)%nat.
Proof.
  assert (∀ m, m !! tx = None → count_senders (<[tx := l]> m) = (length l + count_senders m)%nat) as Hnew.
  { intros m0 Hm0. unfold count_senders. rewrite map_fold_insert_L; [done|intros; lia|done]. }
  unfold senders_of. destruct (m !! tx) as [l0|] eqn:E; cbn; [|rewrite Hnew by done; lia].
  rewrite <- insert_delete_eq, Hnew by apply lookup_delete_eq.
  unfold count_senders. rewrite (map_fold_delete_L _ _ tx l0 m); [cbn; lia|intros; lia|done].
Qed.
Lemma count_senders_delete m tx : (count_senders (delete tx m) + length (senders_of m tx) = count_senders m)%nat.
Proof.
  unfold senders_of. destruct (m !! tx) as [l|] eqn:E; cbn; [|rewrite delete_id by done; lia].
  unfold count_senders. rewrite (map_fold_delete_L _ _ tx l m); [cbn; lia|intros; lia|done].
Qed.
Lemma count_senders_put m tx l :
  (count_senders (match l with [] => delete tx m | _ => <[tx := l]> m end) + length (senders_of m tx) = length l + count_senders m)%nat.
Proof. destruct l; [apply count_senders_delete|apply count_senders_insert]. Qed.
Lemma count_senders_clean now ttl m : (count_senders (remove_closed_and_expired now ttl m) ≤ count_senders m)%nat.
Proof.
  induction m as [|tx l m Hm _ IH] using map_first_key_ind; [done|].
  pose proof (count_senders_insert m tx l) as Hi. unfold senders_of in Hi. rewrite Hm in Hi. cbn in Hi.
  assert (remove_closed_and_expired now ttl m !! tx = None) as Hnone by (unfold remove_closed_and_expired; by rewrite lookup_omap, Hm).
  pose proof (List.filter_length_le (sender_alive now ttl) l) as Hlen.
  unfold remove_closed_and_expired in *. rewrite omap_insert. destruct (List.filter _ l) as [|s l'].
  - rewrite delete_id by done. lia.
  - pose proof (count_senders_insert (omap (λ l0, match List.filter (sender_alive now ttl) l0 with [] => None | l1 => Some l1 end) m) tx
      (s :: l')) as Hi'. unfold senders_of in Hi'. rewrite Hnone in Hi'. cbn in Hi', Hlen |- *. lia.
Qed.
Lemma send_to_all_length msg l chans : (length (send_to_all msg l chans).1 ≤ length l)%nat.
Proof.
  revert chans. induction l as [|s l IH]; intros chans; [done|]. cbn. destruct (sender_try_send msg s chans) as [r [s' chans']].
  specialize (IH chans'). destruct (send_to_all msg l chans') as [l' ?]. cbn in *. destruct (is_ok r); cbn; lia.
Qed.

Lemma count_senders_send now tx msg us : (count_senders (senders (send now tx msg us)) ≤ count_senders (senders us))%nat.
Proof.
  etrans; [|apply (count_senders_clean now (sender_ttl us))]. rewrite send_cleaned.
  change (remove_closed_and_expired now (sender_ttl us) (senders us)) with (senders (clean_senders now us)).
  generalize (clean_senders now us). clear us. intros us. cbn zeta.
  pose proof (send_to_all_length msg (senders_of (senders us) tx) (channels us)) as Hl.
  destruct (send_to_all _ _ _) as [l chans]. cbn [senders fst] in *. pose proof (count_senders_put (senders us) tx l). lia.
Qed.

Lemma count_senders_subscribe now tx us :
  (count_senders (senders us) ≤ capacity us)%nat → (count_senders (senders (try_subscribe now tx us).2) ≤ capacity us)%nat.
Proof.
  intros Hle. unfold try_subscribe. pose proof (count_senders_clean now (sender_ttl us) (senders us)) as H1.
  change (capacity us) with (capacity (clean_senders now us)) in *.
  change (remove_closed_and_expired now (sender_ttl us) (senders us)) with (senders (clean_senders now us)) in H1.
  revert H1 Hle. generalize (clean_senders now us). intros us' H1 Hle. case_decide; [|cbn [snd]; lia].
  pose proof (count_senders_clean now (sender_ttl us') (senders us')) as H2.
  pose proof (count_senders_insert (senders (clean_senders now us')) tx
    (senders_of (senders (clean_senders now us')) tx ++ [MkSender StateEmpty (length (channels us')) now])) as H3.
  rewrite length_app in H3. unfold subscribe_sender. cbn [snd senders channels length clean_senders] in *. unfold senders_of in *. lia.
Qed.
Lemma count_senders_event m ev :
  (count_senders (senders (update_sender m)) ≤ capacity (update_sender m))%nat →
  (count_senders (senders (update_sender (event_step m ev))) ≤ capacity (update_sender m))%nat.
Proof.
  intros Hm. pose proof (event_step_updates m ev) as Hev. destruct ev as [now r| |]; [|done..].
  assert (∀ us m, (count_senders (senders (update_sender (foldl apply_update m us))) ≤ count_senders (senders (update_sender m)))%nat) as Hus.
  { clear. induction us as [|u us IH]; intros m; [done|]. cbn [foldl]. etrans; [apply IH|]. apply count_senders_send. }
  destruct r as [o|tx0 s|l|tx0|tx0]; rewrite Hev; try (etrans; [apply Hus|done]).
  apply (count_senders_subscribe now tx0) in Hm. unfold tx_update_subscribe. by destruct (try_subscribe _ _ _).
Qed.

(** The subscribers are never more than the capacity: there are as many
    senders as permits that are taken, whatever happens. *)
Theorem subscribers_within_capacity cap sttl ttl evs :
  (count_senders (senders (update_sender (run cap sttl ttl evs))) ≤ cap)%nat.
Proof.
  assert (capacity (update_sender (run cap sttl ttl evs)) = cap ∧
    (count_senders (senders (update_sender (run cap sttl ttl evs))) ≤ capacity (update_sender (run cap sttl ttl evs)))%nat) as [Hc Hle];
    [|lia].
  unfold run. induction evs as [|ev evs IH] using rev_ind; [cbn; split; [done|apply Nat.le_0_l]|]. rewrite foldl_snoc.
  rewrite (proj1 (event_config _ _)). split; [apply IH|apply count_senders_event, IH].
Qed.

(** A status that comes at once to a subscriber that has not failed. *)
Lemma view_update_kept ttl tx c now ch st :
  0 < ttl →
  view_update ttl tx (MkView (Some (MkSender StateEmpty c now)) ch) (MkUpdate now tx st) =
    match channel_try_send (MsgStatus st) ch with
    | Ok ch => MkView (if status_is_final st then None else Some (MkSender StateEmpty c now)) ch
    | Err Full => MkView (if status_is_final st then None else Some (MkSender StateFailed c now)) ch
    | Err Closed => MkView None ch
    end.
Proof.
  intros Httl. unfold view_update, view_send, view_clean, sender_alive, duration_since. cbn [up_tx up_time v_sender created stream].
  rewrite decide_True, bool_decide_eq_true_2 by (done || lia). cbn [is_closed negb andb v_sender v_channel up_status].
  rewrite deliver_empty by done. destruct (channel_try_send _ ch) as [ch'|[]], (status_is_final st); done.
Qed.

(** A status is lost on a subscriber with an unread submission and an unread
    preconfirmation: the channel is full when the final status comes, the
    failure that should be noted is noted on a stream that is closed by then,
    and the subscription ends.  The receiver, still there, gets the two first
    messages and then the end of the stream, neither the final status nor the
    message that the stream failed. *)
Theorem slow_subscriber_misses_final cap sttl ttl before now tx c m timestamp p g f receipts outputs height time ps rs g' f' :
  let submitted := StSubmitted timestamp in
  let preconfirmed := StPreConfirmationSuccess p g f receipts outputs in
  let success := StSuccess height time ps rs g' f' in
  0 < sttl → tx_update_subscribe now tx (run cap sttl ttl before) = (Some c, m) →
  let m := foldl event_step m ((λ s, EvRequest now (UpdateStatus tx s)) <$> [submitted; preconfirmed; success]) in
  channels (update_sender m) !! c = Some (MkChannel [MsgStatus submitted; MsgStatus preconfirmed] 0 true)
  ∧ ∀ tx' s, s ∈ senders_of (senders (update_sender m)) tx' → sender_tx s ≠ c.
Proof.
  intros submitted preconfirmed success Hsttl Hsub m'. apply subscribe_sees in Hsub; [|apply bounded_run].
  rewrite run_ttl in Hsub. apply (sees_events _ _ _ _ _ ((λ s, EvRequest now (UpdateStatus tx s)) <$> [submitted; preconfirmed; success])) in Hsub.
  cbn [fmap list_fmap foldl view_event request_updates] in Hsub. 
  assert (∀ x, channel_try_send x Channel_new = Ok (MkChannel [x] 0 true)) as H0 by done.
  assert (∀ x y, channel_try_send x (MkChannel [y] 0 true) = Ok (MkChannel [y; x] 0 true)) as H1 by done.
  assert (∀ x y z, channel_try_send x (MkChannel [y; z] 0 true) = Err Full) as H2 by done.
  do 3 (rewrite (view_update_kept sttl tx c now) in Hsub by done; rewrite ?H0, ?H1, ?H2 in Hsub;
    cbn [status_is_final submitted preconfirmed success] in Hsub).
  destruct Hsub as [_ Hch Hs]. split; [exact Hch|].
  intros tx' s Hin Hc. specialize (Hs tx'). assert (s ∈ mine c (senders_of (senders (update_sender m')) tx')) as Hm.
  { apply list_elem_of_In, filter_In. split; [by apply list_elem_of_In|by apply bool_decide_eq_true]. }
  unfold m' in Hm. cbn [fmap list_fmap foldl] in Hm. rewrite Hs in Hm. case_decide; by apply not_elem_of_nil in Hm.
Qed.
End histories.

(** ** Samples *)
Definition sample_reason (_ : list Receipt) : string := "reverted".
Definition sample_pre : TransactionStatus := StPreConfirmationSuccess (4, 1) 20 2 None None.
Definition sample_success : TransactionStatus := StSuccess 4 9 None [] 20 2.
Definition sample_events : list Event :=
  [EvRequest 1 (UpdateStatus 7 (StSubmitted 1)); EvRecv 0; EvRequest 2 (UpdateStatus 8 (StSubmitted 2));
   EvRequest 3 (UpdateStatus 7 sample_pre); EvRecv 0; EvRequest 4 (NotifySkipped [(8, "no gas")%string]);
   EvRequest 9 (UpdateStatus 7 sample_success); EvRequest 9 (GetStatus 7)].
Definition sample_start : TxStatusManager := (tx_update_subscribe 1 7 (run sample_reason 2 10 5 [])).2.

Lemma status_is_latest_witness :
  status 7 (foldl (event_step sample_reason) (TxStatusManager_new (UpdateSender_new 2 10) 5) sample_events) = Some sample_success
  ∧ status 8 (foldl (event_step sample_reason) (TxStatusManager_new (UpdateSender_new 2 10) 5) sample_events) = None.
Proof.
  assert (timely (sample_events ≫= event_updates sample_reason)) as Hs by (vm_compute; repeat constructor; done).
  split.
  - rewrite (status_is_latest sample_reason (UpdateSender_new 2 10) 5 sample_events 7 ltac:(lia) Hs). vm_compute. reflexivity.
  - rewrite (status_is_latest sample_reason (UpdateSender_new 2 10) 5 sample_events 8 ltac:(lia) Hs). vm_compute. reflexivity.
Defined.

Lemma subscription_stream_witness :
  ∃ ch, channels (update_sender (foldl (event_step sample_reason) sample_start sample_events)) !! 0%nat = Some ch
    ∧ Told (statuses_of 7 (sample_events ≫= event_updates sample_reason)) ch.
Proof. apply (subscription_stream sample_reason 2 10 5 [] 1 7 0 sample_start sample_events). vm_compute. reflexivity. Defined.

Lemma subscription_complete_witness :
  ∃ ch, channels (update_sender (foldl (event_step sample_reason) sample_start sample_events)) !! 0%nat = Some ch
    ∧ sent ch = MsgStatus <$> [StSubmitted 1; sample_pre; sample_success].
Proof.
  apply (subscription_complete sample_reason 2 10 5 [] 1 7 0 sample_start sample_events); [vm_compute; reflexivity|].
  intros pre ev post Heq. unfold sample_events in Heq.
  do 8 (destruct pre as [|? pre]; cbn in Heq; injection Heq as <- Heq;
    [first [exact I|split; [vm_compute; reflexivity|eexists; split; [vm_compute; reflexivity|apply Nat.leb_le; vm_compute; reflexivity]]]|]).
  by destruct pre.
Defined.

Lemma slow_subscriber_misses_final_witness :
  channels (update_sender (foldl (event_step sample_reason) sample_start
    ((λ s, EvRequest 1 (UpdateStatus 7 s)) <$> [StSubmitted 1; sample_pre; sample_success]))) !! 0%nat
  = Some (MkChannel [MsgStatus (StSubmitted 1); MsgStatus sample_pre] 0 true).
Proof.
  apply (slow_subscriber_misses_final sample_reason 2 10 5 [] 1 7 0 sample_start); [lia|vm_compute; reflexivity].
Defined.
