(* ===== verification/OffChain.v ===== *)
(** * The off-chain database and its worker

    [crates/fuel-core/src/graphql_api/worker_service.rs] with [indexation/] and
    the tables of [storage/]: what the node derives from imported blocks for
    its clients.  Each block is processed in one storage transaction, which is
    dropped when an operation fails.  A key made of several parts is the tuple
    of its parts, a table with unit values the set of its keys.

    The compression of blocks is switched off here, it is in [Compression.v].
    Receipts and the fields of a creating transaction are read through the
    class [ReceiptsAndContracts], since fuel-tx defines them. *)
From stdpp Require Import strings.
From S2P Require Import Prelude FuelTypes BlockTypes ExecutorTypes Importer TxStatus.

(** ** Tables *)
Record MessageBalance := MkMessageBalance { retryable : Z; non_retryable : Z }.

Inductive CoinsToSpendIndexKey :=
| KeyCoin (owner : Address) (asset_id : AssetId) (amount : Z) (utxo_id : UtxoId)
| KeyMessage (retryable_flag : Z) (owner : Address) (asset_id : AssetId) (amount : Z) (nonce : Nonce).
#[export] Instance CoinsToSpendIndexKey_eq_dec : EqDecision CoinsToSpendIndexKey.
Proof. solve_decision. Defined.
#[export] Instance CoinsToSpendIndexKey_countable : Countable CoinsToSpendIndexKey.
Proof.
  apply (inj_countable'
    (λ k, match k with KeyCoin o a n u => inl (o, a, n, u) | KeyMessage f o a n x => inr (f, o, a, n, x) end)
    (λ x, match x with inl (o, a, n, u) => KeyCoin o a n u | inr (f, o, a, n, x) => KeyMessage f o a n x end)).
  by intros [].
Defined.

Definition RETRYABLE_BYTE : Z := 0.
Definition NON_RETRYABLE_BYTE : Z := 1.
Definition is_retryable_message (m : Message) : bool := negb (bool_decide (msg_data m = [])).
Definition from_coin (coin : Coin) : CoinsToSpendIndexKey :=
  KeyCoin (coin_owner coin) (coin_asset_id coin) (coin_amount coin) (coin_utxo_id coin).
Definition from_message (message : Message) (base_asset_id : AssetId) : CoinsToSpendIndexKey :=
  KeyMessage (if is_retryable_message message then RETRYABLE_BYTE else NON_RETRYABLE_BYTE)
    (msg_recipient message) base_asset_id (msg_amount message) (msg_nonce message).
Definition key_owner (k : CoinsToSpendIndexKey) : Address := match k with KeyCoin o _ _ _ | KeyMessage _ o _ _ _ => o end.
Definition key_asset_id (k : CoinsToSpendIndexKey) : AssetId := match k with KeyCoin _ a _ _ | KeyMessage _ _ a _ _ => a end.
Definition key_retryable_flag (k : CoinsToSpendIndexKey) : Z :=
  match k with KeyCoin _ _ _ _ => NON_RETRYABLE_BYTE | KeyMessage f _ _ _ _ => f end.
Definition key_amount (k : CoinsToSpendIndexKey) : Z := match k with KeyCoin _ _ n _ | KeyMessage _ _ _ n _ => n end.

Record AssetDetails := MkAssetDetails { ad_contract_id : ContractId; ad_sub_id : Bytes32; total_supply : Z }.

(** [txpool::TransactionExecutionStatus] *)
Inductive TxExecutionStatus :=
| TesSubmitted (time : Z)
| TesSuccess (block_height : BlockHeight) (time : Z) (result : option ProgramState) (receipts : list Receipt) (total_gas total_fee : Z)
| TesSqueezedOut (reason : string)
| TesFailed (block_height : BlockHeight) (time : Z) (result : option ProgramState) (receipts : list Receipt) (total_gas total_fee : Z).

Record OffChainDb := MkOffChainDb {
  coin_balances : gmap (Address * AssetId) Z;                   (* u128 *)
  message_balances : gmap Address MessageBalance;
  coins_to_spend_index : gset CoinsToSpendIndexKey;
  owned_coins : gset (Address * UtxoId);
  owned_message_ids : gset (Address * Nonce);
  spent_messages : gset Nonce;
  relayed_transaction_statuses : gmap Bytes32 (BlockHeight * ForcedFailure);
  transaction_statuses : gmap TxId TxExecutionStatus;
  owned_transactions : gmap (Address * BlockHeight * Z) TxId;
  contracts_info : gmap ContractId Bytes32;                     (* the salt *)
  assets_info : gmap AssetId AssetDetails;
  fuel_block_ids_to_heights : gmap Bytes32 BlockHeight;
  total_tx_count : Z;                                           (* u64 *)
  off_chain_height : option BlockHeight
}.
#[export] Instance eta_OffChainDb : Eta OffChainDb := λ r,
  MkOffChainDb (coin_balances r) (message_balances r) (coins_to_spend_index r) (owned_coins r) (owned_message_ids r)
    (spent_messages r) (relayed_transaction_statuses r) (transaction_statuses r) (owned_transactions r) (contracts_info r)
    (assets_info r) (fuel_block_ids_to_heights r) (total_tx_count r) (off_chain_height r).
Definition OffChainDb_empty : OffChainDb := MkOffChainDb ∅ ∅ ∅ ∅ ∅ ∅ ∅ ∅ ∅ ∅ ∅ ∅ 0 None.

Inductive IndexationError :=
| CoinBalanceWouldUnderflow (owner : Address) (asset_id : AssetId) (current_amount requested_deduction : Z)
| MessageBalanceWouldUnderflow (owner : Address) (current_amount requested_deduction : Z) (retryable : bool)
| AssetMetadataWouldOverflow (asset_id : AssetId) (current_supply minted_amount : Z)
| CoinToSpendNotFound (owner : Address) (asset_id : AssetId) (amount : Z) (utxo_id : UtxoId)
| CoinToSpendAlreadyIndexed (owner : Address) (asset_id : AssetId) (amount : Z) (utxo_id : UtxoId)
| MessageToSpendNotFound (owner : Address) (amount : Z) (nonce : Nonce)
| MessageToSpendAlreadyIndexed (owner : Address) (amount : Z) (nonce : Nonce)
| TryingToBurnMoreThanSupply (current_supply burned_amount : Z).

Abbreviation Indexation := (ST OffChainDb IndexationError) (only parsing).

(** ** Balances *)
Definition coin_balance (od : OffChainDb) (owner : Address) (asset_id : AssetId) : Z :=
  unwrap_or 0 (coin_balances od !! (owner, asset_id)).
Definition message_balance (od : OffChainDb) (owner : Address) : MessageBalance :=
  unwrap_or (MkMessageBalance 0 0) (message_balances od !! owner).

Definition increase_message_balance (message : Message) : Indexation unit := λ od,
  let key := msg_recipient message in
  let current_balance := message_balance od key in
  let new_balance :=
    if is_retryable_message message
    then MkMessageBalance (saturating_add u128 (retryable current_balance) (msg_amount message)) (non_retryable current_balance)
    else MkMessageBalance (retryable current_balance) (saturating_add u128 (non_retryable current_balance) (msg_amount message)) in
  (Ok (), od <| message_balances := <[key := new_balance]> (message_balances od) |>).

Definition decrease_message_balance (message : Message) : Indexation unit := λ od,
  let key := msg_recipient message in
  let '(MkMessageBalance r n) := message_balance od key in
  let current_balance := if is_retryable_message message then r else n in
  match checked_sub u128 current_balance (msg_amount message) with
  | None => (Err (MessageBalanceWouldUnderflow key current_balance (msg_amount message) (is_retryable_message message)), od)
  | Some new_amount =>
      let new_balance := if is_retryable_message message then MkMessageBalance new_amount n else MkMessageBalance r new_amount in
      (Ok (), od <| message_balances := <[key := new_balance]> (message_balances od) |>)
  end.

Definition increase_coin_balance (coin : Coin) : Indexation unit := λ od,
  let key := (coin_owner coin, coin_asset_id coin) in
  let current_amount := coin_balance od (coin_owner coin) (coin_asset_id coin) in
  (Ok (), od <| coin_balances := <[key := saturating_add u128 current_amount (coin_amount coin)]> (coin_balances od) |>).

Definition decrease_coin_balance (coin : Coin) : Indexation unit := λ od,
  let key := (coin_owner coin, coin_asset_id coin) in
  let current_amount := coin_balance od (coin_owner coin) (coin_asset_id coin) in
  match checked_sub u128 current_amount (coin_amount coin) with
  | None => (Err (CoinBalanceWouldUnderflow (coin_owner coin) (coin_asset_id coin) current_amount (coin_amount coin)), od)
  | Some new_amount => (Ok (), od <| coin_balances := <[key := new_amount]> (coin_balances od) |>)
  end.

Definition balances_update (event : ExecutorEvent) (enabled : bool) : Indexation unit :=
  if negb enabled then mret ()
  else match event with
  | MessageImported message => increase_message_balance message
  | MessageConsumed message => decrease_message_balance message
  | CoinCreated coin => increase_coin_balance coin
  | CoinConsumed coin => decrease_coin_balance coin
  | ForcedTransactionFailed _ _ _ => mret ()
  end.

(** ** Coins to spend

    [replace] and [take] write before the old value is looked at. *)
Definition add_key (key : CoinsToSpendIndexKey) (e : IndexationError) : Indexation unit := λ od,
  (if decide (key ∈ coins_to_spend_index od) then Err e else Ok (),
   od <| coins_to_spend_index := {[key]} ∪ coins_to_spend_index od |>).
Definition remove_key (key : CoinsToSpendIndexKey) (e : IndexationError) : Indexation unit := λ od,
  (if decide (key ∈ coins_to_spend_index od) then Ok () else Err e,
   od <| coins_to_spend_index := coins_to_spend_index od ∖ {[key]} |>).

Definition add_coin (coin : Coin) : Indexation unit :=
  add_key (from_coin coin)
    (CoinToSpendAlreadyIndexed (coin_owner coin) (coin_asset_id coin) (coin_amount coin) (coin_utxo_id coin)).
Definition remove_coin (coin : Coin) : Indexation unit :=
  remove_key (from_coin coin)
    (CoinToSpendNotFound (coin_owner coin) (coin_asset_id coin) (coin_amount coin) (coin_utxo_id coin)).
Definition add_message (message : Message) (base_asset_id : AssetId) : Indexation unit :=
  add_key (from_message message base_asset_id)
    (MessageToSpendAlreadyIndexed (msg_recipient message) (msg_amount message) (msg_nonce message)).
Definition remove_message (message : Message) (base_asset_id : AssetId) : Indexation unit :=
  remove_key (from_message message base_asset_id)
    (MessageToSpendNotFound (msg_recipient message) (msg_amount message) (msg_nonce message)).

Definition coins_to_spend_update (event : ExecutorEvent) (enabled : bool) (base_asset_id : AssetId) : Indexation unit :=
  if negb enabled then mret ()
  else match event with
  | MessageImported message => add_message message base_asset_id
  | MessageConsumed message => remove_message message base_asset_id
  | CoinCreated coin => add_coin coin
  | CoinConsumed coin => remove_coin coin
  | ForcedTransactionFailed _ _ _ => mret ()
  end.

Definition update_event_based_indexation (event : ExecutorEvent) (balances_indexation_enabled coins_to_spend_indexation_enabled : bool)
    (base_asset_id : AssetId) : Indexation unit :=
  balances_update event balances_indexation_enabled ≫= λ _,
  coins_to_spend_update event coins_to_spend_indexation_enabled base_asset_id.

(** The tables of owners, which are always kept *)
Definition update_owned (event : ExecutorEvent) (od : OffChainDb) : OffChainDb :=
  match event with
  | MessageImported message =>
      od <| owned_message_ids := {[(msg_recipient message, msg_nonce message)]} ∪ owned_message_ids od |>
  | MessageConsumed message =>
      (od <| owned_message_ids := owned_message_ids od ∖ {[(msg_recipient message, msg_nonce message)]} |>)
        <| spent_messages := {[msg_nonce message]} ∪ spent_messages od |>
  | CoinCreated coin => od <| owned_coins := {[(coin_owner coin, coin_utxo_id coin)]} ∪ owned_coins od |>
  | CoinConsumed coin => od <| owned_coins := owned_coins od ∖ {[(coin_owner coin, coin_utxo_id coin)]} |>
  | ForcedTransactionFailed id block_height failure =>
      od <| relayed_transaction_statuses := <[id := (block_height, failure)]> (relayed_transaction_statuses od) |>
  end.

(** The database after the events, and the errors of the indexes, which are
    logged and otherwise ignored. *)
Fixpoint process_executor_events (events : list ExecutorEvent) (balances_indexation_enabled coins_to_spend_indexation_enabled : bool)
    (base_asset_id : AssetId) (od : OffChainDb) : list IndexationError * OffChainDb :=
  match events with
  | [] => ([], od)
  | event :: events =>
      let '(r, od) :=
        update_event_based_indexation event balances_indexation_enabled coins_to_spend_indexation_enabled base_asset_id od in
      let '(logged, od) :=
        process_executor_events events balances_indexation_enabled coins_to_spend_indexation_enabled base_asset_id (update_owned event od) in
      (match r with Ok _ => logged | Err err => err :: logged end, od)
  end.

(** ** Receipts and transactions *)
Inductive SupplyReceipt :=
| ReceiptMint (sub_id : Bytes32) (contract_id : ContractId) (val : Z)
| ReceiptBurn (sub_id : Bytes32) (contract_id : ContractId) (val : Z).

Class ReceiptsAndContracts := {
  (** [Receipt::Mint] and [Receipt::Burn] *)
  supply_receipt : Receipt → option SupplyReceipt;
  (** [ContractIdExt::asset_id] *)
  contract_asset_id : ContractId → Bytes32 → AssetId;
  (** [Create::salt] *)
  create_salt : ChargeableTx → Bytes32;
  (** The id computed from the bytecode, the salt and the storage slots of a
      [Create] transaction, unless the bytecode is missing *)
  computed_contract_id : ChargeableTx → option ContractId;
  (** [TransactionExecutionResult::reason] *)
  result_reason : list Receipt → option ProgramState → string
}.

Inductive WorkerError :=
| IndexationFailure (e : IndexationError)
| StatusAlreadyExists (id : TxId)
| MoreThanU16Transactions
| InvalidCreate
| WorkerDatabaseError (e : DatabaseError)
| ImportResultUnavailable
| TargetBelowOffChainHeight.

Section worker.
Context `{HH : Hashing, VM : FuelVm, RC : ReceiptsAndContracts}.

Definition current_supply (receipt : SupplyReceipt) (asset_id : AssetId) (od : OffChainDb) : result IndexationError Z :=
  let current_supply := match assets_info od !! asset_id with Some info => total_supply info | None => 0 end in
  match receipt with
  | ReceiptMint _ _ val => ok_or (checked_add u128 current_supply val) (AssetMetadataWouldOverflow asset_id current_supply val)
  | ReceiptBurn _ _ val => ok_or (checked_sub u128 current_supply val) (TryingToBurnMoreThanSupply current_supply val)
  end.
Definition supply_ids (receipt : SupplyReceipt) : Bytes32 * ContractId :=
  match receipt with ReceiptMint sub_id contract_id _ | ReceiptBurn sub_id contract_id _ => (sub_id, contract_id) end.
Definition asset_metadata_update (receipts : list Receipt) (enabled : bool) : Indexation unit :=
  if negb enabled then mret ()
  else st_for (λ receipt od,
    match supply_receipt receipt with
    | None => (Ok (), od)
    | Some receipt =>
        let '(sub_id, contract_id) := supply_ids receipt in
        let asset_id := contract_asset_id contract_id sub_id in
        match current_supply receipt asset_id od with
        | Err e => (Err e, od)
        | Ok new_supply => (Ok (), od <| assets_info := <[asset_id := MkAssetDetails contract_id sub_id new_supply]> (assets_info od) |>)
        end
    end) receipts.

Definition from_executor_to_status (block : Block Transaction) (result : TransactionExecutionResult) : TxExecutionStatus :=
  let t := time (consensus (header block)) in
  let block_height := height (consensus (header block)) in
  match result with
  | Success r receipts gas fee => TesSuccess block_height t r receipts gas fee
  | Failed r receipts gas fee => TesFailed block_height t r receipts gas fee
  end.
Definition status_of_execution (value : TxExecutionStatus) : TransactionStatus :=
  match value with
  | TesSubmitted t => StSubmitted t
  | TesSuccess h t r receipts gas fee => StSuccess h t r receipts gas fee
  | TesSqueezedOut reason => StSqueezedOut reason
  | TesFailed h t r receipts gas fee => StFailure h t r receipts gas fee (result_reason receipts r)
  end.

Definition persist_one_status (block : Block Transaction) (asset_metadata_indexation_enabled : bool)
    (s : TransactionExecutionStatus) : ST OffChainDb WorkerError unit := λ od,
  let status := from_executor_to_status block (st_result s) in
  let old := transaction_statuses od !! st_id s in
  let od := od <| transaction_statuses := <[st_id s := status]> (transaction_statuses od) |> in
  match old with
  | Some _ => (Err (StatusAlreadyExists (st_id s)), od)
  | None =>
      match st_result s with
      | Success _ receipts _ _ =>
          let '(r, od) := asset_metadata_update receipts asset_metadata_indexation_enabled od in (map_err IndexationFailure r, od)
      | Failed _ _ _ _ => (Ok (), od)
      end
  end.
Definition persist_transaction_status (import_result : ImportResult) (asset_metadata_indexation_enabled : bool)
    : ST OffChainDb WorkerError unit :=
  st_for (persist_one_status (entity (ir_sealed_block import_result)) asset_metadata_indexation_enabled) (ir_tx_status import_result).

(** The owners of a transaction, without repetitions *)
Definition tx_owners (inputs : list Input) (outputs : list Output) : list Address :=
  let owners :=
    (inputs ≫= λ i, match input_coin i with Some c => [ci_owner c] | None => [] end) ++
    (outputs ≫= λ o, match o with OutputCoin to _ _ | OutputChange to _ _ | OutputVariable to _ _ => [to] | _ => [] end) in
  elements (list_to_set owners : gset Address).
Definition persist_owners_index (block_height : BlockHeight) (inputs : list Input) (outputs : list Output) (id : TxId) (tx_idx : Z)
    (od : OffChainDb) : OffChainDb :=
  foldl (λ od owner, od <| owned_transactions := <[(owner, block_height, tx_idx) := id]> (owned_transactions od) |>) od
    (tx_owners inputs outputs).
Fixpoint index_tx_owners (chain_id : Z) (block_height : BlockHeight) (tx_idx : Z) (txs : list Transaction)
    : ST OffChainDb WorkerError unit := λ od,
  match txs with
  | [] => (Ok (), od)
  | tx :: txs =>
      match try_into u16 tx_idx with
      | None => (Err MoreThanU16Transactions, od)
      | Some _ =>
          let od := match tx with
                    | TxChargeable c => persist_owners_index block_height (tx_inputs c) (tx_outputs c) (tx_id chain_id tx) tx_idx od
                    | TxMint _ => od
                    end in
          index_tx_owners chain_id block_height (tx_idx + 1) txs od
      end
  end.
Definition index_tx_owners_for_block (chain_id : Z) (block : Block Transaction) : ST OffChainDb WorkerError unit :=
  index_tx_owners chain_id (height (consensus (header block))) 0 (transactions block).

Definition output_contract_id (o : Output) : option ContractId :=
  match o with OutputContractCreated contract_id _ => Some contract_id | _ => None end.
Definition process_transactions (txs : list Transaction) : ST OffChainDb WorkerError unit :=
  st_for (λ tx od,
    match tx with
    | TxChargeable c =>
        if decide (tx_kind c = Create) then
          let contract_id :=
            match omap output_contract_id (tx_outputs c) with
            | contract_id :: _ => Some contract_id
            | [] => computed_contract_id c
            end in
          match contract_id with
          | None => (Err InvalidCreate, od)
          | Some contract_id => (Ok (), od <| contracts_info := <[contract_id := create_salt c]> (contracts_info od) |>)
          end
        else (Ok (), od)
    | TxMint _ => (Ok (), od)
    end) txs.

Definition increase_tx_count (new_txs_count : Z) (od : OffChainDb) : OffChainDb :=
  od <| total_tx_count := saturating_add u64 (total_tx_count od) new_txs_count |>.

(** [StorageTransaction::commit] on the off-chain database: the changes hold
    exactly one height, that of the block. *)
Definition commit_block (new_height : BlockHeight) (od : OffChainDb) : result DatabaseError OffChainDb :=
  _ ← match off_chain_height od with
      | None => Ok ()
      | Some prev_height =>
          next_expected_height ← ok_or (checked_add u32 prev_height 1) FailedToAdvanceHeight;
          if decide (next_expected_height = new_height) then Ok () else Err (HeightsAreNotLinked prev_height new_height)
      end;
  mret (od <| off_chain_height := Some new_height |>).

(** *** Waiting for a block height

    [block_height_subscription.rs]: the callers that wait for a height are
    numbers, and a call is answered when it is notified. *)
Record HandlersMap := MkHandlersMap { tx_handles : gmap BlockHeight (list nat); current_block_height : BlockHeight }.
Definition HandlersMap_new (block_height : BlockHeight) : HandlersMap := MkHandlersMap ∅ block_height.
(** Whether the call returns at once. *)
Definition wait_for_block_height (caller : nat) (block_height : BlockHeight) (self : HandlersMap) : bool * HandlersMap :=
  if decide (block_height ≤ current_block_height self) then (true, self)
  else (false, MkHandlersMap
          (<[block_height := unwrap_or [] (tx_handles self !! block_height) ++ [caller]]> (tx_handles self)) (current_block_height self)).
(** The callers that are notified *)
Definition notify_and_update (block_height : BlockHeight) (self : HandlersMap) : list nat * HandlersMap :=
  (map_to_list (filter (λ e, e.1 ≤ block_height) (tx_handles self)) ≫= snd,
   MkHandlersMap (filter (λ e, ¬ e.1 ≤ block_height) (tx_handles self)) block_height).

(** *** The task *)
Record OffChainTask := MkOffChainTask {
  ot_database : OffChainDb;
  ot_handlers : HandlersMap;
  ot_sent : list (TxId * TransactionStatus);   (* to the status manager *)
  ot_notified : list nat;
  ot_logged : list IndexationError
}.
Record OffChainConfig := MkOffChainConfig {
  oc_chain_id : Z;
  oc_continue_on_error : bool;
  oc_balances_enabled : bool;
  oc_coins_to_spend_enabled : bool;
  oc_asset_metadata_enabled : bool;
  oc_base_asset_id : AssetId
}.

(** The storage transaction of a block: the logged errors and the changed
    tables, before the commit *)
Definition index_block (config : OffChainConfig) (import_result : ImportResult) (od : OffChainDb)
    : result WorkerError (list IndexationError * OffChainDb) :=
  let block := entity (ir_sealed_block import_result) in
  match (persist_transaction_status import_result (oc_asset_metadata_enabled config) ≫= λ _,
         index_tx_owners_for_block (oc_chain_id config) block ≫= λ _,
         process_transactions (transactions block)) od with
  | (Err e, _) => Err e
  | (Ok _, od) =>
      let od := od <| fuel_block_ids_to_heights :=
                       <[Block_id block := height (consensus (header block))]> (fuel_block_ids_to_heights od) |> in
      let od := increase_tx_count (Z.of_nat (length (transactions block))) od in
      Ok (process_executor_events (ir_events import_result) (oc_balances_enabled config) (oc_coins_to_spend_enabled config)
            (oc_base_asset_id config) od)
  end.

Definition process_block (config : OffChainConfig) (import_result : ImportResult) (self : OffChainTask) : result WorkerError OffChainTask :=
  let block := entity (ir_sealed_block import_result) in
  let h := height (consensus (header block)) in
  '(logged, od) ← index_block config import_result (ot_database self);
  od ← map_err WorkerDatabaseError (commit_block h od);
  let sent := (λ s, (st_id s, status_of_execution (from_executor_to_status block (st_result s)))) <$> ir_tx_status import_result in
  let '(notified, handlers) := notify_and_update h (ot_handlers self) in
  mret (MkOffChainTask od handlers (ot_sent self ++ sent) (ot_notified self ++ notified) (ot_logged self ++ logged)).

Inductive TaskNextAction := Continue | Stop | ErrorContinue (e : WorkerError).
Definition run_block (config : OffChainConfig) (block : ImportResult) (self : OffChainTask) : TaskNextAction * OffChainTask :=
  match process_block config block self with
  | Ok self => (Continue, self)
  | Err e => (if oc_continue_on_error config then ErrorContinue e else Stop, self)
  end.

(** Catching up with the chain when the service starts; [provider] gives the
    result of importing a block again. *)
Inductive BlockAt := Genesis_block | Specific (height : BlockHeight).
Definition height_lt (a b : option BlockHeight) : bool :=
  match a, b with
  | None, Some _ => true
  | Some a, Some b => bool_decide (a < b)
  | _, None => false
  end.
Fixpoint sync_databases (fuel : nat) (config : OffChainConfig) (provider : BlockAt → option ImportResult)
    (target_chain_height : option BlockHeight) (self : OffChainTask) : option (result WorkerError OffChainTask) :=
  let current := off_chain_height (ot_database self) in
  if height_lt target_chain_height current then Some (Err TargetBelowOffChainHeight)
  else if decide (target_chain_height = current) then Some (Ok self)
  else match fuel with
  | O => None
  | S fuel =>
      let next_block_height :=
        match current with Some h => Specific (saturating_add u32 h 1) | None => Genesis_block end in
      match provider next_block_height with
      | None => Some (Err ImportResultUnavailable)
      | Some import_result =>
          match process_block config import_result self with
          | Err e => Some (Err e)
          | Ok self => sync_databases fuel config provider target_chain_height self
          end
      end
  end.
End worker.
