(* ===== verification/OffChainFacts.v ===== *)
(** * The off-chain indexes follow the ledger

    The balances, the coins to spend and the owners that the worker derives
    from the events of blocks are those of the coins and messages in the
    on-chain database. *)
From stdpp Require Import strings.
From S2P Require Import Prelude FuelTypes BlockTypes ExecutorTypes Executor ExecutorFrame ExecutorRoundtrip Importer ExecutorLedger ExecutorAccounting TxStatus OffChain.

(** ** Totals over a table *)
Section totals.
Context `{Countable K} {A : Type}.
Implicit Types (f : A → Z) (m : gmap K A).

Definition map_total f m : Z := map_fold (λ _ x n, f x + n) 0 m.

Lemma map_total_empty f : map_total f ∅ = 0.
Proof. done. Qed.
Lemma map_total_insert f m k x : m !! k = None → map_total f (<[k := x]> m) = f x + map_total f m.
Proof. intros Hk. unfold map_total. rewrite map_fold_insert_L; [done| |done]. intros. lia. Qed.
Lemma map_total_delete f m k x : m !! k = Some x → map_total f m = f x + map_total f (delete k m).
Proof. intros Hk. rewrite <- (map_total_insert f (delete k m) k x) by apply lookup_delete_eq. by rewrite insert_delete_id. Qed.
Lemma map_total_bounds f m b : 0 ≤ b → (∀ k x, m !! k = Some x → 0 ≤ f x ≤ b) → 0 ≤ map_total f m ≤ Z.of_nat (size m) * b.
Proof.
  intros Hb. induction m as [|k x m Hk IH] using map_ind; intros Hf; [done|].
  rewrite map_total_insert, map_size_insert_None by done. pose proof (Hf k x (lookup_insert_eq _ _ _)).
  assert (∀ k x, m !! k = Some x → 0 ≤ f x ≤ b) as Hf'.
  { intros k' x' Hk'. apply (Hf k'). rewrite lookup_insert_ne; [done|]. intros <-. congruence. }
  specialize (IH Hf'). nia.
Qed.
Lemma map_total_ext f g m : (∀ k x, m !! k = Some x → f x = g x) → map_total f m = map_total g m.
Proof.
  induction m as [|k x m Hk IH] using map_ind; intros Hf; [done|].
  rewrite !map_total_insert by done. rewrite (Hf k x) by apply lookup_insert_eq. rewrite IH; [done|].
  intros k' x' Hk'. apply (Hf k'). rewrite lookup_insert_ne; [done|]. intros <-. congruence.
Qed.
End totals.

(** ** The index of a ledger *)
Definition coin_share (owner : Address) (asset_id : AssetId) (c : CompressedCoin) : Z :=
  if decide (cc_owner c = owner ∧ cc_asset_id c = asset_id) then cc_amount c else 0.
Definition message_share (owner : Address) (retry : bool) (m : Message) : Z :=
  if decide (msg_recipient m = owner ∧ is_retryable_message m = retry) then msg_amount m else 0.
Definition coins_of (l : Ledger) (owner : Address) (asset_id : AssetId) : Z := map_total (coin_share owner asset_id) l.1.
Definition messages_of (l : Ledger) (owner : Address) (retry : bool) : Z := map_total (message_share owner retry) l.2.

(** Amounts are [u64], messages are stored under their nonce. *)
Definition ledger_typed (l : Ledger) : Prop :=
  (∀ u c, l.1 !! u = Some c → in_range u64 (cc_amount c))
  ∧ ∀ n m, l.2 !! n = Some m → in_range u64 (msg_amount m) ∧ msg_nonce m = n.
Definition event_typed (e : ExecutorEvent) : Prop :=
  match e with
  | MessageImported m | MessageConsumed m => in_range u64 (msg_amount m)
  | CoinCreated c | CoinConsumed c => in_range u64 (coin_amount c)
  | ForcedTransactionFailed _ _ _ => True
  end.
Definition ledger_size (l : Ledger) : nat := size l.1 + size l.2.

Section indexed.
Context (base_asset_id : AssetId).
Definition to_spend_ok (l : Ledger) (index : gset CoinsToSpendIndexKey) : Prop := ∀ k, k ∈ index ↔
  (∃ u c, l.1 !! u = Some c ∧ k = from_coin (uncompress c u)) ∨ (∃ n m, l.2 !! n = Some m ∧ k = from_message m base_asset_id).
Definition owned_coins_ok (l : Ledger) (owned : gset (Address * UtxoId)) : Prop :=
  ∀ o u, (o, u) ∈ owned ↔ ∃ c, l.1 !! u = Some c ∧ cc_owner c = o.
Definition owned_messages_ok (l : Ledger) (owned : gset (Address * Nonce)) : Prop :=
  ∀ o n, (o, n) ∈ owned ↔ ∃ m, l.2 !! n = Some m ∧ msg_recipient m = o.
Record Indexed (l : Ledger) (od : OffChainDb) : Prop := {
  ix_coin_balances : ∀ o a, coin_balance od o a = coins_of l o a;
  ix_message_balances : ∀ o, message_balance od o = MkMessageBalance (messages_of l o true) (messages_of l o false);
  ix_to_spend : to_spend_ok l (coins_to_spend_index od);
  ix_owned_coins : owned_coins_ok l (owned_coins od);
  ix_owned_messages : owned_messages_ok l (owned_message_ids od)
}.

(** The nonce of an imported message is new, as the contract of the bridge
    guarantees. *)
Fixpoint imports_fresh (evs : list ExecutorEvent) (l : Ledger) : Prop :=
  match evs with
  | [] => True
  | e :: evs =>
      match e with MessageImported m => l.2 !! msg_nonce m = None | _ => True end
      ∧ match replay_event e l with Some l => imports_fresh evs l | None => True end
  end.

Lemma uncompress_compress c : uncompress (compress_coin c) (coin_utxo_id c) = c.
Proof. by destruct c. Qed.
Lemma coin_balance_insert od key v o a :
  coin_balance (od <| coin_balances := <[key := v]> (coin_balances od) |>) o a = if decide (key = (o, a)) then v else coin_balance od o a.
Proof. unfold coin_balance. cbn. case_decide; subst; [by rewrite lookup_insert_eq|by rewrite lookup_insert_ne]. Qed.
Lemma message_balance_insert od key v o :
  message_balance (od <| message_balances := <[key := v]> (message_balances od) |>) o = if decide (key = o) then v else message_balance od o.
Proof. unfold message_balance. cbn. case_decide; subst; [by rewrite lookup_insert_eq|by rewrite lookup_insert_ne]. Qed.

Lemma coins_of_bounds l o a : ledger_typed l → 0 ≤ coins_of l o a ≤ Z.of_nat (size l.1) * (2 ^ 64 - 1).
Proof.
  intros [Hc _]. apply map_total_bounds; [lia|]. intros u c Hu. unfold coin_share. specialize (Hc u c Hu).
  unfold in_range in Hc. cbn in Hc. case_decide; lia.
Qed.
Lemma messages_of_bounds l o r : ledger_typed l → 0 ≤ messages_of l o r ≤ Z.of_nat (size l.2) * (2 ^ 64 - 1).
Proof.
  intros [_ Hm]. apply map_total_bounds; [lia|]. intros n m Hn. unfold message_share. destruct (Hm n m Hn) as [Ha _].
  unfold in_range in Ha. cbn in Ha. case_decide; lia.
Qed.

Lemma indexation_bind e od r od' :
  balances_update e true od = (Ok r, od') →
  update_event_based_indexation e true true base_asset_id od = coins_to_spend_update e true base_asset_id od'.
Proof. unfold update_event_based_indexation, mbind, ST_bind. by intros ->. Qed.
Lemma add_key_new k err od :
  k ∉ coins_to_spend_index od → add_key k err od = (Ok (), od <| coins_to_spend_index := {[k]} ∪ coins_to_spend_index od |>).
Proof. intros Hk. unfold add_key. by rewrite decide_False. Qed.
Lemma remove_key_old k err od :
  k ∈ coins_to_spend_index od → remove_key k err od = (Ok (), od <| coins_to_spend_index := coins_to_spend_index od ∖ {[k]} |>).
Proof. intros Hk. unfold remove_key. by rewrite decide_True. Qed.

(** *** What one event does to the totals, the keys and the owners *)
Lemma coins_created u c l o a :
  l.1 !! u = None → coins_of (<[u := c]> l.1, l.2) o a = coin_share o a c + coins_of l o a.
Proof. apply map_total_insert. Qed.
Lemma coins_consumed u c l o a :
  l.1 !! u = Some c → coins_of l o a = coin_share o a c + coins_of (delete u l.1, l.2) o a.
Proof. apply map_total_delete. Qed.
Lemma messages_imported n m l o r :
  l.2 !! n = None → messages_of (l.1, <[n := m]> l.2) o r = message_share o r m + messages_of l o r.
Proof. apply map_total_insert. Qed.
Lemma messages_consumed n m l o r :
  l.2 !! n = Some m → messages_of l o r = message_share o r m + messages_of (l.1, delete n l.2) o r.
Proof. apply map_total_delete. Qed.

Lemma increase_coin_spec c l od :
  (∀ o a, coin_balance od o a = coins_of l o a) → ledger_typed l → in_range u64 (coin_amount c) →
  Z.of_nat (size l.1) < 2 ^ 63 → l.1 !! coin_utxo_id c = None →
  ∃ od', increase_coin_balance c od = (Ok (), od')
    ∧ od' = (od <| coin_balances := coin_balances od' |>)
    ∧ ∀ o a, coin_balance od' o a = coins_of (<[coin_utxo_id c := compress_coin c]> l.1, l.2) o a.
Proof.
  intros Hcb Ht Ha Hs Hn. eexists. split_and!; [done|done|]. intros o a. rewrite coin_balance_insert, coins_created, !Hcb by done.
  pose proof (coins_of_bounds l o a Ht). unfold in_range in Ha. cbn in Ha. unfold coin_share. cbn.
  destruct (decide (_ = _)) as [[= <- <-]|Hd].
  - rewrite decide_True by done. unfold saturating_add, clamp. cbn. nia.
  - rewrite decide_False by (intros []; congruence). lia.
Qed.
Lemma decrease_coin_spec c l od :
  (∀ o a, coin_balance od o a = coins_of l o a) → ledger_typed l → Z.of_nat (size l.1) < 2 ^ 63 →
  l.1 !! coin_utxo_id c = Some (compress_coin c) →
  ∃ od', decrease_coin_balance c od = (Ok (), od')
    ∧ od' = (od <| coin_balances := coin_balances od' |>)
    ∧ ∀ o a, coin_balance od' o a = coins_of (delete (coin_utxo_id c) l.1, l.2) o a.
Proof.
  intros Hcb Ht Hs Hn. assert (ledger_typed (delete (coin_utxo_id c) l.1, l.2)) as Ht'.
  { destruct Ht as [H1 H2]. split; [|done]. cbn. intros u c' [_ Hu]%lookup_delete_Some. by eapply H1. }
  unfold decrease_coin_balance. rewrite Hcb. rewrite (coins_consumed _ _ _ _ _ Hn).
  pose proof (coins_of_bounds _ (coin_owner c) (coin_asset_id c) Ht') as Hb. pose proof (coins_of_bounds _ (coin_owner c) (coin_asset_id c) Ht) as Hb'.
  pose proof (proj1 Ht _ _ Hn) as Ha. unfold in_range in Ha. cbn in Ha.
  rewrite (coins_consumed _ _ _ _ _ Hn) in Hb'. unfold coin_share in *. cbn in Hb, Hb' |- *. rewrite decide_True in * by done.
  unfold checked_sub; rewrite fit_ok by (unfold in_range; cbn; nia). eexists. split_and!; [done|done|].
  intros o a. rewrite coin_balance_insert, Hcb, (coins_consumed _ _ _ _ _ Hn). unfold coin_share. cbn.
  destruct (decide (_ = _)) as [[= <- <-]|Hd]; [lia|]. rewrite decide_False by (intros []; congruence). lia.
Qed.

Lemma increase_message_spec m l od :
  (∀ o, message_balance od o = MkMessageBalance (messages_of l o true) (messages_of l o false)) → ledger_typed l →
  in_range u64 (msg_amount m) → Z.of_nat (size l.2) < 2 ^ 63 → l.2 !! msg_nonce m = None →
  ∃ od', increase_message_balance m od = (Ok (), od')
    ∧ od' = (od <| message_balances := message_balances od' |>)
    ∧ ∀ o, message_balance od' o = MkMessageBalance (messages_of (l.1, <[msg_nonce m := m]> l.2) o true)
                                     (messages_of (l.1, <[msg_nonce m := m]> l.2) o false).
Proof.
  intros Hmb Ht Ha Hs Hn. eexists. split_and!; [done|done|]. intros o. rewrite message_balance_insert, !messages_imported, !Hmb by done.
  cbn [retryable non_retryable]. unfold message_share. unfold in_range in Ha. cbn in Ha.
  pose proof (messages_of_bounds l o true Ht). pose proof (messages_of_bounds l o false Ht).
  destruct (decide (_ = _)) as [<-|Hd].
  - destruct (is_retryable_message m) eqn:Hr;
      [rewrite decide_True, decide_False by (done || by intros [])|rewrite decide_False, decide_True by (done || by intros [])];
      f_equal; unfold saturating_add, clamp; cbn; nia.
  - rewrite !decide_False by (intros []; congruence). done.
Qed.
Lemma decrease_message_spec m l od :
  (∀ o, message_balance od o = MkMessageBalance (messages_of l o true) (messages_of l o false)) → ledger_typed l →
  Z.of_nat (size l.2) < 2 ^ 63 → l.2 !! msg_nonce m = Some m →
  ∃ od', decrease_message_balance m od = (Ok (), od')
    ∧ od' = (od <| message_balances := message_balances od' |>)
    ∧ ∀ o, message_balance od' o = MkMessageBalance (messages_of (l.1, delete (msg_nonce m) l.2) o true)
                                     (messages_of (l.1, delete (msg_nonce m) l.2) o false).
Proof.
  intros Hmb Ht Hs Hn. assert (ledger_typed (l.1, delete (msg_nonce m) l.2)) as Ht'.
  { destruct Ht as [H1 H2]. split; [done|]. cbn. intros n m' [_ Hm]%lookup_delete_Some. by apply H2. }
  pose proof (proj1 (proj2 Ht _ _ Hn)) as Ha. unfold in_range in Ha. cbn in Ha.
  assert (∀ r, 0 ≤ messages_of (l.1, delete (msg_nonce m) l.2) (msg_recipient m) r < 2 ^ 127) as Hb.
  { intros r. pose proof (messages_of_bounds _ (msg_recipient m) r Ht') as Hb. cbn [snd] in Hb.
    rewrite map_size_delete_Some in Hb by eauto. nia. }
  unfold decrease_message_balance. rewrite Hmb, !(messages_consumed _ _ _ _ _ Hn). unfold message_share. cbv beta iota zeta.
  pose proof (Hb true). pose proof (Hb false).
  assert (∀ od' new, new = MkMessageBalance (messages_of (l.1, delete (msg_nonce m) l.2) (msg_recipient m) true)
            (messages_of (l.1, delete (msg_nonce m) l.2) (msg_recipient m) false) →
    od' = (od <| message_balances := <[msg_recipient m := new]> (message_balances od) |>) →
    od' = (od <| message_balances := message_balances od' |>) ∧
    ∀ o, message_balance od' o = MkMessageBalance (messages_of (l.1, delete (msg_nonce m) l.2) o true)
                                     (messages_of (l.1, delete (msg_nonce m) l.2) o false)) as Hgoal.
  { intros od' new -> ->. split; [done|]. intros o. rewrite message_balance_insert. destruct (decide (_ = _)) as [<-|Hd]; [done|].
    rewrite Hmb, !(messages_consumed _ _ _ _ _ Hn). unfold message_share. by rewrite !decide_False by (intros []; congruence). }
  destruct (is_retryable_message m) eqn:Hr;
    (rewrite ?(decide_True (P := _ ∧ _)), ?(decide_False (P := _ ∧ _)) by (done || by intros []));
    unfold checked_sub; rewrite fit_ok by (unfold in_range; cbn; lia); eexists; (split; [done|]); eapply Hgoal; [|done| |done]; f_equal; lia.
Qed.

Lemma to_spend_created c l index :
  to_spend_ok l index → l.1 !! coin_utxo_id c = None →
  from_coin c ∉ index ∧ to_spend_ok (<[coin_utxo_id c := compress_coin c]> l.1, l.2) ({[from_coin c]} ∪ index).
Proof.
  intros Hts Hn. split.
  - intros [(u & c' & Hu & [= _ _ _ Hk])|(n & m & _ & [=])]%Hts. congruence.
  - intros k. rewrite elem_of_union, elem_of_singleton, (Hts k). cbn [fst snd]. split.
    + intros [->|[(u & c' & Hu & ->)|Hm]]; [left|left|by right].
      * exists (coin_utxo_id c), (compress_coin c). by rewrite lookup_insert_eq, uncompress_compress.
      * exists u, c'. rewrite lookup_insert_ne by congruence. done.
    + intros [(u & c' & Hu & ->)|Hm]; [|by right; right].
      apply lookup_insert_Some in Hu as [[<- <-]|[Hne Hu]]; [left; by rewrite uncompress_compress|right; left; eauto].
Qed.
Lemma to_spend_consumed c l index :
  to_spend_ok l index → l.1 !! coin_utxo_id c = Some (compress_coin c) →
  from_coin c ∈ index ∧ to_spend_ok (delete (coin_utxo_id c) l.1, l.2) (index ∖ {[from_coin c]}).
Proof.
  intros Hts Hn. split.
  - apply Hts. left. exists (coin_utxo_id c), (compress_coin c). by rewrite uncompress_compress.
  - intros k. rewrite elem_of_difference, elem_of_singleton, (Hts k). cbn [fst snd]. split.
    + intros [[(u & c' & Hu & ->)|Hm] Hne]; [left|by right]. exists u, c'. rewrite lookup_delete_ne; [done|]. intros <-.
      apply Hne. rewrite Hn in Hu. injection Hu as <-. by rewrite uncompress_compress.
    + intros [(u & c' & [Hne Hu]%lookup_delete_Some & ->)|Hm].
      * split; [left; eauto|]. intros [= _ _ _ Heq]. by destruct Hne.
      * split; [by right|]. destruct Hm as (n & m & _ & ->). done.
Qed.
Lemma to_spend_imported m l index :
  to_spend_ok l index → ledger_typed l → l.2 !! msg_nonce m = None →
  from_message m base_asset_id ∉ index ∧ to_spend_ok (l.1, <[msg_nonce m := m]> l.2) ({[from_message m base_asset_id]} ∪ index).
Proof.
  intros Hts [_ Hkey] Hn. split.
  - intros [(u & c & _ & [=])|(n & m' & Hm & [= _ _ _ Hk])]%Hts. pose proof (proj2 (Hkey n m' Hm)). congruence.
  - intros k. rewrite elem_of_union, elem_of_singleton, (Hts k). cbn [fst snd]. split.
    + intros [->|[Hc|(n & m' & Hm & ->)]]; [right|by left|right].
      * exists (msg_nonce m), m. by rewrite lookup_insert_eq.
      * exists n, m'. rewrite lookup_insert_ne by congruence. done.
    + intros [Hc|(n & m' & Hm & ->)]; [by right; left|].
      apply lookup_insert_Some in Hm as [[<- <-]|[Hne Hm]]; [by left|right; right; eauto].
Qed.
Lemma to_spend_message_consumed m l index :
  to_spend_ok l index → ledger_typed l → l.2 !! msg_nonce m = Some m →
  from_message m base_asset_id ∈ index ∧ to_spend_ok (l.1, delete (msg_nonce m) l.2) (index ∖ {[from_message m base_asset_id]}).
Proof.
  intros Hts [_ Hkey] Hn. split.
  - apply Hts. right. eauto.
  - intros k. rewrite elem_of_difference, elem_of_singleton, (Hts k). cbn [fst snd]. split.
    + intros [[Hc|(n & m' & Hm & ->)] Hne]; [by left|right]. exists n, m'. rewrite lookup_delete_ne; [done|]. intros <-. congruence.
    + intros [(u & c & Hu & ->)|(n & m' & [Hne Hm]%lookup_delete_Some & ->)]; [split; [left; eauto|done]|].
      split; [right; eauto|]. intros [= _ _ _ Heq]. pose proof (proj2 (Hkey n m' Hm)). congruence.
Qed.

Lemma owned_coins_created c l owned :
  owned_coins_ok l owned → l.1 !! coin_utxo_id c = None →
  owned_coins_ok (<[coin_utxo_id c := compress_coin c]> l.1, l.2) ({[(coin_owner c, coin_utxo_id c)]} ∪ owned).
Proof.
  intros Ho Hn o u. rewrite elem_of_union, elem_of_singleton, (Ho o u). cbn [fst]. split.
  - intros [[= -> ->]|(c' & Hu & <-)]; [exists (compress_coin c); by rewrite lookup_insert_eq|].
    exists c'. rewrite lookup_insert_ne by congruence. done.
  - intros (c' & [[<- <-]|[Hne Hu]]%lookup_insert_Some & <-); [by left|right; eauto].
Qed.
Lemma owned_coins_consumed c l owned :
  owned_coins_ok l owned → l.1 !! coin_utxo_id c = Some (compress_coin c) →
  owned_coins_ok (delete (coin_utxo_id c) l.1, l.2) (owned ∖ {[(coin_owner c, coin_utxo_id c)]}).
Proof.
  intros Ho Hn o u. rewrite elem_of_difference, elem_of_singleton, (Ho o u). cbn [fst]. split.
  - intros [(c' & Hu & <-) Hne]. exists c'. rewrite lookup_delete_ne; [done|]. intros <-. apply Hne. rewrite Hn in Hu. by injection Hu as <-.
  - intros (c' & [Hne Hu]%lookup_delete_Some & <-). split; [eauto|]. congruence.
Qed.
Lemma owned_messages_imported m l owned :
  owned_messages_ok l owned → l.2 !! msg_nonce m = None →
  owned_messages_ok (l.1, <[msg_nonce m := m]> l.2) ({[(msg_recipient m, msg_nonce m)]} ∪ owned).
Proof.
  intros Ho Hn o n. rewrite elem_of_union, elem_of_singleton, (Ho o n). cbn [snd]. split.
  - intros [[= -> ->]|(m' & Hm & <-)]; [exists m; by rewrite lookup_insert_eq|]. exists m'. rewrite lookup_insert_ne by congruence. done.
  - intros (m' & [[<- <-]|[Hne Hm]]%lookup_insert_Some & <-); [by left|right; eauto].
Qed.
Lemma owned_messages_consumed m l owned :
  owned_messages_ok l owned → l.2 !! msg_nonce m = Some m →
  owned_messages_ok (l.1, delete (msg_nonce m) l.2) (owned ∖ {[(msg_recipient m, msg_nonce m)]}).
Proof.
  intros Ho Hn o n. rewrite elem_of_difference, elem_of_singleton, (Ho o n). cbn [snd]. split.
  - intros [(m' & Hm & <-) Hne]. exists m'. rewrite lookup_delete_ne; [done|]. intros <-. apply Hne. rewrite Hn in Hm. by injection Hm as <-.
  - intros (m' & [Hne Hm]%lookup_delete_Some & <-). split; [eauto|]. congruence.
Qed.

Lemma ledger_typed_step e l l' : ledger_typed l → event_typed e → replay_event e l = Some l' → ledger_typed l' ∧ (ledger_size l' ≤ S (ledger_size l))%nat.
Proof.
  intros [Hc Hm] He Hr. unfold ledger_size. destruct e as [m|m|c|c|]; cbn in Hr, He.
  - injection Hr as <-. split; [split; [done|]|].
    + cbn. intros n m' [[<- <-]|[_ Hn]]%lookup_insert_Some; [done|by apply Hm].
    + cbn. rewrite map_size_insert. destruct (l.2 !! msg_nonce m); cbn; lia.
  - case_decide as Hd; [|done]. injection Hr as <-. split; [split; [done|]|].
    + cbn. intros n m' [_ Hn]%lookup_delete_Some. by apply Hm.
    + cbn. rewrite map_size_delete, Hd. cbn. lia.
  - case_decide as Hd; [|done]. injection Hr as <-. split; [split; [|done]|].
    + cbn. intros u c' [[<- <-]|[_ Hu]]%lookup_insert_Some; [done|by eapply Hc].
    + cbn. rewrite map_size_insert, Hd. cbn. lia.
  - case_decide as Hd; [|done]. injection Hr as <-. split; [split; [|done]|].
    + cbn. intros u c' [_ Hu]%lookup_delete_Some. by eapply Hc.
    + cbn. rewrite map_size_delete, Hd. cbn. lia.
  - injection Hr as <-. split; [by split|lia].
Qed.

(** An event that the ledger allows is indexed without an error, and the index
    follows the ledger. *)
Lemma event_indexed e l l' od :
  Indexed l od → ledger_typed l → event_typed e → match e with MessageImported m => l.2 !! msg_nonce m = None | _ => True end →
  Z.of_nat (ledger_size l) < 2 ^ 63 → replay_event e l = Some l' →
  ∃ od', update_event_based_indexation e true true base_asset_id od = (Ok (), od') ∧ Indexed l' (update_owned e od').
Proof.
  intros [Hcb Hmb Hts Hoc Hom] Ht He Hf Hs Hr. unfold ledger_size in Hs. destruct e as [m|m|c|c|]; cbn [replay_event] in Hr.
  - injection Hr as <-. destruct (increase_message_spec m l od) as (od' & Hod & Hsame & Hb); [done..|lia|done|].
    destruct (to_spend_imported m l _ Hts Ht Hf) as [Hk Hts']. rewrite (indexation_bind (MessageImported m) od () od') by done.
    cbn [coins_to_spend_update negb]. unfold add_message. rewrite add_key_new by (by rewrite Hsame). eexists. split; [done|].
    rewrite Hsame. split; [done|exact Hb|done|done|by apply owned_messages_imported].
  - case_decide as Hd; [|done]. injection Hr as <-. destruct (decrease_message_spec m l od) as (od' & Hod & Hsame & Hb); [done..|lia|done|].
    destruct (to_spend_message_consumed m l _ Hts Ht Hd) as [Hk Hts']. rewrite (indexation_bind (MessageConsumed m) od () od') by done.
    cbn [coins_to_spend_update negb]. unfold remove_message. rewrite remove_key_old by (by rewrite Hsame). eexists. split; [done|].
    rewrite Hsame. split; [done|exact Hb|done|done|by apply owned_messages_consumed].
  - case_decide as Hd; [|done]. injection Hr as <-. destruct (increase_coin_spec c l od) as (od' & Hod & Hsame & Hb); [done..|lia|done|].
    destruct (to_spend_created c l _ Hts Hd) as [Hk Hts']. rewrite (indexation_bind (CoinCreated c) od () od') by done.
    cbn [coins_to_spend_update negb]. unfold add_coin. rewrite add_key_new by (by rewrite Hsame). eexists. split; [done|].
    rewrite Hsame. split; [exact Hb|done|done|by apply owned_coins_created|done].
  - case_decide as Hd; [|done]. injection Hr as <-. destruct (decrease_coin_spec c l od) as (od' & Hod & Hsame & Hb); [done..|lia|done|].
    destruct (to_spend_consumed c l _ Hts Hd) as [Hk Hts']. rewrite (indexation_bind (CoinConsumed c) od () od') by done.
    cbn [coins_to_spend_update negb]. unfold remove_coin. rewrite remove_key_old by (by rewrite Hsame). eexists. split; [done|].
    rewrite Hsame. split; [exact Hb|done|done|by apply owned_coins_consumed|done].
  - injection Hr as <-. eexists. split; [done|]. by split.
Qed.

Lemma events_indexed evs l l' od :
  Indexed l od → ledger_typed l → Forall event_typed evs → imports_fresh evs l →
  Z.of_nat (ledger_size l + length evs) < 2 ^ 63 → replay evs l = Some l' →
  ∃ od', process_executor_events evs true true base_asset_id od = ([], od') ∧ Indexed l' od' ∧ ledger_typed l'.
Proof.
  revert l od. induction evs as [|e evs IH]; intros l od HI Ht He Hf Hs Hr.
  - injection Hr as <-. by exists od.
  - apply Forall_cons in He as [He Hes]. cbn in Hf, Hr, Hs. destruct Hf as [Hf Hfs].
    destruct (replay_event e l) as [l1|] eqn:Hr1; [|done]. cbn in Hr.
    destruct (event_indexed e l l1 od) as (od1 & Hu & HI1); [done..|lia|done|].
    destruct (ledger_typed_step e l l1 Ht He Hr1) as [Ht1 Hs1].
    destruct (IH l1 (update_owned e od1)) as (od' & Hp & HI' & Ht'); [done..|lia|done|].
    exists od'. cbn [process_executor_events]. by rewrite Hu, Hp.
Qed.
End indexed.

(** ** Blocks *)
(** What the indexes, the statuses and the height of a database are. *)
Definition index_of (od : OffChainDb) :=
  (coin_balances od, message_balances od, coins_to_spend_index od, owned_coins od, owned_message_ids od).
Definition rest_of (od : OffChainDb) := (index_of od, transaction_statuses od, off_chain_height od, assets_info od).

Lemma indexed_ext base l od od' : index_of od' = index_of od → Indexed base l od → Indexed base l od'.
Proof.
  unfold index_of. intros [= H1 H2 H3 H4 H5] [Hcb Hmb Hts Hoc Hom]. unfold coin_balance, message_balance in *.
  split; unfold coin_balance, message_balance; rewrite ?H1, ?H2, ?H3, ?H4, ?H5; done.
Qed.

(** Events do not touch the statuses, the height and the supplies. *)
Definition block_tables (od : OffChainDb) := (transaction_statuses od, off_chain_height od, assets_info od).
Lemma balances_update_tables e enabled od : block_tables (balances_update e enabled od).2 = block_tables od.
Proof.
  unfold balances_update. destruct enabled; [|done]. destruct e as [m|m|c|c|]; [done| |done| |done]; cbn [negb].
  - unfold decrease_message_balance. destruct (message_balance od (msg_recipient m)) as [r n].
    by destruct (checked_sub u128 (if is_retryable_message m then r else n) (msg_amount m)).
  - unfold decrease_coin_balance. by destruct (checked_sub _ _ _).
Qed.
Lemma events_tables evs balances spend base od : block_tables (process_executor_events evs balances spend base od).2 = block_tables od.
Proof.
  revert od. induction evs as [|e evs IH]; intros od; [done|]. cbn [process_executor_events].
  destruct (update_event_based_indexation e balances spend base od) as [r od1] eqn:Hu.
  destruct (process_executor_events evs balances spend base (update_owned e od1)) as [logged od2] eqn:Hp. cbn [snd].
  pose proof (IH (update_owned e od1)) as H. rewrite Hp in H. cbn [snd] in H. rewrite H.
  assert (block_tables (update_owned e od1) = block_tables od1) as -> by (by destruct e).
  revert Hu. unfold update_event_based_indexation, mbind, ST_bind.
  pose proof (balances_update_tables e balances od) as Hb. destruct (balances_update e balances od) as [[u|err] od3]; cbn [snd] in Hb.
  - unfold coins_to_spend_update. destruct spend; [|by intros [= <- <-]]. destruct e; by intros [= <- <-].
  - by intros [= <- <-].
Qed.

Section blocks.
Context `{HH : Hashing, VM : FuelVm, RC : ReceiptsAndContracts}.

(** *** Supplies of assets *)
Definition supply (od : OffChainDb) (asset : AssetId) : Z := from_option total_supply 0 (assets_info od !! asset).
(** What a receipt mints, less what it burns, of an asset. *)
Definition supply_change (asset : AssetId) (r : Receipt) : Z :=
  match supply_receipt r with
  | Some (ReceiptMint sub_id contract_id val) => if decide (contract_asset_id contract_id sub_id = asset) then val else 0
  | Some (ReceiptBurn sub_id contract_id val) => if decide (contract_asset_id contract_id sub_id = asset) then - val else 0
  | None => 0
  end.
Fixpoint net_supply (asset : AssetId) (rs : list Receipt) : Z :=
  match rs with [] => 0 | r :: rs => supply_change asset r + net_supply asset rs end.
Definition successful_receipts (s : TransactionExecutionStatus) : list Receipt :=
  match st_result s with Success _ receipts _ _ => receipts | Failed _ _ _ _ => [] end.
(** The supplies stay within 128 bits after every receipt. *)
Definition supplies_fit (f : AssetId → Z) (rs : list Receipt) : Prop :=
  ∀ asset n, in_range u128 (f asset + net_supply asset (take n rs)).

Lemma net_supply_app asset rs rs' : net_supply asset (rs ++ rs') = net_supply asset rs + net_supply asset rs'.
Proof. induction rs as [|r rs IH]; cbn; [done|]. rewrite IH. lia. Qed.
Lemma supplies_fit_app f g rs rs' :
  (∀ asset, g asset = f asset + net_supply asset rs) → supplies_fit f (rs ++ rs') → supplies_fit f rs ∧ supplies_fit g rs'.
Proof.
  intros Hg Hfit. split; intros asset n.
  - specialize (Hfit asset (n `min` length rs)%nat). rewrite take_app_le in Hfit by lia.
    destruct (decide (n ≤ length rs)%nat); [by rewrite Nat.min_l in Hfit by lia|].
    rewrite Nat.min_r in Hfit by lia. rewrite take_ge in Hfit |- * by lia. done.
  - specialize (Hfit asset (length rs + n)%nat). rewrite take_app_add, net_supply_app in Hfit.
    rewrite Hg. by rewrite <- Z.add_assoc.
Qed.
Lemma supplies_fit_ext f g rs : (∀ asset, f asset = g asset) → supplies_fit f rs → supplies_fit g rs.
Proof. intros Hfg Hfit asset n. rewrite <- Hfg. apply Hfit. Qed.

Lemma assets_updated rs od :
  supplies_fit (supply od) rs →
  ∃ od', asset_metadata_update rs true od = (Ok (), od')
    ∧ index_of od' = index_of od ∧ transaction_statuses od' = transaction_statuses od
    ∧ off_chain_height od' = off_chain_height od
    ∧ ∀ asset, supply od' asset = supply od asset + net_supply asset rs.
Proof.
  unfold asset_metadata_update. cbn [negb]. revert od. induction rs as [|r rs IH]; intros od Hfit.
  { exists od. split_and!; [done..|]. intros asset. cbn. lia. }
  cbn [st_for]. unfold mbind, ST_bind.
  destruct (supply_receipt r) as [sr|] eqn:Hsr.
  - destruct (supply_ids sr) as [sub_id contract_id] eqn:Hids. set (asset_id := contract_asset_id contract_id sub_id).
    assert (current_supply sr asset_id od = Ok (supply od asset_id + supply_change asset_id r)) as ->.
    { pose proof (Hfit asset_id 1%nat) as Hin. cbn [take net_supply] in Hin. rewrite Z.add_0_r in Hin.
      unfold current_supply, supply, supply_change in *. rewrite Hsr in *.
      destruct sr; cbn in Hids; injection Hids as -> ->; fold asset_id in Hin |- *; rewrite decide_True in Hin |- * by done;
        destruct (assets_info od !! asset_id); unfold checked_add, checked_sub; cbn [from_option] in *;
        rewrite fit_ok by done; done. }
    pose (od1 := od <| assets_info :=
      <[asset_id := MkAssetDetails contract_id sub_id (supply od asset_id + supply_change asset_id r)]> (assets_info od) |>).
    assert (∀ asset, supply od1 asset = supply od asset + net_supply asset [r]) as Hod1.
    { intros asset. unfold od1, supply. cbn. rewrite Z.add_0_r. destruct (decide (asset = asset_id)) as [->|Hne].
      - rewrite lookup_insert_eq. done.
      - rewrite lookup_insert_ne by done. unfold supply_change. rewrite Hsr.
        destruct sr; cbn in Hids; injection Hids as -> ->; rewrite decide_False by done; lia. }
    destruct (supplies_fit_app _ _ [r] rs Hod1 Hfit) as [_ Hfit1].
    destruct (IH od1 Hfit1) as (od' & Hrun & Hi & Hst & Hh & Hs). exists od'. split_and!; [done..|].
    intros asset. rewrite Hs, Hod1. cbn. lia.
  - assert (∀ asset, supply od asset = supply od asset + net_supply asset [r]) as Hod1.
    { intros asset. cbn. unfold supply_change. rewrite Hsr. lia. }
    destruct (supplies_fit_app _ _ [r] rs Hod1 Hfit) as [_ Hfit1].
    destruct (IH od Hfit1) as (od' & Hrun & Hi & Hst & Hh & Hs). exists od'. split_and!; [done..|].
    intros asset. rewrite Hs. specialize (Hod1 asset). cbn in *. lia.
Qed.

(** The supplies that a run of the worker leaves. *)
Definition supplied (enabled : bool) (rs : list Receipt) (od od' : OffChainDb) : Prop :=
  ∀ asset, supply od' asset = supply od asset + (if enabled then net_supply asset rs else 0).

Lemma persist_status block enabled s od :
  st_id s ∉ dom (transaction_statuses od) → (enabled = true → supplies_fit (supply od) (successful_receipts s)) →
  ∃ od', persist_one_status block enabled s od = (Ok (), od') ∧ index_of od' = index_of od
    ∧ dom (transaction_statuses od') = {[st_id s]} ∪ dom (transaction_statuses od)
    ∧ off_chain_height od' = off_chain_height od ∧ supplied enabled (successful_receipts s) od od'.
Proof.
  intros Hs%not_elem_of_dom Hfit. unfold persist_one_status, supplied, successful_receipts in *. rewrite Hs.
  pose (od1 := od <| transaction_statuses := <[st_id s := from_executor_to_status block (st_result s)]> (transaction_statuses od) |>).
  assert (dom (transaction_statuses od1) = {[st_id s]} ∪ dom (transaction_statuses od)) as Hd by (cbn; by rewrite dom_insert_L).
  destruct (st_result s) as [r receipts gas fee|].
  - destruct enabled.
    + destruct (assets_updated receipts od1) as (od' & Hrun & Hi & Hst & Hh & Hsup); [by apply Hfit|].
      exists od'. split_and!; [|done| |done|exact Hsup]; [|by rewrite Hst].
      transitivity (let '(r, od) := asset_metadata_update receipts true od1 in (map_err IndexationFailure r, od)); [done|by rewrite Hrun].
    + exists od1. split_and!; [done..|]. intros asset. unfold supply. cbn. lia.
  - exists od1. split_and!; [done..|]. intros asset. unfold supply. cbn. destruct enabled; lia.
Qed.

Lemma persist_statuses block enabled sts od :
  NoDup (st_id <$> sts) → Forall (λ id, id ∉ dom (transaction_statuses od)) (st_id <$> sts) →
  (enabled = true → supplies_fit (supply od) (sts ≫= successful_receipts)) →
  ∃ od', st_for (persist_one_status block enabled) sts od = (Ok (), od') ∧ index_of od' = index_of od
    ∧ dom (transaction_statuses od') = list_to_set (st_id <$> sts) ∪ dom (transaction_statuses od)
    ∧ off_chain_height od' = off_chain_height od ∧ supplied enabled (sts ≫= successful_receipts) od od'.
Proof.
  revert od. induction sts as [|s sts IH]; intros od Hnd Hf Hfit.
  - exists od. split_and!; [done..| |done|]; [set_solver|]. intros asset. cbn. destruct enabled; lia.
  - cbn [fmap list_fmap] in *. apply NoDup_cons in Hnd as [Hn Hnd]. apply Forall_cons in Hf as [Hs Hf].
    rewrite bind_cons in *.
    destruct (persist_status block enabled s od Hs) as (od1 & Hp & Hi & Hd & Hh & Hsup).
    { intros ->. by destruct (supplies_fit_app _ _ _ _ (λ asset, eq_refl) (Hfit eq_refl)). }
    destruct (IH od1 Hnd) as (od' & Hrun & Hi' & Hd' & Hh' & Hsup').
    { rewrite Hd. rewrite Forall_forall in Hf |- *. set_solver. }
    { intros ->. by destruct (supplies_fit_app _ _ _ _ Hsup (Hfit eq_refl)). }
    exists od'. cbn [st_for]. unfold mbind, ST_bind. rewrite Hp. split_and!; [done|congruence| |congruence|].
    + rewrite Hd', Hd. set_solver.
    + intros asset. rewrite Hsup', Hsup. destruct enabled; [rewrite net_supply_app; unfold mbind|]; lia.
Qed.

Lemma persist_owners_rest h inputs outputs id i od : rest_of (persist_owners_index h inputs outputs id i od) = rest_of od.
Proof. unfold persist_owners_index. revert od. induction (tx_owners inputs outputs) as [|o l IH]; intros od; [done|]. cbn. by rewrite IH. Qed.
Lemma index_owners chain_id h i txs od :
  0 ≤ i → i + Z.of_nat (length txs) ≤ 2 ^ 16 →
  ∃ od', index_tx_owners chain_id h i txs od = (Ok (), od') ∧ rest_of od' = rest_of od.
Proof.
  revert i od. induction txs as [|tx txs IH]; intros i od Hi Hl; [by exists od|]. cbn [index_tx_owners length] in *.
  unfold try_into. rewrite fit_ok by (unfold in_range; cbn; lia).
  destruct (IH (i + 1) (match tx with
                        | TxChargeable c => persist_owners_index h (tx_inputs c) (tx_outputs c) (tx_id chain_id tx) i od
                        | TxMint _ => od end)) as (od' & -> & Hr); [lia..|].
  exists od'. split; [done|]. rewrite Hr. destruct tx; [apply persist_owners_rest|done].
Qed.

(** A transaction that creates a contract says which, or has its bytecode. *)
Definition create_ok (tx : Transaction) : Prop :=
  match tx with
  | TxChargeable c => tx_kind c = Create → omap output_contract_id (tx_outputs c) ≠ [] ∨ is_Some (computed_contract_id c)
  | TxMint _ => True
  end.
Lemma creates_processed txs od :
  Forall create_ok txs → ∃ od', process_transactions txs od = (Ok (), od') ∧ rest_of od' = rest_of od.
Proof.
  unfold process_transactions. revert od. induction txs as [|tx txs IH]; intros od Hok; [by exists od|].
  apply Forall_cons in Hok as [Hok Hoks]. cbn [st_for]. unfold mbind, ST_bind. destruct tx as [c|m]; [|by apply IH].
  destruct (decide (tx_kind c = Create)) as [Hk|Hk]; [|by apply IH]. specialize (Hok Hk). cbn.
  destruct (omap output_contract_id (tx_outputs c)) as [|id ids].
  - destruct Hok as [|[id Hid]]; [done|]. rewrite Hid. destruct (IH (od <| contracts_info := <[id := create_salt c]> (contracts_info od) |>) Hoks) as (od' & -> & Hr). by exists od'.
  - destruct (IH (od <| contracts_info := <[id := create_salt c]> (contracts_info od) |>) Hoks) as (od' & -> & Hr). by exists od'.
Qed.

(** The ids with a status are ids of executed transactions. *)
Record Synced (base : AssetId) (db : Db) (od : OffChainDb) : Prop := {
  sy_indexed : Indexed base (ledger db) od;
  sy_statuses : dom (transaction_statuses od) ⊆ processed_transactions db
}.

(** What the worker needs of a block, beyond its execution. *)
Definition linked (prev : option BlockHeight) (h : BlockHeight) : Prop :=
  match prev with Some prev => h = prev + 1 ∧ prev + 1 < 2 ^ 32 ∧ 0 ≤ prev | None => True end.

Lemma process_block_synced config r db db' self :
  oc_balances_enabled config = true → oc_coins_to_spend_enabled config = true →
  (oc_asset_metadata_enabled config = true → supplies_fit (supply (ot_database self)) (ir_tx_status r ≫= successful_receipts)) →
  Synced (oc_base_asset_id config) db (ot_database self) →
  ledger_typed (ledger db) → Forall event_typed (ir_events r) → imports_fresh (ir_events r) (ledger db) →
  Z.of_nat (ledger_size (ledger db) + length (ir_events r)) < 2 ^ 63 →
  replay (ir_events r) (ledger db) = Some (ledger db') →
  let block := entity (ir_sealed_block r) in
  let ids := st_id <$> ir_tx_status r in
  NoDup ids → Forall (λ id, id ∉ processed_transactions db) ids →
  processed_transactions db' = list_to_set ids ∪ processed_transactions db →
  Z.of_nat (length (transactions block)) ≤ 2 ^ 16 → Forall create_ok (transactions block) →
  linked (off_chain_height (ot_database self)) (height (consensus (header block))) →
  ∃ self', process_block config r self = Ok self' ∧ Synced (oc_base_asset_id config) db' (ot_database self')
    ∧ ot_logged self' = ot_logged self ∧ off_chain_height (ot_database self') = Some (height (consensus (header block)))
    ∧ ledger_typed (ledger db')
    ∧ supplied (oc_asset_metadata_enabled config) (ir_tx_status r ≫= successful_receipts) (ot_database self) (ot_database self').
Proof.
  intros Hb Hc Hm [HI Hst] Ht He Hf Hs Hr block ids Hnd Hfresh Hproc Hlen Hcr Hlink.
  destruct (persist_statuses block (oc_asset_metadata_enabled config) (ir_tx_status r) (ot_database self))
    as (od1 & H1 & Hi1 & Hd1 & Hh1 & Hsup); [done| |done|].
  { rewrite Forall_forall in Hfresh |- *. intros id Hid Hin. by apply (Hfresh id Hid), Hst. }
  destruct (index_owners (oc_chain_id config) (height (consensus (header block))) 0 (transactions block) od1) as (od2 & H2 & Hr2); [lia..|].
  destruct (creates_processed (transactions block) od2 Hcr) as (od3 & H3 & Hr3).
  rewrite Hr2 in Hr3. apply pair_eq in Hr3 as [[[Hi3 Hs3]%pair_eq Hh3]%pair_eq Ha3].
  set (od4 := increase_tx_count (Z.of_nat (length (transactions block)))
    (od3 <| fuel_block_ids_to_heights := <[Block_id block := height (consensus (header block))]> (fuel_block_ids_to_heights od3) |>)).
  destruct (events_indexed (oc_base_asset_id config) (ir_events r) (ledger db) (ledger db') od4) as (od5 & Hev & HI5 & Ht5); [|done..|].
  { eapply indexed_ext; [|exact HI]. transitivity (index_of od3); [done|congruence]. }
  pose proof (events_tables (ir_events r) true true (oc_base_asset_id config) od4) as Hbt. rewrite Hev in Hbt. injection Hbt as Hs5 Hh5 Ha5.
  assert ((persist_transaction_status r (oc_asset_metadata_enabled config) ≫= λ _, index_tx_owners_for_block (oc_chain_id config) block ≫= λ _,
           process_transactions (transactions block)) (ot_database self) = (Ok (), od3)) as Hpre.
  { unfold mbind, ST_bind, persist_transaction_status, index_tx_owners_for_block. fold block. by rewrite H1, H2. }
  unfold process_block, index_block. fold block. rewrite Hpre. cbv beta iota zeta. fold od4. rewrite Hb, Hc, Hev.
  cbn [mbind result_bind]. assert (commit_block (height (consensus (header block))) od5
    = Ok (od5 <| off_chain_height := Some (height (consensus (header block))) |>)) as ->.
  { unfold commit_block. rewrite Hh5. cbn [od4 increase_tx_count off_chain_height]. rewrite Hh3, Hh1. unfold linked in Hlink.
    destruct (off_chain_height (ot_database self)) as [prev|]; [|done]. destruct Hlink as (-> & Hlt & Hge). unfold checked_add.
    rewrite fit_ok by (unfold in_range; cbn; lia). cbn. by rewrite decide_True. }
  cbn [map_err mbind result_bind mret result_ret]. eexists. split; [done|]. cbn [ot_database ot_logged]. split_and!; [|by rewrite app_nil_r|done|done|].
  2:{ intros asset. rewrite <- (Hsup asset). unfold supply. cbn [assets_info]. by rewrite Ha5, <- Ha3. }
  split; [by eapply indexed_ext; [|exact HI5]|]. cbn [transaction_statuses]. rewrite Hs5. cbn [od4 increase_tx_count transaction_statuses].
  rewrite Hs3, Hd1, Hproc. fold ids. set_solver.
Qed.
End blocks.

(** ** Chains *)
Section chain.
Context `{HH : Hashing, VML : FuelVmLaws, RC : ReceiptsAndContracts}.
Context (relayer : Relayer) (cp : ConsensusParameters) (options : ExecutionOptions) (config : OffChainConfig).

(** Blocks that are validated one after the other, each stored before the
    next, with the results that the importer announces. *)
Definition stored (b : SealedBlock) (db : Db) : Db :=
  db <| fuel_blocks := <[height (consensus (header (entity b))) := compress (id_of cp) (entity b)]> (fuel_blocks db) |>.
Fixpoint validate_chain (blocks : list SealedBlock) (db : Db) : result ExecutorError (list ImportResult * Db) :=
  match blocks with
  | [] => Ok ([], db)
  | b :: blocks =>
      s ← validate_block relayer cp options (entity b) db;
      '(results, db) ← validate_chain blocks (stored b (ex_db s));
      Ok (MkImportResult b (tx_status (ex_data s)) (events (ex_data s)) SourceNetwork :: results, db)
  end.
Fixpoint process_blocks (results : list ImportResult) (self : OffChainTask) : result WorkerError OffChainTask :=
  match results with
  | [] => Ok self
  | r :: results => self ← process_block config r self; process_blocks results self
  end.

Fixpoint heights_linked (prev : option BlockHeight) (blocks : list SealedBlock) : Prop :=
  match blocks with
  | [] => True
  | b :: blocks => let h := height (consensus (header (entity b))) in linked prev h ∧ heights_linked (Some h) blocks
  end.

Lemma no_failure_harmless evs : no_execution_failure evs → Forall harmless_failure evs.
Proof. intros Hno. eapply Forall_impl; [exact Hno|]. by intros [| | | |? ? []]. Qed.
Lemma imports_fresh_app evs evs' l l' :
  replay evs l = Some l' → imports_fresh (evs ++ evs') l → imports_fresh evs l ∧ imports_fresh evs' l'.
Proof.
  revert l. induction evs as [|e evs IH]; intros l Hr; [by injection Hr as <-|]. cbn in Hr |- *.
  destruct (replay_event e l) as [l1|]; [|done]. intros [H1 H2]. destruct (IH l1 Hr H2). done.
Qed.
Lemma replay_size evs l l' : ledger_typed l → Forall event_typed evs → replay evs l = Some l' →
  (ledger_size l' ≤ ledger_size l + length evs)%nat.
Proof.
  revert l. induction evs as [|e evs IH]; intros l Ht He Hr; [injection Hr as <-; lia|].
  apply Forall_cons in He as [He Hes]. cbn in Hr. destruct (replay_event e l) as [l1|] eqn:Hr1; [|done].
  destruct (ledger_typed_step e l l1 Ht He Hr1) as [Ht1 Hs1]. specialize (IH l1 Ht1 Hes Hr). cbn. lia.
Qed.

(** What the results announce of the supplies of assets. *)
Definition supply_receipts (results : list ImportResult) : list Receipt :=
  results ≫= λ r, ir_tx_status r ≫= successful_receipts.

(** C9 The indexes follow the chain.  When blocks are executed one after the
    other and a worker with the indexes of balances and of coins to spend
    processes what the importer announces of them, every block is processed,
    no index reports an error, and afterwards the balance of every owner and
    asset, the coins to spend and the tables of owners are those of the coins
    and messages in the database.  If the metadata of assets are indexed as
    well, the supply of every asset has grown by what the successful
    transactions minted less what they burned; otherwise it is as before.  The
    hypotheses: coin inputs are checked against the database
    ([forbid_fake_coins]); no forced transaction failed while it was executed;
    the indexes agreed before; amounts of 64 bits, new nonces of imported
    messages and fewer than [2 ^ 63] coins and messages; consecutive heights;
    a created contract is named by an output or has its bytecode; the supplies
    of assets, if indexed, stay within 128 bits after every receipt. *)
Theorem indexes_follow_chain blocks db results db' self :
  forbid_fake_coins options = true →
  oc_balances_enabled config = true → oc_coins_to_spend_enabled config = true →
  (oc_asset_metadata_enabled config = true → supplies_fit (supply (ot_database self)) (supply_receipts results)) →
  validate_chain blocks db = Ok (results, db') → Forall (λ r, no_execution_failure (ir_events r)) results →
  ledger_typed (ledger db) → Forall event_typed (results ≫= ir_events) → imports_fresh (results ≫= ir_events) (ledger db) →
  Z.of_nat (ledger_size (ledger db) + length (results ≫= ir_events)) < 2 ^ 63 →
  Forall (λ b, Forall create_ok (transactions (entity b))) blocks → heights_linked (off_chain_height (ot_database self)) blocks →
  Synced (oc_base_asset_id config) db (ot_database self) →
  ∃ self', process_blocks results self = Ok self' ∧ ot_logged self' = ot_logged self
    ∧ Synced (oc_base_asset_id config) db' (ot_database self')
    ∧ ∀ asset, supply (ot_database self') asset = supply (ot_database self) asset
        + (if oc_asset_metadata_enabled config then net_supply asset (supply_receipts results) else 0).
Proof.
  intros Hopt Hb Hc. revert db results self. induction blocks as [|b blocks IH]; intros db results self Hm Hv Hno Ht He Hf Hs Hcr Hl HS.
  - injection Hv as <- <-. exists self. split_and!; [done..|]. intros asset. cbn. destruct (oc_asset_metadata_enabled _); lia.
  - cbn in Hv. destruct (validate_block relayer cp options (entity b) db) as [s|] eqn:Hval; [|done]. cbn in Hv.
    destruct (validate_chain blocks (stored b (ex_db s))) as [[rs db1]|] eqn:Hvs; [|done]. cbn in Hv. injection Hv as <- <-.
    apply Forall_cons in Hno as [Hno Hnos]. unfold supply_receipts in *. cbn [ir_events] in *. rewrite bind_cons in Hm; rewrite bind_cons in He; rewrite bind_cons in Hf; rewrite bind_cons in Hs.
    cbn [ir_events ir_tx_status] in *.
    apply Forall_app in He as [He Hes]. apply Forall_cons in Hcr as [Hcr Hcrs]. destruct Hl as [Hl Hls]. rewrite length_app in Hs.
    assert (messages_keyed db) as Hk by (intros n m Hn; by apply (proj2 Ht)).
    assert (replay (events (ex_data s)) (ledger db) = Some (ledger (ex_db s))) as Hr.
    { destruct (validate_block_replays _ _ _ Hopt _ _ _ Hval Hk) as [_ (kept & [_ Hall] & Hr)]. by rewrite <- (Hall Hno). }
    destruct (imports_fresh_app _ _ _ _ Hr Hf) as [Hf1 Hf2].
    assert (pb_transactions (ex_block s) = transactions (entity b) ∧ block_inv cp db s) as [Htx [Hcount Hrange Hids _ _ Hproc Hnd Hfresh _]].
    { by edestruct validated_state as (? & ? & _); [exact Hval|by apply no_failure_harmless|]. }
    unfold in_range in Hrange. cbn in Hrange.
    destruct (process_block_synced config (MkImportResult b (tx_status (ex_data s)) (events (ex_data s)) SourceNetwork)
      db (stored b (ex_db s)) self) as (self1 & Hp & HS1 & Hlog & Hh & Ht1 & Hsup); try done;
      cbn [ir_events ir_tx_status ir_sealed_block] in *; rewrite ?Hids; try done; [|lia|rewrite <- Htx; lia|].
    { intros Hen. by destruct (supplies_fit_app _ _ _ _ (λ asset, eq_refl) (Hm Hen)). }
    pose proof (replay_size _ _ _ Ht He Hr) as Hsize.
    destruct (IH (stored b (ex_db s)) rs self1) as (self' & Hps & Hlog' & HS' & Hsup'); try done.
    + intros Hen. rewrite Hen in Hsup. by destruct (supplies_fit_app _ _ _ _ Hsup (Hm Hen)).
    + change (ledger (stored b (ex_db s))) with (ledger (ex_db s)). lia.
    + by rewrite Hh.
    + exists self'. cbn [process_blocks]. rewrite Hp. cbn [mbind result_bind]. rewrite Hlog', Hlog. split_and!; [done..|].
      intros asset. rewrite Hsup', Hsup, bind_cons. cbn [ir_tx_status]. destruct (oc_asset_metadata_enabled config); [rewrite net_supply_app|]; lia.
Qed.
End chain.
