(* ===== verification/CoinsQuery.v ===== *)
(** * Balances and coins to spend

    [crates/fuel-core/src/coins_query.rs], [query/balance.rs],
    [query/balance/asset_query.rs], [schema/coins.rs] and the queries of
    [service/adapters/graphql_api/off_chain.rs]: what clients ask about their
    coins.  Both kinds of queries have two implementations, one over the
    indexes and one over the coins themselves.

    A stream is the list of its items; an error in it is the error of the
    whole query.  An iterator over a table yields the keys in the order of
    their bytes.  The random numbers are a parameter. *)
From stdpp Require Import strings sorting.
From S2P Require Import Prelude FuelTypes ExecutorTypes Transactional OffChain.

(** ** Coins *)
Inductive CoinId := IdUtxo (utxo_id : UtxoId) | IdMessage (nonce : Nonce).
#[export] Instance CoinId_eq_dec : EqDecision CoinId.
Proof. solve_decision. Defined.
#[export] Instance CoinId_countable : Countable CoinId.
Proof.
  apply (inj_countable' (λ i, match i with IdUtxo u => inl u | IdMessage n => inr n end)
    (λ x, match x with inl u => IdUtxo u | inr n => IdMessage n end)). by intros [].
Defined.

Record MessageCoin := MkMessageCoin {
  mc_sender : Address;
  mc_recipient : Address;
  mc_nonce : Nonce;
  mc_amount : Z;
  mc_da_height : DaBlockHeight
}.
(** [TryFrom<Message>] *)
Definition MessageCoin_try_from (message : Message) : option MessageCoin :=
  if is_retryable_message message then None
  else Some (MkMessageCoin (msg_sender message) (msg_recipient message) (msg_nonce message) (msg_amount message) (msg_da_height message)).

Inductive CoinType := CtCoin (coin : Coin) | CtMessageCoin (coin : MessageCoin).
Definition coin_id (self : CoinType) : CoinId :=
  match self with CtCoin coin => IdUtxo (coin_utxo_id coin) | CtMessageCoin coin => IdMessage (mc_nonce coin) end.
Definition ct_owner (self : CoinType) : Address :=
  match self with CtCoin coin => coin_owner coin | CtMessageCoin coin => mc_recipient coin end.
Definition ct_amount (self : CoinType) : Z :=
  match self with CtCoin coin => coin_amount coin | CtMessageCoin coin => mc_amount coin end.
Definition ct_asset_id (self : CoinType) (base_asset_id : AssetId) : AssetId :=
  match self with CtCoin coin => coin_asset_id coin | CtMessageCoin _ => base_asset_id end.

(** [Exclude] *)
Definition Exclude : Type := gset CoinId.
Definition Exclude_new (ids : list CoinId) : Exclude := list_to_set ids.

Inductive CoinsQueryError :=
| QueryNotFound (id : CoinId)
| InsufficientCoinsForTheMax (asset_id : AssetId) (collected_amount max : Z)
| DuplicateAssets (asset_id : AssetId)
| TooManyExcludedId (provided allowed : Z)
| TooManyCoinsSelected (required max : Z)
| UnexpectedInternalState
| MessageIsNotACoin (nonce : Nonce)
| BalanceOverflow (coins messages : Z).

(** ** Views of both databases *)
Record ReadView := MkReadView {
  rv_on_chain : Db;
  rv_off_chain : OffChainDb;
  rv_balances_index : bool;
  rv_coins_to_spend_index : bool
}.
Definition read_coin (view : ReadView) (utxo_id : UtxoId) : result CoinsQueryError Coin :=
  coin ← ok_or (coins (rv_on_chain view) !! utxo_id) (QueryNotFound (IdUtxo utxo_id)); mret (uncompress coin utxo_id).
Definition read_message (view : ReadView) (nonce : Nonce) : result CoinsQueryError Message :=
  ok_or (messages (rv_on_chain view) !! nonce) (QueryNotFound (IdMessage nonce)).

Definition utxo_le (a b : UtxoId) : Prop := a.1 < b.1 ∨ (a.1 = b.1 ∧ a.2 ≤ b.2).
#[export] Instance utxo_le_dec a b : Decision (utxo_le a b).
Proof. unfold utxo_le. apply _. Defined.
Definition owned_coins_ids (od : OffChainDb) (owner : Address) : list UtxoId :=
  merge_sort utxo_le (elements (filter (λ p, p.1 = owner) (owned_coins od))).*2.
Definition owned_messages (od : OffChainDb) (owner : Address) : list Nonce :=
  merge_sort Z.le (elements (filter (λ p, p.1 = owner) (owned_message_ids od))).*2.

(** ** The coins of an owner *)
Record AssetsQuery := MkAssetsQuery {
  aq_owner : Address;
  aq_allowed_assets : option (gset AssetId);
  aq_exclude : option Exclude;
  aq_base_asset_id : AssetId
}.
Definition allowed_asset (allowed_assets : option (gset AssetId)) (asset_id : AssetId) : bool :=
  match allowed_assets with Some allowed_assets => bool_decide (asset_id ∈ allowed_assets) | None => true end.
Definition not_excluded (exclude : option Exclude) (id : CoinId) : bool :=
  match exclude with Some exclude => bool_decide (id ∉ exclude) | None => true end.

Definition coins_iter (view : ReadView) (self : AssetsQuery) : result CoinsQueryError (list CoinType) :=
  let ids := List.filter (λ id, not_excluded (aq_exclude self) (IdUtxo id)) (owned_coins_ids (rv_off_chain view) (aq_owner self)) in
  coins ← result_map (read_coin view) ids;
  mret (CtCoin <$> List.filter (λ coin, allowed_asset (aq_allowed_assets self) (coin_asset_id coin)) coins).
Definition messages_iter (view : ReadView) (self : AssetsQuery) : result CoinsQueryError (list CoinType) :=
  let ids := List.filter (λ id, not_excluded (aq_exclude self) (IdMessage id)) (owned_messages (rv_off_chain view) (aq_owner self)) in
  messages ← result_map (read_message view) ids;
  Ok (CtMessageCoin <$> (omap MessageCoin_try_from messages : list MessageCoin)).
Definition query_coins (view : ReadView) (self : AssetsQuery) : result CoinsQueryError (list CoinType) :=
  if allowed_asset (aq_allowed_assets self) (aq_base_asset_id self) then
    coins ← coins_iter view self; messages ← messages_iter view self; mret (coins ++ messages)
  else coins_iter view self.

Record AssetSpendTarget := MkAssetSpendTarget { at_id : AssetId; at_target : Z; at_max : Z }.   (* u128, u16 *)
(** [AssetQuery::new] *)
Definition asset_query (owner : Address) (asset : AssetSpendTarget) (base_asset_id : AssetId) (exclude : option Exclude) : AssetsQuery :=
  MkAssetsQuery owner (Some {[at_id asset]}) exclude base_asset_id.

(** ** Balances *)
Definition indexed_balance (od : OffChainDb) (owner : Address) (asset_id base_asset_id : AssetId) : result CoinsQueryError Z :=
  let coins := coin_balance od owner asset_id in
  if decide (base_asset_id = asset_id) then
    let messages := non_retryable (message_balance od owner) in
    ok_or (checked_add u128 coins messages) (BalanceOverflow coins messages)
  else Ok coins.
Definition balance (view : ReadView) (owner : Address) (asset_id base_asset_id : AssetId) : result CoinsQueryError Z :=
  if rv_balances_index view then indexed_balance (rv_off_chain view) owner asset_id base_asset_id
  else
    coins ← query_coins view (asset_query owner (MkAssetSpendTarget asset_id (int_max u128) (int_max u16)) base_asset_id None);
    mret (foldl (λ balance coin, saturating_add u128 balance (ct_amount coin)) 0 coins).

(** *** All balances of an owner *)
Inductive IterDirection := Forward | Reverse.
Definition base_asset_balance (od : OffChainDb) (base_asset_id : AssetId) (owner : Address) : result CoinsQueryError (list (AssetId * Z)) :=
  base_balance ← indexed_balance od owner base_asset_id base_asset_id;
  mret (if decide (base_balance = 0) then [] else [(base_asset_id, base_balance)]).
(** The keys of an owner from a start on, in a direction *)
Definition owner_assets (od : OffChainDb) (owner : Address) (start : option AssetId) (direction : IterDirection) : list AssetId :=
  let assets := merge_sort Z.le (elements (filter (λ k, k.1 = owner) (dom (coin_balances od)))).*2 in
  match direction with
  | Forward => List.filter (λ a, match start with Some s => bool_decide (s ≤ a) | None => true end) assets
  | Reverse => List.filter (λ a, match start with Some s => bool_decide (a ≤ s) | None => true end) (rev assets)
  end.
Definition non_base_asset_balances (od : OffChainDb) (owner : Address) (start : option AssetId) (direction : IterDirection)
    (base_asset_id : AssetId) : list (AssetId * Z) :=
  (λ a, (a, coin_balance od owner a)) <$> List.filter (λ a, bool_decide (a ≠ base_asset_id)) (owner_assets od owner start direction).
Definition indexed_balances (od : OffChainDb) (owner : Address) (start : option AssetId) (base_asset_id : AssetId)
    (direction : IterDirection) : result CoinsQueryError (list (AssetId * Z)) :=
  let base_asset_first :=
    base ← base_asset_balance od base_asset_id owner; mret (base ++ non_base_asset_balances od owner None direction base_asset_id) in
  let non_base_assets_first :=
    base ← base_asset_balance od base_asset_id owner; mret (non_base_asset_balances od owner start direction base_asset_id ++ base) in
  match direction, start with
  | Forward, None => base_asset_first
  | Forward, Some asset_id =>
      if decide (asset_id = base_asset_id) then base_asset_first
      else Ok (non_base_asset_balances od owner start direction base_asset_id)
  | Reverse, None => non_base_assets_first
  | Reverse, Some asset_id =>
      if decide (asset_id = base_asset_id) then base_asset_balance od base_asset_id owner else non_base_assets_first
  end.
Definition balances_without_cache (view : ReadView) (owner : Address) (base_asset_id : AssetId) (direction : IterDirection)
    : result CoinsQueryError (list (AssetId * Z)) :=
  coins ← query_coins view (MkAssetsQuery owner None None base_asset_id);
  let amounts_per_asset : gmap AssetId Z :=
    foldl (λ m coin, let a := ct_asset_id coin base_asset_id in <[a := saturating_add u128 (unwrap_or 0 (m !! a)) (ct_amount coin)]> m)
      ∅ coins in
  let balances := (λ a, (a, unwrap_or 0 (amounts_per_asset !! a))) <$> merge_sort Z.le (elements (dom amounts_per_asset)) in
  mret (match direction with Forward => balances | Reverse => rev balances end).
Definition balances (view : ReadView) (owner : Address) (start : option AssetId) (direction : IterDirection) (base_asset_id : AssetId)
    : result CoinsQueryError (list (AssetId * Z)) :=
  if rv_balances_index view then indexed_balances (rv_off_chain view) owner start base_asset_id direction
  else balances_without_cache view owner base_asset_id direction.

(** ** Selecting coins *)
(** The encoding of a key, with a field of fixed width as one digit *)
Definition encode_key (k : CoinsToSpendIndexKey) : list Z :=
  match k with
  | KeyCoin owner asset_id amount utxo_id =>
      [NON_RETRYABLE_BYTE; owner; asset_id; amount; utxo_id.1; utxo_id.2 / 256; utxo_id.2 mod 256; 0]
  | KeyMessage retryable_flag owner asset_id amount nonce => [retryable_flag; owner; asset_id; amount; nonce; 1]
  end.
Definition key_le (a b : CoinsToSpendIndexKey) : Prop := bytes_le (encode_key a) (encode_key b) = true.
#[export] Instance key_le_dec a b : Decision (key_le a b).
Proof. unfold key_le. apply _. Defined.

(** [coins_to_spend_index]: the smallest coins first; [big_coins_iter] is the
    reverse *)
Definition dust_coins_iter (od : OffChainDb) (owner : Address) (asset_id : AssetId) : list CoinsToSpendIndexKey :=
  merge_sort key_le (elements (filter (λ k, key_retryable_flag k = NON_RETRYABLE_BYTE ∧ key_owner k = owner ∧ key_asset_id k = asset_id)
    (coins_to_spend_index od))).
Definition big_coins_iter (od : OffChainDb) (owner : Address) (asset_id : AssetId) : list CoinsToSpendIndexKey :=
  rev (dust_coins_iter od owner asset_id).

Definition key_id (k : CoinsToSpendIndexKey) : CoinId :=
  match k with KeyCoin _ _ _ utxo_id => IdUtxo utxo_id | KeyMessage _ _ _ _ nonce => IdMessage nonce end.
Definition is_excluded (key : CoinsToSpendIndexKey) (exclude : Exclude) : bool := bool_decide (key_id key ∈ exclude).

Fixpoint select_coins_until (max : Z) (exclude : Exclude) (predicate : CoinsToSpendIndexKey → Z → bool)
    (coins_stream : list CoinsToSpendIndexKey) (coins_total_value : Z) (coins : list CoinsToSpendIndexKey)
    : Z * list CoinsToSpendIndexKey :=
  match coins_stream with
  | [] => (coins_total_value, coins)
  | coin :: coins_stream =>
      if is_excluded coin exclude then select_coins_until max exclude predicate coins_stream coins_total_value coins
      else if bool_decide (max ≤ Z.of_nat (length coins)) || predicate coin coins_total_value then (coins_total_value, coins)
      else select_coins_until max exclude predicate coins_stream (saturating_add u128 coins_total_value (key_amount coin)) (coins ++ [coin])
  end.
Definition big_coins (stream : list CoinsToSpendIndexKey) (total max : Z) (exclude : Exclude) : Z * list CoinsToSpendIndexKey :=
  select_coins_until max exclude (λ _ total_so_far, bool_decide (total ≤ total_so_far)) stream 0 [].
Definition dust_coins (stream : list CoinsToSpendIndexKey) (last_big_coin : CoinsToSpendIndexKey) (max_dust_count : Z) (exclude : Exclude)
    : Z * list CoinsToSpendIndexKey :=
  select_coins_until max_dust_count exclude (λ coin _, bool_decide (coin = last_big_coin)) stream 0 [].
Fixpoint skip_big_coins_up_to_amount (big_coins : list CoinsToSpendIndexKey) (skipped_amount : Z) : list CoinsToSpendIndexKey :=
  match big_coins with
  | [] => []
  | item :: rest =>
      match checked_sub u128 skipped_amount (key_amount item) with
      | Some new_value => skip_big_coins_up_to_amount rest new_value
      | None => big_coins
      end
  end.

(** The random numbers of one query: a number up to a bound, and a shuffle *)
Record Rng := MkRng { gen_range : Z → Z; shuffle : list CoinType → list CoinType }.

Definition TOTAL_AMOUNT_ADJUSTMENT_FACTOR : Z := 2.
Definition DUST_TO_BIG_COINS_FACTOR : Z := 5.
Definition max_dust_count (rng : Rng) (max big_coins_len dust_to_big_coins_factor : Z) : Z :=
  let max_from_factor := saturating_mul u16 big_coins_len dust_to_big_coins_factor in
  let max_adjusted := saturating_sub u16 max big_coins_len in
  gen_range rng (Z.min max_from_factor max_adjusted).

Definition select_coins_to_spend (rng : Rng) (big_coins_iter dust_coins_iter : list CoinsToSpendIndexKey) (total max : Z)
    (asset_id : AssetId) (exclude : Exclude) : result CoinsQueryError (list CoinsToSpendIndexKey) :=
  if decide (total = 0 ∨ max = 0) then Ok []
  else
    let adjusted_total := saturating_mul u128 total TOTAL_AMOUNT_ADJUSTMENT_FACTOR in
    let '(selected_big_coins_total, selected_big_coins) := big_coins big_coins_iter adjusted_total max exclude in
    if decide (selected_big_coins_total < total) then Err (InsufficientCoinsForTheMax asset_id selected_big_coins_total max)
    else match last selected_big_coins with
    | None => Err UnexpectedInternalState
    | Some last_selected_big_coin =>
        let selected_big_coins_len := Z.of_nat (length selected_big_coins) in
        number_of_big_coins ← ok_or (try_into u16 selected_big_coins_len) (TooManyCoinsSelected selected_big_coins_len (int_max u16));
        let '(dust_coins_total, selected_dust_coins) :=
          dust_coins dust_coins_iter last_selected_big_coin
            (max_dust_count rng max number_of_big_coins DUST_TO_BIG_COINS_FACTOR) exclude in
        Ok (skip_big_coins_up_to_amount selected_big_coins dust_coins_total ++ selected_dust_coins)
    end.

(** [inputs.sort_by_key(|coin| Reverse(coin.amount()))] *)
Definition larger (a b : CoinType) : Prop := ct_amount b ≤ ct_amount a.
#[export] Instance larger_dec a b : Decision (larger a b).
Proof. unfold larger. apply _. Defined.
Fixpoint largest_first_loop (asset : AssetSpendTarget) (inputs : list CoinType) (collected_amount : Z) (coins : list CoinType)
    : result CoinsQueryError (Z * list CoinType) :=
  match inputs with
  | [] => Ok (collected_amount, coins)
  | coin :: inputs =>
      if decide (at_target asset ≤ collected_amount) then Ok (collected_amount, coins)
      else if decide (at_max asset ≤ Z.of_nat (length coins))
      then Err (InsufficientCoinsForTheMax (at_id asset) collected_amount (at_max asset))
      else largest_first_loop asset inputs (saturating_add u128 collected_amount (ct_amount coin)) (coins ++ [coin])
  end.
Definition largest_first (asset : AssetSpendTarget) (inputs : list CoinType) : result CoinsQueryError (list CoinType) :=
  '(collected_amount, coins) ← largest_first_loop asset (merge_sort larger inputs) 0 [];
  if decide (collected_amount < at_target asset)
  then Err (InsufficientCoinsForTheMax (at_id asset) collected_amount (at_max asset))
  else Ok coins.

Definition abs_diff (a b : Z) : Z := Z.abs (a - b).
(** The loop of [random_improve]; [checked_sub] cannot fail there. *)
Fixpoint random_improve_loop (target : Z) (inputs : list CoinType) (collected_amount : Z) (coins : list CoinType)
    : Z * list CoinType :=
  let upper_target := saturating_mul u128 target 2 in
  match inputs with
  | [] => (collected_amount, coins)
  | coin :: inputs =>
      let stop :=
        bool_decide (target ≤ collected_amount) &&
        (bool_decide (int_max u64 ≤ collected_amount) || bool_decide (upper_target < ct_amount coin) ||
         let change_amount := collected_amount - target in
         let distance := abs_diff target change_amount in
         let next_distance := abs_diff target (saturating_add u128 change_amount (ct_amount coin)) in
         bool_decide (distance ≤ next_distance)) in
      if stop then (collected_amount, coins)
      else random_improve_loop target inputs (saturating_add u128 collected_amount (ct_amount coin)) (coins ++ [coin])
  end.

Record SpendQuery := MkSpendQuery {
  sq_owner : Address;
  query_per_asset : list AssetSpendTarget;
  sq_exclude : Exclude;
  sq_base_asset_id : AssetId
}.
Definition random_improve_asset (rng : Rng) (view : ReadView) (spend_query : SpendQuery) (asset : AssetSpendTarget)
    : result CoinsQueryError (list CoinType) :=
  inputs ← query_coins view (asset_query (sq_owner spend_query) asset (sq_base_asset_id spend_query) (Some (sq_exclude spend_query)));
  let '(collected_amount, coins) :=
    random_improve_loop (at_target asset) (take (Z.to_nat (at_max asset)) (shuffle rng inputs)) 0 [] in
  if decide (collected_amount < at_target asset) then largest_first asset inputs else Ok coins.
Definition random_improve (rngs : nat → Rng) (view : ReadView) (spend_query : SpendQuery) : result CoinsQueryError (list (list CoinType)) :=
  result_map (λ p, random_improve_asset (rngs p.1) view spend_query p.2) (imap pair (query_per_asset spend_query)).

(** ** The query *)
Record SpendQueryElementInput := MkSpendQueryElementInput { se_asset_id : AssetId; se_amount : Z; se_max : option Z }.
Definition element_max (e : SpendQueryElementInput) (max_input : Z) : Z := Z.min (unwrap_or max_input (se_max e)) max_input.

Definition coins_to_spend_without_cache (rngs : nat → Rng) (owner : Address) (query_per_asset : list SpendQueryElementInput)
    (exclude : Exclude) (max_input : Z) (base_asset_id : AssetId) (view : ReadView) : result CoinsQueryError (list (list CoinType)) :=
  let query_per_asset := (λ e, MkAssetSpendTarget (se_asset_id e) (se_amount e) (element_max e max_input)) <$> query_per_asset in
  random_improve rngs view (MkSpendQuery owner query_per_asset exclude base_asset_id).

Definition read_coin_type (view : ReadView) (id : CoinId) : result CoinsQueryError CoinType :=
  match id with
  | IdUtxo utxo_id => coin ← read_coin view utxo_id; mret (CtCoin coin)
  | IdMessage nonce =>
      message ← read_message view nonce;
      coin ← ok_or (MessageCoin_try_from message) (MessageIsNotACoin nonce);
      mret (CtMessageCoin coin)
  end.
Definition spend_asset_with_cache (rng : Rng) (owner : Address) (exclude : Exclude) (max_input : Z) (view : ReadView)
    (asset : SpendQueryElementInput) : result CoinsQueryError (list CoinType) :=
  let od := rv_off_chain view in
  selected_coins ← select_coins_to_spend rng (big_coins_iter od owner (se_asset_id asset)) (dust_coins_iter od owner (se_asset_id asset))
                     (se_amount asset) (element_max asset max_input) (se_asset_id asset) exclude;
  result_map (λ k, read_coin_type view (key_id k)) selected_coins.
Definition coins_to_spend_with_cache (rngs : nat → Rng) (owner : Address) (query_per_asset : list SpendQueryElementInput)
    (exclude : Exclude) (max_input : Z) (view : ReadView) : result CoinsQueryError (list (list CoinType)) :=
  result_map (λ p, spend_asset_with_cache (rngs p.1) owner exclude max_input view p.2) (imap pair query_per_asset).

Definition coins_to_spend (rngs : nat → Rng) (owner : Address) (query_per_asset : list SpendQueryElementInput) (exclude : Exclude)
    (max_input : Z) (base_asset_id : AssetId) (view : ReadView) : result CoinsQueryError (list (list CoinType)) :=
  if rv_coins_to_spend_index view then coins_to_spend_with_cache rngs owner query_per_asset exclude max_input view
  else coins_to_spend_without_cache rngs owner query_per_asset exclude max_input base_asset_id view.

(** The end point: [excluded] are the ids of the request. *)
Fixpoint find_duplicate (seen : gset AssetId) (l : list SpendQueryElementInput) : option AssetId :=
  match l with
  | [] => None
  | e :: l => if decide (se_asset_id e ∈ seen) then Some (se_asset_id e) else find_duplicate ({[se_asset_id e]} ∪ seen) l
  end.
Definition coins_to_spend_endpoint (rngs : nat → Rng) (owner : Address) (query_per_asset : list SpendQueryElementInput)
    (excluded : list CoinId) (max_input : Z) (base_asset_id : AssetId) (view : ReadView) : result CoinsQueryError (list (list CoinType)) :=
  let excluded_id_count := Z.of_nat (length excluded) in
  if decide (max_input < excluded_id_count) then Err (TooManyExcludedId excluded_id_count max_input)
  else match find_duplicate ∅ query_per_asset with
  | Some asset_id => Err (DuplicateAssets asset_id)
  | None => coins_to_spend rngs owner (take (Z.to_nat max_input) query_per_asset) (Exclude_new excluded) max_input base_asset_id view
  end.
