(* ===== verification/CoinsQueryFacts.v ===== *)
(** * What the queries for balances and coins promise

    Over indexes that follow the ledger, a balance is the total of the coins,
    with or without the index of balances; and coins to spend are found exactly
    when there are some that cover the amount, by both implementations. *)
From stdpp Require Import strings sorting.
From S2P Require Import Prelude FuelTypes ExecutorTypes Transactional TransactionalFacts ExecutorLedger OffChain OffChainFacts CoinsQuery.

(** ** Sums *)
Definition zsum (l : list Z) : Z := foldr Z.add 0 l.
Lemma zsum_app l k : zsum (l ++ k) = zsum l + zsum k.
Proof. unfold zsum. induction l as [|x l IH]; cbn; lia. Qed.
Lemma zsum_singleton x : zsum [x] = x.
Proof. apply Z.add_0_r. Qed.
Lemma zsum_cons x l : zsum (x :: l) = x + zsum l.
Proof. done. Qed.
#[export] Instance zsum_perm : Proper ((≡ₚ) ==> eq) zsum.
Proof. unfold zsum. induction 1; cbn; lia. Qed.
Lemma zsum_nonneg l : Forall (Z.le 0) l → 0 ≤ zsum l.
Proof. unfold zsum. induction 1; cbn; lia. Qed.
Lemma zsum_bound l b : Forall (λ x, 0 ≤ x ≤ b) l → 0 ≤ zsum l ≤ Z.of_nat (length l) * b.
Proof. unfold zsum. induction 1; cbn [foldr length] in *; lia. Qed.
Lemma zsum_submseteq l k : Forall (Z.le 0) k → l ⊆+ k → zsum l ≤ zsum k.
Proof.
  intros Hk [k' Hp]%submseteq_Permutation. rewrite Hp in Hk |- *. rewrite zsum_app. apply Forall_app in Hk as [_ Hk].
  pose proof (zsum_nonneg _ Hk). lia.
Qed.

(** The largest elements have the largest sum. *)
Lemma top_sum (l k : list Z) n :
  StronglySorted (λ a b, b ≤ a) l → Forall (Z.le 0) l → k ⊆+ l → (length k ≤ n)%nat → zsum k ≤ zsum (take n l).
Proof.
  intros Hs. revert k n. induction Hs as [|x l Hs IH Hx]; intros k n Hpos Hk Hn.
  - apply submseteq_nil_r in Hk as ->. by destruct n.
  - apply Forall_cons in Hpos as [Hpx Hpos]. destruct n as [|n]; [by destruct k; [|cbn in Hn; lia]|]. cbn [take]. rewrite zsum_cons.
    apply submseteq_cons_r in Hk as [Hk|(k' & Hp & Hk)].
    + assert (zsum (take (S n) l) ≤ x + zsum (take n l)); [|specialize (IH k (S n) Hpos Hk Hn); lia].
      clear -Hx Hpx. destruct (l !! n) as [y|] eqn:Hy.
      * rewrite (take_S_r _ _ _ Hy), zsum_app, zsum_singleton. rewrite Forall_lookup in Hx. specialize (Hx n y Hy). lia.
      * apply lookup_ge_None in Hy. rewrite !take_ge by lia. lia.
    + rewrite Hp in Hn |- *. rewrite zsum_cons. cbn [length] in Hn. specialize (IH k' n Hpos Hk). lia.
Qed.

(** *** Reversed lists *)
Lemma list_fmap_rev {A B} (f : A → B) l : f <$> rev l = rev (f <$> l).
Proof. induction l as [|x l IH]; [done|]. cbn [rev]. by rewrite fmap_app, IH. Qed.
Lemma list_elem_of_rev {A} (x : A) l : x ∈ rev l ↔ x ∈ l.
Proof. by rewrite <- Permutation_rev. Qed.
Lemma sorted_rev {A} (R : relation A) l : StronglySorted R l → StronglySorted (flip R) (rev l).
Proof.
  induction 1 as [|x l Hs IH Hx]; [constructor|]. cbn [rev]. apply StronglySorted_app. split_and!; [|done|by repeat constructor].
  intros a b Ha Hb%list_elem_of_singleton. rewrite list_elem_of_rev in Ha. subst b. rewrite Forall_forall in Hx. exact (Hx a Ha).
Qed.

(** ** Selecting from a stream *)
Definition amount_typed (a : Z) : Prop := 0 ≤ a ≤ 2 ^ 64 - 1.
Definition key_sum (l : list CoinsToSpendIndexKey) : Z := zsum (key_amount <$> l).
Definition available (exclude : Exclude) (l : list CoinsToSpendIndexKey) : list CoinsToSpendIndexKey :=
  List.filter (λ k, negb (is_excluded k exclude)) l.

Lemma key_sum_app l k : key_sum (l ++ k) = key_sum l + key_sum k.
Proof. unfold key_sum. by rewrite fmap_app, zsum_app. Qed.
Lemma key_sum_bound l : Forall (amount_typed ∘ key_amount) l → 0 ≤ key_sum l ≤ Z.of_nat (length l) * (2 ^ 64 - 1).
Proof. intros Hl. unfold key_sum. rewrite <- (length_fmap key_amount l). apply zsum_bound. rewrite Forall_fmap. exact Hl. Qed.

(** Adding an amount to fewer than [2 ^ 17] others does not saturate. *)
Lemma sum_fits l a :
  Forall (amount_typed ∘ key_amount) l → amount_typed a → Z.of_nat (length l) < 2 ^ 17 → saturating_add u128 (key_sum l) a = key_sum l + a.
Proof. intros Hl Ha Hn. pose proof (key_sum_bound l Hl). unfold saturating_add, clamp, amount_typed in *. cbn. nia. Qed.

Lemma select_coins_until_spec max exclude pred stream coins :
  Forall (amount_typed ∘ key_amount) (coins ++ stream) → max ≤ 65535 → Z.of_nat (length coins) ≤ Z.max 0 max →
  ∃ sel rest, available exclude stream = sel ++ rest
    ∧ select_coins_until max exclude pred stream (key_sum coins) coins = (key_sum (coins ++ sel), coins ++ sel)
    ∧ Z.of_nat (length (coins ++ sel)) ≤ Z.max 0 max
    ∧ Forall (λ c, ∃ t, pred c t = false) sel
    ∧ (rest = [] ∨ max ≤ Z.of_nat (length (coins ++ sel)) ∨ ∃ c, pred c (key_sum (coins ++ sel)) = true ∧ head rest = Some c).
Proof.
  intros Ht Hmax. revert coins Ht. induction stream as [|c stream IH]; intros coins Ht Hlen; cbn [select_coins_until available List.filter].
  - exists [], []. rewrite !app_nil_r. split_and!; [done|done|done|constructor|by left].
  - fold (available exclude stream). destruct (is_excluded c exclude); cbn [negb].
    { apply IH; [|done]. rewrite Forall_app, Forall_cons in Ht. rewrite Forall_app. tauto. }
    destruct (bool_decide (max ≤ Z.of_nat (length coins)) || pred c (key_sum coins)) eqn:Hstop.
    + exists [], (c :: available exclude stream). rewrite app_nil_r. split_and!; [done|done|done|constructor|right].
      apply orb_true_iff in Hstop as [Hm%bool_decide_eq_true|Hp]; [by left|right; eauto].
    + apply orb_false_iff in Hstop as [Hm%bool_decide_eq_false Hp].
      assert (saturating_add u128 (key_sum coins) (key_amount c) = key_sum (coins ++ [c])) as ->.
      { rewrite Forall_app, Forall_cons in Ht. destruct Ht as (H1 & H2 & _). rewrite sum_fits, key_sum_app by (done || lia).
        unfold key_sum at 3. cbn. lia. }
      destruct (IH (coins ++ [c])) as (sel & rest & Ha & Hs & Hl & Hf & Hr).
      { by rewrite <- app_assoc. } { rewrite length_app. cbn. lia. }
      rewrite <- !app_assoc in *. cbn [app] in *. exists (c :: sel), rest. rewrite Ha. split_and!; [done..| |done]. constructor; [eauto|done].
Qed.

Lemma skip_spec big amount :
  Forall (amount_typed ∘ key_amount) big → 0 ≤ amount < 2 ^ 128 →
  ∃ j, skip_big_coins_up_to_amount big amount = drop j big ∧ key_sum (take j big) ≤ amount.
Proof.
  intros Ht. revert amount. induction Ht as [|c big Hc Ht IH]; intros amount Ha; [exists 0%nat; split; [done|cbn; lia]|].
  cbn [skip_big_coins_up_to_amount]. unfold checked_sub. cbn in Hc. unfold amount_typed in Hc. destruct (decide (key_amount c ≤ amount)) as [Hle|Hgt].
  - rewrite fit_ok by (unfold in_range; cbn; lia). destruct (IH (amount - key_amount c) ltac:(lia)) as (j & Hj & Hs).
    exists (S j). split; [done|]. cbn [take]. change (c :: take j big) with ([c] ++ take j big). rewrite key_sum_app.
    unfold key_sum at 1. cbn [fmap list_fmap]. rewrite zsum_singleton. lia.
  - rewrite (proj2 (fit_None _ _)) by (unfold in_range; cbn; lia). exists 0%nat. split; [done|]. cbn. lia.
Qed.

Lemma available_rev exclude l : available exclude (rev l) = rev (available exclude l).
Proof.
  unfold available. induction l as [|x l IH]; [done|]. cbn [rev List.filter]. rewrite List.filter_app, IH. cbn [List.filter].
  destruct (negb (is_excluded x exclude)); [done|]. by rewrite app_nil_r.
Qed.
Lemma elem_of_available exclude l k : k ∈ available exclude l ↔ k ∈ l ∧ key_id k ∉ exclude.
Proof.
  unfold available. rewrite !list_elem_of_In, List.filter_In. unfold is_excluded. rewrite negb_true_iff, bool_decide_eq_false. done.
Qed.
Lemma available_sublist exclude l : sublist (available exclude l) l.
Proof. unfold available. induction l as [|x l IH]; [done|]. cbn. destruct (negb _); by constructor. Qed.
Lemma available_Forall P exclude l : Forall P l → Forall P (available exclude l).
Proof. rewrite !Forall_forall. intros Hl k [Hk _]%elem_of_available. by apply Hl. Qed.
Lemma available_sorted R exclude l : StronglySorted R l → StronglySorted R (available exclude l).
Proof.
  induction 1 as [|x l Hs IH Hx]; [constructor|]. unfold available. cbn [List.filter]. fold (available exclude l).
  destruct (negb _); [|done]. constructor; [done|by apply available_Forall].
Qed.

(** A prefix without the last coin of the reversed prefix is disjoint from it. *)
Lemma dust_apart (l big rest dust rest' : list CoinsToSpendIndexKey) c :
  NoDup l → rev l = big ++ rest → last big = Some c → l = dust ++ rest' → c ∉ dust → NoDup (big ++ dust).
Proof.
  intros Hnd Hbig Hlast Hdust Hc. apply last_Some in Hlast as [big' ->].
  assert (l = rev rest ++ c :: rev big') as Hl.
  { rewrite <- (rev_involutive l), Hbig, !rev_app_distr. done. }
  assert (dust `prefix_of` rev rest) as [x Hx].
  { destruct (prefix_weak_total dust (rev rest) l) as [Hp|[[|y z] Hp]]; [by eexists|by eexists|done|..].
    - rewrite app_nil_r in Hp. by rewrite Hp.
    - exfalso. rewrite Hp, <- app_assoc in Hdust. rewrite Hdust in Hl. apply app_inv_head in Hl. injection Hl as -> _. set_solver. }
  rewrite Hl, Hx in Hnd. rewrite (Permutation_app_comm _ dust), <- (rev_involutive (big' ++ [c])), rev_app_distr.
  rewrite <- app_assoc in Hnd. apply NoDup_app in Hnd as (H1 & H2 & H3). apply NoDup_app in H3 as (_ & _ & H3).
  rewrite <- Permutation_rev. cbn. apply NoDup_app. split_and!; [done| |done]. set_solver.
Qed.

Definition rng_ok (rng : Rng) : Prop :=
  (∀ u, 0 ≤ u → 0 ≤ gen_range rng u ≤ u) ∧ ∀ l, shuffle rng l ≡ₚ l.

(** ** Selecting from the index *)
Section select.
Context (rng : Rng) (l : list CoinsToSpendIndexKey) (total max : Z) (exclude : Exclude).
Context (Hrng : rng_ok rng) (Hnd : NoDup l) (Ht : Forall (amount_typed ∘ key_amount) l).
Context (Hsorted : StronglySorted (λ a b, key_amount a ≤ key_amount b) l).
Context (Htotal : 0 < total ≤ 2 ^ 128 - 1) (Hmax : 0 < max ≤ 65535).

Let avail := available exclude l.

Lemma avail_typed : Forall (amount_typed ∘ key_amount) avail.
Proof. by apply available_Forall. Qed.
Lemma avail_nodup : NoDup avail.
Proof. eapply sublist_NoDup; [exact Hnd|apply available_sublist]. Qed.
Lemma avail_amounts_sorted : StronglySorted (λ a b, b ≤ a) (key_amount <$> rev avail).
Proof.
  rewrite list_fmap_rev. apply (sorted_rev Z.le), (StronglySorted_fmap _ (λ a b, key_amount a ≤ key_amount b)); [done|].
  by apply available_sorted.
Qed.

(** A selection that cannot be improved on: if it falls short, so does every
    other. *)
Lemma big_coins_short big rest :
  rev avail = big ++ rest → rest = [] ∨ max ≤ Z.of_nat (length big) → Z.of_nat (length big) ≤ max → key_sum big < total →
  ∀ ks, ks ⊆+ key_amount <$> avail → Z.of_nat (length ks) ≤ max → zsum ks < total.
Proof.
  intros Hb Hr Hlen Hshort ks Hks Hkl. assert (Forall (Z.le 0) (key_amount <$> rev avail)) as Hpos.
  { rewrite Forall_fmap. pose proof avail_typed as Ht'. rewrite Forall_forall in Ht' |- *. intros k Hk. rewrite list_elem_of_rev in Hk. apply (Ht' k Hk). }
  assert (ks ⊆+ key_amount <$> rev avail) as Hks' by (by rewrite list_fmap_rev, <- Permutation_rev).
  destruct Hr as [->|Hr].
  - rewrite app_nil_r in Hb. pose proof (zsum_submseteq _ _ Hpos Hks') as Hle. rewrite Hb in Hle. unfold key_sum in Hshort. lia.
  - pose proof (top_sum _ ks (length big) avail_amounts_sorted Hpos Hks' ltac:(lia)) as Hle.
    rewrite Hb, <- fmap_take, take_app_length in Hle. unfold key_sum in Hshort. lia.
Qed.

Definition picks (sel : list CoinsToSpendIndexKey) : Prop :=
  NoDup sel ∧ Forall (.∈ avail) sel ∧ Z.of_nat (length sel) ≤ max ∧ total ≤ key_sum sel.

Lemma dust_improves big rest c m :
  rev avail = big ++ rest → last big = Some c → total ≤ key_sum big → 0 ≤ m → Z.of_nat (length big) + m ≤ max →
  let '(dust_total, dust) := dust_coins l c m exclude in picks (skip_big_coins_up_to_amount big dust_total ++ dust).
Proof.
  intros Hb Hc Hsum Hm0 Hm. unfold dust_coins.
  destruct (select_coins_until_spec m exclude (λ coin _, bool_decide (coin = c)) l []) as (dust & rest' & Ha & Hs & Hl & Hf & _); [done|lia|cbn; lia|].
  cbn [app] in Hs, Hl. change (key_sum []) with 0 in Hs. rewrite Hs. fold avail in Ha.
  assert (Forall (amount_typed ∘ key_amount) big) as Hbt.
  { pose proof avail_typed as H. rewrite (Permutation_rev avail), Hb in H. by apply Forall_app in H as [H _]. }
  assert (Forall (amount_typed ∘ key_amount) dust) as Hdt.
  { pose proof avail_typed as H. rewrite Ha in H. by apply Forall_app in H as [H _]. }
  pose proof (key_sum_bound _ Hdt). destruct (skip_spec big (key_sum dust) Hbt) as (j & -> & Hj); [nia|].
  assert (NoDup (big ++ dust)) as Hnd'.
  { eapply dust_apart; [apply avail_nodup|done|done|exact Ha|]. intros Hin. rewrite Forall_forall in Hf. destruct (Hf c Hin) as [t Ht'].
    by apply bool_decide_eq_false in Ht'. }
  split_and!.
  - eapply sublist_NoDup; [exact Hnd'|]. apply sublist_app; [apply sublist_drop|done].
  - apply Forall_forall. intros k [Hk|Hk]%elem_of_app.
    + apply list_elem_of_rev. rewrite Hb. apply elem_of_app. left. rewrite <- (take_drop j big). apply elem_of_app. by right.
    + rewrite Ha. set_solver.
  - rewrite length_app, length_drop. lia.
  - rewrite key_sum_app. rewrite <- (take_drop j big), key_sum_app in Hsum. lia.
Qed.

Lemma select_spec asset_id :
  match select_coins_to_spend rng (rev l) l total max asset_id exclude with
  | Ok sel => picks sel
  | Err e => (∃ n, e = InsufficientCoinsForTheMax asset_id n max)
      ∧ ∀ ks, ks ⊆+ key_amount <$> avail → Z.of_nat (length ks) ≤ max → zsum ks < total
  end.
Proof.
  unfold select_coins_to_spend, big_coins. rewrite decide_False by lia.
  set (adjusted := saturating_mul u128 total TOTAL_AMOUNT_ADJUSTMENT_FACTOR).
  assert (total ≤ adjusted) as Hadj by (unfold adjusted, saturating_mul, clamp, TOTAL_AMOUNT_ADJUSTMENT_FACTOR; cbn; lia).
  destruct (select_coins_until_spec max exclude (λ _ so_far, bool_decide (adjusted ≤ so_far)) (rev l) [])
    as (big & rest & Ha & Hs & Hlen & _ & Hrest).
  { cbn [app]. rewrite <- Permutation_rev. exact Ht. } { lia. } { cbn. lia. }
  cbn [app] in Hs, Hlen, Hrest. change (key_sum []) with 0 in Hs. rewrite Hs, available_rev in *. fold avail in Ha.
  destruct (decide (key_sum big < total)) as [Hshort|Hok].
  - split; [by eexists|]. eapply big_coins_short; [exact Ha| |lia|done]. destruct Hrest as [?|[?|(c & Hc & _)]]; [by left|by right|].
    apply bool_decide_eq_true in Hc. lia.
  - destruct (last big) as [c|] eqn:Hlast.
    2: { apply last_None in Hlast as ->. cbn in Hok. lia. }
    unfold try_into. rewrite fit_ok by (unfold in_range; cbn; lia). cbn [ok_or mbind result_bind].
    destruct Hrng as [Hgen _]. unfold max_dust_count.
    specialize (Hgen (Z.min (saturating_mul u16 (Z.of_nat (length big)) DUST_TO_BIG_COINS_FACTOR) (saturating_sub u16 max (Z.of_nat (length big))))).
    assert (saturating_sub u16 max (Z.of_nat (length big)) = max - Z.of_nat (length big)) as Hsub by (unfold saturating_sub, clamp; cbn; lia).
    assert (0 ≤ saturating_mul u16 (Z.of_nat (length big)) DUST_TO_BIG_COINS_FACTOR) by (unfold saturating_mul, clamp, DUST_TO_BIG_COINS_FACTOR; cbn; lia).
    rewrite Hsub in *. pose proof (dust_improves big rest c _ Ha Hlast ltac:(lia) (proj1 (Hgen ltac:(lia))) ltac:(lia)) as Hd.
    by destruct (dust_coins _ _ _ _).
Qed.
End select.

(** ** Selecting from all coins *)
Definition coin_sum (l : list CoinType) : Z := zsum (ct_amount <$> l).
Lemma coin_sum_app l k : coin_sum (l ++ k) = coin_sum l + coin_sum k.
Proof. unfold coin_sum. by rewrite fmap_app, zsum_app. Qed.
Lemma coin_sum_bound l : Forall (amount_typed ∘ ct_amount) l → 0 ≤ coin_sum l ≤ Z.of_nat (length l) * (2 ^ 64 - 1).
Proof. intros Hl. unfold coin_sum. rewrite <- (length_fmap ct_amount l). apply zsum_bound. rewrite Forall_fmap. exact Hl. Qed.
Lemma coin_sum_snoc l c :
  Forall (amount_typed ∘ ct_amount) l → amount_typed (ct_amount c) → Z.of_nat (length l) < 2 ^ 63 →
  saturating_add u128 (coin_sum l) (ct_amount c) = coin_sum (l ++ [c]).
Proof.
  intros Hl Ha Hn. pose proof (coin_sum_bound l Hl). rewrite coin_sum_app. unfold coin_sum at 3. cbn [fmap list_fmap]. rewrite zsum_singleton.
  unfold saturating_add, clamp, amount_typed in *. cbn. nia.
Qed.

Lemma largest_first_loop_spec asset inputs coins :
  Forall (amount_typed ∘ ct_amount) (coins ++ inputs) → at_max asset ≤ 65535 → Z.of_nat (length coins) ≤ Z.max 0 (at_max asset) →
  ∃ sel rest, inputs = sel ++ rest ∧ Z.of_nat (length (coins ++ sel)) ≤ Z.max 0 (at_max asset) ∧
    match largest_first_loop asset inputs (coin_sum coins) coins with
    | Ok (n, cs) => n = coin_sum cs ∧ cs = coins ++ sel ∧ (rest = [] ∨ at_target asset ≤ n)
    | Err e => e = InsufficientCoinsForTheMax (at_id asset) (coin_sum (coins ++ sel)) (at_max asset)
        ∧ coin_sum (coins ++ sel) < at_target asset ∧ at_max asset ≤ Z.of_nat (length (coins ++ sel))
    end.
Proof.
  intros Ht Hmax. revert coins Ht. induction inputs as [|c inputs IH]; intros coins Ht Hlen; cbn [largest_first_loop].
  - exists [], []. rewrite !app_nil_r. split_and!; [done..|by left].
  - destruct (decide (at_target asset ≤ coin_sum coins)) as [Hdone|Hmore].
    { exists [], (c :: inputs). rewrite app_nil_r. split_and!; [done..|by right]. }
    destruct (decide (at_max asset ≤ Z.of_nat (length coins))) as [Hfull|Hroom].
    { exists [], (c :: inputs). rewrite app_nil_r. split_and!; [done..|lia|done]. }
    assert (saturating_add u128 (coin_sum coins) (ct_amount c) = coin_sum (coins ++ [c])) as ->.
    { rewrite Forall_app, Forall_cons in Ht. destruct Ht as (H1 & H2 & _). by apply coin_sum_snoc; [|..|lia]. }
    destruct (IH (coins ++ [c])) as (sel & rest & -> & Hl & Hr).
    { by rewrite <- app_assoc. } { rewrite length_app. cbn. lia. }
    exists (c :: sel), rest. rewrite <- !app_assoc in *. cbn [app] in *. done.
Qed.

Lemma random_improve_loop_spec target inputs coins :
  Forall (amount_typed ∘ ct_amount) (coins ++ inputs) → Z.of_nat (length (coins ++ inputs)) < 2 ^ 63 →
  ∃ sel rest, inputs = sel ++ rest ∧ random_improve_loop target inputs (coin_sum coins) coins = (coin_sum (coins ++ sel), coins ++ sel).
Proof.
  revert coins. induction inputs as [|c inputs IH]; intros coins Ht Hlen; cbn [random_improve_loop].
  - exists [], []. by rewrite !app_nil_r.
  - destruct (_ && _); [exists [], (c :: inputs); by rewrite app_nil_r|].
    rewrite length_app in Hlen. cbn [length] in Hlen.
    assert (saturating_add u128 (coin_sum coins) (ct_amount c) = coin_sum (coins ++ [c])) as ->.
    { rewrite Forall_app, Forall_cons in Ht. destruct Ht as (H1 & H2 & _). by apply coin_sum_snoc; [|..|lia]. }
    destruct (IH (coins ++ [c])) as (sel & rest & -> & Hr).
    { by rewrite <- app_assoc. } { rewrite !length_app. cbn. lia. }
    exists (c :: sel), rest. rewrite <- !app_assoc in *. done.
Qed.

(** *** The order of keys *)
#[export] Instance key_le_total : Total key_le.
Proof. intros a b. apply bytes_le_total. Qed.
#[export] Instance key_le_trans : Transitive key_le.
Proof. intros a b c. apply bytes_le_trans. Qed.
Lemma encode_key_fields k : ∃ t, encode_key k = key_retryable_flag k :: key_owner k :: key_asset_id k :: key_amount k :: t.
Proof. destruct k; by eexists. Qed.
Lemma key_le_amount a b :
  key_retryable_flag a = key_retryable_flag b → key_owner a = key_owner b → key_asset_id a = key_asset_id b → key_le a b →
  key_amount a ≤ key_amount b.
Proof.
  unfold key_le. destruct (encode_key_fields a) as [t ->], (encode_key_fields b) as [t' ->]. intros -> -> ->. cbn [bytes_le].
  rewrite !(decide_True (P := _ = _)) by done. case_decide; [lia|]. rewrite bool_decide_eq_true. lia.
Qed.
Lemma elem_of_dust_iter od owner asset_id k :
  k ∈ dust_coins_iter od owner asset_id ↔
  (key_retryable_flag k = NON_RETRYABLE_BYTE ∧ key_owner k = owner ∧ key_asset_id k = asset_id) ∧ k ∈ coins_to_spend_index od.
Proof. unfold dust_coins_iter. by rewrite (merge_sort_Permutation key_le), elem_of_elements, elem_of_filter. Qed.
Lemma dust_iter_nodup od owner asset_id : NoDup (dust_coins_iter od owner asset_id).
Proof. unfold dust_coins_iter. rewrite (merge_sort_Permutation key_le). apply NoDup_elements. Qed.
Lemma dust_iter_sorted od owner asset_id :
  StronglySorted (λ a b, key_amount a ≤ key_amount b) (dust_coins_iter od owner asset_id).
Proof.
  assert (Forall (λ k, key_retryable_flag k = NON_RETRYABLE_BYTE ∧ key_owner k = owner ∧ key_asset_id k = asset_id)
    (dust_coins_iter od owner asset_id)) as Hf by (apply Forall_forall; intros k Hk; by apply elem_of_dust_iter in Hk as [? _]).
  assert (StronglySorted key_le (dust_coins_iter od owner asset_id)) as Hs by (apply StronglySorted_merge_sort; apply _).
  induction Hs as [|x k Hs IH Hx]; [constructor|]. apply Forall_cons in Hf as [(H1 & H2 & H3) Hf]. constructor; [by apply IH|].
  rewrite Forall_forall in Hx, Hf |- *. intros y Hy. destruct (Hf y Hy) as (H1' & H2' & H3'). apply key_le_amount; [congruence..|by apply Hx].
Qed.

(** *** The ids of an owner *)
Lemma owned_snd `{Countable A} (owned : gset (Address * A)) owner x :
  x ∈ (elements (filter (λ p, p.1 = owner) owned)).*2 ↔ (owner, x) ∈ owned.
Proof.
  rewrite list_elem_of_fmap. split.
  - intros ([o y] & -> & Hin). apply elem_of_elements, elem_of_filter in Hin as [Ho Hin]. cbn in Ho. by subst o.
  - intros Hin. exists (owner, x). split; [done|]. by apply elem_of_elements, elem_of_filter.
Qed.
Lemma owned_snd_nodup `{Countable A} (owned : gset (Address * A)) owner : NoDup (elements (filter (λ p, p.1 = owner) owned)).*2.
Proof.
  apply NoDup_fmap_2_strong; [|apply NoDup_elements]. intros [o x] [o' y] Hx Hy Heq.
  apply elem_of_elements, elem_of_filter in Hx as [Ho _], Hy as [Ho' _]. cbn in *. congruence.
Qed.
Lemma elem_of_owned_coins_ids od owner u : u ∈ owned_coins_ids od owner ↔ (owner, u) ∈ owned_coins od.
Proof. unfold owned_coins_ids. rewrite (merge_sort_Permutation utxo_le). apply owned_snd. Qed.
Lemma elem_of_owned_messages od owner n : n ∈ owned_messages od owner ↔ (owner, n) ∈ owned_message_ids od.
Proof. unfold owned_messages. rewrite (merge_sort_Permutation Z.le). apply owned_snd. Qed.
Lemma filter_bool_elem {A} (P : A → bool) l x : x ∈ List.filter P l ↔ x ∈ l ∧ P x = true.
Proof. by rewrite !list_elem_of_In, List.filter_In. Qed.
Lemma filter_bool_nodup {A} (P : A → bool) l : NoDup l → NoDup (List.filter P l).
Proof. rewrite !NoDup_ListNoDup. apply List.NoDup_filter. Qed.

(** ** The coins of the ledger *)
Lemma Forall_choose {A B} (P : A → B → Prop) l : Forall (λ x, ∃ y, P x y) l → ∃ k, Forall2 P l k.
Proof. induction 1 as [|x l [y Hy] _ [k Hk]]; [by exists []|]. exists (y :: k). by constructor. Qed.

(** The elements with given, unique keys *)
Lemma chosen_spec {K A} (f : A → K) (Q : A → Prop) ks :
  (∀ c c', Q c → Q c' → f c = f c' → c = c') → Forall (λ k, ∃ c, f c = k ∧ Q c) ks →
  ∃ cs, Forall2 (λ k c, f c = k ∧ Q c) ks cs ∧ f <$> cs = ks ∧ ∀ c, c ∈ cs ↔ f c ∈ ks ∧ Q c.
Proof.
  intros Hinj [cs Hcs]%Forall_choose. exists cs. split; [done|].
  assert (f <$> cs = ks) as Hk by (clear -Hcs; induction Hcs as [|k c ks cs [<- _] _ IH]; cbn; congruence).
  assert (Forall Q cs) as HQ by (clear -Hcs; induction Hcs as [|k c ks cs [_ ?] _ IH]; by constructor).
  split; [done|]. intros c. rewrite <- Hk, list_elem_of_fmap. rewrite Forall_forall in HQ. split; [eauto|].
  intros [(c' & Heq & Hc') Hc]. rewrite (Hinj c c'); [done|done|by apply HQ|done].
Qed.

Section spendable.
Context (base : AssetId) (l : Ledger) (owner : Address) (asset_id : AssetId).

(** A coin of the owner, or a message for them that carries no data. *)
Definition Spendable (c : CoinType) : Prop :=
  match c with
  | CtCoin coin => l.1 !! coin_utxo_id coin = Some (compress_coin coin) ∧ coin_owner coin = owner ∧ coin_asset_id coin = asset_id
  | CtMessageCoin mc =>
      asset_id = base ∧ mc_recipient mc = owner ∧ ∃ m, l.2 !! mc_nonce mc = Some m ∧ MessageCoin_try_from m = Some mc
  end.

Record Selection (exclude : Exclude) (amount max : Z) (sel : list CoinType) : Prop := {
  sl_spendable : Forall Spendable sel;
  sl_allowed : Forall (λ c, coin_id c ∉ exclude) sel;
  sl_nodup : NoDup (coin_id <$> sel);
  sl_length : Z.of_nat (length sel) ≤ max;
  sl_covers : amount ≤ coin_sum sel
}.

Context (Ht : ledger_typed l).
Lemma spendable_typed c : Spendable c → amount_typed (ct_amount c).
Proof.
  destruct Ht as [Hc Hm]. destruct c as [coin|mc]; cbn.
  - intros (Hu & _). by specialize (Hc _ _ Hu).
  - intros (_ & _ & m & Hn & Htry). destruct (Hm _ _ Hn) as [Ha _]. unfold MessageCoin_try_from in Htry.
    destruct (is_retryable_message m); [done|]. by injection Htry as <-.
Qed.
Lemma spendable_inj c c' : Spendable c → Spendable c' → coin_id c = coin_id c' → c = c'.
Proof.
  destruct c as [c|c], c' as [c'|c']; cbn; try done.
  - intros (Hu & _) (Hu' & _) [= Heq]. rewrite Heq, Hu' in Hu. injection Hu as H1 H2 H3 H4. f_equal. destruct c, c'; cbn in *. congruence.
  - intros (_ & _ & m & Hn & Htry) (_ & _ & m' & Hn' & Htry') [= Heq]. rewrite Heq, Hn' in Hn. congruence.
Qed.

(** *** In the index *)
Definition key_of (c : CoinType) : CoinsToSpendIndexKey :=
  match c with
  | CtCoin coin => from_coin coin
  | CtMessageCoin mc => KeyMessage NON_RETRYABLE_BYTE (mc_recipient mc) base (mc_amount mc) (mc_nonce mc)
  end.
Lemma key_id_of c : key_id (key_of c) = coin_id c.
Proof. by destruct c. Qed.
Lemma key_amount_of c : key_amount (key_of c) = ct_amount c.
Proof. by destruct c. Qed.
Lemma ids_of_keys (cs : list CoinType) : coin_id <$> cs = key_id <$> (key_of <$> cs).
Proof. rewrite <- list_fmap_compose. apply list_fmap_ext. intros i c _. cbn. by rewrite key_id_of. Qed.
Lemma amounts_of_keys (cs : list CoinType) : ct_amount <$> cs = key_amount <$> (key_of <$> cs).
Proof. rewrite <- list_fmap_compose. apply list_fmap_ext. intros i c _. cbn. by rewrite key_amount_of. Qed.

Context (od : OffChainDb) (HI : Indexed base l od).
Lemma elem_of_dust k : k ∈ dust_coins_iter od owner asset_id ↔ ∃ c, Spendable c ∧ key_of c = k.
Proof.
  rewrite elem_of_dust_iter, (ix_to_spend _ _ _ HI k). split.
  - intros [(Hf & Ho & Ha) [(u & c & Hu & ->)|(n & m & Hn & ->)]].
    + exists (CtCoin (uncompress c u)). cbn in *. split; [|done]. split_and!; [|done..]. rewrite Hu. by destruct c.
    + destruct Ht as [_ Hm]. destruct (Hm _ _ Hn) as [_ Hk]. cbn in Hf, Ho, Ha.
      destruct (is_retryable_message m) eqn:Hr; [done|].
      exists (CtMessageCoin (MkMessageCoin (msg_sender m) (msg_recipient m) (msg_nonce m) (msg_amount m) (msg_da_height m))).
      cbn. unfold from_message. rewrite Hr. split; [|done]. split_and!; [done..|]. exists m. unfold MessageCoin_try_from. by rewrite Hr, Hk.
  - intros ([coin|mc] & Hs & <-); cbn in *.
    + destruct Hs as (Hu & Ho & Ha). split; [done|]. left. exists (coin_utxo_id coin), (compress_coin coin). by rewrite uncompress_compress.
    + destruct Hs as (-> & Ho & m & Hn & Htry). split; [done|]. right. exists (mc_nonce mc), m. split; [done|].
      unfold MessageCoin_try_from in Htry. unfold from_message. destruct (is_retryable_message m); [done|]. by injection Htry as <-.
Qed.

Lemma dust_typed : Forall (amount_typed ∘ key_amount) (dust_coins_iter od owner asset_id).
Proof.
  apply Forall_forall. intros k (c & Hc & <-)%elem_of_dust. cbn. rewrite key_amount_of. by apply spendable_typed.
Qed.

Context (view : ReadView) (Hon : ledger (rv_on_chain view) = l) (Hoff : rv_off_chain view = od).
Lemma read_spendable c : Spendable c → read_coin_type view (coin_id c) = Ok c.
Proof.
  unfold Spendable. rewrite <- Hon. destruct c as [coin|mc]; cbn.
  - intros (Hu & _). unfold read_coin. rewrite Hu. cbn. by rewrite uncompress_compress.
  - intros (_ & _ & m & Hn & Htry). unfold read_message. rewrite Hn. cbn. by rewrite Htry.
Qed.

(** Selected keys are coins that can be read. *)
Lemma read_selected exclude sel amount max :
  picks (dust_coins_iter od owner asset_id) amount max exclude sel →
  ∃ cs, result_map (λ k, read_coin_type view (key_id k)) sel = Ok cs ∧ Selection exclude amount max cs.
Proof.
  intros (Hnd & Hin & Hlen & Hsum).
  destruct (Forall_choose (λ k c, Spendable c ∧ key_of c = k ∧ coin_id c ∉ exclude) sel) as [cs Hcs].
  { eapply Forall_impl; [exact Hin|]. intros k Hk. apply elem_of_available in Hk as [(c & Hc & <-)%elem_of_dust Hex].
    exists c. by rewrite <- key_id_of. }
  exists cs. split.
  { apply result_map_ok. eapply Forall2_impl; [exact Hcs|]. intros k c (Hc & <- & _). rewrite key_id_of. by apply read_spendable. }
  assert (key_of <$> cs = sel) as Hkeys by (clear -Hcs; induction Hcs as [|k c ks cs (_ & <- & _) _ IH]; cbn; congruence).
  assert (Forall (λ c, Spendable c ∧ coin_id c ∉ exclude) cs) as Hall.
  { clear -Hcs. induction Hcs as [|k c ks cs (? & _ & ?) _ IH]; by constructor. }
  split.
  - eapply Forall_impl; [exact Hall|]. by intros c [? _].
  - eapply Forall_impl; [exact Hall|]. by intros c [_ ?].
  - rewrite <- Hkeys in Hnd. rewrite ids_of_keys. apply NoDup_fmap_2_strong; [|done]. intros x y Hx Hy Heq. apply list_elem_of_fmap in Hx as (c & -> & Hc), Hy as (c' & -> & Hc').
    rewrite !key_id_of in Heq. rewrite Forall_forall in Hall. f_equal. apply spendable_inj; [by apply Hall..|done].
  - by rewrite <- Hkeys, length_fmap in Hlen.
  - unfold coin_sum. by rewrite amounts_of_keys, Hkeys.
Qed.

(** The amounts of a selection are among those of the index. *)
Lemma selection_amounts exclude amount max cs :
  Selection exclude amount max cs → ct_amount <$> cs ⊆+ key_amount <$> available exclude (dust_coins_iter od owner asset_id).
Proof.
  intros [Hsp Hal Hnd _ _]. rewrite amounts_of_keys. apply fmap_submseteq, NoDup_submseteq.
  - apply (NoDup_fmap_1 key_id). by rewrite <- ids_of_keys.
  - intros k (c & -> & Hc)%list_elem_of_fmap. rewrite Forall_forall in Hsp, Hal. apply elem_of_available. rewrite key_id_of.
    split; [apply elem_of_dust; eauto|by apply Hal].
Qed.

(** *** Through the tables of owners *)
Lemma coins_iter_spec allowed exclude :
  ∃ cs, coins_iter view (MkAssetsQuery owner allowed exclude base) = Ok (CtCoin <$> cs) ∧ NoDup (coin_utxo_id <$> cs) ∧
    ∀ c, c ∈ cs ↔ l.1 !! coin_utxo_id c = Some (compress_coin c) ∧ coin_owner c = owner
      ∧ allowed_asset allowed (coin_asset_id c) = true ∧ not_excluded exclude (IdUtxo (coin_utxo_id c)) = true.
Proof.
  unfold coins_iter. cbn [aq_exclude aq_owner aq_allowed_assets]. rewrite Hoff.
  set (ids := List.filter _ (owned_coins_ids od owner)).
  assert (∀ u, u ∈ ids ↔ (∃ c, l.1 !! u = Some c ∧ cc_owner c = owner) ∧ not_excluded exclude (IdUtxo u) = true) as Hids.
  { intros u. unfold ids. by rewrite filter_bool_elem, elem_of_owned_coins_ids, (ix_owned_coins _ _ _ HI owner u). }
  assert (NoDup ids) as Hnd.
  { apply filter_bool_nodup. unfold owned_coins_ids. rewrite (merge_sort_Permutation utxo_le). apply owned_snd_nodup. }
  destruct (chosen_spec coin_utxo_id (λ c, l.1 !! coin_utxo_id c = Some (compress_coin c)) ids) as (cs & Hcs & Hid & Hin).
  { intros c c' Hc Hc' Heq. rewrite Heq, Hc' in Hc. injection Hc as H1 H2 H3 H4. destruct c, c'; cbn in *. congruence. }
  { apply Forall_forall. intros u [(c & Hu & Ho) _]%Hids. exists (uncompress c u). cbn. rewrite Hu. by destruct c. }
  rewrite (result_map_ok _ ids cs).
  2: { eapply Forall2_impl; [exact Hcs|]. intros u c (<- & Hu). unfold read_coin.
       change (coins (rv_on_chain view)) with (ledger (rv_on_chain view)).1. rewrite Hon, Hu. cbn. by rewrite uncompress_compress. }
  eexists. split; [done|]. split.
  - eapply sublist_NoDup; [rewrite <- Hid in Hnd; exact Hnd|]. apply fmap_sublist. clear. induction cs as [|c cs IH]; [done|]. cbn.
    destruct (allowed_asset _ _); by constructor.
  - intros c. rewrite filter_bool_elem, Hin, Hids. split.
    + intros [[[(c' & Hu' & Ho) Hex] Hu] Ha]. split_and!; [done| |done..]. rewrite Hu in Hu'. by injection Hu' as <-.
    + intros (Hu & Ho & Ha & Hex). split_and!; eauto.
Qed.
Lemma messages_iter_spec allowed exclude :
  ∃ cs, messages_iter view (MkAssetsQuery owner allowed exclude base) = Ok (CtMessageCoin <$> cs) ∧ NoDup (mc_nonce <$> cs) ∧
    ∀ c, c ∈ cs ↔ (mc_recipient c = owner ∧ ∃ m, l.2 !! mc_nonce c = Some m ∧ MessageCoin_try_from m = Some c)
      ∧ not_excluded exclude (IdMessage (mc_nonce c)) = true.
Proof.
  unfold messages_iter. cbn [aq_exclude aq_owner]. rewrite Hoff. set (ids := List.filter _ (owned_messages od owner)).
  assert (∀ n, n ∈ ids ↔ (∃ m, l.2 !! n = Some m ∧ msg_recipient m = owner) ∧ not_excluded exclude (IdMessage n) = true) as Hids.
  { intros n. unfold ids. by rewrite filter_bool_elem, elem_of_owned_messages, (ix_owned_messages _ _ _ HI owner n). }
  assert (NoDup ids) as Hnd.
  { apply filter_bool_nodup. unfold owned_messages. rewrite (merge_sort_Permutation Z.le). apply owned_snd_nodup. }
  destruct (chosen_spec msg_nonce (λ m, l.2 !! msg_nonce m = Some m) ids) as (ms & Hms & Hid & Hin); [congruence| |].
  { apply Forall_forall. intros n [(m & Hn & Ho) _]%Hids. exists m. destruct Ht as [_ Hm]. destruct (Hm _ _ Hn) as [_ Hk].
    split; [done|]. by rewrite Hk. }
  rewrite (result_map_ok _ ids ms).
  2: { eapply Forall2_impl; [exact Hms|]. intros n m (<- & Hn). unfold read_message.
       change (messages (rv_on_chain view)) with (ledger (rv_on_chain view)).2. by rewrite Hon, Hn. }
  assert (∀ m c, MessageCoin_try_from m = Some c → mc_nonce c = msg_nonce m ∧ mc_recipient c = msg_recipient m) as Htry.
  { intros m c. unfold MessageCoin_try_from. destruct (is_retryable_message m); [done|]. by intros [= <-]. }
  eexists. split; [done|]. split.
  - rewrite <- Hid in Hnd. clear -Hnd Htry. induction ms as [|m ms IH]; [constructor|]. cbn in Hnd |- *. apply NoDup_cons in Hnd as [Hn Hnd].
    destruct (MessageCoin_try_from m) as [c|] eqn:Hc; [|by apply IH]. cbn. constructor; [|by apply IH].
    destruct (Htry m c Hc) as [-> _]. intros (c' & Heq & (m' & Hm' & Hc')%list_elem_of_omap)%list_elem_of_fmap. apply Hn.
    destruct (Htry m' c' Hc') as [Hn' _]. rewrite Heq, Hn'. by apply list_elem_of_fmap_2.
  - intros c. rewrite list_elem_of_omap. split.
    + intros (m & [[(m' & Hn' & Ho) Hex]%Hids Hn]%Hin & Hc). destruct (Htry m c Hc) as [-> ->]. rewrite Hn in Hn'. injection Hn' as <-. eauto.
    + intros [[Ho (m & Hn & Hc)] Hex]. exists m. split; [|done]. destruct (Htry m c Hc) as [H1 H2]. apply Hin. rewrite H1 in *. rewrite Hids. split; [|done].
      split; [|done]. exists m. by rewrite <- H2.
Qed.

Lemma query_coins_spec exclude :
  ∃ inputs, query_coins view (MkAssetsQuery owner (Some {[asset_id]}) exclude base) = Ok inputs ∧ NoDup (coin_id <$> inputs) ∧
    ∀ c, c ∈ inputs ↔ Spendable c ∧ not_excluded exclude (coin_id c) = true.
Proof.
  destruct (coins_iter_spec (Some {[asset_id]}) exclude) as (cs & Hcs & Hnd & Hin).
  destruct (messages_iter_spec (Some {[asset_id]}) exclude) as (ms & Hms & Hnd' & Hin').
  assert (∀ a, allowed_asset (Some {[asset_id]}) a = true ↔ a = asset_id) as Hal.
  { intros a. cbn. rewrite bool_decide_eq_true. set_solver. }
  assert (NoDup (coin_id <$> (CtCoin <$> cs))) as Hnc.
  { rewrite <- list_fmap_compose. change (coin_id ∘ CtCoin) with (IdUtxo ∘ coin_utxo_id). rewrite list_fmap_compose. by apply NoDup_fmap_2; [intros ?? [=]|]. }
  assert (NoDup (coin_id <$> (CtMessageCoin <$> ms))) as Hnm.
  { rewrite <- list_fmap_compose. change (coin_id ∘ CtMessageCoin) with (IdMessage ∘ mc_nonce). rewrite list_fmap_compose. by apply NoDup_fmap_2; [intros ?? [=]|]. }
  unfold query_coins. cbn [aq_allowed_assets aq_base_asset_id]. rewrite Hcs, Hms. destruct (allowed_asset (Some {[asset_id]}) base) eqn:Hb.
  - apply Hal in Hb. eexists. split; [done|]. split.
    + rewrite fmap_app. apply NoDup_app. split_and!; [done| |done].
      intros x (c & -> & (? & -> & _)%list_elem_of_fmap)%list_elem_of_fmap (c' & Heq & (? & -> & _)%list_elem_of_fmap)%list_elem_of_fmap. done.
    + intros c. rewrite elem_of_app, !list_elem_of_fmap. destruct c as [c|c]; cbn [Spendable coin_id]; split.
      * intros [(y & [= <-] & Hy)|(y & [=] & _)]. apply Hin in Hy as (Hu & Ho & Ha & Hex). apply Hal in Ha. done.
      * intros [(Hu & Ho & Ha) Hex]. left. exists c. split; [done|]. apply Hin. split_and!; [done..|by apply Hal|done].
      * intros [(y & [=] & _)|(y & [= <-] & Hy)]. apply Hin' in Hy as [[Ho Hm] Hex]. done.
      * intros [(_ & Ho & Hm) Hex]. right. exists c. split; [done|]. by apply Hin'.
  - assert (base ≠ asset_id) as Hb' by (intros Heq; apply Hal in Heq; congruence).
    eexists. split; [done|]. split; [done|]. intros c. rewrite list_elem_of_fmap.
    destruct c as [c|c]; cbn [Spendable coin_id]; split.
    + intros (y & [= <-] & Hy). apply Hin in Hy as (Hu & Ho & Ha & Hex). apply Hal in Ha. done.
    + intros [(Hu & Ho & Ha) Hex]. exists c. split; [done|]. apply Hin. split_and!; [done..|by apply Hal|done].
    + by intros (y & [=] & _).
    + by intros [(Heq & _) _].
Qed.

(** *** Both implementations for one asset *)
Definition exact_answer (exclude : Exclude) (amount max : Z) (r : result CoinsQueryError (list CoinType)) : Prop :=
  match r with
  | Ok sel => Selection exclude amount max sel
  | Err e => (∃ n, e = InsufficientCoinsForTheMax asset_id n max) ∧ ∀ sel, ¬ Selection exclude amount max sel
  end.

Lemma with_cache_exact rng exclude max_input q :
  rng_ok rng → se_asset_id q = asset_id → 0 ≤ se_amount q ≤ 2 ^ 128 - 1 → 0 < element_max q max_input ≤ 65535 →
  exact_answer exclude (se_amount q) (element_max q max_input) (spend_asset_with_cache rng owner exclude max_input view q).
Proof.
  intros Hrng Hq Ha Hm. unfold spend_asset_with_cache. rewrite Hoff, Hq. unfold big_coins_iter. destruct (decide (se_amount q = 0)) as [Hz|Hnz].
  - unfold select_coins_to_spend. rewrite decide_True by (by left). cbn. rewrite Hz. split; [constructor|constructor|constructor|cbn; lia|done].
  - pose proof (select_spec rng (dust_coins_iter od owner asset_id) (se_amount q) (element_max q max_input) exclude Hrng
      (dust_iter_nodup _ _ _) dust_typed (dust_iter_sorted _ _ _) ltac:(lia) ltac:(lia) asset_id) as Hs.
    destruct (select_coins_to_spend _ _ _ _ _ _ _) as [sel|e]; cbn [mbind result_bind].
    + apply read_selected in Hs as (cs & -> & Hcs). done.
    + destruct Hs as [He Hno]. split; [done|]. intros cs Hcs. pose proof (selection_amounts _ _ _ _ Hcs) as Hsub.
      specialize (Hno _ Hsub). rewrite length_fmap in Hno. destruct Hcs as [_ _ _ Hl Hsum]. unfold coin_sum in Hsum. specialize (Hno Hl). lia.
Qed.

Section inputs.
Context (exclude : Exclude) (inputs : list CoinType) (Hnd : NoDup (coin_id <$> inputs)).
Context (Hin : ∀ c, c ∈ inputs ↔ Spendable c ∧ not_excluded (Some exclude) (coin_id c) = true).

Lemma inputs_typed : Forall (amount_typed ∘ ct_amount) inputs.
Proof. apply Forall_forall. intros c [Hc _]%Hin. by apply spendable_typed. Qed.
Lemma inputs_selection sel rest amount max :
  inputs ≡ₚ sel ++ rest → Z.of_nat (length sel) ≤ max → amount ≤ coin_sum sel → Selection exclude amount max sel.
Proof.
  intros Hp Hl Hs. assert (∀ c, c ∈ sel → Spendable c ∧ coin_id c ∉ exclude) as Hsel.
  { intros c Hc. assert (c ∈ inputs) as [Hsp Hex]%Hin by (rewrite Hp; set_solver). cbn in Hex. by apply bool_decide_eq_true in Hex. }
  split; [by apply Forall_forall; intros c Hc; apply Hsel..| |done|done].
  rewrite Hp, fmap_app in Hnd. by apply NoDup_app in Hnd as [? _].
Qed.
Lemma selection_inputs amount max sel : Selection exclude amount max sel → ct_amount <$> sel ⊆+ ct_amount <$> inputs.
Proof.
  intros [Hsp Hal Hn _ _]. apply fmap_submseteq, NoDup_submseteq; [by apply (NoDup_fmap_1 coin_id)|].
  intros c Hc. rewrite Forall_forall in Hsp, Hal. apply Hin. split; [by apply Hsp|]. cbn. by apply bool_decide_eq_true, Hal.
Qed.

(** When the largest coins fall short, nothing covers the amount. *)
Lemma largest_short amount max sel rest :
  merge_sort larger inputs = sel ++ rest → rest = [] ∨ max ≤ Z.of_nat (length sel) → coin_sum sel < amount →
  ∀ cs, ¬ Selection exclude amount max cs.
Proof.
  intros Hs Hr Hshort cs Hcs. pose proof (selection_inputs _ _ _ Hcs) as Hsub. destruct Hcs as [_ _ _ Hl Hsum].
  assert (inputs ≡ₚ sel ++ rest) as Hp by (by rewrite <- Hs, (merge_sort_Permutation larger)).
  assert (ct_amount <$> cs ⊆+ ct_amount <$> (sel ++ rest)) as Hsub' by (by rewrite <- Hp).
  assert (Forall (Z.le 0) (ct_amount <$> (sel ++ rest))) as Hpos.
  { rewrite <- Hp, Forall_fmap. eapply Forall_impl; [apply inputs_typed|]. by intros c [? _]. }
  unfold coin_sum in *. destruct Hr as [->|Hr].
  - rewrite app_nil_r in *. pose proof (zsum_submseteq _ _ Hpos Hsub'). lia.
  - assert (StronglySorted (λ a b, b ≤ a) (ct_amount <$> (sel ++ rest))) as Hsort.
    { rewrite <- Hs. apply (StronglySorted_fmap _ larger); [done|]. apply StronglySorted_merge_sort.
      - intros a b c. unfold larger. lia.
      - intros a b. unfold larger. lia. }
    pose proof (top_sum _ (ct_amount <$> cs) (length sel) Hsort Hpos Hsub') as Hle. rewrite length_fmap in Hle.
    rewrite <- fmap_take, take_app_length in Hle. lia.
Qed.
Lemma largest_first_exact asset :
  at_id asset = asset_id → 0 ≤ at_max asset ≤ 65535 →
  exact_answer exclude (at_target asset) (at_max asset) (largest_first asset inputs).
Proof.
  intros Hid Hm. unfold largest_first. assert (Forall (amount_typed ∘ ct_amount) (merge_sort larger inputs)) as Hty.
  { rewrite (merge_sort_Permutation larger). apply inputs_typed. }
  destruct (largest_first_loop_spec asset (merge_sort larger inputs) []) as (sel & rest & Hs & Hl & Hr); [done|lia|cbn; lia|].
  cbn [app] in *. change (coin_sum []) with 0 in Hr. destruct (largest_first_loop _ _ 0 []) as [[n cs]|e]; cbn [mbind result_bind].
  - destruct Hr as (-> & -> & Hr). destruct (decide (coin_sum sel < at_target asset)) as [Hshort|Hok].
    + split; [rewrite Hid; by eexists|]. eapply largest_short; [done| |done]. left. destruct Hr; [done|lia].
    + apply (inputs_selection sel rest); [|lia..]. by rewrite <- Hs, (merge_sort_Permutation larger).
  - destruct Hr as (-> & Hshort & Hfull). split; [rewrite Hid; by eexists|]. eapply largest_short; [done|by right|done].
Qed.
End inputs.

Lemma without_cache_exact rng exclude asset targets :
  rng_ok rng → at_id asset = asset_id → 0 ≤ at_max asset ≤ 65535 →
  exact_answer exclude (at_target asset) (at_max asset)
    (random_improve_asset rng view (MkSpendQuery owner targets exclude base) asset).
Proof.
  intros [_ Hsh] Hid Hm. unfold random_improve_asset, asset_query. cbn [sq_owner sq_base_asset_id sq_exclude]. rewrite Hid.
  destruct (query_coins_spec (Some exclude)) as (inputs & -> & Hnd & Hin). cbn [mbind result_bind].
  set (shuffled := take _ _). assert (inputs ≡ₚ shuffled ++ drop (Z.to_nat (at_max asset)) (shuffle rng inputs)) as Hp.
  { unfold shuffled. by rewrite take_drop. }
  assert (Z.of_nat (length shuffled) ≤ at_max asset) as Hlen by (unfold shuffled; rewrite length_take; lia).
  destruct (random_improve_loop_spec (at_target asset) shuffled []) as (sel & rest & Hs & Hloop).
  { pose proof (inputs_typed _ _ Hin) as H. rewrite Hp in H. by apply Forall_app in H as [H _]. }
  { cbn. lia. }
  change (coin_sum []) with 0 in Hloop. rewrite Hloop. cbn [app].
  destruct (decide (coin_sum sel < at_target asset)) as [Hshort|Hok]; [by apply largest_first_exact|].
  rewrite Hs in Hp, Hlen. rewrite <- app_assoc in Hp. rewrite length_app in Hlen. by eapply (inputs_selection _ _ Hnd Hin); [exact Hp|lia..].
Qed.
End spendable.

(** ** The balance of an owner *)
(** The total of a table is the sum of what is listed of it. *)
Lemma map_total_listed `{Countable K} {A B} (share : A → Z) (m : gmap K A) (key : B → K) (g : B → Z) cs :
  NoDup (key <$> cs) → Forall (λ c, ∃ x, m !! key c = Some x ∧ share x = g c) cs →
  (∀ k x, m !! k = Some x → share x ≠ 0 → ∃ c, c ∈ cs ∧ key c = k) → map_total share m = zsum (g <$> cs).
Proof.
  revert m. induction cs as [|c cs IH]; intros m Hnd Hin Hall.
  - assert (0 ≤ map_total share m ≤ Z.of_nat (size m) * 0); [|cbn; lia]. apply map_total_bounds; [done|]. intros k x Hk.
    destruct (decide (share x = 0)) as [->|Hne]; [done|]. by destruct (Hall k x Hk Hne) as (? & ?%elem_of_nil & _).
  - cbn in Hnd. apply NoDup_cons in Hnd as [Hn Hnd]. apply Forall_cons in Hin as [(x & Hx & Hg) Hin].
    rewrite (map_total_delete _ _ _ _ Hx), Hg, (IH (delete (key c) m)); [done..| |].
    + rewrite Forall_forall in Hin |- *. intros c' Hc'. rewrite lookup_delete_ne; [by apply Hin|].
      intros Heq. apply Hn. rewrite Heq. by apply list_elem_of_fmap_2.
    + intros k y [Hne Hy]%lookup_delete_Some Hs. destruct (Hall k y Hy Hs) as (c' & [->|Hc']%elem_of_cons & <-); [done|eauto].
Qed.
Lemma saturating_sum {A} (f : A → Z) l acc :
  0 ≤ acc → Forall (λ x, 0 ≤ f x) l → acc + zsum (f <$> l) ≤ 2 ^ 128 - 1 →
  foldl (λ b x, saturating_add u128 b (f x)) acc l = acc + zsum (f <$> l).
Proof.
  intros Ha Hl. revert acc Ha. induction Hl as [|x l Hx Hl IH]; intros acc Ha Hs; cbn [foldl fmap list_fmap] in *; [cbn; lia|].
  rewrite zsum_cons in *. assert (0 ≤ zsum (f <$> l)) by (apply zsum_nonneg; by rewrite Forall_fmap).
  assert (saturating_add u128 acc (f x) = acc + f x) as -> by (unfold saturating_add, clamp; cbn; lia). rewrite IH; lia.
Qed.

(** The table of amounts per asset *)
Lemma amounts_fold {A} (key amount : A → Z) cs (m : gmap AssetId Z) :
  Forall (λ c, 0 ≤ amount c) cs → (∀ a, 0 ≤ unwrap_or 0 (m !! a)) →
  (∀ a, unwrap_or 0 (m !! a) + zsum (amount <$> filter (λ c, key c = a) cs) ≤ 2 ^ 128 - 1) →
  let m' := foldl (λ m c, <[key c := saturating_add u128 (unwrap_or 0 (m !! key c)) (amount c)]> m) m cs in
  (∀ a, unwrap_or 0 (m' !! a) = unwrap_or 0 (m !! a) + zsum (amount <$> filter (λ c, key c = a) cs))
  ∧ dom m' = dom m ∪ list_to_set (key <$> cs).
Proof.
  intros Hcs. revert m. induction Hcs as [|c cs Hc Hcs IH]; intros m Hm Hb m'.
  - split; [intros a; cbn; lia|]. set_solver.
  - subst m'. cbn [foldl]. set (m1 := <[key c := _]> m).
    assert (∀ a, unwrap_or 0 (m1 !! a) + zsum (amount <$> filter (λ c, key c = a) cs)
      = unwrap_or 0 (m !! a) + zsum (amount <$> filter (λ c, key c = a) (c :: cs)) ∧ 0 ≤ unwrap_or 0 (m1 !! a)) as H1.
    { intros a. specialize (Hb a). specialize (Hm a). rewrite filter_cons in *. unfold m1. destruct (decide (key c = a)) as [<-|Hne].
      - rewrite lookup_insert_eq. cbn [unwrap_or fmap list_fmap] in *. rewrite zsum_cons in *.
        assert (0 ≤ zsum (amount <$> filter (λ c0, key c0 = key c) cs)).
        { apply zsum_nonneg. rewrite Forall_fmap. apply Forall_forall. intros x [_ Hx]%list_elem_of_filter. rewrite Forall_forall in Hcs. by apply Hcs. }
        unfold saturating_add, clamp. cbn. lia.
      - by rewrite lookup_insert_ne. }
    destruct (IH m1) as [Hs Hd].
    + intros a. by apply H1.
    + intros a. rewrite (proj1 (H1 a)). apply Hb.
    + split; [intros a; by rewrite Hs, (proj1 (H1 a))|]. rewrite Hd. unfold m1. rewrite dom_insert_L. cbn. set_solver.
Qed.

Section balance.
Context (base : AssetId) (l : Ledger) (owner : Address).
Context (Ht : ledger_typed l) (od : OffChainDb) (HI : Indexed base l od).
Context (view : ReadView) (Hon : ledger (rv_on_chain view) = l) (Hoff : rv_off_chain view = od).

(** What the tables of owners list of an asset *)
Definition of_asset (a : AssetId) (cs : list CoinType) : list CoinType := filter (λ c, ct_asset_id c base = a) cs.
Lemma coins_listed allowed :
  ∃ cs, coins_iter view (MkAssetsQuery owner allowed None base) = Ok cs ∧ Forall (λ c, 0 ≤ ct_amount c) cs
    ∧ Forall (λ c, allowed_asset allowed (ct_asset_id c base) = true) cs
    ∧ ∀ a, allowed_asset allowed a = true → zsum (ct_amount <$> of_asset a cs) = coins_of l owner a.
Proof.
  destruct (coins_iter_spec base l owner od HI view Hon Hoff allowed None) as (cs & Hcs & Hnd & Hin). exists (CtCoin <$> cs). split; [done|].
  split_and!.
  - apply Forall_fmap, Forall_forall. intros c (Hu & _)%Hin. apply (proj1 Ht) in Hu. unfold in_range in Hu. cbn in *. lia.
  - apply Forall_fmap, Forall_forall. by intros c (_ & _ & Ha & _)%Hin.
  - intros a Hal. assert (of_asset a (CtCoin <$> cs) = CtCoin <$> filter (λ c, coin_asset_id c = a) cs) as ->.
    { unfold of_asset. clear. induction cs as [|c cs IH]; [done|]. cbn [fmap list_fmap]. rewrite !filter_cons. cbn [ct_asset_id].
      destruct (decide _); cbn [fmap list_fmap]; by rewrite <- IH. }
    rewrite <- list_fmap_compose. symmetry. apply (map_total_listed _ _ coin_utxo_id).
    + eapply sublist_NoDup; [exact Hnd|]. apply fmap_sublist, sublist_filter.
    + apply Forall_forall. intros c [Ha (Hu & Ho & _)%Hin]%list_elem_of_filter. exists (compress_coin c). split; [done|]. unfold coin_share. by rewrite decide_True.
    + intros u c Hu Hne. unfold coin_share in Hne. case_decide as Hc; [|done]. destruct Hc as [Ho Ha]. exists (uncompress c u). split; [|done].
      apply list_elem_of_filter. split; [done|]. apply Hin. cbn [coin_utxo_id uncompress]. split_and!; [by destruct c|done|by rewrite <- Ha in Hal|done].
Qed.
Lemma messages_listed allowed :
  ∃ cs, messages_iter view (MkAssetsQuery owner allowed None base) = Ok cs
    ∧ Forall (λ c, 0 ≤ ct_amount c) cs ∧ Forall (λ c, ct_asset_id c base = base) cs ∧ zsum (ct_amount <$> cs) = messages_of l owner false.
Proof.
  destruct (messages_iter_spec base l owner Ht od HI view Hon Hoff allowed None) as (cs & Hcs & Hnd & Hin). exists (CtMessageCoin <$> cs).
  assert (∀ m c, MessageCoin_try_from m = Some c → is_retryable_message m = false ∧ mc_amount c = msg_amount m ∧ mc_recipient c = msg_recipient m) as Htry.
  { intros m c. unfold MessageCoin_try_from. destruct (is_retryable_message m); [done|]. by intros [= <-]. }
  split; [done|]. split_and!.
  - apply Forall_fmap, Forall_forall. intros c [[_ (m & Hn & Hm)] _]%Hin. destruct (Htry m c Hm) as (_ & Ha & _).
    apply (proj2 Ht) in Hn as [Hr _]. unfold in_range in Hr. cbn in *. lia.
  - by apply Forall_fmap, Forall_forall.
  - rewrite <- list_fmap_compose. symmetry. apply (map_total_listed _ _ mc_nonce); [done| |].
    + apply Forall_forall. intros c [[Ho (m & Hn & Hm)] _]%Hin. destruct (Htry m c Hm) as (Hr & Ha & Hrec). exists m. split; [done|].
      unfold message_share. rewrite decide_True; [done|]. by rewrite <- Hrec.
    + intros n m Hn Hne. unfold message_share in Hne. case_decide as Hc; [|done]. destruct Hc as [Ho Hr].
      pose proof (proj2 (proj2 Ht _ _ Hn)) as Hk. destruct (MessageCoin_try_from m) as [c|] eqn:Hm.
      * exists c. destruct (Htry m c Hm) as (_ & _ & Hrec).
        assert (mc_nonce c = msg_nonce m) as Hnc by (unfold MessageCoin_try_from in Hm; rewrite Hr in Hm; by injection Hm as <-).
        rewrite Hnc. split; [|done]. apply Hin. rewrite Hrec, Hnc, Hk. eauto.
      * unfold MessageCoin_try_from in Hm. by rewrite Hr in Hm.
Qed.

(** The balance of an asset in the ledger *)
Definition total (a : AssetId) : Z := coins_of l owner a + if decide (base = a) then messages_of l owner false else 0.
Lemma of_asset_all a cs : Forall (λ c, ct_asset_id c base = a) cs → of_asset a cs = cs.
Proof. unfold of_asset. induction 1 as [|c cs Hc _ IH]; [done|]. rewrite filter_cons_True by done. by rewrite IH. Qed.
Lemma of_asset_none a a' cs : a ≠ a' → Forall (λ c, ct_asset_id c base = a) cs → of_asset a' cs = [].
Proof. unfold of_asset. intros Hne. induction 1 as [|c cs Hc _ IH]; [done|]. by rewrite filter_cons_False by congruence. Qed.
Lemma query_listed allowed :
  ∃ cs, query_coins view (MkAssetsQuery owner allowed None base) = Ok cs ∧ Forall (λ c, 0 ≤ ct_amount c) cs
    ∧ Forall (λ c, allowed_asset allowed (ct_asset_id c base) = true) cs
    ∧ ∀ a, allowed_asset allowed a = true → zsum (ct_amount <$> of_asset a cs) = total a.
Proof.
  destruct (coins_listed allowed) as (cs & Hcs & Hpos & Hal & Hsum). destruct (messages_listed allowed) as (ms & Hms & Hpos' & Hbase & Hsum').
  unfold query_coins, total. cbn [aq_allowed_assets aq_base_asset_id]. rewrite Hcs, Hms. destruct (allowed_asset allowed base) eqn:Hb.
  - eexists. split; [done|]. rewrite !Forall_app. split_and!; [done..| |].
    + eapply Forall_impl; [exact Hbase|]. intros c. by cbn; intros ->.
    + intros a Ha. unfold of_asset in *. rewrite filter_app, fmap_app, zsum_app, Hsum by done. f_equal. case_decide as Heq.
      * subst a. fold (of_asset base ms). by rewrite of_asset_all.
      * fold (of_asset a ms). by rewrite (of_asset_none base).
  - exists cs. split_and!; [done..|]. intros a Ha. rewrite decide_False by congruence. rewrite Hsum by done. lia.
Qed.

Context (Hsize : Z.of_nat (ledger_size l) < 2 ^ 63).
Lemma total_bounds a : 0 ≤ total a ≤ 2 ^ 128 - 1.
Proof.
  pose proof (coins_of_bounds l owner a Ht). pose proof (messages_of_bounds l owner false Ht). unfold ledger_size in Hsize.
  unfold total. case_decide; nia.
Qed.
Lemma balance_total a : balance view owner a base = Ok (total a).
Proof.
  pose proof (total_bounds a) as Hb. unfold balance, indexed_balance. destruct (rv_balances_index view).
  - rewrite Hoff, (ix_coin_balances _ _ _ HI), (ix_message_balances _ _ _ HI). unfold total in *. cbn [non_retryable].
    destruct (decide (base = a)); [|f_equal; lia]. unfold checked_add. rewrite fit_ok; [done|]. unfold in_range. cbn. lia.
  - unfold asset_query. cbn [at_id]. destruct (query_listed (Some {[a]})) as (cs & -> & Hpos & Hal & Hsum). cbn [mbind result_bind].
    assert (∀ b, allowed_asset (Some {[a]}) b = true ↔ b = a) as Ha by (intros b; cbn; rewrite bool_decide_eq_true; set_solver).
    specialize (Hsum a (proj2 (Ha a) eq_refl)). rewrite of_asset_all in Hsum.
    + rewrite (saturating_sum ct_amount), Hsum by (done || lia). done.
    + eapply Forall_impl; [exact Hal|]. intros c Hc. by apply Ha.
Qed.

(** *** All balances *)
Record Listing (bs : list (AssetId * Z)) : Prop := {
  ls_nodup : NoDup bs.*1;
  ls_amount : ∀ a n, (a, n) ∈ bs → n = total a;
  ls_complete : ∀ a, total a ≠ 0 → a ∈ bs.*1
}.
Lemma listing_perm bs bs' : bs ≡ₚ bs' → Listing bs → Listing bs'.
Proof. intros Hp [H1 H2 H3]. split; [by rewrite <- Hp|intros a n; rewrite <- Hp; apply H2|intros a Ha; rewrite <- Hp; by apply H3]. Qed.
Lemma listing_of assets : NoDup assets → (∀ a, total a ≠ 0 → a ∈ assets) → Listing ((λ a, (a, total a)) <$> assets).
Proof.
  intros Hnd Hall. assert (((λ a, (a, total a)) <$> assets).*1 = assets) as Heq by (rewrite <- list_fmap_compose; apply list_fmap_id).
  split; [by rewrite Heq| |by rewrite Heq]. by intros a n (? & [= -> ->] & _)%list_elem_of_fmap.
Qed.

Lemma without_cache_listing direction : ∃ bs, balances_without_cache view owner base direction = Ok bs ∧ Listing bs.
Proof.
  unfold balances_without_cache. destruct (query_listed None) as (cs & -> & Hpos & _ & Hsum). cbn [mbind result_bind].
  destruct (amounts_fold (λ c, ct_asset_id c base) ct_amount cs ∅) as [Hm Hd]; [done|by intros a; rewrite lookup_empty| |].
  { intros a. rewrite lookup_empty. fold (of_asset a cs). rewrite Hsum by done. cbn. pose proof (total_bounds a). lia. }
  cbv zeta in Hm, Hd |- *. set (m := foldl _ _ cs) in *.
  assert (∀ a, unwrap_or 0 (m !! a) = total a) as Hm'.
  { intros a. rewrite Hm, lookup_empty. fold (of_asset a cs). rewrite Hsum by done. cbn. lia. }
  assert (Listing ((λ a, (a, unwrap_or 0 (m !! a))) <$> merge_sort Z.le (elements (dom m)))) as HL.
  { rewrite (list_fmap_ext _ (λ a, (a, total a))) by (intros i a _; by rewrite Hm').
    apply listing_of; [rewrite (merge_sort_Permutation Z.le); apply NoDup_elements|].
    intros a Ha. rewrite (merge_sort_Permutation Z.le). apply elem_of_elements, elem_of_dom. rewrite <- Hm' in Ha. destruct (m !! a); [by eexists|done]. }
  destruct direction; eexists; (split; [done|]); [done|]. eapply listing_perm; [|exact HL]. apply Permutation_rev.
Qed.
Lemma owner_assets_spec direction :
  NoDup (owner_assets od owner None direction) ∧ ∀ a, a ∈ owner_assets od owner None direction ↔ is_Some (coin_balances od !! (owner, a)).
Proof.
  assert (∀ k : list AssetId, List.filter (λ _, true) k = k) as Hf by (induction k as [|x k IH]; cbn; congruence).
  assert (owner_assets od owner None direction ≡ₚ (elements (filter (λ k, k.1 = owner) (dom (coin_balances od)))).*2) as Hp.
  { unfold owner_assets. destruct direction; rewrite Hf, <- ?Permutation_rev; apply merge_sort_Permutation. }
  split; [rewrite Hp; apply owned_snd_nodup|]. intros a. rewrite Hp, <- elem_of_dom. apply owned_snd.
Qed.
Lemma indexed_listing direction : ∃ bs, indexed_balances od owner None base direction = Ok bs ∧ Listing bs.
Proof.
  destruct (owner_assets_spec direction) as [Hnd Hin]. pose proof (total_bounds base) as Hb.
  assert (indexed_balance od owner base base = Ok (total base)) as Hbase.
  { unfold indexed_balance, total in *. rewrite (ix_coin_balances _ _ _ HI), (ix_message_balances _ _ _ HI). cbn [non_retryable].
    destruct (decide (base = base)); [|done]. unfold checked_add. rewrite fit_ok; [done|]. unfold in_range. cbn. lia. }
  assert (non_base_asset_balances od owner None direction base
    = (λ a, (a, total a)) <$> List.filter (λ a, bool_decide (a ≠ base)) (owner_assets od owner None direction)) as Hnon.
  { unfold non_base_asset_balances. apply list_fmap_ext. intros i a [_ Ha%bool_decide_eq_true]%list_elem_of_lookup_2%filter_bool_elem.
    rewrite (ix_coin_balances _ _ _ HI). unfold total. rewrite decide_False by done. f_equal. lia. }
  set (assets := List.filter _ _) in Hnon.
  assert (NoDup assets ∧ base ∉ assets ∧ ∀ a, a ≠ base → total a ≠ 0 → a ∈ assets) as (Hna & Hnb & Hall).
  { split_and!; [by apply filter_bool_nodup|by intros [_ Ha%bool_decide_eq_true]%filter_bool_elem|].
    intros a Hne Ha. apply filter_bool_elem. rewrite bool_decide_eq_true. split; [|done]. apply Hin. unfold total in Ha. rewrite decide_False in Ha by done.
    rewrite <- (ix_coin_balances _ _ _ HI) in Ha. unfold coin_balance in Ha. destruct (coin_balances od !! _); [by eexists|cbn in Ha; lia]. }
  assert (Listing ((if decide (total base = 0) then [] else [(base, total base)]) ++ ((λ a, (a, total a)) <$> assets))) as HL.
  { destruct (decide (total base = 0)) as [Hz|Hz].
    - apply listing_of; [done|]. intros a Ha. destruct (decide (a = base)) as [->|]; [done|by apply Hall].
    - apply (listing_of (base :: assets)); [by constructor|]. intros a Ha. destruct (decide (a = base)) as [->|]; [left|right; by apply Hall]. }
  unfold indexed_balances, base_asset_balance. rewrite Hbase. cbn [mbind result_bind mret]. rewrite Hnon.
  destruct direction; eexists; (split; [done|]); [done|]. eapply listing_perm; [|exact HL]. apply Permutation_app_comm.
Qed.

(** C24 Balances are the totals of the ledger.  With or without the index of
    balances, the balance of an owner is the sum of the amounts of the owner's
    coins of the asset, and of the messages without data for the base asset; and
    the list of all balances names an asset at most once, each with this sum, and
    every asset of which there is some.  The hypotheses: indexes that follow the
    ledger and fewer than [2 ^ 63] coins and messages. *)
Theorem balances_are_totals :
  (∀ a, balance view owner a base = Ok (total a))
  ∧ ∀ direction, ∃ bs, balances view owner None direction base = Ok bs ∧ Listing bs.
Proof.
  split; [exact balance_total|]. intros direction. unfold balances. rewrite Hoff.
  destruct (rv_balances_index view); [apply indexed_listing|apply without_cache_listing].
Qed.
End balance.

(** ** The query for coins to spend *)
Lemma result_map_cases {E A B} (f : A → result E B) l :
  match result_map f l with Ok ys => Forall2 (λ x y, f x = Ok y) l ys | Err e => ∃ x, x ∈ l ∧ f x = Err e end.
Proof.
  induction l as [|x l IH]; cbn; [constructor|]. destruct (f x) as [y|e] eqn:Hx; cbn; [|exists x; split; [left|done]].
  destruct (result_map f l) as [ys|e]; cbn; [by constructor|]. destruct IH as (x' & Hin & He). exists x'. split; [by right|done].
Qed.
Lemma result_map_imap {E A B} (f : nat → A → result E B) (P : A → B → Prop) (Q : A → E → Prop) l :
  (∀ i x, x ∈ l → match f i x with Ok y => P x y | Err e => Q x e end) →
  match result_map (λ p, f p.1 p.2) (imap pair l) with Ok ys => Forall2 P l ys | Err e => ∃ x, x ∈ l ∧ Q x e end.
Proof.
  intros Hf. pose proof (result_map_cases (λ p, f p.1 p.2) (imap pair l)) as Hc. destruct (result_map _ _) as [ys|e].
  - apply Forall2_same_length_lookup in Hc as [Hlen Hc]. rewrite length_imap in Hlen. apply Forall2_same_length_lookup. split; [done|].
    intros i x y Hx Hy. specialize (Hc i (i, x) y). rewrite list_lookup_imap, Hx in Hc. specialize (Hc eq_refl Hy). cbn in Hc.
    specialize (Hf i x (list_elem_of_lookup_2 _ _ _ Hx)). by rewrite Hc in Hf.
  - destruct Hc as ([i x] & (j & Hj)%list_elem_of_lookup & He). rewrite list_lookup_imap in Hj. destruct (l !! j) as [x'|] eqn:Hx; [|done].
    injection Hj as <- <-. exists x'. specialize (Hf j x' (list_elem_of_lookup_2 _ _ _ Hx)). cbn in He. rewrite He in Hf.
    split; [by eapply list_elem_of_lookup_2|done].
Qed.
Lemma find_duplicate_spec seen l :
  match find_duplicate seen l with
  | Some a => ∃ i e, l !! i = Some e ∧ se_asset_id e = a ∧ (a ∈ seen ∨ a ∈ se_asset_id <$> take i l)
  | None => NoDup (se_asset_id <$> l) ∧ ∀ e, e ∈ l → se_asset_id e ∉ seen
  end.
Proof.
  revert seen. induction l as [|e l IH]; intros seen; cbn [find_duplicate].
  - split; [constructor|]. by intros e ?%elem_of_nil.
  - destruct (decide (se_asset_id e ∈ seen)) as [Hin|Hin]; [by exists 0%nat, e; auto|]. specialize (IH ({[se_asset_id e]} ∪ seen)).
    destruct (find_duplicate _ l) as [a|].
    + destruct IH as (i & e' & Hi & Ha & Hs). exists (S i), e'. split_and!; [done..|]. cbn. set_solver.
    + destruct IH as [Hnd Hs]. split.
      * cbn. constructor; [|done]. intros (e' & Heq & He')%list_elem_of_fmap. specialize (Hs e' He'). set_solver.
      * intros e' [->|He']%elem_of_cons; [done|]. specialize (Hs e' He'). set_solver.
Qed.

Section coins_to_spend.
Context (base : AssetId) (l : Ledger) (owner : Address).
Context (Ht : ledger_typed l) (od : OffChainDb) (HI : Indexed base l od).
Context (view : ReadView) (Hon : ledger (rv_on_chain view) = l) (Hoff : rv_off_chain view = od).
Context (rngs : nat → Rng) (Hrngs : ∀ i, rng_ok (rngs i)).

(** Coins that answer an element of a request *)
Definition Covers (exclude : Exclude) (max_input : Z) (q : SpendQueryElementInput) (sel : list CoinType) : Prop :=
  Selection base l owner (se_asset_id q) exclude (se_amount q) (element_max q max_input) sel.
Definition Uncovered (exclude : Exclude) (max_input : Z) (q : SpendQueryElementInput) (e : CoinsQueryError) : Prop :=
  (∃ n, e = InsufficientCoinsForTheMax (se_asset_id q) n (element_max q max_input)) ∧ ∀ sel, ¬ Covers exclude max_input q sel.
(** With the index, an element with the maximum zero is answered with no coins. *)
Definition zero_with_index (max_input : Z) (q : SpendQueryElementInput) : Prop :=
  rv_coins_to_spend_index view = true ∧ element_max q max_input = 0.
Definition Answers (exclude : Exclude) (max_input : Z) (q : SpendQueryElementInput) (sel : list CoinType) : Prop :=
  (zero_with_index max_input q → sel = []) ∧ (¬ zero_with_index max_input q → Covers exclude max_input q sel).
Definition Unanswered (exclude : Exclude) (max_input : Z) (q : SpendQueryElementInput) (e : CoinsQueryError) : Prop :=
  ¬ zero_with_index max_input q ∧ Uncovered exclude max_input q e.
(** The amounts are [u128] and the maxima [u16]. *)
Definition query_ok (max_input : Z) (q : SpendQueryElementInput) : Prop :=
  0 ≤ se_amount q ≤ 2 ^ 128 - 1 ∧ 0 ≤ element_max q max_input ≤ 65535.

Lemma coins_to_spend_each exclude max_input queries :
  Forall (query_ok max_input) queries →
  match coins_to_spend rngs owner queries exclude max_input base view with
  | Ok sels => Forall2 (Answers exclude max_input) queries sels
  | Err e => ∃ q, q ∈ queries ∧ Unanswered exclude max_input q e
  end.
Proof.
  intros Hq. unfold coins_to_spend. rewrite Forall_forall in Hq. destruct (rv_coins_to_spend_index view) eqn:Hix.
  - apply (result_map_imap (λ i q, spend_asset_with_cache (rngs i) owner exclude max_input view q)). intros i q Hin.
    destruct (Hq q Hin) as (Ha & Hm). unfold Answers, Unanswered, zero_with_index. rewrite Hix.
    destruct (decide (element_max q max_input = 0)) as [Hz|Hz].
    { unfold spend_asset_with_cache, select_coins_to_spend. rewrite decide_True by auto. cbn. split; [done|]. by intros []. }
    pose proof (with_cache_exact base l owner (se_asset_id q) Ht od HI view Hon Hoff (rngs i) exclude max_input q (Hrngs i) eq_refl Ha) as H.
    lapply H; [clear H; intros H|lia]. destruct (spend_asset_with_cache _ _ _ _ _ _); (split; [by intros []|]); done.
  - unfold coins_to_spend_without_cache, random_improve. set (targets := _ <$> queries). cbn [query_per_asset].
    opose proof (result_map_imap (λ i a, random_improve_asset (rngs i) view (MkSpendQuery owner targets exclude base) a)
      (λ a sel, Selection base l owner (at_id a) exclude (at_target a) (at_max a) sel)
      (λ a e, (∃ n, e = InsufficientCoinsForTheMax (at_id a) n (at_max a)) ∧ ∀ sel, ¬ Selection base l owner (at_id a) exclude (at_target a) (at_max a) sel)
      targets _) as H.
    { intros i a (q & -> & Hin)%list_elem_of_fmap. destruct (Hq q Hin) as (_ & Hm).
      exact (without_cache_exact base l owner (se_asset_id q) Ht od HI view Hon Hoff (rngs i) exclude
        (MkAssetSpendTarget (se_asset_id q) (se_amount q) (element_max q max_input)) targets (Hrngs i) eq_refl Hm). }
    destruct (result_map _ _) as [sels|e].
    + unfold targets in H. rewrite Forall2_fmap_l in H. eapply Forall2_impl; [exact H|]. intros q sel Hsel.
      split; [|done]. intros [Hz _]. by rewrite Hix in Hz.
    + destruct H as (a & (q & -> & Hin)%list_elem_of_fmap & He). exists q. split; [done|]. split; [|exact He].
      intros [Hz _]. by rewrite Hix in Hz.
Qed.

(** C18 Coins to spend are found exactly when there are some.  The request is
    refused when it excludes too many coins or names an asset twice.  Otherwise
    its elements up to the maximal number of inputs are answered, with or without
    the index of coins: an answer has for each element distinct coins of the owner
    and the asset in the ledger, none of them excluded, not more than the maximum,
    that cover the amount; and the only other outcome is the error that the coins
    do not suffice, reported for an element that no such coins exist for.  The one
    exception: with the index, an element with the maximum zero is answered with
    no coins, whatever its amount.  Amounts are 128 bit and maxima 16 bit numbers,
    the indexes agree with the ledger, whose amounts have 64 bits, the random
    numbers are in the range asked for and a shuffle permutes. *)
Theorem coins_to_spend_exact queries excluded max_input :
  let exclude := Exclude_new excluded in
  let kept := take (Z.to_nat max_input) queries in
  Forall (query_ok max_input) kept →
  match coins_to_spend_endpoint rngs owner queries excluded max_input base view with
  | Ok sels => Z.of_nat (length excluded) ≤ max_input ∧ NoDup (se_asset_id <$> queries) ∧ Forall2 (Answers exclude max_input) kept sels
  | Err (TooManyExcludedId n m) => n = Z.of_nat (length excluded) ∧ m = max_input ∧ m < n
  | Err (DuplicateAssets a) => ∃ i e, queries !! i = Some e ∧ se_asset_id e = a ∧ a ∈ se_asset_id <$> take i queries
  | Err e => ∃ q, q ∈ kept ∧ Unanswered exclude max_input q e
  end.
Proof.
  intros exclude kept Hq. unfold coins_to_spend_endpoint. cbv zeta. case_decide as Hex; [done|].
  pose proof (find_duplicate_spec ∅ queries) as Hd. destruct (find_duplicate ∅ queries) as [a|].
  - destruct Hd as (i & e & Hi & Ha & [Hs|Hs]); [set_solver|]. eauto.
  - pose proof (coins_to_spend_each exclude max_input kept Hq) as H. fold exclude kept. destruct (coins_to_spend _ _ _ _ _ _ _) as [sels|e].
    + split_and!; [lia|by destruct Hd|done].
    + destruct H as (q & Hin & Hz & (n & ->) & Hno). exists q. split; [done|]. split; [done|]. split; [by eexists|done].
Qed.
End coins_to_spend.
