(* ===== verification/OffChainSamples.v ===== *)
(** * The off-chain worker and the queries on a concrete chain

    The block of [ExecutorSamples.v] is processed by the worker of a node whose
    indexes hold the coin of the first database, and the balances and coins to
    spend are queried after it. *)
From stdpp Require Import strings.
From S2P Require Import Prelude FuelTypes BlockTypes ExecutorTypes Executor ExecutorFrame ExecutorRoundtrip ExecutorSamples Importer ExecutorLedger OffChain OffChainFacts CoinsQuery CoinsQueryFacts.

#[local] Existing Instance sample_hashing.
#[local] Existing Instance sample_vm.
#[local] Existing Instance sample_vm_laws.
(** A receipt with three words mints. *)
Definition sample_receipts : ReceiptsAndContracts := {|
  supply_receipt := λ r, match r with ReceiptOther [sub_id; contract; val] => Some (ReceiptMint sub_id contract val) | _ => None end;
  contract_asset_id := λ contract sub_id, contract + sub_id;
  create_salt := λ _, 0;
  computed_contract_id := λ _, Some 1;
  result_reason := λ _ _, "reason"%string
|}.
#[local] Existing Instance sample_receipts.

Definition sample_off_chain_config : OffChainConfig := MkOffChainConfig 9 false true true true 0.
Definition indexed_coin : ExecutorEvent := CoinCreated (MkCoin (1, 0) 5 30 0 (2, 0)).
Definition first_index : OffChainDb :=
  Eval vm_compute in (process_executor_events [indexed_coin] true true 0 (OffChainDb_empty <| off_chain_height := Some 4 |>)).2.
Definition first_task : OffChainTask := MkOffChainTask first_index (HandlersMap_new 4) [] [] [].
Definition sample_sealed : SealedBlock := MkSealedBlock sample_block (ConsensusPoA [1]).
Definition sample_chain : list ImportResult * Db :=
  Eval vm_compute in
    match validate_chain sample_relayer sample_params sample_options [sample_sealed] sample_db with Ok r => r | Err _ => ([], sample_db) end.
(** The database and the indexes after the block. *)
Definition second_index : OffChainDb :=
  Eval vm_compute in (process_executor_events (events (ex_data sample_state)) true true 0 first_index).2.
Definition sample_view (balances_index coins_index : bool) : ReadView :=
  MkReadView (ex_db sample_state) second_index balances_index coins_index.

Definition second_task : OffChainTask :=
  Eval vm_compute in
    match process_blocks sample_off_chain_config sample_chain.1 first_task with Ok self => self | Err _ => first_task end.

Lemma first_processed :
  process_executor_events [indexed_coin] true true 0 (OffChainDb_empty <| off_chain_height := Some 4 |>) = ([], first_index).
Proof. vm_cast_no_check (eq_refl (@nil IndexationError, first_index)). Qed.
Lemma second_processed : process_executor_events (events (ex_data sample_state)) true true 0 first_index = ([], second_index).
Proof. vm_cast_no_check (eq_refl (@nil IndexationError, second_index)). Qed.
Lemma second_task_processed : process_blocks sample_off_chain_config sample_chain.1 first_task = Ok second_task.
Proof. vm_cast_no_check (eq_refl (@Ok WorkerError _ second_task)). Qed.

Lemma empty_indexed h : Indexed 0 (∅, ∅) (OffChainDb_empty <| off_chain_height := h |>).
Proof.
  split.
  - done.
  - done.
  - intros k. cbn. split; [set_solver|]. by intros [(u & c & ? & _)|(n & m & ? & _)].
  - intros o u. cbn. split; [set_solver|]. by intros (c & ? & _).
  - intros o n. cbn. split; [set_solver|]. by intros (m & ? & _).
Qed.
Lemma first_indexed : Indexed 0 (ledger sample_db) first_index ∧ ledger_typed (ledger sample_db).
Proof.
  destruct (events_indexed 0 [indexed_coin] (∅, ∅) (ledger sample_db) (OffChainDb_empty <| off_chain_height := Some 4 |>)) as (od & Hp & HI & Ht).
  - apply empty_indexed.
  - by split; intros ? ?.
  - by repeat constructor.
  - by vm_compute.
  - by vm_compute.
  - by vm_compute.
  - split; [|done]. rewrite first_processed in Hp. by injection Hp as <-.
Qed.
Lemma sample_events_fresh : imports_fresh (events (ex_data sample_state)) (ledger sample_db).
Proof. vm_compute. done. Qed.
Lemma sample_events_typed : Forall event_typed (events (ex_data sample_state)).
Proof. repeat constructor; by vm_compute. Qed.
Lemma second_indexed : Indexed 0 (ledger (ex_db sample_state)) second_index ∧ ledger_typed (ledger (ex_db sample_state)).
Proof.
  destruct first_indexed as [HI Ht].
  destruct (events_indexed 0 (events (ex_data sample_state)) (ledger sample_db) (ledger (ex_db sample_state)) first_index) as (od & Hp & HI' & Ht').
  - exact HI.
  - exact Ht.
  - exact sample_events_typed.
  - exact sample_events_fresh.
  - by vm_compute.
  - by vm_compute.
  - split; [|done]. rewrite second_processed in Hp. by injection Hp as <-.
Qed.

Lemma sample_supplies_fit : supplies_fit (supply (ot_database first_task)) (supply_receipts sample_chain.1).
Proof.
  assert (supply_receipts sample_chain.1 = mjoin (replicate 3 [ReceiptScriptResult 5; ReceiptMessageOut 42; ReceiptOther [2; 1; 9]]))
    as -> by reflexivity.
  intros asset n. assert (supply (ot_database first_task) asset = 0) as -> by reflexivity.
  do 9 (destruct n as [|n]; [cbn; repeat case_decide; by vm_compute|]). cbn. rewrite take_nil. cbn. repeat case_decide; by vm_compute.
Qed.
Lemma indexes_follow_chain_witness :
  ∃ self, process_blocks sample_off_chain_config sample_chain.1 first_task = Ok self ∧ Synced 0 sample_chain.2 (ot_database self)
    ∧ coin_balance (ot_database self) 5 0 = 7 ∧ coin_balance (ot_database self) 6 0 = 21
    ∧ non_retryable (message_balance (ot_database self) 22) = 24 ∧ supply (ot_database self) 3 = 27.
Proof.
  destruct first_indexed as [HI Ht].
  destruct (indexes_follow_chain sample_relayer sample_params sample_options sample_off_chain_config
    [sample_sealed] sample_db sample_chain.1 sample_chain.2 first_task) as (self & Hp & _ & HS & Hsup).
  - reflexivity.
  - reflexivity.
  - reflexivity.
  - intros _. exact sample_supplies_fit.
  - vm_compute. reflexivity.
  - repeat constructor.
  - exact Ht.
  - exact sample_events_typed.
  - exact sample_events_fresh.
  - vm_compute. reflexivity.
  - repeat constructor; by intros [=].
  - by vm_compute.
  - split; [exact HI|]. done.
  - exists self. split; [exact Hp|]. split; [exact HS|]. split_and!; [rewrite second_task_processed in Hp; injection Hp as <-; done..|]. rewrite Hsup. by vm_compute.
Defined.

(** Balances with the index and without it. *)
Lemma balances_are_totals_witness :
  balance (sample_view true true) 22 0 0 = Ok 24 ∧ total 0 (ledger (ex_db sample_state)) 22 0 = 24
  ∧ ∃ bs, balances (sample_view false true) 6 None Forward 0 = Ok bs ∧ Listing 0 (ledger (ex_db sample_state)) 6 bs ∧ bs = [(0, 21)].
Proof.
  destruct second_indexed as [HI Ht].
  destruct (balances_are_totals 0 _ 22 Ht _ HI (sample_view true true) eq_refl eq_refl) as [Hb _]; [by vm_compute|].
  destruct (balances_are_totals 0 _ 6 Ht _ HI (sample_view false true) eq_refl eq_refl) as [_ Hl]; [by vm_compute|].
  split_and!; [exact (Hb 0)|reflexivity|]. destruct (Hl Forward) as (bs & Heq & HL). exists bs. split_and!; [done..|].
  vm_compute in Heq. by injection Heq as <-.
Defined.

Definition sample_rng : Rng := MkRng (λ _, 0) (λ l, l).
Lemma sample_rng_ok : rng_ok sample_rng.
Proof. by split. Qed.

(** A request that is answered, with the index, and one that asks for more than
    there is, without it. *)
Definition sample_request (amount : Z) : list SpendQueryElementInput := [MkSpendQueryElementInput 0 amount None].
Lemma coins_to_spend_exact_witness :
  (∃ sel, coins_to_spend_endpoint (λ _, sample_rng) 6 (sample_request 21) [] 255 0 (sample_view true true) = Ok [sel]
    ∧ Covers 0 (ledger (ex_db sample_state)) 6 ∅ 255 (MkSpendQueryElementInput 0 21 None) sel ∧ length sel = 2%nat)
  ∧ ∀ sel, ¬ Covers 0 (ledger (ex_db sample_state)) 6 ∅ 255 (MkSpendQueryElementInput 0 22 None) sel.
Proof.
  destruct second_indexed as [HI Ht]. split.
  - pose proof (coins_to_spend_exact 0 _ 6 Ht _ HI (sample_view true true) eq_refl eq_refl (λ _, sample_rng) (λ _, sample_rng_ok)
      (sample_request 21) [] 255) as H.
    eexists. split; [vm_compute; reflexivity|]. split; [|reflexivity].
    vm_compute coins_to_spend_endpoint in H. destruct H as (_ & _ & H); [by repeat constructor|].
    apply Forall2_cons in H as [H _]. apply (proj2 H). by intros [_ [=]].
  - pose proof (coins_to_spend_exact 0 _ 6 Ht _ HI (sample_view true false) eq_refl eq_refl (λ _, sample_rng) (λ _, sample_rng_ok)
      (sample_request 22) [] 255) as H.
    vm_compute coins_to_spend_endpoint in H. destruct H as (q & ->%list_elem_of_singleton & _ & _ & H); [by repeat constructor|]. exact H.
Defined.

(** A maximum of zero: nothing is selected for a positive amount with the index
    of coins, where the other implementation reports that the coins do not
    suffice. *)
Lemma zero_max_with_and_without_index :
  let query := [MkSpendQueryElementInput 0 5 (Some 0)] in
  coins_to_spend_endpoint (λ _, sample_rng) 6 query [] 255 0 (sample_view true true) = Ok [[]]
  ∧ coins_to_spend_endpoint (λ _, sample_rng) 6 query [] 255 0 (sample_view true false) = Err (InsufficientCoinsForTheMax 0 0 0).
Proof. by split; vm_compute. Qed.

(** An asset whose only coin is spent: it stays in the list of balances with the
    index, and is not listed without it. *)
Lemma spent_asset_with_and_without_index :
  let coin := MkCoin (1, 0) 5 30 3 (2, 0) in
  let view index := MkReadView (MkDb ∅ ∅ ∅ ∅ ∅ (MkVmTables ∅ ∅ ∅))
    (process_executor_events [CoinCreated coin; CoinConsumed coin] true true 0 OffChainDb_empty).2 index true in
  balances (view true) 5 None Forward 0 = Ok [(3, 0)] ∧ balances (view false) 5 None Forward 0 = Ok [].
Proof. by split; vm_compute. Qed.
