(* ===== verification/Compression.v ===== *)
(** * Compression of blocks for the DA layer

    [crates/compression/src], with the tables behind it in
    [crates/fuel-core/src/graphql_api/da_compression.rs]: repeated values of a
    block (addresses, assets, contracts and code) are replaced by keys of three
    bytes into a registry, which the reader of the compressed blocks rebuilds
    from the registrations they carry.

    The [Compress] and [Decompress] derives of fuel-tx, which walk over a
    transaction, are not part of the sources.  A transaction is therefore its
    plain fields and, in the order in which the derives visit them, the fields
    whose compression the sources define.  Keys are those of fuel-compression,
    a parameter. *)
From stdpp Require Import fin_maps functions.
From S2P Require Import Prelude FuelTypes BlockTypes ExecutorTypes.

(** ** Registry keys *)
Abbreviation RegistryKey := Z (only parsing).
(** [fuel_compression::RegistryKey] *)
Class RegistryKeys := {
  key_zero : RegistryKey;       (* [ZERO] *)
  DEFAULT_VALUE : RegistryKey;
  key_next : RegistryKey → RegistryKey;
  key_valid : RegistryKey → Prop;  (* the keys of the registry *)
  key_count : nat                  (* how many there are *)
}.
(** Its documented behaviour: [next] wraps around below the default value, and
    visits all keys before it comes back. *)
Class RegistryKeysLaws `{RegistryKeys} := {
  zero_valid : key_valid key_zero;
  next_valid k : key_valid k → key_valid (key_next k);
  default_not_valid k : key_valid k → k ≠ DEFAULT_VALUE;
  next_cycle k i j : key_valid k → (i < j < key_count)%nat → Nat.iter i key_next k ≠ Nat.iter j key_next k
}.

(** ** Values of the registry *)
Inductive RegistryKeyspace := KsAddress | KsAssetId | KsContractId | KsScriptCode | KsPredicateCode.
#[export] Instance RegistryKeyspace_eq_dec : EqDecision RegistryKeyspace.
Proof. solve_decision. Defined.
#[export] Instance RegistryKeyspace_countable : Countable RegistryKeyspace.
Proof.
  refine (inj_countable' (λ k, match k with KsAddress => 0 | KsAssetId => 1 | KsContractId => 2 | KsScriptCode => 3 | KsPredicateCode => 4 end)%nat
    (λ n, match n with 0 => KsAddress | 1 => KsAssetId | 2 => KsContractId | 3 => KsScriptCode | _ => KsPredicateCode end)%nat _).
  by intros [].
Defined.
Definition keyspaces : list RegistryKeyspace := [KsAddress; KsAssetId; KsContractId; KsScriptCode; KsPredicateCode].

Inductive RegistryValue :=
| RvAddress (a : Address)
| RvAssetId (a : AssetId)
| RvContractId (c : ContractId)
| RvScriptCode (bytes : list Z)
| RvPredicateCode (bytes : list Z).
#[export] Instance RegistryValue_eq_dec : EqDecision RegistryValue.
Proof. solve_decision. Defined.
#[export] Instance RegistryValue_countable : Countable RegistryValue.
Proof.
  refine (inj_countable'
    (λ v, match v with
          | RvAddress a => (KsAddress, [a]) | RvAssetId a => (KsAssetId, [a]) | RvContractId c => (KsContractId, [c])
          | RvScriptCode b => (KsScriptCode, b) | RvPredicateCode b => (KsPredicateCode, b)
          end)
    (λ p, match p with
          | (KsAddress, a :: _) => RvAddress a | (KsAssetId, a :: _) => RvAssetId a | (KsContractId, c :: _) => RvContractId c
          | (KsScriptCode, b) => RvScriptCode b | (_, b) => RvPredicateCode b
          end) _).
  by intros [].
Defined.
Definition keyspace (v : RegistryValue) : RegistryKeyspace :=
  match v with
  | RvAddress _ => KsAddress | RvAssetId _ => KsAssetId | RvContractId _ => KsContractId
  | RvScriptCode _ => KsScriptCode | RvPredicateCode _ => KsPredicateCode
  end.
(** [<$type>::default()] of a keyspace *)
Definition default_value (ks : RegistryKeyspace) : RegistryValue :=
  match ks with
  | KsAddress => RvAddress 0 | KsAssetId => RvAssetId 0 | KsContractId => RvContractId 0
  | KsScriptCode => RvScriptCode [] | KsPredicateCode => RvPredicateCode []
  end.

Inductive CompressionError :=
| NotFoundRegistry | NotFoundTimestamp | NotFoundFuelBlock | NotFoundCoin | NotFoundMessage
| TransactionNotFoundInBlock | UtxoIdNotFound
| InvalidTimestampOrdering | TimestampNotAccessible
| NoTransactions | LastNotMint | TransactionIndexTooLarge
| OutOfKeys.                      (* the search for a key would not end *)

(** ** The tables *)
Section registry.
Context `{!Hashing, !RegistryKeys}.

(** [ReverseKey]: its variant, and the identifier or the hash of the code. *)
Definition ReverseKey : Type := RegistryKeyspace * Bytes32.
Definition reverse_key (v : RegistryValue) : ReverseKey :=
  match v with
  | RvAddress a | RvAssetId a | RvContractId a => (keyspace v, a)
  | RvScriptCode b | RvPredicateCode b => (keyspace v, sha256 b)
  end.

Record TemporalDb := MkTemporalDb {
  registry : gmap (RegistryKeyspace * RegistryKey) RegistryValue;
  timestamps : gmap (RegistryKeyspace * RegistryKey) Z;
  registry_index : gmap ReverseKey RegistryKey;
  evictor_cache : gmap RegistryKeyspace RegistryKey
}.
Definition TemporalDb_empty : TemporalDb := MkTemporalDb ∅ ∅ ∅ ∅.

Definition read_registry (ks : RegistryKeyspace) (key : RegistryKey) (db : TemporalDb) : result CompressionError RegistryValue :=
  ok_or (registry db !! (ks, key)) NotFoundRegistry.
Definition read_timestamp (ks : RegistryKeyspace) (key : RegistryKey) (db : TemporalDb) : result CompressionError Z :=
  ok_or (timestamps db !! (ks, key)) NotFoundTimestamp.
Definition write_registry (key : RegistryKey) (value : RegistryValue) (timestamp : Z) (db : TemporalDb) : TemporalDb :=
  let old_value := registry db !! (keyspace value, key) in
  let index :=
    match old_value with Some old_value => delete (reverse_key old_value) (registry_index db) | None => registry_index db end in
  MkTemporalDb (<[(keyspace value, key) := value]> (registry db)) (<[(keyspace value, key) := timestamp]> (timestamps db))
    (<[reverse_key value := key]> index) (evictor_cache db).
Definition registry_index_lookup (value : RegistryValue) (db : TemporalDb) : option RegistryKey :=
  registry_index db !! reverse_key value.
Definition get_latest_assigned_key (ks : RegistryKeyspace) (db : TemporalDb) : option RegistryKey := evictor_cache db !! ks.
Definition set_latest_assigned_key (ks : RegistryKeyspace) (key : RegistryKey) (db : TemporalDb) : TemporalDb :=
  MkTemporalDb (registry db) (timestamps db) (registry_index db) (<[ks := key]> (evictor_cache db)).

(** [RegistrationsPerTable], a list for each keyspace *)
Definition RegistrationsPerTable : Type := RegistryKeyspace → list (RegistryKey * RegistryValue).
Definition write_to_registry (self : RegistrationsPerTable) (timestamp : Z) (db : TemporalDb) : TemporalDb :=
  foldl (λ db ks, foldl (λ db p, write_registry p.1 p.2 timestamp db) db (self ks)) db keyspaces.

(** ** Retention

    Times are in seconds and the retention is in nanoseconds, as a
    [Duration] counts them. *)
Record CompressionConfig := MkCompressionConfig { temporal_registry_retention : Z }.
Definition is_timestamp_accessible (self : CompressionConfig) (block_timestamp key_timestamp : Z) : result CompressionError bool :=
  if decide (key_timestamp ≤ block_timestamp) then
    Ok (bool_decide ((block_timestamp - key_timestamp) * 1000000000 ≤ temporal_registry_retention self))
  else Err InvalidTimestampOrdering.

(** ** The evictor *)
Record CacheEvictor := MkCacheEvictor { keep_keys : gset RegistryKey; next_key : RegistryKey }.
Definition new_from_db (ks : RegistryKeyspace) (keep_keys : gset RegistryKey) (db : TemporalDb) : CacheEvictor :=
  MkCacheEvictor keep_keys
    match get_latest_assigned_key ks db with Some latest_key => key_next latest_key | None => key_zero end.
(** The loop runs over the kept keys at most once. *)
Fixpoint find_key (fuel : nat) (keep_keys : gset RegistryKey) (key : RegistryKey) : option RegistryKey :=
  match fuel with
  | O => None
  | S fuel => if decide (key ∈ keep_keys) then find_key fuel keep_keys (key_next key) else Some key
  end.
Definition evictor_next_key (self : CacheEvictor) : option (RegistryKey * CacheEvictor) :=
  key ← find_key (S (size (keep_keys self))) (keep_keys self) (next_key self);
  Some (key, MkCacheEvictor ({[key]} ∪ keep_keys self) key).
Definition evictor_commit (ks : RegistryKeyspace) (self : CacheEvictor) (db : TemporalDb) : TemporalDb :=
  set_latest_assigned_key ks (next_key self) db.
End registry.

(** ** Transactions as the derives see them

    [cf_predicate] is [None] for the signed variants, and [mf_data] for the
    messages without data; [cf_plain] and [mf_plain] are the fields that are
    compressed to themselves. *)
Record CoinField := MkCoinField {
  cf_utxo_id : UtxoId;
  cf_owner : Address;
  cf_amount : Z;
  cf_asset_id : AssetId;
  cf_tx_pointer : TxPointer;
  cf_predicate : option (list Z);
  cf_plain : list Z
}.
Record MessageField := MkMessageField {
  mf_sender : Address;
  mf_recipient : Address;
  mf_amount : Z;
  mf_nonce : Nonce;
  mf_data : option (list Z);
  mf_predicate : option (list Z);
  mf_plain : list Z
}.
Inductive Field := FieldValue (v : RegistryValue) | FieldCoin (c : CoinField) | FieldMessage (m : MessageField).
Inductive DaTransaction :=
| DaTx (plain : list Z) (fields : list Field)
| DaMint (tx_pointer : TxPointer) (plain : list Z) (fields : list Field).
Record DaBlock := MkDaBlock { da_header : BlockHeader; da_transactions : list DaTransaction }.

(** [CompressedUtxoId { tx_pointer, output_index }] *)
Definition CompressedUtxoId : Type := TxPointer * Z.
Inductive CompressedField :=
| CompressedValue (ks : RegistryKeyspace) (key : RegistryKey)
| CompressedCoinField (utxo_id : CompressedUtxoId) (predicate : option RegistryKey) (plain : list Z)
| CompressedMessageField (nonce : Nonce) (has_data : bool) (predicate : option RegistryKey) (plain : list Z).
Inductive CompressedTransaction :=
| CompressedTx (plain : list Z) (fields : list CompressedField)
| CompressedMint (plain : list Z) (fields : list CompressedField).

Record CompressedBlockPayloadV0 := MkCompressedBlockPayloadV0 {
  registrations : RegistrationsPerTable;
  cb_header : PartialBlockHeader;
  cb_transactions : list CompressedTransaction
}.
Inductive VersionedCompressedBlock := V0 (payload : CompressedBlockPayloadV0).
Definition VersionedCompressedBlock_new (header : BlockHeader) (registrations : RegistrationsPerTable)
    (transactions : list CompressedTransaction) : VersionedCompressedBlock :=
  V0 (MkCompressedBlockPayloadV0 registrations (PartialBlockHeader_from header) transactions).

(** The fallible traversal of the derives, left to right. *)
Fixpoint st_map {S E A B} (f : A → ST S E B) (l : list A) : ST S E (list B) :=
  match l with
  | [] => mret []
  | x :: l => y ← f x; ys ← st_map f l; mret (y :: ys)
  end.
Definition st_option {S E A B} (f : A → ST S E B) (o : option A) : ST S E (option B) :=
  match o with Some x => y ← f x; mret (Some y) | None => mret None end.

Section compression.
Context `{!Hashing, !RegistryKeys}.
(** The plain fields without those that the derives skip. *)
Context (kept : list Z → list Z).
(** The order in which a [HashMap] gives its entries. *)
Context (map_iter : gmap RegistryKey RegistryValue → list (RegistryKey * RegistryValue)).

(** [CompressDbTx]: the tables and the events of the block. *)
Definition utxo_lookup (block_events : list ExecutorEvent) (utxo_id : UtxoId) : result CompressionError CompressedUtxoId :=
  foldr (λ event next,
      match event with
      | CoinCreated coin | CoinConsumed coin =>
          if decide (coin_utxo_id coin = utxo_id) then Ok (coin_tx_pointer coin, (coin_utxo_id coin).2) else next
      | _ => next
      end) (Err UtxoIdNotFound) block_events.

(** ** The walk over a transaction

    What the derives do with the operations of a context: a value gives a
    key, the identifier of a coin a pointer. *)
Section walk.
Context {S : Type} (value : RegistryValue → ST S CompressionError RegistryKey)
  (utxo : UtxoId → ST S CompressionError CompressedUtxoId).
Definition compress_field (f : Field) : ST S CompressionError CompressedField :=
  match f with
  | FieldValue v => key ← value v; mret (CompressedValue (keyspace v) key)
  | FieldCoin c =>
      utxo_id ← utxo (cf_utxo_id c);
      predicate ← st_option (λ b, value (RvPredicateCode b)) (cf_predicate c);
      mret (CompressedCoinField utxo_id predicate (cf_plain c))
  | FieldMessage m =>
      predicate ← st_option (λ b, value (RvPredicateCode b)) (mf_predicate m);
      mret (CompressedMessageField (mf_nonce m) (bool_decide (is_Some (mf_data m))) predicate (mf_plain m))
  end.
Definition compress_transaction (tx : DaTransaction) : ST S CompressionError CompressedTransaction :=
  match tx with
  | DaTx plain fields => fields ← st_map compress_field fields; mret (CompressedTx (kept plain) fields)
  | DaMint _ plain fields => fields ← st_map compress_field fields; mret (CompressedMint (kept plain) fields)
  end.
End walk.

(** ** The preparation pass *)
Record PrepareCtx := MkPrepareCtx {
  pc_config : CompressionConfig;
  pc_timestamp : Z;
  pc_db : TemporalDb;
  accessed_keys : RegistryKeyspace → gset RegistryKey
}.
Definition prepare_value (self : RegistryValue) : ST PrepareCtx CompressionError RegistryKey := λ ctx,
  let ks := keyspace self in
  if decide (self = default_value ks) then (Ok key_zero, ctx)
  else match registry_index_lookup self (pc_db ctx) with
  | Some found =>
      if decide (found ∈ accessed_keys ctx ks) then (Ok key_zero, ctx)
      else match read_timestamp ks found (pc_db ctx) with
      | Err e => (Err e, ctx)
      | Ok key_timestamp =>
          match is_timestamp_accessible (pc_config ctx) (pc_timestamp ctx) key_timestamp with
          | Err e => (Err e, ctx)
          | Ok true =>
              (Ok key_zero, MkPrepareCtx (pc_config ctx) (pc_timestamp ctx) (pc_db ctx)
                 (<[ks := {[found]} ∪ accessed_keys ctx ks]> (accessed_keys ctx)))
          | Ok false => (Ok key_zero, ctx)
          end
      end
  | None => (Ok key_zero, ctx)
  end.
Definition prepare_utxo (_ : UtxoId) : ST PrepareCtx CompressionError CompressedUtxoId := mret ((0, 0), 0).

(** ** The compression pass *)
Record CompressCtxKeyspace := MkCompressCtxKeyspace {
  cache_evictor : CacheEvictor;
  changes : gmap RegistryKey RegistryValue;
  changes_lookup : gmap RegistryValue RegistryKey
}.
Record CompressCtx := MkCompressCtx {
  cx_config : CompressionConfig;
  cx_timestamp : Z;
  cx_db : TemporalDb;
  cx_events : list ExecutorEvent;
  cx_spaces : RegistryKeyspace → CompressCtxKeyspace
}.
Definition into_compression_context (self : PrepareCtx) (block_events : list ExecutorEvent) : CompressCtx :=
  MkCompressCtx (pc_config self) (pc_timestamp self) (pc_db self) block_events
    (λ ks, MkCompressCtxKeyspace (new_from_db ks (accessed_keys self ks) (pc_db self)) ∅ ∅).

(** [cache_evictor.next_key()] and the insertions of the new value. *)
Definition register_value (self : RegistryValue) : ST CompressCtx CompressionError RegistryKey := λ ctx,
  let ks := keyspace self in
  let space := cx_spaces ctx ks in
  match evictor_next_key (cache_evictor space) with
  | None => (Err OutOfKeys, ctx)
  | Some (key, evictor) =>
      (Ok key, MkCompressCtx (cx_config ctx) (cx_timestamp ctx) (cx_db ctx) (cx_events ctx)
         (<[ks := MkCompressCtxKeyspace evictor (<[key := self]> (changes space)) (<[self := key]> (changes_lookup space))]>
            (cx_spaces ctx)))
  end.
Definition compress_value (self : RegistryValue) : ST CompressCtx CompressionError RegistryKey := λ ctx,
  let ks := keyspace self in
  if decide (self = default_value ks) then (Ok DEFAULT_VALUE, ctx)
  else match changes_lookup (cx_spaces ctx ks) !! self with
  | Some found => (Ok found, ctx)
  | None =>
      match registry_index_lookup self (cx_db ctx) with
      | Some found =>
          match read_timestamp ks found (cx_db ctx) with
          | Err e => (Err e, ctx)
          | Ok key_timestamp =>
              match is_timestamp_accessible (cx_config ctx) (cx_timestamp ctx) key_timestamp with
              | Err e => (Err e, ctx)
              | Ok true => (Ok found, ctx)
              | Ok false => register_value self ctx
              end
          end
      | None => register_value self ctx
      end
  end.
Definition compress_utxo (utxo_id : UtxoId) : ST CompressCtx CompressionError CompressedUtxoId := λ ctx,
  (utxo_lookup (cx_events ctx) utxo_id, ctx).

Definition finalize (self : CompressCtx) : RegistrationsPerTable * TemporalDb :=
  let db := foldl (λ db ks, evictor_commit ks (cache_evictor (cx_spaces self ks)) db) (cx_db self) keyspaces in
  let registrations ks := map_iter (changes (cx_spaces self ks)) in
  (registrations, write_to_registry registrations (cx_timestamp self) db).

(** [compress]: the compressed block and the tables after it. *)
Definition compress (config : CompressionConfig) (db : TemporalDb) (block_events : list ExecutorEvent) (block : DaBlock)
    : result CompressionError (VersionedCompressedBlock * TemporalDb) :=
  let target := da_transactions block in
  let prepare_ctx := MkPrepareCtx config (time (consensus (da_header block))) db (λ _, ∅) in
  match st_map (compress_transaction prepare_value prepare_utxo) target prepare_ctx with
  | (Err e, _) => Err e
  | (Ok _, prepare_ctx) =>
      match st_map (compress_transaction compress_value compress_utxo) target (into_compression_context prepare_ctx block_events) with
      | (Err e, _) => Err e
      | (Ok transactions, ctx) =>
          let '(registrations, db) := finalize ctx in
          Ok (VersionedCompressedBlock_new (da_header block) registrations transactions, db)
      end
  end.
End compression.

(** ** Decompression *)
Section decompression.
Context `{!RegistryKeys, !Hashing}.

(** The on-chain tables that [DecompressDbTx] looks into. *)
Record HistoryDb := MkHistoryDb {
  hd_blocks : gmap BlockHeight (list TxId);
  hd_coins : gmap UtxoId CompressedCoin;
  hd_messages : gmap Nonce Message
}.
Record CoinInfo := MkCoinInfo { info_owner : Address; info_amount : Z; info_asset_id : AssetId }.
Record MessageInfo := MkMessageInfo { info_sender : Address; info_recipient : Address; info_msg_amount : Z; info_data : list Z }.

Definition history_utxo_id (db : HistoryDb) (c : CompressedUtxoId) : result CompressionError UtxoId :=
  block_info ← ok_or (hd_blocks db !! c.1.1) NotFoundFuelBlock;
  tx_id ← ok_or (block_info !! Z.to_nat c.1.2) TransactionNotFoundInBlock;
  mret (tx_id, c.2).
Definition history_coin (db : HistoryDb) (utxo_id : UtxoId) : result CompressionError CoinInfo :=
  coin ← ok_or (hd_coins db !! utxo_id) NotFoundCoin;
  mret (MkCoinInfo (cc_owner coin) (cc_amount coin) (cc_asset_id coin)).
Definition history_message (db : HistoryDb) (nonce : Nonce) : result CompressionError MessageInfo :=
  message ← ok_or (hd_messages db !! nonce) NotFoundMessage;
  mret (MkMessageInfo (msg_sender message) (msg_recipient message) (msg_amount message) (msg_data message)).

Record DecompressCtx := MkDecompressCtx {
  dc_config : CompressionConfig;
  dc_timestamp : Z;
  dc_db : TemporalDb;
  dc_history : HistoryDb
}.
Definition decompress_value (ks : RegistryKeyspace) (key : RegistryKey) (ctx : DecompressCtx) : result CompressionError RegistryValue :=
  if decide (key = DEFAULT_VALUE) then Ok (default_value ks)
  else
    key_timestamp ← read_timestamp ks key (dc_db ctx);
    accessible ← is_timestamp_accessible (dc_config ctx) (dc_timestamp ctx) key_timestamp;
    if accessible : bool then read_registry ks key (dc_db ctx) else Err TimestampNotAccessible.
Definition code_bytes (v : RegistryValue) : list Z := match v with RvScriptCode b | RvPredicateCode b => b | _ => [] end.
Definition decompress_predicate (o : option RegistryKey) (ctx : DecompressCtx) : result CompressionError (option (list Z)) :=
  match o with
  | Some key => v ← decompress_value KsPredicateCode key ctx; mret (Some (code_bytes v))
  | None => mret None
  end.
Definition decompress_field (c : CompressedField) (ctx : DecompressCtx) : result CompressionError Field :=
  match c with
  | CompressedValue ks key => v ← decompress_value ks key ctx; mret (FieldValue v)
  | CompressedCoinField c_utxo_id c_predicate plain =>
      utxo_id ← history_utxo_id (dc_history ctx) c_utxo_id;
      coin_info ← history_coin (dc_history ctx) utxo_id;
      predicate ← decompress_predicate c_predicate ctx;
      mret (FieldCoin (MkCoinField utxo_id (info_owner coin_info) (info_amount coin_info) (info_asset_id coin_info) (0, 0) predicate plain))
  | CompressedMessageField nonce has_data c_predicate plain =>
      msg ← history_message (dc_history ctx) nonce;
      predicate ← decompress_predicate c_predicate ctx;
      mret (FieldMessage (MkMessageField (info_sender msg) (info_recipient msg) (info_msg_amount msg) nonce
              (if has_data : bool then Some (info_data msg) else None) predicate plain))
  end.
Definition decompress_transaction (ctx : DecompressCtx) (c : CompressedTransaction) : result CompressionError DaTransaction :=
  match c with
  | CompressedTx plain fields => fields ← result_map (λ f, decompress_field f ctx) fields; mret (DaTx plain fields)
  | CompressedMint plain fields => fields ← result_map (λ f, decompress_field f ctx) fields; mret (DaMint (0, 0) plain fields)
  end.

(** The pointer of the mint transaction, which is the last one. *)
Definition patch_mint (block_height : BlockHeight) (transactions : list DaTransaction) : result CompressionError (list DaTransaction) :=
  match last transactions with
  | None => Err NoTransactions
  | Some (DaMint _ plain fields) =>
      index ← ok_or (try_into u16 (Z.of_nat (length transactions) - 1)) TransactionIndexTooLarge;
      mret (take (length transactions - 1) transactions ++ [DaMint (block_height, index) plain fields])
  | Some (DaTx _ _) => Err LastNotMint
  end.

(** [decompress]: the partial block and the tables after it. *)
Definition decompress (config : CompressionConfig) (db : TemporalDb) (history : HistoryDb) (block : VersionedCompressedBlock)
    : result CompressionError ((PartialBlockHeader * list DaTransaction) * TemporalDb) :=
  match block with V0 payload =>
  let consensus_header := p_consensus (cb_header payload) in
  let db := write_to_registry (registrations payload) (time consensus_header) db in
  let ctx := MkDecompressCtx config (time consensus_header) db history in
  transactions ← result_map (decompress_transaction ctx) (cb_transactions payload);
  transactions ← patch_mint (height consensus_header) transactions;
  mret ((cb_header payload, transactions), db)
  end.
End decompression.
