(* ===== verification/CompressionFacts.v ===== *)
(** * What compression guarantees

    A reader that applies the registrations of the compressed blocks in order
    gets back every block: the keys of a block resolve to the values they
    replaced, although keys are evicted and registrations expire. *)
From stdpp Require Import fin_maps functions sorting.
From S2P Require Import Prelude FuelTypes BlockTypes ExecutorTypes Compression.

(** ** Traversals *)

(** A traversal that keeps an invariant [I] indexed by a budget, extends the
    state and establishes a relation that survives extension. *)
Lemma st_map_ok {S E A B} (f : A → ST S E B) (I : nat → S → Prop) (ext : S → S → Prop) `{!PreOrder ext}
    (R : S → A → B → Prop) (cost : A → nat) (l : list A) n s :
  (∀ s s' x y, ext s s' → R s x y → R s' x y) →
  (∀ x n s, x ∈ l → I n s → (cost x ≤ n)%nat → ∃ y s', f x s = (Ok y, s') ∧ I (n - cost x)%nat s' ∧ R s' x y ∧ ext s s') →
  I n s → (sum_list_with cost l ≤ n)%nat →
  ∃ ys s', st_map f l s = (Ok ys, s') ∧ I (n - sum_list_with cost l)%nat s' ∧ Forall2 (R s') l ys ∧ ext s s'.
Proof.
  intros Hmono. revert n s. induction l as [|x l IH]; intros n s Hstep HI Hn; cbn [st_map sum_list_with] in *.
  - exists [], s. rewrite Nat.sub_0_r. by split_and!; [|..|constructor|].
  - destruct (Hstep x n s) as (y & s1 & Hf & HI1 & HR & He1); [left|done|lia|].
    destruct (IH (n - cost x)%nat s1) as (ys & s2 & Hm & HI2 & Hall & He2); [|done|lia|].
    { intros x' n' s' Hx'. apply Hstep. by right. }
    exists (y :: ys), s2. rewrite bind_case, Hf. cbn. rewrite bind_case, Hm. cbn. split; [done|].
    split; [by replace (n - (cost x + sum_list_with cost l))%nat with (n - cost x - sum_list_with cost l)%nat by lia|].
    split; [|by etrans]. constructor; [by eapply Hmono|done].
Qed.


Section facts.
Context `{!Hashing, !RegistryKeys, !RegistryKeysLaws}.
Context (kept : list Z → list Z) (map_iter : gmap RegistryKey RegistryValue → list (RegistryKey * RegistryValue)).
(** Code is identified by its hash, and a [HashMap] gives all its entries. *)
Context (collision_free : ∀ b b', sha256 b = sha256 b' → b = b').
Context (map_iter_all : ∀ m, map_iter m ≡ₚ map_to_list m).

Lemma reverse_key_inj v v' : reverse_key v = reverse_key v' → v = v'.
Proof. destruct v, v'; cbn; intros [=]; f_equal; auto. Qed.

(** ** The search for a key *)
Lemma find_key_spec fuel keep k :
  key_valid k →
  match find_key fuel keep k with
  | Some k' => k' ∉ keep ∧ key_valid k'
  | None => ∀ i, (i < fuel)%nat → Nat.iter i key_next k ∈ keep
  end.
Proof.
  revert k. induction fuel as [|fuel IH]; intros k Hk; cbn [find_key]; [intros i; lia|]. case_decide as Hin; [|done].
  specialize (IH (key_next k) (next_valid k Hk)). destruct (find_key fuel keep (key_next k)); [done|].
  intros [|i] Hi; [done|]. rewrite Nat.iter_succ_r. apply IH. lia.
Qed.

Lemma evictor_next_key_spec ev :
  key_valid (next_key ev) → (size (keep_keys ev) < key_count)%nat →
  ∃ k, evictor_next_key ev = Some (k, MkCacheEvictor ({[k]} ∪ keep_keys ev) k) ∧ k ∉ keep_keys ev ∧ key_valid k.
Proof.
  intros Hv Hsize. unfold evictor_next_key. pose proof (find_key_spec (S (size (keep_keys ev))) (keep_keys ev) (next_key ev) Hv) as Hf.
  destruct (find_key _ _ _) as [k|]; [exists k; by destruct Hf|]. exfalso.
  set (l := (λ i, Nat.iter i key_next (next_key ev)) <$> seq 0 (S (size (keep_keys ev)))).
  assert (NoDup l) as Hnd.
  { apply NoDup_fmap_2_strong; [|apply NoDup_seq]. intros i j Hi%elem_of_seq Hj%elem_of_seq Heq.
    destruct (lt_eq_lt_dec i j) as [[Hlt|]|Hlt]; [|done|].
    - by destruct (next_cycle (next_key ev) i j Hv ltac:(lia)).
    - by destruct (next_cycle (next_key ev) j i Hv ltac:(lia)). }
  assert (list_to_set l ⊆ keep_keys ev) as Hsub.
  { intros k Hk%elem_of_list_to_set. unfold l in Hk. apply list_elem_of_fmap in Hk as (i & -> & Hi%elem_of_seq). apply Hf. lia. }
  apply subseteq_size in Hsub. rewrite size_list_to_set in Hsub by done. unfold l in Hsub. rewrite length_fmap, length_seq in Hsub. lia.
Qed.

(** ** The tables

    At time [now] of the latest block: the index leads to the value it is
    looked up with, every entry has a time, and keys are keys. *)
Record WfDb (now : Z) (db : TemporalDb) : Prop := {
  wf_index rk k : registry_index db !! rk = Some k → ∃ v, reverse_key v = rk ∧ registry db !! (keyspace v, k) = Some v;
  wf_registry ks k v : registry db !! (ks, k) = Some v →
    keyspace v = ks ∧ key_valid k ∧ ∃ t, timestamps db !! (ks, k) = Some t ∧ t ≤ now;
  wf_evictor ks k : evictor_cache db !! ks = Some k → key_valid k
}.

Lemma wf_empty now : WfDb now TemporalDb_empty.
Proof. split; intros *; cbn; by rewrite lookup_empty. Qed.
Lemma wf_later now now' db : now ≤ now' → WfDb now db → WfDb now' db.
Proof.
  intros Hle [Hi Hr He]. split; [done| |done]. intros ks k v Hv. destruct (Hr ks k v Hv) as (? & ? & t & ? & ?).
  split_and!; [done..|]. exists t. split; [done|lia].
Qed.
Lemma wf_commit now ks k db : key_valid k → WfDb now db → WfDb now (set_latest_assigned_key ks k db).
Proof.
  intros Hk [Hi Hr He]. split; [done..|]. intros ks' k'. cbn. destruct (decide (ks = ks')) as [->|].
  - rewrite lookup_insert_eq. by intros [= <-].
  - rewrite lookup_insert_ne by done. apply He.
Qed.

Lemma wf_write now k v db : key_valid k → WfDb now db → WfDb now (write_registry k v now db).
Proof.
  intros Hk [Hi Hr He]. split; unfold write_registry; cbn [registry timestamps registry_index evictor_cache].
  - intros rk k'. destruct (decide (rk = reverse_key v)) as [->|Hne].
    { rewrite lookup_insert_eq. intros [= <-]. exists v. split; [done|]. by rewrite lookup_insert_eq. }
    rewrite lookup_insert_ne by done. intros Hk'.
    assert (registry_index db !! rk = Some k' ∧ ∀ old, registry db !! (keyspace v, k) = Some old → reverse_key old ≠ rk) as [Hrk Hold].
    { destruct (registry db !! (keyspace v, k)) as [old|]; [|by split].
      rewrite lookup_delete_Some in Hk'. destruct Hk' as [? ?]. split; [done|]. by intros ? [= <-]. }
    destruct (Hi rk k' Hrk) as (v' & Hv' & Hreg). exists v'. split; [done|]. rewrite lookup_insert_ne; [done|].
    intros [= Hks ->]. rewrite <- Hks in Hreg. by apply (Hold v').
  - intros ks k' v'. destruct (decide ((ks, k') = (keyspace v, k))) as [[= -> ->]|Hne].
    + rewrite !lookup_insert_eq. intros [= <-]. split_and!; [done..|]. by exists now.
    + rewrite !lookup_insert_ne by done. apply Hr.
  - apply He.
Qed.

Lemma wf_writes now l db : Forall (λ p, key_valid p.1) l → WfDb now db → WfDb now (foldl (λ db p, write_registry p.1 p.2 now db) db l).
Proof. revert db. induction l as [|p l IH]; intros db Hl Hdb; [done|]. apply Forall_cons in Hl as [Hp Hl]. cbn. apply IH; [done|]. by apply wf_write. Qed.

(** Registrations as one list, in the order in which they are written. *)
Definition all_registrations (regs : RegistrationsPerTable) : list (RegistryKey * RegistryValue) := keyspaces ≫= regs.
Lemma write_to_registry_list regs now db :
  write_to_registry regs now db = foldl (λ db p, write_registry p.1 p.2 now db) db (all_registrations regs).
Proof.
  unfold write_to_registry, all_registrations. generalize keyspaces. intros l. revert db. induction l as [|ks l IH]; intros db; [done|].
  rewrite bind_cons, foldl_app. apply IH.
Qed.

Definition entry_of (p : RegistryKey * RegistryValue) : RegistryKeyspace * RegistryKey := (keyspace p.2, p.1).
Lemma writes_registry now l db e :
  NoDup (entry_of <$> l) →
  let db' := foldl (λ db p, write_registry p.1 p.2 now db) db l in
  (e ∉ entry_of <$> l → registry db' !! e = registry db !! e ∧ timestamps db' !! e = timestamps db !! e)
  ∧ ∀ p, p ∈ l → e = entry_of p → registry db' !! e = Some p.2 ∧ timestamps db' !! e = Some now.
Proof.
  revert db. induction l as [|q l IH]; intros db Hnd; cbn [fmap list_fmap foldl] in *; [by split; [|intros ? []%not_elem_of_nil]|].
  apply NoDup_cons in Hnd as [Hq Hnd]. destruct (IH (write_registry q.1 q.2 now db) Hnd) as [IH1 IH2]. split.
  - intros [Hne Hl]%not_elem_of_cons. destruct (IH1 Hl) as [-> ->]. cbn. by rewrite !lookup_insert_ne.
  - intros p [->|Hp]%elem_of_cons Heq; [|by apply IH2]. subst e. destruct (IH1 Hq) as [-> ->]. cbn. by rewrite !lookup_insert_eq.
Qed.

(** Two tables with the same entries. *)
Definition same_entries (db db' : TemporalDb) : Prop := registry db = registry db' ∧ timestamps db = timestamps db'.
Lemma same_writes regs now db db' :
  same_entries db db' → same_entries (write_to_registry regs now db) (write_to_registry regs now db').
Proof.
  rewrite !write_to_registry_list. generalize (all_registrations regs). intros l. revert db db'.
  induction l as [|p l IH]; intros db db' [Hr Ht]; [done|]. cbn. apply IH. split; cbn; congruence.
Qed.

(** ** The values of a block *)
Definition code_values (o : option (list Z)) : list RegistryValue := match o with Some b => [RvPredicateCode b] | None => [] end.
Definition field_values (f : Field) : list RegistryValue :=
  match f with FieldValue v => [v] | FieldCoin c => code_values (cf_predicate c) | FieldMessage m => code_values (mf_predicate m) end.
Definition tx_fields (tx : DaTransaction) : list Field := match tx with DaTx _ fields | DaMint _ _ fields => fields end.
Definition field_cost (f : Field) : nat := length (field_values f).
Definition tx_cost (tx : DaTransaction) : nat := sum_list_with field_cost (tx_fields tx).

(** ** The walk, for operations with a budget *)
Section walk.
Context {S : Type} (value : RegistryValue → ST S CompressionError RegistryKey)
  (utxo : UtxoId → ST S CompressionError CompressedUtxoId)
  (I : nat → S → Prop) (ext : S → S → Prop) `{!PreOrder ext} (R : S → RegistryValue → RegistryKey → Prop)
  (U : UtxoId → CompressedUtxoId → Prop) (P : RegistryValue → Prop).
Context (R_mono : ∀ s s' v k, ext s s' → R s v k → R s' v k).
Context (value_ok : ∀ v n s, P v → I n s → (1 ≤ n)%nat → ∃ k s', value v s = (Ok k, s') ∧ I (n - 1)%nat s' ∧ R s' v k ∧ ext s s').

Definition utxo_good (id : UtxoId) : Prop := ∃ p, U id p ∧ ∀ n s, I n s → utxo id s = (Ok p, s).
Definition field_good (f : Field) : Prop :=
  Forall P (field_values f) ∧ match f with FieldCoin c => utxo_good (cf_utxo_id c) | _ => True end.

(** The compressed form of a predicate, a field and a transaction. *)
Definition code_rel (s : S) (o : option (list Z)) (c : option RegistryKey) : Prop :=
  match o, c with Some b, Some k => R s (RvPredicateCode b) k | None, None => True | _, _ => False end.
Definition field_rel (s : S) (f : Field) (c : CompressedField) : Prop :=
  match f, c with
  | FieldValue v, CompressedValue ks k => ks = keyspace v ∧ R s v k
  | FieldCoin x, CompressedCoinField p o plain => U (cf_utxo_id x) p ∧ code_rel s (cf_predicate x) o ∧ plain = cf_plain x
  | FieldMessage m, CompressedMessageField nonce d o plain =>
      nonce = mf_nonce m ∧ d = bool_decide (is_Some (mf_data m)) ∧ code_rel s (mf_predicate m) o ∧ plain = mf_plain m
  | _, _ => False
  end.
Definition tx_rel (s : S) (tx : DaTransaction) (c : CompressedTransaction) : Prop :=
  match tx, c with
  | DaTx plain fields, CompressedTx plain' fields' | DaMint _ plain fields, CompressedMint plain' fields' =>
      plain' = kept plain ∧ Forall2 (field_rel s) fields fields'
  | _, _ => False
  end.

Lemma code_rel_mono s s' o c : ext s s' → code_rel s o c → code_rel s' o c.
Proof. destruct o, c; cbn; eauto. Qed.
Lemma field_rel_mono s s' f c : ext s s' → field_rel s f c → field_rel s' f c.
Proof. destruct f, c; cbn; try done; intros; destruct_and?; eauto 6 using code_rel_mono. Qed.
Lemma tx_rel_mono s s' tx c : ext s s' → tx_rel s tx c → tx_rel s' tx c.
Proof.
  destruct tx, c; cbn; try done; intros He [-> Hf]; (split; [done|]); eapply Forall2_impl; [exact Hf| |exact Hf|]; intros; by eapply field_rel_mono.
Qed.

Lemma code_ok o n s :
  Forall P (code_values o) → I n s → (length (code_values o) ≤ n)%nat →
  ∃ c s', st_option (λ b, value (RvPredicateCode b)) o s = (Ok c, s') ∧ I (n - length (code_values o))%nat s' ∧ code_rel s' o c ∧ ext s s'.
Proof.
  intros HP HI Hn. destruct o as [b|]; cbn in *; [|exists None, s; by rewrite Nat.sub_0_r].
  apply Forall_cons in HP as [HP _]. destruct (value_ok (RvPredicateCode b) n s HP HI Hn) as (k & s' & Hv & HI' & HR & He). exists (Some k), s'.
  rewrite bind_case, Hv. done.
Qed.

Lemma field_ok f n s :
  field_good f → I n s → (field_cost f ≤ n)%nat →
  ∃ c s', compress_field value utxo f s = (Ok c, s') ∧ I (n - field_cost f)%nat s' ∧ field_rel s' f c ∧ ext s s'.
Proof.
  unfold field_cost. intros [HP Hg] HI Hn. destruct f as [v|c|m]; cbn [field_values field_good compress_field] in *.
  - apply Forall_cons in HP as [HP _]. destruct (value_ok v n s HP HI Hn) as (k & s' & Hv & HI' & HR & He). exists (CompressedValue (keyspace v) k), s'.
    rewrite bind_case, Hv. done.
  - destruct Hg as (p & HU & Hp). destruct (code_ok (cf_predicate c) n s HP HI Hn) as (o & s' & Hc & HI' & HR & He).
    eexists _, s'. rewrite bind_case, (Hp n s HI), bind_case, Hc. done.
  - destruct (code_ok (mf_predicate m) n s HP HI Hn) as (o & s' & Hc & HI' & HR & He). eexists _, s'. rewrite bind_case, Hc. done.
Qed.

Lemma tx_ok tx n s :
  Forall field_good (tx_fields tx) → I n s → (tx_cost tx ≤ n)%nat →
  ∃ c s', compress_transaction kept value utxo tx s = (Ok c, s') ∧ I (n - tx_cost tx)%nat s' ∧ tx_rel s' tx c ∧ ext s s'.
Proof.
  intros Hg HI Hn. rewrite Forall_forall in Hg.
  destruct (st_map_ok (compress_field value utxo) I ext field_rel field_cost (tx_fields tx) n s) as (cs & s' & Hm & HI' & Hall & He);
    [exact field_rel_mono|intros; by apply field_ok; auto|done|done|].
  destruct tx as [plain fields|ptr plain fields]; cbn [tx_fields compress_transaction] in *;
    eexists _, s'; rewrite bind_case, Hm; done.
Qed.

Lemma txs_ok txs n s :
  Forall (λ tx, Forall field_good (tx_fields tx)) txs → I n s → (sum_list_with tx_cost txs ≤ n)%nat →
  ∃ cs s', st_map (compress_transaction kept value utxo) txs s = (Ok cs, s') ∧ I (n - sum_list_with tx_cost txs)%nat s'
    ∧ Forall2 (tx_rel s') txs cs ∧ ext s s'.
Proof.
  intros Hg HI Hn. rewrite Forall_forall in Hg.
  apply (st_map_ok _ I ext); [exact tx_rel_mono|intros; by apply tx_ok; auto|done..].
Qed.
End walk.

(** ** The two passes over a block *)
Section passes.
Context (config : CompressionConfig) (now : Z) (db : TemporalDb) (events : list ExecutorEvent).
Context (Hwf : WfDb now db) (Hretention : 0 ≤ temporal_registry_retention config).

(** The key of a value that a block at this time may still use. *)
Definition usable (v : RegistryValue) (k : RegistryKey) : Prop :=
  registry_index_lookup v db = Some k
  ∧ ∃ t, timestamps db !! (keyspace v, k) = Some t ∧ is_timestamp_accessible config now t = Ok true.

Lemma lookup_cases v :
  match registry_index_lookup v db with
  | None => True
  | Some k => registry db !! (keyspace v, k) = Some v
      ∧ ∃ t b, read_timestamp (keyspace v) k db = Ok t ∧ is_timestamp_accessible config now t = Ok b
        ∧ (if b : bool then usable v k else ¬ usable v k)
  end.
Proof.
  unfold usable. destruct (registry_index_lookup v db) as [k|] eqn:Hk; [|done].
  destruct (wf_index _ _ Hwf _ _ Hk) as (v' & Hv' & Hreg). apply reverse_key_inj in Hv' as ->.
  split; [done|]. destruct (wf_registry _ _ Hwf _ _ _ Hreg) as (_ & _ & t & Ht & Hle).
  unfold read_timestamp. rewrite Ht. assert (∃ b, is_timestamp_accessible config now t = Ok b) as [b Hb].
  { unfold is_timestamp_accessible. rewrite decide_True by done. by eexists. }
  exists t, b. split_and!; [done..|]. destruct b; [eauto|]. intros (_ & t' & Ht' & Hacc). congruence.
Qed.

(** What the first pass guarantees of its context. *)
Record Prepared (total n : nat) (ctx : PrepareCtx) : Prop := {
  pr_config : pc_config ctx = config;
  pr_time : pc_timestamp ctx = now;
  pr_db : pc_db ctx = db;
  pr_size ks : (size (accessed_keys ctx ks) + n ≤ total)%nat
}.
Definition accessed_le (ctx ctx' : PrepareCtx) : Prop := ∀ ks, accessed_keys ctx ks ⊆ accessed_keys ctx' ks.
#[local] Instance accessed_le_preorder : PreOrder accessed_le.
Proof. split; [by intros x ks|]. intros x y z Hxy Hyz ks. etrans; [apply Hxy|apply Hyz]. Qed.
Definition covers (acc : RegistryKeyspace → gset RegistryKey) (v : RegistryValue) : Prop :=
  v ≠ default_value (keyspace v) → ∀ k, usable v k → k ∈ acc (keyspace v).

Lemma prepare_value_ok total v n ctx :
  Prepared total n ctx → (1 ≤ n)%nat →
  ∃ k ctx', prepare_value v ctx = (Ok k, ctx') ∧ Prepared total (n - 1) ctx' ∧ covers (accessed_keys ctx') v ∧ accessed_le ctx ctx'.
Proof.
  intros [Hc Ht Hd Hs] Hn. unfold prepare_value, covers. rewrite Hc, Ht, Hd.
  assert (Prepared total (n - 1) ctx) as Hsame by (split; [done..|intros ks; specialize (Hs ks); lia]).
  case_decide as Hdef; [by exists key_zero, ctx|]. pose proof (lookup_cases v) as Hl.
  destruct (registry_index_lookup v db) as [k|] eqn:Hk; cycle 1.
  { exists key_zero, ctx. split_and!; [done..| |done]. intros _ k [Hk' _]. congruence. }
  assert (∀ k', usable v k' → k' = k) as Huniq by (intros k' [Hk' _]; congruence).
  case_decide as Hin.
  { exists key_zero, ctx. split_and!; [done..| |done]. by intros _ k' ->%Huniq. }
  destruct Hl as (_ & t & b & -> & -> & Hb). destruct b.
  - eexists key_zero, _. split; [done|]. split_and!.
    + split; [done..|]. intros ks. cbn. specialize (Hs ks). destruct (decide (keyspace v = ks)) as [<-|].
      * rewrite fn_lookup_insert. rewrite size_union by set_solver. rewrite size_singleton. lia.
      * rewrite fn_lookup_insert_ne by done. lia.
    + intros _ k' ->%Huniq. cbn. rewrite fn_lookup_insert. set_solver.
    + intros ks. cbn. destruct (decide (keyspace v = ks)) as [<-|].
      * rewrite fn_lookup_insert. set_solver.
      * by rewrite fn_lookup_insert_ne.
  - exists key_zero, ctx. split_and!; [done..| |done]. intros _ k' Hu. pose proof (Huniq _ Hu) as ->. done.
Qed.

Lemma prepare_txs_ok txs total :
  (sum_list_with tx_cost txs ≤ total)%nat →
  ∃ cs ctx, st_map (compress_transaction kept prepare_value prepare_utxo) txs (MkPrepareCtx config now db (λ _, ∅)) = (Ok cs, ctx)
    ∧ Prepared total 0 ctx ∧ Forall (λ tx, Forall (λ f, Forall (covers (accessed_keys ctx)) (field_values f)) (tx_fields tx)) txs.
Proof.
  intros Hn.
  destruct (txs_ok prepare_value prepare_utxo (Prepared total) accessed_le (λ ctx v _, covers (accessed_keys ctx) v) (λ _ _, True) (λ _, True))
    with (txs := txs) (n := total) (s := MkPrepareCtx config now db (λ _, ∅)) as (cs & ctx & Hm & HI & Hall & _); [| | | |exact Hn|].
  - intros s s' v k Hle Hc Hv k' Hk'. apply Hle. by apply Hc.
  - intros v n s _. by apply prepare_value_ok.
  - apply Forall_true. intros tx. apply Forall_true. intros f. split; [by apply Forall_true|]. destruct f; [done| |done]. by eexists.
  - by split; [..|intros ks; cbn; rewrite size_empty].
  - exists cs, ctx. split; [done|]. split. { destruct HI as [? ? ? Hs]. split; [done..|]. intros ks. specialize (Hs ks). lia. }
    clear -Hall. induction Hall as [|tx c txs cs Htx _ IH]; constructor; [|done].
    assert (∃ fs, Forall2 (field_rel (λ (ctx : PrepareCtx) v (_ : RegistryKey), covers (accessed_keys ctx) v) (λ _ _, True) ctx) (tx_fields tx) fs) as [fs Hfs].
    { destruct tx, c; cbn in Htx; naive_solver. }
    induction Hfs as [|f c' l l' Hf _ IHf]; constructor; [|done]. destruct f as [v|x|m], c'; cbn in *; try done.
    + destruct Hf. by repeat constructor.
    + destruct Hf as (_ & Hf & _). destruct (cf_predicate x), predicate; cbn in *; by repeat constructor.
    + destruct Hf as (_ & _ & Hf & _). destruct (mf_predicate m), predicate; cbn in *; by repeat constructor.
Qed.

(** What the second pass guarantees, for the keys [acc] that the first pass
    found in use. *)
Context (acc : RegistryKeyspace → gset RegistryKey).
Record Compressing (total n : nat) (ctx : CompressCtx) : Prop := {
  cp_config : cx_config ctx = config;
  cp_time : cx_timestamp ctx = now;
  cp_db : cx_db ctx = db;
  cp_events : cx_events ctx = events;
  cp_keep ks : keep_keys (cache_evictor (cx_spaces ctx ks)) = acc ks ∪ dom (changes (cx_spaces ctx ks));
  cp_fresh ks k : k ∈ acc ks → changes (cx_spaces ctx ks) !! k = None;
  cp_lookup ks v k : changes_lookup (cx_spaces ctx ks) !! v = Some k → changes (cx_spaces ctx ks) !! k = Some v;
  cp_value ks k v : changes (cx_spaces ctx ks) !! k = Some v → keyspace v = ks ∧ key_valid k;
  cp_next ks : key_valid (next_key (cache_evictor (cx_spaces ctx ks)));
  cp_size ks : (size (acc ks) + size (changes (cx_spaces ctx ks)) + n ≤ total)%nat
}.
Definition changes_le (ctx ctx' : CompressCtx) : Prop := ∀ ks, changes (cx_spaces ctx ks) ⊆ changes (cx_spaces ctx' ks).
#[local] Instance changes_le_preorder : PreOrder changes_le.
Proof. split; [by intros x ks|]. intros x y z Hxy Hyz ks. etrans; [apply Hxy|apply Hyz]. Qed.

(** A key leads back to its value. *)
Definition resolves (ctx : CompressCtx) (v : RegistryValue) (k : RegistryKey) : Prop :=
  (v = default_value (keyspace v) ∧ k = DEFAULT_VALUE)
  ∨ changes (cx_spaces ctx (keyspace v)) !! k = Some v
  ∨ (registry db !! (keyspace v, k) = Some v ∧ k ∈ acc (keyspace v) ∧ usable v k).
Lemma resolves_mono ctx ctx' v k : changes_le ctx ctx' → resolves ctx v k → resolves ctx' v k.
Proof. intros Hle [?|[?|?]]; [by left|right; left|by right; right]. by eapply lookup_weaken, Hle. Qed.

Lemma register_value_ok total v n ctx :
  (total ≤ key_count)%nat → Compressing total n ctx → (1 ≤ n)%nat →
  ∃ k ctx', register_value v ctx = (Ok k, ctx') ∧ Compressing total (n - 1) ctx' ∧ resolves ctx' v k ∧ changes_le ctx ctx'.
Proof.
  intros Htot [Hc Ht Hd Hev Hkeep Hfresh Hlook Hval Hnext Hs] Hn. unfold register_value. set (ks := keyspace v) in *.
  destruct (evictor_next_key_spec (cache_evictor (cx_spaces ctx ks))) as (k & -> & Hk & Hkv); [done| |].
  { rewrite Hkeep, size_union, size_dom by (intros k Hk Hd'; apply Hfresh, not_elem_of_dom in Hk; done). specialize (Hs ks). lia. }
  rewrite Hkeep in Hk. apply not_elem_of_union in Hk as [Hka Hkd]. apply not_elem_of_dom in Hkd.
  eexists k, _. split; [done|]. split_and!.
  - split; [done..| | | | | |]; intros ks'; cbn [cx_spaces]; (destruct (decide (ks = ks')) as [<-|Hne];
      [rewrite fn_lookup_insert|rewrite fn_lookup_insert_ne by done; auto]); cbn [cache_evictor changes changes_lookup keep_keys next_key].
    + rewrite Hkeep, dom_insert_L. set_solver.
    + intros k' Hk'. rewrite lookup_insert_ne by set_solver. by apply Hfresh.
    + intros v' k'. destruct (decide (v = v')) as [<-|].
      * rewrite lookup_insert_eq. intros [= <-]. by rewrite lookup_insert_eq.
      * rewrite lookup_insert_ne by done. intros Hk'%Hlook. rewrite lookup_insert_ne; [done|]. intros <-. congruence.
    + intros k' v'. destruct (decide (k = k')) as [<-|].
      * rewrite lookup_insert_eq. by intros [= <-].
      * rewrite lookup_insert_ne by done. apply Hval.
    + done.
    + rewrite map_size_insert_None by done. specialize (Hs ks). lia.
    + specialize (Hs ks'). lia.
  - right. left. cbn. rewrite fn_lookup_insert. cbn. by rewrite lookup_insert_eq.
  - intros ks'. cbn. destruct (decide (ks = ks')) as [<-|].
    + rewrite fn_lookup_insert. by apply insert_subseteq.
    + by rewrite fn_lookup_insert_ne.
Qed.

Lemma compress_value_ok total v n ctx :
  (total ≤ key_count)%nat → covers acc v → Compressing total n ctx → (1 ≤ n)%nat →
  ∃ k ctx', compress_value v ctx = (Ok k, ctx') ∧ Compressing total (n - 1) ctx' ∧ resolves ctx' v k ∧ changes_le ctx ctx'.
Proof.
  intros Htot Hcov HI Hn. pose proof (register_value_ok total v n ctx Htot HI Hn) as Hreg.
  destruct HI as [Hc Ht Hd Hev Hkeep Hfresh Hlook Hval Hnext Hs]. unfold compress_value. rewrite Hc, Ht, Hd.
  assert (Compressing total (n - 1) ctx) as Hsame by (split; [done..|intros ks; specialize (Hs ks); lia]).
  case_decide as Hdef; [exists DEFAULT_VALUE, ctx; split_and!; [done..|by left|done]|].
  destruct (changes_lookup (cx_spaces ctx (keyspace v)) !! v) as [k|] eqn:Hk.
  { exists k, ctx. split_and!; [done..| |done]. right. left. by apply Hlook. }
  pose proof (lookup_cases v) as Hl. destruct (registry_index_lookup v db) as [k|]; [|done].
  destruct Hl as (Hr & t & b & -> & -> & Hb). destruct b; [|done].
  exists k, ctx. split_and!; [done..| |done]. right. right. split_and!; [done| |done]. by apply Hcov.
Qed.

Lemma compress_txs_ok total txs n ctx :
  (total ≤ key_count)%nat → Compressing total n ctx → (sum_list_with tx_cost txs ≤ n)%nat →
  Forall (λ tx, Forall (λ f, Forall (covers acc) (field_values f)
    ∧ match f with FieldCoin x => ∃ p, utxo_lookup events (cf_utxo_id x) = Ok p | _ => True end) (tx_fields tx)) txs →
  ∃ cs ctx', st_map (compress_transaction kept compress_value compress_utxo) txs ctx = (Ok cs, ctx')
    ∧ Compressing total (n - sum_list_with tx_cost txs) ctx'
    ∧ Forall2 (tx_rel resolves (λ id p, utxo_lookup events id = Ok p) ctx') txs cs.
Proof.
  intros Htot HI Hn Hgood.
  destruct (txs_ok compress_value compress_utxo (Compressing total) changes_le resolves (λ id p, utxo_lookup events id = Ok p) (covers acc))
    with (txs := txs) (n := n) (s := ctx) as (cs & ctx' & Hm & HI' & Hrel & _); [exact resolves_mono| | |done..|by exists cs, ctx'].
  - intros v n' s HP HI' Hn'. by eapply compress_value_ok.
  - eapply Forall_impl; [exact Hgood|]. intros tx Htx. eapply Forall_impl; [exact Htx|]. intros f [Hf Hu]. split; [done|].
    destruct f as [v|x|m]; [done| |done]. destruct Hu as [p Hp]. exists p. split; [done|]. intros n' s Hs. unfold compress_utxo.
    by rewrite (cp_events _ _ _ Hs), Hp.
Qed.
Lemma initial_context total n pctx :
  Prepared total 0 pctx → (∀ ks, acc ks = accessed_keys pctx ks) → Compressing (total + n) n (into_compression_context pctx events).
Proof.
  intros [Hc Ht Hd Hs] Hacc. split; cbn; try done.
  - intros ks. rewrite Hacc. set_solver.
  - intros ks. unfold get_latest_assigned_key. rewrite Hd. destruct (evictor_cache db !! ks) as [k|] eqn:E.
    + apply next_valid, (wf_evictor _ _ Hwf _ _ E).
    + apply zero_valid.
  - intros ks. specialize (Hs ks). rewrite Hacc, map_size_empty. lia.
Qed.

(** ** The end of a block *)
Section finalized.
Context (total n : nat) (ctx : CompressCtx) (Hctx : Compressing total n ctx).
Let regs : RegistrationsPerTable := λ ks, map_iter (changes (cx_spaces ctx ks)).
Let db' : TemporalDb := (finalize map_iter ctx).2.

Lemma registered p : p ∈ all_registrations regs ↔ changes (cx_spaces ctx (keyspace p.2)) !! p.1 = Some p.2.
Proof.
  destruct p as [k v]. cbn [fst snd]. unfold all_registrations, regs. rewrite list_elem_of_bind. setoid_rewrite (λ ks, map_iter_all (changes (cx_spaces ctx ks))).
  setoid_rewrite elem_of_map_to_list. split.
  - intros (ks & Hv & _). by destruct (cp_value _ _ _ Hctx ks k v Hv) as [<- _].
  - intros Hv. exists (keyspace v). split; [done|]. destruct (keyspace v); set_solver.
Qed.

Lemma registered_NoDup : NoDup (entry_of <$> all_registrations regs).
Proof.
  unfold all_registrations. assert (NoDup keyspaces) as Hnd by (vm_compute; repeat constructor; set_solver).
  assert (∀ ks p, p ∈ regs ks → keyspace p.2 = ks) as Hks.
  { intros ks [k v] Hp. unfold regs in Hp. rewrite map_iter_all in Hp. apply elem_of_map_to_list in Hp. by apply (cp_value _ _ _ Hctx) in Hp as [? _]. }
  induction Hnd as [|ks l Hin _ IH]; [constructor|]. rewrite bind_cons, fmap_app. apply NoDup_app. split_and!; [| |done].
  - assert (entry_of <$> regs ks = (λ k, (ks, k)) <$> (regs ks).*1) as ->.
    { rewrite <- list_fmap_compose. apply list_fmap_ext. intros i p Hp%list_elem_of_lookup_2. unfold entry_of. by rewrite (Hks ks p Hp). }
    apply NoDup_fmap_2; [by intros ? ? [=]|]. unfold regs. rewrite map_iter_all. apply NoDup_fst_map_to_list.
  - intros e (p & -> & Hp)%list_elem_of_fmap (p' & Heq & (ks' & Hp' & Hks')%list_elem_of_bind)%list_elem_of_fmap.
    apply Hks in Hp, Hp'. unfold entry_of in Heq. injection Heq as Heq _. congruence.
Qed.

(** The commits of the evictors only touch their own table. *)
Lemma evictor_commits l d :
  WfDb now d →
  let d' := foldl (λ db ks, evictor_commit ks (cache_evictor (cx_spaces ctx ks)) db) d l in
  WfDb now d' ∧ same_entries d' d.
Proof.
  revert d. induction l as [|ks l IH]; intros d Hd; [done|]. cbn.
  apply (IH (evictor_commit ks (cache_evictor (cx_spaces ctx ks)) d)).
  apply wf_commit; [|done]. apply (cp_next _ _ _ Hctx).
Qed.

Lemma finalized_wf : WfDb now db'.
Proof.
  unfold db', finalize. cbn [snd]. rewrite (cp_time _ _ _ Hctx), (cp_db _ _ _ Hctx), write_to_registry_list. apply wf_writes.
  - apply Forall_forall. intros p Hp%registered. by apply (cp_value _ _ _ Hctx) in Hp as [_ ?].
  - by apply evictor_commits.
Qed.

Lemma finalized_writes d : same_entries d db → same_entries (write_to_registry (finalize map_iter ctx).1 now d) db'.
Proof.
  intros [Hr Ht]. destruct (evictor_commits keyspaces (cx_db ctx)) as [_ [Hr' Ht']]; [by rewrite (cp_db _ _ _ Hctx)|].
  rewrite (cp_db _ _ _ Hctx) in Hr', Ht'. unfold db', finalize. cbn [fst snd]. rewrite (cp_time _ _ _ Hctx), (cp_db _ _ _ Hctx).
  apply same_writes. split; etrans; done.
Qed.

Lemma finalized_entries v k :
  resolves ctx v k →
  (v = default_value (keyspace v) ∧ k = DEFAULT_VALUE)
  ∨ (key_valid k ∧ registry db' !! (keyspace v, k) = Some v
     ∧ ∃ t, timestamps db' !! (keyspace v, k) = Some t ∧ is_timestamp_accessible config now t = Ok true).
Proof.
  destruct (evictor_commits keyspaces (cx_db ctx)) as [_ [Hr Ht]]; [by rewrite (cp_db _ _ _ Hctx)|].
  unfold db', finalize. cbn [snd]. rewrite (cp_time _ _ _ Hctx), write_to_registry_list.
  change (λ ks, map_iter (changes (cx_spaces ctx ks))) with regs. set (d := foldl _ (cx_db ctx) keyspaces) in *. rewrite (cp_db _ _ _ Hctx) in Hr, Ht.
  destruct (writes_registry now (all_registrations regs) d (keyspace v, k) registered_NoDup) as [Hsame Hnew].
  intros [?|[Hc|(Hreg & Hacc & _ & t & Htime & Hok)]]; [by left|right..].
  - destruct (cp_value _ _ _ Hctx _ _ _ Hc) as [_ Hk]. split; [done|].
    destruct (Hnew (k, v)) as [-> ->]; [by apply registered|done|]. split; [done|]. exists now. split; [done|].
    unfold is_timestamp_accessible. rewrite decide_True by done. by rewrite bool_decide_eq_true_2 by lia.
  - destruct (wf_registry _ _ Hwf _ _ _ Hreg) as (_ & Hk & _). split; [done|]. destruct Hsame as [-> ->].
    { intros (p & Hp & Hin%registered)%list_elem_of_fmap. injection Hp as Hp ->. rewrite <- Hp in Hin.
      by rewrite (cp_fresh _ _ _ Hctx _ _ Hacc) in Hin. }
    rewrite Hr, Ht. split; [done|]. by exists t.
Qed.

(** Decompression of a key of the block, with the same entries. *)
Lemma decompress_value_ok v k d history :
  resolves ctx v k → same_entries d db' → decompress_value (keyspace v) k (MkDecompressCtx config now d history) = Ok v.
Proof.
  intros [[Hv ->]|(Hk & Hr & t & Ht & Hok)]%finalized_entries [Sr St]; unfold decompress_value.
  - rewrite decide_True by done. by f_equal.
  - rewrite decide_False by (by apply default_not_valid). unfold read_timestamp, read_registry. cbn [dc_db dc_config dc_timestamp].
    rewrite St, Ht. cbn. rewrite Hok, Sr, Hr. done.
Qed.

(** What is known of the inputs of a block: the events of the block name the
    coins it spends, the history has them and the messages. *)
Definition field_known (history : HistoryDb) (f : Field) : Prop :=
  match f with
  | FieldValue _ => True
  | FieldCoin c =>
      ∃ p coin, utxo_lookup events (cf_utxo_id c) = Ok p ∧ history_utxo_id history p = Ok (cf_utxo_id c)
        ∧ hd_coins history !! cf_utxo_id c = Some coin
        ∧ cc_owner coin = cf_owner c ∧ cc_amount coin = cf_amount c ∧ cc_asset_id coin = cf_asset_id c
  | FieldMessage m =>
      ∃ msg, hd_messages history !! mf_nonce m = Some msg
        ∧ msg_sender msg = mf_sender m ∧ msg_recipient msg = mf_recipient m ∧ msg_amount msg = mf_amount m
        ∧ match mf_data m with Some d => d = msg_data msg | None => True end
  end.

Lemma decompress_field_ok history d f c :
  same_entries d db' → field_known history f → field_rel resolves (λ id p, utxo_lookup events id = Ok p) ctx f c →
  decompress_field c (MkDecompressCtx config now d history) =
    Ok (match f with
        | FieldCoin x => FieldCoin (MkCoinField (cf_utxo_id x) (cf_owner x) (cf_amount x) (cf_asset_id x) (0, 0) (cf_predicate x) (cf_plain x))
        | _ => f
        end).
Proof.
  intros Hd Hknown Hrel.
  assert (∀ o k, code_rel resolves ctx o k → decompress_predicate k (MkDecompressCtx config now d history) = Ok o) as Hpred.
  { intros [b|] [k|] Hk; try done. cbn. apply (decompress_value_ok _ _ d history) in Hk; [|done]. cbn in Hk. by rewrite Hk. }
  destruct f as [v|x|m], c as [ks k|p o plain|nonce hd o plain]; cbn [field_rel field_known decompress_field] in *; try done.
  - destruct Hrel as [-> Hk]. apply (decompress_value_ok _ _ d history) in Hk; [|done]. by rewrite Hk.
  - destruct Hrel as (HU & Hk%Hpred & ->), Hknown as (p' & coin & Hp & Hu & Hcoin & Ho & Ha & Has). rewrite Hp in HU. injection HU as <-.
    cbn [dc_history]. rewrite Hu. cbn. unfold history_coin. rewrite Hcoin. cbn. rewrite Hk, Ho, Ha, Has. done.
  - destruct Hrel as (-> & -> & Hk%Hpred & ->), Hknown as (msg & Hmsg & Hs & Hr & Ha & Hdata).
    cbn [dc_history]. unfold history_message. rewrite Hmsg. cbn. rewrite Hk, Hs, Hr, Ha. cbn. destruct m as [? ? ? ? [?|] ? ?]; cbn in *; by subst.
Qed.
End finalized.
End passes.

(** ** The round trip *)
Definition restored_field (f : Field) : Field :=
  match f with
  | FieldCoin x => FieldCoin (MkCoinField (cf_utxo_id x) (cf_owner x) (cf_amount x) (cf_asset_id x) (0, 0) (cf_predicate x) (cf_plain x))
  | _ => f
  end.
(** What the reader gets of a transaction: skipped fields and the pointers of
    coins have their defaults. *)
Definition restored (tx : DaTransaction) : DaTransaction :=
  match tx with
  | DaTx plain fields => DaTx (kept plain) (restored_field <$> fields)
  | DaMint p plain fields => DaMint p (kept plain) (restored_field <$> fields)
  end.
Definition not_mint (tx : DaTransaction) : Prop := match tx with DaTx _ _ => True | DaMint _ _ _ => False end.
Definition without_pointer (tx : DaTransaction) : DaTransaction :=
  match tx with DaMint _ plain fields => DaMint (0, 0) plain fields | tx => tx end.
Definition block_time (b : DaBlock) : Z := time (consensus (da_header b)).
Record BlockOk (events : list ExecutorEvent) (history : HistoryDb) (b : DaBlock) : Prop := {
  bo_known : Forall (λ tx, Forall (field_known events history) (tx_fields tx)) (da_transactions b);
  bo_keys : (2 * sum_list_with tx_cost (da_transactions b) ≤ key_count)%nat;
  bo_mint : ∃ txs plain fields, Forall not_mint txs
    ∧ da_transactions b = txs ++ [DaMint (height (consensus (da_header b)), Z.of_nat (length txs)) plain fields];
  bo_count : Z.of_nat (length (da_transactions b)) ≤ 2 ^ 16
}.

Lemma decompress_transactions_ok config now db events acc total n ctx history d txs cs :
  0 ≤ temporal_registry_retention config → WfDb now db → Compressing config now db events acc total n ctx →
  same_entries d (finalize map_iter ctx).2 → Forall (λ tx, Forall (field_known events history) (tx_fields tx)) txs →
  Forall2 (tx_rel (resolves config now db acc) (λ id p, utxo_lookup events id = Ok p) ctx) txs cs →
  result_map (decompress_transaction (MkDecompressCtx config now d history)) cs =
    Ok ((without_pointer ∘ restored) <$> txs).
Proof.
  intros Hret Hwf Hctx Hd Hknown Hrel. apply result_map_ok. induction Hrel as [|tx c txs cs Htx _ IH]; [constructor|].
  apply Forall_cons in Hknown as [Hk Hknown]. cbn. constructor; [|by apply IH]. clear IH Hknown.
  assert (∀ fields fields', Forall (field_known events history) fields →
    Forall2 (field_rel (resolves config now db acc) (λ id p, utxo_lookup events id = Ok p) ctx) fields fields' →
    result_map (λ f, decompress_field f (MkDecompressCtx config now d history)) fields' = Ok (restored_field <$> fields)) as Hfields.
  { intros fields fields' Hks Hfs. apply result_map_ok. induction Hfs as [|f c' l l' Hf _ IH]; [constructor|].
    apply Forall_cons in Hks as [Hk' Hks]. cbn. constructor; [|by apply IH]. by eapply decompress_field_ok. }
  destruct tx as [plain fields|ptr plain fields], c as [plain' fields'|plain' fields']; try done; destruct Htx as [-> Hf];
    cbn [tx_fields decompress_transaction restored] in *; by rewrite (Hfields _ _ Hk Hf).
Qed.

Lemma patch_mint_ok h txs plain fields :
  Forall not_mint txs → Z.of_nat (length txs) + 1 ≤ 2 ^ 16 →
  let l := txs ++ [DaMint (h, Z.of_nat (length txs)) plain fields] in
  patch_mint h ((without_pointer ∘ restored) <$> l) = Ok (restored <$> l).
Proof.
  intros Hnm Hlen. cbn zeta. rewrite !fmap_app. unfold patch_mint. cbn [fmap list_fmap]. rewrite last_snoc. cbn [restored without_pointer compose].
  rewrite length_app, length_fmap. cbn [length]. replace (Z.of_nat (length txs + 1) - 1) with (Z.of_nat (length txs)) by lia.
  unfold try_into, fit. rewrite decide_True by (unfold in_range; cbn; lia). cbn. f_equal. f_equal.
  replace (length txs + 1 - 1)%nat with (length ((without_pointer ∘ restored) <$> txs)) by (rewrite length_fmap; lia).
  rewrite take_app_length. apply list_fmap_ext. intros i tx Htx%list_elem_of_lookup_2. rewrite Forall_forall in Hnm.
  specialize (Hnm tx Htx). by destruct tx.
Qed.

(** One block: it is compressed, and a reader with the same entries gets it
    back and has the same entries after it. *)
Lemma block_round_trip config db d events history b t0 :
  0 ≤ temporal_registry_retention config → t0 ≤ block_time b → WfDb t0 db → same_entries d db → BlockOk events history b →
  ∃ c db' d', compress kept map_iter config db events b = Ok (c, db')
    ∧ decompress config d history c = Ok ((PartialBlockHeader_from (da_header b), restored <$> da_transactions b), d')
    ∧ WfDb (block_time b) db' ∧ same_entries d' db'.
Proof.
  intros Hret Ht0 Hwf Hsame [Hknown Hkeys (txs & plain & fields & Hnm & Hmint) Hcount]. apply (wf_later _ _ _ Ht0) in Hwf.
  unfold compress. fold (block_time b). set (N := sum_list_with tx_cost (da_transactions b)) in *.
  destruct (prepare_txs_ok config (block_time b) db Hwf Hret (da_transactions b) N) as (cs0 & pctx & -> & Hp & Hcov); [done|].
  destruct (compress_txs_ok config (block_time b) db events Hwf Hret (accessed_keys pctx) (N + N) (da_transactions b) N
    (into_compression_context pctx events)) as (cs & ctx & -> & HI & Hrel); [lia|by apply initial_context|done| |].
  { clear -Hcov Hknown. induction Hknown as [|tx l Hk _ IH]; constructor; apply Forall_cons in Hcov as [Hc Hcov]; [|by apply IH].
    clear -Hc Hk. induction Hk as [|f l' Hf _ IH]; constructor; apply Forall_cons in Hc as [Hc Hcs]; [|by apply IH].
    split; [done|]. destruct f as [v|x|m]; [done| |done]. destruct Hf as (p & ? & ? & _). by exists p. }
  pose proof (finalized_wf config (block_time b) db events Hwf Hret _ _ _ _ HI) as Hwf'.
  pose proof (finalized_writes config (block_time b) db events Hwf _ _ _ _ HI d Hsame) as Hd'.
  pose proof (decompress_transactions_ok config (block_time b) db events (accessed_keys pctx) _ _ ctx history _ _ cs Hret Hwf HI Hd' Hknown Hrel) as Htxs.
  destruct (finalize map_iter ctx) as [regs db'] eqn:Hfin. cbn [fst snd] in *.
  eexists _, db', (write_to_registry regs (block_time b) d). split; [done|]. split; [|done].
  unfold decompress. cbn [VersionedCompressedBlock_new cb_header cb_transactions registrations PartialBlockHeader_from p_consensus time].
  fold (block_time b). rewrite Htxs. cbn [mbind result_bind]. rewrite Hmint in *. rewrite patch_mint_ok; [done|done|].
  rewrite length_app in Hcount. cbn in Hcount. lia.
Qed.

(** A chain of blocks, with the events and the history that go with each. *)
Record ChainEntry := MkChainEntry { ce_events : list ExecutorEvent; ce_history : HistoryDb; ce_block : DaBlock }.
Fixpoint compress_all (config : CompressionConfig) (db : TemporalDb) (l : list ChainEntry) : result CompressionError (list VersionedCompressedBlock) :=
  match l with
  | [] => Ok []
  | e :: l =>
      r ← compress kept map_iter config db (ce_events e) (ce_block e);
      cs ← compress_all config r.2 l;
      mret (r.1 :: cs)
  end.
Fixpoint decompress_all (config : CompressionConfig) (db : TemporalDb) (l : list (HistoryDb * VersionedCompressedBlock))
    : result CompressionError (list (PartialBlockHeader * list DaTransaction)) :=
  match l with
  | [] => Ok []
  | (history, c) :: l =>
      r ← decompress config db history c;
      bs ← decompress_all config r.2 l;
      mret (r.1 :: bs)
  end.

Lemma chain_round_trip config l db d t0 :
  0 ≤ temporal_registry_retention config → WfDb t0 db → same_entries d db →
  Forall (λ e, BlockOk (ce_events e) (ce_history e) (ce_block e)) l → StronglySorted Z.le (t0 :: (block_time ∘ ce_block <$> l)) →
  ∃ cs, compress_all config db l = Ok cs
    ∧ decompress_all config d (zip (ce_history <$> l) cs)
      = Ok ((λ e, (PartialBlockHeader_from (da_header (ce_block e)), restored <$> da_transactions (ce_block e))) <$> l).
Proof.
  intros Hret. revert db d t0. induction l as [|e l IH]; intros db d t0 Hwf Hsame Hok Hs; [by exists []|].
  apply Forall_cons in Hok as [Hb Hok]. cbn in Hs. apply StronglySorted_inv in Hs as [Hs Hle]. apply Forall_cons in Hle as [Hle _].
  destruct (block_round_trip config db d (ce_events e) (ce_history e) (ce_block e) t0 Hret Hle Hwf Hsame Hb) as (c & db' & d' & Hc & Hd & Hwf' & Hs').
  destruct (IH db' d' _ Hwf' Hs' Hok Hs) as (cs & Hcs & Hds). exists (c :: cs). cbn. rewrite Hc. cbn. rewrite Hcs. cbn. split; [done|].
  rewrite Hd. cbn. by rewrite Hds.
Qed.

(** C12 Compression is a round trip over the life of a chain.  Blocks whose
    times do not decrease, which spend coins that their events name and that
    the history has, which end with their mint transaction and have fewer
    values than there are keys, are all compressed, and a reader that starts
    with empty tables and takes the compressed blocks in order gets every block
    back: its header, and its transactions with the values in their places,
    although keys are assigned again and registrations expire.  The
    hypotheses: code is identified by its hash, and iterating over a map gives
    its entries in some order. *)
Theorem compression_round_trip config l t0 :
  0 ≤ temporal_registry_retention config → StronglySorted Z.le (t0 :: (block_time ∘ ce_block <$> l)) →
  Forall (λ e, BlockOk (ce_events e) (ce_history e) (ce_block e)) l →
  ∃ cs, compress_all config TemporalDb_empty l = Ok cs
    ∧ decompress_all config TemporalDb_empty (zip (ce_history <$> l) cs)
      = Ok ((λ e, (PartialBlockHeader_from (da_header (ce_block e)), restored <$> da_transactions (ce_block e))) <$> l).
Proof. intros Hret Hs Hok. by eapply chain_round_trip; [|apply wf_empty|..]. Qed.

(** A value that expired under one key and was registered again under another
    is forgotten by the index when its first key is assigned to something else:
    its second key is alive, but the next block that uses the value registers
    it once more. *)
Lemma reassigned_key_forgets_live_value k1 k2 v w t t' db :
  keyspace w = keyspace v → w ≠ v → k1 ≠ k2 → registry db !! (keyspace v, k1) = Some v →
  let db' := write_registry k1 w t' (write_registry k2 v t db) in
  registry_index_lookup v db' = None ∧ registry db' !! (keyspace v, k2) = Some v ∧ timestamps db' !! (keyspace v, k2) = Some t.
Proof.
  intros Hks Hne Hk Hr. unfold write_registry, registry_index_lookup. cbn [registry timestamps registry_index]. rewrite Hks.
  assert ((keyspace v, k2) ≠ (keyspace v, k1)) as Hk' by congruence. rewrite (lookup_insert_ne (registry db) (keyspace v, k2)) by done.
  rewrite Hr. rewrite lookup_insert_ne by (intros ?%reverse_key_inj; congruence). rewrite lookup_delete_eq.
  by rewrite !(lookup_insert_ne _ (keyspace v, k1)), !lookup_insert_eq by done.
Qed.

(** A block that registers nothing uses up a key all the same. *)
Lemma idle_block_skips_key pctx events ks k :
  get_latest_assigned_key ks (pc_db pctx) = Some k →
  get_latest_assigned_key ks (finalize map_iter (into_compression_context pctx events)).2 = Some (key_next k).
Proof.
  intros Hk. unfold finalize. cbn [snd into_compression_context cx_spaces changes cx_db cx_timestamp].
  assert (map_iter ∅ = []) as Hnil by (apply Permutation_nil_r; by rewrite map_iter_all, map_to_list_empty).
  rewrite write_to_registry_list. unfold all_registrations, keyspaces. rewrite Hnil. cbn.
  unfold get_latest_assigned_key in *. cbn. unfold get_latest_assigned_key.
  destruct ks; repeat first [rewrite lookup_insert_eq|rewrite lookup_insert_ne by done]; by rewrite Hk.
Qed.
End facts.
