(* ===== verification/CompressionSamples.v ===== *)
(** * A chain of compressed blocks

    The keys of three bytes, and a chain in which a coin with a predicate and a
    message are spent, values repeat and registrations expire. *)
From stdpp Require Import fin_maps functions sorting.
From S2P Require Import Prelude FuelTypes BlockTypes ExecutorTypes Compression CompressionFacts.

Definition key_modulus : Z := 2 ^ 24 - 1.
#[local] Instance three_byte_keys : RegistryKeys := {|
  key_zero := 0;
  DEFAULT_VALUE := key_modulus;
  key_next k := (k + 1) mod key_modulus;
  key_valid k := 0 ≤ k < key_modulus;
  key_count := Z.to_nat key_modulus
|}.

Lemma three_byte_iter i k : 0 ≤ k < key_modulus → Nat.iter i key_next k = (k + Z.of_nat i) mod key_modulus.
Proof.
  intros Hk. induction i as [|i IH].
  - cbn [Nat.iter nat_rect]. rewrite Z.add_0_r. symmetry. by apply Z.mod_small.
  - rewrite Nat.iter_succ, IH. cbn [key_next three_byte_keys]. rewrite Zplus_mod_idemp_l. f_equal. lia.
Qed.

#[local] Instance three_byte_laws : RegistryKeysLaws.
Proof.
  split; cbn [key_valid key_zero key_next DEFAULT_VALUE key_count three_byte_keys].
  - by vm_compute.
  - intros k _. apply Z.mod_pos_bound. by vm_compute.
  - lia.
  - intros k i j Hk Hij Heq. change (Nat.iter i key_next k = Nat.iter j key_next k) in Heq. rewrite !three_byte_iter in Heq by done.
    assert (0 < key_modulus) by by vm_compute.
    assert ((Z.of_nat j - Z.of_nat i) mod key_modulus = 0) as Hz.
    { replace (Z.of_nat j - Z.of_nat i) with ((k + Z.of_nat j) - (k + Z.of_nat i)) by lia. rewrite Zminus_mod, <- Heq, Z.sub_diag. done. }
    rewrite Z.mod_small in Hz by lia. lia.
Qed.

#[local] Instance sample_hashing : Hashing := {| sha256 l := Zpos (encode l); merkle_root _ := 0; tx_to_bytes _ := [] |}.

Definition sample_header (h t : Z) : BlockHeader :=
  MkBlockHeader (MkApplicationHeader 1 0 0 (MkGeneratedApplicationFields 2 0 0 0 0)) (MkConsensusHeader 0 h t (MkGeneratedConsensusFields 0)) None.
Definition sample_mint (h : Z) : DaTransaction := DaMint (h, 1) [5] [FieldValue (RvContractId 9); FieldValue (RvAssetId 0)].
Definition sample_coin : CoinField := MkCoinField (77, 0) 3 50 0 (4, 0) (Some [1; 2]) [6].
Definition sample_message : MessageField := MkMessageField 1 2 30 8 (Some [7]) None [].
Definition sample_history : HistoryDb :=
  MkHistoryDb {[4 := [77]]} {[(77, 0) := MkCompressedCoin 3 50 0 (4, 0)]} {[8 := MkMessage 1 2 8 30 [7] 1]}.
Definition sample_chain : list ChainEntry :=
  [MkChainEntry [CoinConsumed (MkCoin (77, 0) 3 50 0 (4, 0))] sample_history
     (MkDaBlock (sample_header 5 100)
        [DaTx [1] [FieldValue (RvScriptCode [36]); FieldCoin sample_coin; FieldMessage sample_message; FieldValue (RvAddress 3)]; sample_mint 5]);
   MkChainEntry [] sample_history (MkDaBlock (sample_header 6 101) [DaTx [] [FieldValue (RvScriptCode [36]); FieldValue (RvAddress 4)]; sample_mint 6]);
   MkChainEntry [] sample_history (MkDaBlock (sample_header 7 120) [DaTx [] [FieldValue (RvScriptCode [36]); FieldValue (RvAddress 4)]; sample_mint 7])].
(** Ten seconds *)
Definition sample_config : CompressionConfig := MkCompressionConfig (10 * 1000000000).

Lemma sample_block_ok events b tx :
  Forall (field_known events sample_history) (tx_fields tx) → not_mint tx →
  da_transactions b = [tx; sample_mint (height (consensus (da_header b)))] → (tx_cost tx ≤ 8)%nat → BlockOk events sample_history b.
Proof.
  intros Hk Hnm Heq Hcost. split; rewrite Heq.
  - constructor; [done|]. constructor; [|done]. by repeat constructor.
  - cbn [sum_list_with]. change (tx_cost (sample_mint _)) with 2%nat.
    assert (32 ≤ key_count)%nat as Hc; [|lia]. change (Z.to_nat 32 ≤ Z.to_nat key_modulus)%nat. apply Z2Nat.inj_le; by vm_compute.
  - exists [tx], [5], [FieldValue (RvContractId 9); FieldValue (RvAssetId 0)]. split; [by constructor|done].
  - by vm_compute.
Qed.

Lemma sample_chain_ok : Forall (λ e, BlockOk (ce_events e) (ce_history e) (ce_block e)) sample_chain.
Proof.
  unfold sample_chain. rewrite !Forall_cons. split_and!; [..|apply Forall_nil; exact I];
    (eapply sample_block_ok; cycle 2; [reflexivity|cbn; lia| |done]); cbn [tx_fields]; rewrite !Forall_cons; split_and!;
    try apply Forall_nil; try exact I; cbn; repeat eexists; done.
Qed.

Lemma compression_round_trip_witness :
  ∃ cs, compress_all (λ l, l) map_to_list sample_config TemporalDb_empty sample_chain = Ok cs
    ∧ decompress_all sample_config TemporalDb_empty (zip (ce_history <$> sample_chain) cs)
      = Ok ((λ e, (PartialBlockHeader_from (da_header (ce_block e)), restored (λ l, l) <$> da_transactions (ce_block e))) <$> sample_chain).
Proof.
  apply (compression_round_trip (λ l, l) map_to_list) with (t0 := 0).
  - intros b b' Hb. cbn in Hb. injection Hb as Hb. by apply encode_inj in Hb.
  - done.
  - by vm_compute.
  - repeat constructor; by vm_compute.
  - apply sample_chain_ok.
Defined.

(** The second block uses the keys of the first, the third registers its
    values again. *)
Lemma sample_registrations :
  match compress_all (λ l, l) map_to_list sample_config TemporalDb_empty sample_chain with
  | Ok cs => (λ c, match c with V0 p => length (all_registrations (registrations p)) end) <$> cs
  | Err _ => []
  end = [4; 1; 3]%nat.
Proof. vm_compute. reflexivity. Qed.
