(* ===== verification/TxPoolTypes.v ===== *)
(** * Transaction pool: data and ports

    The transactions, errors, configuration and the database port of
    [crates/services/txpool_v2], and what the pool uses of the graph library
    [petgraph]: a directed graph whose indices stay valid when other nodes are
    removed. *)
From stdpp Require Import strings.
From S2P Require Import Prelude FuelTypes.

(** ** Transactions of the pool *)

(** [PoolTransaction]: a checked transaction of any kind but mint with the
    metadata the pool asks for.  [pt_blob_id] is set for the [Blob] kind. *)
Record PoolTransaction := MkPoolTx {
  pt_id : TxId;
  pt_inputs : list Input;
  pt_outputs : list Output;
  pt_tip : Z;
  pt_max_gas : Z;
  pt_max_gas_price : Z;
  pt_metered_bytes_size : Z;
  pt_expiration : BlockHeight;
  pt_blob_id : option BlobId
}.

(** ** Errors *)
Inductive BlacklistedError :=
| BlacklistedUTXO (id : UtxoId)
| BlacklistedOwner (owner : Address)
| BlacklistedContract (id : ContractId)
| BlacklistedMessage (nonce : Nonce).

Inductive DependencyError :=
| NotInsertedCollisionIsDependency
| NotInsertedChainDependencyTooBig
| DependentTransactionIsADiamondDeath.

Inductive InputValidationError :=
| NotInsertedIoWrongOwner
| NotInsertedIoWrongAmount
| NotInsertedIoWrongAssetId
| NotInsertedIoMessageMismatch
| NotInsertedIoContractOutput
| NotInsertedInputMessageUnknown (nonce : Nonce)
| NotInsertedInputDependentOnChangeOrVariable
| NotInsertedInputContractDoesNotExist (contract_id : ContractId)
| NotInsertedBlobIdAlreadyTaken (blob_id : BlobId)
| NotInsertedIoCoinMismatch
| WrongOutputNumber (message : string)
| UtxoNotFound (utxo_id : UtxoId)
| MaxGasZero
| DuplicateTxId (tx_id : TxId).

Inductive CollisionReason :=
| CollidedUtxo (id : UtxoId)
| CollidedContractCreation (id : ContractId)
| CollidedBlob (id : BlobId)
| CollidedMessage (nonce : Nonce)
| CollidedUnknown
| MultipleCollisions.

Inductive RemovedReason := LessWorth (tx_id : TxId) | Ttl.

Inductive WasmValidityError := WasmNotEnabled | WasmNotFound | WasmNotValid.

(** The check of a transaction by the virtual machine is third-party code; its
    error is kept as text. *)
Inductive PoolError :=
| GasPriceNotFound (message : string)
| DatabaseError (message : string)
| PoolStorageError (message : string)
| Blacklisted (e : BlacklistedError)
| Collided (r : CollisionReason)
| InputValidation (e : InputValidationError)
| Dependency (e : DependencyError)
| ConsensusValidity (e : string)
| WasmValidity (e : WasmValidityError)
| MintIsDisallowed
| NotInsertedLimitHit
| Removed (reason : RemovedReason)
| SkippedTransaction (message : string)
| TooManyQueuedTransactions
| ServiceCommunicationFailed
| ServiceQueueFull
| InsufficientMaxFee (max_gas_price_from_fee minimal_gas_price : Z).

Inductive MissingInput := MissingUtxo (id : UtxoId) | MissingContract (id : ContractId).
#[export] Instance MissingInput_eq_dec : EqDecision MissingInput.
Proof. solve_decision. Defined.
#[export] Instance MissingInput_countable : Countable MissingInput.
Proof.
  refine (inj_countable' (λ i, match i with MissingUtxo u => inl u | MissingContract c => inr c end)
    (λ s, match s with inl u => MissingUtxo u | inr c => MissingContract c end) _).
  by intros [].
Defined.

Inductive InputValidationErrorType :=
| Inconsistency (e : PoolError)
| ValidationMissingInputs (l : list MissingInput).

Inductive InsertionErrorType :=
| InsertionError (e : PoolError)
| InsertionMissingInputs (l : list MissingInput).

(** [From<InputValidationErrorType>] *)
Definition InsertionErrorType_from (e : InputValidationErrorType) : InsertionErrorType :=
  match e with
  | Inconsistency e => InsertionError e
  | ValidationMissingInputs l => InsertionMissingInputs l
  end.

(** ** Configuration *)
Record BlackList := MkBlackList {
  bl_owners : gset Address;
  bl_coins : gset UtxoId;
  bl_messages : gset Nonce;
  bl_contracts : gset ContractId
}.

Record PoolLimits := MkPoolLimits {
  limit_max_txs : Z;
  limit_max_gas : Z;
  limit_max_bytes_size : Z
}.

Record ServiceChannelLimits := MkServiceChannelLimits {
  max_pending_write_pool_requests : Z;
  max_pending_read_pool_requests : Z
}.

(** The fields of [Config] that the pool and its worker read; times are in
    nanoseconds.  The limit of a chain of dependents is kept by the storage. *)
Record PoolConfig := MkPoolConfig {
  utxo_validation : bool;
  pool_limits : PoolLimits;
  service_channel_limits : ServiceChannelLimits;
  black_list : BlackList;
  pending_pool_tx_ttl : Z;
  max_pending_pool_size_percentage : Z
}.

Definition check_blacklisted_input (self : BlackList) (input : Input) : result BlacklistedError unit :=
  match input with
  | InputCoinSigned c | InputCoinPredicate c =>
      if decide (ci_utxo_id c ∈ bl_coins self) then Err (BlacklistedUTXO (ci_utxo_id c))
      else if decide (ci_owner c ∈ bl_owners self) then Err (BlacklistedOwner (ci_owner c))
      else Ok ()
  | InputContract x =>
      if decide (xi_contract_id x ∈ bl_contracts self) then Err (BlacklistedContract (xi_contract_id x))
      else Ok ()
  | InputMessageCoinSigned m | InputMessageCoinPredicate m
  | InputMessageDataSigned m | InputMessageDataPredicate m =>
      if decide (mi_nonce m ∈ bl_messages self) then Err (BlacklistedMessage (mi_nonce m))
      else if decide (mi_sender m ∈ bl_owners self) then Err (BlacklistedOwner (mi_sender m))
      else if decide (mi_recipient m ∈ bl_owners self) then Err (BlacklistedOwner (mi_recipient m))
      else Ok ()
  end.
Fixpoint check_blacklisted_inputs (self : BlackList) (inputs : list Input) : result BlacklistedError unit :=
  match inputs with
  | [] => Ok ()
  | input :: inputs => check_blacklisted_input self input ≫= λ _, check_blacklisted_inputs self inputs
  end.
Definition check_blacklisting (self : BlackList) (tx : PoolTransaction) : result BlacklistedError unit :=
  check_blacklisted_inputs self (pt_inputs tx).

(** ** The database, [TxPoolPersistentStorage] *)
Record PersistentStorage := MkPersistentStorage {
  ps_utxo : UtxoId → result string (option CompressedCoin);
  ps_contract_exist : ContractId → result string bool;
  ps_blob_exist : BlobId → result string bool;
  ps_message : Nonce → result string (option Message)
}.

(** ** Stored transactions *)
Abbreviation NodeIndex := Z.
(** [SystemTime] *)
Abbreviation Instant := Z.

Record StorageData := MkStorageData {
  transaction : PoolTransaction;
  dependents_cumulative_tip : Z;
  dependents_cumulative_gas : Z;
  dependents_cumulative_bytes_size : Z;
  number_dependents_in_chain : Z;
  creation_instant : Instant
}.

(** ** The graph library

    [StableDiGraph<StorageData, ()>] of petgraph, which is not part of the
    sources.  [nodes] and [edges] say what a graph contains; the laws are the
    documented effect of each operation.  [update_node] is an assignment
    through [node_weight_mut]; the order of neighbours is not specified. *)
Class StableDiGraph := {
  Graph : Type;
  graph_new : Graph;
  node_count : Graph → nat;
  node_weight : Graph → NodeIndex → option StorageData;
  update_node : Graph → NodeIndex → StorageData → Graph;
  add_node : Graph → StorageData → NodeIndex * Graph;
  add_edge : Graph → NodeIndex → NodeIndex → Graph;
  remove_node : Graph → NodeIndex → option StorageData * Graph;
  outgoing : Graph → NodeIndex → list NodeIndex;
  incoming : Graph → NodeIndex → list NodeIndex
}.

Class StableDiGraphLaws `{StableDiGraph} := {
  nodes : Graph → gmap NodeIndex StorageData;
  edges : Graph → list (NodeIndex * NodeIndex);
  nodes_new : nodes graph_new = ∅;
  edges_new : edges graph_new = [];
  node_count_nodes g : node_count g = size (nodes g);
  node_weight_nodes g n : node_weight g n = nodes g !! n;
  update_node_nodes g n d : is_Some (nodes g !! n) → nodes (update_node g n d) = <[n := d]> (nodes g);
  update_node_edges g n d : edges (update_node g n d) ≡ₚ edges g;
  add_node_fresh g d : nodes g !! (add_node g d).1 = None;
  add_node_nodes g d : nodes (add_node g d).2 = <[(add_node g d).1 := d]> (nodes g);
  add_node_edges g d : edges (add_node g d).2 ≡ₚ edges g;
  add_edge_nodes g a b : nodes (add_edge g a b) = nodes g;
  add_edge_edges g a b :
    is_Some (nodes g !! a) → is_Some (nodes g !! b) → edges (add_edge g a b) ≡ₚ (a, b) :: edges g;
  remove_node_result g n : (remove_node g n).1 = nodes g !! n;
  remove_node_nodes g n : nodes (remove_node g n).2 = delete n (nodes g);
  remove_node_edges g n :
    edges (remove_node g n).2 ≡ₚ filter (λ e : NodeIndex * NodeIndex, e.1 ≠ n ∧ e.2 ≠ n) (edges g);
  outgoing_edges g n :
    outgoing g n ≡ₚ snd <$> filter (λ e : NodeIndex * NodeIndex, e.1 = n) (edges g);
  incoming_edges g n :
    incoming g n ≡ₚ fst <$> filter (λ e : NodeIndex * NodeIndex, e.2 = n) (edges g)
}.

(** The iteration order of a [HashMap] or [HashSet]: any enumeration. *)
Class HashOrder := {
  iter_set : gset NodeIndex → list NodeIndex;
  iter_set_perm X : iter_set X ≡ₚ elements X
}.

(** [iter().enumerate()] *)
Definition enumerate {A} (l : list A) : list (Z * A) := zip (seqZ 0 (Z.of_nat (length l))) l.

(** ** What a transaction occupies *)
Definition coin_inputs (tx : PoolTransaction) : list UtxoId :=
  omap (λ i, ci_utxo_id <$> input_coin i) (pt_inputs tx).
Definition message_inputs (tx : PoolTransaction) : list Nonce :=
  omap (λ i, mi_nonce <$> input_message i) (pt_inputs tx).
Definition created_contracts (tx : PoolTransaction) : list ContractId :=
  omap (λ o, match o with OutputContractCreated c _ => Some c | _ => None end) (pt_outputs tx).

Definition contract_inputs (tx : PoolTransaction) : list ContractId :=
  omap (λ i, match i with InputContract x => Some (xi_contract_id x) | _ => None end) (pt_inputs tx).
Definition created_coins (tx : PoolTransaction) : list UtxoId :=
  omap (λ io : Z * Output, match io.2 with OutputCoin _ _ _ => Some (pt_id tx, io.1) | _ => None end)
    (enumerate (pt_outputs tx)).

(** A table from keys to transactions, updated for all keys of one. *)
Definition insert_keys `{Countable K} (ks : list K) (n : NodeIndex) (m : gmap K NodeIndex) : gmap K NodeIndex :=
  foldl (λ m k, <[k := n]> m) m ks.
Definition delete_keys `{Countable K} (ks : list K) (m : gmap K NodeIndex) : gmap K NodeIndex :=
  foldl (λ m k, delete k m) m ks.
