(* ===== verification/TxPoolGraph.v ===== *)
(** * Transaction pool: the dependency graph

    [storage/graph.rs]: the graph of stored transactions, its caches of the
    coins and contracts that pool transactions create, and the
    [extracted_outputs.rs] of transactions that have left the pool for a block.
    [None] is a panic; loops whose length is not evident have fuel. *)
From stdpp Require Import strings.
From S2P Require Import Prelude FuelTypes TxPoolTypes.

(** ** Extracted outputs *)
Record ExtractedOutputs := MkExtractedOutputs {
  contract_created : gmap ContractId TxId;
  contract_created_by_tx : gmap TxId (list ContractId);
  coins_created : gmap TxId (gmap Z (Address * Z * AssetId))
}.
Definition ExtractedOutputs_new : ExtractedOutputs := MkExtractedOutputs ∅ ∅ ∅.

Definition extract_output (tx_id : TxId) (self : ExtractedOutputs) (io : Z * Output) : ExtractedOutputs :=
  let '(idx, output) := io in
  match output with
  | OutputContractCreated contract_id _ =>
      MkExtractedOutputs
        (<[contract_id := tx_id]> (contract_created self))
        (<[tx_id := unwrap_or [] (contract_created_by_tx self !! tx_id) ++ [contract_id]]>
           (contract_created_by_tx self))
        (coins_created self)
  | OutputCoin to amount asset_id =>
      MkExtractedOutputs (contract_created self) (contract_created_by_tx self)
        (<[tx_id := <[idx := (to, amount, asset_id)]> (unwrap_or ∅ (coins_created self !! tx_id))]>
           (coins_created self))
  | OutputContract _ | OutputChange _ _ _ | OutputVariable _ _ _ => self
  end.
Definition extract_input (self : ExtractedOutputs) (input : Input) : ExtractedOutputs :=
  match input with
  | InputCoinSigned c | InputCoinPredicate c =>
      MkExtractedOutputs (contract_created self) (contract_created_by_tx self)
        (alter (delete (ci_utxo_id c).2) (ci_utxo_id c).1 (coins_created self))
  | _ => self
  end.
Definition new_extracted_transaction (tx : PoolTransaction) (self : ExtractedOutputs) : ExtractedOutputs :=
  foldl extract_input (foldl (extract_output (pt_id tx)) self (enumerate (pt_outputs tx))) (pt_inputs tx).

Definition new_executed_transaction (tx_id : TxId) (self : ExtractedOutputs) : ExtractedOutputs :=
  MkExtractedOutputs
    (foldl (λ m contract_id, delete contract_id m) (contract_created self)
       (unwrap_or [] (contract_created_by_tx self !! tx_id)))
    (delete tx_id (contract_created_by_tx self))
    (delete tx_id (coins_created self)).
Definition new_skipped_transaction (tx_id : TxId) (self : ExtractedOutputs) : ExtractedOutputs :=
  new_executed_transaction tx_id self.

Definition contract_exists (self : ExtractedOutputs) (contract_id : ContractId) : bool :=
  bool_decide (is_Some (contract_created self !! contract_id)).
Definition coin_exists (self : ExtractedOutputs) (utxo_id : UtxoId) (address : Address) (amount : Z)
    (asset_id : AssetId) : bool :=
  match coins_created self !! utxo_id.1 ≫= λ coins : gmap Z (Address * Z * AssetId), coins !! utxo_id.2 with
  | Some coin => bool_decide (coin = (address, amount, asset_id))
  | None => false
  end.

(** ** The graph storage *)
Section graph.
Context `{StableDiGraph, HashOrder}.

Record GraphStorage := MkGraphStorage {
  max_txs_chain_count : Z;
  graph : Graph;
  coins_creators : gmap UtxoId NodeIndex;
  contracts_creators : gmap ContractId NodeIndex
}.
Definition GraphStorage_new (max_txs_chain_count : Z) : GraphStorage :=
  MkGraphStorage max_txs_chain_count graph_new ∅ ∅.
Definition with_graph (g : Graph) (self : GraphStorage) : GraphStorage :=
  MkGraphStorage (max_txs_chain_count self) g (coins_creators self) (contracts_creators self).

(** A loop over a list whose body may panic. *)
Fixpoint fold_panic {A B} (f : A → B → option A) (a : A) (l : list B) : option A :=
  match l with
  | [] => Some a
  | x :: l => f a x ≫= λ a, fold_panic f a l
  end.

Definition reduced (root removed_node : StorageData) : StorageData :=
  MkStorageData (transaction root)
    (saturating_sub u64 (dependents_cumulative_tip root) (dependents_cumulative_tip removed_node))
    (saturating_sub u64 (dependents_cumulative_gas root) (dependents_cumulative_gas removed_node))
    (saturating_sub usize (dependents_cumulative_bytes_size root) (dependents_cumulative_bytes_size removed_node))
    (saturating_sub usize (number_dependents_in_chain root) (number_dependents_in_chain removed_node))
    (creation_instant root).

Fixpoint reduce_dependencies_cumulative_gas_tip_and_chain_count (fuel : nat) (removed_node : StorageData)
    (g : Graph) (root_id : NodeIndex) : option Graph :=
  match fuel with
  | O => None
  | S fuel =>
      match node_weight g root_id with
      | None => Some g
      | Some root =>
          let g := update_node g root_id (reduced root removed_node) in
          fold_panic (reduce_dependencies_cumulative_gas_tip_and_chain_count fuel removed_node) g
            (incoming g root_id)
      end
  end.

(** The keys of the caches that a transaction owns. *)
Definition cache_output (tx_id : TxId) (node_id : NodeIndex) (self : GraphStorage) (io : Z * Output)
    : GraphStorage :=
  let '(index, output) := io in
  match output with
  | OutputCoin _ _ _ =>
      MkGraphStorage (max_txs_chain_count self) (graph self)
        (<[(tx_id, index) := node_id]> (coins_creators self)) (contracts_creators self)
  | OutputContractCreated contract_id _ =>
      MkGraphStorage (max_txs_chain_count self) (graph self)
        (coins_creators self) (<[contract_id := node_id]> (contracts_creators self))
  | _ => self
  end.
Definition cache_tx_infos (tx_id : TxId) (node_id : NodeIndex) (self : GraphStorage) : option GraphStorage :=
  node ← node_weight (graph self) node_id;
  Some (foldl (cache_output tx_id node_id) self (enumerate (pt_outputs (transaction node)))).

Definition clear_output (tx_id : TxId) (self : GraphStorage) (io : Z * Output) : GraphStorage :=
  let '(index, output) := io in
  match output with
  | OutputCoin _ _ _ =>
      MkGraphStorage (max_txs_chain_count self) (graph self)
        (delete (tx_id, index) (coins_creators self)) (contracts_creators self)
  | OutputContractCreated contract_id _ =>
      MkGraphStorage (max_txs_chain_count self) (graph self)
        (coins_creators self) (delete contract_id (contracts_creators self))
  | _ => self
  end.
Definition clear_cache (storage_entry : StorageData) (self : GraphStorage) : GraphStorage :=
  let tx := transaction storage_entry in
  foldl (clear_output (pt_id tx)) self (enumerate (pt_outputs tx)).

(** The body of the loop of [bfs]: takes one node out. *)
Definition bfs_remove (self : GraphStorage) (remove : NodeIndex) : option (StorageData * list NodeIndex * GraphStorage) :=
  let dependents := outgoing (graph self) remove in
  let dependencies := incoming (graph self) remove in
  let '(removed, g) := remove_node (graph self) remove in
  entry ← removed;
  let self := clear_cache entry (with_graph g self) in
  g ← fold_panic
        (reduce_dependencies_cumulative_gas_tip_and_chain_count (S (node_count (graph self))) entry)
        (graph self) dependencies;
  Some (entry, dependents, with_graph g self).

Fixpoint bfs_loop (fuel : nat) (queue : list NodeIndex) (res : list StorageData) (self : GraphStorage)
    : option (list StorageData * GraphStorage) :=
  match queue with
  | [] => Some (res, self)
  | remove :: queue =>
      match fuel with
      | O => None
      | S fuel =>
          '(entry, dependents, self) ← bfs_remove self remove;
          bfs_loop fuel (queue ++ dependents) (res ++ [entry]) self
      end
  end.
Definition bfs (root : NodeIndex) (self : GraphStorage) : option (list StorageData * GraphStorage) :=
  match node_weight (graph self) root with
  | None => Some ([], self)
  | Some _ => bfs_loop (node_count (graph self)) [root] [] self
  end.

Definition remove_transaction_and_dependents_subtree (index : NodeIndex) (self : GraphStorage)
    : option (list StorageData * GraphStorage) := bfs index self.

Definition remove_transaction (index : NodeIndex) (self : GraphStorage) : option StorageData * GraphStorage :=
  let '(removed, g) := remove_node (graph self) index in
  match removed with
  | Some entry => (Some entry, clear_cache entry (with_graph g self))
  | None => (None, with_graph g self)
  end.

Definition has_dependencies (self : GraphStorage) (index : NodeIndex) : bool :=
  bool_decide (incoming (graph self) index ≠ []).

(** ** Checks *)
Definition check_if_coin_input_can_spend_output (output : Output) (input : Input) : result PoolError unit :=
  match input with
  | InputCoinSigned c | InputCoinPredicate c =>
      match output with
      | OutputCoin to amount asset_id =>
          if decide (to ≠ ci_owner c) then Err (InputValidation NotInsertedIoWrongOwner)
          else if decide (amount ≠ ci_amount c) then Err (InputValidation NotInsertedIoWrongAmount)
          else if decide (asset_id ≠ ci_asset_id c) then Err (InputValidation NotInsertedIoWrongAssetId)
          else Ok ()
      | OutputContract _ => Err (InputValidation NotInsertedIoContractOutput)
      | OutputChange _ _ _ => Err (InputValidation NotInsertedInputDependentOnChangeOrVariable)
      | OutputVariable _ _ _ => Err (InputValidation NotInsertedInputDependentOnChangeOrVariable)
      | OutputContractCreated _ _ => Err (InputValidation NotInsertedIoContractOutput)
      end
  | _ => Ok ()
  end.

(** The transaction of the pool that creates what the input needs. *)
Definition creator (self : GraphStorage) (input : Input) : option NodeIndex :=
  match input with
  | InputCoinSigned c | InputCoinPredicate c => coins_creators self !! ci_utxo_id c
  | InputContract x => contracts_creators self !! xi_contract_id x
  | _ => None
  end.
Fixpoint collect_dependencies (self : GraphStorage) (direct_dependencies : gset NodeIndex)
    (inputs : list Input) : result PoolError (gset NodeIndex) :=
  match inputs with
  | [] => Ok direct_dependencies
  | input :: inputs =>
      match creator self input with
      | Some node_id =>
          let direct_dependencies := {[node_id]} ∪ direct_dependencies in
          if decide (Z.of_nat (size direct_dependencies) >= max_txs_chain_count self)
          then Err (Dependency NotInsertedChainDependencyTooBig)
          else collect_dependencies self direct_dependencies inputs
      | None => collect_dependencies self direct_dependencies inputs
      end
  end.
Definition collect_transaction_direct_dependencies (self : GraphStorage) (tx : PoolTransaction)
    : result PoolError (gset NodeIndex) :=
  collect_dependencies self ∅ (pt_inputs tx).

(** [CheckedTransaction] of [storage/checked_collision.rs] *)
Record CheckedTransaction := MkChecked {
  checked_tx : PoolTransaction;
  direct_dependencies : gset NodeIndex;
  all_dependencies : gset NodeIndex
}.

(** The walk over the dependencies.  The top of the stack comes first. *)
Fixpoint walk_dependencies (fuel : nat) (self : GraphStorage) (to_check : list NodeIndex)
    (all_dependencies : gset NodeIndex) : option (result PoolError (gset NodeIndex)) :=
  match to_check with
  | [] => Some (Ok all_dependencies)
  | node_id :: to_check =>
      match fuel with
      | O => None
      | S fuel =>
          if decide (node_id ∈ all_dependencies)
          then Some (Err (Dependency DependentTransactionIsADiamondDeath))
          else
            let all_dependencies := {[node_id]} ∪ all_dependencies in
            if decide (Z.of_nat (size all_dependencies) >= max_txs_chain_count self)
            then Some (Err (Dependency NotInsertedChainDependencyTooBig))
            else
              match node_weight (graph self) node_id with
              | None => walk_dependencies fuel self to_check all_dependencies
              | Some dependency_node =>
                  if decide (number_dependents_in_chain dependency_node >= max_txs_chain_count self)
                  then Some (Err (Dependency NotInsertedChainDependencyTooBig))
                  else walk_dependencies fuel self (rev (incoming (graph self) node_id) ++ to_check)
                         all_dependencies
              end
      end
  end.
Definition can_store_transaction (self : GraphStorage) (tx : PoolTransaction)
    : option (result PoolError CheckedTransaction) :=
  match collect_transaction_direct_dependencies self tx with
  | Err e => Some (Err e)
  | Ok direct =>
      match walk_dependencies (S (Z.to_nat (max_txs_chain_count self))) self (rev (iter_set direct)) ∅ with
      | None => None
      | Some (Err e) => Some (Err e)
      | Some (Ok all) => Some (Ok (MkChecked tx direct all))
      end
  end.

Definition bump (tx : PoolTransaction) (node : StorageData) : StorageData :=
  MkStorageData (transaction node)
    (saturating_add u64 (dependents_cumulative_tip node) (pt_tip tx))
    (saturating_add u64 (dependents_cumulative_gas node) (pt_max_gas tx))
    (saturating_add usize (dependents_cumulative_bytes_size node) (pt_metered_bytes_size tx))
    (saturating_add usize (number_dependents_in_chain node) 1)
    (creation_instant node).
Definition bump_node (tx : PoolTransaction) (g : Graph) (node_id : NodeIndex) : Graph :=
  match node_weight g node_id with
  | None => g
  | Some node => update_node g node_id (bump tx node)
  end.
Definition connect (node_id : NodeIndex) (g : Graph) (dependency : NodeIndex) : option Graph :=
  match node_weight g dependency with
  | None => None
  | Some _ => Some (add_edge g dependency node_id)
  end.
Definition store_transaction (checked : CheckedTransaction) (now : Instant) (self : GraphStorage)
    : option (NodeIndex * GraphStorage) :=
  let tx := checked_tx checked in
  let g := foldl (bump_node tx) (graph self) (iter_set (all_dependencies checked)) in
  let '(node_id, g) := add_node g
    (MkStorageData tx (pt_tip tx) (pt_max_gas tx) (pt_metered_bytes_size tx) 1 now) in
  g ← fold_panic (connect node_id) g (iter_set (direct_dependencies checked));
  self ← cache_tx_infos (pt_id tx) node_id (with_graph g self);
  Some (node_id, self).

(** ** Validation of inputs

    [Some (Some m)] is an input that is missing, [Some None] one that is fine. *)
Definition validate_input (self : GraphStorage) (ps : PersistentStorage) (extracted : ExtractedOutputs)
    (utxo_validation : bool) (input : Input)
    : option (result InputValidationErrorType (option MissingInput)) :=
  match input with
  | InputCoinSigned c | InputCoinPredicate c =>
      match coins_creators self !! ci_utxo_id c with
      | Some node_id =>
          match node_weight (graph self) node_id with
          | None => Some (Err (Inconsistency (PoolStorageError "Node not found")))
          | Some node =>
              match pt_outputs (transaction node) !! Z.to_nat (ci_utxo_id c).2 with
              | None => None
              | Some output =>
                  match check_if_coin_input_can_spend_output output input with
                  | Err e => Some (Err (Inconsistency e))
                  | Ok _ => Some (Ok None)
                  end
              end
          end
      | None =>
          if utxo_validation then
            match ps_utxo ps (ci_utxo_id c) with
            | Ok (Some coin) =>
                match coin_matches_input coin input with
                | None => None
                | Some true => Some (Ok None)
                | Some false => Some (Err (Inconsistency (InputValidation NotInsertedIoCoinMismatch)))
                end
            | Ok None =>
                if coin_exists extracted (ci_utxo_id c) (ci_owner c) (ci_amount c) (ci_asset_id c)
                then Some (Ok None)
                else Some (Ok (Some (MissingUtxo (ci_utxo_id c))))
            | Err e => Some (Err (Inconsistency (DatabaseError e)))
            end
          else Some (Ok None)
      end
  | InputMessageCoinSigned m | InputMessageCoinPredicate m
  | InputMessageDataSigned m | InputMessageDataPredicate m =>
      if utxo_validation then
        match ps_message ps (mi_nonce m) with
        | Ok (Some db_message) =>
            match message_matches_input db_message input with
            | None => None
            | Some true => Some (Ok None)
            | Some false => Some (Err (Inconsistency (InputValidation NotInsertedIoMessageMismatch)))
            end
        | Ok None => Some (Err (Inconsistency (InputValidation (NotInsertedInputMessageUnknown (mi_nonce m)))))
        | Err e => Some (Err (Inconsistency (DatabaseError e)))
        end
      else Some (Ok None)
  | InputContract x =>
      match contracts_creators self !! xi_contract_id x with
      | Some _ => Some (Ok None)
      | None =>
          match ps_contract_exist ps (xi_contract_id x) with
          | Ok true => Some (Ok None)
          | Ok false =>
              if contract_exists extracted (xi_contract_id x) then Some (Ok None)
              else Some (Ok (Some (MissingContract (xi_contract_id x))))
          | Err e => Some (Err (Inconsistency (DatabaseError e)))
          end
      end
  end.
Fixpoint validate_inputs_loop (self : GraphStorage) (ps : PersistentStorage) (extracted : ExtractedOutputs)
    (utxo_validation : bool) (missing_inputs : list MissingInput) (inputs : list Input)
    : option (result InputValidationErrorType unit) :=
  match inputs with
  | [] =>
      match missing_inputs with
      | [] => Some (Ok ())
      | _ => Some (Err (ValidationMissingInputs missing_inputs))
      end
  | input :: inputs =>
      match validate_input self ps extracted utxo_validation input with
      | None => None
      | Some (Err e) => Some (Err e)
      | Some (Ok None) => validate_inputs_loop self ps extracted utxo_validation missing_inputs inputs
      | Some (Ok (Some m)) =>
          validate_inputs_loop self ps extracted utxo_validation (missing_inputs ++ [m]) inputs
      end
  end.
Definition validate_inputs (self : GraphStorage) (tx : PoolTransaction) (ps : PersistentStorage)
    (extracted : ExtractedOutputs) (utxo_validation : bool) : option (result InputValidationErrorType unit) :=
  validate_inputs_loop self ps extracted utxo_validation [] (pt_inputs tx).
End graph.
