(* ===== verification/TxPool.v ===== *)
(** * Transaction pool: collisions, selection and the pool

    [collision_manager/basic.rs], [selection_algorithms/ratio_tip_gas.rs],
    [pool/collisions.rs] and [pool.rs].  [None] is a panic.  Here and in
    [TxPoolGraph.v] the program is built without debug assertions, as a release
    is; only [process_block], whose assertions can fail, takes the kind of the
    build as an argument.  The current time is an argument of [insert]; the log
    of warnings that [process_block] writes is part of its result; notifications
    and metrics are left out. *)
From stdpp Require Import strings.
From S2P Require Import Prelude FuelTypes TxPoolTypes TxPoolGraph.

(** ** The collision manager *)
Record BasicCollisionManager := MkCollisionManager {
  messages_spenders : gmap Nonce NodeIndex;
  coins_spenders : gmap UtxoId NodeIndex;
  cm_contracts_creators : gmap ContractId NodeIndex;
  blobs_users : gmap BlobId NodeIndex
}.
Definition BasicCollisionManager_new : BasicCollisionManager := MkCollisionManager ∅ ∅ ∅ ∅.

(** The spenders of all outputs of a transaction but the very last possible
    one, in the order of the outputs. *)
Definition get_coins_spenders (self : BasicCollisionManager) (tx_creator_id : TxId) : list NodeIndex :=
  omap (λ i, coins_spenders self !! (tx_creator_id, i)) (seqZ 0 65535).

Abbreviation Collisions := (gmap NodeIndex (list CollisionReason)).

Definition collide (o : option NodeIndex) (reason : CollisionReason) (collisions : Collisions) : Collisions :=
  match o with
  | Some storage_id => <[storage_id := unwrap_or [] (collisions !! storage_id) ++ [reason]]> collisions
  | None => collisions
  end.
Definition collide_input (self : BasicCollisionManager) (collisions : Collisions) (input : Input) : Collisions :=
  match input with
  | InputCoinSigned c | InputCoinPredicate c =>
      collide (coins_spenders self !! ci_utxo_id c) (CollidedUtxo (ci_utxo_id c)) collisions
  | InputMessageCoinSigned m | InputMessageCoinPredicate m
  | InputMessageDataSigned m | InputMessageDataPredicate m =>
      collide (messages_spenders self !! mi_nonce m) (CollidedMessage (mi_nonce m)) collisions
  | InputContract _ => collisions
  end.
Fixpoint collide_outputs (self : BasicCollisionManager) (tx_id : TxId) (collisions : Collisions)
    (outputs : list (Z * Output)) : result PoolError Collisions :=
  match outputs with
  | [] => Ok collisions
  | (i, output) :: outputs =>
      match output with
      | OutputContractCreated contract_id _ =>
          collide_outputs self tx_id
            (collide (cm_contracts_creators self !! contract_id) (CollidedContractCreation contract_id) collisions)
            outputs
      | OutputCoin _ _ _ | OutputChange _ _ _ | OutputVariable _ _ _ =>
          match coins_spenders self !! (tx_id, i) with
          | Some _ => Err (InputValidation (DuplicateTxId tx_id))
          | None => collide_outputs self tx_id collisions outputs
          end
      | OutputContract _ => collide_outputs self tx_id collisions outputs
      end
  end.
Definition find_collisions (self : BasicCollisionManager) (tx : PoolTransaction) : result PoolError Collisions :=
  let collisions : Collisions :=
    match pt_blob_id tx with
    | Some blob_id =>
        match blobs_users self !! blob_id with
        | Some state => <[state := [CollidedBlob blob_id]]> ∅
        | None => ∅
        end
    | None => ∅
    end in
  let collisions := foldl (collide_input self) collisions (pt_inputs tx) in
  collide_outputs self (pt_id tx) collisions (enumerate (pt_outputs tx)).

Definition on_stored_transaction (storage_id : NodeIndex) (store_entry : StorageData)
    (self : BasicCollisionManager) : BasicCollisionManager :=
  let tx := transaction store_entry in
  MkCollisionManager
    (insert_keys (message_inputs tx) storage_id (messages_spenders self))
    (insert_keys (coin_inputs tx) storage_id (coins_spenders self))
    (insert_keys (created_contracts tx) storage_id (cm_contracts_creators self))
    (insert_keys (option_list (pt_blob_id tx)) storage_id (blobs_users self)).
Definition on_removed_collisions (tx : PoolTransaction) (self : BasicCollisionManager) : BasicCollisionManager :=
  MkCollisionManager
    (delete_keys (message_inputs tx) (messages_spenders self))
    (delete_keys (coin_inputs tx) (coins_spenders self))
    (delete_keys (created_contracts tx) (cm_contracts_creators self))
    (delete_keys (option_list (pt_blob_id tx)) (blobs_users self)).

(** ** The selection algorithm *)

(** [Ratio<u64>]: [Ratio::new] panics on a zero denominator, and ratios are
    compared exactly. *)
Definition ratio_new (numer denom : Z) : option (Z * Z) :=
  if decide (denom = 0) then None else Some (numer, denom).
Definition ratio_cmp (a b : Z * Z) : comparison := (a.1 * b.2) ?= (b.1 * a.2).
Definition ratio_gt (a b : Z * Z) : bool :=
  match ratio_cmp a b with Gt => true | _ => false end.

Record Key := MkKey {
  key_ratio : Z * Z;
  key_creation_instant : Instant;
  key_tx_id : TxId
}.
(** [Ord for Key] *)
Definition key_cmp (self other : Key) : comparison :=
  match ratio_cmp (key_ratio self) (key_ratio other) with
  | Eq =>
      match key_creation_instant other ?= key_creation_instant self with
      | Eq => key_tx_id self ?= key_tx_id other
      | c => c
      end
  | c => c
  end.
(** Its denominator is not zero: a transaction without gas is never stored. *)
Definition key (store_entry : StorageData) : Key :=
  let tx := transaction store_entry in
  MkKey (saturating_add u64 (pt_tip tx) 1, pt_max_gas tx) (creation_instant store_entry) (pt_id tx).

(** [BTreeMap<Reverse<Key>, StorageIndex>]: the largest key comes first. *)
Abbreviation Executables := (list (Key * NodeIndex)).
Fixpoint btree_insert (k : Key) (n : NodeIndex) (l : Executables) : Executables :=
  match l with
  | [] => [(k, n)]
  | (k', n') :: l' =>
      match key_cmp k k' with
      | Gt => (k, n) :: l
      | Eq => (k', n) :: l'
      | Lt => (k', n') :: btree_insert k n l'
      end
  end.
Definition btree_remove (k : Key) (l : Executables) : Executables :=
  filter (λ e : Key * NodeIndex, key_cmp k e.1 ≠ Eq) l.

Definition new_executable_transaction (storage_id : NodeIndex) (store_entry : StorageData) (self : Executables)
    : Executables := btree_insert (key store_entry) storage_id self.
Definition on_removed_transaction (store_entry : StorageData) (self : Executables) : Executables :=
  btree_remove (key store_entry) self.
Definition get_less_worth_txs (self : Executables) : list NodeIndex := rev (snd <$> self).
Definition number_of_executable_transactions (self : Executables) : Z := Z.of_nat (length self).

Record Constraints := MkConstraints {
  minimal_gas_price : Z;
  max_gas : Z;
  maximum_txs : Z;
  maximum_block_size : Z
}.

Section pool.
Context `{StableDiGraph, HashOrder}.

(** The local state of [gather_best_txs]. *)
Record GatherState := MkGatherState {
  gas_left : Z;
  space_left : Z;
  nb_left : Z;
  gathered : list StorageData;
  gather_storage : GraphStorage;
  clean_up_list : list Key;
  transactions_to_remove : list Key;
  transactions_to_promote : list NodeIndex
}.

(** One executable transaction, in a pass over them. *)
Definition gather_one (constraints : Constraints) (s : GatherState) (entry : Key * NodeIndex) : option GatherState :=
  let '(k, storage_id) := entry in
  match node_weight (graph (gather_storage s)) storage_id with
  | None =>
      Some (MkGatherState (gas_left s) (space_left s) (nb_left s) (gathered s) (gather_storage s)
              (clean_up_list s) (transactions_to_remove s ++ [k]) (transactions_to_promote s))
  | Some stored =>
      let tx := transaction stored in
      if decide (pt_max_gas_price tx < minimal_gas_price constraints) then Some s
      else if decide (pt_max_gas tx > gas_left s ∨ pt_metered_bytes_size tx > space_left s) then Some s
      else
        let dependents := outgoing (graph (gather_storage s)) storage_id in
        let '(removed, storage) := remove_transaction storage_id (gather_storage s) in
        entry ← removed;
        Some (MkGatherState
                (saturating_sub u64 (gas_left s) (pt_max_gas tx))
                (saturating_sub usize (space_left s) (pt_metered_bytes_size tx))
                (saturating_sub u16 (nb_left s) 1)
                (gathered s ++ [entry]) storage
                (clean_up_list s ++ [k]) (transactions_to_remove s)
                (transactions_to_promote s ++ filter (λ d, has_dependencies storage d = false) dependents))
  end.
Fixpoint gather_pass (constraints : Constraints) (s : GatherState) (l : Executables) : option GatherState :=
  match l with
  | [] => Some s
  | entry :: l =>
      if decide (nb_left s = 0 ∨ gas_left s = 0 ∨ space_left s = 0) then Some s
      else s ← gather_one constraints s entry; gather_pass constraints s l
  end.

Definition promote_or_panic (storage : GraphStorage) (self : Executables) (promote : NodeIndex) : option Executables :=
  entry ← node_weight (graph storage) promote;
  Some (new_executable_transaction promote entry self).

Fixpoint gather_loop (fuel : nat) (constraints : Constraints) (gas space nb : Z) (res : list StorageData)
    (self : Executables) (storage : GraphStorage) : option (list StorageData * Executables * GraphStorage) :=
  if decide (gas > 0 ∧ nb > 0 ∧ space > 0 ∧ self ≠ []) then
    match fuel with
    | O => None
    | S fuel =>
        s ← gather_pass constraints (MkGatherState gas space nb res storage [] [] []) self;
        let self := foldl (λ l k, btree_remove k l) self (transactions_to_remove s) in
        if decide (clean_up_list s = [] ∧ transactions_to_promote s = [])
        then Some (gathered s, self, gather_storage s)
        else
          let self := foldl (λ l k, btree_remove k l) self (clean_up_list s) in
          self ← fold_panic (promote_or_panic (gather_storage s)) self (transactions_to_promote s);
          gather_loop fuel constraints (gas_left s) (space_left s) (nb_left s) (gathered s) self (gather_storage s)
    end
  else Some (res, self, storage).
Definition gather_best_txs (constraints : Constraints) (self : Executables) (storage : GraphStorage)
    : option (list StorageData * Executables * GraphStorage) :=
  gather_loop (S (node_count (graph storage))) constraints (max_gas constraints) (maximum_block_size constraints)
    (maximum_txs constraints) [] self storage.

(** ** Collision requirements *)
Definition is_better_than_collision (tx : PoolTransaction) (collision : NodeIndex) (storage : GraphStorage)
    : option (result CollisionReason bool) :=
  new_tx_ratio ← ratio_new (pt_tip tx) (pt_max_gas tx);
  match node_weight (graph storage) collision with
  | None => Some (Err CollidedUnknown)
  | Some colliding_tx =>
      colliding_tx_ratio ←
        ratio_new (dependents_cumulative_tip colliding_tx) (dependents_cumulative_gas colliding_tx);
      Some (Ok (ratio_gt new_tx_ratio colliding_tx_ratio))
  end.
Fixpoint check_collisions (tx : PoolTransaction) (storage : GraphStorage) (collisions : Collisions)
    (l : list NodeIndex) : option (result CollisionReason unit) :=
  match l with
  | [] => Some (Ok ())
  | collision :: l =>
      match is_better_than_collision tx collision storage with
      | None => None
      | Some (Err e) => Some (Err e)
      | Some (Ok true) => check_collisions tx storage collisions l
      | Some (Ok false) =>
          match unwrap_or [] (collisions !! collision) with
          | reason :: _ => Some (Err reason)
          | [] => Some (Err CollidedUnknown)
          end
      end
  end.
Definition check_collision_requirements (self : Collisions) (tx : PoolTransaction) (has_dependencies : bool)
    (storage : GraphStorage) : option (result CollisionReason unit) :=
  if decide (has_dependencies = true ∧ (1 < size self)%nat) then Some (Err MultipleCollisions)
  else check_collisions tx storage self (iter_set (dom self)).

(** ** The pool *)
Record TxPoolStats := MkStats { stats_tx_count : Z; stats_total_size : Z; stats_total_gas : Z }.

Record Pool := MkPool {
  config : PoolConfig;
  storage : GraphStorage;
  collision_manager : BasicCollisionManager;
  selection_algorithm : Executables;
  tx_id_to_storage_id : gmap TxId NodeIndex;
  extracted_outputs : ExtractedOutputs;
  current_gas : Z;
  current_bytes_size : Z;
  pool_stats : TxPoolStats
}.
Definition Pool_new (c : PoolConfig) (max_txs_chain_count : Z) : Pool :=
  MkPool c (GraphStorage_new max_txs_chain_count) BasicCollisionManager_new [] ∅ ExtractedOutputs_new 0 0
    (MkStats 0 0 0).

Definition tx_count (self : Pool) : Z := Z.of_nat (size (tx_id_to_storage_id self)).
Definition contains (self : Pool) (tx_id : TxId) : bool :=
  bool_decide (is_Some (tx_id_to_storage_id self !! tx_id)).
Definition pool_get (self : Pool) (tx_id : TxId) : option StorageData :=
  tx_id_to_storage_id self !! tx_id ≫= node_weight (graph (storage self)).

Definition update_stats (self : Pool) : Pool :=
  MkPool (config self) (storage self) (collision_manager self) (selection_algorithm self)
    (tx_id_to_storage_id self) (extracted_outputs self) (current_gas self) (current_bytes_size self)
    (MkStats (tx_count self) (current_bytes_size self) (current_gas self)).
Definition with_storage (s : GraphStorage) (self : Pool) : Pool :=
  MkPool (config self) s (collision_manager self) (selection_algorithm self)
    (tx_id_to_storage_id self) (extracted_outputs self) (current_gas self) (current_bytes_size self)
    (pool_stats self).
Definition with_selection (l : Executables) (self : Pool) : Pool :=
  MkPool (config self) (storage self) (collision_manager self) l
    (tx_id_to_storage_id self) (extracted_outputs self) (current_gas self) (current_bytes_size self)
    (pool_stats self).
Definition with_extracted (e : ExtractedOutputs) (self : Pool) : Pool :=
  MkPool (config self) (storage self) (collision_manager self) (selection_algorithm self)
    (tx_id_to_storage_id self) e (current_gas self) (current_bytes_size self) (pool_stats self).
Definition forget_id (tx_id : TxId) (self : Pool) : Pool :=
  MkPool (config self) (storage self) (collision_manager self) (selection_algorithm self)
    (delete tx_id (tx_id_to_storage_id self)) (extracted_outputs self) (current_gas self)
    (current_bytes_size self) (pool_stats self).

(** The body of the loop of [update_components_and_caches_on_removal]. *)
Definition forget_entry (self : Pool) (storage_entry : StorageData) : Pool :=
  let tx := transaction storage_entry in
  MkPool (config self) (storage self)
    (on_removed_collisions tx (collision_manager self))
    (on_removed_transaction storage_entry (selection_algorithm self))
    (delete (pt_id tx) (tx_id_to_storage_id self)) (extracted_outputs self)
    (saturating_sub u64 (current_gas self) (pt_max_gas tx))
    (saturating_sub usize (current_bytes_size self) (pt_metered_bytes_size tx))
    (pool_stats self).
Definition update_components_and_caches_on_removal (removed_transactions : list StorageData) (self : Pool) : Pool :=
  foldl forget_entry self removed_transactions.

Definition txs_of (l : list StorageData) : list PoolTransaction := transaction <$> l.

(** The loops that remove subtrees: the removed entries are collected. *)
Definition remove_subtree (acc : list StorageData * Pool) (index : NodeIndex) : option (list StorageData * Pool) :=
  let '(removed_transactions, self) := acc in
  '(removed, s) ← remove_transaction_and_dependents_subtree index (storage self);
  Some (removed_transactions ++ removed,
        update_components_and_caches_on_removal removed (with_storage s self)).

Definition check_blob_does_not_exist (tx : PoolTransaction) (ps : PersistentStorage) : result PoolError unit :=
  match pt_blob_id tx with
  | None => Ok ()
  | Some blob_id =>
      match ps_blob_exist ps blob_id with
      | Err e => Err (DatabaseError e)
      | Ok true => Err (InputValidation (NotInsertedBlobIdAlreadyTaken blob_id))
      | Ok false => Ok ()
      end
  end.

Record NotEnoughSpace := MkNotEnoughSpace {
  space_gas_left : Z;
  space_bytes_left : Z;
  space_txs_left : Z
}.
Inductive SpaceCheckResult := EnoughSpace | NoSpace (left_ : NotEnoughSpace).

(** The limits that a space computation compares with. *)
Definition within_limits (self : Pool) (s : NotEnoughSpace) : bool :=
  bool_decide (space_gas_left s ≤ limit_max_gas (pool_limits (config self))
    ∧ space_bytes_left s ≤ limit_max_bytes_size (pool_limits (config self))
    ∧ space_txs_left s ≤ limit_max_txs (pool_limits (config self))).

Definition can_fit_into_pool (self : Pool) (checked : CheckedTransaction) : result PoolError SpaceCheckResult :=
  let tx := checked_tx checked in
  let left_ := MkNotEnoughSpace
    (saturating_add u64 (current_gas self) (pt_max_gas tx))
    (saturating_add usize (current_bytes_size self) (pt_metered_bytes_size tx))
    (saturating_add usize (tx_count self) 1) in
  if within_limits self left_ then Ok EnoughSpace
  else if decide (all_dependencies checked ≠ ∅) then Err NotInsertedLimitHit
  else Ok (NoSpace left_).

(** The loop of [find_free_space] over the executable transactions, the least
    worth first. *)
Fixpoint free_space_loop (self : Pool) (checked : CheckedTransaction) (new_tx_ratio : Z * Z)
    (left_ : NotEnoughSpace) (transactions_to_remove : list NodeIndex) (sorted_txs : list NodeIndex)
    : option (result PoolError (list NodeIndex)) :=
  if within_limits self left_ then Some (Ok transactions_to_remove)
  else
    match sorted_txs with
    | [] => Some (Err NotInsertedLimitHit)
    | storage_id :: sorted_txs =>
        if decide (storage_id ∈ all_dependencies checked)
        then free_space_loop self checked new_tx_ratio left_ transactions_to_remove sorted_txs
        else
          match node_weight (graph (storage self)) storage_id with
          | None => free_space_loop self checked new_tx_ratio left_ transactions_to_remove sorted_txs
          | Some data =>
              match ratio_new (dependents_cumulative_tip data) (dependents_cumulative_gas data) with
              | None => None
              | Some ratio =>
                  if ratio_gt ratio new_tx_ratio then Some (Err NotInsertedLimitHit)
                  else
                    free_space_loop self checked new_tx_ratio
                      (MkNotEnoughSpace
                         (saturating_sub u64 (space_gas_left left_) (dependents_cumulative_gas data))
                         (saturating_sub usize (space_bytes_left left_) (dependents_cumulative_bytes_size data))
                         (saturating_sub usize (space_txs_left left_) (number_dependents_in_chain data)))
                      (transactions_to_remove ++ [storage_id]) sorted_txs
              end
          end
    end.
Definition find_free_space (self : Pool) (left_ : NotEnoughSpace) (checked : CheckedTransaction)
    : option (result PoolError (list NodeIndex)) :=
  new_tx_ratio ← ratio_new (pt_tip (checked_tx checked)) (pt_max_gas (checked_tx checked));
  free_space_loop self checked new_tx_ratio left_ [] (get_less_worth_txs (selection_algorithm self)).

Record CanStoreTransaction := MkCanStore {
  checked_transaction : CheckedTransaction;
  to_remove : list NodeIndex;
  collisions : Collisions
}.

(** The part of [can_insert_transaction] after the dependencies are known. *)
Definition can_insert_checked (self : Pool) (tx : PoolTransaction) (colls : Collisions)
    (checked : CheckedTransaction) : option (result InsertionErrorType CanStoreTransaction) :=
  if decide (Exists (λ c, c ∈ all_dependencies checked) (iter_set (dom colls)))
  then Some (Err (InsertionError (Dependency NotInsertedCollisionIsDependency)))
  else
    let has_dependencies := bool_decide (all_dependencies checked ≠ ∅) in
    match check_collision_requirements colls (checked_tx checked) has_dependencies (storage self) with
    | None => None
    | Some (Err r) => Some (Err (InsertionError (Collided r)))
    | Some (Ok _) =>
        match can_fit_into_pool self checked with
        | Err e => Some (Err (InsertionError e))
        | Ok EnoughSpace => Some (Ok (MkCanStore checked [] colls))
        | Ok (NoSpace left_) =>
            match find_free_space self left_ checked with
            | None => None
            | Some (Err e) => Some (Err (InsertionError e))
            | Some (Ok l) => Some (Ok (MkCanStore checked l colls))
            end
        end
    end.
Definition can_insert_transaction (self : Pool) (tx : PoolTransaction) (ps : PersistentStorage)
    : option (result InsertionErrorType CanStoreTransaction) :=
  if decide (pt_max_gas tx = 0) then Some (Err (InsertionError (InputValidation MaxGasZero)))
  else if contains self (pt_id tx)
  then Some (Err (InsertionError (InputValidation (DuplicateTxId (pt_id tx)))))
  else
    match check_blacklisting (black_list (config self)) tx with
    | Err e => Some (Err (InsertionError (Blacklisted e)))
    | Ok _ =>
        match check_blob_does_not_exist tx ps with
        | Err e => Some (Err (InsertionError e))
        | Ok _ =>
            match validate_inputs (storage self) tx ps (extracted_outputs self)
                    (utxo_validation (config self)) with
            | None => None
            | Some (Err e) => Some (Err (InsertionErrorType_from e))
            | Some (Ok _) =>
                match find_collisions (collision_manager self) tx with
                | Err e => Some (Err (InsertionError e))
                | Ok colls =>
                    match can_store_transaction (storage self) tx with
                    | None => None
                    | Some (Err e) => Some (Err (InsertionError e))
                    | Some (Ok checked) => can_insert_checked self tx colls checked
                    end
                end
            end
        end
    end.

(** The part of [insert_inner] after the removals. *)
Definition store_checked (checked : CheckedTransaction) (now : Instant) (self : Pool) : option Pool :=
  let tx := checked_tx checked in
  '(storage_id, s) ← store_transaction checked now (storage self);
  stored ← node_weight (graph s) storage_id;
  Some (update_stats (MkPool (config self) s
    (on_stored_transaction storage_id stored (collision_manager self))
    (if decide (all_dependencies checked = ∅)
     then new_executable_transaction storage_id stored (selection_algorithm self)
     else selection_algorithm self)
    (<[pt_id tx := storage_id]> (tx_id_to_storage_id self)) (extracted_outputs self)
    (saturating_add u64 (current_gas self) (pt_max_gas tx))
    (saturating_add usize (current_bytes_size self) (pt_metered_bytes_size tx))
    (pool_stats self))).
(** [insert_inner] once the transaction is known to be insertable: evictions,
    collisions, then the transaction itself. *)
Definition insert_checked (can : CanStoreTransaction) (now : Instant) (self : Pool)
    : option (list StorageData * Pool) :=
  '(removed, self) ← fold_panic remove_subtree ([], self) (to_remove can);
  '(removed, self) ← fold_panic remove_subtree (removed, self) (iter_set (dom (collisions can)));
  self ← store_checked (checked_transaction can) now self;
  Some (removed, self).
Definition insert (tx : PoolTransaction) (ps : PersistentStorage) (now : Instant) (self : Pool)
    : option (result InsertionErrorType (list PoolTransaction) * Pool) :=
  match can_insert_transaction self tx ps with
  | None => None
  | Some (Err e) => Some (Err e, self)
  | Some (Ok can) =>
      match insert_checked can now self with
      | None => None
      | Some (removed, self) => Some (Ok (txs_of removed), self)
      end
  end.

Definition extract_entry (self : Pool) (storage_entry : StorageData) : Pool :=
  forget_entry
    (with_extracted (new_extracted_transaction (transaction storage_entry) (extracted_outputs self)) self)
    storage_entry.
Definition extract_transactions_for_block (constraints : Constraints) (self : Pool)
    : option (list PoolTransaction * Pool) :=
  '(best_txs, selection, s) ← gather_best_txs constraints (selection_algorithm self) (storage self);
  let self := with_selection selection (with_storage s self) in
  Some (txs_of best_txs, update_stats (foldl extract_entry self best_txs)).

Inductive Warning := StorageDataNotFound | DependentStorageDataNotFound.

(** One transaction of the block in [process_block]: the transactions to
    promote and the warnings are collected. *)
Definition process_tx (acc : Pool * list NodeIndex * list Warning) (tx_id : TxId)
    : Pool * list NodeIndex * list Warning :=
  let '(self, promote, warnings) := acc in
  let self := with_extracted (new_executed_transaction tx_id (extracted_outputs self)) self in
  match tx_id_to_storage_id self !! tx_id with
  | None => (self, promote, warnings)
  | Some storage_id =>
      let self := forget_id tx_id self in
      let dependents := outgoing (graph (storage self)) storage_id in
      let '(removed, s) := remove_transaction storage_id (storage self) in
      let self := with_storage s self in
      match removed with
      | None => (self, promote, warnings ++ [StorageDataNotFound])
      | Some entry =>
          (forget_entry self entry,
           promote ++ filter (λ d, has_dependencies s d = false) dependents, warnings)
      end
  end.
Definition promote_tx (acc : Pool * list Warning) (promote : NodeIndex) : Pool * list Warning :=
  let '(self, warnings) := acc in
  match node_weight (graph (storage self)) promote with
  | None => (self, warnings ++ [DependentStorageDataNotFound])
  | Some entry =>
      (with_selection (new_executable_transaction promote entry (selection_algorithm self)) self, warnings)
  end.
(** Each warning follows a [debug_assert!(false, ..)]: a build with debug
    assertions panics where the first one would be logged. *)
Definition process_block (debug_assertions : bool) (tx_ids : list TxId) (self : Pool) : option (Pool * list Warning) :=
  let '(self, promote, warnings) := foldl process_tx (self, [], []) tx_ids in
  let '(self, warnings) := foldl promote_tx (self, warnings) promote in
  if debug_assertions && bool_decide (warnings ≠ []) then None
  else Some (update_stats self, warnings).

Definition remove_id (acc : list StorageData * Pool) (tx_id : TxId) : option (list StorageData * Pool) :=
  let '(removed, self) := acc in
  match tx_id_to_storage_id self !! tx_id with
  | None => Some (removed, self)
  | Some storage_id => remove_subtree (removed, forget_id tx_id self) storage_id
  end.
Definition remove_transaction_and_dependents (tx_ids : list TxId) (self : Pool)
    : option (list PoolTransaction * Pool) :=
  '(removed, self) ← fold_panic remove_id ([], self) tx_ids;
  Some (txs_of removed, update_stats self).

Definition remove_skipped_transaction (tx_id : TxId) (self : Pool) : option (list PoolTransaction * Pool) :=
  let self := with_extracted (new_skipped_transaction tx_id (extracted_outputs self)) self in
  let coin_dependents := get_coins_spenders (collision_manager self) tx_id in
  '(removed, self) ← fold_panic remove_subtree ([], self) coin_dependents;
  Some (txs_of removed, update_stats self).
End pool.
