(* ===== verification/TxPoolPending.v ===== *)
(** * Transaction pool: transactions with unknown inputs

    [pending_pool.rs]: where transactions wait for inputs that are not known
    yet.  [None] is a panic; the current time is an argument; the
    notifications that [expire_transactions] offers to its channel are part of
    its result. *)
From S2P Require Import Prelude FuelTypes TxPoolTypes TxPoolGraph.

(** ** Where a transaction comes from *)
Record GossipsubMessageInfo := MkGossipsubMessageInfo {
  message_id : list Z;
  peer_id : list Z
}.
(** A [oneshot::Sender] is known by its identity. *)
Abbreviation SenderId := Z (only parsing).

Inductive InsertionSource :=
| SourceP2P (from_peer_info : GossipsubMessageInfo)
| SourceRPC (response_channel : option SenderId).

Inductive ExtendedInsertionSource :=
| ExtendedP2P (from_peer_info : GossipsubMessageInfo)
| ExtendedRPC (tx : PoolTransaction) (response_channel : option SenderId).

Inductive PoolNotification :=
| NotifyInserted (tx_id : TxId) (time : Instant) (expiration : BlockHeight) (source : ExtendedInsertionSource)
| NotifyErrorInsertion (tx_id : TxId) (error : PoolError) (source : InsertionSource)
| NotifyRemoved (tx_id : TxId) (error : PoolError).

(** [From<MissingInput> for Error] *)
Definition Error_from_missing (value : MissingInput) : PoolError :=
  match value with
  | MissingUtxo utxo => InputValidation (UtxoNotFound utxo)
  | MissingContract contract => InputValidation (NotInsertedInputContractDoesNotExist contract)
  end.

(** ** The pool *)
Record PendingTx := MkPendingTx {
  pending_tx : PoolTransaction;
  insertion_source : InsertionSource;
  missing_inputs : list MissingInput
}.

(** [ttl_check] is a [VecDeque]; the list starts at its back. *)
Record PendingPool := MkPendingPool {
  ttl : Z;
  pending_txs_by_inputs : gmap MissingInput (gset TxId);
  pending_inputs_by_tx : gmap TxId PendingTx;
  ttl_check : list (Instant * TxId);
  pending_current_bytes : Z;
  pending_current_txs : Z;
  pending_current_gas : Z
}.
#[export] Instance eta_PendingPool : Eta PendingPool := λ r,
  MkPendingPool (ttl r) (pending_txs_by_inputs r) (pending_inputs_by_tx r) (ttl_check r)
    (pending_current_bytes r) (pending_current_txs r) (pending_current_gas r).

Definition PendingPool_new (ttl : Z) : PendingPool := MkPendingPool ttl ∅ ∅ [] 0 0 0.

(** [SystemTime] counts seconds in an [i64]; instants are in nanoseconds. *)
Definition system_time : int_ty := IntTy (- 2 ^ 63 * 10 ^ 9) (2 ^ 63 * 10 ^ 9 - 1).

Definition wait_for (tx_id : TxId) (m : gmap MissingInput (gset TxId)) (input : MissingInput)
    : gmap MissingInput (gset TxId) :=
  <[input := unwrap_or ∅ (m !! input) ∪ {[tx_id]}]> m.

Definition insert_transaction (transaction : PoolTransaction) (source : InsertionSource)
    (missing : list MissingInput) (now : Instant) (self : PendingPool) : option PendingPool :=
  let tx_id := pt_id transaction in
  expires ← checked_add system_time now (ttl self);
  Some (MkPendingPool (ttl self)
    (foldl (wait_for tx_id) (pending_txs_by_inputs self) missing)
    (<[tx_id := MkPendingTx transaction source missing]> (pending_inputs_by_tx self))
    (ttl_check self ++ [(expires, tx_id)])
    (saturating_add usize (pending_current_bytes self) (pt_metered_bytes_size transaction))
    (saturating_add usize (pending_current_txs self) 1)
    (saturating_add u64 (pending_current_gas self) (pt_max_gas transaction))).

Definition decrease_pool_size (tx : PoolTransaction) (self : PendingPool) : PendingPool :=
  MkPendingPool (ttl self) (pending_txs_by_inputs self) (pending_inputs_by_tx self) (ttl_check self)
    (saturating_sub usize (pending_current_bytes self) (pt_metered_bytes_size tx))
    (saturating_sub usize (pending_current_txs self) 1)
    (saturating_sub u64 (pending_current_gas self) (pt_max_gas tx)).

Definition set_pending (m : gmap TxId PendingTx) (self : PendingPool) : PendingPool :=
  self <| pending_inputs_by_tx := m |>.
Definition set_waiting (m : gmap MissingInput (gset TxId)) (self : PendingPool) : PendingPool :=
  self <| pending_txs_by_inputs := m |>.
Definition set_ttl_check (l : list (Instant * TxId)) (self : PendingPool) : PendingPool :=
  self <| ttl_check := l |>.

Abbreviation Resolved := (list (PoolTransaction * InsertionSource)).

(** The body of the loop of [new_known_input_from_output]. *)
Definition resolve_tx (missing_input : MissingInput) (acc : Resolved * PendingPool) (tx_id : TxId)
    : Resolved * PendingPool :=
  let '(resolved_txs, self) := acc in
  match pending_inputs_by_tx self !! tx_id with
  | None => acc
  | Some t =>
      let missing := filter (λ input, input ≠ missing_input) (missing_inputs t) in
      if decide (missing = [])
      then (resolved_txs ++ [(pending_tx t, insertion_source t)],
            decrease_pool_size (pending_tx t) (set_pending (delete tx_id (pending_inputs_by_tx self)) self))
      else (resolved_txs,
            set_pending (<[tx_id := MkPendingTx (pending_tx t) (insertion_source t) missing]>
                           (pending_inputs_by_tx self)) self)
  end.

(** The input that an output makes known. *)
Definition known_input (utxo_id : UtxoId) (output : Output) : option MissingInput :=
  match output with
  | OutputCoin _ _ _ => Some (MissingUtxo utxo_id)
  | OutputContractCreated contract_id _ => Some (MissingContract contract_id)
  | OutputContract _ | OutputChange _ _ _ | OutputVariable _ _ _ => None
  end.

Section pending.
Context `{HO : HashOrder}.

Definition new_known_input_from_output (utxo_id : UtxoId) (output : Output) (acc : Resolved * PendingPool)
    : Resolved * PendingPool :=
  let '(resolved_txs, self) := acc in
  match known_input utxo_id output with
  | None => acc
  | Some missing_input =>
      match pending_txs_by_inputs self !! missing_input with
      | None => acc
      | Some tx_ids =>
          foldl (resolve_tx missing_input)
            (resolved_txs, set_waiting (delete missing_input (pending_txs_by_inputs self)) self)
            (iter_set tx_ids)
      end
  end.

Definition new_known_output (tx_id : TxId) (acc : Resolved * PendingPool) (io : Z * Output)
    : option (Resolved * PendingPool) :=
  index ← try_into u16 io.1;
  Some (new_known_input_from_output (tx_id, index) io.2 acc).
Definition new_known_tx_inner (acc : Resolved * PendingPool) (known : list Output * TxId)
    : option (Resolved * PendingPool) :=
  fold_panic (new_known_output known.2) acc (enumerate known.1).

Definition new_known_tx (tx : PoolTransaction) (self : PendingPool) : option (Resolved * PendingPool) :=
  new_known_tx_inner ([], self) (pt_outputs tx, pt_id tx).
Definition new_known_txs (txs : list (Transaction * TxId)) (self : PendingPool)
    : option (Resolved * PendingPool) :=
  fold_panic new_known_tx_inner ([], self) ((λ t, (transaction_outputs t.1, t.2)) <$> txs).
End pending.

(** Forget that a transaction waits for an input. *)
Definition stop_waiting (tx_id : TxId) (m : gmap MissingInput (gset TxId)) (input : MissingInput)
    : gmap MissingInput (gset TxId) :=
  match m !! input with
  | None => m
  | Some tx_ids =>
      if decide (tx_ids ∖ {[tx_id]} = ∅) then delete input m else <[input := tx_ids ∖ {[tx_id]}]> m
  end.

(** One transaction in [expire_transactions], with the notification for it. *)
Definition expire_tx (tx_id : TxId) (self : PendingPool) : list PoolNotification * PendingPool :=
  match pending_inputs_by_tx self !! tx_id with
  | None => ([], self)
  | Some t =>
      let self := decrease_pool_size (pending_tx t) (set_pending (delete tx_id (pending_inputs_by_tx self)) self) in
      let self := set_waiting (foldl (stop_waiting tx_id) (pending_txs_by_inputs self) (missing_inputs t)) self in
      (match missing_inputs t with
       | missing_input :: _ =>
           [NotifyErrorInsertion (pt_id (pending_tx t)) (Error_from_missing missing_input) (insertion_source t)]
       | [] => []
       end, self)
  end.
Fixpoint expire_loop (now : Instant) (l : list (Instant * TxId)) (self : PendingPool)
    : list PoolNotification * PendingPool :=
  match l with
  | [] => ([], self)
  | (expires, tx_id) :: l =>
      if decide (expires > now) then ([], self)
      else
        let '(sent, self) := expire_tx tx_id self in
        let '(sent', self) := expire_loop now l (set_ttl_check l self) in
        (sent ++ sent', self)
  end.
Definition expire_transactions (now : Instant) (self : PendingPool) : list PoolNotification * PendingPool :=
  expire_loop now (ttl_check self) self.
