(* ===== verification/TxPoolPendingFacts.v ===== *)
(** * Transactions with unknown inputs: what the pending pool does

    What the operations of [pending_pool.rs] do to the set of waiting
    transactions, that its indices and counters follow this set, and that no
    transaction waits for longer than configured. *)
From stdpp Require Import sorting.
From S2P Require Import Prelude FuelTypes TxPoolTypes TxPoolGraph TxPoolPending.

(** ** Loops that may panic *)
Lemma fold_panic_preorder {A B} (R : A → A → Prop) (f : A → B → option A) l :
  (∀ a, R a a) → (∀ a b c, R a b → R b c → R a c) → (∀ a x a', f a x = Some a' → R a a') →
  ∀ a a', fold_panic f a l = Some a' → R a a'.
Proof.
  intros Hrefl Htrans Hf. induction l as [|x l IH]; intros a a'; cbn [fold_panic].
  - by intros [= <-].
  - destruct (f a x) as [b|] eqn:Hb; [|done]. cbn [mbind option_bind]. intros Hrun. eapply Htrans; [by eapply Hf|by apply IH].
Qed.

Lemma fold_panic_inv {A B} (I : A → Prop) (f : A → B → option A) l :
  (∀ a x a', x ∈ l → I a → f a x = Some a' → I a') →
  ∀ a a', I a → fold_panic f a l = Some a' → I a'.
Proof.
  induction l as [|x l IH]; intros Hf a a' Ha; cbn [fold_panic].
  - by intros [= <-].
  - destruct (f a x) as [b|] eqn:Hb; [|done]. cbn [mbind option_bind]. apply IH.
    + intros c y c' Hy. apply Hf. by right.
    + by eapply Hf; [left| |].
Qed.

Lemma fold_panic_total {A B} (f : A → B → option A) l :
  (∀ a x, x ∈ l → is_Some (f a x)) → ∀ a, is_Some (fold_panic f a l).
Proof.
  induction l as [|x l IH]; intros Hf a; cbn [fold_panic]; [by eexists|].
  destruct (Hf a x ltac:(left)) as [b ->]. cbn [mbind option_bind]. apply IH. intros c y Hy. apply Hf. by right.
Qed.

(** ** What is known about a waiting transaction *)

(** The transaction once the inputs [known] are: [None] when it misses nothing
    any more. *)
Definition learn (known : list MissingInput) (t : PendingTx) : option PendingTx :=
  let missing := filter (λ input, input ∉ known) (missing_inputs t) in
  if decide (missing = []) then None else Some (MkPendingTx (pending_tx t) (insertion_source t) missing).
(** The transaction with its source when the inputs [known] are all it misses. *)
Definition released (known : list MissingInput) (t : PendingTx) : option (PoolTransaction * InsertionSource) :=
  if decide (learn known t = None) then Some (pending_tx t, insertion_source t) else None.

(** A set of waiting transactions once [known] inputs are known, and the
    transactions that stop waiting. *)
Definition learned (known : list MissingInput) (P : gmap TxId PendingTx) : gmap TxId PendingTx :=
  omap (learn known) P.
Definition released_by (known : list MissingInput) (P : gmap TxId PendingTx) : Resolved :=
  (map_to_list (omap (released known) P)).*2.

(** The inputs that transactions with the given outputs make known. *)
Definition known_inputs (outputs : list Output) (tx_id : TxId) : list MissingInput :=
  omap (λ io : Z * Output, known_input (tx_id, io.1) io.2) (enumerate outputs).

(** ** Invariants *)

(** Sums over the waiting transactions. *)
Definition pending_gas (P : gmap TxId PendingTx) : Z := map_sum (λ t, pt_max_gas (pending_tx t)) P.
Definition pending_bytes (P : gmap TxId PendingTx) : Z := map_sum (λ t, pt_metered_bytes_size (pending_tx t)) P.

(** The counters are those of the waiting transactions. *)
Definition Counted (self : PendingPool) : Prop :=
  (∀ id t, pending_inputs_by_tx self !! id = Some t →
     in_range u64 (pt_max_gas (pending_tx t)) ∧ in_range usize (pt_metered_bytes_size (pending_tx t)))
  ∧ (pending_current_gas self = pending_gas (pending_inputs_by_tx self) ∧ pending_current_gas self ≤ int_max u64)
  ∧ (pending_current_bytes self = pending_bytes (pending_inputs_by_tx self) ∧ pending_current_bytes self ≤ int_max usize)
  ∧ pending_current_txs self = Z.of_nat (size (pending_inputs_by_tx self)) ∧ pending_current_txs self ≤ int_max usize.

Definition waiting (self : PendingPool) (i : MissingInput) : gset TxId :=
  unwrap_or ∅ (pending_txs_by_inputs self !! i).

(** The tables follow [pending_inputs_by_tx]: the index holds what each
    transaction misses and no empty sets, and the counters are the sums. *)
Record PendingOk (self : PendingPool) : Prop := {
  pk_index i id : id ∈ waiting self i ↔ ∃ t, pending_inputs_by_tx self !! id = Some t ∧ i ∈ missing_inputs t;
  pk_sets i : pending_txs_by_inputs self !! i ≠ Some ∅;
  pk_missing id t : pending_inputs_by_tx self !! id = Some t → missing_inputs t ≠ [];
  pk_counted : Counted self
}.

(** Every waiting transaction has an entry in [ttl_check], whose times are in
    order and not later than [now] allows. *)
Record TtlOk (now : Instant) (self : PendingPool) : Prop := {
  tk_sorted : StronglySorted Z.le (ttl_check self).*1;
  tk_bound e : e ∈ ttl_check self → e.1 ≤ now + ttl self;
  tk_entry id t : pending_inputs_by_tx self !! id = Some t → id ∈ (ttl_check self).*2;
  tk_ids id t : pending_inputs_by_tx self !! id = Some t → pt_id (pending_tx t) = id ∧ missing_inputs t ≠ []
}.

(** ** Learning inputs *)
Lemma learn_known_nil t : missing_inputs t ≠ [] → learn [] t = Some t.
Proof.
  intros Hm. unfold learn. rewrite list_filter_all by (intros; apply not_elem_of_nil).
  rewrite decide_False by done. by destruct t.
Qed.

Lemma learn_app k1 k2 t : learn (k1 ++ k2) t = learn k1 t ≫= learn k2.
Proof.
  assert (filter (λ i, i ∉ k1 ++ k2) (missing_inputs t)
          = filter (λ i, i ∉ k2) (filter (λ i, i ∉ k1) (missing_inputs t))) as Hf.
  { rewrite list_filter_filter. apply list_filter_ext. intros i _. rewrite elem_of_app. tauto. }
  unfold learn. rewrite Hf. destruct (decide (filter (λ i, i ∉ k1) (missing_inputs t) = [])) as [H1|H1].
  - by rewrite H1.
  - done.
Qed.

Lemma learn_miss i t : missing_inputs t ≠ [] → i ∉ missing_inputs t → learn [i] t = Some t.
Proof.
  intros Hm Hi. unfold learn. rewrite list_filter_all.
  - rewrite decide_False by done. by destruct t.
  - intros j Hj ->%list_elem_of_singleton. done.
Qed.

Lemma learn_Some known t t' :
  learn known t = Some t' →
  pending_tx t' = pending_tx t ∧ insertion_source t' = insertion_source t ∧ missing_inputs t' ≠ []
  ∧ ∀ i, i ∈ missing_inputs t' ↔ i ∈ missing_inputs t ∧ i ∉ known.
Proof.
  unfold learn. case_decide; [done|]. intros [= <-]. cbn. do 3 (split; [done|]).
  intros i. rewrite list_elem_of_filter. tauto.
Qed.

Lemma released_app k1 k2 t :
  released (k1 ++ k2) t = match released k1 t with Some r => Some r | None => learn k1 t ≫= released k2 end.
Proof.
  unfold released at 1 2. rewrite learn_app. destruct (learn k1 t) as [t'|] eqn:Ht; cbn.
  - unfold released. apply learn_Some in Ht as (-> & -> & _). by case_decide.
  - by rewrite !decide_True.
Qed.

Lemma learned_app k1 k2 P : learned (k1 ++ k2) P = learned k2 (learned k1 P).
Proof.
  apply map_eq. intros id. unfold learned. rewrite !lookup_omap. destruct (P !! id) as [t|]; cbn; [|done].
  by rewrite learn_app.
Qed.

Lemma learned_nil P : (∀ id t, P !! id = Some t → missing_inputs t ≠ []) → learned [] P = P.
Proof.
  intros HP. apply map_eq. intros id. unfold learned. rewrite lookup_omap.
  destruct (P !! id) as [t|] eqn:Ht; cbn; [|done]. by eapply learn_known_nil, HP.
Qed.

Lemma released_by_app k1 k2 P :
  released_by (k1 ++ k2) P ≡ₚ released_by k1 P ++ released_by k2 (learned k1 P).
Proof.
  unfold released_by. rewrite <- fmap_app. apply fmap_Permutation.
  assert (omap (released (k1 ++ k2)) P = omap (released k1) P ∪ omap (released k2) (learned k1 P)) as ->.
  { apply map_eq. intros id. rewrite lookup_union, !lookup_omap. unfold learned. rewrite lookup_omap.
    destruct (P !! id) as [t|]; cbn; [|done]. rewrite released_app.
    destruct (released k1 t); cbn; by destruct (learn k1 t ≫= released k2). }
  apply map_to_list_disjoint_union, map_disjoint_spec. intros id r1 r2. unfold learned. rewrite !lookup_omap.
  destruct (P !! id) as [t|]; cbn; [|done]. unfold released at 1. case_decide as Hl; [|done]. by rewrite Hl.
Qed.

(** ** Removing one transaction *)
Lemma pending_sums_delete (P : gmap TxId PendingTx) id t :
  P !! id = Some t →
  pending_gas P = pt_max_gas (pending_tx t) + pending_gas (delete id P)
  ∧ pending_bytes P = pt_metered_bytes_size (pending_tx t) + pending_bytes (delete id P)
  ∧ Z.of_nat (size P) = 1 + Z.of_nat (size (delete id P)).
Proof.
  intros Ht. split; [exact (map_sum_delete (λ t, pt_max_gas (pending_tx t)) P id t Ht)|].
  split; [exact (map_sum_delete (λ t, pt_metered_bytes_size (pending_tx t)) P id t Ht)|].
  rewrite map_size_delete, Ht. assert (size P ≠ 0%nat); [|lia]. intros ->%map_size_empty_iff. by rewrite lookup_empty in Ht.
Qed.

Lemma pending_sums_replace (P : gmap TxId PendingTx) id t t' :
  P !! id = Some t → pending_tx t' = pending_tx t →
  pending_gas (<[id := t']> P) = pending_gas P ∧ pending_bytes (<[id := t']> P) = pending_bytes P
  ∧ size (<[id := t']> P) = size P.
Proof.
  intros Ht Heq. assert (∀ f : PoolTransaction → Z,
    map_sum (λ t, f (pending_tx t)) (<[id := t']> P) = map_sum (λ t, f (pending_tx t)) P) as Hf.
  { intros f. rewrite (map_sum_delete _ P id t Ht), <- insert_delete_eq, map_sum_insert by apply lookup_delete_eq.
    by rewrite Heq. }
  split; [exact (Hf pt_max_gas)|]. split; [exact (Hf pt_metered_bytes_size)|]. by rewrite map_size_insert_Some.
Qed.

Lemma counted_nonneg self : Counted self →
  0 ≤ pending_gas (pending_inputs_by_tx self) ∧ 0 ≤ pending_bytes (pending_inputs_by_tx self).
Proof.
  intros (Ht & _). split; apply map_sum_nonneg; intros id t Hid; destruct (Ht id t Hid) as [Hg Hb].
  - apply Hg.
  - apply Hb.
Qed.

Lemma counted_remove self id t :
  Counted self → pending_inputs_by_tx self !! id = Some t →
  Counted (decrease_pool_size (pending_tx t) (set_pending (delete id (pending_inputs_by_tx self)) self)).
Proof.
  intros HC Ht. pose proof HC as (Hr & [Hg Hg'] & [Hb Hb'] & Hn & Hn').
  pose proof (pending_sums_delete _ _ _ Ht) as (Eg & Eb & En). destruct (Hr id t Ht) as [Rg Rb].
  assert (∀ id' t', delete id (pending_inputs_by_tx self) !! id' = Some t' →
    pending_inputs_by_tx self !! id' = Some t') as Hsub.
  { intros id' t' H'. by apply lookup_delete_Some in H' as [_ ?]. }
  assert (0 ≤ pending_gas (delete id (pending_inputs_by_tx self))) as Pg.
  { apply map_sum_nonneg. intros id' t' H'%Hsub. apply (Hr id' t' H'). }
  assert (0 ≤ pending_bytes (delete id (pending_inputs_by_tx self))) as Pb.
  { apply map_sum_nonneg. intros id' t' H'%Hsub. apply (Hr id' t' H'). }
  unfold Counted. cbn [decrease_pool_size set_pending pending_inputs_by_tx pending_current_gas pending_current_bytes
    pending_current_txs]. split; [intros id' t' H'%Hsub; by apply (Hr id')|]. int_lia.
Qed.

(** The counters only fall when transactions stop waiting. *)
Definition sized (self : PendingPool) : Prop :=
  (∀ id t, pending_inputs_by_tx self !! id = Some t →
     0 ≤ pt_max_gas (pending_tx t) ∧ 0 ≤ pt_metered_bytes_size (pending_tx t))
  ∧ 0 ≤ pending_current_gas self ∧ 0 ≤ pending_current_bytes self ∧ 0 ≤ pending_current_txs self.
Definition counters_fall (self self' : PendingPool) : Prop :=
  sized self → sized self' ∧ pending_current_gas self' ≤ pending_current_gas self
    ∧ pending_current_bytes self' ≤ pending_current_bytes self ∧ pending_current_txs self' ≤ pending_current_txs self.

Lemma counters_fall_refl self : counters_fall self self.
Proof. intros ?. split; [done|lia]. Qed.

Lemma counters_fall_trans s1 s2 s3 : counters_fall s1 s2 → counters_fall s2 s3 → counters_fall s1 s3.
Proof. intros H1 H2 (Hs & ?)%H1. apply H2 in Hs as (Hs & ?). split; [done|lia]. Qed.

Lemma counters_fall_remove self id t :
  pending_inputs_by_tx self !! id = Some t →
  counters_fall self (decrease_pool_size (pending_tx t) (set_pending (delete id (pending_inputs_by_tx self)) self)).
Proof.
  intros Ht (Hr & ? & ? & ?). pose proof (Hr id t Ht). unfold sized.
  cbn [decrease_pool_size set_pending pending_inputs_by_tx pending_current_gas pending_current_bytes pending_current_txs].
  assert (∀ ty a b, int_min ty = 0 → 0 ≤ int_max ty → 0 ≤ a → 0 ≤ b → 0 ≤ saturating_sub ty a b ∧ saturating_sub ty a b ≤ a) as Hsub.
  { intros ty a b. unfold saturating_sub, clamp. lia. }
  split; [split; [intros id' t' [_ Ht']%lookup_delete_Some; by apply (Hr id')|]|]; repeat split; apply Hsub; (done || lia).
Qed.

(** ** Learning one input *)

(** What learning inputs leaves alone. *)
Definition same_times (self self' : PendingPool) : Prop :=
  ttl self' = ttl self ∧ ttl_check self' = ttl_check self.

Lemma resolve_tx_spec i res self id :
  ∃ self', resolve_tx i (res, self) id
      = (res ++ option_list (pending_inputs_by_tx self !! id ≫= released [i]), self')
    ∧ pending_inputs_by_tx self' = partial_alter (λ o, o ≫= learn [i]) id (pending_inputs_by_tx self)
    ∧ pending_txs_by_inputs self' = pending_txs_by_inputs self ∧ same_times self self'
    ∧ (Counted self → Counted self') ∧ counters_fall self self'.
Proof.
  unfold resolve_tx. destruct (pending_inputs_by_tx self !! id) as [t|] eqn:Ht; cbn [mbind option_bind option_list].
  - assert (filter (λ input, input ≠ i) (missing_inputs t) = filter (λ input, input ∉ [i]) (missing_inputs t)) as ->.
    { apply list_filter_ext. intros j _. by rewrite list_elem_of_singleton. }
    unfold released, learn. cbv zeta. case_decide as Hm.
    + rewrite decide_True by done. eexists. split; [done|]. split; [|split; [done|split; [done|split]]].
      * cbn [decrease_pool_size set_pending pending_inputs_by_tx]. apply map_eq. intros j. destruct (decide (j = id)) as [->|Hj].
        -- by rewrite lookup_delete_eq, lookup_partial_alter_eq, Ht; cbn; rewrite decide_True.
        -- by rewrite lookup_delete_ne, lookup_partial_alter_ne by done.
      * intros HC. by apply counted_remove.
      * by apply counters_fall_remove.
    + rewrite decide_False by done. cbn [option_list]. rewrite app_nil_r. eexists. split; [done|].
      split; [|split; [done|split; [done|split]]].
      * cbn [set_pending pending_inputs_by_tx]. apply map_eq. intros j. destruct (decide (j = id)) as [->|Hj].
        -- by rewrite lookup_insert_eq, lookup_partial_alter_eq, Ht; cbn; rewrite decide_False.
        -- by rewrite lookup_insert_ne, lookup_partial_alter_ne by done.
      * intros (Hr & Hg & Hb & Hn). set (t' := MkPendingTx _ _ _).
        destruct (pending_sums_replace _ id t t' Ht eq_refl) as (Eg & Eb & En). unfold Counted.
        cbn [set_pending pending_inputs_by_tx pending_current_gas pending_current_bytes pending_current_txs].
        rewrite Eg, Eb, En. split; [|done]. intros j u. destruct (decide (j = id)) as [->|Hj].
        -- rewrite lookup_insert_eq. intros [= <-]. apply (Hr id t Ht).
        -- rewrite lookup_insert_ne by done. apply Hr.
      * intros (Hr & Hc). unfold sized. cbn [set_pending pending_inputs_by_tx pending_current_gas pending_current_bytes pending_current_txs].
        split; [split; [|done]|lia]. intros j u [[_ <-]|[_ Hj]]%lookup_insert_Some; [apply (Hr id t Ht)|by apply (Hr j)].
  - rewrite app_nil_r. eexists. split; [done|]. split; [|do 3 (split; [done|]); apply counters_fall_refl]. apply map_eq. intros j. destruct (decide (j = id)) as [->|Hj].
    + by rewrite lookup_partial_alter_eq, Ht.
    + by rewrite lookup_partial_alter_ne.
Qed.

Lemma resolve_fold i l res self :
  NoDup l →
  ∃ self', foldl (resolve_tx i) (res, self) l
      = (res ++ omap (λ id, pending_inputs_by_tx self !! id ≫= released [i]) l, self')
    ∧ (∀ id, pending_inputs_by_tx self' !! id
             = if decide (id ∈ l) then pending_inputs_by_tx self !! id ≫= learn [i] else pending_inputs_by_tx self !! id)
    ∧ pending_txs_by_inputs self' = pending_txs_by_inputs self ∧ same_times self self'
    ∧ (Counted self → Counted self') ∧ counters_fall self self'.
Proof.
  revert res self. induction l as [|k l IH]; intros res self Hnd.
  - exists self. cbn. rewrite app_nil_r. split; [done|]. split; [|do 3 (split; [done|]); apply counters_fall_refl].
    intros id. rewrite decide_False; [done|apply not_elem_of_nil].
  - apply NoDup_cons in Hnd as [Hk Hnd]. cbn [foldl].
    destruct (resolve_tx_spec i res self k) as (s1 & -> & HP1 & Hw1 & Ht1 & HC1 & HF1).
    destruct (IH (res ++ option_list (pending_inputs_by_tx self !! k ≫= released [i])) s1 Hnd)
      as (s2 & -> & HP2 & Hw2 & Ht2 & HC2 & HF2).
    exists s2. split; [f_equal|split; [|split; [congruence|split; [unfold same_times in *; intuition congruence|split; [auto|by eapply counters_fall_trans]]]]].
    + rewrite <- app_assoc. f_equal.
      assert (omap (λ id, pending_inputs_by_tx s1 !! id ≫= released [i]) l
              = omap (λ id, pending_inputs_by_tx self !! id ≫= released [i]) l) as ->.
      { apply list_omap_ext. apply Forall_Forall2_diag, Forall_forall. intros id Hid. rewrite HP1, lookup_partial_alter_ne; [done|].
        by intros ->. }
      cbn [omap list_omap]. by destruct (pending_inputs_by_tx self !! k ≫= released [i]).
    + intros id. rewrite HP2, HP1. destruct (decide (id = k)) as [->|Hid].
      * rewrite decide_False by done. rewrite lookup_partial_alter_eq. rewrite decide_True by left. done.
      * rewrite lookup_partial_alter_ne by done. repeat case_decide; set_solver.
Qed.

Section pending_facts.
Context `{HO : HashOrder}.

Lemma known_input_spec utxo_id output i res self :
  known_input utxo_id output = Some i →
  ∃ l self', new_known_input_from_output utxo_id output (res, self)
      = (res ++ omap (λ id, pending_inputs_by_tx self !! id ≫= released [i]) l, self')
    ∧ NoDup l ∧ (∀ id, id ∈ l ↔ id ∈ waiting self i)
    ∧ (∀ id, pending_inputs_by_tx self' !! id
             = if decide (id ∈ l) then pending_inputs_by_tx self !! id ≫= learn [i] else pending_inputs_by_tx self !! id)
    ∧ pending_txs_by_inputs self' = delete i (pending_txs_by_inputs self) ∧ same_times self self'
    ∧ (Counted self → Counted self') ∧ counters_fall self self'.
Proof.
  intros Hi. unfold new_known_input_from_output. rewrite Hi. unfold waiting.
  destruct (pending_txs_by_inputs self !! i) as [X|] eqn:HX.
  - assert (NoDup (iter_set X)) as Hnd by (rewrite iter_set_perm; apply NoDup_elements).
    destruct (resolve_fold i (iter_set X) res (set_waiting (delete i (pending_txs_by_inputs self)) self) Hnd)
      as (self' & Hrun & HP & Hw & Ht & HC & HF).
    exists (iter_set X), self'. rewrite Hrun. do 2 (split; [done|]).
    split; [intros id; by rewrite iter_set_perm, elem_of_elements|]. done.
  - exists [], self. cbn. rewrite app_nil_r, (delete_id _ _ HX). split; [done|]. split; [constructor|].
    split; [set_solver|]. split; [|do 3 (split; [done|]); apply counters_fall_refl].
    intros id. by rewrite decide_False by apply not_elem_of_nil.
Qed.

End pending_facts.

Lemma released_list (P : gmap TxId PendingTx) known l :
  NoDup l → (∀ id t, P !! id = Some t → learn known t = None → id ∈ l) →
  omap (λ id, P !! id ≫= released known) l ≡ₚ released_by known P.
Proof.
  intros Hnd Hl. unfold released_by. set (R := omap (released known) P).
  assert (∀ id, R !! id = P !! id ≫= released known) as HR by (intros id; apply lookup_omap).
  assert (omap (λ id, P !! id ≫= released known) l = (omap (λ id, (id,.) <$> R !! id) l).*2) as ->.
  { clear Hnd Hl. induction l as [|id l IH]; [done|]. cbn [omap list_omap]. rewrite HR.
    destruct (P !! id ≫= released known); cbn [fmap option_fmap option_map list_fmap]; [by rewrite IH|done]. }
  apply fmap_Permutation, NoDup_Permutation; [|apply NoDup_map_to_list|].
  - apply (NoDup_fmap_1 fst). assert ((omap (λ id, (id,.) <$> R !! id) l).*1 = filter (λ id, is_Some (R !! id)) l) as ->.
    { clear Hnd Hl. induction l as [|id l IH]; [done|]. rewrite filter_cons. cbn [omap list_omap].
      destruct (R !! id) as [r|]; cbn [fmap option_fmap option_map list_fmap].
      - rewrite decide_True by (by eexists). cbn. f_equal. exact IH.
      - rewrite decide_False by (by intros []). exact IH. }
    by apply NoDup_filter.
  - intros [id r]. rewrite elem_of_map_to_list, list_elem_of_omap. split.
    + by intros (k & _ & (r' & Hr & [= -> ->])%fmap_Some).
    + intros Hr. exists id. split; [|by rewrite Hr]. rewrite HR in Hr. apply bind_Some in Hr as (t & Hid & Hr).
      apply (Hl id t Hid). unfold released in Hr. by case_decide.
Qed.

(** Dropping a known input from the index. *)
Lemma learned_index self self' i :
  PendingOk self → pending_txs_by_inputs self' = delete i (pending_txs_by_inputs self) →
  pending_inputs_by_tx self' = learned [i] (pending_inputs_by_tx self) → Counted self' → PendingOk self'.
Proof.
  intros [Hix Hs Hm _] Hw HP HC. split; rewrite ?HP; [| | |done].
  - intros j id. unfold waiting, learned. rewrite Hw. setoid_rewrite lookup_omap. destruct (decide (j = i)) as [->|Hj].
    + rewrite lookup_delete_eq. cbn [unwrap_or]. split; [set_solver|]. intros (t' & (t & _ & Hl)%bind_Some & Hin).
      apply learn_Some in Hl as (_ & _ & _ & Hl). apply Hl in Hin as [_ Hno]. set_solver.
    + rewrite lookup_delete_ne by done. fold (waiting self j). rewrite Hix. split.
      * intros (t & -> & Hin). cbn. destruct (learn [i] t) as [t'|] eqn:Hl.
        -- exists t'. split; [done|]. apply (learn_Some _ _ _ Hl). set_solver.
        -- exfalso. unfold learn in Hl. cbv zeta in Hl. case_decide as He; [|done].
           assert (j ∈ filter (λ input, input ∉ [i]) (missing_inputs t)) as Hf by (apply list_elem_of_filter; set_solver).
           rewrite He in Hf. by apply not_elem_of_nil in Hf.
      * intros (t' & (t & Hid & Hl)%bind_Some & Hin). apply learn_Some in Hl as (_ & _ & _ & Hl).
        apply Hl in Hin as [Hin _]. by exists t.
  - intros j. rewrite Hw. destruct (decide (j = i)) as [->|Hj]; [by rewrite lookup_delete_eq|].
    rewrite lookup_delete_ne by done. apply Hs.
  - intros id t'. unfold learned. rewrite lookup_omap. intros (t & _ & Hl)%bind_Some. by apply learn_Some in Hl as (_ & _ & ? & _).
Qed.

Section known.
Context `{HO : HashOrder}.

(** The effect of knowing inputs on what was resolved and the pool. *)
Definition Learns (known : list MissingInput) (acc acc' : Resolved * PendingPool) : Prop :=
  ∃ r, acc'.1 = acc.1 ++ r ∧ r ≡ₚ released_by known (pending_inputs_by_tx acc.2)
    ∧ pending_inputs_by_tx acc'.2 = learned known (pending_inputs_by_tx acc.2)
    ∧ same_times acc.2 acc'.2 ∧ PendingOk acc'.2.

Lemma Learns_nil acc : PendingOk acc.2 → Learns [] acc acc.
Proof.
  intros Hok. exists []. rewrite app_nil_r, learned_nil by apply Hok. split; [done|]. split; [|done].
  apply (released_list _ [] []); [constructor|]. intros id t Hid. rewrite learn_known_nil by (by apply (pk_missing _ Hok id)). done.
Qed.

Lemma Learns_app k1 k2 acc1 acc2 acc3 : Learns k1 acc1 acc2 → Learns k2 acc2 acc3 → Learns (k1 ++ k2) acc1 acc3.
Proof.
  intros (r1 & E1 & R1 & P1 & [T1 T1'] & _) (r2 & E2 & R2 & P2 & [T2 T2'] & Hok). exists (r1 ++ r2).
  split; [by rewrite E2, E1, app_assoc|]. split; [by rewrite released_by_app, R1, R2, P1|].
  split; [by rewrite learned_app, P2, P1|]. split; [split; congruence|done].
Qed.

(** With exact tables, an output that becomes known has precisely the effect of
    the input it stands for. *)
Lemma known_output_spec utxo_id output acc :
  PendingOk acc.2 → Learns (option_list (known_input utxo_id output)) acc (new_known_input_from_output utxo_id output acc).
Proof.
  destruct acc as [res self]. cbn [snd]. intros Hok. pose proof Hok as [Hix _ Hm HC].
  destruct (known_input utxo_id output) as [i|] eqn:Hi.
  - change (option_list (Some i)) with [i]. destruct (known_input_spec utxo_id output i res self Hi) as (l & self' & Hrun & Hnd & Hl & HP & Hw & Ht & HC' & _).
    assert (∀ id t, pending_inputs_by_tx self !! id = Some t → id ∉ l → learn [i] t = Some t) as Hout.
    { intros id t Hid Hno. apply learn_miss; [by apply (Hm id)|]. intros Hin. apply Hno, Hl, Hix. eauto. }
    assert (pending_inputs_by_tx self' = learned [i] (pending_inputs_by_tx self)) as HP'.
    { apply map_eq. intros id. rewrite HP. unfold learned. rewrite lookup_omap. case_decide; [done|].
      destruct (pending_inputs_by_tx self !! id) as [t|] eqn:Hid; [|done]. cbn. symmetry. by eapply Hout. }
    rewrite Hrun. eexists. split; [done|]. split; [|split; [done|split; [done|by eapply learned_index; auto]]].
    apply released_list; [done|]. intros id t Hid Hno. destruct (decide (id ∈ l)) as [|Hl']; [done|].
    by rewrite (Hout id t Hid Hl') in Hno.
  - unfold new_known_input_from_output. rewrite Hi. by apply Learns_nil.
Qed.

Lemma new_known_output_eq tx_id acc i o :
  in_range u16 i → new_known_output tx_id acc (i, o) = Some (new_known_input_from_output (tx_id, i) o acc).
Proof. intros Hi. unfold new_known_output, try_into, fit. cbn [fst snd]. by rewrite decide_True. Qed.

Lemma known_outputs_spec tx_id (l : list (Z * Output)) acc :
  PendingOk acc.2 → Forall (λ io, in_range u16 io.1) l →
  ∃ acc', fold_panic (new_known_output tx_id) acc l = Some acc'
    ∧ Learns (omap (λ io : Z * Output, known_input (tx_id, io.1) io.2) l) acc acc'.
Proof.
  intros Hok Hl. revert acc Hok. induction Hl as [|[i o] l Hi Hl IH]; intros acc Hok.
  - exists acc. split; [done|]. by apply Learns_nil.
  - cbn [fold_panic]. rewrite new_known_output_eq by done. cbn [mbind option_bind]. pose proof (known_output_spec (tx_id, i) o acc Hok) as H1.
    destruct (IH (new_known_input_from_output (tx_id, i) o acc)) as (acc' & Hrun & H2); [by destruct H1 as (? & _ & _ & _ & _ & ?)|].
    exists acc'. split; [done|]. pose proof (Learns_app _ _ _ _ _ H1 H2) as H3. cbn [omap list_omap fst snd].
    by destruct (known_input (tx_id, i) o).
Qed.

Lemma enumerate_u16 (outputs : list Output) :
  Z.of_nat (length outputs) ≤ 65536 → Forall (λ io, in_range u16 io.1) (enumerate outputs).
Proof.
  intros Hlen. apply Forall_forall. intros [i o] (k & Hk)%list_elem_of_lookup. unfold enumerate in Hk.
  apply lookup_zip_with_Some in Hk as (j & o' & [= -> ->] & Hj & _). apply lookup_seqZ in Hj as [-> Hj].
  cbn [fst]. int_unfold. lia.
Qed.

(** Transactions that become known have precisely the effect of the inputs they
    provide, together. *)
Lemma known_txs_spec (known : list (list Output * TxId)) acc :
  PendingOk acc.2 → Forall (λ k, Z.of_nat (length k.1) ≤ 65536) known →
  ∃ acc', fold_panic new_known_tx_inner acc known = Some acc'
    ∧ Learns (known ≫= λ k, known_inputs k.1 k.2) acc acc'.
Proof.
  intros Hok Hl. revert acc Hok. induction Hl as [|[os id] l Hi Hl IH]; intros acc Hok.
  - exists acc. split; [done|]. by apply Learns_nil.
  - cbn [fold_panic fst] in *. change (new_known_tx_inner acc (os, id)) with (fold_panic (new_known_output id) acc (enumerate os)).
    destruct (known_outputs_spec id (enumerate os) acc Hok (enumerate_u16 os Hi)) as (acc1 & -> & H1). cbn [mbind option_bind].
    destruct (IH acc1) as (acc' & Hrun & H2); [by destruct H1 as (? & _ & _ & _ & _ & ?)|].
    exists acc'. split; [done|]. apply (Learns_app _ _ _ _ _ H1 H2).
Qed.
End known.

(** ** The index *)
Definition no_empty_sets (m : gmap MissingInput (gset TxId)) : Prop := ∀ i, m !! i ≠ Some ∅.

Lemma wait_for_fold id l m :
  no_empty_sets m →
  no_empty_sets (foldl (wait_for id) m l)
  ∧ ∀ i k, k ∈ unwrap_or ∅ (foldl (wait_for id) m l !! i) ↔ k ∈ unwrap_or ∅ (m !! i) ∨ (k = id ∧ i ∈ l).
Proof.
  revert m. induction l as [|j l IH]; intros m Hm; cbn [foldl].
  - split; [done|]. intros i k. rewrite elem_of_nil. tauto.
  - destruct (IH (wait_for id m j)) as [Hne Hin].
    { intros i. unfold wait_for. destruct (decide (i = j)) as [->|Hi].
      - rewrite lookup_insert_eq. intros [= He]. set_solver.
      - by rewrite lookup_insert_ne. }
    split; [done|]. intros i k. rewrite Hin. unfold wait_for. destruct (decide (i = j)) as [->|Hi].
    + rewrite lookup_insert_eq. cbn. set_solver.
    + rewrite lookup_insert_ne by done. rewrite elem_of_cons. naive_solver.
Qed.

(** A set without an element, unless nothing is left. *)
Definition set_without (id : TxId) (X : gset TxId) : option (gset TxId) :=
  if decide (X ∖ {[id]} = ∅) then None else Some (X ∖ {[id]}).

Lemma stop_waiting_fold id l m :
  no_empty_sets m →
  no_empty_sets (foldl (stop_waiting id) m l)
  ∧ ∀ i k, k ∈ unwrap_or ∅ (foldl (stop_waiting id) m l !! i) ↔ k ∈ unwrap_or ∅ (m !! i) ∧ (k = id → i ∉ l).
Proof.
  revert m. induction l as [|j l IH]; intros m Hm; cbn [foldl].
  - split; [done|]. intros i k. rewrite elem_of_nil. tauto.
  - assert (∀ i, stop_waiting id m j !! i
      = if decide (i = j) then m !! i ≫= set_without id else m !! i) as Hlk.
    { intros i. unfold stop_waiting, set_without. case_decide as Hi; [subst j|].
      - destruct (m !! i) as [X|] eqn:HX; cbn; [|done]. case_decide; [apply lookup_delete_eq|apply lookup_insert_eq].
      - destruct (m !! j); [|done]. case_decide; [by rewrite lookup_delete_ne|by rewrite lookup_insert_ne]. }
    destruct (IH (stop_waiting id m j)) as [Hne Hin].
    { intros i. rewrite Hlk. case_decide; [|apply Hm]. destruct (m !! i); cbn; [|done]. unfold set_without. case_decide; congruence. }
    split; [done|]. intros i k. rewrite Hin, Hlk. case_decide as Hi; [subst j|rewrite elem_of_cons; naive_solver].
    assert (k ∈ unwrap_or ∅ (m !! i ≫= set_without id) ↔ k ∈ unwrap_or ∅ (m !! i) ∧ k ≠ id) as ->; [|set_solver].
    destruct (m !! i) as [X|]; cbn; [|set_solver]. unfold set_without. case_decide; cbn; set_solver.
Qed.

(** ** Insertion and expiry keep the tables exact *)

(** A transaction that can start to wait: not waiting already, with something
    missing, and the sums still fit. *)
Record can_wait (self : PendingPool) (tx : PoolTransaction) (missing : list MissingInput) (now : Instant) : Prop := {
  cw_fresh : pending_inputs_by_tx self !! pt_id tx = None;
  cw_missing : missing ≠ [];
  cw_gas : in_range u64 (pt_max_gas tx) ∧ pending_current_gas self + pt_max_gas tx ≤ int_max u64;
  cw_bytes : in_range usize (pt_metered_bytes_size tx)
             ∧ pending_current_bytes self + pt_metered_bytes_size tx ≤ int_max usize;
  cw_count : pending_current_txs self + 1 ≤ int_max usize;
  cw_time : in_range system_time (now + ttl self)
}.

Lemma insert_transaction_eq tx source missing now self :
  in_range system_time (now + ttl self) →
  ∃ self', insert_transaction tx source missing now self = Some self' ∧ ttl self' = ttl self
    ∧ ttl_check self' = ttl_check self ++ [(now + ttl self, pt_id tx)]
    ∧ pending_inputs_by_tx self' = <[pt_id tx := MkPendingTx tx source missing]> (pending_inputs_by_tx self).
Proof.
  intros Hr. unfold insert_transaction, checked_add, fit. rewrite decide_True by done. cbn [mbind option_bind].
  eexists. split; [done|]. done.
Qed.

Lemma insert_transaction_ok tx source missing now self self' :
  PendingOk self → can_wait self tx missing now → insert_transaction tx source missing now self = Some self' →
  PendingOk self'.
Proof.
  intros [Hix Hs Hm HC] [Hf Hne [Hg Hg'] [Hb Hb'] Hn Ht]. unfold insert_transaction, checked_add, fit.
  rewrite decide_True by done. cbn [mbind option_bind]. intros [= <-].
  destruct (wait_for_fold (pt_id tx) missing (pending_txs_by_inputs self) Hs) as [Hs' Hin].
  pose proof (counted_nonneg _ HC) as [Pg Pb]. destruct HC as (Hr & [Cg _] & [Cb _] & [Cn _]). split.
  - intros i id. unfold waiting at 1. cbn [pending_txs_by_inputs pending_inputs_by_tx]. rewrite Hin. fold (waiting self i).
    rewrite Hix. destruct (decide (id = pt_id tx)) as [->|Hid].
    + setoid_rewrite lookup_insert_eq. split.
      * intros [(t & Ht' & _)|[_ Hi]]; [congruence|]. eexists. by split.
      * intros (t & [= <-] & Hi). cbn in Hi. auto.
    + rewrite lookup_insert_ne by done. naive_solver.
  - exact Hs'.
  - intros id t. cbn [pending_inputs_by_tx]. intros [[_ <-]|[_ Hid]]%lookup_insert_Some; [done|]. by apply (Hm id).
  - unfold Counted. cbn [pending_inputs_by_tx pending_current_gas pending_current_bytes pending_current_txs].
    split; [intros id t [[_ <-]|[_ Hid]]%lookup_insert_Some; [done|by apply (Hr id)]|].
    unfold pending_gas, pending_bytes in *. rewrite !map_sum_insert, map_size_insert_None by done. cbn [pending_tx]. int_lia.
Qed.

(** The notification for an expired transaction: the first input it misses. *)
Definition expiry_note (t : PendingTx) : option PoolNotification :=
  i ← head (missing_inputs t);
  Some (NotifyErrorInsertion (pt_id (pending_tx t)) (Error_from_missing i) (insertion_source t)).
(** The notifications for the transactions [ids]. *)
Definition expiry_notes (ids : list TxId) (P : gmap TxId PendingTx) : list PoolNotification :=
  (map_to_list (omap expiry_note (filter (λ e : TxId * PendingTx, e.1 ∈ ids) P))).*2.

Lemma expire_tx_spec id self :
  ∃ self', expire_tx id self = (option_list (pending_inputs_by_tx self !! id ≫= expiry_note), self')
    ∧ pending_inputs_by_tx self' = delete id (pending_inputs_by_tx self) ∧ same_times self self'
    ∧ (PendingOk self → PendingOk self') ∧ counters_fall self self'.
Proof.
  unfold expire_tx. destruct (pending_inputs_by_tx self !! id) as [t|] eqn:Ht.
  - eexists. split; [f_equal; cbn [mbind option_bind]; unfold expiry_note; by destruct (missing_inputs t)|]. split; [done|]. split; [done|].
    split; [|exact (counters_fall_remove self id t Ht)]. intros [Hix Hs Hm HC]. destruct (stop_waiting_fold id (missing_inputs t) (pending_txs_by_inputs self) Hs) as [Hs' Hin].
    split.
    + intros i k. unfold waiting at 1. cbn [set_waiting decrease_pool_size set_pending pending_txs_by_inputs pending_inputs_by_tx].
      rewrite Hin. fold (waiting self i). rewrite Hix. destruct (decide (k = id)) as [->|Hk].
      * rewrite lookup_delete_eq. split; [|naive_solver]. intros [(t' & Ht' & Hi) Hno]. assert (t' = t) as -> by congruence.
        by destruct (Hno eq_refl).
      * rewrite lookup_delete_ne by done. naive_solver.
    + exact Hs'.
    + intros k t'. cbn. intros [_ Hk]%lookup_delete_Some. by apply (Hm k).
    + by apply counted_remove.
  - exists self. split; [done|]. rewrite delete_id by done. do 3 (split; [done|]). apply counters_fall_refl.
Qed.

Lemma expiry_note_lookup (ids : list TxId) (P : gmap TxId PendingTx) k :
  omap expiry_note (filter (λ e : TxId * PendingTx, e.1 ∈ ids) P) !! k
  = if decide (k ∈ ids) then P !! k ≫= expiry_note else None.
Proof.
  rewrite lookup_omap. destruct (decide (k ∈ ids)) as [Hk|Hk].
  - f_equal. destruct (P !! k) as [t|] eqn:Ht.
    + by apply map_lookup_filter_Some.
    + apply map_lookup_filter_None. by left.
  - rewrite (proj2 (map_lookup_filter_None _ _ _)); [done|]. right. by intros t _.
Qed.

Lemma expiry_notes_cons id (ids : list TxId) (P : gmap TxId PendingTx) :
  option_list (P !! id ≫= expiry_note) ++ expiry_notes ids (delete id P) ≡ₚ expiry_notes (id :: ids) P.
Proof.
  unfold expiry_notes. set (f (l : list TxId) (P : gmap TxId PendingTx) := omap expiry_note (filter (λ e : TxId * PendingTx, e.1 ∈ l) P)).
  change (option_list (P !! id ≫= expiry_note) ++ (map_to_list (f ids (delete id P))).*2 ≡ₚ (map_to_list (f (id :: ids) P)).*2).
  assert (f (id :: ids) P = partial_alter (λ _, P !! id ≫= expiry_note) id (f ids (delete id P))) as ->.
  { apply map_eq. intros k. unfold f. destruct (decide (k = id)) as [->|Hk].
    - by rewrite lookup_partial_alter_eq, expiry_note_lookup, decide_True by left.
    - rewrite lookup_partial_alter_ne, !expiry_note_lookup, lookup_delete_ne by done. repeat case_decide; set_solver. }
  assert (f ids (delete id P) !! id = None) as Hno.
  { unfold f. rewrite expiry_note_lookup, lookup_delete_eq. by case_decide. }
  destruct (P !! id ≫= expiry_note) as [n|].
  - change (partial_alter (λ _, Some n) id (f ids (delete id P))) with (<[id := n]> (f ids (delete id P))).
    by rewrite map_to_list_insert.
  - change (partial_alter (λ _, None) id (f ids (delete id P))) with (delete id (f ids (delete id P))). by rewrite (delete_id _ _ Hno).
Qed.

Lemma expire_loop_spec now l self :
  ttl_check self = l →
  ∃ l1 l2 notes self', expire_loop now l self = (notes, self')
    ∧ l = l1 ++ l2 ∧ Forall (λ e, e.1 ≤ now) l1 ∧ (∀ e, head l2 = Some e → now < e.1)
    ∧ ttl self' = ttl self ∧ ttl_check self' = l2
    ∧ (∀ id, pending_inputs_by_tx self' !! id = if decide (id ∈ l1.*2) then None else pending_inputs_by_tx self !! id)
    ∧ notes ≡ₚ expiry_notes l1.*2 (pending_inputs_by_tx self)
    ∧ (PendingOk self → PendingOk self') ∧ counters_fall self self'.
Proof.
  assert (∀ P, expiry_notes [] P = []) as Hnil.
  { intros P. unfold expiry_notes. replace (omap expiry_note _) with (∅ : gmap TxId PoolNotification); [by rewrite map_to_list_empty|].
    apply map_eq. intros k. by rewrite expiry_note_lookup. }
  revert self. induction l as [|[t id] l IH]; intros self Hl; cbn [expire_loop].
  - exists [], [], [], self. rewrite Hnil. do 2 (split; [done|]). split; [constructor|]. split; [done|]. do 2 (split; [done|]).
    split; [|do 2 (split; [done|]); apply counters_fall_refl]. intros k. by rewrite decide_False by apply not_elem_of_nil.
  - case_decide as Ht.
    + exists [], ((t, id) :: l), [], self. rewrite Hnil. do 2 (split; [done|]). split; [constructor|].
      split; [intros e [= <-]; cbn; lia|]. do 2 (split; [done|]). split; [|do 2 (split; [done|]); apply counters_fall_refl]. intros k. by rewrite decide_False by apply not_elem_of_nil.
    + destruct (expire_tx_spec id self) as (s1 & -> & HP1 & [Ht1 _] & Hok1 & HF1).
      destruct (IH (set_ttl_check l s1) eq_refl) as (l1 & l2 & notes & s2 & -> & -> & Hle & Hhd & Htt & Htc & HP2 & Hn2 & Hok2 & HF2).
      cbn [set_ttl_check ttl pending_inputs_by_tx] in *.
      exists ((t, id) :: l1), l2, (option_list (pending_inputs_by_tx self !! id ≫= expiry_note) ++ notes), s2.
      do 2 (split; [done|]). split; [constructor; [cbn; lia|done]|]. split; [done|]. split; [congruence|]. split; [done|]. split; [|split; [|split]].
      * intros k. rewrite HP2, HP1. cbn [fmap list_fmap snd]. destruct (decide (k = id)) as [->|Hk].
        -- rewrite lookup_delete_eq. rewrite (decide_True (P := id ∈ id :: l1.*2)) by left. by case_decide.
        -- rewrite lookup_delete_ne by done. repeat case_decide; set_solver.
      * cbn [fmap list_fmap snd]. by rewrite <- expiry_notes_cons, Hn2, HP1.
      * intros Hok. apply Hok2. destruct (Hok1 Hok) as [? ? ? ?]. by split.
      * eapply counters_fall_trans; [exact HF1|]. exact HF2.
Qed.
