(* ===== verification/TxPoolPendingClaims.v ===== *)
(** * What the pending pool guarantees

    Sequences of operations on the pending pool of [pending_pool.rs]: its
    tables stay exact as long as no transaction that waits is inserted again,
    known transactions release exactly the transactions that miss nothing any
    more, and every transaction gets an answer within the time to live. *)
From stdpp Require Import sorting.
From S2P Require Import Prelude FuelTypes TxPoolTypes TxPoolGraph TxPoolPending TxPoolPendingFacts.

(** The operations of the pending pool. *)
Inductive PendingOp :=
| PendingInsert (tx : PoolTransaction) (source : InsertionSource) (missing : list MissingInput) (now : Instant)
| PendingKnownTx (tx : PoolTransaction)
| PendingKnownTxs (txs : list (Transaction * TxId))
| PendingExpire (now : Instant).

Section pending_claims.
Context `{HO : HashOrder}.
Implicit Types (self : PendingPool).

(** An operation with the transactions it releases and the notifications. *)
Definition run_pending_op (op : PendingOp) self : option (Resolved * list PoolNotification * PendingPool) :=
  match op with
  | PendingInsert tx source missing now =>
      self ← insert_transaction tx source missing now self; Some ([], [], self)
  | PendingKnownTx tx => '(r, self) ← new_known_tx tx self; Some (r, [], self)
  | PendingKnownTxs txs => '(r, self) ← new_known_txs txs self; Some (r, [], self)
  | PendingExpire now => let '(n, self) := expire_transactions now self in Some ([], n, self)
  end.
Fixpoint run_pending (ops : list PendingOp) self : option (Resolved * list PoolNotification * PendingPool) :=
  match ops with
  | [] => Some ([], [], self)
  | op :: ops =>
      '(r, n, self) ← run_pending_op op self;
      '(r', n', self) ← run_pending ops self;
      Some (r ++ r', n ++ n', self)
  end.

(** The transactions that an operation makes known. *)
Definition op_known (op : PendingOp) : list (list Output * TxId) :=
  match op with
  | PendingKnownTx tx => [(pt_outputs tx, pt_id tx)]
  | PendingKnownTxs txs => (λ t, (transaction_outputs t.1, t.2)) <$> txs
  | _ => []
  end.

(** Well formed arguments: something is missing, times are representable, and
    the outputs of a transaction are numbered in 16 bits. *)
Definition pending_op_ok (ttl : Z) (op : PendingOp) : Prop :=
  match op with
  | PendingInsert _ _ missing now => missing ≠ [] ∧ in_range system_time (now + ttl)
  | _ => Forall (λ k, Z.of_nat (length k.1) ≤ 65536) (op_known op)
  end.

Lemma run_known op r n self self' :
  match op with PendingKnownTx _ | PendingKnownTxs _ => True | _ => False end →
  run_pending_op op self = Some (r, n, self') ↔
  fold_panic new_known_tx_inner ([], self) (op_known op) = Some (r, self') ∧ n = [].
Proof.
  destruct op as [|tx|txs|]; cbn [run_pending_op op_known]; try done; intros _.
  - unfold new_known_tx. cbn [fold_panic]. set (o := new_known_tx_inner ([], self) _).
    destruct o as [[r0 s0]|]; cbn; naive_solver.
  - unfold new_known_txs. set (o := fold_panic _ _ _). destruct o as [[r0 s0]|]; cbn; naive_solver.
Qed.

(** ** Following one transaction

    Between two states a transaction still waits, possibly for fewer inputs,
    or it was answered. *)
Definition shrunk (t t' : PendingTx) : Prop :=
  pending_tx t' = pending_tx t ∧ insertion_source t' = insertion_source t
  ∧ (∀ i, i ∈ missing_inputs t' → i ∈ missing_inputs t) ∧ (missing_inputs t ≠ [] → missing_inputs t' ≠ []).
Definition answered (t : PendingTx) (r : Resolved) (n : list PoolNotification) : Prop :=
  (pending_tx t, insertion_source t) ∈ r
  ∨ ∃ i, i ∈ missing_inputs t
      ∧ NotifyErrorInsertion (pt_id (pending_tx t)) (Error_from_missing i) (insertion_source t) ∈ n.

Definition tracks (id : TxId) self (r : Resolved) (n : list PoolNotification) self' : Prop :=
  ∀ t, pending_inputs_by_tx self !! id = Some t →
  (∃ t', pending_inputs_by_tx self' !! id = Some t' ∧ shrunk t t') ∨ answered t r n.
(** Nothing but waiting transactions waits afterwards. *)
Definition only_shrinks self self' : Prop :=
  ∀ id t', pending_inputs_by_tx self' !! id = Some t' →
  ∃ t, pending_inputs_by_tx self !! id = Some t ∧ shrunk t t'.

Lemma shrunk_refl t : shrunk t t.
Proof. by repeat split. Qed.

Lemma shrunk_trans t1 t2 t3 : shrunk t1 t2 → shrunk t2 t3 → shrunk t1 t3.
Proof. intros (? & ? & ? & ?) (? & ? & ? & ?). repeat split; [congruence..|auto|auto]. Qed.

Lemma answered_mono t r1 r2 n1 n2 r n :
  answered t r n → answered t (r1 ++ r ++ r2) (n1 ++ n ++ n2).
Proof.
  intros [H|(i & Hi & H)]; [left|right; exists i; split; [done|]]; apply elem_of_app; right; apply elem_of_app; by left.
Qed.

Lemma answered_shrunk t t' r n : shrunk t t' → answered t' r n → answered t r n.
Proof.
  intros (H1 & H2 & H3 & _) [H|(i & Hi & H)]; rewrite ?H1, ?H2 in *; [by left|]. right. exists i. auto.
Qed.

Lemma tracks_refl id self : tracks id self [] [] self.
Proof. intros t Ht. left. exists t. split; [done|apply shrunk_refl]. Qed.

Lemma tracks_trans id s1 r1 n1 s2 r2 n2 s3 :
  tracks id s1 r1 n1 s2 → tracks id s2 r2 n2 s3 → tracks id s1 (r1 ++ r2) (n1 ++ n2) s3.
Proof.
  intros H1 H2 t Ht. destruct (H1 t Ht) as [(t' & Ht' & Hs)|Ha].
  - destruct (H2 t' Ht') as [(t'' & Ht'' & Hs')|Ha].
    + left. exists t''. split; [done|]. by eapply shrunk_trans.
    + right. apply (answered_shrunk _ _ _ _ Hs). pose proof (answered_mono _ r1 [] n1 [] _ _ Ha) as Hm. by rewrite !app_nil_r in Hm.
  - right. exact (answered_mono _ [] r2 [] n2 _ _ Ha).
Qed.

Lemma learn_shrunk known t t' : learn known t = Some t' → shrunk t t'.
Proof. intros (H1 & H2 & H3 & H4)%learn_Some. repeat split; [done..| |done]. intros i Hi. by apply H4. Qed.
Lemma only_shrinks_trans s1 s2 s3 : only_shrinks s1 s2 → only_shrinks s2 s3 → only_shrinks s1 s3.
Proof.
  intros H1 H2 id t3 H3. destruct (H2 id t3 H3) as (t2 & Ht2 & Hs2). destruct (H1 id t2 Ht2) as (t1 & Ht1 & Hs1).
  exists t1. split; [done|]. by eapply shrunk_trans.
Qed.

(** Released transactions were waiting. *)
Definition came_from self (r : Resolved) : Prop :=
  ∀ x, x ∈ r → ∃ id t, pending_inputs_by_tx self !! id = Some t ∧ x = (pending_tx t, insertion_source t).

(** What becomes known follows every transaction and leaves the times alone. *)
Definition Follows (acc acc' : Resolved * PendingPool) : Prop :=
  ∃ r, acc'.1 = acc.1 ++ r ∧ same_times acc.2 acc'.2 ∧ only_shrinks acc.2 acc'.2 ∧ (∀ id, tracks id acc.2 r [] acc'.2)
    ∧ came_from acc.2 r ∧ counters_fall acc.2 acc'.2.

Lemma Follows_refl acc : Follows acc acc.
Proof.
  exists []. rewrite app_nil_r. do 2 (split; [done|]). split; [|split; [intros; apply tracks_refl|split; [|apply counters_fall_refl]]].
  - intros id t Ht. exists t. split; [done|apply shrunk_refl].
  - by intros x Hx%not_elem_of_nil.
Qed.

Lemma Follows_trans acc1 acc2 acc3 : Follows acc1 acc2 → Follows acc2 acc3 → Follows acc1 acc3.
Proof.
  intros (r1 & E1 & [T1 T1'] & O1 & H1 & C1 & F1) (r2 & E2 & [T2 T2'] & O2 & H2 & C2 & F2). exists (r1 ++ r2).
  split; [by rewrite E2, E1, app_assoc|]. split; [split; congruence|]. split; [by eapply only_shrinks_trans|].
  split; [|split; [|by eapply counters_fall_trans]].
  - intros id. exact (tracks_trans id _ _ [] _ _ [] _ (H1 id) (H2 id)).
  - intros x [Hx|Hx]%elem_of_app; [by apply C1|]. apply C2 in Hx as (id & t2 & Hid & ->).
    apply O1 in Hid as (t1 & Hid & Ht & Hsrc & _). exists id, t1. by rewrite Ht, Hsrc.
Qed.

Lemma known_output_follows utxo_id output acc : Follows acc (new_known_input_from_output utxo_id output acc).
Proof.
  destruct acc as [res self]. destruct (known_input utxo_id output) as [i|] eqn:Hi.
  - destruct (known_input_spec utxo_id output i res self Hi) as (l & self' & -> & _ & _ & HP & _ & Ht & _ & HF).
    eexists. split; [done|]. split; [done|]. cbn [fst snd]. split; [|split; [|split; [|done]]].
    + intros id t'. rewrite HP. case_decide; [|intros Hid; exists t'; split; [done|apply shrunk_refl]].
      intros (t & Hid & Hl)%bind_Some. exists t. split; [done|]. by eapply learn_shrunk.
    + intros id t Hid. rewrite HP, Hid. case_decide as Hin; [|left; exists t; split; [done|apply shrunk_refl]]. cbn [mbind option_bind].
      destruct (learn [i] t) as [t'|] eqn:Hl; [left; exists t'; split; [done|by eapply learn_shrunk]|].
      right. left. apply list_elem_of_omap. exists id. split; [done|]. rewrite Hid. cbn. unfold released. by rewrite decide_True.
    + intros x (id & _ & (t & Hid & Hr)%bind_Some)%list_elem_of_omap. exists id, t. split; [done|].
      unfold released in Hr. case_decide; congruence.
  - unfold new_known_input_from_output. rewrite Hi. apply Follows_refl.
Qed.

Lemma known_txs_follow (known : list (list Output * TxId)) acc acc' :
  fold_panic new_known_tx_inner acc known = Some acc' → Follows acc acc'.
Proof.
  apply (fold_panic_preorder Follows); [apply Follows_refl|apply Follows_trans|].
  clear. intros acc [os id] acc'. unfold new_known_tx_inner. cbn [fst snd].
  apply (fold_panic_preorder Follows); [apply Follows_refl|apply Follows_trans|].
  clear. intros acc [i o] acc'. unfold new_known_output. destruct (try_into u16 _); [|done]. intros [= <-].
  apply known_output_follows.
Qed.

Lemma known_txs_total (known : list (list Output * TxId)) acc :
  Forall (λ k, Z.of_nat (length k.1) ≤ 65536) known → is_Some (fold_panic new_known_tx_inner acc known).
Proof.
  intros Hl. apply fold_panic_total. intros acc1 [os id] Hin. rewrite Forall_forall in Hl. specialize (Hl _ Hin).
  unfold new_known_tx_inner. apply fold_panic_total. intros acc2 [i o] Hio.
  pose proof (enumerate_u16 os Hl) as Hu. rewrite Forall_forall in Hu. rewrite new_known_output_eq by apply (Hu _ Hio). by eexists.
Qed.

(** ** Times *)
Lemma TtlOk_new now d : TtlOk now (PendingPool_new d).
Proof. split; cbn; [constructor|set_solver|done|done]. Qed.

Lemma TtlOk_shrinks now self self' : same_times self self' → only_shrinks self self' → TtlOk now self → TtlOk now self'.
Proof.
  intros [Ht Hc] Ho [Hs Hb He Hi]. split; rewrite ?Ht, ?Hc; [done..| |].
  - intros id t' Hid. apply Ho in Hid as (t & Hid & _). by eapply He.
  - intros id t' Hid. apply Ho in Hid as (t & Hid & -> & _ & _ & Hne). apply Hi in Hid as [? ?]. auto.
Qed.

Lemma TtlOk_insert now tx source missing now' self self' :
  TtlOk now self → now ≤ now' → missing ≠ [] → insert_transaction tx source missing now' self = Some self' →
  TtlOk now' self'.
Proof.
  intros [Hs Hb He Hi] Hle Hne. destruct (decide (in_range system_time (now' + ttl self))) as [Hr|Hr].
  - destruct (insert_transaction_eq tx source missing now' self Hr) as (s1 & -> & Ht & Hc & HP). intros [= <-].
    split; rewrite ?Ht, ?Hc, ?HP.
    + rewrite fmap_app. apply StronglySorted_app_2; [|done|repeat constructor]. intros a b Ha Hb'. cbn in Hb'.
      apply list_elem_of_singleton in Hb' as ->. apply list_elem_of_fmap in Ha as (e & -> & Hin). specialize (Hb e Hin). lia.
    + intros e [Hin|Hin%list_elem_of_singleton]%elem_of_app; [specialize (Hb e Hin); lia|subst e; cbn; lia].
    + intros id t [[<- _]|[_ Hid]]%lookup_insert_Some; rewrite fmap_app; apply elem_of_app; [right; by left|left; by eapply He].
    + intros id t [[<- <-]|[_ Hid]]%lookup_insert_Some; [done|by eapply Hi].
  - unfold insert_transaction, checked_add, fit. by rewrite decide_False.
Qed.

(** Expiry leaves only entries in the future. *)
Lemma TtlOk_expire now now' self notes self' :
  TtlOk now self → now ≤ now' → expire_transactions now' self = (notes, self') →
  TtlOk now' self' ∧ (∀ e, e ∈ ttl_check self' → now' < e.1 ∧ e ∈ ttl_check self) ∧ ttl self' = ttl self
  ∧ ∀ id, tracks id self [] notes self'.
Proof.
  intros [Hs Hb He Hi] Hle Hrun. unfold expire_transactions in Hrun.
  destruct (expire_loop_spec now' (ttl_check self) self eq_refl)
    as (l1 & l2 & n & s1 & Hrun' & Hl & Hpast & Hhd & Ht & Hc & HP & Hn & _ & _).
  rewrite Hrun' in Hrun. injection Hrun as <- <-. rewrite Hl, fmap_app in Hs.
  assert (∀ id t, pending_inputs_by_tx s1 !! id = Some t → pending_inputs_by_tx self !! id = Some t ∧ id ∉ l1.*2) as Hback.
  { intros id t. rewrite HP. by case_decide. }
  assert (StronglySorted Z.le l2.*1) as Hs2 by (by eapply StronglySorted_app_1_r).
  split; [|split; [|split; [done|]]].
  - split; rewrite ?Ht, ?Hc; [done| | |].
    + intros e Hin. assert (e.1 ≤ now + ttl self); [|lia]. apply Hb. rewrite Hl. apply elem_of_app. by right.
    + intros id t [Hid Hno]%Hback. apply He in Hid. rewrite Hl, fmap_app in Hid. by apply elem_of_app in Hid as [?|?].
    + intros id t [Hid _]%Hback. by eapply Hi.
  - rewrite Hc. intros e Hin. split; [|rewrite Hl; apply elem_of_app; by right]. destruct l2 as [|e0 l2]; [by apply not_elem_of_nil in Hin|].
    specialize (Hhd e0 eq_refl). apply elem_of_cons in Hin as [->|Hin]; [done|]. cbn in Hs2. apply StronglySorted_inv in Hs2 as [_ Hall].
    rewrite Forall_forall in Hall. specialize (Hall e.1 ltac:(by apply list_elem_of_fmap_2)). lia.
  - intros id t Hid. destruct (decide (id ∈ l1.*2)) as [Hin|Hin].
    + right. right. destruct (Hi id t Hid) as [_ Hne]. destruct (missing_inputs t) as [|i m] eqn:Hm; [done|]. exists i. split; [left|].
      rewrite Hn. unfold expiry_notes. apply list_elem_of_fmap. exists (id, NotifyErrorInsertion (pt_id (pending_tx t)) (Error_from_missing i) (insertion_source t)).
      split; [done|]. apply elem_of_map_to_list. rewrite expiry_note_lookup, decide_True by done. rewrite Hid. cbn. unfold expiry_note. by rewrite Hm.
    + left. exists t. split; [|apply shrunk_refl]. by rewrite HP, decide_False.
Qed.

(** ** Sequences of operations *)
Definition op_now (now : Instant) (op : PendingOp) : Instant :=
  match op with PendingInsert _ _ _ now' | PendingExpire now' => now' | _ => now end.
Definition op_inserts (op : PendingOp) : option TxId :=
  match op with PendingInsert tx _ _ _ => Some (pt_id tx) | _ => None end.

(** The clock does not go backwards. *)
Fixpoint in_time (now : Instant) (ops : list PendingOp) : Prop :=
  match ops with
  | [] => True
  | op :: ops => now ≤ op_now now op ∧ in_time (op_now now op) ops
  end.

(** The entries of a transaction in [ttl_check] are among those it had. *)
Definition no_new_entry (id : TxId) self self' : Prop :=
  ∀ e, e ∈ ttl_check self' → e.2 = id → e ∈ ttl_check self.

Lemma pending_op_step now op self :
  TtlOk now self → pending_op_ok (ttl self) op → now ≤ op_now now op →
  ∃ r n self', run_pending_op op self = Some (r, n, self') ∧ TtlOk (op_now now op) self' ∧ ttl self' = ttl self
    ∧ ∀ id, op_inserts op ≠ Some id → tracks id self r n self' ∧ no_new_entry id self self'.
Proof.
  intros Hok Hop Hle.
  assert (match op with PendingKnownTx _ | PendingKnownTxs _ => True | _ => False end →
    ∃ r n self', run_pending_op op self = Some (r, n, self') ∧ TtlOk now self' ∧ ttl self' = ttl self
    ∧ ∀ id, tracks id self r n self' ∧ no_new_entry id self self') as Hknown.
  { intros Hk. destruct (known_txs_total (op_known op) ([], self)) as [[r self'] Hrun]; [by destruct op|].
    pose proof (known_txs_follow _ _ _ Hrun) as (r' & Hr & Ht & Ho & Htr & _).
    cbn in Hr, Ht, Ho, Htr. subst r'. exists r, [], self'. split; [by apply run_known|]. split; [by eapply TtlOk_shrinks|].
    split; [apply Ht|]. intros id. split; [done|]. intros e. by rewrite (proj2 Ht). }
  destruct op as [tx source missing now'|tx|txs|now']; cbn [op_now op_inserts run_pending_op pending_op_ok] in *.
  - destruct Hop as [Hne Hr]. destruct (insert_transaction_eq tx source missing now' self Hr) as (self' & Hrun & Ht & Hc & HP).
    rewrite Hrun. exists [], [], self'. split; [done|]. split; [by eapply TtlOk_insert|]. split; [done|]. intros id Hid. split.
    + intros t Htid. left. exists t. split; [|apply shrunk_refl]. rewrite HP, lookup_insert_ne; [done|congruence].
    + intros e. rewrite Hc. intros [?|He%list_elem_of_singleton]%elem_of_app; [done|]. subst e. cbn. congruence.
  - destruct (Hknown I) as (r & n & self' & ? & ? & ? & Hid). exists r, n, self'. auto.
  - destruct (Hknown I) as (r & n & self' & ? & ? & ? & Hid). exists r, n, self'. auto.
  - destruct (expire_transactions now' self) as [n self'] eqn:Hrun.
    destruct (TtlOk_expire now now' self n self' Hok Hle Hrun) as (Hok' & Hc & Ht & Htr). exists [], n, self'.
    do 3 (split; [done|]). intros id _. split; [done|]. intros e He _. by apply Hc.
Qed.

Lemma run_pending_spec now ops self :
  TtlOk now self → Forall (pending_op_ok (ttl self)) ops → in_time now ops →
  ∃ r n self', run_pending ops self = Some (r, n, self') ∧ TtlOk (foldl op_now now ops) self' ∧ ttl self' = ttl self
    ∧ ∀ id, Forall (λ op, op_inserts op ≠ Some id) ops → tracks id self r n self' ∧ no_new_entry id self self'.
Proof.
  revert now self. induction ops as [|op ops IH]; intros now self Hok Hops Htime; cbn [run_pending foldl].
  - exists [], [], self. do 3 (split; [done|]). intros id _. split; [apply tracks_refl|]. by intros e.
  - apply Forall_cons in Hops as [Hop Hops]. destruct Htime as [Hle Htime].
    destruct (pending_op_step now op self Hok Hop Hle) as (r & n & s1 & -> & Hok1 & Ht1 & Hid1). cbn [mbind option_bind].
    rewrite <- Ht1 in Hops. destruct (IH _ s1 Hok1 Hops Htime) as (r' & n' & s2 & -> & Hok2 & Ht2 & Hid2). cbn [mbind option_bind].
    exists (r ++ r'), (n ++ n'), s2. split; [done|]. split; [done|]. split; [congruence|].
    intros id [Ho Hos]%Forall_cons. destruct (Hid1 id Ho) as [Htr1 He1]. destruct (Hid2 id Hos) as [Htr2 He2].
    split; [by eapply tracks_trans|]. intros e He Hei. auto.
Qed.

Lemma run_pending_app ops1 ops2 self r1 n1 self1 :
  run_pending ops1 self = Some (r1, n1, self1) →
  run_pending (ops1 ++ ops2) self = '(r2, n2, self2) ← run_pending ops2 self1; Some (r1 ++ r2, n1 ++ n2, self2).
Proof.
  revert self r1 n1. induction ops1 as [|op ops1 IH]; intros self r1 n1; cbn [run_pending app].
  - intros [= <- <- <-]. by destruct (run_pending ops2 self) as [[[r2 n2] s2]|].
  - destruct (run_pending_op op self) as [[[r n] s1]|]; cbn [mbind option_bind]; [|done].
    destruct (run_pending ops1 s1) as [[[r' n'] s']|] eqn:Hrun; cbn [mbind option_bind]; [|done]. intros [= <- <- <-].
    rewrite (IH _ _ _ Hrun). destruct (run_pending ops2 s') as [[[r2 n2] s2]|]; cbn [mbind option_bind]; [|done]. by rewrite !app_assoc.
Qed.

Lemma in_time_app now ops1 ops2 : in_time now (ops1 ++ ops2) ↔ in_time now ops1 ∧ in_time (foldl op_now now ops1) ops2.
Proof. revert now. induction ops1 as [|op ops1 IH]; intros now; cbn; [tauto|]. rewrite IH. tauto. Qed.

(** After the deadline of all its entries a transaction does not wait. *)
Lemma expired now now' self id d n self' :
  TtlOk now self → now ≤ now' → (∀ e, e ∈ ttl_check self → e.2 = id → e.1 ≤ d) → d ≤ now' →
  expire_transactions now' self = (n, self') → pending_inputs_by_tx self' !! id = None.
Proof.
  intros Hok Hle Hd Hnow Hrun. destruct (TtlOk_expire now now' self n self' Hok Hle Hrun) as (Hok' & Hc & _).
  destruct (pending_inputs_by_tx self' !! id) as [t|] eqn:Hid; [|done]. exfalso.
  apply (tk_entry _ _ Hok') in Hid. apply list_elem_of_fmap in Hid as (e & -> & He). destruct (Hc e He) as [Hlt Hin].
  specialize (Hd e Hin eq_refl). lia.
Qed.

(** C26 A transaction that starts to wait, and is not inserted again while it
    waits, is answered: whatever else happens in the meantime, a check for
    expired transactions after its time to live leaves it out of the pool, and
    by then it was either released to the main pool or its sender was notified
    of an input it misses.  Insertions name at least one missing input, the clock
    does not go backwards and its times are representable, and transactions have
    at most [2 ^ 16] outputs.  (An insertion of the same transaction replaces the
    entry and its sender; the claim then holds for the last insertion.) *)
Theorem waiting_ends start d ops1 tx source missing t0 ops2 t1 :
  Forall (pending_op_ok d) (ops1 ++ PendingInsert tx source missing t0 :: ops2) →
  in_time start (ops1 ++ PendingInsert tx source missing t0 :: ops2 ++ [PendingExpire t1]) →
  Forall (λ op, op_inserts op ≠ Some (pt_id tx)) ops2 → t0 + d ≤ t1 →
  ∃ r1 n1 self r2 n2 self',
    run_pending ops1 (PendingPool_new d) = Some (r1, n1, self)
    ∧ run_pending (PendingInsert tx source missing t0 :: ops2 ++ [PendingExpire t1]) self = Some (r2, n2, self')
    ∧ pending_inputs_by_tx self' !! pt_id tx = None ∧ answered (MkPendingTx tx source missing) r2 n2.
Proof.
  intros [Hops1 [Hins Hops2]%Forall_cons]%Forall_app Htime Hno Hd. apply in_time_app in Htime as [Htime1 Htime2].
  destruct (run_pending_spec start ops1 _ (TtlOk_new start d) Hops1 Htime1) as (r1 & n1 & self & Hrun1 & Hok1 & Ht1 & _).
  cbn [ttl PendingPool_new] in Ht1. rewrite <- Ht1 in *. set (op := PendingInsert tx source missing t0) in *.
  destruct Htime2 as [Hle Htime2]. apply in_time_app in Htime2 as [Htime2 [Hle1 _]].
  destruct (pending_op_step _ op self Hok1 Hins Hle) as (r2 & n2 & s2 & Hrun2 & Hok2 & Ht2 & _).
  rewrite <- Ht2 in Hops2. destruct (run_pending_spec _ ops2 s2 Hok2 Hops2 Htime2) as (r3 & n3 & s3 & Hrun3 & Hok3 & Ht3 & Hid3).
  destruct (Hid3 _ Hno) as [Htr3 He3]. destruct (expire_transactions t1 s3) as [n4 s4] eqn:Hrun4.
  assert (pending_inputs_by_tx s2 !! pt_id tx = Some (MkPendingTx tx source missing)) as Hp2.
  { destruct Hins as [_ Hr]. destruct (insert_transaction_eq tx source missing t0 self Hr) as (s2' & Hrun2' & _ & _ & HP2).
    cbn [run_pending_op op] in Hrun2. rewrite Hrun2' in Hrun2. injection Hrun2 as _ _ <-. by rewrite HP2, lookup_insert_eq. }
  assert (∀ e, e ∈ ttl_check s3 → e.2 = pt_id tx → e.1 ≤ t0 + ttl self) as Hdl.
  { intros e He Hid. pose proof (tk_bound _ _ Hok2 e (He3 e He Hid)) as Hb. cbn [op_now op] in Hb. lia. }
  assert (run_pending (op :: ops2 ++ [PendingExpire t1]) self = Some (r2 ++ r3 ++ [] ++ [], n2 ++ n3 ++ n4 ++ [], s4)) as Hrun.
  { cbn [run_pending]. rewrite Hrun2. cbn [mbind option_bind]. rewrite (run_pending_app _ _ _ _ _ _ Hrun3).
    cbn [run_pending run_pending_op]. rewrite Hrun4. done. }
  exists r1, n1, self, (r2 ++ r3 ++ [] ++ []), (n2 ++ n3 ++ n4 ++ []), s4. do 2 (split; [done|]).
  assert (pending_inputs_by_tx s4 !! pt_id tx = None) as Hgone by (by eapply expired).
  split; [done|]. destruct (TtlOk_expire _ t1 s3 n4 s4 Hok3 Hle1 Hrun4) as (_ & _ & _ & Htr4).
  destruct (tracks_trans _ _ _ _ _ _ _ _ Htr3 (Htr4 (pt_id tx)) _ Hp2) as [(t & Ht & _)|Ha]; [congruence|].
  pose proof (answered_mono _ r2 [] n2 [] _ _ Ha) as Hm. by rewrite <- !app_assoc in Hm.
Qed.

(** ** Exact tables *)

(** What an operation needs for the tables to stay exact. *)
Definition keeps_exact self (op : PendingOp) : Prop :=
  match op with
  | PendingInsert tx _ missing now => can_wait self tx missing now
  | _ => Forall (λ k, Z.of_nat (length k.1) ≤ 65536) (op_known op)
  end.

Inductive pending_reachable (d : Z) : PendingPool → Prop :=
| pending_reachable_new : pending_reachable d (PendingPool_new d)
| pending_reachable_step self op r n self' :
    pending_reachable d self → keeps_exact self op → run_pending_op op self = Some (r, n, self') →
    pending_reachable d self'.

Lemma PendingOk_new d : PendingOk (PendingPool_new d).
Proof.
  split; cbn; [|done..|].
  - intros i id. unfold waiting. cbn. rewrite lookup_empty. cbn. split; [set_solver|]. intros (t & Ht & _). by rewrite lookup_empty in Ht.
  - unfold Counted, pending_gas, pending_bytes. cbn. rewrite !map_sum_empty, map_size_empty. int_unfold. split; [|lia].
    intros id t. by rewrite lookup_empty.
Qed.

Lemma run_known_exact op self :
  match op with PendingKnownTx _ | PendingKnownTxs _ => True | _ => False end → PendingOk self → keeps_exact self op →
  ∃ r self', run_pending_op op self = Some (r, [], self') ∧ PendingOk self'
    ∧ pending_inputs_by_tx self' = learned (op_known op ≫= λ k, known_inputs k.1 k.2) (pending_inputs_by_tx self)
    ∧ r ≡ₚ released_by (op_known op ≫= λ k, known_inputs k.1 k.2) (pending_inputs_by_tx self).
Proof.
  intros Hk Hok Hop. destruct (known_txs_spec (op_known op) ([], self) Hok) as ([r self'] & Hrun & r' & Hr & Hp & HP & _ & Hok').
  { by destruct op. }
  cbn in *. subst r'. exists r, self'. split; [by apply run_known|]. done.
Qed.

Lemma keeps_exact_ok op self r n self' :
  PendingOk self → keeps_exact self op → run_pending_op op self = Some (r, n, self') → PendingOk self'.
Proof.
  intros Hok Hop Hrun. destruct op as [tx source missing now|tx|txs|now].
  - cbn in Hrun. destruct (insert_transaction tx source missing now self) as [s1|] eqn:Hins; [|done]. injection Hrun as _ _ <-.
    by eapply insert_transaction_ok.
  - destruct (run_known_exact (PendingKnownTx tx) self I Hok Hop) as (r' & s1 & Hrun' & Hok' & _). congruence.
  - destruct (run_known_exact (PendingKnownTxs txs) self I Hok Hop) as (r' & s1 & Hrun' & Hok' & _). congruence.
  - cbn in Hrun. destruct (expire_transactions now self) as [n1 s1] eqn:Hexp. injection Hrun as _ _ <-.
    destruct (expire_loop_spec now (ttl_check self) self eq_refl) as (l1 & l2 & n2 & s2 & Hrun & _ & _ & _ & _ & _ & _ & _ & Hok' & _).
    unfold expire_transactions in Hexp. rewrite Hrun in Hexp. injection Hexp as _ <-. auto.
Qed.

Lemma pending_reachable_ok d self : pending_reachable d self → PendingOk self.
Proof. induction 1; [apply PendingOk_new|by eapply keeps_exact_ok]. Qed.

(** The tables of the pending pool are exact as long as no waiting
    transaction is inserted again: the index by inputs names exactly the
    transactions that miss an input and keeps no empty entry, every waiting
    transaction misses something, and the counters that limit the pool are the
    sums over the waiting transactions. *)
Theorem pending_tables_exact d self :
  pending_reachable d self →
  (∀ i id, id ∈ waiting self i ↔ ∃ t, pending_inputs_by_tx self !! id = Some t ∧ i ∈ missing_inputs t)
  ∧ no_empty_sets (pending_txs_by_inputs self)
  ∧ (∀ id t, pending_inputs_by_tx self !! id = Some t → missing_inputs t ≠ [])
  ∧ pending_current_gas self = pending_gas (pending_inputs_by_tx self)
  ∧ pending_current_bytes self = pending_bytes (pending_inputs_by_tx self)
  ∧ pending_current_txs self = Z.of_nat (size (pending_inputs_by_tx self)).
Proof.
  intros [Hix Hs Hm (_ & [Hg _] & [Hb _] & Hn & _)]%pending_reachable_ok. by repeat (split; [done|]).
Qed.

(** Transactions of a block release exactly the transactions that miss
    nothing any more: what a waiting transaction misses afterwards is what it
    missed without the coins and contracts that the block creates, and exactly
    the transactions for which this is nothing are returned, with their
    sources. *)
Theorem release_exact d self txs :
  pending_reachable d self → Forall (λ t, Z.of_nat (length (transaction_outputs t.1)) ≤ 65536) txs →
  let known := txs ≫= λ t, known_inputs (transaction_outputs t.1) t.2 in
  ∃ r self', new_known_txs txs self = Some (r, self')
    ∧ (∀ id, pending_inputs_by_tx self' !! id = pending_inputs_by_tx self !! id ≫= learn known)
    ∧ r ≡ₚ released_by known (pending_inputs_by_tx self).
Proof.
  intros Hok%pending_reachable_ok Hlen known.
  destruct (run_known_exact (PendingKnownTxs txs) self I Hok) as (r & self' & Hrun & _ & HP & Hr).
  { by apply Forall_fmap. }
  assert (op_known (PendingKnownTxs txs) ≫= (λ k, known_inputs k.1 k.2) = known) as Heq.
  { unfold known. cbn [op_known]. clear. induction txs as [|t txs IH]; [done|]. cbn. by f_equal. }
  rewrite Heq in *. apply run_known in Hrun as [Hrun _]; [|done]. exists r, self'. split; [done|]. split; [|done].
  intros id. rewrite HP. apply lookup_omap.
Qed.

Lemma expire_tx_Some id self t :
  pending_inputs_by_tx self !! id = Some t →
  expire_tx id self = (option_list (expiry_note t),
    set_waiting (foldl (stop_waiting id) (pending_txs_by_inputs self) (missing_inputs t))
      (decrease_pool_size (pending_tx t) (set_pending (delete id (pending_inputs_by_tx self)) self))).
Proof. intros Ht. unfold expire_tx, expiry_note. rewrite Ht. by destruct (missing_inputs t). Qed.

Lemma expire_tx_None id self : pending_inputs_by_tx self !! id = None → expire_tx id self = ([], self).
Proof. intros Ht. unfold expire_tx. by rewrite Ht. Qed.

(** The pool after a transaction starts to wait. *)
Definition waits_for (tx : PoolTransaction) (source : InsertionSource) (missing : list MissingInput) (now : Instant) self
    : PendingPool :=
  MkPendingPool (ttl self) (foldl (wait_for (pt_id tx)) (pending_txs_by_inputs self) missing)
    (<[pt_id tx := MkPendingTx tx source missing]> (pending_inputs_by_tx self))
    (ttl_check self ++ [(now + ttl self, pt_id tx)])
    (saturating_add usize (pending_current_bytes self) (pt_metered_bytes_size tx))
    (saturating_add usize (pending_current_txs self) 1)
    (saturating_add u64 (pending_current_gas self) (pt_max_gas tx)).

(** A transaction that is inserted again while it waits is counted twice and
    forgotten once: after it has expired nothing waits, but the counters that
    limit the pool still hold it, for good. *)
Theorem waiting_twice_leaks d tx source source' missing now :
  missing ≠ [] → in_range system_time (now + d) → in_range u64 (2 * pt_max_gas tx) →
  in_range usize (2 * pt_metered_bytes_size tx) →
  ∃ n self, run_pending [PendingInsert tx source missing now; PendingInsert tx source' missing now; PendingExpire (now + d)]
              (PendingPool_new d) = Some ([], n, self)
    ∧ pending_inputs_by_tx self = ∅ ∧ ttl_check self = []
    ∧ pending_current_txs self = 1 ∧ pending_current_gas self = pt_max_gas tx
    ∧ pending_current_bytes self = pt_metered_bytes_size tx.
Proof.
  intros Hne Hr Hg Hb. cbn [run_pending run_pending_op].
  assert (∀ src self, ttl self = d → insert_transaction tx src missing now self = Some (waits_for tx src missing now self)) as Hins.
  { intros src self <-. unfold insert_transaction, checked_add, fit. by rewrite decide_True. }
  rewrite Hins by done. cbn [mbind option_bind]. rewrite Hins by done. cbn [mbind option_bind].
  unfold expire_transactions. cbn [waits_for PendingPool_new ttl ttl_check app expire_loop]. rewrite decide_False by lia.
  rewrite (expire_tx_Some _ _ (MkPendingTx tx source' missing)) by apply lookup_insert_eq.
  rewrite decide_False by lia. rewrite expire_tx_None by apply lookup_delete_eq.
  eexists _, _. split; [done|].
  cbn [waits_for PendingPool_new set_ttl_check set_waiting decrease_pool_size set_pending pending_inputs_by_tx ttl_check
    pending_current_txs pending_current_gas pending_current_bytes pending_tx].
  split; [by rewrite insert_insert_eq, delete_insert_id by apply lookup_empty|]. split; [done|]. clear Hr Hins Hne.
  repeat split; int_lia.
Qed.
End pending_claims.
