(* ===== verification/TxPoolForest.v ===== *)
(** * Dependency graphs without diamonds

    The pool relies on a dependency graph in which two nodes are connected by
    at most one path.  This file has the graph theory: reachability, what the
    absence of diamonds implies for common descendants and ancestors, what
    removing a node does to reachability, and adding a node below others. *)
From S2P Require Import Prelude TxPoolTypes.

Abbreviation Edges := (gset (NodeIndex * NodeIndex)).

Definition edge (E : Edges) (a b : NodeIndex) : Prop := (a, b) ∈ E.
#[export] Instance edge_decision E a b : Decision (edge E a b).
Proof. unfold edge. apply _. Defined.
Definition reach (E : Edges) : NodeIndex → NodeIndex → Prop := rtc (edge E).

Record forest (E : Edges) : Prop := {
  forest_acyclic a b : edge E a b → ¬ reach E b a;
  forest_no_diamond a b1 b2 c :
    edge E a b1 → edge E a b2 → reach E b1 c → reach E b2 c → b1 = b2
}.

Lemma reach_mono (E F : Edges) a b : E ⊆ F → reach E a b → reach F a b.
Proof. intros Hsub. apply rtc_subrel. intros x y. unfold edge. set_solver. Qed.

Lemma reach_edge E a b : edge E a b → reach E a b.
Proof. intros. by apply rtc_once. Qed.

Lemma reach_closed E (P : NodeIndex → Prop) a b :
  (∀ x y, P x → edge E x y → P y) → P a → reach E a b → P b.
Proof. intros Hcl Ha Hr. induction Hr as [|x y z He Hr IH]; [done|]. apply IH. by eapply Hcl. Qed.

Lemma reach_inv_r E a b : reach E a b → a = b ∨ ∃ c, reach E a c ∧ edge E c b.
Proof. intros Hr. apply rtc_inv_r in Hr as [?|(c & ? & ?)]; [by left|right; eauto]. Qed.

Lemma forest_mono (E F : Edges) : E ⊆ F → forest F → forest E.
Proof.
  intros Hsub [Ha Hd]. split.
  - intros a b He Hr. apply (Ha a b); [by apply Hsub|by eapply reach_mono].
  - intros a b1 b2 c H1 H2 Hr1 Hr2. apply (Hd a b1 b2 c); [by apply Hsub..| |]; by eapply reach_mono.
Qed.

Section forest.
Context (E : Edges) (F : forest E).

Lemma reach_antisym a b : reach E a b → reach E b a → a = b.
Proof.
  intros Hab Hba. destruct Hab as [|a c b Hac Hcb]; [done|].
  exfalso. apply (forest_acyclic E F a c Hac). unfold reach in *. by etrans.
Qed.

(** Two nodes with a common ancestor and a common descendant are comparable. *)
Lemma reach_comparable x q r c :
  reach E x q → reach E x r → reach E q c → reach E r c → reach E q r ∨ reach E r q.
Proof.
  intros Hxq. revert r. induction Hxq as [q|x x1 q He Hq IH]; intros r Hxr Hqc Hrc; [by left|].
  destruct Hxr as [|x x2 r He2 Hr]; [right; by eapply rtc_l|].
  assert (x1 = x2) as <-.
  { apply (forest_no_diamond E F x x1 x2 c); [done..| |]; unfold reach in *; by etrans. }
  by apply IH.
Qed.

(** Different parents of a node have no common ancestor. *)
Lemma parents_disjoint x p1 p2 n :
  edge E p1 n → edge E p2 n → reach E x p1 → reach E x p2 → p1 = p2.
Proof.
  assert (∀ p1 p2, edge E p1 n → edge E p2 n → reach E p1 p2 → p1 = p2) as Hone.
  { intros q1 q2 H1 H2 Hr. destruct Hr as [|q1 y q2 He Hr]; [done|]. exfalso.
    assert (y = n) as ->.
    { apply (forest_no_diamond E F q1 y n n He H1); [|apply rtc_refl].
      unfold reach. etrans; [exact Hr|by apply rtc_once]. }
    by apply (forest_acyclic E F q2 n). }
  intros H1 H2 Hx1 Hx2.
  destruct (reach_comparable x p1 p2 n) as [Hr|Hr]; [done|done|by apply reach_edge..| |].
  - by apply Hone.
  - symmetry. by apply Hone.
Qed.

(** Different children of a node are not comparable. *)
Lemma children_incomparable a b1 b2 : edge E a b1 → edge E a b2 → reach E b1 b2 → b1 = b2.
Proof. intros H1 H2 Hr. by apply (forest_no_diamond E F a b1 b2 b2); [..|apply rtc_refl]. Qed.
End forest.

(** ** Removing a node *)
Definition without (E : Edges) (n : NodeIndex) : Edges :=
  filter (λ e : NodeIndex * NodeIndex, e.1 ≠ n ∧ e.2 ≠ n) E.

Lemma without_sub E n : without E n ⊆ E.
Proof. unfold without. set_solver. Qed.

Lemma edge_without E n a b : edge (without E n) a b ↔ edge E a b ∧ a ≠ n ∧ b ≠ n.
Proof. unfold edge, without. rewrite elem_of_filter. cbn. tauto. Qed.

Lemma reach_without_around E n x m :
  reach E x m → ¬ (reach E x n ∧ reach E n m) → reach (without E n) x m.
Proof.
  intros Hr. induction Hr as [x|x x1 m He Hr IH]; intros Hn; [apply rtc_refl|].
  apply rtc_l with x1.
  - apply edge_without. split; [done|]. split; intros ->; apply Hn.
    + split; [apply rtc_refl|by eapply rtc_l].
    + split; [by apply rtc_once|done].
  - apply IH. intros [H1 H2]. apply Hn. split; [by eapply rtc_l|done].
Qed.

Lemma reach_without E n x m :
  forest E → x ≠ n → reach (without E n) x m → ¬ (reach E x n ∧ reach E n m).
Proof.
  intros F Hx Hr [Hxn Hnm]. revert Hx Hxn. induction Hr as [x|x x1 m He Hr IH]; intros Hx Hxn.
  - by apply Hx, (reach_antisym E F).
  - apply edge_without in He as (He & _ & Hx1). apply IH; [done|done|].
    destruct Hxn as [|x x2 n He2 Hxn]; [done|].
    assert (x1 = x2) as ->; [|done]. apply (forest_no_diamond E F x x1 x2 m); [done|done| |].
    + eapply reach_mono; [apply without_sub|exact Hr].
    + unfold reach in *. by etrans.
Qed.

(** The proper ancestors of a node are those of its parents, once it is gone. *)
Lemma reach_parent E n x :
  forest E → x ≠ n → reach E x n ↔ ∃ p, edge E p n ∧ reach (without E n) x p.
Proof.
  intros F Hx. split.
  - intros [->|(p & Hr & He)]%reach_inv_r; [done|]. exists p. split; [done|].
    apply reach_without_around; [done|]. intros [_ Hnp]. by apply (forest_acyclic E F p n).
  - intros (p & He & Hr). eapply rtc_r; [|exact He]. eapply reach_mono; [apply without_sub|exact Hr].
Qed.

(** ** Adding a node below others *)
Definition below (E : Edges) (D : gset NodeIndex) (n : NodeIndex) : Edges :=
  set_map (λ d, (d, n)) D ∪ E.

Lemma edge_below E D n a b : edge (below E D n) a b ↔ (a ∈ D ∧ b = n) ∨ edge E a b.
Proof. unfold edge, below. rewrite elem_of_union, elem_of_map. set_solver. Qed.

Section below.
Context (E : Edges) (D : gset NodeIndex) (n : NodeIndex).
(** The new node is not in the graph. *)
Context (fresh_l : ∀ b, ¬ edge E n b) (fresh_r : ∀ a, ¬ edge E a n) (fresh_d : n ∉ D).

Lemma reach_new b : reach (below E D n) n b → n = b.
Proof.
  intros Hr. apply rtc_inv in Hr as [->|(c & He & Hr)]; [done|].
  apply edge_below in He as [[Hd _]|He]; [done|by apply fresh_l in He].
Qed.

Lemma reach_below x m : m ≠ n → reach (below E D n) x m ↔ reach E x m.
Proof.
  intros Hm. split.
  - intros Hr. induction Hr as [|x y m He Hr IH]; [apply rtc_refl|].
    apply edge_below in He as [[_ ->]|He]; [by apply reach_new in Hr|].
    eapply rtc_l; [exact He|by apply IH].
  - apply reach_mono. unfold below. set_solver.
Qed.

Lemma reach_below_new x : reach (below E D n) x n ↔ x = n ∨ ∃ d, d ∈ D ∧ reach E x d.
Proof.
  split.
  - intros Hr. apply reach_inv_r in Hr as [->|(c & Hr & He)]; [by left|].
    apply edge_below in He as [[Hd _]|He]; [|by apply fresh_r in He].
    right. exists c. split; [done|]. apply reach_below; [|done]. intros ->. done.
  - intros [->|(d & Hd & Hr)]; [apply rtc_refl|].
    eapply rtc_r; [apply reach_below; [|exact Hr]|apply edge_below; by left].
    intros ->. done.
Qed.

Lemma forest_below :
  forest E →
  (∀ d1 d2 a, d1 ∈ D → d2 ∈ D → reach E a d1 → reach E a d2 → d1 = d2) →
  forest (below E D n).
Proof.
  intros F Hdis. split.
  - intros a b He Hr. apply edge_below in He as [[Hd ->]|He].
    + apply reach_new in Hr as <-. done.
    + assert (a ≠ n) by (intros ->; by apply fresh_l in He).
      apply reach_below in Hr; [|done]. by apply (forest_acyclic E F a b).
  - assert (∀ a b1 b2 d, a ∈ D → edge E a b2 → b1 = n → d ∈ D → reach E b2 d → b1 = b2) as Hnew.
    { intros a b1 b2 d Ha He -> Hd Hr. exfalso.
      assert (a = d) as -> by (apply (Hdis a d a); [done|done|apply rtc_refl|by eapply rtc_l]).
      by apply (forest_acyclic E F d b2). }
    intros a b1 b2 c H1 H2 Hr1 Hr2. destruct (decide (c = n)) as [->|Hc].
    + apply edge_below in H1, H2. apply reach_below_new in Hr1, Hr2.
      destruct H1 as [[Ha1 ->]|H1], H2 as [[Ha2 ->]|H2]; [done| | |].
      * destruct Hr2 as [->|(d & Hd & Hr2)]; [done|]. by apply (Hnew a n b2 d).
      * destruct Hr1 as [->|(d & Hd & Hr1)]; [done|]. symmetry. by apply (Hnew a n b1 d).
      * assert (b1 ≠ n ∧ b2 ≠ n) as [Hb1 Hb2] by (split; intros ->; by eapply fresh_r).
        destruct Hr1 as [?|(d1 & Hd1 & Hr1)]; [done|]. destruct Hr2 as [?|(d2 & Hd2 & Hr2)]; [done|].
        assert (d1 = d2) as <- by (apply (Hdis d1 d2 a); [done|done|exact (rtc_l _ _ _ _ H1 Hr1)|exact (rtc_l _ _ _ _ H2 Hr2)]).
        by apply (forest_no_diamond E F a b1 b2 d1).
    + assert (b1 ≠ n ∧ b2 ≠ n) as [Hb1 Hb2].
      { split; intros ->; [by apply reach_new in Hr1|by apply reach_new in Hr2]. }
      apply reach_below in Hr1, Hr2; [|done..].
      apply edge_below in H1 as [[_ ?]|H1]; [done|]. apply edge_below in H2 as [[_ ?]|H2]; [done|].
      by apply (forest_no_diamond E F a b1 b2 c).
Qed.
End below.
