(* ===== verification/TxPoolGraphFacts.v ===== *)
(** * The dependency graph keeps its invariant

    What the graph storage of the pool maintains: its edges form a graph
    without diamonds, every edge stands for a spent coin or a used contract,
    the caches name exactly the creators that are stored, and the cumulative
    counters of a transaction are the sums over the transactions that can be
    reached from it.  Every operation preserves this and none of them panics. *)
From S2P Require Import Prelude FuelTypes TxPoolTypes TxPoolGraph TxPoolForest.

(** ** Tables of keys that transactions own *)
Abbreviation Shape := (gmap NodeIndex (PoolTransaction * Instant)).

(** [m] sends exactly the keys of the stored transactions to their nodes. *)
Definition owns `{Countable K} (m : gmap K NodeIndex) (T : Shape) (ks : PoolTransaction → list K) : Prop :=
  ∀ k n, m !! k = Some n ↔ ∃ p, T !! n = Some p ∧ k ∈ ks p.1.

Section owns.
Context `{Countable K}.
Implicit Types (m : gmap K NodeIndex) (l : list K).

Lemma delete_keys_lookup l : ∀ m k,
  delete_keys l m !! k = if decide (k ∈ l) then None else m !! k.
Proof.
  induction l as [|x l IH]; intros m k; unfold delete_keys in *; cbn.
  - by rewrite decide_False by (by apply not_elem_of_nil).
  - rewrite IH. destruct (decide (k ∈ l)) as [Hl|Hl].
    + by rewrite decide_True by (by right).
    + destruct (decide (k = x)) as [->|Hx].
      * rewrite lookup_delete_eq. by rewrite decide_True by left.
      * rewrite lookup_delete_ne by done. rewrite decide_False; [done|]. by intros [?|?]%elem_of_cons.
Qed.

Lemma insert_keys_lookup l n : ∀ m k,
  insert_keys l n m !! k = if decide (k ∈ l) then Some n else m !! k.
Proof.
  induction l as [|x l IH]; intros m k; unfold insert_keys in *; cbn.
  - by rewrite decide_False by (by apply not_elem_of_nil).
  - rewrite IH. destruct (decide (k ∈ l)) as [Hl|Hl].
    + by rewrite decide_True by (by right).
    + destruct (decide (k = x)) as [->|Hx].
      * rewrite lookup_insert_eq. by rewrite decide_True by left.
      * rewrite lookup_insert_ne by done. rewrite decide_False; [done|]. by intros [?|?]%elem_of_cons.
Qed.

Context (ks : PoolTransaction → list K).

Lemma owns_empty : owns ∅ ∅ ks.
Proof. intros k n. rewrite lookup_empty. split; [done|]. by intros (p & ?%lookup_empty_Some & _). Qed.

Lemma owns_delete m T n p :
  owns m T ks → T !! n = Some p → owns (delete_keys (ks p.1) m) (delete n T) ks.
Proof.
  intros Ho Hn k n'. rewrite delete_keys_lookup. case_decide as Hk.
  - split; [done|]. intros (p' & [Hne Hp']%lookup_delete_Some & Hk'). exfalso. apply Hne.
    assert (m !! k = Some n) as H1 by (apply Ho; eauto).
    assert (m !! k = Some n') as H2 by (apply Ho; eauto). congruence.
  - rewrite (Ho k n'). split.
    + intros (p' & Hp' & Hk'). exists p'. split; [|done]. apply lookup_delete_Some. split; [|done].
      intros ->. congruence.
    + intros (p' & [_ Hp']%lookup_delete_Some & Hk'). eauto.
Qed.

Lemma owns_insert m T n tx i :
  owns m T ks → T !! n = None → (∀ k, k ∈ ks tx → m !! k = None) →
  owns (insert_keys (ks tx) n m) (<[n := (tx, i)]> T) ks.
Proof.
  intros Ho Hn Hfree k n'. rewrite insert_keys_lookup. destruct (decide (n' = n)) as [->|Hne].
  - rewrite lookup_insert_eq. case_decide as Hk; [split; [intros _; by eexists|done]|].
    split; [|intros (p & [= <-] & ?); done]. rewrite (Ho k n). intros (p & Hp & _). congruence.
  - rewrite lookup_insert_ne by done. rewrite <- (Ho k n'). case_decide as Hk; [|done].
    rewrite (Hfree k Hk). split; [by intros [= ->]|done].
Qed.

Lemma owns_weaken m T k n : owns m T ks → m !! k = Some n → is_Some (T !! n).
Proof. intros Ho Hk. apply Ho in Hk as (p & Hp & _). by eexists. Qed.
End owns.

(** ** Sums over sets of nodes *)
Definition sum_list (f : NodeIndex → Z) (l : list NodeIndex) : Z := foldr (λ n acc, f n + acc) 0 l.
Definition set_sum (f : NodeIndex → Z) (X : gset NodeIndex) : Z := sum_list f (elements X).

#[export] Instance sum_list_proper f : Proper ((≡ₚ) ==> (=)) (sum_list f).
Proof. intros l k Hp. unfold sum_list. induction Hp; cbn; lia. Qed.

Lemma node_sum_app f l k : sum_list f (l ++ k) = sum_list f l + sum_list f k.
Proof. unfold sum_list. induction l as [|x l IH]; cbn; lia. Qed.

Lemma set_sum_singleton f n : set_sum f {[n]} = f n.
Proof. unfold set_sum. rewrite elements_singleton. cbn. lia. Qed.

Lemma set_sum_union f X Y : X ## Y → set_sum f (X ∪ Y) = set_sum f X + set_sum f Y.
Proof. intros Hd. unfold set_sum. by rewrite elements_disj_union, node_sum_app by done. Qed.

Lemma set_sum_difference f X Y : Y ⊆ X → set_sum f (X ∖ Y) = set_sum f X - set_sum f Y.
Proof.
  intros Hsub. rewrite (union_difference_L Y X Hsub) at 2. rewrite set_sum_union by set_solver. lia.
Qed.

Lemma set_sum_nonneg f X : (∀ n, 0 ≤ f n) → 0 ≤ set_sum f X.
Proof. intros Hf. unfold set_sum, sum_list. induction (elements X) as [|n l IH]; cbn; [lia|]. specialize (Hf n). lia. Qed.

Lemma set_sum_mono f X Y : (∀ n, 0 ≤ f n) → X ⊆ Y → set_sum f X ≤ set_sum f Y.
Proof.
  intros Hf Hsub. pose proof (set_sum_difference f Y X Hsub). pose proof (set_sum_nonneg f (Y ∖ X) Hf). lia.
Qed.

Lemma set_sum_ext f g X : (∀ n, n ∈ X → f n = g n) → set_sum f X = set_sum g X.
Proof.
  intros Hfg. unfold set_sum, sum_list. assert (∀ n, n ∈ elements X → f n = g n) as Hl by set_solver.
  induction (elements X) as [|n l IH]; cbn; [done|]. rewrite Hl by left. rewrite IH; [done|]. intros m Hm. apply Hl. by right.
Qed.

(** ** The contents of a graph *)
Definition entry_shape (d : StorageData) : PoolTransaction * Instant := (transaction d, creation_instant d).

(** The quantities that are accumulated over dependents. *)
Inductive Quantity := QTip | QGas | QBytes | QCount.
Definition stored (q : Quantity) (d : StorageData) : Z :=
  match q with
  | QTip => dependents_cumulative_tip d
  | QGas => dependents_cumulative_gas d
  | QBytes => dependents_cumulative_bytes_size d
  | QCount => number_dependents_in_chain d
  end.
Definition weight (q : Quantity) (tx : PoolTransaction) : Z :=
  match q with
  | QTip => pt_tip tx
  | QGas => pt_max_gas tx
  | QBytes => pt_metered_bytes_size tx
  | QCount => 1
  end.
Definition weight_at (T : Shape) (q : Quantity) (n : NodeIndex) : Z :=
  match T !! n with Some p => weight q p.1 | None => 0 end.
Definition total (T : Shape) (q : Quantity) : Z := set_sum (weight_at T q) (dom T).

(** The amounts of a transaction are not negative, it has gas, and it does not
    spend its own outputs (its id is a hash that covers its inputs). *)
Record tx_ok (tx : PoolTransaction) : Prop := {
  tx_tip_ok : 0 ≤ pt_tip tx;
  tx_gas_ok : 0 < pt_max_gas tx;
  tx_size_ok : 0 ≤ pt_metered_bytes_size tx;
  tx_self_ok u : u ∈ coin_inputs tx → u.1 ≠ pt_id tx
}.
Definition txs_ok (T : Shape) : Prop := ∀ n p, T !! n = Some p → tx_ok p.1.
(** All sums fit the machine integers. *)
Definition fits (T : Shape) : Prop := ∀ q, total T q ≤ int_max u64.

Lemma weight_nonneg q tx : tx_ok tx → 0 ≤ weight q tx.
Proof. intros []. destruct q; cbn; lia. Qed.

Lemma weight_at_nonneg T q n : txs_ok T → 0 ≤ weight_at T q n.
Proof. intros Hok. unfold weight_at. destruct (T !! n) as [p|] eqn:E; [|lia]. by eapply weight_nonneg, Hok. Qed.

Lemma stored_reduced q a b : stored q (reduced a b) = saturating_sub u64 (stored q a) (stored q b).
Proof. by destruct q. Qed.
Lemma stored_bump q tx d : stored q (bump tx d) = saturating_add u64 (stored q d) (weight q tx).
Proof. by destruct q. Qed.

(** The transaction [a] provides something that [b] needs. *)
Definition provides (a b : PoolTransaction) : Prop :=
  (∃ u, u ∈ created_coins a ∧ u ∈ coin_inputs b) ∨ (∃ c, c ∈ created_contracts a ∧ c ∈ contract_inputs b).

Record GraphInv (T : Shape) (E : Edges) (cc : gmap UtxoId NodeIndex) (ct : gmap ContractId NodeIndex) : Prop := {
  gi_dom a b : edge E a b → is_Some (T !! a) ∧ is_Some (T !! b);
  gi_forest : forest E;
  gi_reason a b : edge E a b → ∃ pa pb, T !! a = Some pa ∧ T !! b = Some pb ∧ provides pa.1 pb.1;
  gi_coin_edge a n p u : T !! n = Some p → u ∈ coin_inputs p.1 → cc !! u = Some a → edge E a n;
  gi_cc : owns cc T created_coins;
  gi_ct : owns ct T created_contracts;
  gi_ok : txs_ok T
}.

(** The counters of a node are the sums over what it reaches. *)
Definition counts (T : Shape) (E : Edges) (n : NodeIndex) (d : StorageData) : Prop :=
  ∃ X, (∀ m, m ∈ X ↔ reach E n m) ∧ ∀ q, stored q d = set_sum (weight_at T q) X.
Definition CumInv (N : gmap NodeIndex StorageData) (T : Shape) (E : Edges) : Prop :=
  ∀ n d, N !! n = Some d → counts T E n d.

(** ** Removing a transaction from the data *)
Lemma reach_dom T E cc ct a b : GraphInv T E cc ct → is_Some (T !! a) → reach E a b → is_Some (T !! b).
Proof. intros Hg Ha Hr. apply reach_inv_r in Hr as [<-|(c & _ & He)]; [done|]. by apply (gi_dom _ _ _ _ Hg) in He as []. Qed.

Lemma GraphInv_remove T E cc ct n p :
  GraphInv T E cc ct → T !! n = Some p →
  GraphInv (delete n T) (without E n) (delete_keys (created_coins p.1) cc) (delete_keys (created_contracts p.1) ct).
Proof.
  intros [Hdom Hf Hr Hce Hcc Hct Hok] Hn.
  assert (owns (delete_keys (created_coins p.1) cc) (delete n T) created_coins) as Hcc'
    by by apply owns_delete.
  split; [| |..|done|by apply owns_delete|].
  - intros a b (He & Ha & Hb)%edge_without. rewrite !lookup_delete_ne by done. by apply Hdom.
  - eapply forest_mono; [apply without_sub|done].
  - intros a b (He & Ha & Hb)%edge_without. rewrite !lookup_delete_ne by done. by apply Hr.
  - intros a m q u [Hm Hq]%lookup_delete_Some Hu Ha. apply edge_without.
    assert (a ≠ n) as Han.
    { intros ->. apply owns_weaken with (ks := created_coins) (T := delete n T) in Ha; [|done].
      rewrite lookup_delete_eq in Ha. by destruct Ha. }
    split; [|done]. apply (Hce a m q u); [done..|]. rewrite delete_keys_lookup in Ha. by case_decide.
  - intros m q [_ Hq]%lookup_delete_Some. by eapply Hok.
Qed.

Lemma weight_at_delete T q n m : m ≠ n → weight_at (delete n T) q m = weight_at T q m.
Proof. intros Hm. unfold weight_at. by rewrite lookup_delete_ne. Qed.

Lemma total_sub T q X : txs_ok T → X ⊆ dom T → set_sum (weight_at T q) X ≤ total T q.
Proof. intros Hok Hsub. apply set_sum_mono; [|done]. intros n. by apply weight_at_nonneg. Qed.

Lemma total_delete T q n : total (delete n T) q = total T q - weight_at T q n.
Proof.
  unfold total. destruct (decide (n ∈ dom T)) as [Hn|Hn].
  - rewrite dom_delete_L. rewrite (set_sum_ext _ (weight_at T q)).
    + rewrite set_sum_difference by set_solver. by rewrite set_sum_singleton.
    + intros m Hm. apply weight_at_delete. set_solver.
  - rewrite delete_id by (by apply not_elem_of_dom). unfold weight_at at 3.
    apply not_elem_of_dom in Hn. rewrite Hn. lia.
Qed.

Lemma fits_delete T n : txs_ok T → fits T → fits (delete n T).
Proof.
  intros Hok Hf q. rewrite total_delete. pose proof (weight_at_nonneg T q n Hok). specialize (Hf q). lia.
Qed.

Lemma counts_remove T E cc ct n dn x d :
  GraphInv T E cc ct → fits T → is_Some (T !! n) → is_Some (T !! x) → x ≠ n →
  counts T E n dn → counts T E x d →
  (reach E x n → counts (delete n T) (without E n) x (reduced d dn))
  ∧ (¬ reach E x n → counts (delete n T) (without E n) x d).
Proof.
  intros Hg Hfit Hn Hx Hne (Y & HY & HsY) (X & HX & HsX).
  pose proof (gi_forest _ _ _ _ Hg) as F. pose proof (gi_ok _ _ _ _ Hg) as Hok.
  assert (X ⊆ dom T) as HXT.
  { intros m Hm. apply elem_of_dom. apply HX in Hm. by eapply reach_dom. }
  split; intros Hxn.
  - assert (Y ⊆ X) as Hsub.
    { intros m Hm. apply HX. apply HY in Hm. unfold reach in *. by etrans. }
    exists (X ∖ Y). split.
    + intros m. rewrite elem_of_difference, HX, HY. split.
      * intros [Hm Hn']. apply reach_without_around; [done|]. tauto.
      * intros Hr. split; [eapply reach_mono; [apply without_sub|done]|].
        intros Hnm. by apply (reach_without E n x m).
    + intros q. rewrite (set_sum_ext _ (weight_at T q)).
      * rewrite stored_reduced, HsX, HsY, set_sum_difference by done.
        pose proof (total_sub T q X Hok HXT). specialize (Hfit q).
        pose proof (set_sum_mono (weight_at T q) Y X ltac:(intros; by apply weight_at_nonneg) Hsub).
        pose proof (set_sum_nonneg (weight_at T q) Y ltac:(intros; by apply weight_at_nonneg)).
        unfold saturating_sub. apply clamp_id. unfold in_range. cbn [int_min u64 unsigned] in *. lia.
      * intros m [_ Hm]%elem_of_difference. apply weight_at_delete. intros ->. apply Hm, HY, rtc_refl.
  - exists X. split.
    + intros m. rewrite HX. split.
      * intros Hr. apply reach_without_around; [done|]. by intros [? _].
      * intros Hr. eapply reach_mono; [apply without_sub|done].
    + intros q. rewrite HsX. apply set_sum_ext. intros m Hm. symmetry. apply weight_at_delete.
      intros ->. by apply Hxn, HX.
Qed.

(** ** The operations on the graph *)
Section graph_facts.
Context `{SG : StableDiGraph} `{SL : !StableDiGraphLaws} `{HO : HashOrder}.
Implicit Types (self : GraphStorage) (g : Graph).

Definition edge_set g : Edges := list_to_set (edges g).
Definition shape g : Shape := entry_shape <$> nodes g.

Record GraphWf self : Prop := {
  gw_nodup : NoDup (edges (graph self));
  gw_inv : GraphInv (shape (graph self)) (edge_set (graph self)) (coins_creators self) (contracts_creators self)
}.
(** With [exact] false only the structure is claimed; with [exact] true also
    that the counters are exact and that no sum overflows. *)
Context (exact : Prop).
Record GraphOk self : Prop := {
  go_wf : GraphWf self;
  go_cum : exact → CumInv (nodes (graph self)) (shape (graph self)) (edge_set (graph self));
  go_fits : exact → fits (shape (graph self))
}.

Lemma shape_lookup g n : shape g !! n = entry_shape <$> nodes g !! n.
Proof. apply lookup_fmap. Qed.

Lemma shape_is_Some g n : is_Some (shape g !! n) ↔ is_Some (nodes g !! n).
Proof. rewrite shape_lookup. by rewrite fmap_is_Some. Qed.

Lemma edge_set_perm g g' : edges g' ≡ₚ edges g → edge_set g' = edge_set g.
Proof. intros Hp. unfold edge_set. apply set_eq. intros e. by rewrite !elem_of_list_to_set, Hp. Qed.

Lemma in_incoming g a n : a ∈ incoming g n ↔ edge (edge_set g) a n.
Proof.
  rewrite incoming_edges. unfold edge, edge_set. rewrite elem_of_list_to_set, list_elem_of_fmap. split.
  - intros ([a' n'] & -> & [Hn He]%list_elem_of_filter). cbn in *. by subst.
  - intros He. exists (a, n). split; [done|]. by apply list_elem_of_filter.
Qed.
Lemma in_outgoing g n b : b ∈ outgoing g n ↔ edge (edge_set g) n b.
Proof.
  rewrite outgoing_edges. unfold edge, edge_set. rewrite elem_of_list_to_set, list_elem_of_fmap. split.
  - intros ([n' b'] & -> & [Hn He]%list_elem_of_filter). cbn in *. by subst.
  - intros He. exists (n, b). split; [done|]. by apply list_elem_of_filter.
Qed.

Lemma incoming_NoDup g n : NoDup (edges g) → NoDup (incoming g n).
Proof.
  intros Hnd. rewrite incoming_edges. apply NoDup_fmap_2_strong; [|by apply NoDup_filter].
  intros [a b] [a' b'] [Ha _]%list_elem_of_filter [Hb _]%list_elem_of_filter. cbn in *. by intros ->; subst.
Qed.
Lemma outgoing_NoDup g n : NoDup (edges g) → NoDup (outgoing g n).
Proof.
  intros Hnd. rewrite outgoing_edges. apply NoDup_fmap_2_strong; [|by apply NoDup_filter].
  intros [a b] [a' b'] [Ha _]%list_elem_of_filter [Hb _]%list_elem_of_filter. cbn in *. by intros ->; subst.
Qed.

Lemma has_dependencies_false self n :
  has_dependencies self n = false ↔ ∀ a, ¬ edge (edge_set (graph self)) a n.
Proof.
  unfold has_dependencies. rewrite bool_decide_eq_false. split.
  - intros Hnil a He%in_incoming. destruct (incoming (graph self) n); [by apply not_elem_of_nil in He|].
    by apply Hnil.
  - intros Hno Hne. destruct (incoming (graph self) n) as [|a l] eqn:E; [done|].
    apply (Hno a), in_incoming. rewrite E. left.
Qed.

Lemma shape_update g n d :
  (∃ d', nodes g !! n = Some d' ∧ entry_shape d = entry_shape d') → shape (update_node g n d) = shape g.
Proof.
  intros (d' & Hd & He). apply map_eq. intros m. rewrite !shape_lookup, update_node_nodes by (by eexists).
  destruct (decide (m = n)) as [->|]; [by rewrite lookup_insert_eq, Hd; cbn; rewrite He|by rewrite lookup_insert_ne].
Qed.

(** *** Caches *)
Lemma clear_outputs l tx_id : ∀ self,
  foldl (clear_output tx_id) self l
  = MkGraphStorage (max_txs_chain_count self) (graph self)
      (delete_keys (omap (λ io : Z * Output,
         match io.2 with OutputCoin _ _ _ => Some (tx_id, io.1) | _ => None end) l) (coins_creators self))
      (delete_keys (omap (λ o, match o with OutputContractCreated c _ => Some c | _ => None end) (snd <$> l))
         (contracts_creators self)).
Proof. induction l as [|[i o] l IH]; intros self; cbn; [by destruct self|]. rewrite IH. by destruct o. Qed.

Lemma cache_outputs l tx_id n : ∀ self,
  foldl (cache_output tx_id n) self l
  = MkGraphStorage (max_txs_chain_count self) (graph self)
      (insert_keys (omap (λ io : Z * Output,
         match io.2 with OutputCoin _ _ _ => Some (tx_id, io.1) | _ => None end) l) n (coins_creators self))
      (insert_keys (omap (λ o, match o with OutputContractCreated c _ => Some c | _ => None end) (snd <$> l)) n
         (contracts_creators self)).
Proof. induction l as [|[i o] l IH]; intros self; cbn; [by destruct self|]. rewrite IH. by destruct o. Qed.

Lemma enumerate_snd {A} (l : list A) : snd <$> enumerate l = l.
Proof. unfold enumerate. apply snd_zip. rewrite length_seqZ. lia. Qed.

Lemma clear_cache_eq d self :
  clear_cache d self
  = MkGraphStorage (max_txs_chain_count self) (graph self)
      (delete_keys (created_coins (transaction d)) (coins_creators self))
      (delete_keys (created_contracts (transaction d)) (contracts_creators self)).
Proof. unfold clear_cache. by rewrite clear_outputs, enumerate_snd. Qed.

(** *** Removing one node *)
Definition removed_at self n d : GraphStorage := clear_cache d (with_graph (remove_node (graph self) n).2 self).

Lemma remove_transaction_eq self n :
  remove_transaction n self
  = match nodes (graph self) !! n with
    | Some d => (Some d, removed_at self n d)
    | None => (None, with_graph (remove_node (graph self) n).2 self)
    end.
Proof.
  unfold remove_transaction, removed_at. pose proof (remove_node_result (graph self) n) as Hr.
  destruct (remove_node (graph self) n) as [o g]. cbn in *. subst o. by destruct (nodes (graph self) !! n).
Qed.

Lemma edge_set_remove g n : edge_set (remove_node g n).2 = without (edge_set g) n.
Proof.
  unfold edge_set, without. apply set_eq. intros e.
  rewrite elem_of_filter, !elem_of_list_to_set, remove_node_edges, list_elem_of_filter. done.
Qed.

Lemma shape_remove g n : shape (remove_node g n).2 = delete n (shape g).
Proof. unfold shape. by rewrite remove_node_nodes, fmap_delete. Qed.

Lemma removed_at_wf self n d :
  GraphWf self → nodes (graph self) !! n = Some d →
  GraphWf (removed_at self n d)
  ∧ shape (graph (removed_at self n d)) = delete n (shape (graph self))
  ∧ nodes (graph (removed_at self n d)) = delete n (nodes (graph self))
  ∧ edge_set (graph (removed_at self n d)) = without (edge_set (graph self)) n
  ∧ max_txs_chain_count (removed_at self n d) = max_txs_chain_count self.
Proof.
  intros [Hnd Hinv] Hn. unfold removed_at. rewrite clear_cache_eq. cbn.
  rewrite shape_remove, edge_set_remove, remove_node_nodes. split; [|done]. constructor; cbn.
  - rewrite remove_node_edges. by apply NoDup_filter.
  - rewrite shape_remove, edge_set_remove.
    apply (GraphInv_remove _ _ _ _ n (entry_shape d) Hinv). by rewrite shape_lookup, Hn.
Qed.

(** *** Reducing the counters of all ancestors *)
Section reduce.
Context (g0 : Graph) (removed : StorageData).
Context (Hnd : NoDup (edges g0)) (F : forest (edge_set g0)).
Context (Hdom : ∀ a b, edge (edge_set g0) a b → a ∈ dom (nodes g0)).

(** The same nodes and edges, up to the contents of the nodes. *)
Definition like g : Prop := edges g ≡ₚ edges g0 ∧ shape g = shape g0.

(** The nodes in [P] were reduced and the others left alone. *)
Definition reduced_by (P : NodeIndex → Prop) g g' : Prop :=
  like g' ∧ ∀ x, (P x → nodes g' !! x = (λ d, reduced d removed) <$> nodes g !! x)
               ∧ (¬ P x → nodes g' !! x = nodes g !! x).

Lemma reduced_by_seq (P Q R : NodeIndex → Prop) g g1 g2 :
  (∀ x, R x ↔ P x ∨ Q x) → (∀ x, P x → Q x → False) →
  reduced_by P g g1 → reduced_by Q g1 g2 → reduced_by R g g2.
Proof.
  intros HR Hdis [_ H1] [Hl H2]. split; [done|]. intros x. destruct (H1 x) as [H1y H1n], (H2 x) as [H2y H2n].
  split.
  - intros [HP|HQ]%HR.
    + rewrite H2n by eauto. by apply H1y.
    + rewrite H2y by done. rewrite H1n; [done|]. intros HP. by eapply Hdis.
  - intros HnR. rewrite H2n, H1n; [done|..]; intros ?; apply HnR, HR; tauto.
Qed.

Lemma reduce_parents f L :
  NoDup L →
  (∀ p1 p2 x, p1 ∈ L → p2 ∈ L → reach (edge_set g0) x p1 → reach (edge_set g0) x p2 → p1 = p2) →
  (∀ p g, p ∈ L → like g → ∃ g', f g p = Some g' ∧ reduced_by (λ x, reach (edge_set g0) x p) g g') →
  ∀ g, like g →
  ∃ g', fold_panic f g L = Some g' ∧ reduced_by (λ x, ∃ p, p ∈ L ∧ reach (edge_set g0) x p) g g'.
Proof.
  induction L as [|p L IH]; intros HL Hdis Hf g Hg; cbn.
  - exists g. split; [done|]. split; [done|]. intros x. split; [|done]. by intros (p & ?%not_elem_of_nil & _).
  - apply NoDup_cons in HL as [Hp HL].
    destruct (Hf p g ltac:(left) Hg) as (g1 & -> & Hr1). cbn.
    destruct (IH HL) with (g := g1) as (g2 & -> & Hr2).
    + intros p1 p2 x ??. apply Hdis; by right.
    + intros p' g' ?. apply Hf. by right.
    + apply Hr1.
    + exists g2. split; [done|]. eapply reduced_by_seq; [..|exact Hr1|exact Hr2].
      * intros x. split.
        -- intros (q & [->|Hq]%elem_of_cons & Hx); [by left|right; eauto].
        -- intros [Hx|(q & Hq & Hx)]; [exists p; split; [left|done]|exists q; split; [by right|done]].
      * intros x Hx (q & Hq & Hxq). apply Hp. rewrite (Hdis p q x); [done|left|by right|done|done].
Qed.

Lemma like_dom g : like g → dom (nodes g) = dom (nodes g0).
Proof.
  intros [_ Hs]. apply set_eq. intros n. by rewrite !elem_of_dom, <- !shape_is_Some, Hs.
Qed.

Lemma like_edge_set g : like g → edge_set g = edge_set g0.
Proof. intros [Hp _]. by apply edge_set_perm. Qed.

Lemma path_length (path : list NodeIndex) :
  NoDup path → (∀ y, y ∈ path → y ∈ dom (nodes g0)) → (length path ≤ size (nodes g0))%nat.
Proof.
  intros Hpath Hin. rewrite <- size_dom, <- (size_list_to_set (C := gset NodeIndex)) by done.
  apply subseteq_size. intros y Hy%elem_of_list_to_set. by apply Hin.
Qed.

Lemma reduce_spec fuel : ∀ root path g,
  like g → root ∈ dom (nodes g0) → NoDup path →
  (∀ y, y ∈ path → y ∈ dom (nodes g0) ∧ y ≠ root ∧ reach (edge_set g0) root y) →
  (size (nodes g0) < fuel + length path)%nat →
  ∃ g', reduce_dependencies_cumulative_gas_tip_and_chain_count fuel removed g root = Some g'
    ∧ reduced_by (λ x, reach (edge_set g0) x root) g g'.
Proof.
  induction fuel as [|fuel IH]; intros root path g Hg Hroot Hpath Hin Hsize.
  { pose proof (path_length path Hpath (λ y Hy, proj1 (Hin y Hy))). lia. }
  assert (is_Some (nodes g !! root)) as [d Hd].
  { apply elem_of_dom. by rewrite like_dom. }
  cbn. rewrite node_weight_nodes, Hd.
  set (g1 := update_node g root (reduced d removed)).
  assert (like g1) as Hg1.
  { split; unfold g1.
    - rewrite update_node_edges. apply Hg.
    - destruct Hg as [_ <-]. apply shape_update. by exists d. }
  assert (reduced_by (λ x, x = root) g g1) as Hr1.
  { split; [done|]. intros x. unfold g1. rewrite update_node_nodes by (by eexists). split.
    - intros ->. by rewrite lookup_insert_eq, Hd.
    - intros Hx. by rewrite lookup_insert_ne. }
  assert (∀ p, p ∈ incoming g1 root ↔ edge (edge_set g0) p root) as Hinc.
  { intros p. by rewrite in_incoming, like_edge_set. }
  destruct (reduce_parents (reduce_dependencies_cumulative_gas_tip_and_chain_count fuel removed)
    (incoming g1 root)) with (g := g1) as (g2 & Hrun & Hr2); [| | |done|].
  - apply incoming_NoDup. destruct Hg1 as [-> _]. done.
  - intros p1 p2 x H1%Hinc H2%Hinc. by apply (parents_disjoint _ F x p1 p2 root).
  - intros p g' Hp%Hinc Hg'. apply (IH p (root :: path)); [done|by eapply Hdom| | |cbn; lia].
    + apply NoDup_cons. split; [|done]. intros Hy. by destruct (Hin _ Hy) as (_ & ? & _).
    + intros y [->|Hy]%elem_of_cons.
      * split; [done|]. split; [|by apply reach_edge]. intros ->. by apply (forest_acyclic _ F _ _ Hp), rtc_refl.
      * destruct (Hin y Hy) as (Hyd & Hyr & Hry). split; [done|]. split.
        -- intros ->. by apply (forest_acyclic _ F p root).
        -- by eapply rtc_l.
  - exists g2. split; [done|]. eapply reduced_by_seq; [..|exact Hr1|exact Hr2].
    + intros x. split.
      * intros [->|(p & Hx & Hp)]%reach_inv_r; [by left|right]. exists p. by rewrite Hinc.
      * intros [->|(p & Hp%Hinc & Hx)]; [apply rtc_refl|by eapply rtc_r].
    + intros x -> (p & Hp%Hinc & Hx). by apply (forest_acyclic _ F p root).
Qed.
End reduce.

(** *** Taking one node out with its counters *)
Lemma bfs_remove_eq self n d :
  nodes (graph self) !! n = Some d →
  bfs_remove self n
  = match fold_panic
            (reduce_dependencies_cumulative_gas_tip_and_chain_count
               (S (node_count (graph (removed_at self n d)))) d)
            (graph (removed_at self n d)) (incoming (graph self) n) with
    | Some g => Some (d, outgoing (graph self) n, with_graph g (removed_at self n d))
    | None => None
    end.
Proof.
  intros Hn. unfold bfs_remove, removed_at. pose proof (remove_node_result (graph self) n) as Hr.
  destruct (remove_node (graph self) n) as [o g]. cbn in Hr. rewrite Hr, Hn. done.
Qed.

(** What the reduction of the ancestors leaves behind. *)
Lemma reduced_counts self n d g' :
  exact → GraphOk self → nodes (graph self) !! n = Some d →
  reduced_by (graph (removed_at self n d)) d
    (λ x, ∃ p, p ∈ incoming (graph self) n ∧ reach (edge_set (graph (removed_at self n d))) x p)
    (graph (removed_at self n d)) g' →
  CumInv (nodes g') (delete n (shape (graph self))) (without (edge_set (graph self)) n).
Proof.
  intros Hex [Hwf Hcum Hfit] Hn [[_ Hsh] Hred] x dx Hx. specialize (Hcum Hex). specialize (Hfit Hex).
  destruct (removed_at_wf self n d Hwf Hn) as (Hwf1 & Hsh1 & Hno1 & Hed1 & _).
  pose proof (gw_inv _ Hwf) as Hinv. pose proof (gi_forest _ _ _ _ Hinv) as F.
  assert (is_Some (shape g' !! x)) as Hs by (rewrite shape_lookup, Hx; by eexists).
  rewrite Hsh, Hsh1 in Hs. destruct (decide (x = n)) as [->|Hne].
  { rewrite lookup_delete_eq in Hs. by destruct Hs. }
  rewrite lookup_delete_ne in Hs by done. pose proof Hs as Hs'. apply shape_is_Some in Hs' as [d0 Hd0].
  destruct (counts_remove _ _ _ _ n d x d0 Hinv Hfit) as [Hyes Hno]; [| |done|by apply Hcum..|].
  { rewrite shape_lookup, Hn. by eexists. }
  { done. }
  destruct (Hred x) as [Hry Hrn]. rewrite Hno1, lookup_delete_ne, Hd0 in Hry, Hrn by done. rewrite Hx in Hry, Hrn.
  rewrite Hed1 in Hry, Hrn. destruct (Hcum x d0 Hd0) as (X & HX & _).
  destruct (decide (n ∈ X)) as [HnX|HnX].
  - apply HX in HnX. assert (Some dx = Some (reduced d0 d)) as [= ->]; [|by apply Hyes].
    apply Hry. apply reach_parent in HnX as (p & Hp & Hr); [|done..]. exists p. by rewrite in_incoming.
  - assert (¬ reach (edge_set (graph self)) x n) as Hxn by (by rewrite <- HX).
    assert (Some dx = Some d0) as [= ->]; [|by apply Hno].
    apply Hrn. intros (p & Hp%in_incoming & Hr). apply Hxn, reach_parent; eauto.
Qed.

Lemma bfs_remove_spec self n d :
  GraphOk self → nodes (graph self) !! n = Some d →
  ∃ self', bfs_remove self n = Some (d, outgoing (graph self) n, self') ∧ GraphOk self'
    ∧ shape (graph self') = delete n (shape (graph self))
    ∧ edge_set (graph self') = without (edge_set (graph self)) n
    ∧ max_txs_chain_count self' = max_txs_chain_count self.
Proof.
  intros Hok Hn. pose proof Hok as [Hwf Hcum Hfit].
  destruct (removed_at_wf self n d Hwf Hn) as (Hwf1 & Hsh1 & Hno1 & Hed1 & Hmax1).
  pose proof (gw_inv _ Hwf) as Hinv. pose proof (gi_forest _ _ _ _ Hinv) as F.
  rewrite (bfs_remove_eq self n d Hn).
  destruct (reduce_parents (graph (removed_at self n d)) d
    (reduce_dependencies_cumulative_gas_tip_and_chain_count (S (node_count (graph (removed_at self n d)))) d)
    (incoming (graph self) n)) with (g := graph (removed_at self n d)) as (g' & Hrun & Hred).
  - apply incoming_NoDup, Hwf.
  - intros p1 p2 x He1%in_incoming He2%in_incoming Hr1 Hr2.
    apply (parents_disjoint _ F x p1 p2 n); [done..| |]; rewrite Hed1 in *;
      (eapply reach_mono; [apply without_sub|done]).
  - intros p g' Hp%in_incoming Hg'. apply (reduce_spec (graph (removed_at self n d)) d) with (path := []).
    + apply Hwf1.
    + apply (gi_forest _ _ _ _ (gw_inv _ Hwf1)).
    + intros a b He. apply elem_of_dom, shape_is_Some. by apply (gi_dom _ _ _ _ (gw_inv _ Hwf1)) in He as [? _].
    + done.
    + apply elem_of_dom. rewrite Hno1, lookup_delete_ne.
      * apply shape_is_Some. by apply (gi_dom _ _ _ _ Hinv) in Hp as [? _].
      * intros <-. by apply (forest_acyclic _ F _ _ Hp), rtc_refl.
    + constructor.
    + by intros y ?%not_elem_of_nil.
    + rewrite node_count_nodes. cbn. lia.
  - by split.
  - rewrite Hrun. eexists. split; [done|].
    pose proof Hred as [[Hedges Hsh] _]. cbn [graph with_graph]. rewrite Hsh, (edge_set_perm _ _ Hedges), Hsh1, Hed1.
    split; [|done]. constructor; cbn [graph with_graph coins_creators contracts_creators].
    + constructor; cbn [graph with_graph coins_creators contracts_creators].
      * rewrite Hedges. apply Hwf1.
      * rewrite Hsh, (edge_set_perm _ _ Hedges). apply Hwf1.
    + intros Hex. rewrite Hsh, (edge_set_perm _ _ Hedges), Hsh1, Hed1. by apply (reduced_counts self n d).
    + intros Hex. rewrite Hsh, Hsh1. apply fits_delete; [apply Hinv|by apply Hfit].
Qed.

(** *** Removing a node with everything below it *)

(** The graph without the nodes [ns]. *)
Definition cut self0 (ns : list NodeIndex) self : Prop :=
  (∀ n, shape (graph self) !! n = if decide (n ∈ ns) then None else shape (graph self0) !! n)
  ∧ (∀ a b, edge (edge_set (graph self)) a b ↔ edge (edge_set (graph self0)) a b ∧ a ∉ ns ∧ b ∉ ns)
  ∧ max_txs_chain_count self = max_txs_chain_count self0.

(** The entries [es] are what was stored at the nodes [ns]. *)
Definition entries_at self (ns : list NodeIndex) (es : list StorageData) : Prop :=
  Forall2 (λ n e, shape (graph self) !! n = Some (entry_shape e)) ns es.

Lemma cut_refl self : cut self [] self.
Proof.
  split; [|split; [|done]].
  - intros n. by rewrite decide_False by (by apply not_elem_of_nil).
  - intros a b. split; [|by intros [? _]]. intros He. repeat split; [done|by apply not_elem_of_nil..].
Qed.

Lemma cut_remove self0 ns self n self' :
  cut self0 ns self →
  shape (graph self') = delete n (shape (graph self)) →
  edge_set (graph self') = without (edge_set (graph self)) n →
  max_txs_chain_count self' = max_txs_chain_count self →
  cut self0 (ns ++ [n]) self'.
Proof.
  intros (Hs & He & Hm) Hs' He' Hm'. split; [|split; [|congruence]].
  - intros m. rewrite Hs'. destruct (decide (m = n)) as [->|Hne].
    + rewrite lookup_delete_eq, decide_True; [done|]. apply elem_of_app. right. left.
    + rewrite lookup_delete_ne, Hs by done. apply decide_ext. rewrite elem_of_app, list_elem_of_singleton. naive_solver.
  - intros a b. rewrite He', edge_without, He, !not_elem_of_app, !not_elem_of_cons. pose proof (not_elem_of_nil (A := NodeIndex)).
    naive_solver.
Qed.

Record bfs_inv self0 (root : NodeIndex) (queue ns : list NodeIndex) (res : list StorageData) self : Prop := {
  bi_ok : GraphOk self;
  bi_cut : cut self0 ns self;
  bi_entries : entries_at self0 ns res;
  bi_ns : NoDup ns;
  bi_ns_reach n : n ∈ ns → reach (edge_set (graph self0)) root n;
  bi_queue : NoDup queue;
  bi_queue_in q : q ∈ queue →
    q ∉ ns ∧ is_Some (shape (graph self0) !! q) ∧ reach (edge_set (graph self0)) root q;
  bi_queue_apart q q' : q ∈ queue → q' ∈ queue → reach (edge_set (graph self0)) q q' → q = q';
  bi_closed a b : a ∈ ns → edge (edge_set (graph self0)) a b → b ∈ ns ∨ b ∈ queue;
  bi_root : root ∈ ns ∨ root ∈ queue
}.

Lemma bfs_inv_step self0 root r queue ns res self d self' :
  GraphOk self0 →
  bfs_inv self0 root (r :: queue) ns res self →
  nodes (graph self) !! r = Some d →
  GraphOk self' → shape (graph self') = delete r (shape (graph self)) →
  edge_set (graph self') = without (edge_set (graph self)) r →
  max_txs_chain_count self' = max_txs_chain_count self →
  bfs_inv self0 root (queue ++ outgoing (graph self) r) (ns ++ [r]) (res ++ [d]) self'.
Proof.
  intros Hok0 [Hok Hcut Hent Hns Hreach Hq Hin Hap Hcl Hroot] Hd Hok' Hs' He' Hm'.
  pose proof (gi_forest _ _ _ _ (gw_inv _ (go_wf _ Hok0))) as F. pose proof Hcut as (Hs & He & _).
  apply NoDup_cons in Hq as [Hrq Hq]. destruct (Hin r ltac:(left)) as (Hrns & Hr0 & Hrr).
  assert (∀ c, c ∈ outgoing (graph self) r ↔ edge (edge_set (graph self0)) r c ∧ c ∉ ns) as Hout.
  { intros c. rewrite in_outgoing, He. tauto. }
  assert (∀ q, q ∈ queue → ¬ reach (edge_set (graph self0)) r q) as Hnot.
  { intros q Hq' Hr. apply Hrq. by rewrite (Hap r q ltac:(left) ltac:(by right) Hr). }
  constructor; try done.
  - by eapply cut_remove.
  - apply Forall2_app; [done|]. apply Forall2_cons. split; [|constructor].
    specialize (Hs r). rewrite decide_False in Hs by done. by rewrite <- Hs, shape_lookup, Hd.
  - apply NoDup_app. split; [done|]. split; [|apply NoDup_singleton]. by intros x Hx ->%list_elem_of_singleton.
  - intros n [Hn| ->%list_elem_of_singleton]%elem_of_app; [by apply Hreach|done].
  - apply NoDup_app. split; [done|]. split; [|apply outgoing_NoDup, Hok].
    intros q Hq' [Hc _]%Hout. by apply (Hnot q Hq'), reach_edge.
  - intros q. rewrite not_elem_of_app, list_elem_of_singleton. intros [Hq'|[Hc Hcns]%Hout]%elem_of_app.
    + destruct (Hin q ltac:(by right)) as (? & ? & ?). repeat split; [done| |done..]. by intros ->.
    + split; [split; [done|]|split].
      * intros ->. by apply (forest_acyclic _ F _ _ Hc), rtc_refl.
      * by apply (gi_dom _ _ _ _ (gw_inv _ (go_wf _ Hok0))) in Hc as [_ ?].
      * by eapply rtc_r.
  - assert (∀ q c, q ∈ queue → edge (edge_set (graph self0)) r c → ¬ reach (edge_set (graph self0)) q c) as Hqc.
    { intros q c Hq' Hc Hr.
      destruct (reach_comparable _ F root q r c) as [Hqr|Hrq'];
        [by apply Hin; right|done|done|by apply reach_edge| |by apply (Hnot q)].
      apply Hrq. by rewrite <- (Hap q r ltac:(by right) ltac:(left) Hqr). }
    intros q q' [Hq1|[Hc1 _]%Hout]%elem_of_app [Hq2|[Hc2 _]%Hout]%elem_of_app Hr.
    + apply Hap; [by right|by right|done].
    + by apply Hqc in Hr.
    + exfalso. apply (Hnot q' Hq2). by eapply rtc_l.
    + by apply (children_incomparable _ F r).
  - intros a b [Ha| ->%list_elem_of_singleton]%elem_of_app Hab.
    + destruct (Hcl a b Ha Hab) as [?|[->|?]%elem_of_cons]; rewrite !elem_of_app, list_elem_of_singleton; tauto.
    + rewrite !elem_of_app, Hout. destruct (decide (b ∈ ns)); tauto.
  - rewrite !elem_of_app, list_elem_of_singleton. destruct Hroot as [?|[->|?]%elem_of_cons]; tauto.
Qed.

Lemma bfs_loop_spec self0 root fuel : ∀ queue ns res self,
  GraphOk self0 → bfs_inv self0 root queue ns res self → (size (nodes (graph self)) ≤ fuel)%nat →
  ∃ res' self' ns', bfs_loop fuel queue res self = Some (res', self') ∧ bfs_inv self0 root [] ns' res' self'.
Proof.
  induction fuel as [|fuel IH]; intros [|r queue] ns res self Hok0 Hinv Hsize; [by eexists _, _, _| |by eexists _, _, _|].
  all: assert (is_Some (nodes (graph self) !! r)) as [d Hd] by
    (apply shape_is_Some; destruct (bi_cut _ _ _ _ _ _ Hinv) as (Hs & _);
     destruct (bi_queue_in _ _ _ _ _ _ Hinv r ltac:(left)) as (Hr & Hr0 & _); by rewrite Hs, decide_False).
  - apply Nat.le_0_r, map_size_empty_inv in Hsize. by rewrite Hsize, lookup_empty in Hd.
  - cbn. destruct (bfs_remove_spec self r d) as (self1 & -> & Hok1 & Hs1 & He1 & Hm1); [apply Hinv|done|].
    cbn. apply IH with (ns := ns ++ [r]); [done|by eapply bfs_inv_step|].
    rewrite <- size_dom. assert (dom (nodes (graph self1)) = dom (nodes (graph self)) ∖ {[r]}) as ->.
    { apply set_eq. intros x. rewrite elem_of_difference, !elem_of_dom, <- !shape_is_Some, Hs1, elem_of_singleton.
      destruct (decide (x = r)) as [->|]; [rewrite lookup_delete_eq|rewrite lookup_delete_ne by done].
      - split; [by intros []|tauto].
      - tauto. }
    assert (r ∈ dom (nodes (graph self))) by (apply elem_of_dom; by eexists).
    rewrite size_difference by set_solver. rewrite size_singleton, size_dom. lia.
Qed.

Lemma bfs_spec self root :
  GraphOk self →
  ∃ res self' ns, bfs root self = Some (res, self') ∧ GraphOk self' ∧ cut self ns self' ∧ entries_at self ns res
    ∧ NoDup ns ∧ ∀ n, n ∈ ns ↔ is_Some (shape (graph self) !! root) ∧ reach (edge_set (graph self)) root n.
Proof.
  intros Hok. unfold bfs. rewrite node_weight_nodes. destruct (nodes (graph self) !! root) as [d|] eqn:Hd.
  - assert (is_Some (shape (graph self) !! root)) as Hroot by (rewrite shape_lookup, Hd; by eexists).
    destruct (bfs_loop_spec self root (node_count (graph self)) [root] [] [] self) as (res & self' & ns & -> & Hinv).
    + done.
    + constructor; try done.
      * apply cut_refl.
      * constructor.
      * constructor.
      * by intros n ?%not_elem_of_nil.
      * apply NoDup_singleton.
      * intros q ->%list_elem_of_singleton. split; [by apply not_elem_of_nil|]. split; [done|apply rtc_refl].
      * by intros q q' ->%list_elem_of_singleton ->%list_elem_of_singleton.
      * by intros a b ?%not_elem_of_nil.
      * right. left.
    + by rewrite node_count_nodes.
    + exists res, self', ns. destruct Hinv as [? ? ? ? Hreach _ _ _ Hcl Hr]. do 5 (split; [done|]). intros n.
      split; [intros Hn; by split; [|apply Hreach]|]. intros [_ Hn].
      destruct Hr as [Hr|?%not_elem_of_nil]; [|done].
      revert Hn. apply (reach_closed _ (λ n, n ∈ ns)); [|done].
      intros a b Ha He. destruct (Hcl a b Ha He) as [?|?%not_elem_of_nil]; done.
  - exists [], self, []. split; [done|]. split; [done|]. split; [apply cut_refl|]. split; [constructor|].
    split; [constructor|]. intros n. split; [by intros ?%not_elem_of_nil|].
    rewrite shape_lookup, Hd. by intros [[] _].
Qed.

(** *** Collecting the dependencies of a new transaction *)
Lemma collect_dependencies_spec self inputs : ∀ D r,
  collect_dependencies self D inputs = Ok r →
  ∀ n, n ∈ r ↔ n ∈ D ∨ ∃ i, i ∈ inputs ∧ creator self i = Some n.
Proof.
  induction inputs as [|i inputs IH]; intros D r; cbn.
  - intros [= <-] n. split; [by left|]. intros [?|(i & ?%not_elem_of_nil & _)]; done.
  - destruct (creator self i) as [c|] eqn:Ec.
    + case_decide; [done|]. intros Hr n. rewrite (IH _ _ Hr n), elem_of_union, elem_of_singleton. split.
      * intros [[->|?]|(j & ? & ?)]; [right; exists i; split; [left|done]|by left|right; exists j; split; [by right|done]].
      * intros [?|(j & [->|Hj]%elem_of_cons & Hc)]; [tauto|left; left; congruence|right; eauto].
    + intros Hr n. rewrite (IH _ _ Hr n). split.
      * intros [?|(j & ? & ?)]; [by left|right; exists j; split; [by right|done]].
      * intros [?|(j & [->|Hj]%elem_of_cons & Hc)]; [by left|congruence|right; eauto].
Qed.

Lemma creator_present self i n : GraphWf self → creator self i = Some n → is_Some (shape (graph self) !! n).
Proof.
  intros [_ Hinv] Hc. destruct i; cbn in Hc; try done;
    solve [by eapply owns_weaken; [apply (gi_cc _ _ _ _ Hinv)|] | by eapply owns_weaken; [apply (gi_ct _ _ _ _ Hinv)|]].
Qed.

(** The walk visits every ancestor once, or fails. *)
Lemma walk_dependencies_spec fuel self : ∀ stack all r,
  GraphWf self → Forall (λ n, is_Some (shape (graph self) !! n)) stack →
  walk_dependencies fuel self stack all = Some (Ok r) →
  (∀ x, x ∈ r ↔ x ∈ all ∨ ∃ y, y ∈ stack ∧ reach (edge_set (graph self)) x y)
  ∧ (∀ i j x y a, stack !! i = Some x → stack !! j = Some y →
       reach (edge_set (graph self)) a x → reach (edge_set (graph self)) a y → i = j)
  ∧ (∀ y a, y ∈ stack → reach (edge_set (graph self)) a y → a ∉ all)
  ∧ (∀ x d, x ∈ r → x ∉ all → nodes (graph self) !! x = Some d →
       number_dependents_in_chain d < max_txs_chain_count self).
Proof.
  induction fuel as [|fuel IH]; intros [|n stack] all r Hwf Hst; cbn;
    try (intros [= <-]; repeat split; [by left|intros [?|(y & ?%not_elem_of_nil & _)]; done|
         by intros i j x y a; rewrite lookup_nil|by intros y a ?%not_elem_of_nil|done]); [done|].
  apply Forall_cons in Hst as [Hn Hst]. case_decide as Hna; [done|]. case_decide as Hsz; [done|].
  rewrite node_weight_nodes. apply shape_is_Some in Hn as [d Hd]. rewrite Hd. case_decide as Hmax; [done|].
  set (par := rev (incoming (graph self) n)).
  assert (∀ p, p ∈ par ↔ edge (edge_set (graph self)) p n) as Hpar.
  { intros p. unfold par. rewrite <- in_incoming, list_elem_of_In, <- in_rev, list_elem_of_In. done. }
  intros Hrun. apply IH in Hrun as (Hr & Hap & Hout & Hch); [|done|].
  2: { apply Forall_app. split; [|done]. apply Forall_forall. intros p Hp%Hpar.
       by apply (gi_dom _ _ _ _ (gw_inv _ Hwf)) in Hp as [? _]. }
  assert (∀ x, reach (edge_set (graph self)) x n ↔ x = n ∨ ∃ p, p ∈ par ∧ reach (edge_set (graph self)) x p) as Hanc.
  { intros x. split.
    - intros [->|(p & Hx & Hp)]%reach_inv_r; [by left|right; exists p; by rewrite Hpar].
    - intros [->|(p & Hp%Hpar & Hx)]; [apply rtc_refl|by eapply rtc_r]. }
  assert (∀ y a, y ∈ stack → reach (edge_set (graph self)) a n → reach (edge_set (graph self)) a y → False) as Hsep.
  { intros y a Hy [->|(p & Hp & Hap')]%Hanc Hay.
    - apply (Hout y n); [apply elem_of_app; by right|done|set_solver].
    - apply list_elem_of_lookup_1 in Hp as [i Hi]. apply list_elem_of_lookup_1 in Hy as [j Hj].
      assert (i = (length par + j)%nat) as ->.
      { apply (Hap i (length par + j)%nat p y a); [by apply lookup_app_l_Some| |done|done].
        rewrite lookup_app_r by lia. by replace (length par + j - length par)%nat with j by lia. }
      apply lookup_lt_Some in Hi. lia. }
  split; [|split; [|split]].
  - intros x. rewrite Hr, elem_of_union, elem_of_singleton. setoid_rewrite elem_of_app. setoid_rewrite elem_of_cons.
    pose proof (Hanc x). split.
    + intros [[->|?]|(y & [Hy|Hy] & Hx)]; [right; exists n; split; [by left|apply rtc_refl]|by left| |right; eauto].
      right. exists n. split; [by left|]. apply Hanc. eauto.
    + intros [?|(y & [->|Hy] & Hx)]; [tauto| |right; eauto]. apply Hanc in Hx as [->|(p & ? & ?)]; [tauto|right; eauto].
  - intros [|i] [|j] x y a; cbn; [done| | |].
    + intros [= <-] Hy Hx Hay. apply list_elem_of_lookup_2 in Hy. by destruct (Hsep y a Hy Hx Hay).
    + intros Hx [= <-] Hax Hay. apply list_elem_of_lookup_2 in Hx. by destruct (Hsep x a Hx Hay Hax).
    + intros Hx Hy Hax Hay. f_equal.
      assert (length par + i = length par + j)%nat as ?; [|lia]. apply (Hap _ _ x y a); [..|done|done].
      * rewrite lookup_app_r by lia. by replace (length par + i - length par)%nat with i by lia.
      * rewrite lookup_app_r by lia. by replace (length par + j - length par)%nat with j by lia.
  - intros y a [->|Hy]%elem_of_cons Hay.
    + apply Hanc in Hay as [->|(p & Hp & Hap')]; [done|]. intros Ha. apply (Hout p a); [apply elem_of_app; by left|done|set_solver].
    + intros Ha. apply (Hout y a); [apply elem_of_app; by right|done|set_solver].
  - intros x dx Hx Hxa Hdx. destruct (decide (x = n)) as [->|Hne].
    + rewrite Hd in Hdx. injection Hdx as <-. lia.
    + apply (Hch x dx); [done|set_solver|done].
Qed.

Lemma walk_dependencies_total fuel self : ∀ stack all,
  (Z.to_nat (max_txs_chain_count self) < fuel + size all)%nat →
  (size all ≤ Z.to_nat (max_txs_chain_count self))%nat →
  is_Some (walk_dependencies fuel self stack all).
Proof.
  induction fuel as [|fuel IH]; intros [|n stack] all Hf Hs; cbn; [by eexists|lia|by eexists|].
  case_decide as Hn; [by eexists|].
  assert (size ({[n]} ∪ all) = S (size all)) as Hsz by (rewrite size_union, size_singleton by set_solver; done).
  case_decide as Hge; [by eexists|].
  assert (∀ st, is_Some (walk_dependencies fuel self st ({[n]} ∪ all))) as Hrec by (intros st; apply IH; lia).
  destruct (node_weight (graph self) n); [case_decide; [by eexists|]|]; apply Hrec.
Qed.

(** What a successful check of a transaction establishes. *)
Record checked_ok self (tx : PoolTransaction) (c : CheckedTransaction) : Prop := {
  co_tx : checked_tx c = tx;
  co_direct n : n ∈ direct_dependencies c ↔ ∃ i, i ∈ pt_inputs tx ∧ creator self i = Some n;
  co_all x : x ∈ all_dependencies c ↔ ∃ d, d ∈ direct_dependencies c ∧ reach (edge_set (graph self)) x d;
  co_apart d1 d2 a : d1 ∈ direct_dependencies c → d2 ∈ direct_dependencies c →
    reach (edge_set (graph self)) a d1 → reach (edge_set (graph self)) a d2 → d1 = d2;
  co_chain x d : x ∈ all_dependencies c → nodes (graph self) !! x = Some d →
    number_dependents_in_chain d < max_txs_chain_count self
}.

Lemma can_store_spec self tx :
  GraphWf self →
  ∃ r, can_store_transaction self tx = Some r ∧ ∀ c, r = Ok c → checked_ok self tx c.
Proof.
  intros Hwf. unfold can_store_transaction. destruct (collect_transaction_direct_dependencies self tx) as [D|e] eqn:ED.
  2: { eexists. by split. }
  pose proof (collect_dependencies_spec self _ _ _ ED) as HD.
  destruct (walk_dependencies_total (S (Z.to_nat (max_txs_chain_count self))) self (rev (iter_set D)) ∅) as [r Hr].
  { rewrite size_empty. lia. }
  { rewrite size_empty. lia. }
  rewrite Hr. destruct r as [all|e]; [|by eexists; split].
  eexists. split; [done|]. intros c [= <-].
  assert (∀ d, d ∈ rev (iter_set D) ↔ d ∈ D) as Hin.
  { intros d. by rewrite list_elem_of_In, <- in_rev, <- list_elem_of_In, iter_set_perm, elem_of_elements. }
  assert (NoDup (rev (iter_set D))) as Hnd.
  { rewrite <- Permutation_rev, iter_set_perm. apply NoDup_elements. }
  apply walk_dependencies_spec in Hr as (Hall & Hap & _ & Hch); [|done|].
  2: { apply Forall_forall. intros d Hd%Hin. apply HD in Hd as [?|(i & _ & Hc)]; [set_solver|]. by eapply creator_present. }
  constructor; cbn; [done| | | |].
  - intros n. rewrite HD. set_solver.
  - intros x. rewrite Hall. setoid_rewrite Hin. set_solver.
  - intros d1 d2 a H1%Hin H2%Hin Hr1 Hr2. apply list_elem_of_lookup_1 in H1 as [i Hi], H2 as [j Hj].
    rewrite (Hap i j d1 d2 a Hi Hj Hr1 Hr2) in Hi. congruence.
  - intros x d Hx Hd. apply (Hch x d Hx); [set_solver|done].
Qed.

(** *** Storing a transaction *)
Lemma bump_nodes tx l : ∀ g,
  NoDup l →
  let g' := foldl (bump_node tx) g l in
  edges g' ≡ₚ edges g ∧ shape g' = shape g
  ∧ ∀ x, nodes g' !! x = if decide (x ∈ l) then bump tx <$> nodes g !! x else nodes g !! x.
Proof.
  induction l as [|n l IH]; intros g; cbn.
  - intros _. split; [done|]. split; [done|]. intros x. by rewrite decide_False by (by apply not_elem_of_nil).
  - intros [Hn Hl]%NoDup_cons. destruct (IH (bump_node tx g n) Hl) as (He & Hs & Hx).
    assert (edges (bump_node tx g n) ≡ₚ edges g ∧ shape (bump_node tx g n) = shape g
      ∧ ∀ x, nodes (bump_node tx g n) !! x
             = if decide (x = n) then bump tx <$> nodes g !! x else nodes g !! x) as (He1 & Hs1 & Hx1).
    { unfold bump_node. rewrite node_weight_nodes. destruct (nodes g !! n) as [d|] eqn:Hd.
      - split; [apply update_node_edges|]. split; [apply shape_update; by exists d|]. intros x.
        rewrite update_node_nodes by (by eexists). case_decide; subst; [by rewrite lookup_insert_eq, Hd|].
        by rewrite lookup_insert_ne.
      - split; [done|]. split; [done|]. intros x. case_decide; subst; [by rewrite Hd|done]. }
    rewrite He, He1, Hs, Hs1. split; [done|]. split; [done|]. intros x. rewrite Hx, Hx1.
    repeat case_decide; try done; exfalso; set_solver.
Qed.

Lemma connect_nodes n l : ∀ g,
  is_Some (nodes g !! n) → (∀ d, d ∈ l → is_Some (nodes g !! d)) →
  ∃ g', fold_panic (connect n) g l = Some g' ∧ nodes g' = nodes g
    ∧ edges g' ≡ₚ ((λ d, (d, n)) <$> l) ++ edges g.
Proof.
  induction l as [|d l IH]; intros g Hn Hl; cbn; [by exists g|].
  destruct (Hl d ltac:(left)) as [dd Hd]. assert (connect n g d = Some (add_edge g d n)) as ->
    by (unfold connect; by rewrite node_weight_nodes, Hd). cbn.
  destruct (IH (add_edge g d n)) as (g' & -> & Hno & He).
  - by rewrite add_edge_nodes.
  - intros x Hx. rewrite add_edge_nodes. apply Hl. by right.
  - exists g'. rewrite Hno, add_edge_nodes. split; [done|]. split; [done|].
    rewrite He, add_edge_edges by (done || by eexists). by rewrite Permutation_middle.
Qed.

(** What the pool guarantees when it stores a checked transaction. *)
Record storable self (c : CheckedTransaction) (now : Instant) : Prop := {
  so_ok : tx_ok (checked_tx c);
  so_direct n : n ∈ direct_dependencies c →
    ∃ p, shape (graph self) !! n = Some p ∧ provides p.1 (checked_tx c);
  so_all x : x ∈ all_dependencies c ↔ ∃ d, d ∈ direct_dependencies c ∧ reach (edge_set (graph self)) x d;
  so_apart d1 d2 a : d1 ∈ direct_dependencies c → d2 ∈ direct_dependencies c →
    reach (edge_set (graph self)) a d1 → reach (edge_set (graph self)) a d2 → d1 = d2;
  so_fits q : exact → total (shape (graph self)) q + weight q (checked_tx c) ≤ int_max u64;
  so_coins u : u ∈ created_coins (checked_tx c) → coins_creators self !! u = None;
  so_contracts x : x ∈ created_contracts (checked_tx c) → contracts_creators self !! x = None;
  so_spent u n : u ∈ coin_inputs (checked_tx c) → coins_creators self !! u = Some n → n ∈ direct_dependencies c;
  so_unspent m p u : shape (graph self) !! m = Some p → u ∈ coin_inputs p.1 → u ∉ created_coins (checked_tx c)
}.

Lemma created_coins_id tx u : u ∈ created_coins tx → u.1 = pt_id tx.
Proof.
  unfold created_coins. rewrite list_elem_of_omap. intros ([i o] & _ & Hu). destruct o; cbn in Hu; by simplify_eq.
Qed.

Lemma GraphInv_store T E cc ct n tx now D :
  GraphInv T E cc ct → T !! n = None → tx_ok tx →
  (∀ d, d ∈ D → ∃ p, T !! d = Some p ∧ provides p.1 tx) →
  (∀ d1 d2 a, d1 ∈ D → d2 ∈ D → reach E a d1 → reach E a d2 → d1 = d2) →
  (∀ u, u ∈ created_coins tx → cc !! u = None) → (∀ x, x ∈ created_contracts tx → ct !! x = None) →
  (∀ u m, u ∈ coin_inputs tx → cc !! u = Some m → m ∈ D) →
  (∀ m p u, T !! m = Some p → u ∈ coin_inputs p.1 → u ∉ created_coins tx) →
  GraphInv (<[n := (tx, now)]> T) (below E D n)
    (insert_keys (created_coins tx) n cc) (insert_keys (created_contracts tx) n ct).
Proof.
  intros [Hdom F Hr Hce Hcc Hct Hok] Hn Htx HD Hap Hfc Hfk Hsp Hun.
  assert (∀ a, is_Some (T !! a) → a ≠ n) as Hne by (intros a [p Hp] ->; congruence).
  assert (∀ d, d ∈ D → d ≠ n) as HDn by (intros d (p & Hp & _)%HD; apply Hne; by eexists).
  assert (∀ b, ¬ edge E n b) as Hnl by (intros b He; apply Hdom in He as [He _]; by apply Hne in He).
  assert (∀ a, ¬ edge E a n) as Hnr by (intros a He; apply Hdom in He as [_ He]; by apply Hne in He).
  split; [| | | |by apply owns_insert|by apply owns_insert|].
  - intros a b [[Ha ->]|He]%edge_below.
    + rewrite lookup_insert_eq, lookup_insert_ne by (symmetry; by apply HDn).
      destruct (HD a Ha) as (p & Hp & _). split; by eexists.
    + destruct (Hdom a b He) as [Ha Hb]. rewrite !lookup_insert_ne by (symmetry; by apply Hne). done.
  - apply forest_below; [done|done| |done|done]. intros Hin. by apply HDn in Hin.
  - intros a b [[Ha ->]|He]%edge_below.
    + destruct (HD a Ha) as (p & Hp & Hpr). exists p, (tx, now).
      by rewrite lookup_insert_eq, lookup_insert_ne by (symmetry; by apply HDn).
    + destruct (Hdom a b He) as [Ha Hb]. rewrite !lookup_insert_ne by (symmetry; by apply Hne). by apply Hr.
  - intros a m p u Hm Hu Hc. rewrite insert_keys_lookup in Hc. apply edge_below.
    apply lookup_insert_Some in Hm as [[<- <-]|[Hmn Hm]].
    + case_decide as Huc.
      * exfalso. by apply (tx_self_ok _ Htx u Hu), created_coins_id.
      * left. split; [by eapply Hsp|done].
    + rewrite decide_False in Hc by (by eapply Hun). right. by eapply Hce.
  - intros m p [[<- <-]|[_ Hm]]%lookup_insert_Some; [done|by eapply Hok].
Qed.

Lemma weight_at_insert T q n p m : m ≠ n → weight_at (<[n := p]> T) q m = weight_at T q m.
Proof. intros Hm. unfold weight_at. by rewrite lookup_insert_ne. Qed.
Lemma weight_at_new T q n p : weight_at (<[n := p]> T) q n = weight q p.1.
Proof. unfold weight_at. by rewrite lookup_insert_eq. Qed.

Lemma total_insert T q n p : T !! n = None → total (<[n := p]> T) q = total T q + weight q p.1.
Proof.
  intros Hn. unfold total. rewrite dom_insert_L. apply not_elem_of_dom in Hn.
  rewrite set_sum_union, set_sum_singleton, weight_at_new by set_solver.
  rewrite (set_sum_ext _ (weight_at T q)); [lia|]. intros m Hm. apply weight_at_insert. set_solver.
Qed.

Lemma counts_store T E cc ct n tx now D x d :
  GraphInv T E cc ct → T !! n = None → tx_ok tx → (∀ q, total T q + weight q tx ≤ int_max u64) →
  (∀ d, d ∈ D → is_Some (T !! d)) → is_Some (T !! x) → counts T E x d →
  ((∃ y, y ∈ D ∧ reach E x y) → counts (<[n := (tx, now)]> T) (below E D n) x (bump tx d))
  ∧ (¬ (∃ y, y ∈ D ∧ reach E x y) → counts (<[n := (tx, now)]> T) (below E D n) x d).
Proof.
  intros Hg Hn Htx Hfit HD Hx (X & HX & HsX). pose proof (gi_ok _ _ _ _ Hg) as Hok.
  assert (∀ a, is_Some (T !! a) → a ≠ n) as Hne by (intros a [p Hp] ->; congruence).
  assert (X ⊆ dom T) as HXT.
  { intros m Hm. apply elem_of_dom. apply HX in Hm. by eapply reach_dom. }
  assert (n ∉ X) as HnX.
  { intros Hin. apply HXT, elem_of_dom in Hin. by apply Hne in Hin. }
  assert (∀ b, ¬ edge E n b) as Hnl.
  { intros b He. apply (gi_dom _ _ _ _ Hg) in He as [He _]. by apply Hne in He. }
  assert (∀ a, ¬ edge E a n) as Hnr.
  { intros a He. apply (gi_dom _ _ _ _ Hg) in He as [_ He]. by apply Hne in He. }
  assert (n ∉ D) as HnD by (intros Hin; by apply HD, Hne in Hin).
  assert (∀ q, set_sum (weight_at (<[n := (tx, now)]> T) q) X = set_sum (weight_at T q) X) as Hsame.
  { intros q. apply set_sum_ext. intros m Hm. apply weight_at_insert. by intros ->. }
  assert (∀ m, m ≠ n → reach (below E D n) x m ↔ m ∈ X) as Hold.
  { intros m Hm. rewrite HX. by apply reach_below. }
  split; intros Hyx.
  - exists ({[n]} ∪ X). split.
    + intros m. rewrite elem_of_union, elem_of_singleton. destruct (decide (m = n)) as [->|Hm].
      * rewrite (reach_below_new E D n Hnl Hnr HnD). split; [by right|by left].
      * rewrite (Hold m Hm). tauto.
    + intros q. rewrite stored_bump, set_sum_union, set_sum_singleton, weight_at_new, Hsame, HsX by set_solver. cbn.
      pose proof (total_sub T q X Hok HXT). specialize (Hfit q). pose proof (weight_nonneg q tx Htx).
      pose proof (set_sum_nonneg (weight_at T q) X ltac:(intros; by apply weight_at_nonneg)).
      unfold saturating_add. rewrite clamp_id; [lia|]. unfold in_range. cbn [int_min u64 unsigned] in *. lia.
  - exists X. split; [|intros q; by rewrite Hsame, HsX].
    intros m. destruct (decide (m = n)) as [->|Hm]; [|by rewrite (Hold m Hm)].
    rewrite (reach_below_new E D n Hnl Hnr HnD). split; [done|]. intros [->|?]; [by apply Hne in Hx|done].
Qed.

Lemma counts_new T E cc ct n tx now D :
  GraphInv T E cc ct → T !! n = None → n ∉ D →
  counts (<[n := (tx, now)]> T) (below E D n) n
    (MkStorageData tx (pt_tip tx) (pt_max_gas tx) (pt_metered_bytes_size tx) 1 now).
Proof.
  intros Hg Hn HnD. exists {[n]}. split.
  - intros m. rewrite elem_of_singleton. split; [intros ->; apply rtc_refl|]. intros Hr. symmetry.
    assert (∀ b, ¬ edge E n b) as Hnl.
    { intros b He. apply (gi_dom _ _ _ _ Hg) in He as [[p Hp] _]. congruence. }
    assert (∀ a, ¬ edge E a n) as Hnr.
    { intros a He. apply (gi_dom _ _ _ _ Hg) in He as [_ [p Hp]]. congruence. }
    by eapply (reach_new E D n).
  - intros q. rewrite set_sum_singleton, weight_at_new. by destruct q.
Qed.

Lemma store_spec self c now :
  GraphOk self → storable self c now →
  ∃ n self', store_transaction c now self = Some (n, self') ∧ shape (graph self) !! n = None ∧ GraphOk self'
    ∧ shape (graph self') = <[n := (checked_tx c, now)]> (shape (graph self))
    ∧ edge_set (graph self') = below (edge_set (graph self)) (direct_dependencies c) n
    ∧ max_txs_chain_count self' = max_txs_chain_count self
    ∧ (∀ x d', nodes (graph self') !! x = Some d' → x ≠ n →
         ∃ d, nodes (graph self) !! x = Some d
           ∧ d' = if decide (x ∈ all_dependencies c) then bump (checked_tx c) d else d)
    ∧ (∀ d', nodes (graph self') !! n = Some d' → number_dependents_in_chain d' = 1).
Proof.
  intros [[Hnd Hinv] Hcum Hfit] [Htx HD Hall Hap Hfits Hfc Hfk Hsp Hun].
  unfold store_transaction. set (tx := checked_tx c) in *.
  set (new := MkStorageData tx (pt_tip tx) (pt_max_gas tx) (pt_metered_bytes_size tx) 1 now).
  destruct (bump_nodes tx (iter_set (all_dependencies c)) (graph self)) as (He1 & Hs1 & Hn1).
  { rewrite iter_set_perm. apply NoDup_elements. }
  set (g1 := foldl (bump_node tx) (graph self) (iter_set (all_dependencies c))) in *.
  pose proof (add_node_fresh g1 new) as Hfresh. pose proof (add_node_nodes g1 new) as Hn2.
  pose proof (add_node_edges g1 new) as He2. destruct (add_node g1 new) as [n g2]. cbn [fst snd] in *.
  assert (shape (graph self) !! n = None) as HnT by (rewrite <- Hs1, shape_lookup, Hfresh; done).
  assert (∀ d, d ∈ direct_dependencies c → is_Some (shape (graph self) !! d)) as HDs.
  { intros d (p & Hp & _)%HD. by eexists. }
  destruct (connect_nodes n (iter_set (direct_dependencies c)) g2) as (g3 & -> & Hn3 & He3).
  { rewrite Hn2, lookup_insert_eq. by eexists. }
  { intros d. rewrite iter_set_perm, elem_of_elements. intros Hd%HDs. rewrite <- Hs1 in Hd.
    apply shape_is_Some in Hd as [dd Hd]. rewrite Hn2. apply lookup_insert_is_Some'. right. by eexists. }
  unfold cache_tx_infos. cbn [mbind option_bind graph with_graph]. rewrite node_weight_nodes, Hn3, Hn2, lookup_insert_eq. cbn [mbind option_bind].
  rewrite cache_outputs, enumerate_snd. cbn [transaction new].
  assert (shape g3 = <[n := (tx, now)]> (shape (graph self))) as Hs3.
  { rewrite <- Hs1. unfold shape. by rewrite Hn3, Hn2, fmap_insert. }
  assert (edge_set g3 = below (edge_set (graph self)) (direct_dependencies c) n) as Hed3.
  { apply set_eq. intros [a b]. unfold edge_set at 1. rewrite elem_of_list_to_set, He3, elem_of_app, He2, He1.
    unfold below, edge_set. rewrite elem_of_union, elem_of_map, elem_of_list_to_set, list_elem_of_fmap.
    setoid_rewrite iter_set_perm. setoid_rewrite elem_of_elements. done. }
  eexists n, _. split; [reflexivity|]. cbn [graph max_txs_chain_count with_graph coins_creators contracts_creators]. rewrite Hs3, Hed3. split; [done|].
  assert (∀ x d', nodes g3 !! x = Some d' → x ≠ n → ∃ d, nodes (graph self) !! x = Some d
    ∧ d' = if decide (x ∈ all_dependencies c) then bump tx d else d) as Hold.
  { intros x d'. rewrite Hn3, Hn2. intros Hx Hne. rewrite lookup_insert_ne, Hn1 in Hx by done.
    rewrite (decide_ext _ (x ∈ all_dependencies c)) in Hx by (by rewrite iter_set_perm, elem_of_elements).
    case_decide; [|by eexists]. apply fmap_Some in Hx as (d & ? & ->). by eexists. }
  split; [|split; [done|split; [done|split; [done|split; [exact Hold|]]]]].
  - constructor; cbn [graph].
    + constructor; cbn [graph coins_creators contracts_creators].
      * rewrite He3, He2, He1. apply NoDup_app. split; [|split; [|done]].
        -- apply NoDup_fmap_2; [by intros ?? [= ->]|]. rewrite iter_set_perm. apply NoDup_elements.
        -- intros [a b] (d & [= -> ->] & _)%list_elem_of_fmap Hin.
           assert (edge (edge_set (graph self)) d n) as Hedge by (unfold edge, edge_set; by rewrite elem_of_list_to_set).
           apply (gi_dom _ _ _ _ Hinv) in Hedge as [_ [p Hp]]. congruence.
      * rewrite Hs3, Hed3. by apply GraphInv_store.
    + intros Hex. rewrite Hs3, Hed3. intros x d' Hx. destruct (decide (x = n)) as [->|Hne].
      * rewrite Hn3, Hn2, lookup_insert_eq in Hx. injection Hx as <-. eapply counts_new; [done..|].
        intros Hin. apply HDs in Hin as [p Hp]. congruence.
      * destruct (Hold x d' Hx Hne) as (d & Hd & ->).
        destruct (counts_store _ _ _ _ n tx now (direct_dependencies c) x d Hinv) as [Hyes Hno]; try done.
        { intros q. by apply Hfits. }
        { apply shape_is_Some. by eexists. } { by apply Hcum. }
        case_decide as Hxa; [apply Hyes, Hall, Hxa|]. apply Hno. by rewrite <- Hall.
    + intros Hex. rewrite Hs3. intros q. rewrite total_insert by done. by apply Hfits.
  - intros d'. rewrite Hn3, Hn2, lookup_insert_eq. by intros [= <-].
Qed.

(** *** Removing a transaction that nothing in the pool is needed for *)
Lemma removed_at_ok self n d :
  GraphOk self → nodes (graph self) !! n = Some d → (exact → ∀ a, ¬ edge (edge_set (graph self)) a n) →
  GraphOk (removed_at self n d).
Proof.
  intros [Hwf Hcum Hfit] Hn Hroot. destruct (removed_at_wf self n d Hwf Hn) as (Hwf1 & Hs1 & Hn1 & He1 & _).
  constructor; [done| |]; intros Hex; rewrite Hs1.
  - rewrite He1, Hn1. intros x dx [Hne Hx]%lookup_delete_Some.
    apply (counts_remove _ _ _ _ n d x dx (gw_inv _ Hwf) (Hfit Hex)); [| |done|by apply Hcum..|].
    + rewrite shape_lookup, Hn. by eexists.
    + rewrite shape_lookup, Hx. by eexists.
    + intros [->|(p & _ & Hp)]%reach_inv_r; [done|]. by apply (Hroot Hex p).
  - apply fits_delete; [apply Hwf|by apply Hfit].
Qed.

Lemma removed_at_cut self n d :
  GraphWf self → nodes (graph self) !! n = Some d → cut self [n] (removed_at self n d).
Proof.
  intros Hwf Hn. destruct (removed_at_wf self n d Hwf Hn) as (_ & Hs1 & _ & He1 & Hm1).
  apply (cut_remove self [] self); [apply cut_refl|done..].
Qed.
End graph_facts.
