(* ===== verification/TxPoolTables.v ===== *)
(** * The tables of the transaction pool

    The pool keeps, next to the graph, tables from what a transaction occupies
    (its id, the coins and messages it spends, the contracts and the blob it
    creates) to its node, and the sums of gas and size.  These lemmas say that
    the tables follow the graph when transactions come and go, and that
    [find_collisions] reads off exactly the transactions of the pool that
    conflict with a new one. *)
From S2P Require Import Prelude FuelTypes TxPoolTypes TxPoolGraph TxPool TxPoolForest TxPoolGraphFacts.

Definition ids_of (tx : PoolTransaction) : list TxId := [pt_id tx].
Definition blobs_of (tx : PoolTransaction) : list BlobId := option_list (pt_blob_id tx).

(** Two transactions that cannot be in the pool together. *)
Definition conflict (a b : PoolTransaction) : Prop :=
  (∃ u, u ∈ coin_inputs a ∧ u ∈ coin_inputs b) ∨ (∃ m, m ∈ message_inputs a ∧ m ∈ message_inputs b)
  ∨ (∃ c, c ∈ created_contracts a ∧ c ∈ created_contracts b) ∨ (∃ x, x ∈ blobs_of a ∧ x ∈ blobs_of b).

(** The collision manager describes the transactions [T]. *)
Record CollisionsOk (T : Shape) (cm : BasicCollisionManager) : Prop := {
  ck_messages : owns (messages_spenders cm) T message_inputs;
  ck_coins : owns (coins_spenders cm) T coin_inputs;
  ck_contracts : owns (cm_contracts_creators cm) T created_contracts;
  ck_blobs : owns (blobs_users cm) T blobs_of
}.

(** ** Collisions *)
Section collisions.
Context (T : Shape) (cm : BasicCollisionManager) (Hok : CollisionsOk T cm).

Lemma collide_dom o reason (c : Collisions) n : n ∈ dom (collide o reason c) ↔ o = Some n ∨ n ∈ dom c.
Proof. destruct o as [m|]; cbn; [|naive_solver]. rewrite dom_insert, elem_of_union, elem_of_singleton. naive_solver. Qed.

Lemma collide_inputs_dom inputs : ∀ (c : Collisions) n,
  n ∈ dom (foldl (collide_input cm) c inputs)
  ↔ n ∈ dom c
    ∨ (∃ u, u ∈ omap (λ i, ci_utxo_id <$> input_coin i) inputs ∧ coins_spenders cm !! u = Some n)
    ∨ (∃ m, m ∈ omap (λ i, mi_nonce <$> input_message i) inputs ∧ messages_spenders cm !! m = Some n).
Proof.
  induction inputs as [|i inputs IH]; intros c n; cbn [foldl omap list_omap].
  - split; [by left|]. intros [?|[(u & ?%not_elem_of_nil & _)|(u & ?%not_elem_of_nil & _)]]; done.
  - rewrite IH. destruct i; cbn; rewrite ?collide_dom; try setoid_rewrite elem_of_cons; naive_solver.
Qed.

Lemma collide_outputs_ok tx_id outputs : ∀ (c r : Collisions),
  collide_outputs cm tx_id c outputs = Ok r →
  (∀ n, n ∈ dom r ↔ n ∈ dom c
     ∨ ∃ x, x ∈ omap (λ o, match o with OutputContractCreated c _ => Some c | _ => None end) (snd <$> outputs)
            ∧ cm_contracts_creators cm !! x = Some n)
  ∧ (∀ i to amount asset, (i, OutputCoin to amount asset) ∈ outputs → coins_spenders cm !! (tx_id, i) = None).
Proof.
  induction outputs as [|[i o] outputs IH]; intros c r; cbn [collide_outputs].
  - intros [= ->]. split; [|by intros ???? ?%not_elem_of_nil].
    intros n. split; [by left|]. intros [?|(x & ?%not_elem_of_nil & _)]; done.
  - intros Hr. destruct o; try (destruct (coins_spenders cm !! (tx_id, i)) eqn:Hu; [done|]);
      apply IH in Hr as [Hd Hs]; (split; [intros n; rewrite Hd, ?collide_dom; cbn; try setoid_rewrite elem_of_cons; naive_solver|]);
      intros j ??? [[= -> -> -> ->]|Hin]%elem_of_cons; try done; by eapply Hs.
Qed.

Lemma find_collisions_ok tx (c : Collisions) :
  find_collisions cm tx = Ok c →
  (∀ n, n ∈ dom c ↔ ∃ p, T !! n = Some p ∧ conflict p.1 tx)
  ∧ (∀ u, u ∈ created_coins tx → coins_spenders cm !! u = None).
Proof.
  unfold find_collisions. set (blob := match pt_blob_id tx with Some _ => _ | None => _ end).
  intros [Hd Hs]%collide_outputs_ok. split.
  - assert (∀ n, n ∈ dom blob ↔ ∃ x, x ∈ blobs_of tx ∧ blobs_users cm !! x = Some n) as Hb.
    { intros n. subst blob. unfold blobs_of. destruct (pt_blob_id tx) as [x|]; cbn; [|set_solver].
      setoid_rewrite list_elem_of_singleton. destruct (blobs_users cm !! x) eqn:Hx; set_solver. }
    intros n. rewrite Hd, collide_inputs_dom, Hb, enumerate_snd. unfold conflict.
    setoid_rewrite (ck_blobs _ _ Hok _ n). setoid_rewrite (ck_coins _ _ Hok _ n).
    setoid_rewrite (ck_messages _ _ Hok _ n). setoid_rewrite (ck_contracts _ _ Hok _ n). split.
    + intros [[(x & ? & p & ? & ?)|[(x & ? & p & ? & ?)|(x & ? & p & ? & ?)]]|(x & ? & p & ? & ?)];
        exists p; (split; [done|]); eauto 10.
    + intros (p & Hp & [(x & ? & ?)|[(x & ? & ?)|[(x & ? & ?)|(x & ? & ?)]]]); eauto 12.
  - intros u Hu. unfold created_coins in Hu. apply list_elem_of_omap in Hu as ([i o] & Hin & Ho).
    destruct o; try done. injection Ho as <-. by eapply Hs.
Qed.

Lemma CollisionsOk_remove n p : T !! n = Some p → CollisionsOk (delete n T) (on_removed_collisions p.1 cm).
Proof. intros Hn. destruct Hok. constructor; [by apply owns_delete..|]. by apply (owns_delete blobs_of). Qed.

Lemma CollisionsOk_store n d :
  T !! n = None → (∀ m p, T !! m = Some p → ¬ conflict p.1 (transaction d)) →
  CollisionsOk (<[n := entry_shape d]> T) (on_stored_transaction n d cm).
Proof.
  intros Hn Hc. destruct Hok as [Hm Hco Hct Hb].
  constructor; [apply owns_insert..|apply (owns_insert blobs_of)]; try done;
    intros k Hk; apply eq_None_not_Some; intros [m Hkm].
  - apply Hm in Hkm as (p & Hp & Hk'). apply (Hc m p Hp). right. left. eauto.
  - apply Hco in Hkm as (p & Hp & Hk'). apply (Hc m p Hp). left. eauto.
  - apply Hct in Hkm as (p & Hp & Hk'). apply (Hc m p Hp). right. right. left. eauto.
  - apply Hb in Hkm as (p & Hp & Hk'). apply (Hc m p Hp). do 3 right. eauto.
Qed.
End collisions.

(** ** The tables of the pool *)
Definition remove_nodes (ns : list NodeIndex) (T : Shape) : Shape := foldl (λ T n, delete n T) T ns.

Lemma remove_nodes_lookup ns : ∀ T n, remove_nodes ns T !! n = if decide (n ∈ ns) then None else T !! n.
Proof.
  induction ns as [|m ns IH]; intros T n; unfold remove_nodes in *; cbn.
  - by rewrite decide_False by (by apply not_elem_of_nil).
  - rewrite IH. destruct (decide (n = m)) as [->|Hne].
    + rewrite lookup_delete_eq. by rewrite (decide_True (P := m ∈ m :: ns)) by left; case_decide.
    + rewrite lookup_delete_ne by done. apply decide_ext. rewrite elem_of_cons. naive_solver.
Qed.

Section tables.
Context `{SG : StableDiGraph} `{SL : !StableDiGraphLaws} `{HO : HashOrder} (exact : Prop).
Implicit Types (p : Pool).

Lemma cut_shape self ns self' : cut self ns self' → shape (graph self') = remove_nodes ns (shape (graph self)).
Proof. intros (Hs & _). apply map_eq. intros n. by rewrite Hs, remove_nodes_lookup. Qed.

Record Tables (T : Shape) p : Prop := {
  tb_ids : owns (tx_id_to_storage_id p) T ids_of;
  tb_collisions : CollisionsOk T (collision_manager p);
  tb_ok : txs_ok T;
  tb_fits : exact → fits T;
  tb_gas : exact → current_gas p = total T QGas;
  tb_bytes : exact → current_bytes_size p = total T QBytes
}.

(** Transaction ids identify the transactions of the pool. *)
Definition ids_unique (T : Shape) : Prop :=
  ∀ n m x y, T !! n = Some x → T !! m = Some y → pt_id x.1 = pt_id y.1 → n = m.

Lemma Tables_ids_unique T p : Tables T p → ids_unique T.
Proof.
  intros [Hi _ _ _ _ _] n m x y Hn Hm He.
  assert (tx_id_to_storage_id p !! pt_id x.1 = Some n) as H1 by (apply Hi; exists x; split; [done|by left]).
  assert (tx_id_to_storage_id p !! pt_id y.1 = Some m) as H2 by (apply Hi; exists y; split; [done|by left]).
  congruence.
Qed.

Lemma ids_unique_remove T ns : ids_unique T → ids_unique (remove_nodes ns T).
Proof.
  intros Hu n m x y. rewrite !remove_nodes_lookup. do 2 (case_decide; [done|]). apply Hu.
Qed.

(** What remains of a sum when one transaction leaves. *)
Lemma total_leave T q n x :
  txs_ok T → fits T → T !! n = Some x →
  saturating_sub u64 (total T q) (weight q x.1) = total (delete n T) q.
Proof.
  intros Hok Hf Hn. rewrite total_delete. unfold weight_at at 1. rewrite Hn. unfold saturating_sub. apply clamp_id.
  pose proof (total_delete T q n) as Hd. unfold weight_at at 1 in Hd. rewrite Hn in Hd.
  pose proof (weight_nonneg q x.1 (Hok _ _ Hn)). specialize (Hf q).
  assert (0 ≤ total (delete n T) q).
  { apply set_sum_nonneg. intros m. apply weight_at_nonneg. intros k y [_ Hy]%lookup_delete_Some. by eapply Hok. }
  unfold in_range. cbn [int_min u64 unsigned] in *. lia.
Qed.

Lemma forget_entry_tables T p n e :
  Tables T p → T !! n = Some (entry_shape e) → Tables (delete n T) (forget_entry p e).
Proof.
  intros Ht Hn. pose proof (tb_ok _ _ Ht) as Hok. constructor; cbn [forget_entry tx_id_to_storage_id collision_manager current_gas current_bytes_size].
  - apply (owns_delete ids_of _ T n (entry_shape e)); [apply Ht|done].
  - apply (CollisionsOk_remove T _ (tb_collisions _ _ Ht) n (entry_shape e) Hn).
  - intros m x [_ Hm]%lookup_delete_Some. by eapply Hok.
  - intros Hex. apply fits_delete; [done|by apply Ht].
  - intros Hex. rewrite (tb_gas _ _ Ht Hex). apply (total_leave T QGas n (entry_shape e)); [done|by apply Ht|done].
  - intros Hex. rewrite (tb_bytes _ _ Ht Hex). apply (total_leave T QBytes n (entry_shape e)); [done|by apply Ht|done].
Qed.

Lemma tables_fold (f : Pool → StorageData → Pool) :
  (∀ T p n e, Tables T p → T !! n = Some (entry_shape e) → Tables (delete n T) (f p e)) →
  ∀ es ns T p, Tables T p → NoDup ns → Forall2 (λ n e, T !! n = Some (entry_shape e)) ns es →
  Tables (remove_nodes ns T) (foldl f p es).
Proof.
  intros Hf. induction es as [|e es IH]; intros ns T p Ht Hnd HF.
  - by apply Forall2_nil_inv_r in HF as ->.
  - apply Forall2_cons_inv_r in HF as (n & ns' & Hn & HF & ->). apply NoDup_cons in Hnd as [Hni Hnd].
    cbn. apply IH; [by apply Hf|done|]. apply Forall2_same_length_lookup_2; [by eapply Forall2_length|].
    intros i m e' Hm He. rewrite lookup_delete_ne; [by apply (Forall2_lookup_lr _ _ _ _ _ _ HF Hm He)|].
    intros ->. by apply Hni, (list_elem_of_lookup_2 _ i).
Qed.
End tables.
