(* ===== verification/TxPoolSelection.v ===== *)
(** * The selection of transactions

    The executable transactions are kept sorted by their key; [SelOk] says
    which nodes the selection holds.  [gather_best_txs] is shown to terminate
    without a panic, to respect the constraints, to take a transaction only
    after everything it depends on, and to leave nothing behind that would
    still fit. *)
From stdpp Require Import sorting.
From S2P Require Import Prelude FuelTypes TxPoolTypes TxPoolGraph TxPool TxPoolForest TxPoolGraphFacts TxPoolTables.

(** ** The order of keys *)
Definition shape_key (x : PoolTransaction * Instant) : Key :=
  MkKey (saturating_add u64 (pt_tip x.1) 1, pt_max_gas x.1) x.2 (pt_id x.1).
Definition key_gt (a b : Key * NodeIndex) : Prop := key_cmp a.1 b.1 = Gt.

Lemma key_shape d : key d = shape_key (entry_shape d).
Proof. done. Qed.

Lemma ratio_cmp_antisym a b : ratio_cmp b a = CompOpp (ratio_cmp a b).
Proof. unfold ratio_cmp. apply Z.compare_antisym. Qed.

Lemma key_cmp_antisym a b : key_cmp b a = CompOpp (key_cmp a b).
Proof.
  unfold key_cmp. rewrite (ratio_cmp_antisym (key_ratio a)).
  destruct (ratio_cmp (key_ratio a) (key_ratio b)); try done. cbn.
  rewrite (Z.compare_antisym (key_creation_instant b)).
  destruct (key_creation_instant b ?= key_creation_instant a); try done. cbn. apply Z.compare_antisym.
Qed.

Lemma key_cmp_refl a : key_cmp a a = Eq.
Proof. unfold key_cmp, ratio_cmp. by rewrite !Z.compare_refl. Qed.

Lemma key_cmp_id a b : key_cmp a b = Eq → key_tx_id a = key_tx_id b.
Proof.
  unfold key_cmp. destruct (ratio_cmp _ _); try done. destruct (key_creation_instant b ?= _); try done.
  apply Z.compare_eq.
Qed.

Lemma key_cmp_trans a b c :
  0 < (key_ratio a).2 → 0 < (key_ratio b).2 → 0 < (key_ratio c).2 →
  key_cmp a b = Gt → key_cmp b c = Gt → key_cmp a c = Gt.
Proof.
  destruct a as [[a1 a2] ai aid], b as [[b1 b2] bi bid], c as [[c1 c2] ci cid]. cbn. intros Ha Hb Hc.
  unfold key_cmp, ratio_cmp. cbn.
  destruct (Z.compare_spec (a1 * b2) (b1 * a2)), (Z.compare_spec (b1 * c2) (c1 * b2)); try done.
  all: assert (∀ x y, x * b2 < y * b2 → x < y) as Hlt by (intros; nia).
  all: assert (∀ x y, x * b2 = y * b2 → x = y) as Heq by (intros; nia).
  - rewrite (proj2 (Z.compare_eq_iff (a1 * c2) (c1 * a2))) by (apply Heq; nia).
    destruct (Z.compare_spec bi ai), (Z.compare_spec ci bi), (Z.compare_spec ci ai); try done; try lia.
    rewrite !Z.compare_gt_iff. lia.
  - intros _ _. rewrite (proj2 (Z.compare_gt_iff (a1 * c2) (c1 * a2))) by (apply Hlt; nia). done.
  - intros _ _. rewrite (proj2 (Z.compare_gt_iff (a1 * c2) (c1 * a2))) by (apply Hlt; nia). done.
  - intros _ _. rewrite (proj2 (Z.compare_gt_iff (a1 * c2) (c1 * a2))) by (apply Hlt; nia). done.
Qed.

(** ** The sorted map *)
Lemma btree_insert_perm k n (l : Executables) :
  Forall (λ e : Key * NodeIndex, key_cmp k e.1 ≠ Eq) l → btree_insert k n l ≡ₚ (k, n) :: l.
Proof.
  induction l as [|[k' n'] l IH]; cbn; [done|]. intros [Hk HF]%Forall_cons. cbn in Hk.
  destruct (key_cmp k k') eqn:Hc; [done| |done]. rewrite IH by done. constructor.
Qed.

Lemma btree_insert_sorted k n (l : Executables) :
  0 < (key_ratio k).2 → Forall (λ e : Key * NodeIndex, 0 < (key_ratio e.1).2) l →
  Forall (λ e : Key * NodeIndex, key_cmp k e.1 ≠ Eq) l →
  StronglySorted key_gt l → StronglySorted key_gt (btree_insert k n l).
Proof.
  intros Hk0. induction l as [|[k' n'] l IH]; cbn; [by repeat constructor|].
  intros [H0 H0l]%Forall_cons [Hk Hl]%Forall_cons [Hs Hgt]%StronglySorted_inv. cbn in Hk, H0.
  destruct (key_cmp k k') eqn:Hc; [done| |].
  - constructor; [by apply IH|]. rewrite btree_insert_perm by done. constructor; [|done].
    unfold key_gt. cbn. by rewrite key_cmp_antisym, Hc.
  - constructor; [by constructor|]. constructor; [done|]. rewrite Forall_forall in *. intros [k1 n1] Hin.
    eapply (key_cmp_trans k k' k1); [done|done|by apply (H0l _ Hin)|done|by apply (Hgt _ Hin)].
Qed.

Lemma btree_remove_sorted k (l : Executables) : StronglySorted key_gt l → StronglySorted key_gt (btree_remove k l).
Proof.
  unfold btree_remove. induction l as [|e l IH]; cbn; [done|]. intros [Hs Hgt]%StronglySorted_inv.
  case_decide; [|by apply IH]. constructor; [by apply IH|]. rewrite Forall_forall in *.
  intros e' [_ Hin]%list_elem_of_filter. by apply Hgt.
Qed.

(** ** What the selection holds *)
Record SelOk (T : Shape) (P : NodeIndex → Prop) (l : Executables) : Prop := {
  se_sorted : StronglySorted key_gt l;
  se_mem k n : (k, n) ∈ l ↔ ∃ x, T !! n = Some x ∧ k = shape_key x ∧ P n
}.

Lemma SelOk_ext T T' P P' l :
  (∀ n x, T !! n = Some x ∧ P n ↔ T' !! n = Some x ∧ P' n) → SelOk T P l → SelOk T' P' l.
Proof. intros He [Hs Hm]. constructor; [done|]. intros k n. rewrite Hm. specialize (He n). naive_solver. Qed.

Lemma SelOk_empty P : SelOk ∅ P [].
Proof. constructor; [constructor|]. intros k n. split; [by intros ?%not_elem_of_nil|by intros (x & ? & _)]. Qed.

Section selection.
Context (T : Shape) (Hids : ids_unique T) (Hok : txs_ok T).

Lemma shape_key_pos n x : T !! n = Some x → 0 < (key_ratio (shape_key x)).2.
Proof. intros Hn. cbn. apply (Hok _ _ Hn). Qed.

Lemma shape_key_other n m x y : T !! n = Some x → T !! m = Some y → n ≠ m → key_cmp (shape_key x) (shape_key y) ≠ Eq.
Proof. intros Hn Hm Hne He%key_cmp_id. by apply Hne, (Hids _ _ _ _ Hn Hm). Qed.

Lemma SelOk_insert P l n x :
  SelOk T P l → T !! n = Some x → ¬ P n → SelOk T (λ m, P m ∨ m = n) (btree_insert (shape_key x) n l).
Proof.
  intros [Hs Hm] Hn HP.
  assert (Forall (λ e : Key * NodeIndex, key_cmp (shape_key x) e.1 ≠ Eq) l) as Hne.
  { apply Forall_forall. intros [k m] (y & Hy & -> & HPm)%Hm. apply (shape_key_other n m); [done..|]. by intros ->. }
  constructor.
  - apply btree_insert_sorted; [by eapply shape_key_pos| |done|done].
    apply Forall_forall. intros [k m] (y & Hy & -> & _)%Hm. by eapply shape_key_pos.
  - intros k m. rewrite btree_insert_perm, elem_of_cons, Hm by done. naive_solver.
Qed.

Lemma SelOk_remove P l n x :
  SelOk T P l → T !! n = Some x → SelOk T (λ m, P m ∧ m ≠ n) (btree_remove (shape_key x) l).
Proof.
  intros [Hs Hm] Hn. constructor; [by apply btree_remove_sorted|].
  intros k m. unfold btree_remove. rewrite list_elem_of_filter, Hm. cbn. split.
  - intros (Hc & y & Hy & -> & HP). exists y. repeat split; [done..|]. intros ->.
    assert (x = y) as -> by congruence. by rewrite key_cmp_refl in Hc.
  - intros (y & Hy & -> & HP & Hne). split; [|eauto]. by apply (shape_key_other n m).
Qed.

Lemma SelOk_remove_all P l ns es :
  Forall2 (λ n e, T !! n = Some (entry_shape e)) ns es → SelOk T P l →
  SelOk T (λ m, P m ∧ m ∉ ns) (foldl (λ l e, on_removed_transaction e l) l es).
Proof.
  intros HF. revert P l. induction HF as [|n e ns es Hn HF IH]; intros P l HS; cbn.
  - eapply SelOk_ext; [|exact HS]. intros m x. pose proof (not_elem_of_nil m). tauto.
  - eapply SelOk_ext; [|apply IH, (SelOk_remove P l n (entry_shape e) HS Hn)].
    intros m x. rewrite not_elem_of_cons. tauto.
Qed.

Lemma SelOk_remove_keys P l ns ks :
  Forall2 (λ n k, ∃ x, T !! n = Some x ∧ k = shape_key x) ns ks → SelOk T P l →
  SelOk T (λ m, P m ∧ m ∉ ns) (foldl (λ l k, btree_remove k l) l ks).
Proof.
  intros HF. revert P l. induction HF as [|n k ns ks (x & Hn & ->) HF IH]; intros P l HS; cbn.
  - eapply SelOk_ext; [|exact HS]. intros m x. pose proof (not_elem_of_nil m). tauto.
  - eapply SelOk_ext; [|apply IH, (SelOk_remove P l n x HS Hn)]. intros m y. rewrite not_elem_of_cons. tauto.
Qed.

Lemma SelOk_nodup P l : SelOk T P l → NoDup (snd <$> l).
Proof.
  intros [Hs Hm]. assert (∀ k n, (k, n) ∈ l → ∃ x, T !! n = Some x ∧ k = shape_key x) as Hm' by (intros k n; rewrite Hm; naive_solver).
  clear Hm P. induction l as [|[k n] l IH]; cbn; [constructor|]. apply StronglySorted_inv in Hs as [Hs Hgt].
  constructor; [|apply IH; [done|]; intros k' n' Hin; apply Hm'; by right].
  intros ([k' n'] & -> & Hin)%list_elem_of_fmap. rewrite Forall_forall in Hgt. specialize (Hgt _ Hin). cbn in *.
  destruct (Hm' k n') as (x & Hx & ->); [left|]. destruct (Hm' k' n') as (y & Hy & ->); [by right|].
  assert (x = y) as -> by congruence. unfold key_gt in Hgt. cbn in Hgt. by rewrite key_cmp_refl in Hgt.
Qed.
End selection.

(** ** Gathering transactions for a block *)
Definition root (E : Edges) (n : NodeIndex) : Prop := ∀ a, ¬ edge E a n.
Definition gas_of (es : list StorageData) : Z := foldr (λ e acc, pt_max_gas (transaction e) + acc) 0 es.
Definition bytes_of (es : list StorageData) : Z := foldr (λ e acc, pt_metered_bytes_size (transaction e) + acc) 0 es.

Lemma gas_of_snoc es e : gas_of (es ++ [e]) = gas_of es + pt_max_gas (transaction e).
Proof. unfold gas_of, bytes_of. induction es; cbn in *; lia. Qed.
Lemma bytes_of_snoc es e : bytes_of (es ++ [e]) = bytes_of es + pt_metered_bytes_size (transaction e).
Proof. unfold gas_of, bytes_of. induction es; cbn in *; lia. Qed.

(** What is left of the constraints when [es] has been taken. *)
Record budget (c : Constraints) (es : list StorageData) (gas space nb : Z) : Prop := {
  bu_gas : 0 ≤ gas ∧ gas + gas_of es = max_gas c;
  bu_space : 0 ≤ space ∧ space + bytes_of es = maximum_block_size c;
  bu_nb : 0 ≤ nb ∧ nb + Z.of_nat (length es) = maximum_txs c;
  bu_price : Forall (λ e, minimal_gas_price c ≤ pt_max_gas_price (transaction e)) es
}.
(** A transaction that cannot be taken with what is left. *)
Definition unfit (c : Constraints) (gas space : Z) (tx : PoolTransaction) : Prop :=
  pt_max_gas_price tx < minimal_gas_price c ∨ pt_max_gas tx > gas ∨ pt_metered_bytes_size tx > space.

Definition constraints_ok (c : Constraints) : Prop :=
  in_range u64 (max_gas c) ∧ in_range usize (maximum_block_size c) ∧ in_range u16 (maximum_txs c).

Lemma budget_take c es e gas space nb :
  constraints_ok c → budget c es gas space nb → tx_ok (transaction e) → 0 < nb →
  ¬ unfit c gas space (transaction e) → Forall (λ e, tx_ok (transaction e)) es →
  budget c (es ++ [e]) (saturating_sub u64 gas (pt_max_gas (transaction e)))
    (saturating_sub usize space (pt_metered_bytes_size (transaction e))) (saturating_sub u16 nb 1).
Proof.
  intros (Hc1 & Hc2 & Hc3) [[Hg Hg'] [Hs Hs'] [Hn Hn'] Hp] Htx Hnb Hfit Hes. unfold unfit in Hfit.
  assert (0 ≤ gas_of es ∧ 0 ≤ bytes_of es) as [Hge Hbe].
  { clear -Hes. unfold gas_of, bytes_of. induction Hes as [|e es [] _ IH]; cbn in *; lia. }
  destruct Htx as [_ Hgas Hsize _]. unfold in_range in *. cbn [int_min u64 u16 usize unsigned] in *.
  constructor.
  - rewrite gas_of_snoc. unfold saturating_sub. rewrite clamp_id; unfold in_range; cbn [int_min u64 unsigned]; lia.
  - rewrite bytes_of_snoc. unfold saturating_sub. rewrite clamp_id; unfold in_range; cbn [int_min usize u64 unsigned]; lia.
  - rewrite length_app. cbn. unfold saturating_sub. rewrite clamp_id; unfold in_range; cbn [int_min u16 unsigned]; lia.
  - apply Forall_app. split; [done|]. constructor; [lia|constructor].
Qed.

Section gather.
Context `{SG : StableDiGraph} `{SL : !StableDiGraphLaws} `{HO : HashOrder} (exact : Prop).
Implicit Types (st : GraphStorage).

(** [ns] has been taken out of [st0], dependencies first, and [es] was there. *)
Record Taken st0 (ns : list NodeIndex) (es : list StorageData) st : Prop := {
  tk_ok : GraphOk exact st;
  tk_cut : cut st0 ns st;
  tk_entries : entries_at st0 ns es;
  tk_nodup : NoDup ns;
  tk_order i a b : ns !! i = Some b → edge (edge_set (graph st0)) a b → ∃ j, (j < i)%nat ∧ ns !! j = Some a
}.

Lemma Taken_refl st : GraphOk exact st → Taken st [] [] st.
Proof.
  intros Hok. constructor; [done|apply cut_refl|constructor|constructor|]. intros i a b. by rewrite lookup_nil.
Qed.

Lemma Taken_txs_ok st0 ns es st : GraphWf st0 → Taken st0 ns es st → Forall (λ e, tx_ok (transaction e)) es.
Proof.
  intros Hwf [_ _ HF _ _]. apply Forall_forall. intros e (i & Hi)%list_elem_of_lookup_1.
  destruct (Forall2_lookup_r _ _ _ _ _ HF Hi) as (n & _ & Hn).
  by apply (gi_ok _ _ _ _ (gw_inv _ Hwf) n (entry_shape e)).
Qed.

Lemma Taken_take st0 ns es st n d :
  Taken st0 ns es st → nodes (graph st) !! n = Some d → root (edge_set (graph st)) n →
  Taken st0 (ns ++ [n]) (es ++ [d]) (removed_at st n d).
Proof.
  intros [Hok Hcut Hent Hnd Hord] Hn Hroot. pose proof (go_wf _ _ Hok) as Hwf.
  destruct (removed_at_wf st n d Hwf Hn) as (_ & Hs1 & _ & He1 & Hm1). pose proof Hcut as (Hs & He & _).
  specialize (Hs n). rewrite shape_lookup, Hn in Hs. cbn in Hs. case_decide as Hns; [done|]. constructor.
  - by apply removed_at_ok.
  - by eapply cut_remove.
  - apply Forall2_app; [done|]. by repeat constructor.
  - apply NoDup_app. split; [done|]. split; [|apply NoDup_singleton]. by intros x Hx ->%list_elem_of_singleton.
  - intros i a b [Hi|[Hlen Hi]]%lookup_app_Some Hab.
    + destruct (Hord i a b Hi Hab) as (j & Hj & Ha). exists j. split; [done|]. by apply lookup_app_l_Some.
    + apply list_lookup_singleton_Some in Hi as [Hi <-].
      assert (a ∈ ns) as (j & Hj)%list_elem_of_lookup_1.
      { destruct (decide (a ∈ ns)) as [|Ha]; [done|]. exfalso. by apply (Hroot a), He. }
      exists j. split; [|by apply lookup_app_l_Some]. apply lookup_lt_Some in Hj. lia.
Qed.

(** A cut keeps roots and adds only what has lost its last dependency. *)
Lemma cut_root st0 ns st n : cut st0 ns st → root (edge_set (graph st0)) n → root (edge_set (graph st)) n.
Proof. intros (_ & He & _) Hr a Ha. apply He in Ha as [Ha _]. by apply (Hr a). Qed.

Context (c : Constraints) (Hc : constraints_ok c).
Context (st0 : GraphStorage) (Hwf0 : GraphWf st0) (Hids0 : ids_unique (shape (graph st0))).

(** The state in a pass that began at [st1] with [gas1] and [space1] left: the
    entries [l1] are done, and [R] was taken. *)
Record Pass st1 (gas1 space1 nb1 : Z) (l1 : Executables) (s : GatherState) (ns R : list NodeIndex) : Prop := {
  ps_taken : Taken st0 ns (gathered s) (gather_storage s);
  ps_budget : budget c (gathered s) (gas_left s) (space_left s) (nb_left s);
  ps_cut : cut st1 R (gather_storage s);
  ps_done n : n ∈ R → n ∈ snd <$> l1;
  ps_keys : Forall2 (λ n k, ∃ x, shape (graph st1) !! n = Some x ∧ k = shape_key x) R (clean_up_list s);
  ps_none : transactions_to_remove s = [];
  ps_nodup : NoDup (transactions_to_promote s);
  ps_promote m : m ∈ transactions_to_promote s
    ↔ is_Some (shape (graph (gather_storage s)) !! m) ∧ root (edge_set (graph (gather_storage s))) m
      ∧ ¬ root (edge_set (graph st1)) m;
  ps_idle : R = [] → gas_left s = gas1 ∧ space_left s = space1 ∧ nb_left s = nb1
    ∧ ∀ k n x, (k, n) ∈ l1 → shape (graph st1) !! n = Some x → unfit c gas1 space1 x.1
}.

Lemma promote_step st1 R st n d (promote : list NodeIndex) :
  GraphWf st → cut st1 R st → nodes (graph st) !! n = Some d → root (edge_set (graph st1)) n →
  NoDup promote →
  (∀ m, m ∈ promote ↔ is_Some (shape (graph st) !! m) ∧ root (edge_set (graph st)) m
                       ∧ ¬ root (edge_set (graph st1)) m) →
  let promote' := promote ++ filter (λ m, has_dependencies (removed_at st n d) m = false) (outgoing (graph st) n) in
  NoDup promote'
  ∧ ∀ m, m ∈ promote' ↔ is_Some (shape (graph (removed_at st n d)) !! m)
                         ∧ root (edge_set (graph (removed_at st n d))) m ∧ ¬ root (edge_set (graph st1)) m.
Proof.
  intros Hwf Hcut Hn Hroot Hnd Hp. destruct (removed_at_wf st n d Hwf Hn) as (_ & Hs1 & _ & He1 & _).
  pose proof Hcut as (_ & He & _).
  assert (∀ m, edge (edge_set (graph st)) n m → m ≠ n ∧ is_Some (shape (graph st) !! m)) as Hout.
  { intros m Hm. split; [|by apply (gi_dom _ _ _ _ (gw_inv _ Hwf)) in Hm as [_ ?]].
    intros ->. by apply (cut_root _ _ _ _ Hcut Hroot n). }
  assert (∀ m, root (edge_set (graph st)) m → root (edge_set (graph (removed_at st n d))) m) as Hmono.
  { intros m Hr a. rewrite He1, edge_without. intros [Ha _]. by apply (Hr a). }
  split.
  - apply NoDup_app. split; [done|]. split; [|by apply NoDup_filter, outgoing_NoDup, Hwf].
    intros m (_ & Hr & _)%Hp [_ Hm%in_outgoing]%list_elem_of_filter. by apply (Hr n).
  - intros m. rewrite elem_of_app, list_elem_of_filter, Hp, in_outgoing, has_dependencies_false, Hs1.
    fold (root (edge_set (graph (removed_at st n d))) m). split.
    + intros [(Hm & Hr & Hn1)|(Hr & Hm)].
      * rewrite lookup_delete_ne by (by intros ->). auto.
      * destruct (Hout m Hm) as [Hne Hsome]. rewrite lookup_delete_ne by done. split; [done|]. split; [done|].
        intros Hr1. apply He in Hm as [Hm _]. by apply (Hr1 n).
    + destruct (decide (m = n)) as [->|Hne]; [intros (_ & _ & Hx); done|]. rewrite lookup_delete_ne by done.
      intros (Hm & Hr & Hn1). destruct (decide (edge (edge_set (graph st)) n m)) as [He2|He2]; [by right|left].
      split; [done|]. split; [|done]. intros a Ha. apply (Hr a). rewrite He1, edge_without. split; [done|].
      split; [|done]. by intros ->.
Qed.

Lemma gather_one_spec st1 gas1 space1 nb1 l1 s ns R k n x :
  Pass st1 gas1 space1 nb1 l1 s ns R →
  shape (graph st1) !! n = Some x → k = shape_key x → root (edge_set (graph st1)) n → n ∉ snd <$> l1 → 0 < nb_left s →
  ∃ s' ns' R', gather_one c s (k, n) = Some s' ∧ Pass st1 gas1 space1 nb1 (l1 ++ [(k, n)]) s' ns' R'.
Proof.
  intros [Htk Hbu Hcut Hdone Hkeys Hnone Hnd Hp Hidle] Hx -> Hroot Hnl Hnb.
  assert (n ∉ R) as HnR by (by intros ?%Hdone). pose proof Hcut as (Hs & _).
  assert (is_Some (nodes (graph (gather_storage s)) !! n)) as [d Hd].
  { apply shape_is_Some. rewrite Hs, decide_False, Hx by done. by eexists. }
  assert (entry_shape d = x) as <-.
  { specialize (Hs n). rewrite shape_lookup, Hd, decide_False, Hx in Hs by done. by injection Hs. }
  unfold gather_one. rewrite node_weight_nodes, Hd.
  assert (∀ m, m ∈ R → m ∈ snd <$> (l1 ++ [(shape_key (entry_shape d), n)])) as Hdone'.
  { intros m Hm. rewrite fmap_app, elem_of_app. left. by apply Hdone. }
  destruct (decide (unfit c (gas_left s) (space_left s) (transaction d))) as [Hun|Hfit].
  - exists s, ns, R. split.
    { case_decide; [done|]. case_decide as Hg; [done|]. unfold unfit in Hun. lia. }
    constructor; try done. intros HR. destruct (Hidle HR) as (Eg & Es & En & Hall). do 3 (split; [done|]).
    intros k' n' y [Hin|[= -> ->]%list_elem_of_singleton]%elem_of_app Hy; [by eapply Hall|].
    rewrite Hx in Hy. injection Hy as <-. by rewrite <- Eg, <- Es.
  - rewrite decide_False by (unfold unfit in Hfit; lia). rewrite decide_False by (unfold unfit in Hfit; lia).
    rewrite remove_transaction_eq, Hd. cbn [mbind option_bind].
    assert (root (edge_set (graph (gather_storage s))) n) as Hroot' by (by eapply cut_root).
    pose proof (go_wf _ _ (tk_ok _ _ _ _ Htk)) as Hwf.
    destruct (promote_step st1 R (gather_storage s) n d (transactions_to_promote s)) as [Hnd' Hp']; [done..|].
    destruct (removed_at_wf _ n d Hwf Hd) as (_ & Hs1 & _ & He1 & Hm1).
    eexists _, (ns ++ [n]), (R ++ [n]). split; [done|]. constructor; cbn.
    + by apply Taken_take.
    + apply budget_take; [done..| |done|done|by apply (Taken_txs_ok st0 ns _ (gather_storage s))].
      eapply (gi_ok _ _ _ _ (gw_inv _ Hwf) n (entry_shape d)). by rewrite shape_lookup, Hd.
    + by eapply cut_remove.
    + intros m. rewrite fmap_app, !elem_of_app. intros [Hm|Hm]; [left; by apply Hdone|right; done].
    + apply Forall2_app; [done|]. constructor; [|constructor]. by eexists.
    + done.
    + done.
    + done.
    + by intros []%app_nil.
Qed.

Lemma gather_pass_spec st1 gas1 space1 nb1 l2 : ∀ l1 s ns R,
  Pass st1 gas1 space1 nb1 l1 s ns R →
  (∀ k n, (k, n) ∈ l2 → ∃ x, shape (graph st1) !! n = Some x ∧ k = shape_key x ∧ root (edge_set (graph st1)) n) →
  NoDup (snd <$> (l1 ++ l2)) →
  ∃ s' ns' R' l', gather_pass c s l2 = Some s' ∧ Pass st1 gas1 space1 nb1 l' s' ns' R'
    ∧ (l' = l1 ++ l2 ∨ nb_left s' = 0 ∨ gas_left s' = 0 ∨ space_left s' = 0).
Proof.
  induction l2 as [|[k n] l2 IH]; intros l1 s ns R HP Hl2 Hnd; cbn [gather_pass].
  - exists s, ns, R, l1. rewrite app_nil_r. auto.
  - case_decide as Hz; [exists s, ns, R, l1; split; [done|]; split; [done|]; by right|].
    destruct (Hl2 k n ltac:(left)) as (x & Hx & Hk & Hr).
    destruct (gather_one_spec st1 gas1 space1 nb1 l1 s ns R k n x) as (s1 & ns1 & R1 & -> & HP1); try done.
    { rewrite fmap_app, fmap_cons in Hnd. apply NoDup_app in Hnd as (_ & Hd & _). intros Hin. apply (Hd n Hin). left. }
    { pose proof (bu_nb _ _ _ _ _ (ps_budget _ _ _ _ _ _ _ _ HP)). lia. }
    cbn. destruct (IH (l1 ++ [(k, n)]) s1 ns1 R1) as (s' & ns' & R' & l' & -> & HP' & Hend); [done| | |].
    + intros k' n' Hin. apply Hl2. by right.
    + by rewrite <- app_assoc.
    + exists s', ns', R', l'. rewrite <- app_assoc in Hend. auto.
Qed.

Lemma promote_all_spec st ps : ∀ P (l : Executables),
  GraphWf st → ids_unique (shape (graph st)) → SelOk (shape (graph st)) P l → NoDup ps →
  (∀ m, m ∈ ps → is_Some (shape (graph st) !! m) ∧ ¬ P m) →
  ∃ l', fold_panic (promote_or_panic st) l ps = Some l' ∧ SelOk (shape (graph st)) (λ m, P m ∨ m ∈ ps) l'.
Proof.
  induction ps as [|n ps IH]; intros P l Hwf Hids HS Hnd Hps; cbn.
  - eexists. split; [done|]. eapply SelOk_ext; [|exact HS]. intros m x. pose proof (not_elem_of_nil m). tauto.
  - apply NoDup_cons in Hnd as [Hn Hnd]. destruct (Hps n ltac:(left)) as [[x Hx] HnP].
    pose proof Hx as Hx'. rewrite shape_lookup in Hx'. apply fmap_Some in Hx' as (d & Hd & ->).
    assert (promote_or_panic st l n = Some (btree_insert (shape_key (entry_shape d)) n l)) as ->
      by (unfold promote_or_panic; by rewrite node_weight_nodes, Hd).
    cbn.
    destruct (IH (λ m, P m ∨ m = n) (btree_insert (shape_key (entry_shape d)) n l)) as (l' & -> & HS'); [done|done| |done| |].
    + apply SelOk_insert; [done|apply Hwf|done..].
    + intros m Hm. destruct (Hps m ltac:(by right)) as [? ?]. split; [done|]. intros [?| ->]; done.
    + eexists. split; [done|]. eapply SelOk_ext; [|exact HS']. intros m x. rewrite elem_of_cons. tauto.
Qed.

(** The selection after a pass. *)
Lemma pass_selection st1 gas1 space1 nb1 l s ns R (self : Executables) :
  ids_unique (shape (graph st1)) → GraphWf st1 →
  Pass st1 gas1 space1 nb1 l s ns R → SelOk (shape (graph st1)) (root (edge_set (graph st1))) self →
  ∃ self', fold_panic (promote_or_panic (gather_storage s))
             (foldl (λ l k, btree_remove k l) self (clean_up_list s)) (transactions_to_promote s) = Some self'
    ∧ SelOk (shape (graph (gather_storage s))) (root (edge_set (graph (gather_storage s)))) self'.
Proof.
  intros Hids Hwf1 HP HS. pose proof (ps_cut _ _ _ _ _ _ _ _ HP) as Hcut. pose proof Hcut as (Hs & He & _).
  pose proof (ps_promote _ _ _ _ _ _ _ _ HP) as Hp. pose proof (go_wf _ _ (tk_ok _ _ _ _ (ps_taken _ _ _ _ _ _ _ _ HP))) as Hwf.
  destruct (promote_all_spec (gather_storage s) (transactions_to_promote s) (root (edge_set (graph st1)))
              (foldl (λ l k, btree_remove k l) self (clean_up_list s))) as (self' & Hrun & HS').
  - done.
  - rewrite (cut_shape _ _ _ Hcut). by apply ids_unique_remove.
  - eapply SelOk_ext; [|eapply (SelOk_remove_keys _ Hids (root (edge_set (graph st1)))); [apply HP|done]].
    intros n x. cbn. rewrite Hs. case_decide; naive_solver.
  - apply HP.
  - intros m (? & _ & ?)%Hp. done.
  - exists self'. split; [done|]. eapply SelOk_ext; [|exact HS'].
    intros n x. cbn. split.
    + intros [Hn [Hr|(_ & Hr & _)%Hp]]; split; try done. by eapply cut_root.
    + intros [Hn Hr]. split; [done|].
      destruct (decide (n ∈ transactions_to_promote s)) as [|Hnp]; [by right|left].
      intros a Ha. apply Hnp, Hp. split; [by eexists|]. split; [done|]. intros Hr1. by apply (Hr1 a).
Qed.

(** Nothing that is left can still be taken. *)
Definition exhausted (gas space nb : Z) st : Prop :=
  gas = 0 ∨ space = 0 ∨ nb = 0
  ∨ ∀ n x, shape (graph st) !! n = Some x → root (edge_set (graph st)) n → unfit c gas space x.1.

Lemma pass_smaller st1 gas1 space1 nb1 l s ns R :
  Pass st1 gas1 space1 nb1 l s ns R → R ≠ [] →
  (size (nodes (graph (gather_storage s))) < size (nodes (graph st1)))%nat.
Proof.
  intros HP HR. destruct (ps_cut _ _ _ _ _ _ _ _ HP) as (Hs & _). pose proof (ps_keys _ _ _ _ _ _ _ _ HP) as Hk.
  destruct R as [|n R]; [done|]. apply Forall2_cons_inv_l in Hk as (k & ks & (x & Hx & _) & _ & _).
  rewrite <- !size_dom. apply subset_size. split.
  - intros m. rewrite !elem_of_dom, <- !shape_is_Some, Hs. case_decide; [by intros []|done].
  - intros Hsub. assert (n ∈ dom (nodes (graph st1))) as Hn by (apply elem_of_dom, shape_is_Some; by eexists).
    apply Hsub, elem_of_dom, shape_is_Some in Hn. rewrite Hs, decide_True in Hn by left. by destruct Hn.
Qed.

Lemma gather_loop_spec fuel : ∀ gas space nb res (self : Executables) st ns,
  Taken st0 ns res st → budget c res gas space nb →
  SelOk (shape (graph st)) (root (edge_set (graph st))) self → (size (nodes (graph st)) < fuel)%nat →
  ∃ res' self' st' ns' gas' space' nb',
    gather_loop fuel c gas space nb res self st = Some (res', self', st') ∧ Taken st0 ns' res' st'
    ∧ budget c res' gas' space' nb' ∧ SelOk (shape (graph st')) (root (edge_set (graph st'))) self'
    ∧ exhausted gas' space' nb' st'.
Proof.
  induction fuel as [|fuel IH]; intros gas space nb res self st ns Htk Hbu HS Hf; [lia|]. cbn [gather_loop].
  pose proof (go_wf _ _ (tk_ok _ _ _ _ Htk)) as Hwf.
  assert (ids_unique (shape (graph st))) as Hids.
  { rewrite (cut_shape _ _ _ (tk_cut _ _ _ _ Htk)). by apply ids_unique_remove. }
  case_decide as Hgo.
  2: { do 7 eexists. split; [done|]. split; [done|]. split; [done|]. split; [done|].
       unfold exhausted. pose proof (bu_gas _ _ _ _ _ Hbu). pose proof (bu_space _ _ _ _ _ Hbu). pose proof (bu_nb _ _ _ _ _ Hbu).
       destruct (decide (gas = 0)) as [|Hng]; [by left|]. destruct (decide (space = 0)) as [|Hns]; [tauto|].
       destruct (decide (nb = 0)) as [|Hnn]; [tauto|].
       do 3 right. intros n x Hn Hr. assert ((shape_key x, n) ∈ self) as Hin by (apply (se_mem _ _ _ HS); eauto).
       destruct self; [by apply not_elem_of_nil in Hin|]. exfalso. apply Hgo. repeat split; [lia..|done]. }
  destruct (gather_pass_spec st gas space nb self [] (MkGatherState gas space nb res st [] [] []) ns [])
    as (s & ns' & R & l' & -> & HP & Hend).
  - constructor; cbn; [done|done|apply cut_refl|done|constructor|done|constructor| |].
    + intros m. split; [by intros ?%not_elem_of_nil|]. by intros (_ & ? & []).
    + intros _. split; [done|]. split; [done|]. split; [done|]. by intros ??? ?%not_elem_of_nil.
  - intros k n Hin. by apply (se_mem _ _ _ HS).
  - by eapply (SelOk_nodup _ (root (edge_set (graph st)))).
  - cbn [mbind option_bind]. rewrite (ps_none _ _ _ _ _ _ _ _ HP). cbn [foldl].
    pose proof (ps_cut _ _ _ _ _ _ _ _ HP) as (Hs & He & _).
    assert (R = [] → ∀ n x, shape (graph (gather_storage s)) !! n = Some x ∧ root (edge_set (graph (gather_storage s))) n
              ↔ shape (graph st) !! n = Some x ∧ root (edge_set (graph st)) n) as Hsame.
    { intros -> n x. rewrite Hs, decide_False by (by apply not_elem_of_nil). unfold root. setoid_rewrite He.
      pose proof (not_elem_of_nil (A := NodeIndex)). naive_solver. }
    destruct (pass_selection st gas space nb l' s ns' R self) as (self' & Hrun & HS'); [done..|].
    case_decide as Hidle.
    + destruct Hidle as [Hclean Hpro]. pose proof (ps_keys _ _ _ _ _ _ _ _ HP) as Hk. rewrite Hclean in Hk.
      apply Forall2_nil_inv_r in Hk as ->. destruct (ps_idle _ _ _ _ _ _ _ _ HP eq_refl) as (Eg & Es & En & Hall).
      rewrite Eg, Es, En in Hend. destruct Hend as [->|Hz]; [|lia].
      exists (gathered s), self, (gather_storage s), ns', (gas_left s), (space_left s), (nb_left s).
      split; [done|]. split; [apply HP|]. split; [apply HP|]. split.
      { eapply SelOk_ext; [|exact HS]. intros n x. symmetry. by apply Hsame. }
      do 3 right. intros n x Hn Hr. destruct (proj1 (Hsame eq_refl n x) (conj Hn Hr)) as [Hn1 Hr1]. rewrite Eg, Es.
      apply (Hall (shape_key x) n); [|done]. apply (se_mem _ _ _ HS). eauto.
    + rewrite Hrun. cbn. apply (IH _ _ _ _ _ _ ns'); [apply HP|apply HP|done|].
      assert (R ≠ []) as HR.
      { intros ->. apply Hidle. split; [apply (Forall2_nil_inv_l _ _ (ps_keys _ _ _ _ _ _ _ _ HP))|].
        destruct (transactions_to_promote s) as [|m l] eqn:Hm; [done|].
        destruct (proj1 (ps_promote _ _ _ _ _ _ _ _ HP m)) as ([x Hx] & Hr & Hnr); [rewrite Hm; left|].
        exfalso. apply Hnr, (proj1 (Hsame eq_refl m x) (conj Hx Hr)). }
      pose proof (pass_smaller _ _ _ _ _ _ _ _ HP HR). lia.
Qed.
End gather.
