(* ===== verification/TxPoolFacts.v ===== *)
(** * The transaction pool keeps its invariant

    [PoolOk] ties the graph, the tables and the selection of the pool
    together.  The operations of [pool.rs] are shown to preserve it without a
    panic, and each gets a lemma that says which transactions it adds and
    removes. *)
From stdpp Require Import sorting.
From S2P Require Import Prelude FuelTypes TxPoolTypes TxPoolGraph TxPool TxPoolForest TxPoolGraphFacts.
From S2P Require Import TxPoolTables TxPoolSelection.

Section pool_facts.
Context `{SG : StableDiGraph} `{SL : !StableDiGraphLaws} `{HO : HashOrder} (exact : Prop).
Implicit Types (p : Pool) (st : GraphStorage).

Definition txs p : Shape := shape (graph (storage p)).
Definition deps p : Edges := edge_set (graph (storage p)).

Record PoolOk p : Prop := {
  po_graph : GraphOk exact (storage p);
  po_tables : Tables exact (txs p) p;
  po_selection : SelOk (txs p) (root (deps p)) (selection_algorithm p)
}.

(** What removals leave alone. *)
Definition same_env p p' : Prop :=
  config p' = config p ∧ extracted_outputs p' = extracted_outputs p ∧ pool_stats p' = pool_stats p.

(** ** Cuts *)
Lemma cut_trans st0 ns1 st1 ns2 st2 : cut st0 ns1 st1 → cut st1 ns2 st2 → cut st0 (ns1 ++ ns2) st2.
Proof.
  intros (Hs1 & He1 & Hm1) (Hs2 & He2 & Hm2). split; [|split; [|congruence]].
  - intros n. rewrite Hs2, Hs1. destruct (decide (n ∈ ns1)), (decide (n ∈ ns2)); destruct (decide _) as [H|H]; try done;
      rewrite elem_of_app in H; tauto.
  - intros a b. rewrite He2, He1, !not_elem_of_app. tauto.
Qed.

Lemma entries_at_cut st0 ns1 st1 ns2 es :
  cut st0 ns1 st1 → entries_at st1 ns2 es → entries_at st0 ns2 es ∧ ∀ n, n ∈ ns2 → n ∉ ns1.
Proof.
  intros (Hs & _) HF. split.
  - eapply Forall2_impl; [exact HF|]. intros n e. cbn. rewrite Hs. by case_decide.
  - intros n (i & Hi)%list_elem_of_lookup_1. destruct (Forall2_lookup_l _ _ _ _ _ HF Hi) as (e & _ & He).
    rewrite Hs in He. by case_decide.
Qed.

(** A cut that is closed downwards keeps the paths to what it keeps. *)
Lemma reach_cut st0 ns st a m :
  cut st0 ns st → (∀ x y, x ∈ ns → edge (edge_set (graph st0)) x y → y ∈ ns) → m ∉ ns →
  reach (edge_set (graph st0)) a m ↔ reach (edge_set (graph st)) a m ∧ (a ∉ ns).
Proof.
  intros (_ & He & _) Hcl Hm. split.
  - intros Hr. induction Hr as [x|x y z Hxy Hyz IH]; [by split; [apply rtc_refl|]|].
    destruct (IH Hm) as [Hr Hy]. assert (x ∉ ns) as Hx by (intros Hx; by apply Hy, (Hcl x)).
    split; [|done]. eapply rtc_l; [|done]. by apply He.
  - intros [Hr _]. eapply reach_mono; [|exact Hr]. intros [x y] Hxy. by apply (He x y) in Hxy as [? _].
Qed.

(** ** Removing subtrees *)
Lemma forget_entries_frame es : ∀ p,
  let p' := foldl forget_entry p es in
  storage p' = storage p ∧ same_env p p'
  ∧ selection_algorithm p' = foldl (λ l e, on_removed_transaction e l) (selection_algorithm p) es.
Proof.
  induction es as [|e es IH]; intros p; cbn; [done|]. destruct (IH (forget_entry p e)) as (-> & (? & ? & ?) & ->). done.
Qed.

(** The nodes that the removal of the subtrees of [roots] takes out. *)
Definition removes p (roots ns : list NodeIndex) (es : list StorageData) p' : Prop :=
  cut (storage p) ns (storage p') ∧ entries_at (storage p) ns es ∧ NoDup ns
  ∧ (∀ m, m ∈ ns ↔ ∃ r, r ∈ roots ∧ is_Some (txs p !! r) ∧ reach (deps p) r m) ∧ same_env p p'.

Lemma removes_closed p roots ns es p' x y :
  removes p roots ns es p' → x ∈ ns → edge (deps p) x y → y ∈ ns.
Proof.
  intros (_ & _ & _ & Hns & _) (r & ? & ? & Hr)%Hns Hxy. apply Hns. exists r. do 2 (split; [done|]). by eapply rtc_r.
Qed.

Lemma with_storage_tables T s p : Tables exact T p → Tables exact T (with_storage s p).
Proof. by intros []. Qed.

Lemma remove_subtree_spec acc p n :
  PoolOk p →
  ∃ es p' ns, remove_subtree (acc, p) n = Some (acc ++ es, p') ∧ PoolOk p' ∧ removes p [n] ns es p'.
Proof.
  intros [Hg Ht Hs]. unfold remove_subtree, remove_transaction_and_dependents_subtree.
  destruct (bfs_spec exact (storage p) n Hg) as (es & st & ns & -> & Hg' & Hcut & Hent & Hnd & Hns).
  cbn [mbind option_bind]. unfold update_components_and_caches_on_removal.
  destruct (forget_entries_frame es (with_storage st p)) as (Est & (E1 & E2 & E3) & Esel).
  eexists es, _, ns. split; [done|]. cbn in Est, E1, E2, E3, Esel.
  assert (txs (foldl forget_entry (with_storage st p) es) = remove_nodes ns (txs p)) as ET.
  { unfold txs. rewrite Est. by apply cut_shape. }
  assert (removes p [n] ns es (foldl forget_entry (with_storage st p) es)) as Hrem.
  { unfold removes. rewrite Est. do 3 (split; [done|]). split; [|done]. intros m. rewrite Hns. unfold txs, deps.
    setoid_rewrite list_elem_of_singleton. naive_solver. }
  split; [|exact Hrem]. constructor.
  - by rewrite Est.
  - rewrite ET. apply tables_fold; [apply forget_entry_tables|by apply with_storage_tables|done|done].
  - rewrite Esel. eapply SelOk_ext; [|eapply (SelOk_remove_all (txs p)); [by eapply Tables_ids_unique|exact Hent|exact Hs]].
    intros m x. rewrite ET, remove_nodes_lookup. cbn. unfold deps. rewrite Est. destruct Hcut as (_ & He & _).
    case_decide as Hm; [naive_solver|]. unfold root. setoid_rewrite He. split; [naive_solver|].
    intros [Hx Hr]. split; [done|]. split; [|done]. intros a Ha. apply (Hr a). split; [done|]. split; [|done].
    intros Hans. by apply Hm, (removes_closed _ _ _ _ _ a m Hrem).
Qed.

Lemma removes_nil p : removes p [] [] [] p.
Proof.
  split; [apply cut_refl|]. split; [constructor|]. split; [constructor|]. split; [|done].
  intros m. split; [by intros ?%not_elem_of_nil|]. by intros (r & ?%not_elem_of_nil & _).
Qed.

Lemma removes_app p roots1 ns1 es1 p1 roots2 ns2 es2 p2 :
  removes p roots1 ns1 es1 p1 → removes p1 roots2 ns2 es2 p2 →
  removes p (roots1 ++ roots2) (ns1 ++ ns2) (es1 ++ es2) p2.
Proof.
  intros Hr1 Hr2. pose proof (λ x y, removes_closed _ _ _ _ _ x y Hr1) as Hcl.
  destruct Hr1 as (Hc1 & Hf1 & Hn1 & Hm1 & (? & ? & ?)), Hr2 as (Hc2 & Hf2 & Hn2 & Hm2 & (? & ? & ?)).
  destruct (entries_at_cut _ _ _ _ _ Hc1 Hf2) as [Hf2' Hap]. unfold removes.
  split; [by eapply cut_trans|]. split; [by apply Forall2_app|]. split.
  { apply NoDup_app. split; [done|]. split; [|done]. intros x Hx Hx2. by apply (Hap x Hx2). }
  split; [|repeat split; congruence]. intros m. rewrite elem_of_app, Hm1.
  setoid_rewrite elem_of_app. destruct Hc1 as (Hs1 & He1 & ?). split.
  - intros [(r & ? & ? & ?)|Hm]; [eauto|]. assert (m ∉ ns1) as Hmn by (by apply Hap).
    apply Hm2 in Hm as (r & Hr & Hx & Hrm). exists r. split; [by right|]. unfold txs in Hx. rewrite Hs1 in Hx.
    case_decide as Hrn; [by destruct Hx|]. split; [done|]. eapply reach_cut; [by split|by apply Hcl|done|done].
  - intros (r & [Hr|Hr] & Hx & Hrm); [left; eauto|].
    destruct (decide (m ∈ ns1)) as [Hin|Hin]; [left; by apply Hm1|right].
    apply (reach_cut (storage p) ns1 (storage p1)) in Hrm as [Hrm Hrn]; [|by split|by apply Hcl|done].
    apply Hm2. exists r. split; [done|]. split; [|done]. unfold txs. by rewrite Hs1, decide_False.
Qed.

Lemma remove_subtrees_spec roots : ∀ acc p,
  PoolOk p →
  ∃ es p' ns, fold_panic remove_subtree (acc, p) roots = Some (acc ++ es, p') ∧ PoolOk p' ∧ removes p roots ns es p'.
Proof.
  induction roots as [|n roots IH]; intros acc p Hp; cbn [fold_panic].
  - exists [], p, []. rewrite app_nil_r. split; [done|]. split; [done|apply removes_nil].
  - destruct (remove_subtree_spec acc p n Hp) as (es1 & p1 & ns1 & -> & Hp1 & Hr1). cbn.
    destruct (IH (acc ++ es1) p1 Hp1) as (es2 & p2 & ns2 & -> & Hp2 & Hr2).
    exists (es1 ++ es2), p2, (ns1 ++ ns2). rewrite app_assoc. split; [done|]. split; [done|].
    by apply (removes_app p [n] ns1 es1 p1).
Qed.

(** ** The checks before an insertion *)
Lemma created_coins_lookup tx u :
  u ∈ created_coins tx → ∃ to amount asset, pt_outputs tx !! Z.to_nat u.2 = Some (OutputCoin to amount asset).
Proof.
  unfold created_coins, enumerate. intros ([i o] & Hin & Ho)%list_elem_of_omap. cbn in Ho.
  apply list_elem_of_lookup_1 in Hin as [j Hj]. apply lookup_zip_Some in Hj as [Hi Hj].
  apply lookup_seqZ in Hi as [-> _]. destruct o; try done. injection Ho as <-. cbn.
  replace (Z.to_nat (0 + Z.of_nat j)) with j by lia. eauto.
Qed.

Lemma validate_input_total st ps extracted v i : GraphWf st → is_Some (validate_input st ps extracted v i).
Proof.
  intros [_ Hinv].
  assert (∀ u n d, coins_creators st !! u = Some n → nodes (graph st) !! n = Some d →
            is_Some (pt_outputs (transaction d) !! Z.to_nat u.2)) as Hout.
  { intros u n d Hc Hd. apply (gi_cc _ _ _ _ Hinv) in Hc as (x & Hx & Hu). rewrite shape_lookup, Hd in Hx.
    injection Hx as <-. apply created_coins_lookup in Hu as (? & ? & ? & Hu). by eexists. }
  destruct i as [ci|ci|x|m|m|m|m]; cbn.
  1, 2: destruct (coins_creators st !! ci_utxo_id ci) as [n|] eqn:Hc.
  1, 3: rewrite node_weight_nodes; destruct (nodes (graph st) !! n) as [d|] eqn:Hd; [|by eexists];
    destruct (Hout _ _ _ Hc Hd) as [o ->]; try destruct o.
  all: try by eexists.
  all: repeat (match goal with |- context [match ?x with _ => _ end] => destruct x end; try by eexists).
Qed.

Lemma validate_inputs_total st tx ps extracted v : GraphWf st → is_Some (validate_inputs st tx ps extracted v).
Proof.
  intros Hwf. unfold validate_inputs. generalize (@nil MissingInput). induction (pt_inputs tx) as [|i l IH]; intros ms; cbn.
  - destruct ms; by eexists.
  - destruct (validate_input_total st ps extracted v i Hwf) as [r ->]. destruct r as [[m|]|e]; [apply IH..|by eexists].
Qed.

(** [tx] pays more per gas than the transaction at a node and all that
    depends on it. *)
Definition better_than (tx : PoolTransaction) (d : StorageData) : Prop :=
  dependents_cumulative_tip d * pt_max_gas tx < pt_tip tx * dependents_cumulative_gas d.

Lemma ratio_gt_iff a b : ratio_gt a b = true ↔ b.1 * a.2 < a.1 * b.2.
Proof. unfold ratio_gt, ratio_cmp. destruct (Z.compare_spec (a.1 * b.2) (b.1 * a.2)); split; (done || lia). Qed.

Lemma ratio_new_some a b r : ratio_new a b = Some r → r = (a, b).
Proof. unfold ratio_new. case_decide; [done|]. by intros [= <-]. Qed.

Lemma check_collisions_ok tx st (c : Collisions) l :
  check_collisions tx st c l = Some (Ok ()) → ∀ n, n ∈ l → ∃ d, nodes (graph st) !! n = Some d ∧ better_than tx d.
Proof.
  induction l as [|m l IH]; cbn [check_collisions]; [by intros _ n ?%not_elem_of_nil|]. unfold is_better_than_collision.
  rewrite node_weight_nodes. destruct (ratio_new (pt_tip tx) _) as [r|] eqn:Hr; [|done]. cbn [mbind option_bind].
  destruct (nodes (graph st) !! m) as [d|] eqn:Hd; [|done].
  destruct (ratio_new (dependents_cumulative_tip d) _) as [r'|] eqn:Hr'; [|done]. cbn [mbind option_bind].
  apply ratio_new_some in Hr, Hr'. subst r r'. destruct (ratio_gt _ _) eqn:Hgt; [|by destruct (unwrap_or _ _)].
  intros Hl n [->|Hn]%elem_of_cons; [|by apply IH]. exists d. split; [done|]. by apply ratio_gt_iff in Hgt.
Qed.

(** With gas in every counter the comparisons do not panic. *)
Definition has_gas st : Prop := ∀ n d, nodes (graph st) !! n = Some d → dependents_cumulative_gas d ≠ 0.

Lemma ratio_new_total a b : b ≠ 0 → ratio_new a b = Some (a, b).
Proof. intros Hb. unfold ratio_new. by rewrite decide_False. Qed.

Lemma check_collisions_total tx st (c : Collisions) l :
  pt_max_gas tx ≠ 0 → has_gas st → is_Some (check_collisions tx st c l).
Proof.
  intros Htx Hst. induction l as [|m l IH]; cbn [check_collisions]; [by eexists|]. unfold is_better_than_collision.
  rewrite ratio_new_total, node_weight_nodes by done. cbn [mbind option_bind].
  destruct (nodes (graph st) !! m) as [d|] eqn:Hd; [|by eexists]. rewrite ratio_new_total by (by eapply Hst).
  cbn [mbind option_bind]. destruct (ratio_gt _ _); [done|]. destruct (unwrap_or _ _); by eexists.
Qed.

(** What the checks establish of a transaction that is let in. *)
Record insertable p (tx : PoolTransaction) (ps : PersistentStorage) (can : CanStoreTransaction) : Prop := {
  in_gas : pt_max_gas tx ≠ 0;
  in_fresh : tx_id_to_storage_id p !! pt_id tx = None;
  in_inputs : validate_inputs (storage p) tx ps (extracted_outputs p) (utxo_validation (config p)) = Some (Ok ());
  in_checked : checked_ok (storage p) tx (checked_transaction can);
  in_collisions n : n ∈ dom (collisions can) ↔ ∃ x, txs p !! n = Some x ∧ conflict x.1 tx;
  in_unspent u : u ∈ created_coins tx → coins_spenders (collision_manager p) !! u = None;
  in_apart n : n ∈ dom (collisions can) → n ∉ all_dependencies (checked_transaction can);
  in_better n : n ∈ dom (collisions can) → ∃ d, nodes (graph (storage p)) !! n = Some d ∧ better_than tx d;
  in_single : all_dependencies (checked_transaction can) ≠ ∅ → (size (collisions can) ≤ 1)%nat;
  in_space : (to_remove can = [] ∧ can_fit_into_pool p (checked_transaction can) = Ok EnoughSpace)
    ∨ (all_dependencies (checked_transaction can) = ∅
       ∧ ∃ left_, can_fit_into_pool p (checked_transaction can) = Ok (NoSpace left_)
                  ∧ find_free_space p left_ (checked_transaction can) = Some (Ok (to_remove can)))
}.

Lemma check_requirements_ok (c : Collisions) tx has st :
  check_collision_requirements c tx has st = Some (Ok ()) →
  (has = true → (size c ≤ 1)%nat) ∧ ∀ n, n ∈ dom c → ∃ d, nodes (graph st) !! n = Some d ∧ better_than tx d.
Proof.
  unfold check_collision_requirements. case_decide as Hm; [done|]. intros Hc. split; [intros ->; destruct (decide (1 < size c)%nat); [by destruct Hm|lia]|].
  intros n Hn. apply (check_collisions_ok _ _ _ _ Hc). by rewrite iter_set_perm, elem_of_elements.
Qed.

Lemma can_insert_checked_ok p tx c checked can :
  checked_tx checked = tx → can_insert_checked p tx c checked = Some (Ok can) →
  checked_transaction can = checked ∧ collisions can = c
  ∧ (∀ n, n ∈ dom c → n ∉ all_dependencies checked)
  ∧ (∀ n, n ∈ dom c → ∃ d, nodes (graph (storage p)) !! n = Some d ∧ better_than tx d)
  ∧ (all_dependencies checked ≠ ∅ → (size c ≤ 1)%nat)
  ∧ ((to_remove can = [] ∧ can_fit_into_pool p checked = Ok EnoughSpace)
     ∨ (all_dependencies checked = ∅ ∧ ∃ left_, can_fit_into_pool p checked = Ok (NoSpace left_)
                                                ∧ find_free_space p left_ checked = Some (Ok (to_remove can)))).
Proof.
  intros Htx. unfold can_insert_checked. case_decide as Hdep; [done|].
  assert (∀ n, n ∈ dom c → n ∉ all_dependencies checked) as Hap.
  { intros n Hn Ha. apply Hdep, Exists_exists. exists n. by rewrite iter_set_perm, elem_of_elements. }
  destruct (check_collision_requirements _ _ _ _) as [[[]|]|] eqn:Hreq; [|done..]. apply check_requirements_ok in Hreq as [Hsz Hb].
  rewrite Htx in Hb. rewrite bool_decide_eq_true in Hsz.
  destruct (can_fit_into_pool p checked) as [[|left_]|] eqn:Hfit; [| |done].
  - intros [= <-]. cbn. auto 10.
  - destruct (find_free_space p left_ checked) as [[l|]|] eqn:Hl; [|done..]. intros [= <-]. cbn.
    do 5 (split; [done|]). right. split; [|eauto]. unfold can_fit_into_pool in Hfit.
    destruct (within_limits _ _); [done|]. case_decide as Hd; [done|]. done.
Qed.

Lemma can_insert_spec p tx ps can :
  PoolOk p → can_insert_transaction p tx ps = Some (Ok can) → insertable p tx ps can.
Proof.
  intros [Hg Ht _]. unfold can_insert_transaction.
  case_decide as Hgas; [done|]. destruct (contains p (pt_id tx)) eqn:Hcon; [done|].
  destruct (check_blacklisting _ tx) as [[]|]; [|done]. destruct (check_blob_does_not_exist tx ps) as [[]|]; [|done].
  destruct (validate_inputs (storage p) tx ps _ _) as [[[]|]|] eqn:Hv; [|done..].
  destruct (find_collisions (collision_manager p) tx) as [c|] eqn:Hc; [|done].
  destruct (can_store_spec (storage p) tx (go_wf _ _ Hg)) as (rs & -> & Hrs). destruct rs as [checked|]; [|done].
  intros Hcan. specialize (Hrs checked eq_refl).
  apply can_insert_checked_ok in Hcan as (<- & <- & Hap & Hb & Hsz & Hsp); [|apply Hrs].
  apply (find_collisions_ok (txs p)) in Hc as [Hdom Hun]; [|apply Ht].
  constructor; try done. unfold contains in Hcon. apply bool_decide_eq_false in Hcon. by apply eq_None_not_Some.
Qed.

Lemma free_space_loop_total p c r l : ∀ left_ acc,
  has_gas (storage p) → is_Some (free_space_loop p c r left_ acc l).
Proof.
  induction l as [|m l IH]; intros left_ acc Hst; cbn [free_space_loop]; destruct (within_limits _ _); try by eexists.
  case_decide; [by apply IH|]. rewrite node_weight_nodes. destruct (nodes (graph (storage p)) !! m) as [d|] eqn:Hd; [|by apply IH].
  rewrite ratio_new_total by (by eapply Hst). destruct (ratio_gt _ _); [by eexists|by apply IH].
Qed.

Lemma can_insert_total p tx ps :
  PoolOk p → has_gas (storage p) → is_Some (can_insert_transaction p tx ps).
Proof.
  intros [Hg Ht _] Hst. unfold can_insert_transaction.
  case_decide as Hgas; [by eexists|]. destruct (contains p (pt_id tx)); [by eexists|].
  destruct (check_blacklisting _ tx); [|by eexists]. destruct (check_blob_does_not_exist tx ps); [|by eexists].
  destruct (validate_inputs_total (storage p) tx ps (extracted_outputs p) (utxo_validation (config p)) (go_wf _ _ Hg)) as [[|] ->];
    [|by eexists].
  destruct (find_collisions (collision_manager p) tx) as [c|]; [|by eexists].
  destruct (can_store_spec (storage p) tx (go_wf _ _ Hg)) as (rs & -> & Hrs). destruct rs as [checked|]; [|by eexists].
  specialize (Hrs checked eq_refl). unfold can_insert_checked. case_decide; [by eexists|].
  unfold check_collision_requirements. rewrite (co_tx _ _ _ Hrs). case_decide; [by eexists|].
  destruct (check_collisions_total tx (storage p) c (iter_set (dom c)) Hgas Hst) as [[|] ->]; [|by eexists].
  destruct (can_fit_into_pool p checked) as [[|left_]|]; [by eexists| |by eexists].
  unfold find_free_space. rewrite (co_tx _ _ _ Hrs), ratio_new_total by done. cbn [mbind option_bind].
  destruct (free_space_loop_total p checked (pt_tip tx, pt_max_gas tx) (get_less_worth_txs (selection_algorithm p)) left_ [] Hst)
    as [[|] ->]; by eexists.
Qed.

(** ** Storing a transaction *)

(** A transaction as the type of its fields admits it; it does not spend its
    own outputs, because its id is a hash that covers its inputs. *)
Definition valid_tx (tx : PoolTransaction) : Prop :=
  in_range u64 (pt_tip tx) ∧ in_range u64 (pt_max_gas tx) ∧ in_range usize (pt_metered_bytes_size tx)
  ∧ ∀ u, u ∈ coin_inputs tx → u.1 ≠ pt_id tx.
(** The sums over the pool and [tx] fit into [u64]. *)
Definition room p (tx : PoolTransaction) : Prop := ∀ q, total (txs p) q + weight q tx ≤ int_max u64.

Lemma valid_tx_ok tx : valid_tx tx → pt_max_gas tx ≠ 0 → tx_ok tx.
Proof. unfold valid_tx, in_range. cbn [int_min u64 usize unsigned]. intros (? & ? & ? & ?) ?. constructor; (done || lia). Qed.

Lemma total_remove T ns q : txs_ok T → total (remove_nodes ns T) q ≤ total T q.
Proof.
  intros Hok. etrans; [|apply (total_sub T q (dom (remove_nodes ns T)) Hok)].
  - unfold total. apply Z.eq_le_incl, set_sum_ext. intros n [x Hx]%elem_of_dom. unfold weight_at. rewrite Hx.
    rewrite remove_nodes_lookup in Hx. case_decide; [done|]. by rewrite Hx.
  - intros n [x Hx]%elem_of_dom. apply elem_of_dom. rewrite remove_nodes_lookup in Hx. case_decide; [done|]. by eexists.
Qed.

Lemma creator_provides st tx i n :
  GraphWf st → i ∈ pt_inputs tx → creator st i = Some n → ∃ x, shape (graph st) !! n = Some x ∧ provides x.1 tx.
Proof.
  intros [_ Hinv] Hi Hc.
  assert (∀ u, coins_creators st !! u = Some n → u ∈ coin_inputs tx →
            ∃ x, shape (graph st) !! n = Some x ∧ provides x.1 tx) as Hcoin.
  { intros u Hu Hin. apply (gi_cc _ _ _ _ Hinv) in Hu as (x & Hx & Hu). exists x. split; [done|]. left. eauto. }
  destruct i as [ci|ci|xi|?|?|?|?]; cbn in Hc; try done.
  - apply (Hcoin _ Hc). apply list_elem_of_omap. by exists (InputCoinSigned ci).
  - apply (Hcoin _ Hc). apply list_elem_of_omap. by exists (InputCoinPredicate ci).
  - apply (gi_ct _ _ _ _ Hinv) in Hc as (x & Hx & Hu). exists x. split; [done|]. right. exists (xi_contract_id xi).
    split; [done|]. apply list_elem_of_omap. by exists (InputContract xi).
Qed.

Lemma coin_input_creator tx u : u ∈ coin_inputs tx → ∃ i, i ∈ pt_inputs tx ∧ ∀ st, creator st i = coins_creators st !! u.
Proof.
  intros (i & Hi & Hu)%list_elem_of_omap. exists i. split; [done|]. intros st.
  destruct i; cbn in Hu; try done; by injection Hu as <-.
Qed.

Section insertion.
Context p tx ps can (Hp : PoolOk p) (Hin : insertable p tx ps can).
Context roots ns es p1 (Hrem : removes p roots ns es p1) (Hp1 : PoolOk p1).
Context (Hroots : ∀ r, r ∈ roots → r ∉ all_dependencies (checked_transaction can)).
Context (Hcoll : ∀ n, n ∈ dom (collisions can) → n ∈ roots).
Let c := checked_transaction can.

Lemma removed_apart n : n ∈ ns → n ∉ all_dependencies c.
Proof.
  destruct Hrem as (_ & _ & _ & Hns & _). intros (r & Hr & _ & Hrn)%Hns Hn. apply (Hroots r Hr).
  apply (co_all _ _ _ (in_checked _ _ _ _ Hin)) in Hn as (d & Hd & Hnd).
  apply (co_all _ _ _ (in_checked _ _ _ _ Hin)). exists d. split; [done|]. unfold reach in *. by etrans.
Qed.

Lemma direct_all d : d ∈ direct_dependencies c → d ∈ all_dependencies c.
Proof. intros Hd. apply (co_all _ _ _ (in_checked _ _ _ _ Hin)). exists d. split; [done|apply rtc_refl]. Qed.

Lemma kept n x : txs p1 !! n = Some x ↔ txs p !! n = Some x ∧ n ∉ ns.
Proof. destruct Hrem as ((Hs & _) & _). unfold txs. rewrite Hs. case_decide; naive_solver. Qed.

Lemma no_conflict_left n x : txs p1 !! n = Some x → ¬ conflict x.1 tx.
Proof.
  intros [Hx Hn]%kept Hc. apply Hn. destruct Hrem as (_ & _ & _ & Hns & _). apply Hns. exists n.
  split; [|split; [by eexists|apply rtc_refl]]. apply Hcoll, (in_collisions _ _ _ _ Hin). eauto.
Qed.

Lemma storable_after now :
  tx_ok tx → (exact → room p tx) → storable exact (storage p1) c now.
Proof.
  intros Htx Hroom. pose proof (go_wf _ _ (po_graph _ Hp)) as Hwf. pose proof (go_wf _ _ (po_graph _ Hp1)) as Hwf1.
  pose proof (in_checked _ _ _ _ Hin) as Hck. pose proof Hrem as (Hcut & _). pose proof (tb_ids _ _ _ (po_tables _ Hp)) as Hids.
  pose proof (λ x y, removes_closed _ _ _ _ _ x y Hrem) as Hcl.
  assert (checked_tx c = tx) as Ec by apply Hck.
  assert (∀ a d, d ∈ direct_dependencies c → reach (deps p1) a d ↔ reach (deps p) a d) as Hreach.
  { intros a d Hd. unfold deps. rewrite (reach_cut (storage p) ns (storage p1) a d Hcut Hcl) by (by intros Hdn%removed_apart; apply Hdn, direct_all).
    split; [|by intros [? _]]. intros Hr. split; [done|]. intros Ha. apply (removed_apart a Ha), (co_all _ _ _ Hck).
    exists d. split; [done|]. eapply reach_mono; [|exact Hr]. intros [x y] Hxy. destruct Hcut as (_ & He & _). by apply (He x y) in Hxy as [? _]. }
  constructor; rewrite ?Ec; try done.
  - intros n Hn. pose proof Hn as (i & Hi & Hc)%(co_direct _ _ _ Hck).
    destruct (creator_provides _ _ _ _ Hwf Hi Hc) as (x & Hx & Hpr). exists x. split; [|done]. apply kept. split; [done|].
    by intros Hdn%removed_apart; apply Hdn, direct_all.
  - intros x. unfold c. rewrite (co_all _ _ _ Hck). split; intros (d & Hd & Hr); exists d; (split; [done|]); by apply Hreach.
  - intros d1 d2 a H1 H2 Hr1 Hr2. apply (co_apart _ _ _ Hck d1 d2 a); [done..|by apply Hreach|by apply Hreach].
  - intros q Hex. etrans; [|apply (Hroom Hex q)]. apply Z.add_le_mono_r. rewrite (cut_shape _ _ _ Hcut). apply total_remove, Hwf.
  - intros u Hu. apply eq_None_not_Some. intros [n Hn]. apply (gi_cc _ _ _ _ (gw_inv _ Hwf1)) in Hn as (x & Hx & Hux).
    apply kept in Hx as [Hx _]. apply created_coins_id in Hu, Hux.
    assert (tx_id_to_storage_id p !! pt_id tx = Some n) as Hc.
    { apply Hids. exists x. split; [done|]. apply list_elem_of_singleton. congruence. }
    pose proof (in_fresh _ _ _ _ Hin). congruence.
  - intros x Hx. apply eq_None_not_Some. intros [n Hn]. apply (gi_ct _ _ _ _ (gw_inv _ Hwf1)) in Hn as (y & Hy & Hxy).
    apply (no_conflict_left n y Hy). right. right. left. eauto.
  - intros u n Hu Hn. apply (gi_cc _ _ _ _ (gw_inv _ Hwf1)) in Hn as (x & [Hx _]%kept & Hux).
    destruct (coin_input_creator tx u Hu) as (i & Hi & Hc). apply (co_direct _ _ _ Hck). exists i. split; [done|].
    rewrite Hc. apply (gi_cc _ _ _ _ (gw_inv _ Hwf)). eauto.
  - intros m x u [Hm _]%kept Hu Hc. apply (in_unspent _ _ _ _ Hin) in Hc.
    assert (coins_spenders (collision_manager p) !! u = Some m) by (apply (ck_coins _ _ (tb_collisions _ _ _ (po_tables _ Hp))); eauto).
    congruence.
Qed.
Lemma tx_id_free : tx_id_to_storage_id p1 !! pt_id tx = None.
Proof.
  apply eq_None_not_Some. intros [n Hn]. apply (tb_ids _ _ _ (po_tables _ Hp1)) in Hn as (x & [Hx _]%kept & Hi).
  assert (tx_id_to_storage_id p !! pt_id tx = Some n) by (apply (tb_ids _ _ _ (po_tables _ Hp)); eauto).
  pose proof (in_fresh _ _ _ _ Hin). congruence.
Qed.

Lemma total_enter T q n now :
  T !! n = None → txs_ok T → tx_ok tx → total T q + weight q tx ≤ int_max u64 →
  saturating_add u64 (total T q) (weight q tx) = total (<[n := (tx, now)]> T) q.
Proof.
  intros Hn Hok Htx Hle. rewrite total_insert by done. cbn [fst]. unfold saturating_add. apply clamp_id.
  pose proof (weight_nonneg q tx Htx).
  assert (0 ≤ total T q) by (apply set_sum_nonneg; intros m; by apply weight_at_nonneg).
  unfold in_range. cbn [int_min u64 unsigned] in *. lia.
Qed.

Lemma ids_unique_enter n now : txs p1 !! n = None → ids_unique (<[n := (tx, now)]> (txs p1)).
Proof.
  intros Hn a b x y. pose proof (Tables_ids_unique exact _ _ (po_tables _ Hp1)) as Hu. pose proof tx_id_free as Hfree.
  assert (∀ m z, txs p1 !! m = Some z → pt_id z.1 ≠ pt_id tx) as Hne.
  { intros m z Hz Heq. assert (tx_id_to_storage_id p1 !! pt_id tx = Some m); [|congruence].
    apply (tb_ids _ _ _ (po_tables _ Hp1)). exists z. split; [done|]. by apply list_elem_of_singleton. }
  intros [[<- <-]|[? Hx]]%lookup_insert_Some [[<- <-]|[? Hy]]%lookup_insert_Some Heq; [done| | |by eapply Hu].
  - by destruct (Hne b y Hy).
  - by destruct (Hne a x Hx).
Qed.

Lemma root_below E (D : gset NodeIndex) n m :
  (∀ a, ¬ edge E a n) → root (below E D n) m ↔ (root E m ∧ m ≠ n) ∨ (m = n ∧ D = ∅).
Proof.
  intros Hno. unfold root. setoid_rewrite edge_below. destruct (decide (m = n)) as [->|Hne].
  - split; [|intros [[_ ?]|[_ HD]] a; [done|]; intros [[Ha _]|Ha]; [rewrite HD in Ha; set_solver|by apply (Hno a)]].
    intros Hr. right. split; [done|]. apply elem_of_equiv_empty_L. intros a Ha. apply (Hr a). auto.
  - split; [intros Hr; left; split; [|done]; intros a Ha; apply (Hr a); auto|].
    intros [[Hr _]|[? _]] a; [|done]. intros [[_ ?]|Ha]; [done|by apply (Hr a)].
Qed.

Lemma no_dependencies : all_dependencies c = ∅ ↔ direct_dependencies c = ∅.
Proof.
  pose proof (in_checked _ _ _ _ Hin) as Hck. split; intros HE; apply elem_of_equiv_empty_L; intros x Hx.
  - apply direct_all in Hx. set_solver.
  - apply (co_all _ _ _ Hck) in Hx as (d & Hd & _). unfold c in HE. set_solver.
Qed.

Lemma store_selection n now :
  tx_ok tx → txs p1 !! n = None →
  SelOk (<[n := (tx, now)]> (txs p1)) (root (below (deps p1) (direct_dependencies c) n))
    (if decide (all_dependencies c = ∅) then btree_insert (shape_key (tx, now)) n (selection_algorithm p1)
     else selection_algorithm p1).
Proof.
  intros Htx Hn.
  assert (SelOk (<[n := (tx, now)]> (txs p1)) (λ m, root (deps p1) m ∧ m ≠ n) (selection_algorithm p1)) as Hsel.
  { eapply SelOk_ext; [|apply (po_selection _ Hp1)]. intros m x. destruct (decide (m = n)) as [->|Hne].
    - rewrite Hn. naive_solver.
    - rewrite lookup_insert_ne by done. naive_solver. }
  assert (∀ a, ¬ edge (deps p1) a n) as Hno.
  { intros a Ha. apply (gi_dom _ _ _ _ (gw_inv _ (go_wf _ _ (po_graph _ Hp1)))) in Ha as [_ [x Hx]].
    unfold txs in Hn. congruence. }
  case_decide as Hall.
  - apply no_dependencies in Hall. eapply SelOk_ext.
    2: { apply SelOk_insert with (n := n) (P := λ m, root (deps p1) m ∧ m ≠ n);
           [by apply ids_unique_enter| |done|by rewrite lookup_insert_eq|naive_solver].
         intros m x [[<- <-]|[_ Hx]]%lookup_insert_Some; [done|by eapply (tb_ok _ _ _ (po_tables _ Hp1))]. }
    intros m x. cbn. rewrite (root_below _ _ n m Hno). naive_solver.
  - eapply SelOk_ext; [|exact Hsel]. intros m x. rewrite (root_below _ _ n m Hno). rewrite no_dependencies in Hall. naive_solver.
Qed.

Lemma store_checked_spec now :
  tx_ok tx → (exact → room p tx) →
  ∃ n p2, store_checked c now p1 = Some p2 ∧ PoolOk p2 ∧ txs p1 !! n = None
    ∧ txs p2 = <[n := (tx, now)]> (txs p1) ∧ deps p2 = below (deps p1) (direct_dependencies c) n
    ∧ config p2 = config p1 ∧ extracted_outputs p2 = extracted_outputs p1
    ∧ pool_stats p2 = MkStats (tx_count p2) (current_bytes_size p2) (current_gas p2)
    ∧ max_txs_chain_count (storage p2) = max_txs_chain_count (storage p1).
Proof.
  intros Htx Hroom. pose proof (storable_after now Htx Hroom) as Hst. unfold store_checked.
  assert (checked_tx c = tx) as Ec by apply Hin.
  destruct (store_spec exact (storage p1) c now (po_graph _ Hp1) Hst) as (n & st & -> & Hn & Hok & Hs & He & Hm & _).
  rewrite Ec in *. cbn [mbind option_bind].
  assert (∃ d, nodes (graph st) !! n = Some d ∧ entry_shape d = (tx, now)) as (d & Hd & Ed).
  { assert (shape (graph st) !! n = Some (tx, now)) as Hx by (by rewrite Hs, lookup_insert_eq).
    rewrite shape_lookup in Hx. apply fmap_Some in Hx as (d & Hd & Ed). eauto. }
  rewrite node_weight_nodes, Hd. cbn [mbind option_bind]. exists n. eexists. split; [done|].
  cbn [txs deps config extracted_outputs storage pool_stats update_stats current_bytes_size current_gas].
  split; [|by repeat split]. destruct Hp1 as [Hg1 Ht1 Hs1]. pose proof (tb_ok _ _ _ Ht1) as Hok1.
  constructor; cbn; [done| |].
  - unfold txs. cbn. rewrite Hs. constructor; cbn.
    + apply (owns_insert ids_of _ _ n tx now (tb_ids _ _ _ Ht1) Hn). intros k ->%list_elem_of_singleton. apply tx_id_free.
    + rewrite <- Ed. apply CollisionsOk_store; [apply Ht1|done|]. intros m x Hx.
      injection Ed as -> _. by apply no_conflict_left with (n := m).
    + intros m x [[<- <-]|[_ Hx]]%lookup_insert_Some; [done|by eapply Hok1].
    + intros Hex q. rewrite total_insert by done. pose proof (so_fits _ _ _ _ Hst q Hex) as Hf. by rewrite Ec in Hf.
    + intros Hex. rewrite (tb_gas _ _ _ Ht1 Hex). apply (total_enter _ QGas); [done..|].
      pose proof (so_fits _ _ _ _ Hst QGas Hex) as Hf. by rewrite Ec in Hf.
    + intros Hex. rewrite (tb_bytes _ _ _ Ht1 Hex). apply (total_enter _ QBytes); [done..|].
      pose proof (so_fits _ _ _ _ Hst QBytes Hex) as Hf. by rewrite Ec in Hf.
  - unfold txs, deps. cbn. rewrite Hs, He. unfold new_executable_transaction. rewrite key_shape, Ed.
    by apply store_selection.
Qed.
End insertion.

(** ** Insertion *)
Definition stats_fresh p : Prop := pool_stats p = MkStats (tx_count p) (current_bytes_size p) (current_gas p).

(** What a successful insertion does: the subtrees of the collisions and of
    the evicted transactions leave, and the transaction comes in below its
    dependencies. *)
Definition inserts p tx ps now can (ns : list NodeIndex) (es : list StorageData) (n : NodeIndex) p' : Prop :=
  insertable p tx ps can ∧ entries_at (storage p) ns es ∧ NoDup ns
  ∧ (∀ m, m ∈ ns ↔ ∃ r, (r ∈ to_remove can ∨ r ∈ dom (collisions can)) ∧ is_Some (txs p !! r) ∧ reach (deps p) r m)
  ∧ remove_nodes ns (txs p) !! n = None
  ∧ txs p' = <[n := (tx, now)]> (remove_nodes ns (txs p))
  ∧ (∀ a b, edge (deps p') a b
       ↔ (a ∈ direct_dependencies (checked_transaction can) ∧ b = n) ∨ (edge (deps p) a b ∧ a ∉ ns ∧ b ∉ ns))
  ∧ config p' = config p ∧ extracted_outputs p' = extracted_outputs p ∧ stats_fresh p'
  ∧ max_txs_chain_count (storage p') = max_txs_chain_count (storage p).

Lemma insert_checked_spec p tx ps now can :
  PoolOk p → insertable p tx ps can → tx_ok tx → (exact → room p tx) →
  ∃ ns es n p', insert_checked can now p = Some (es, p') ∧ PoolOk p' ∧ inserts p tx ps now can ns es n p'.
Proof.
  intros Hp Hin Htx Hroom. unfold insert_checked.
  destruct (remove_subtrees_spec (to_remove can) [] p Hp) as (es1 & p1 & ns1 & -> & Hp1 & Hr1). cbn [mbind option_bind app].
  destruct (remove_subtrees_spec (iter_set (dom (collisions can))) es1 p1 Hp1) as (es2 & p2 & ns2 & -> & Hp2 & Hr2).
  cbn [mbind option_bind]. pose proof (removes_app _ _ _ _ _ _ _ _ _ Hr1 Hr2) as Hr.
  assert (∀ r, r ∈ to_remove can ++ iter_set (dom (collisions can)) ↔ r ∈ to_remove can ∨ r ∈ dom (collisions can)) as Hmem.
  { intros r. by rewrite elem_of_app, iter_set_perm, elem_of_elements. }
  destruct (store_checked_spec p tx ps can Hp Hin _ _ _ p2 Hr Hp2) with (now := now)
    as (n & p3 & -> & Hp3 & Hn & Hs & He & Hc & Hx & Hst & Hmax); [| |done|done|].
  { intros r [Hr'|Hr']%Hmem; [|by apply (in_apart _ _ _ _ Hin)].
    destruct (in_space _ _ _ _ Hin) as [[Hnil _]|[-> _]]; [|set_solver]. rewrite Hnil in Hr'. by apply not_elem_of_nil in Hr'. }
  { intros m Hm. apply Hmem. by right. }
  destruct Hr as (Hcut & Hent & Hnd & Hns & (Ec & Ee & _)). pose proof (cut_shape _ _ _ Hcut) as Hsh. destruct Hcut as (_ & Hed & Hmx).
  exists (ns1 ++ ns2), (es1 ++ es2), n, p3. split; [done|]. split; [done|]. unfold inserts, txs in *. rewrite Hsh in *.
  do 3 (split; [done|]). split; [intros m; rewrite Hns; by setoid_rewrite Hmem|]. split; [done|]. split; [done|].
  split; [intros a b; rewrite He, edge_below; unfold deps; by rewrite Hed|]. repeat split; congruence.
Qed.

Lemma insert_spec p tx ps now r p' :
  PoolOk p → valid_tx tx → (exact → room p tx) → insert tx ps now p = Some (r, p') →
  PoolOk p' ∧ match r with
              | Err _ => p' = p
              | Ok removed => ∃ can ns es n, removed = txs_of es ∧ inserts p tx ps now can ns es n p'
              end.
Proof.
  intros Hp Hv Hroom. unfold insert. destruct (can_insert_transaction p tx ps) as [[can|e]|] eqn:Hcan; [| |done].
  - apply can_insert_spec in Hcan; [|done].
    destruct (insert_checked_spec p tx ps now can Hp Hcan) as (ns & es & n & q & -> & Hq & Hi).
    { apply valid_tx_ok; [done|apply Hcan]. } { done. }
    intros [= <- <-]. split; [done|]. by exists can, ns, es, n.
  - intros [= <- <-]. done.
Qed.

Lemma insert_total p tx ps now :
  PoolOk p → valid_tx tx → (exact → room p tx) → has_gas (storage p) → is_Some (insert tx ps now p).
Proof.
  intros Hp Hv Hroom Hst. unfold insert. destruct (can_insert_total p tx ps Hp Hst) as [[can|e] Hcan]; rewrite Hcan; [|by eexists].
  apply can_insert_spec in Hcan; [|done].
  destruct (insert_checked_spec p tx ps now can Hp Hcan) as (ns & es & n & q & -> & Hq & Hi); [|done|by eexists].
  apply valid_tx_ok; [done|apply Hcan].
Qed.

(** Exact counters contain the gas of the transaction itself. *)
Lemma exact_has_gas p : exact → PoolOk p → has_gas (storage p).
Proof.
  intros Hex Hp n d Hd. destruct (po_graph _ Hp) as [Hwf Hcum _]. destruct (Hcum Hex n d Hd) as (X & HX & Hs).
  specialize (Hs QGas). cbn in Hs. rewrite Hs.
  assert (shape (graph (storage p)) !! n = Some (entry_shape d)) as Hn by (by rewrite shape_lookup, Hd).
  pose proof (gi_ok _ _ _ _ (gw_inv _ Hwf)) as Hok. pose proof (tx_gas_ok _ (Hok _ _ Hn)) as Hgas.
  assert ({[n]} ⊆ X) as Hsub by (intros m ->%elem_of_singleton; apply HX, rtc_refl).
  apply (set_sum_mono (weight_at (shape (graph (storage p))) QGas)) in Hsub; [|intros m; by apply weight_at_nonneg].
  rewrite set_sum_singleton in Hsub. unfold weight_at at 1 in Hsub. rewrite Hn in Hsub. cbn in *. lia.
Qed.

(** ** Extraction *)
Lemma extract_entries_frame es : ∀ p,
  let p' := foldl extract_entry p es in
  storage p' = storage p ∧ config p' = config p
  ∧ extracted_outputs p' = foldl (λ x e, new_extracted_transaction (transaction e) x) (extracted_outputs p) es
  ∧ selection_algorithm p' = foldl (λ l e, on_removed_transaction e l) (selection_algorithm p) es.
Proof.
  induction es as [|e es IH]; intros p; cbn; [done|]. destruct (IH (extract_entry p e)) as (-> & -> & -> & ->). done.
Qed.

Lemma extract_entry_tables T p n e :
  Tables exact T p → T !! n = Some (entry_shape e) → Tables exact (delete n T) (extract_entry p e).
Proof. intros Ht Hn. apply forget_entry_tables; [|done]. by destruct Ht. Qed.

Lemma update_stats_ok p : PoolOk p → PoolOk (update_stats p).
Proof. intros [? [] ?]. by constructor; [|constructor|]. Qed.
Lemma update_stats_fresh p : stats_fresh (update_stats p).
Proof. done. Qed.

Lemma extract_spec c p :
  PoolOk p → constraints_ok c →
  ∃ es p' ns gas space nb, extract_transactions_for_block c p = Some (txs_of es, p') ∧ PoolOk p'
    ∧ Taken exact (storage p) ns es (storage p') ∧ budget c es gas space nb ∧ exhausted c gas space nb (storage p')
    ∧ config p' = config p ∧ stats_fresh p'
    ∧ extracted_outputs p' = foldl (λ x e, new_extracted_transaction (transaction e) x) (extracted_outputs p) es.
Proof.
  intros Hp Hc. pose proof Hp as [Hg Ht Hs]. unfold extract_transactions_for_block, gather_best_txs.
  pose proof (Tables_ids_unique _ _ _ Ht) as Hids.
  destruct (gather_loop_spec exact c Hc (storage p) (go_wf _ _ Hg) Hids (S (node_count (graph (storage p))))
    (max_gas c) (maximum_block_size c) (maximum_txs c) [] (selection_algorithm p) (storage p) [])
    as (es & sel & st & ns & gas & space & nb & -> & Htk & Hbu & Hsel & Hex).
  { by apply Taken_refl. }
  { destruct Hc as (Hc1 & Hc2 & Hc3). unfold in_range in *. cbn [int_min u64 usize u16 unsigned] in *.
    constructor; cbn; [lia..|constructor]. }
  { done. } { rewrite node_count_nodes. lia. }
  cbn [mbind option_bind].
  destruct (extract_entries_frame es (with_selection sel (with_storage st p))) as (Est & Ec & Ee & Esel). cbn in Est, Ec, Ee, Esel.
  set (p1 := foldl extract_entry (with_selection sel (with_storage st p)) es) in *.
  exists es, (update_stats p1), ns, gas, space, nb. split; [done|].
  assert (PoolOk p1) as Hp1.
  { pose proof (cut_shape _ _ _ (tk_cut _ _ _ _ _ Htk)) as Hsh. constructor.
    - rewrite Est. apply Htk.
    - unfold txs. rewrite Est, Hsh. apply tables_fold; [apply extract_entry_tables|by destruct Ht|apply Htk|apply Htk].
    - rewrite Esel. unfold txs, deps. rewrite Est. eapply SelOk_ext.
      2: { eapply (SelOk_remove_all (txs p) Hids (λ m, m ∉ ns ∧ root (edge_set (graph st)) m)); [apply Htk|].
           eapply SelOk_ext; [|exact Hsel]. intros m x. rewrite Hsh, remove_nodes_lookup. unfold txs. case_decide; naive_solver. }
      intros m x. cbn. rewrite Hsh, remove_nodes_lookup. unfold txs. case_decide; naive_solver. }
  split; [by apply update_stats_ok|]. cbn [storage config extracted_outputs update_stats]. rewrite Est, Ec.
  do 4 (split; [done|]). split; [apply update_stats_fresh|done].
Qed.

(** ** Removal of transactions with their dependents *)
Lemma forget_id_entries id es : ∀ p,
  foldl forget_entry (forget_id id p) es = forget_id id (foldl forget_entry p es).
Proof.
  induction es as [|e es IH]; intros p; cbn; [done|]. rewrite <- IH. f_equal. unfold forget_entry, forget_id. cbn.
  by rewrite delete_delete.
Qed.

Lemma forget_id_absent id p : tx_id_to_storage_id p !! id = None → forget_id id p = p.
Proof. intros Hn. destruct p. unfold forget_id. cbn in *. by rewrite delete_id. Qed.

(** Forgetting the id first makes no difference. *)
Lemma remove_subtree_forget acc p id n :
  PoolOk p → tx_id_to_storage_id p !! id = Some n →
  remove_subtree (acc, forget_id id p) n = remove_subtree (acc, p) n.
Proof.
  intros Hp Hid. destruct (remove_subtree_spec acc p n Hp) as (es & p' & ns & Hrun & Hp' & Hr). rewrite Hrun.
  unfold remove_subtree in *. cbn [storage forget_id] in *.
  destruct (remove_transaction_and_dependents_subtree n (storage p)) as [[es' st]|]; [|done]. cbn in *. injection Hrun as <-%app_inv_head <-.
  f_equal. f_equal. unfold update_components_and_caches_on_removal in *.
  change (with_storage st (forget_id id p)) with (forget_id id (with_storage st p)).
  rewrite forget_id_entries. apply forget_id_absent. apply eq_None_not_Some. intros [m Hm].
  apply (tb_ids _ _ _ (po_tables _ Hp')) in Hm as (x & Hx & Hix). apply list_elem_of_singleton in Hix. subst id.
  apply (tb_ids _ _ _ (po_tables _ Hp)) in Hid as (y & Hy & Hiy). apply list_elem_of_singleton in Hiy.
  destruct Hr as ((Hs & _) & _ & _ & Hns & _). unfold txs in Hx. rewrite Hs in Hx. case_decide as Hmn; [done|].
  assert (n = m) as -> by (by eapply (Tables_ids_unique _ _ _ (po_tables _ Hp))).
  apply Hmn, Hns. exists m. split; [left|]. split; [by eexists|apply rtc_refl].
Qed.

Lemma removes_absent p n : txs p !! n = None → removes p [n] [] [] p.
Proof.
  intros Hn. split; [apply cut_refl|]. split; [constructor|]. split; [constructor|]. split; [|done].
  intros m. split; [by intros ?%not_elem_of_nil|]. intros (r & ->%list_elem_of_singleton & [x Hx] & _). congruence.
Qed.

Lemma removes_kept p roots ns es p' n x : removes p roots ns es p' → txs p' !! n = Some x → txs p !! n = Some x.
Proof. intros ((Hs & _) & _). unfold txs. rewrite Hs. by case_decide. Qed.

Lemma id_node p id n : PoolOk p → tx_id_to_storage_id p !! id = Some n ↔ ∃ x, txs p !! n = Some x ∧ pt_id x.1 = id.
Proof.
  intros Hp. rewrite (tb_ids _ _ _ (po_tables _ Hp) id n). unfold ids_of. setoid_rewrite list_elem_of_singleton. naive_solver.
Qed.

Lemma remove_id_eq acc p id :
  remove_id (acc, p) id
  = match tx_id_to_storage_id p !! id with
    | None => Some (acc, p)
    | Some n => remove_subtree (acc, forget_id id p) n
    end.
Proof. done. Qed.

Lemma remove_ids_spec p0 ids : PoolOk p0 → ∀ acc p roots0 ns0 es0,
  PoolOk p → removes p0 roots0 ns0 es0 p →
  ∃ es p' ns, fold_panic remove_id (acc, p) ids = Some (acc ++ es, p') ∧ PoolOk p'
    ∧ removes p0 (roots0 ++ omap (λ id, tx_id_to_storage_id p0 !! id) ids) ns (es0 ++ es) p'.
Proof.
  intros Hp0. induction ids as [|id ids IH]; intros acc p roots0 ns0 es0 Hp Hr; cbn [fold_panic omap list_omap].
  - exists [], p, ns0. rewrite !app_nil_r. auto.
  - destruct (tx_id_to_storage_id p !! id) as [n|] eqn:Hid.
    + rewrite (remove_id_eq acc p id), Hid, remove_subtree_forget by done. destruct (remove_subtree_spec acc p n Hp) as (es1 & p1 & ns1 & -> & Hp1 & Hr1).
      apply (id_node _ _ _ Hp) in Hid as (x & Hx & Hidx). pose proof (removes_kept _ _ _ _ _ _ _ Hr Hx) as Hx0.
      assert (tx_id_to_storage_id p0 !! id = Some n) as -> by (apply (id_node _ _ _ Hp0); eauto). cbn.
      destruct (IH (acc ++ es1) p1 (roots0 ++ [n]) (ns0 ++ ns1) (es0 ++ es1) Hp1) as (es & p' & ns & -> & Hp' & Hr').
      { by eapply removes_app. }
      exists (es1 ++ es), p', ns. rewrite !app_assoc. rewrite <- app_assoc in Hr'. cbn in Hr'. by rewrite <- app_assoc.
    + rewrite (remove_id_eq acc p id), Hid. cbn. destruct (tx_id_to_storage_id p0 !! id) as [n|] eqn:Hid0; [|by apply (IH acc p roots0 ns0 es0)].
      assert (txs p !! n = None) as Hn.
      { apply eq_None_not_Some. intros [x Hx]. apply (id_node _ _ _ Hp0) in Hid0 as (y & Hy & Hidy).
        pose proof (removes_kept _ _ _ _ _ _ _ Hr Hx) as Hx0. assert (x = y) as -> by congruence.
        assert (tx_id_to_storage_id p !! id = Some n) by (apply (id_node _ _ _ Hp); eauto). congruence. }
      pose proof (removes_app _ _ _ _ _ _ _ _ _ Hr (removes_absent p n Hn)) as Hr'. rewrite !app_nil_r in Hr'.
      destruct (IH acc p (roots0 ++ [n]) ns0 es0 Hp Hr') as (es & p' & ns & -> & Hp' & Hr2).
      exists es, p', ns. rewrite <- app_assoc in Hr2. auto.
Qed.

Lemma remove_transaction_and_dependents_spec ids p :
  PoolOk p →
  ∃ es p' ns, remove_transaction_and_dependents ids p = Some (txs_of es, p') ∧ PoolOk p'
    ∧ cut (storage p) ns (storage p') ∧ entries_at (storage p) ns es ∧ NoDup ns
    ∧ (∀ m, m ∈ ns ↔ ∃ r x, txs p !! r = Some x ∧ pt_id x.1 ∈ ids ∧ reach (deps p) r m)
    ∧ config p' = config p ∧ extracted_outputs p' = extracted_outputs p ∧ stats_fresh p'.
Proof.
  intros Hp. unfold remove_transaction_and_dependents.
  destruct (remove_ids_spec p ids Hp [] p [] [] [] Hp (removes_nil p)) as (es & p' & ns & -> & Hp' & Hr). cbn [mbind option_bind app] in *.
  exists es, (update_stats p'), ns. split; [done|]. split; [by apply update_stats_ok|].
  destruct Hr as (Hcut & Hent & Hnd & Hns & (Ec & Ee & _)). do 3 (split; [done|]).
  split; [|by repeat split]. intros m. rewrite Hns. split.
  - intros (r & (id & Hid & Hr)%list_elem_of_omap & _ & Hrm). apply (id_node _ _ _ Hp) in Hr as (x & Hx & <-). eauto.
  - intros (r & x & Hx & Hid & Hrm). exists r. split; [|split; [by eexists|done]].
    apply list_elem_of_omap. exists (pt_id x.1). split; [done|]. apply (id_node _ _ _ Hp). eauto.
Qed.

Lemma with_extracted_ok e p : PoolOk p → PoolOk (with_extracted e p).
Proof. intros [? [] ?]. by constructor; [|constructor|]. Qed.

Lemma remove_skipped_spec id p :
  PoolOk p →
  ∃ es p' ns, remove_skipped_transaction id p = Some (txs_of es, p') ∧ PoolOk p'
    ∧ cut (storage p) ns (storage p') ∧ entries_at (storage p) ns es ∧ NoDup ns
    ∧ (∀ m, m ∈ ns ↔ ∃ r, r ∈ get_coins_spenders (collision_manager p) id ∧ is_Some (txs p !! r) ∧ reach (deps p) r m)
    ∧ config p' = config p ∧ extracted_outputs p' = new_skipped_transaction id (extracted_outputs p) ∧ stats_fresh p'.
Proof.
  intros Hp. unfold remove_skipped_transaction. cbn [collision_manager with_extracted].
  set (p0 := with_extracted _ p).
  destruct (remove_subtrees_spec (get_coins_spenders (collision_manager p) id) [] p0) as (es & p' & ns & -> & Hp' & Hr).
  { by apply with_extracted_ok. }
  cbn [mbind option_bind app]. exists es, (update_stats p'), ns. split; [done|]. split; [by apply update_stats_ok|].
  destruct Hr as (Hcut & Hent & Hnd & Hns & (Ec & Ee & _)). do 4 (split; [done|]). by repeat split.
Qed.

(** ** Eviction *)

(** The pool with [tx] would be over its limits. *)
Definition over_limits p (tx : PoolTransaction) : Prop :=
  within_limits p (MkNotEnoughSpace (saturating_add u64 (current_gas p) (pt_max_gas tx))
    (saturating_add usize (current_bytes_size p) (pt_metered_bytes_size tx)) (saturating_add usize (tx_count p) 1)) = false.

Lemma free_space_loop_ok p c tx l : ∀ left_ acc r,
  free_space_loop p c (pt_tip tx, pt_max_gas tx) left_ acc l = Some (Ok r) →
  ∀ k, k ∈ r → k ∈ acc ∨ (k ∈ l ∧ ∃ d, nodes (graph (storage p)) !! k = Some d
    ∧ dependents_cumulative_tip d * pt_max_gas tx ≤ pt_tip tx * dependents_cumulative_gas d).
Proof.
  induction l as [|m l IH]; intros left_ acc r; cbn [free_space_loop].
  - destruct (within_limits p left_); [|done]. intros [= <-]. auto.
  - destruct (within_limits p left_); [intros [= <-]; auto|].
    assert (free_space_loop p c (pt_tip tx, pt_max_gas tx) left_ acc l = Some (Ok r) →
      ∀ k, k ∈ r → k ∈ acc ∨ (k ∈ m :: l ∧ ∃ d, nodes (graph (storage p)) !! k = Some d
        ∧ dependents_cumulative_tip d * pt_max_gas tx ≤ pt_tip tx * dependents_cumulative_gas d)) as Hskip.
    { intros Hr k Hk. destruct (IH _ _ _ Hr k Hk) as [?|[? ?]]; [auto|right]. split; [by right|done]. }
    case_decide; [done|]. rewrite node_weight_nodes. destruct (nodes (graph (storage p)) !! m) as [d|] eqn:Hd; [|done].
    destruct (ratio_new _ _) as [ra|] eqn:Hra; [|done]. apply ratio_new_some in Hra. subst ra.
    destruct (ratio_gt _ _) eqn:Hgt; [done|]. intros Hr k Hk.
    destruct (IH _ _ _ Hr k Hk) as [[?| ->%list_elem_of_singleton]%elem_of_app|[? ?]]; [auto| |right; split; [by right|done]].
    right. split; [left|]. exists d. split; [done|]. apply not_true_iff_false in Hgt. rewrite ratio_gt_iff in Hgt. cbn in Hgt. lia.
Qed.

Lemma evicted_spec p tx ps can :
  PoolOk p → insertable p tx ps can →
  (to_remove can ≠ [] → over_limits p tx ∧ all_dependencies (checked_transaction can) = ∅)
  ∧ ∀ k, k ∈ to_remove can → root (deps p) k ∧ ∃ d, nodes (graph (storage p)) !! k = Some d
      ∧ dependents_cumulative_tip d * pt_max_gas tx ≤ pt_tip tx * dependents_cumulative_gas d.
Proof.
  intros Hp Hin. pose proof (co_tx _ _ _ (in_checked _ _ _ _ Hin)) as Ec.
  destruct (in_space _ _ _ _ Hin) as [[-> _]|(Hall & left_ & Hfit & Hfree)]; [by split; [|intros k ?%not_elem_of_nil]|]. split.
  - intros _. split; [|done]. unfold can_fit_into_pool in Hfit. rewrite Ec in Hfit. unfold over_limits. by destruct (within_limits p _).
  - intros k Hk. unfold find_free_space in Hfree. rewrite Ec, ratio_new_total in Hfree by apply Hin. cbn [mbind option_bind] in Hfree.
    destruct (free_space_loop_ok _ _ _ _ _ _ _ Hfree k Hk) as [?%not_elem_of_nil|[Hl Hd]]; [done|]. split; [|done]. unfold get_less_worth_txs in Hl.
    rewrite list_elem_of_In, <- in_rev, <- list_elem_of_In in Hl. apply list_elem_of_fmap in Hl as ([key m] & -> & Hm).
    by apply (se_mem _ _ _ (po_selection _ Hp)) in Hm as (x & _ & _ & ?).
Qed.
End pool_facts.
