(* ===== verification/TxPoolBlocks.v ===== *)
(** * Imported blocks and the transaction pool

    [process_block] takes the transactions of a block out of the pool and makes
    those executable that only waited for them. *)
From S2P Require Import Prelude FuelTypes TxPoolTypes TxPoolGraph TxPool TxPoolForest TxPoolGraphFacts.
From S2P Require Import TxPoolTables TxPoolSelection TxPoolFacts.

Section blocks.
Context `{SG : StableDiGraph} `{SL : !StableDiGraphLaws} `{HO : HashOrder} (exact : Prop).
Implicit Types (p : Pool).

(** The block lists a transaction of the pool after its dependencies. *)
Definition block_ordered p (ids : list TxId) : Prop :=
  ∀ before id after n a x, ids = before ++ id :: after → tx_id_to_storage_id p !! id = Some n →
  edge (deps p) a n → txs p !! a = Some x → pt_id x.1 ∈ before.

(** The pool [p] while the block is processed: the transactions [ids] of [p0]
    are out, and the nodes [promote] wait to become executable. *)
Record Processing p0 (ids : list TxId) p (promote : list NodeIndex) : Prop := {
  pr_graph : GraphOk exact (storage p);
  pr_tables : Tables exact (txs p) p;
  pr_selection : SelOk (txs p) (λ n, root (deps p) n ∧ n ∉ promote) (selection_algorithm p);
  pr_promote m : m ∈ promote → root (deps p) m;
  pr_nodup : NoDup promote;
  pr_from m : m ∈ promote → ∃ a x, edge (deps p0) a m ∧ txs p0 !! a = Some x ∧ pt_id x.1 ∈ ids;
  pr_all a b : exact → edge (deps p0) a b → b ∈ promote ∨ ¬ root (deps p) b;
  pr_txs n x : txs p !! n = Some x ↔ txs p0 !! n = Some x ∧ pt_id x.1 ∉ ids;
  pr_deps a b : edge (deps p) a b → edge (deps p0) a b;
  pr_config : config p = config p0;
  pr_max : max_txs_chain_count (storage p) = max_txs_chain_count (storage p0)
}.

Lemma Processing_start p : PoolOk exact p → Processing p [] p [].
Proof.
  intros [Hg Ht Hs]. constructor; try done.
  - eapply SelOk_ext; [|exact Hs]. intros m x. pose proof (not_elem_of_nil m). tauto.
  - by intros m ?%not_elem_of_nil.
  - constructor.
  - by intros m ?%not_elem_of_nil.
  - intros a b _ Hab. right. intros Hr. by apply (Hr a).
  - intros n x. pose proof (not_elem_of_nil (pt_id x.1)). tauto.
Qed.

Lemma removed_selection T E (l : Executables) n d (promote out : list NodeIndex) :
  ids_unique T → T !! n = Some (entry_shape d) →
  SelOk T (λ m, root E m ∧ m ∉ promote) l →
  (∀ m, m ∈ out ↔ edge E n m ∧ root (without E n) m) →
  SelOk (delete n T) (λ m, root (without E n) m ∧ m ∉ promote ++ out) (btree_remove (key d) l).
Proof.
  intros Hids Hn HS Hout. rewrite key_shape. eapply SelOk_ext; [|exact (SelOk_remove T Hids _ l n _ HS Hn)].
  intros m x. cbn. rewrite lookup_delete_Some, not_elem_of_app, Hout. split.
  - intros [Hm [[Hr Hp] Hne]]. repeat split; [done|done| |done|].
    + intros a [Ha _]%edge_without. by apply (Hr a).
    + intros [He _]. by apply (Hr n).
  - intros [[Hne Hm] [Hr [Hp Ho]]]. repeat split; [done| |done|done].
    intros a Ha. destruct (decide (a = n)) as [->|Han]; [by apply Ho|]. apply (Hr a), edge_without. done.
Qed.

Lemma forget_id_entry p e : forget_entry (forget_id (pt_id (transaction e)) p) e = forget_entry p e.
Proof. unfold forget_entry, forget_id. cbn. by rewrite delete_delete_eq. Qed.

(** The part of [process_tx] for a transaction that is in the pool. *)
Lemma process_found p0 ids p promote e n d :
  PoolOk exact p0 → Processing p0 ids p promote → nodes (graph (storage p)) !! n = Some d →
  (exact → root (deps p) n) →
  Processing p0 (ids ++ [pt_id (transaction d)])
    (forget_entry (with_storage (removed_at (storage p) n d) (with_extracted e p)) d)
    (promote ++ filter (λ m, has_dependencies (removed_at (storage p) n d) m = false) (outgoing (graph (storage p)) n)).
Proof.
  intros Hp0 [Hg Ht Hs Hpr Hnd Hfr Hal Htx Hdp Hcf Hmx] Hd Hroot. pose proof (go_wf _ _ Hg) as Hwf.
  assert (txs p !! n = Some (entry_shape d)) as Hx by (unfold txs; by rewrite shape_lookup, Hd).
  destruct (removed_at_wf (storage p) n d Hwf Hd) as (_ & Hs1 & _ & He1 & Hm1).
  assert (∀ m, m ∈ filter (λ m, has_dependencies (removed_at (storage p) n d) m = false) (outgoing (graph (storage p)) n)
               ↔ edge (deps p) n m ∧ root (without (deps p) n) m) as Hout.
  { intros m. rewrite list_elem_of_filter, in_outgoing, has_dependencies_false, He1. unfold deps, root. tauto. }
  assert (∀ m, root (deps p) m → root (without (deps p) n) m) as Hmono.
  { intros m Hr a [Ha _]%edge_without. by apply (Hr a). }
  constructor; unfold txs, deps; cbn [storage forget_entry with_storage selection_algorithm with_extracted config]; rewrite ?Hs1, ?He1.
  - by apply removed_at_ok.
  - apply forget_entry_tables; [by destruct Ht|done].
  - apply removed_selection; [by eapply Tables_ids_unique|done|done|done].
  - intros m [Hm|[_ Hm]%Hout]%elem_of_app; [by apply Hmono, Hpr|done].
  - apply NoDup_app. split; [done|]. split; [|by apply NoDup_filter, outgoing_NoDup, Hwf].
    intros m Hm [He _]%Hout. by apply (Hpr m Hm n).
  - intros m [Hm|[He _]%Hout]%elem_of_app.
    + destruct (Hfr m Hm) as (a & x & Ha & Hax & Hin). exists a, x. rewrite elem_of_app. auto.
    + exists n, (entry_shape d). split; [by apply Hdp|]. split; [by apply Htx in Hx as [? _]|].
      apply elem_of_app. right. by apply list_elem_of_singleton.
  - intros a b Hex Hab. rewrite elem_of_app, Hout. destruct (Hal a b Hex Hab) as [?|Hb]; [by left; left|].
    destruct (decide (edge (deps p) n b)) as [Hnb|Hnb].
    + destruct (decide (Exists (λ e, e.2 = b) (elements (without (deps p) n)))) as [Hr|Hr].
      * right. intros Hroot'. apply Exists_exists in Hr as ([a' b'] & He%elem_of_elements & Heq). cbn in Heq. subst b'. by apply (Hroot' a').
      * left. right. split; [done|]. intros a' Ha'. apply Hr, Exists_exists. exists (a', b). by rewrite elem_of_elements.
    + right. intros Hr. apply Hb. intros a' Ha'. apply (Hr a'), edge_without. repeat split; [done| |].
      * intros ->. done.
      * intros ->. by apply (Hroot Hex a').
  - intros m y. rewrite lookup_delete_Some. fold (txs p). rewrite Htx, not_elem_of_app, list_elem_of_singleton. split.
    + intros (Hne & Hy & Hyi). repeat split; [done..|]. intros Heq. apply Hne.
      apply Htx in Hx as [Hx _]. by eapply (Tables_ids_unique _ _ _ (po_tables _ _ Hp0)).
    + intros (Hy & Hyi & Hne). repeat split; [|done..]. intros ->. apply Htx in Hx as [Hx _].
      apply Hne. unfold txs in Hx. by assert (y = entry_shape d) as -> by congruence.
  - intros a b [Ha _]%edge_without. by apply Hdp.
  - done.
  - congruence.
Qed.

Lemma process_tx_spec p0 ids p promote warnings id :
  PoolOk exact p0 → Processing p0 ids p promote →
  (exact → ∀ n a x, tx_id_to_storage_id p0 !! id = Some n → edge (deps p0) a n → txs p0 !! a = Some x → pt_id x.1 ∈ ids) →
  ∃ p' promote', process_tx (p, promote, warnings) id = (p', promote', warnings)
    ∧ Processing p0 (ids ++ [id]) p' promote'
    ∧ extracted_outputs p' = new_executed_transaction id (extracted_outputs p).
Proof.
  intros Hp0 HP Hord. unfold process_tx. cbn [tx_id_to_storage_id with_extracted extracted_outputs].
  pose proof HP as [Hg Ht Hs Hpr Hnd Hfr Hal Htx Hdp Hcf Hmx]. destruct (tx_id_to_storage_id p !! id) as [n|] eqn:Hid.
  - apply (tb_ids _ _ _ Ht) in Hid as (x & Hx & Hix). apply list_elem_of_singleton in Hix. subst id.
    pose proof Hx as Hd. unfold txs in Hd. rewrite shape_lookup in Hd. apply fmap_Some in Hd as (d & Hd & ->).
    cbn [storage forget_id with_extracted]. rewrite remove_transaction_eq, Hd. eexists _, _. split; [done|]. split; [|done].
    change (with_storage ?s (forget_id ?i ?q)) with (forget_id i (with_storage s q)). cbn [entry_shape fst].
    rewrite forget_id_entry. apply process_found; [done..|]. intros Hex a Ha.
    pose proof (proj1 (gi_dom _ _ _ _ (gw_inv _ (go_wf _ _ Hg)) _ _ Ha)) as [y Hy]. fold (txs p) in Hy.
    apply Htx in Hy as [Hy Hyi]. apply Hyi. apply (Hord Hex n a y); [|by apply Hdp|done].
    apply (id_node exact _ _ _ Hp0). exists (entry_shape d). split; [|done]. by apply Htx in Hx as [? _].
  - eexists _, _. split; [done|]. split; [|done]. constructor; try done; [by destruct Ht| |].
    { intros m (a & x & Ha & Hax & Hin)%Hfr. exists a, x. rewrite elem_of_app. auto. }
    intros m y. change (txs (with_extracted _ p)) with (txs p). rewrite Htx, not_elem_of_app, list_elem_of_singleton.
    split; [|tauto]. intros [Hy Hyi]. repeat split; [done..|]. intros Heq.
    assert (tx_id_to_storage_id p !! id = Some m) as Hc; [|congruence].
    apply (tb_ids _ _ _ Ht). exists y. split; [by apply Htx|]. by apply list_elem_of_singleton.
Qed.

Lemma process_txs_spec p0 ids2 : PoolOk exact p0 → ∀ ids1 p promote warnings,
  Processing p0 ids1 p promote → (exact → block_ordered p0 (ids1 ++ ids2)) →
  ∃ p' promote', foldl process_tx (p, promote, warnings) ids2 = (p', promote', warnings)
    ∧ Processing p0 (ids1 ++ ids2) p' promote'
    ∧ extracted_outputs p' = foldl (λ x id, new_executed_transaction id x) (extracted_outputs p) ids2.
Proof.
  intros Hp0. induction ids2 as [|id ids2 IH]; intros ids1 p promote warnings HP Hord; cbn [foldl].
  - rewrite app_nil_r. eauto.
  - destruct (process_tx_spec p0 ids1 p promote warnings id Hp0 HP) as (p1 & promote1 & -> & HP1 & Hx1).
    { intros Hex n a x Hn Ha Hax. by apply (Hord Hex ids1 id ids2 n a x). }
    destruct (IH (ids1 ++ [id]) p1 promote1 warnings HP1) as (p2 & promote2 & -> & HP2 & Hx2).
    { rewrite <- app_assoc. done. }
    exists p2, promote2. rewrite <- app_assoc in HP2. rewrite Hx2, Hx1. auto.
Qed.

Lemma promote_txs_spec ps : ∀ p warnings,
  GraphOk exact (storage p) → Tables exact (txs p) p →
  SelOk (txs p) (λ n, root (deps p) n ∧ n ∉ ps) (selection_algorithm p) →
  (∀ m, m ∈ ps → root (deps p) m) → NoDup ps →
  ∃ p' ws, foldl promote_tx (p, warnings) ps = (p', warnings ++ ws) ∧ PoolOk exact p' ∧ storage p' = storage p
    ∧ config p' = config p ∧ extracted_outputs p' = extracted_outputs p
    ∧ Forall (λ w, w = DependentStorageDataNotFound) ws ∧ (ws = [] ↔ ∀ m, m ∈ ps → is_Some (txs p !! m)).
Proof.
  induction ps as [|n ps IH]; intros p warnings Hg Ht Hs Hr Hnd; cbn [foldl].
  - exists p, []. rewrite app_nil_r. split; [done|]. split.
    + constructor; [done..|]. eapply SelOk_ext; [|exact Hs]. intros m x. pose proof (not_elem_of_nil m). tauto.
    + repeat split; [constructor|]. by intros _ m ?%not_elem_of_nil.
  - apply NoDup_cons in Hnd as [Hn Hnd]. cbn [promote_tx]. rewrite node_weight_nodes.
    destruct (nodes (graph (storage p)) !! n) as [d|] eqn:Hd.
    + assert (txs p !! n = Some (entry_shape d)) as Hx by (unfold txs; by rewrite shape_lookup, Hd).
      destruct (IH (with_selection (new_executable_transaction n d (selection_algorithm p)) p) warnings)
        as (p' & ws & -> & Hp' & E1 & E2 & E3 & Hw & Hws); [done|by destruct Ht| |intros m Hm; apply Hr; by right|done|].
      { eapply SelOk_ext; [|apply (SelOk_insert (txs p)) with (n := n) (x := entry_shape d);
          [by eapply Tables_ids_unique|apply Ht|exact Hs|done|]].
        - intros m y. cbn. rewrite not_elem_of_cons. pose proof (Hr n ltac:(left)) as Hrn.
          destruct (decide (m = n)) as [->|]; naive_solver.
        - intros [_ Hin]. apply Hin. left. }
      exists p', ws. repeat (split; [done|]). rewrite Hws. split; [|intros Hall m Hm; apply Hall; by right].
      intros Hall m [->|Hm]%elem_of_cons; [by eexists|by apply Hall].
    + destruct (IH p (warnings ++ [DependentStorageDataNotFound])) as (p' & ws & -> & Hp' & E1 & E2 & E3 & Hw & Hws);
        [done|done| |intros m Hm; apply Hr; by right|done|].
      { eapply SelOk_ext; [|exact Hs]. intros m x. cbn. rewrite not_elem_of_cons.
        assert (txs p !! n = None) by (unfold txs; by rewrite shape_lookup, Hd). naive_solver. }
      exists p', (DependentStorageDataNotFound :: ws). rewrite <- app_assoc. repeat (split; [done|]).
      split; [by constructor|]. split; [done|]. intros Hall. destruct (Hall n ltac:(left)) as [x Hx].
      unfold txs in Hx. rewrite shape_lookup, Hd in Hx. done.
Qed.

(** Some transaction to promote is gone exactly when the block has a
    transaction of the pool with one that depends on it. *)
Lemma promoted_in_block p0 ids p promote :
  exact → PoolOk exact p0 → Processing p0 ids p promote →
  ¬ (∀ m, m ∈ promote → is_Some (txs p !! m)) ↔
  ∃ a b x y, edge (deps p0) a b ∧ txs p0 !! a = Some x ∧ txs p0 !! b = Some y ∧ pt_id x.1 ∈ ids ∧ pt_id y.1 ∈ ids.
Proof.
  intros Hex Hp0 [Hg _ _ _ _ Hfr Hal Htx _ _ _]. split.
  - intros Hno. destruct (decide (Forall (λ m, is_Some (txs p !! m)) promote)) as [Hall|Hsome].
    { rewrite Forall_forall in Hall. destruct Hno. intros m. apply Hall. }
    apply not_Forall_Exists, Exists_exists in Hsome as (m & Hm & Hgone); [|apply _].
    destruct (Hfr m Hm) as (a & x & Ha & Hx & Hin).
    destruct (proj2 (gi_dom _ _ _ _ (gw_inv _ (go_wf _ _ (po_graph _ _ Hp0))) _ _ Ha)) as [y Hy]. fold (txs p0) in Hy.
    exists a, m, x, y. do 4 (split; [done|]). destruct (decide (pt_id y.1 ∈ ids)) as [|Hy']; [done|].
    destruct Hgone. exists y. by apply Htx.
  - intros (a & b & x & y & Hab & Hx & Hy & _ & Hin) Hall.
    destruct (Hal a b Hex Hab) as [Hb|Hb]; [destruct (Hall b Hb) as [z Hz]|apply Hb; intros c Hc].
    + apply Htx in Hz as [Hz Hzi]. congruence.
    + destruct (proj2 (gi_dom _ _ _ _ (gw_inv _ (go_wf _ _ Hg)) _ _ Hc)) as [z Hz]. fold (txs p) in Hz.
      apply Htx in Hz as [Hz Hzi]. congruence.
Qed.

Lemma process_block_spec ids p :
  PoolOk exact p → (exact → block_ordered p ids) →
  ∃ p' ws, (∀ debug, process_block debug ids p = if debug && bool_decide (ws ≠ []) then None else Some (p', ws)) ∧ PoolOk exact p'
    ∧ (∀ n x, txs p' !! n = Some x ↔ txs p !! n = Some x ∧ pt_id x.1 ∉ ids)
    ∧ (∀ a b, edge (deps p') a b → edge (deps p) a b)
    ∧ Forall (λ w, w = DependentStorageDataNotFound) ws
    ∧ config p' = config p ∧ stats_fresh p'
    ∧ extracted_outputs p' = foldl (λ x id, new_executed_transaction id x) (extracted_outputs p) ids
    ∧ max_txs_chain_count (storage p') = max_txs_chain_count (storage p)
    ∧ (exact → ws ≠ [] ↔ ∃ a b x y, edge (deps p) a b ∧ txs p !! a = Some x ∧ txs p !! b = Some y
         ∧ pt_id x.1 ∈ ids ∧ pt_id y.1 ∈ ids).
Proof.
  intros Hp Hord. unfold process_block.
  destruct (process_txs_spec p ids Hp [] p [] [] (Processing_start p Hp) Hord) as (p1 & promote & -> & HP & Hx).
  pose proof HP as [Hg Ht Hs Hpr Hnd _ _ Htx Hdp Hcf Hmx].
  destruct (promote_txs_spec promote p1 [] Hg Ht Hs Hpr Hnd) as (p2 & ws & -> & Hp2 & Est & E2 & E3 & Hw & Hws).
  exists (update_stats p2), ws. split; [done|]. split; [by apply update_stats_ok|].
  split; [intros n x; rewrite <- Htx; unfold txs; cbn; by rewrite Est|].
  split; [intros a b; unfold deps; cbn; rewrite Est; apply Hdp|].
  split; [done|]. split; [cbn; congruence|]. split; [apply update_stats_fresh|]. cbn. do 2 (split; [congruence|]).
  intros Hex. rewrite Hws. exact (promoted_in_block p ids p1 promote Hex Hp HP).
Qed.
End blocks.
