(* ===== verification/TxPoolClaims.v ===== *)
(** * What the transaction pool guarantees

    The states that the operations of [pool.rs] can reach from an empty pool,
    and the properties of every such state and of every operation on it.
    [reachable False] admits every sequence of operations on well typed
    arguments; [reachable True] asks in addition that the sums over the pool
    fit into 64 bits and that blocks list a transaction of the pool after its
    dependencies, which the exactness of the counters needs. *)
From S2P Require Import Prelude FuelTypes TxPoolTypes TxPoolGraph TxPool TxPoolForest TxPoolGraphFacts.
From S2P Require Import TxPoolTables TxPoolSelection TxPoolFacts TxPoolBlocks.

(** The operations of the pool. *)
Inductive PoolOp :=
| OpInsert (tx : PoolTransaction) (ps : PersistentStorage) (now : Instant)
| OpExtract (c : Constraints)
| OpProcessBlock (tx_ids : list TxId)
| OpRemoveWithDependents (tx_ids : list TxId)
| OpRemoveSkipped (tx_id : TxId).

Section claims.
Context `{SG : StableDiGraph} `{SL : !StableDiGraphLaws} `{HO : HashOrder}.
Implicit Types (p : Pool).

Definition run_op (op : PoolOp) p : option Pool :=
  match op with
  | OpInsert tx ps now => snd <$> insert tx ps now p
  | OpExtract c => snd <$> extract_transactions_for_block c p
  | OpProcessBlock tx_ids => fst <$> process_block false tx_ids p
  | OpRemoveWithDependents tx_ids => snd <$> remove_transaction_and_dependents tx_ids p
  | OpRemoveSkipped tx_id => snd <$> remove_skipped_transaction tx_id p
  end.

Definition op_ok (exact : Prop) p (op : PoolOp) : Prop :=
  match op with
  | OpInsert tx _ _ => valid_tx tx ∧ (exact → room p tx)
  | OpExtract c => constraints_ok c
  | OpProcessBlock tx_ids => exact → block_ordered p tx_ids
  | OpRemoveWithDependents _ | OpRemoveSkipped _ => True
  end.

Inductive reachable (exact : Prop) (c : PoolConfig) (max_txs_chain_count : Z) : Pool → Prop :=
| reachable_new : reachable exact c max_txs_chain_count (Pool_new c max_txs_chain_count)
| reachable_step p op p' :
    reachable exact c max_txs_chain_count p → op_ok exact p op → run_op op p = Some p' →
    reachable exact c max_txs_chain_count p'.

(** ** The invariant *)
Lemma Pool_new_ok exact c max : PoolOk exact (Pool_new c max).
Proof.
  assert (shape (graph_new) = ∅) as Hs by (unfold shape; by rewrite nodes_new, fmap_empty).
  assert (edge_set graph_new = ∅) as He by (unfold edge_set; by rewrite edges_new).
  assert (∀ q, total ∅ q = 0) as Ht by (intros q; unfold total; by rewrite dom_empty_L).
  assert (txs_ok ∅) as Hok by (by intros n x ?).
  constructor; unfold txs, deps; cbn; rewrite ?Hs, ?He.
  - constructor; cbn; rewrite ?Hs, ?He, ?nodes_new.
    + constructor; cbn; rewrite ?Hs, ?He, ?edges_new; [constructor|].
      assert (∀ a b, ¬ edge ∅ a b) as Hno by (intros a b; unfold edge; set_solver).
      constructor; try (intros a b Hab; by destruct (Hno a b Hab)).
      * constructor; [intros a b Hab|intros a b1 b2 x Hab]; by apply Hno in Hab.
      * by intros a n x u ?.
      * apply owns_empty.
      * apply owns_empty.
      * done.
    + intros _ n d. by rewrite lookup_empty.
    + intros _ q. by rewrite Ht.
  - constructor; cbn; [apply (owns_empty ids_of)| |done|intros _ q; by rewrite Ht|intros _; by rewrite Ht..].
    constructor; cbn; [apply owns_empty..|apply (owns_empty blobs_of)].
  - apply SelOk_empty.
Qed.

(** [p'] is [p] without some transactions. *)
Definition shrinks p p' : Prop :=
  (∀ n, is_Some (txs p' !! n) → is_Some (txs p !! n)) ∧ (∀ a b, edge (deps p') a b → edge (deps p) a b)
  ∧ max_txs_chain_count (storage p') = max_txs_chain_count (storage p).

Lemma cut_shrinks p p' ns : cut (storage p) ns (storage p') → shrinks p p'.
Proof.
  intros (Hs & He & Hm). split; [|split; [|done]].
  - intros n. unfold txs. rewrite Hs. case_decide; [by intros []|done].
  - intros a b Hab. by apply He in Hab as [? _].
Qed.

Lemma pool_op_spec exact p op p' :
  PoolOk exact p → op_ok exact p op → run_op op p = Some p' →
  PoolOk exact p' ∧ config p' = config p ∧ (stats_fresh p → stats_fresh p')
    ∧ (shrinks p p' ∨ ∃ tx ps now can ns es n, inserts p tx ps now can ns es n p').
Proof.
  intros Hp Hop. destruct op as [tx ps now|c|ids|ids|id]; cbn [run_op op_ok] in *.
  - destruct Hop as [Hv Hr]. intros ([r q] & Hrun & ->)%fmap_Some. cbn.
    destruct (insert_spec exact p tx ps now r q Hp Hv Hr Hrun) as [Hp' Hm].
    split; [done|]. destruct r; [|subst; split; [done|]; split; [done|]; left; by split].
    destruct Hm as (can & ns & es & n & _ & Hi). pose proof Hi as Hi'. unfold inserts in Hi'.
    split; [tauto|]. split; [tauto|]. right. by exists tx, ps, now, can, ns, es, n.
  - destruct (extract_spec exact c p Hp Hop) as (es & q & ns & g & s & nb & -> & Hp' & Htk & _ & _ & Hc & Hs & _).
    intros [= <-]. do 3 (split; [done|]). left. eapply cut_shrinks, Htk.
  - destruct (process_block_spec exact ids p Hp Hop) as (q & ws & Hrun & Hp' & Htx & Hd & _ & Hc & Hs & _ & Hm & _).
    rewrite Hrun. intros [= <-]. do 3 (split; [done|]). left. split; [|done]. intros n [x Hx]. apply Htx in Hx as [? _]. by eexists.
  - destruct (remove_transaction_and_dependents_spec exact ids p Hp) as (es & q & ns & -> & Hp' & Hcut & _ & _ & _ & Hc & _ & Hs).
    intros [= <-]. do 3 (split; [done|]). left. by eapply cut_shrinks.
  - destruct (remove_skipped_spec exact id p Hp) as (es & q & ns & -> & Hp' & Hcut & _ & _ & _ & Hc & _ & Hs).
    intros [= <-]. do 3 (split; [done|]). left. by eapply cut_shrinks.
Qed.

Definition is_insert (op : PoolOp) : bool := match op with OpInsert _ _ _ => true | _ => false end.
Lemma pool_op_total exact p op :
  (is_insert op = true → exact) → PoolOk exact p → op_ok exact p op → is_Some (run_op op p).
Proof.
  intros Hex Hp Hop. destruct op as [tx ps now|c|ids|ids|id]; cbn [run_op op_ok] in *.
  - destruct Hop as [Hv Hr]. apply fmap_is_Some. specialize (Hex eq_refl).
    apply (insert_total exact); [done..|]. by apply (exact_has_gas exact).
  - destruct (extract_spec exact c p Hp Hop) as (es & q & ns & g & s & nb & -> & _). by eexists.
  - destruct (process_block_spec exact ids p Hp Hop) as (q & ws & -> & _). by eexists.
  - destruct (remove_transaction_and_dependents_spec exact ids p Hp) as (es & q & ns & -> & _). by eexists.
  - destruct (remove_skipped_spec exact id p Hp) as (es & q & ns & -> & _). by eexists.
Qed.

Lemma reachable_ok exact c max p : reachable exact c max p → PoolOk exact p ∧ config p = c ∧ stats_fresh p.
Proof.
  induction 1 as [|p op p' _ (Hp & Hc & Hs) Hop Hrun].
  - split; [apply Pool_new_ok|]. split; [done|]. unfold stats_fresh, tx_count. cbn. by rewrite map_size_empty.
  - destruct (pool_op_spec exact p op p' Hp Hop Hrun) as (Hq' & Hc' & Hs' & _).
    split; [done|]. split; [congruence|auto].
Qed.

Lemma no_two_conflict exact p n m x y :
  PoolOk exact p → txs p !! n = Some x → txs p !! m = Some y → conflict x.1 y.1 → n = m.
Proof.
  intros Hp Hx Hy Hc. destruct (tb_collisions _ _ _ (po_tables _ _ Hp)) as [Hm Hu Hk Hb].
  destruct Hc as [(k & H1 & H2)|[(k & H1 & H2)|[(k & H1 & H2)|(k & H1 & H2)]]].
  - assert (coins_spenders (collision_manager p) !! k = Some n) by (apply Hu; eauto).
    assert (coins_spenders (collision_manager p) !! k = Some m) by (apply Hu; eauto). congruence.
  - assert (messages_spenders (collision_manager p) !! k = Some n) by (apply Hm; eauto).
    assert (messages_spenders (collision_manager p) !! k = Some m) by (apply Hm; eauto). congruence.
  - assert (cm_contracts_creators (collision_manager p) !! k = Some n) by (apply Hk; eauto).
    assert (cm_contracts_creators (collision_manager p) !! k = Some m) by (apply Hk; eauto). congruence.
  - assert (blobs_users (collision_manager p) !! k = Some n) by (apply Hb; eauto).
    assert (blobs_users (collision_manager p) !! k = Some m) by (apply Hb; eauto). congruence.
Qed.

Lemma tx_count_txs exact p : PoolOk exact p → tx_count p = Z.of_nat (size (txs p)).
Proof.
  intros Hp. unfold tx_count. f_equal. rewrite <- (length_map_to_list (tx_id_to_storage_id p)), <- (length_fmap snd).
  rewrite <- (size_dom (txs p)). unfold size, set_size. cbn. apply Permutation_length, NoDup_Permutation.
  - apply NoDup_fmap_2_strong; [|apply NoDup_map_to_list]. intros [i n] [j m] Hi%elem_of_map_to_list Hj%elem_of_map_to_list.
    cbn. intros <-. apply (id_node exact _ _ _ Hp) in Hi as (x & Hx & <-), Hj as (y & Hy & <-). congruence.
  - apply NoDup_elements.
  - intros n. rewrite list_elem_of_fmap, elem_of_elements, elem_of_dom. split.
    + intros ([i m] & -> & Hi%elem_of_map_to_list). apply (id_node exact _ _ _ Hp) in Hi as (x & Hx & _). by eexists.
    + intros [x Hx]. exists (pt_id x.1, n). split; [done|]. apply elem_of_map_to_list, (id_node exact _ _ _ Hp). eauto.
Qed.

(** ** Every state *)

(** C11 The pool never panics in a build without debug assertions: every
    operation returns, with all loops within their fuel, no failed lookup of a
    node and no ratio with a zero denominator.  Extracting, processing a block
    and removing return in every state that operations on well typed arguments
    can lead to.  An insertion returns ([exact]) if, in it and in all operations
    before it, the sums over the pool and an inserted transaction fit into 64
    bits and blocks list a transaction of the pool after its dependencies.  With
    debug assertions, under the same conditions, the ones of [process_block] fail
    exactly for a block that has two transactions of the pool one of which
    directly depends on the other; those of other operations are not modelled. *)
Theorem pool_never_panics exact c max p op :
  reachable exact c max p → op_ok exact p op → (is_insert op = true → exact) →
  is_Some (run_op op p)
  ∧ ∀ tx_ids, exact → op = OpProcessBlock tx_ids →
      process_block true tx_ids p = None ↔
      ∃ a b x y, edge (deps p) a b ∧ txs p !! a = Some x ∧ txs p !! b = Some y ∧ pt_id x.1 ∈ tx_ids ∧ pt_id y.1 ∈ tx_ids.
Proof.
  intros [Hp _]%reachable_ok Hop Hin. split; [by apply (pool_op_total exact)|]. intros ids Hex ->.
  destruct (process_block_spec exact ids p Hp Hop) as (q & ws & Hrun & _ & _ & _ & _ & _ & _ & _ & _ & Hws).
  rewrite Hrun, <- (Hws Hex). cbn. by case_bool_decide.
Qed.

(** C10 Integrity of the pool in every reachable state: ids and nodes
    correspond; no two transactions conflict; dependencies form a graph
    without cycles and without diamonds, each stands for a created coin or
    contract, and spending a coin of the pool is always a dependency; the
    selection is sorted by decreasing key and holds exactly the transactions
    without dependencies in the pool; the published statistics are current. *)
Theorem pool_integrity c max p :
  reachable False c max p →
  (∀ id n, tx_id_to_storage_id p !! id = Some n ↔ ∃ x, txs p !! n = Some x ∧ pt_id x.1 = id)
  ∧ (∀ n m x y, txs p !! n = Some x → txs p !! m = Some y → conflict x.1 y.1 → n = m)
  ∧ forest (deps p)
  ∧ (∀ a b, edge (deps p) a b → ∃ x y, txs p !! a = Some x ∧ txs p !! b = Some y ∧ provides x.1 y.1)
  ∧ (∀ a b x y u, txs p !! a = Some x → txs p !! b = Some y → u ∈ created_coins x.1 → u ∈ coin_inputs y.1 →
       edge (deps p) a b)
  ∧ SelOk (txs p) (root (deps p)) (selection_algorithm p)
  ∧ pool_stats p = MkStats (Z.of_nat (size (txs p))) (current_bytes_size p) (current_gas p).
Proof.
  intros (Hp & _ & Hs)%reachable_ok. pose proof (gw_inv _ (go_wf _ _ (po_graph _ _ Hp))) as Hinv.
  split; [intros id n; by apply (id_node False)|]. split; [intros n m x y; by apply (no_two_conflict False)|].
  split; [apply Hinv|]. split; [apply Hinv|]. split; [|split; [apply Hp|]].
  - intros a b x y u Hx Hy Hu Hu'. apply (gi_coin_edge _ _ _ _ Hinv a b y u Hy Hu'). apply (gi_cc _ _ _ _ Hinv). eauto.
  - by rewrite Hs, (tx_count_txs False p Hp).
Qed.

(** C17 The counters are exact as long as, in all operations so far, the sums
    over the pool and an inserted transaction fitted into 64 bits and blocks
    listed a transaction of the pool after its dependencies: the cumulative tip,
    gas, size and number kept with a transaction are the sums over the
    transactions that depend on it, directly or not, and itself; the gas and the
    size of the pool are the sums over its transactions. *)
Theorem counters_exact c max p :
  reachable True c max p →
  (∀ n d, nodes (graph (storage p)) !! n = Some d →
     ∃ X, (∀ m, m ∈ X ↔ reach (deps p) n m) ∧ ∀ q, stored q d = set_sum (weight_at (txs p) q) X)
  ∧ current_gas p = total (txs p) QGas ∧ current_bytes_size p = total (txs p) QBytes.
Proof.
  intros (Hp & _)%reachable_ok. split; [by apply (go_cum _ _ (po_graph _ _ Hp))|].
  split; by apply (po_tables _ _ Hp).
Qed.

(** ** Every operation *)

(** C21 An insertion is all or nothing.  An error leaves the pool as it was; on
    success the new transaction is in the pool, what has left are
    exactly the transactions that conflict with it or were evicted, each with
    everything that depends on it, these are what it returns, and every
    transaction of the pool that creates something the new one needs has
    become a dependency.  Evictions happen only when the pool would be over its
    limits and the new transaction depends on nothing in it, and what is
    evicted does not pay more per gas. *)
Theorem insertion_effect c max p tx ps now r p' :
  reachable False c max p → valid_tx tx → insert tx ps now p = Some (r, p') →
      match r with
      | Err _ => p' = p
      | Ok removed => ∃ (evicted ns : list NodeIndex) es n,
          txs p' = <[n := (tx, now)]> (remove_nodes ns (txs p)) ∧ remove_nodes ns (txs p) !! n = None
          ∧ removed = transaction <$> es ∧ Forall2 (λ n e, txs p !! n = Some (entry_shape e)) ns es ∧ NoDup ns
          ∧ (∀ m, m ∈ ns ↔ ∃ k x, txs p !! k = Some x ∧ (k ∈ evicted ∨ conflict x.1 tx) ∧ reach (deps p) k m)
          ∧ (evicted ≠ [] → over_limits p tx ∧ root (deps p') n)
          ∧ (∀ k, k ∈ evicted → root (deps p) k ∧ ∃ d, nodes (graph (storage p)) !! k = Some d
               ∧ dependents_cumulative_tip d * pt_max_gas tx ≤ pt_tip tx * dependents_cumulative_gas d)
          ∧ (∀ a x, txs p' !! a = Some x → edge (deps p') a n → provides x.1 tx)
          ∧ (∀ i a, i ∈ pt_inputs tx → creator (storage p) i = Some a → edge (deps p') a n)
      end.
Proof.
  intros (Hp & _)%reachable_ok Hv Hrun. destruct (insert_spec False p tx ps now r p' Hp Hv ltac:(done) Hrun) as [Hp' Hr].
  destruct r as [removed|e]; [|done].
  destruct Hr as (can & ns & es & n & -> & Hin & Hent & Hnd & Hns & Hn & Hs & He & _).
  destruct (evicted_spec False p tx ps can Hp Hin) as [Hov Hev].
  exists (to_remove can), ns, es, n. do 5 (split; [done|]). split; [|split; [|split; [done|split]]].
  - intros m. rewrite Hns. setoid_rewrite (in_collisions _ _ _ _ Hin). split.
    + intros (r & [Hr|(x & Hx & Hc)] & [y Hy] & Hrm); eauto 10.
    + intros (k & x & Hx & [Hk|Hc] & Hkm); exists k; eauto 10.
  - intros [Ho Hall]%Hov. split; [done|]. intros a [[Ha _]|(Ha & _ & Hnn)]%He.
    + assert (a ∈ all_dependencies (checked_transaction can)); [|set_solver].
      apply (co_all _ _ _ (in_checked _ _ _ _ Hin)). exists a. split; [done|apply rtc_refl].
    + apply (gi_dom _ _ _ _ (gw_inv _ (go_wf _ _ (po_graph _ _ Hp)))) in Ha as [_ [x Hx]]. fold (txs p) in Hx.
      rewrite remove_nodes_lookup, decide_False in Hn by done. congruence.
  - intros a x Hx Ha. pose proof (gw_inv _ (go_wf _ _ (po_graph _ _ Hp'))) as Hinv.
    apply (gi_reason _ _ _ _ Hinv) in Ha as (y & z & Hy & Hz & Hpr). fold (txs p') in Hy, Hz.
    rewrite Hs, lookup_insert_eq in Hz. injection Hz as <-. assert (x = y) as -> by congruence. done.
  - intros i a Hi Hc. apply He. left. split; [|done]. apply (co_direct _ _ _ (in_checked _ _ _ _ Hin)). eauto.
Qed.

(** A replacement pays more: when a transaction is inserted over one that it
    conflicts with, its tip per gas is strictly higher than that of the
    conflicting transaction taken together with everything that depends on it. *)
Theorem replacement_pays_more c max p tx ps now removed p' :
  reachable True c max p → valid_tx tx → room p tx → insert tx ps now p = Some (Ok removed, p') →
  ∀ n x X, txs p !! n = Some x → conflict x.1 tx → (∀ m, m ∈ X ↔ reach (deps p) n m) →
  set_sum (weight_at (txs p) QTip) X * pt_max_gas tx < pt_tip tx * set_sum (weight_at (txs p) QGas) X.
Proof.
  intros (Hp & _)%reachable_ok Hv Hroom Hrun n x X Hx Hc HX.
  destruct (insert_spec True p tx ps now _ p' Hp Hv ltac:(done) Hrun) as [_ Hr]. destruct Hr as (can & ns & es & k & _ & Hin & _).
  destruct (in_better _ _ _ _ Hin n) as (d & Hd & Hb); [apply (in_collisions _ _ _ _ Hin); eauto|].
  destruct (go_cum _ _ (po_graph _ _ Hp) I n d Hd) as (Y & HY & HsY).
  assert (X = Y) as -> by (apply set_eq; intros m; by rewrite HX, HY).
  unfold txs. by rewrite <- (HsY QTip), <- (HsY QGas).
Qed.

(** C19 Extraction for a block respects its constraints and is greedy to the
    end: it returns distinct transactions of the pool, every one after the
    transactions of the pool that it depends on, all at the minimal gas price
    or above, within the gas, the size and the number asked for; exactly these
    leave the pool; and when it stops with something left of each limit, no
    transaction without dependencies that is still in the pool would fit. *)
Theorem extraction_valid c max p cs :
  reachable False c max p → constraints_ok cs →
  ∃ es p' ns, extract_transactions_for_block cs p = Some (transaction <$> es, p')
    ∧ Forall2 (λ n e, txs p !! n = Some (entry_shape e)) ns es ∧ NoDup ns
    ∧ (∀ i a b, ns !! i = Some b → edge (deps p) a b → ∃ j, (j < i)%nat ∧ ns !! j = Some a)
    ∧ (∀ n x, txs p' !! n = Some x ↔ txs p !! n = Some x ∧ n ∉ ns)
    ∧ Forall (λ e, minimal_gas_price cs ≤ pt_max_gas_price (transaction e)) es
    ∧ gas_of es ≤ max_gas cs ∧ bytes_of es ≤ maximum_block_size cs ∧ Z.of_nat (length es) ≤ maximum_txs cs
    ∧ (gas_of es < max_gas cs → bytes_of es < maximum_block_size cs → Z.of_nat (length es) < maximum_txs cs →
       ∀ n x, txs p' !! n = Some x → root (deps p') n →
       unfit cs (max_gas cs - gas_of es) (maximum_block_size cs - bytes_of es) x.1).
Proof.
  intros (Hp & _)%reachable_ok Hc.
  destruct (extract_spec False cs p Hp Hc) as (es & p' & ns & gas & space & nb & Hrun & _ & [_ Hcut Hent Hnd Hord] & Hbu & Hex & _).
  exists es, p', ns. destruct Hbu as [[Hg Hg'] [Hs Hs'] [Hn Hn'] Hpr]. do 4 (split; [done|]).
  split; [intros n x; unfold txs; destruct Hcut as (-> & _); case_decide; naive_solver|].
  split; [done|]. do 3 (split; [lia|]). intros H1 H2 H3 n x Hx Hr.
  replace (max_gas cs - gas_of es) with gas by lia. replace (maximum_block_size cs - bytes_of es) with space by lia.
  destruct Hex as [?|[?|[?|Hex]]]; [lia..|]. by apply (Hex n x).
Qed.

(** A processed block takes exactly its transactions out of the pool, and
    afterwards the selection holds exactly the transactions that no longer
    wait for anything in the pool.  The only warning it can log is the one for
    a dependent that was itself in the block. *)
Theorem process_block_effect c max p tx_ids :
  reachable False c max p →
  ∃ p' warnings, process_block false tx_ids p = Some (p', warnings)
    ∧ (∀ n x, txs p' !! n = Some x ↔ txs p !! n = Some x ∧ pt_id x.1 ∉ tx_ids)
    ∧ SelOk (txs p') (root (deps p')) (selection_algorithm p')
    ∧ Forall (λ w, w = DependentStorageDataNotFound) warnings.
Proof.
  intros (Hp & _)%reachable_ok.
  destruct (process_block_spec False tx_ids p Hp ltac:(done)) as (p' & ws & Hrun & Hp' & Htx & _ & Hw & _).
  exists p', ws. split; [done|]. split; [done|]. split; [apply Hp'|done].
Qed.

(** C39 In every state that operations on well typed arguments can lead to,
    removing transactions by their ids returns, and removes exactly those of
    them that are in the pool and everything that depends on them, directly or
    not; what it removed is what it returns. *)
Theorem removal_effect c max p tx_ids :
  reachable False c max p →
  ∃ es p' ns, remove_transaction_and_dependents tx_ids p = Some (transaction <$> es, p')
    ∧ Forall2 (λ n e, txs p !! n = Some (entry_shape e)) ns es ∧ NoDup ns
    ∧ txs p' = remove_nodes ns (txs p)
    ∧ (∀ m, m ∈ ns ↔ ∃ k x, txs p !! k = Some x ∧ pt_id x.1 ∈ tx_ids ∧ reach (deps p) k m).
Proof.
  intros (Hp & _)%reachable_ok.
  destruct (remove_transaction_and_dependents_spec False tx_ids p Hp) as (es & p' & ns & Hrun & _ & Hcut & Hent & Hnd & Hns & _).
  exists es, p', ns. do 3 (split; [done|]). split; [|done]. by apply cut_shape.
Qed.

(** ** Chains of dependents *)
Definition chains_bounded p : Prop :=
  ∀ n (X : gset NodeIndex), is_Some (txs p !! n) → (∀ m, m ∈ X ↔ reach (deps p) n m) →
  Z.of_nat (size X) ≤ Z.max 1 (max_txs_chain_count (storage p)).

Lemma set_sum_count T (X : gset NodeIndex) : X ⊆ dom T → set_sum (weight_at T QCount) X = Z.of_nat (size X).
Proof.
  intros Hsub. unfold set_sum, size, set_size. cbn.
  assert (∀ n, n ∈ elements X → weight_at T QCount n = 1) as Hone.
  { intros n [x Hx]%elem_of_elements%Hsub%elem_of_dom. unfold weight_at. by rewrite Hx. }
  unfold sum_list. revert Hone. induction (elements X) as [|n l IH]; intros Hone; cbn [foldr length]; [done|].
  rewrite Hone by left. rewrite IH; [lia|]. intros m Hm. apply Hone. by right.
Qed.

Lemma reached_set p n :
  PoolOk True p → is_Some (txs p !! n) →
  ∃ d (X : gset NodeIndex), nodes (graph (storage p)) !! n = Some d ∧ (∀ m, m ∈ X ↔ reach (deps p) n m)
    ∧ number_dependents_in_chain d = Z.of_nat (size X).
Proof.
  intros Hp Hn. unfold txs in Hn. apply shape_is_Some in Hn as Hd. destruct Hd as [d Hd].
  destruct (go_cum _ _ (po_graph _ _ Hp) I n d Hd) as (X & HX & HsX). exists d, X. split; [done|]. split; [done|].
  change (stored QCount d = Z.of_nat (size X)). rewrite (HsX QCount). apply set_sum_count. intros m Hm%HX.
  apply elem_of_dom. by eapply reach_dom; [apply (go_wf _ _ (po_graph _ _ Hp))| |].
Qed.

Lemma shrinks_bounded p p' : PoolOk True p → shrinks p p' → chains_bounded p → chains_bounded p'.
Proof.
  intros Hp (Hs & He & Hm) Hb n X Hn HX. rewrite Hm. apply Hs in Hn.
  destruct (reached_set p n Hp Hn) as (d & Y & _ & HY & _). etrans; [|apply (Hb n Y Hn HY)].
  apply inj_le, subseteq_size. intros m Hm'%HX. apply HY. eapply reach_mono; [|exact Hm'].
  intros [a b] Hab. by apply He.
Qed.

Lemma inserts_bounded p tx ps now can ns es n p' :
  PoolOk True p → inserts p tx ps now can ns es n p' → chains_bounded p → chains_bounded p'.
Proof.
  intros Hp (Hin & _ & _ & Hns & Hn & Hs & He & _ & _ & _ & Hm) Hb k X Hk HX. rewrite Hm.
  pose proof (gw_inv _ (go_wf _ _ (po_graph _ _ Hp))) as Hinv. pose proof (in_checked _ _ _ _ Hin) as Hck.
  set (E1 := filter (λ e : NodeIndex * NodeIndex, e.1 ∉ ns ∧ e.2 ∉ ns) (deps p)).
  set (D := direct_dependencies (checked_transaction can)) in *.
  assert (∀ a b, edge E1 a b ↔ edge (deps p) a b ∧ a ∉ ns ∧ b ∉ ns) as HE1.
  { intros a b. unfold edge, E1. rewrite elem_of_filter. cbn. tauto. }
  assert (deps p' = below E1 D n) as Hd.
  { apply set_eq. intros [a b]. change (edge (deps p') a b ↔ edge (below E1 D n) a b). by rewrite He, edge_below, HE1. }
  assert (∀ a, is_Some (txs p !! a) → a ∉ ns → a ≠ n) as Hne.
  { intros a [x Hx] Ha ->. rewrite remove_nodes_lookup, decide_False in Hn by done. congruence. }
  assert (∀ b, ¬ edge E1 n b) as Hnl.
  { intros b (Ha & Hna & _)%HE1. pose proof (gi_dom _ _ _ _ Hinv _ _ Ha) as [Hx _]. by apply (Hne n Hx Hna). }
  assert (∀ a, ¬ edge E1 a n) as Hnr.
  { intros a (Ha & _ & Hna)%HE1. pose proof (gi_dom _ _ _ _ Hinv _ _ Ha) as [_ Hx]. by apply (Hne n Hx Hna). }
  assert (∀ a, a ∈ D → a ∉ ns) as HDns.
  { intros a Ha (r & [Hr|Hr] & _ & Hra)%Hns.
    - destruct (in_space _ _ _ _ Hin) as [[Hnil _]|[Hall _]]; [rewrite Hnil in Hr; by apply not_elem_of_nil in Hr|].
      assert (a ∈ all_dependencies (checked_transaction can)); [|set_solver]. apply (co_all _ _ _ Hck). exists a. split; [done|apply rtc_refl].
    - apply (in_apart _ _ _ _ Hin r Hr), (co_all _ _ _ Hck). exists a. done. }
  assert (n ∉ D) as HnD.
  { intros HD. pose proof (HDns n HD) as Hnn. apply (co_direct _ _ _ Hck) in HD as (i & _ & Hc).
    apply creator_present in Hc; [|apply Hp]. by apply (Hne n Hc Hnn). }
  assert (E1 ⊆ deps p) as Hsub by (intros [a b] Hab; by apply HE1 in Hab as [? _]).
  rewrite Hd in HX. destruct (decide (k = n)) as [->|Hkn].
  - assert (X ⊆ {[n]}) as HX1.
    { intros m Hm'%HX. apply elem_of_singleton. symmetry. by eapply (reach_new E1 D n). }
    apply subseteq_size in HX1. rewrite size_singleton in HX1. lia.
  - assert (is_Some (txs p !! k)) as Hk'.
    { destruct Hk as [x Hx]. rewrite Hs, lookup_insert_ne, remove_nodes_lookup in Hx by done. case_decide; [done|]. by eexists. }
    destruct (reached_set p k Hp Hk') as (d & Y & Hdk & HY & Hcnt).
    assert (X ⊆ {[n]} ∪ Y) as HXY.
    { intros m Hm'%HX. destruct (decide (m = n)) as [->|Hmn]; [set_solver|]. apply elem_of_union_r, HY.
      apply (reach_below E1 D n Hnl Hnr HnD k m Hmn) in Hm'. by eapply reach_mono. }
    destruct (decide (n ∈ X)) as [HnX|HnX].
    + apply HX, (reach_below_new E1 D n Hnl Hnr HnD) in HnX as [?|(a & Ha & Hka)]; [done|].
      assert (number_dependents_in_chain d < max_txs_chain_count (storage p)) as Hlt.
      { apply (co_chain _ _ _ Hck k d); [|done]. apply (co_all _ _ _ Hck). exists a. split; [done|]. by eapply reach_mono. }
      apply subseteq_size in HXY. pose proof (size_union_alt {[n]} Y) as Hu. rewrite size_singleton in Hu.
      pose proof (subseteq_size (Y ∖ {[n]}) Y ltac:(set_solver)). lia.
    + etrans; [|apply (Hb k Y Hk' HY)]. apply inj_le, subseteq_size. set_solver.
Qed.

(** Chains stay short: no transaction of the pool has more transactions
    depending on it, itself included, than the configured limit. *)
Theorem dependents_bounded c max p n (X : gset NodeIndex) :
  reachable True c max p → is_Some (txs p !! n) → (∀ m, m ∈ X ↔ reach (deps p) n m) →
  Z.of_nat (size X) ≤ Z.max 1 max.
Proof.
  intros Hreach. assert (PoolOk True p ∧ chains_bounded p ∧ max_txs_chain_count (storage p) = max) as (_ & Hb & <-).
  { induction Hreach as [|p op p' _ (Hp & Hb & Hm) Hop Hrun].
    - split; [apply Pool_new_ok|]. split; [|done]. intros k Y Hk. unfold txs, shape in Hk. cbn in Hk.
      rewrite nodes_new, fmap_empty, lookup_empty in Hk. by destruct Hk.
    - destruct (pool_op_spec True p op p' Hp Hop Hrun) as (Hq' & _ & _ & Hcase).
      split; [done|]. destruct Hcase as [Hsh|(tx & ps & now & can & ns & es & k & Hi)].
      + split; [by apply (shrinks_bounded p)|]. rewrite <- Hm. apply Hsh.
      + split; [by apply (inserts_bounded p tx ps now can ns es k)|]. rewrite <- Hm. unfold inserts in Hi. tauto. }
  intros Hn HX. by apply (Hb n X).
Qed.
End claims.
