(* ===== verification/TxPoolWorker.v ===== *)
(** * Transaction pool: the worker

    [pool_worker.rs]: the thread that owns the pool and the pending pool and
    serves requests from its channels.  [None] is a panic of a build
    without debug assertions.  Each time the code asks for the latest view of the
    database or for the time, the environment answers: the worker counts its
    questions, so that two answers may differ.  Channels are queues with a
    capacity; a failed [try_send] is only logged, so the message is dropped.
    The answers sent through [oneshot] channels are collected in the worker. *)
From stdpp Require Import strings.
From S2P Require Import Prelude FuelTypes TxPoolTypes TxPoolGraph TxPool TxPoolPending.

(** ** Channels *)
Record Channel (A : Type) := MkChannel {
  capacity : Z;
  queue : list A;
  closed : bool
}.
Arguments MkChannel {A} capacity queue closed.
Arguments capacity {A} c.
Arguments queue {A} c.
Arguments closed {A} c.

Definition channel {A} (capacity : Z) : Channel A := MkChannel capacity [] false.
Definition try_send {A} (x : A) (c : Channel A) : Channel A :=
  if decide (closed c = false ∧ Z.of_nat (length (queue c)) < capacity c)
  then MkChannel (capacity c) (queue c ++ [x]) (closed c) else c.

(** What a receiver that is polled finds: nothing yet, the end, or messages. *)
Inductive Received (A : Type) := NothingYet | Ended | Messages (l : list A) (c : Channel A).
Arguments NothingYet {A}.
Arguments Ended {A}.
Arguments Messages {A} l c.
Definition recv_many {A} (limit : Z) (c : Channel A) : Received A :=
  match queue c with
  | [] => if closed c then Ended else NothingYet
  | l => Messages (take (Z.to_nat limit) l) (MkChannel (capacity c) (drop (Z.to_nat limit) l) (closed c))
  end.
Definition recv {A} (c : Channel A) : Received A := recv_many 1 c.

(** ** Requests *)
Definition MAX_PENDING_READ_POOL_REQUESTS : Z := 10000.
Definition MAX_PENDING_INSERT_POOL_REQUESTS : Z := 1000.
Definition MAX_PENDING_REMOVE_POOL_REQUESTS : Z := 1000.
Definition SIZE_EXTRACT_BLOCK_TRANSACTIONS_CHANNEL : Z := 100000.
Definition SIZE_NOTIFICATION_CHANNEL : Z := 10000000.
Definition SIZE_THREAD_MANAGEMENT_CHANNEL : Z := 10.

Inductive ThreadManagementRequest := StopThread.
Inductive PoolInsertRequest := RequestInsert (tx : PoolTransaction) (source : InsertionSource).
Inductive PoolExtractBlockTransactions :=
| ExtractBlockTransactions (constraints : Constraints) (transactions : SenderId).

(** What the worker reads of a [SharedImportResult]. *)
Record BlockResult := MkBlockResult {
  br_transactions : list Transaction;
  br_tx_ids : list TxId
}.
Inductive PoolRemoveRequest :=
| RequestProcessBlock (block_result : BlockResult)
| RequestSkippedTransactions (dependents_ids : list (TxId * PoolError))
| RequestTxAndCoinDependents (tx_and_dependents_ids : list TxId * PoolError).
Inductive PoolReadRequest :=
| RequestNonExistingTxs (tx_ids : list TxId) (response_channel : SenderId)
| RequestTxs (tx_ids : list TxId) (response_channel : SenderId)
| RequestTxIds (max_txs : Z) (response_channel : SenderId).

Record TxInfo := MkTxInfo { info_tx : PoolTransaction; info_creation_instant : Instant }.
Inductive Answer :=
| AnswerTxIds (tx_ids : list TxId)
| AnswerTxs (txs : list (option TxInfo))
| AnswerBlock (txs : list PoolTransaction).

(** The database, the clock and the text of a message. *)
Class WorkerEnv := {
  latest_view : nat → result string PersistentStorage;
  system_now : nat → Instant;
  skipped_message : TxId → PoolError → string
}.

Section worker.
Context `{StableDiGraph, HashOrder, WorkerEnv}.

(** [request_insert] is the channel that the worker receives insertions from
    and that it sends resolved transactions to. *)
Record PoolWorker := MkPoolWorker {
  thread_management : Channel ThreadManagementRequest;
  request_remove : Channel PoolRemoveRequest;
  request_read : Channel PoolReadRequest;
  extract_block_transactions : Channel PoolExtractBlockTransactions;
  request_insert : Channel PoolInsertRequest;
  notifications : Channel PoolNotification;
  pool : Pool;
  pending_pool : PendingPool;
  answers : list (SenderId * Answer);
  questions : nat
}.
#[export] Instance eta_PoolWorker : Eta PoolWorker := λ r,
  MkPoolWorker (thread_management r) (request_remove r) (request_read r) (extract_block_transactions r)
    (request_insert r) (notifications r) (pool r) (pending_pool r) (answers r) (questions r).

Definition PoolWorker_new (tx_pool : Pool) : PoolWorker :=
  let limits := service_channel_limits (config tx_pool) in
  MkPoolWorker (channel SIZE_THREAD_MANAGEMENT_CHANNEL)
    (channel (max_pending_write_pool_requests limits))
    (channel (max_pending_read_pool_requests limits))
    (channel SIZE_EXTRACT_BLOCK_TRANSACTIONS_CHANNEL)
    (channel (max_pending_write_pool_requests limits))
    (channel SIZE_NOTIFICATION_CHANNEL)
    tx_pool (PendingPool_new (pending_pool_tx_ttl (config tx_pool))) [] 0.

Definition set_pool (p : Pool) (self : PoolWorker) : PoolWorker := self <| pool := p |>.
Definition set_pending_pool (p : PendingPool) (self : PoolWorker) : PoolWorker := self <| pending_pool := p |>.
Definition notify (n : PoolNotification) (self : PoolWorker) : PoolWorker :=
  self <| notifications := try_send n (notifications self) |>.
Definition answer (to : SenderId) (a : Answer) (self : PoolWorker) : PoolWorker :=
  self <| answers := answers self ++ [(to, a)] |>.
Definition asked (self : PoolWorker) : PoolWorker := self <| questions := S (questions self) |>.

Definition has_enough_space_in_pools (self : PoolWorker) (tx : PoolTransaction) : bool :=
  let tx_gas := pt_max_gas tx in
  let bytes_size := pt_metered_bytes_size tx in
  let limits := pool_limits (config (pool self)) in
  let percentage := max_pending_pool_size_percentage (config (pool self)) in
  if decide (saturating_add u64 (current_gas (pool self)) tx_gas > limit_max_gas limits
     ∨ saturating_add usize (current_bytes_size (pool self)) bytes_size > limit_max_bytes_size limits
     ∨ saturating_add usize (tx_count (pool self)) 1 > limit_max_txs limits)
  then false
  else
    let gas_used := saturating_add u64 (pending_current_gas (pending_pool self)) tx_gas in
    let bytes_used := saturating_add usize (pending_current_bytes (pending_pool self)) bytes_size in
    let txs_used := saturating_add usize (pending_current_txs (pending_pool self)) 1 in
    let max_gas := saturating_div u64 (saturating_mul u64 (limit_max_gas limits) percentage) 100 in
    let max_bytes := saturating_div usize (saturating_mul usize (limit_max_bytes_size limits) percentage) 100 in
    let max_txs := saturating_div usize (saturating_mul usize (limit_max_txs limits) percentage) 100 in
    if decide (gas_used > max_gas ∨ bytes_used > max_bytes ∨ txs_used > max_txs) then false else true.

(** The end of a successful insertion: notifications, then the transactions
    that waited for an output of the new one go back to the queue. *)
Definition inserted (tx : PoolTransaction) (source : InsertionSource) (removed_txs : list PoolTransaction)
    (self : PoolWorker) : option PoolWorker :=
  extended_source ←
    match source with
    | SourceP2P from_peer_info => Some (ExtendedP2P from_peer_info)
    | SourceRPC response_channel =>
        stored ← pool_get (pool self) (pt_id tx);
        Some (ExtendedRPC (transaction stored) response_channel)
    end;
  let self := asked (notify (NotifyInserted (pt_id tx) (system_now (questions self)) (pt_expiration tx) extended_source) self) in
  let self := foldl (λ self tx', notify (NotifyRemoved (pt_id tx') (Removed (LessWorth (pt_id tx)))) self) self removed_txs in
  '(resolved_txs, p) ← new_known_tx tx (pending_pool self);
  let self := set_pending_pool p self in
  Some (self <| request_insert := foldl (λ c r, try_send (RequestInsert r.1 r.2) c) (request_insert self) resolved_txs |>).

Definition worker_insert (tx : PoolTransaction) (source : InsertionSource) (self : PoolWorker) : option PoolWorker :=
  let tx_id := pt_id tx in
  let view := latest_view (questions self) in
  let self := asked self in
  match view with
  | Err err => Some (notify (NotifyErrorInsertion tx_id (DatabaseError err) source) self)
  | Ok view =>
      '(res, p) ← insert tx view (system_now (questions self)) (pool self);
      let self := asked (set_pool p self) in
      match res with
      | Ok removed_txs => inserted tx source removed_txs self
      | Err (InsertionMissingInputs missing) =>
          match missing with
          | [] => Some self
          | missing_input :: _ =>
              if has_enough_space_in_pools self tx
              then
                pending ← insert_transaction tx source missing (system_now (questions self)) (pending_pool self);
                Some (asked (set_pending_pool pending self))
              else Some (notify (NotifyErrorInsertion tx_id (Error_from_missing missing_input) source) self)
          end
      | Err (InsertionError error) => Some (notify (NotifyErrorInsertion tx_id error source) self)
      end
  end.

Definition worker_extract (constraints : Constraints) (blocks : SenderId) (self : PoolWorker) : option PoolWorker :=
  '(txs, p) ← extract_transactions_for_block constraints (pool self);
  Some (answer blocks (AnswerBlock txs) (set_pool p self)).

Definition worker_process_block (block_result : BlockResult) (self : PoolWorker) : option PoolWorker :=
  '(p, _) ← process_block false (br_tx_ids block_result) (pool self);
  let self := set_pool p self in
  '(resolved_txs, p) ← new_known_txs (zip (br_transactions block_result) (br_tx_ids block_result)) (pending_pool self);
  fold_panic (λ self r, worker_insert r.1 r.2 self) (set_pending_pool p self) resolved_txs.

(** The message names the transaction that is removed, not its parent. *)
Definition remove_skipped (self : PoolWorker) (parent : TxId * PoolError) : option PoolWorker :=
  let '(tx_id, reason) := parent in
  '(removed, p) ← remove_skipped_transaction tx_id (pool self);
  Some (foldl (λ self tx, notify (NotifyRemoved (pt_id tx) (SkippedTransaction (skipped_message (pt_id tx) reason))) self)
          (set_pool p self) removed).
Definition remove_skipped_transactions (parent_txs : list (TxId * PoolError)) (self : PoolWorker) : option PoolWorker :=
  fold_panic remove_skipped self parent_txs.

Definition remove_and_coin_dependents (tx_ids : list TxId * PoolError) (self : PoolWorker) : option PoolWorker :=
  let '(tx_ids, error) := tx_ids in
  '(removed, p) ← remove_transaction_and_dependents tx_ids (pool self);
  Some (foldl (λ self tx, notify (NotifyRemoved (pt_id tx) error) self) (set_pool p self) removed).

Definition get_tx_ids (max_txs : Z) (tx_ids_sender : SenderId) (self : PoolWorker) : PoolWorker :=
  answer tx_ids_sender
    (AnswerTxIds (take (Z.to_nat max_txs) (iter_set (dom (tx_id_to_storage_id (pool self)))))) self.
Definition get_txs (tx_ids : list TxId) (txs_sender : SenderId) (self : PoolWorker) : PoolWorker :=
  answer txs_sender
    (AnswerTxs ((λ tx_id, (λ d, MkTxInfo (transaction d) (creation_instant d)) <$> pool_get (pool self) tx_id) <$> tx_ids))
    self.
Definition get_non_existing_txs (tx_ids : list TxId) (response_channel : SenderId) (self : PoolWorker) : PoolWorker :=
  answer response_channel (AnswerTxIds (filter (λ tx_id, contains (pool self) tx_id = false) tx_ids)) self.

(** ** One round of the worker *)
Definition handle_remove (self : PoolWorker) (remove : PoolRemoveRequest) : option PoolWorker :=
  match remove with
  | RequestProcessBlock block_result => worker_process_block block_result self
  | RequestSkippedTransactions dependents_ids => remove_skipped_transactions dependents_ids self
  | RequestTxAndCoinDependents tx_and_dependents_ids => remove_and_coin_dependents tx_and_dependents_ids self
  end.
Definition handle_read (self : PoolWorker) (read : PoolReadRequest) : PoolWorker :=
  match read with
  | RequestTxIds max_txs response_channel => get_tx_ids max_txs response_channel self
  | RequestTxs tx_ids response_channel => get_txs tx_ids response_channel self
  | RequestNonExistingTxs tx_ids response_channel => get_non_existing_txs tx_ids response_channel self
  end.
Definition handle_insert (self : PoolWorker) (request : PoolInsertRequest) : option PoolWorker :=
  match request with RequestInsert tx source => worker_insert tx source self end.

(** [pending_pool_expiration_check.tick()] is due. *)
Definition handle_tick (self : PoolWorker) : PoolWorker :=
  let '(sent, p) := expire_transactions (system_now (questions self)) (pending_pool self) in
  foldl (λ self n, notify n self) (asked (set_pending_pool p self)) sent.

(** [run] returns [true] when the worker stops; [Waiting] is a future that is
    not ready. *)
Inductive RunResult := Waiting | Finished (stop : bool) (self : PoolWorker).

Definition run_insert_or_tick (tick : bool) (self : PoolWorker) : option RunResult :=
  match recv_many MAX_PENDING_INSERT_POOL_REQUESTS (request_insert self) with
  | Ended => Some (Finished true self)
  | Messages l c =>
      self ← fold_panic handle_insert (self <| request_insert := c |>) l;
      Some (Finished false self)
  | NothingYet => Some (if tick then Finished false (handle_tick self) else Waiting)
  end.
Definition run_read (tick : bool) (self : PoolWorker) : option RunResult :=
  match recv_many MAX_PENDING_READ_POOL_REQUESTS (request_read self) with
  | Ended => Some (Finished true self)
  | Messages l c => Some (Finished false (foldl handle_read (self <| request_read := c |>) l))
  | NothingYet => run_insert_or_tick tick self
  end.
Definition run_remove (tick : bool) (self : PoolWorker) : option RunResult :=
  match recv_many MAX_PENDING_REMOVE_POOL_REQUESTS (request_remove self) with
  | Ended => Some (Finished true self)
  | Messages l c =>
      self ← fold_panic handle_remove (self <| request_remove := c |>) l;
      Some (Finished false self)
  | NothingYet => run_read tick self
  end.
Definition run_extract (tick : bool) (self : PoolWorker) : option RunResult :=
  match recv (extract_block_transactions self) with
  | Messages [ExtractBlockTransactions constraints transactions] c =>
      self ← worker_extract constraints transactions (self <| extract_block_transactions := c |>);
      Some (Finished false self)
  | Messages _ _ | Ended => Some (Finished true self)
  | NothingYet => run_remove tick self
  end.
Definition run (tick : bool) (self : PoolWorker) : option RunResult :=
  match recv (thread_management self) with
  | Messages _ _ | Ended => Some (Finished true self)
  | NothingYet => run_extract tick self
  end.
End worker.
