(* ===== verification/TxPoolWorkerFacts.v ===== *)
(** * What the worker of the transaction pool guarantees

    The worker of [pool_worker.rs] drives the pool only through its operations,
    so everything shown about them holds for the pool inside the worker; a
    submitted transaction always has an outcome that is reported or leaves it
    in the pending pool; and the pending pool stays within its share. *)
From stdpp Require Import strings.
From S2P Require Import Prelude FuelTypes TxPoolTypes TxPoolGraph TxPool TxPoolPending TxPoolForest TxPoolGraphFacts.
From S2P Require Import TxPoolTables TxPoolSelection TxPoolFacts TxPoolBlocks TxPoolClaims.
From S2P Require Import TxPoolPendingFacts TxPoolPendingClaims TxPoolWorker.

Section worker_facts.
Context `{SG : StableDiGraph} `{SL : !StableDiGraphLaws} `{HO : HashOrder} `{WE : WorkerEnv}.
Implicit Types (w : PoolWorker).

(** ** Steps

    One round of the worker, or something its surroundings do: send a request
    with well formed contents, or take notifications. *)
Inductive worker_step : PoolWorker → PoolWorker → Prop :=
| step_round tick w stop w' : run tick w = Some (Finished stop w') → worker_step w w'
| step_send_insert w tx source :
    valid_tx tx → worker_step w (w <| request_insert := try_send (RequestInsert tx source) (request_insert w) |>)
| step_send_remove w r : worker_step w (w <| request_remove := try_send r (request_remove w) |>)
| step_send_read w r : worker_step w (w <| request_read := try_send r (request_read w) |>)
| step_send_extract w constraints to :
    constraints_ok constraints →
    worker_step w
      (w <| extract_block_transactions :=
              try_send (ExtractBlockTransactions constraints to) (extract_block_transactions w) |>)
| step_send_stop w : worker_step w (w <| thread_management := try_send StopThread (thread_management w) |>)
| step_notified w c : worker_step w (w <| notifications := c |>).

Definition worker_reachable (c : PoolConfig) (max_txs_chain_count : Z) w : Prop :=
  rtc worker_step (PoolWorker_new (Pool_new c max_txs_chain_count)) w.

(** ** The invariant *)

(** The part of the pool limits that the pending pool may use. *)
Definition pending_share (limit percentage : Z) : Z := saturating_div u64 (saturating_mul u64 limit percentage) 100.

(** What matters of a worker. *)
Definition core w : Pool * PendingPool * list PoolInsertRequest * list PoolExtractBlockTransactions :=
  (pool w, pending_pool w, queue (request_insert w), queue (extract_block_transactions w)).

Record CoreOk (c : PoolConfig) (max : Z) (p : Pool) (pp : PendingPool) (inserts : list PoolInsertRequest)
    (extracts : list PoolExtractBlockTransactions) : Prop := {
  wo_pool : reachable False c max p;
  wo_inserts tx source : RequestInsert tx source ∈ inserts → valid_tx tx;
  wo_pending id t : pending_inputs_by_tx pp !! id = Some t → valid_tx (pending_tx t);
  wo_extracts constraints to : ExtractBlockTransactions constraints to ∈ extracts → constraints_ok constraints;
  wo_sized : sized pp;
  wo_share :
    pending_current_gas pp ≤ pending_share (limit_max_gas (pool_limits c)) (max_pending_pool_size_percentage c)
    ∧ pending_current_bytes pp
        ≤ pending_share (limit_max_bytes_size (pool_limits c)) (max_pending_pool_size_percentage c)
    ∧ pending_current_txs pp ≤ pending_share (limit_max_txs (pool_limits c)) (max_pending_pool_size_percentage c)
}.
Definition WorkerOk (c : PoolConfig) (max : Z) w : Prop :=
  CoreOk c max (pool w) (pending_pool w) (queue (request_insert w)) (queue (extract_block_transactions w)).

Lemma WorkerOk_core c max w w' : core w' = core w → WorkerOk c max w → WorkerOk c max w'.
Proof. unfold WorkerOk. intros [= -> -> -> ->]. done. Qed.

Lemma WorkerOk_pool c max w p : WorkerOk c max w → reachable False c max p → WorkerOk c max (set_pool p w).
Proof. intros [H1 H2 H3 H4 H5 H6] Hp. by split. Qed.

Lemma notify_all_core {A} (f : A → PoolNotification) l w : core (foldl (λ w x, notify (f x) w) w l) = core w.
Proof. revert w. induction l as [|x l IH]; intros w; cbn [foldl]; [done|]. by rewrite IH. Qed.

Lemma try_send_elem {A} (x y : A) (c : Channel A) : y ∈ queue (try_send x c) → y ∈ queue c ∨ y = x.
Proof.
  unfold try_send. case_decide; [|by left]. cbn. intros [?|Hy%list_elem_of_singleton]%elem_of_app; auto.
Qed.

Lemma try_send_all_elem {A B} (f : A → B) l (c : Channel B) y :
  y ∈ queue (foldl (λ c x, try_send (f x) c) c l) → y ∈ queue c ∨ ∃ x, x ∈ l ∧ y = f x.
Proof.
  revert c. induction l as [|x l IH]; intros c; cbn [foldl]; [by left|]. intros [Hy|(z & Hz & ->)]%IH.
  - apply try_send_elem in Hy as [?| ->]; [by left|]. right. exists x. split; [left|done].
  - right. exists z. split; [by right|done].
Qed.

Lemma recv_many_queue {A} limit (c c' : Channel A) l :
  recv_many limit c = Messages l c' → ∀ x, x ∈ l ∨ x ∈ queue c' → x ∈ queue c.
Proof.
  unfold recv_many. destruct (queue c) as [|y q]; [by destruct (closed c)|]. intros [= <- <-] x. cbn [queue].
  rewrite <- (take_drop (Z.to_nat limit) (y :: q)) at 3. rewrite elem_of_app. done.
Qed.

(** Transactions stop waiting. *)
Lemma WorkerOk_follows c max w r p :
  WorkerOk c max w → Follows ([], pending_pool w) (r, p) →
  WorkerOk c max (set_pending_pool p w) ∧ (∀ x, x ∈ r → valid_tx x.1).
Proof.
  intros [H1 H2 H3 H4 H5 H6] (r' & Hr & _ & Ho & _ & Hc & Hf). cbn in *. subst r'. destruct (Hf H5) as (Hs & Hfall). split.
  - split; [done..| |done|done|cbn; lia]. intros id t' Hid. apply Ho in Hid as (t & Hid & -> & _). by eapply H3.
  - intros x Hx. apply Hc in Hx as (id & t & Hid & ->). by eapply H3.
Qed.

(** A transaction starts to wait only within the share. *)
Lemma has_space_share w tx :
  has_enough_space_in_pools w tx = true →
  let limits := pool_limits (config (pool w)) in
  let percentage := max_pending_pool_size_percentage (config (pool w)) in
  saturating_add u64 (pending_current_gas (pending_pool w)) (pt_max_gas tx) ≤ pending_share (limit_max_gas limits) percentage
  ∧ saturating_add usize (pending_current_bytes (pending_pool w)) (pt_metered_bytes_size tx)
    ≤ pending_share (limit_max_bytes_size limits) percentage
  ∧ saturating_add usize (pending_current_txs (pending_pool w)) 1 ≤ pending_share (limit_max_txs limits) percentage.
Proof.
  unfold has_enough_space_in_pools, pending_share. cbv zeta. case_decide; [done|]. case_decide as Hs; [done|]. intros _.
  change (saturating_div usize) with (saturating_div u64) in Hs. change (saturating_mul usize) with (saturating_mul u64) in Hs. lia.
Qed.

Lemma WorkerOk_wait c max w tx source missing now p :
  WorkerOk c max w → config (pool w) = c → valid_tx tx → has_enough_space_in_pools w tx = true →
  insert_transaction tx source missing now (pending_pool w) = Some p → WorkerOk c max (set_pending_pool p w).
Proof.
  intros [H1 H2 H3 H4 [H5 Hpos] _] Hc Hv Hsp. apply has_space_share in Hsp. rewrite Hc in Hsp. unfold insert_transaction.
  destruct (checked_add system_time now (ttl (pending_pool w))); [|done]. intros [= <-]. destruct Hv as (Htip & Hgas & Hsize & Hid).
  split; [done..| |done| |exact Hsp]; cbn [set_pending_pool pending_pool pending_inputs_by_tx].
  - intros id t [[_ <-]|[_ Ht]]%lookup_insert_Some; [done|by eapply H3].
  - assert (∀ ty a b, int_min ty = 0 → 0 ≤ int_max ty → 0 ≤ a → 0 ≤ b → 0 ≤ saturating_add ty a b) as Hadd.
    { intros ty a b. unfold saturating_add, clamp. lia. }
    unfold in_range in Hgas, Hsize. cbn [int_min u64 usize unsigned] in Hgas, Hsize. unfold sized.
    cbn [pending_inputs_by_tx pending_current_gas pending_current_bytes pending_current_txs].
    split; [intros id t [[_ <-]|[_ Ht]]%lookup_insert_Some; [cbn; lia|by apply (H5 id)]|].
    repeat split; apply Hadd; (done || lia).
Qed.

Lemma inserted_ok c max w tx source removed w' :
  WorkerOk c max w → inserted tx source removed w = Some w' → WorkerOk c max w'.
Proof.
  intros Hok. unfold inserted. set (ext := match source with SourceP2P _ => _ | SourceRPC _ => _ end).
  destruct ext as [ext0|]; [|done]. cbn [mbind option_bind].
  set (w1 := foldl _ _ removed). assert (WorkerOk c max w1) as Hok1.
  { eapply WorkerOk_core; [|exact Hok]. unfold w1. by rewrite (notify_all_core (λ tx', NotifyRemoved (pt_id tx') (Removed (LessWorth (pt_id tx))))). }
  destruct (new_known_tx tx (pending_pool w1)) as [[r p]|] eqn:Hk; [|done]. cbn [mbind option_bind]. intros [= <-].
  destruct (WorkerOk_follows c max w1 r p Hok1) as [[H1 H2 H3 H4 H5 H6] Hr].
  { apply (known_txs_follow [(pt_outputs tx, pt_id tx)]). cbn [fold_panic]. unfold new_known_tx in Hk. by rewrite Hk. }
  split; [done| |done..]. intros tx0 source0 Hin. cbn [request_insert] in Hin.
  apply (try_send_all_elem (λ x : PoolTransaction * InsertionSource, RequestInsert x.1 x.2)) in Hin as [Hin|(x & Hx & [= -> ->])].
  - by eapply H2.
  - by apply Hr.
Qed.

Lemma worker_insert_ok c max w tx source w' :
  WorkerOk c max w → valid_tx tx → worker_insert tx source w = Some w' → WorkerOk c max w'.
Proof.
  intros Hok Hv. unfold worker_insert. cbv zeta. assert (WorkerOk c max (asked w)) as Ha by exact Hok.
  destruct (latest_view (questions w)) as [view|err]; [|intros [= <-]; by eapply WorkerOk_core; [|exact Ha]].
  set (q := system_now _). change (pool (asked w)) with (pool w).
  destruct (insert tx view q (pool w)) as [[res p]|] eqn:Hins; [|done]. cbn [mbind option_bind].
  assert (reachable False c max p) as Hp.
  { eapply (reachable_step False c max (pool w) (OpInsert tx view q)); [apply Hok|by split|]. cbn [run_op]. by rewrite Hins. }
  assert (config p = c) as Hc by (by apply reachable_ok in Hp as (_ & ? & _)).
  assert (WorkerOk c max (asked (set_pool p (asked w)))) as Hok1 by (by apply (WorkerOk_pool c max (asked w))).
  destruct res as [removed|[error|missing]].
  - by apply inserted_ok.
  - intros [= <-]. by eapply WorkerOk_core; [|exact Hok1].
  - destruct missing as [|m missing]; [by intros [= <-]|]. destruct (has_enough_space_in_pools _ tx) eqn:Hsp.
    + destruct (insert_transaction _ _ _ _ _) as [pp|] eqn:Hpp; [|done]. cbn [mbind option_bind]. intros [= <-].
      exact (WorkerOk_wait c max _ tx source (m :: missing) _ pp Hok1 Hc Hv Hsp Hpp).
    + intros [= <-]. by eapply WorkerOk_core; [|exact Hok1].
Qed.

Lemma pool_step_ok c max w op p :
  WorkerOk c max w → op_ok False (pool w) op → run_op op (pool w) = Some p → WorkerOk c max (set_pool p w).
Proof. intros Hok Hop Hrun. apply WorkerOk_pool; [done|]. by eapply reachable_step; [apply Hok| |]. Qed.

Lemma handle_remove_ok c max w r w' : WorkerOk c max w → handle_remove w r = Some w' → WorkerOk c max w'.
Proof.
  intros Hok. destruct r as [b|l|[ids error]]; cbn [handle_remove].
  - unfold worker_process_block. destruct (process_block false _ _) as [[p0 ws]|] eqn:Hpb; [|done].
    cbn [mbind option_bind]. cbv beta iota zeta.
    assert (WorkerOk c max (set_pool p0 w)) as Hok1.
    { apply (pool_step_ok c max w (OpProcessBlock (br_tx_ids b))); [done|intros []|]. cbn [run_op]. by rewrite Hpb. }
    destruct (new_known_txs _ _) as [[r p]|] eqn:Hk; [|done]. cbn [mbind option_bind].
    destruct (WorkerOk_follows c max _ r p Hok1) as [Hok2 Hr]; [by apply known_txs_follow in Hk|].
    apply fold_panic_inv; [|done]. intros w1 [tx source] w2 Hin Hw1. cbn. apply worker_insert_ok; [done|]. by apply (Hr _ Hin).
  - unfold remove_skipped_transactions. apply fold_panic_inv; [|done]. intros w1 [id reason] w2 _ Hok1. unfold remove_skipped.
    destruct (remove_skipped_transaction id (pool w1)) as [[removed p]|] eqn:Hrm; [|done]. cbn [mbind option_bind]. intros [= <-].
    eapply WorkerOk_core;
      [apply (notify_all_core (λ tx, NotifyRemoved (pt_id tx) (SkippedTransaction (skipped_message (pt_id tx) reason))))|].
    apply (pool_step_ok c max w1 (OpRemoveSkipped id)); [done|done|]. cbn [run_op]. by rewrite Hrm.
  - unfold remove_and_coin_dependents.
    destruct (remove_transaction_and_dependents ids (pool w)) as [[removed p]|] eqn:Hrm; [|done]. cbn [mbind option_bind]. intros [= <-].
    eapply WorkerOk_core; [apply (notify_all_core (λ tx, NotifyRemoved (pt_id tx) error))|].
    apply (pool_step_ok c max w (OpRemoveWithDependents ids)); [done|done|]. cbn [run_op]. by rewrite Hrm.
Qed.

Lemma handle_tick_ok c max w : WorkerOk c max w → WorkerOk c max (handle_tick w).
Proof.
  intros [H1 H2 H3 H4 H5 H6]. unfold handle_tick, expire_transactions.
  destruct (expire_loop_spec (system_now (questions w)) (ttl_check (pending_pool w)) (pending_pool w) eq_refl)
    as (l1 & l2 & n & p & -> & _ & _ & _ & _ & _ & HP & _ & _ & Hf).
  eapply WorkerOk_core; [apply (notify_all_core (λ n, n))|]. destruct (Hf H5) as [Hs Hfall].
  split; [done..| |done|done|cbn; lia]. intros id t. cbn. rewrite HP. case_decide; [done|]. apply H3.
Qed.

Lemma reads_core l w : core (foldl handle_read w l) = core w.
Proof. revert w. induction l as [|r l IH]; intros w; cbn [foldl]; [done|]. rewrite IH. by destruct r. Qed.

Lemma run_ok c max tick w stop w' : WorkerOk c max w → run tick w = Some (Finished stop w') → WorkerOk c max w'.
Proof.
  intros Hok. unfold run. destruct (recv (thread_management w)); [|by intros [= _ <-]..].
  unfold run_extract. destruct (recv (extract_block_transactions w)) as [| |l ch] eqn:Hext; [|by intros [= _ <-]|].
  - unfold run_remove. destruct (recv_many _ (request_remove w)) as [| |l ch]; [|by intros [= _ <-]|].
    + unfold run_read. destruct (recv_many _ (request_read w)) as [| |l ch]; [|by intros [= _ <-]|].
      * unfold run_insert_or_tick. destruct (recv_many _ (request_insert w)) as [| |l ch] eqn:Hins; [|by intros [= _ <-]|].
        -- destruct tick; [|done]. intros [= _ <-]. by apply handle_tick_ok.
        -- set (w1 := MkPoolWorker _ _ _ _ _ _ _ _ _ _). destruct (fold_panic handle_insert w1 l) as [w2|] eqn:Hf; [|done].
           cbn [mbind option_bind]. intros [= _ <-]. pose proof (recv_many_queue _ _ _ _ Hins) as Hq.
           destruct Hok as [H1 H2 H3 H4 H5 H6]. eapply fold_panic_inv; [| |exact Hf].
           ++ intros w3 [tx source] w4 Hin Hw3. cbn [handle_insert]. apply worker_insert_ok; [done|]. apply (H2 tx source), Hq. by left.
           ++ split; [done| |done..]. intros tx source Hin. apply (H2 tx source), Hq. by right.
      * intros [= _ <-]. eapply WorkerOk_core; [apply reads_core|]. done.
    + set (w1 := MkPoolWorker _ _ _ _ _ _ _ _ _ _). destruct (fold_panic handle_remove w1 l) as [w2|] eqn:Hf; [|done].
      cbn [mbind option_bind]. intros [= _ <-]. eapply fold_panic_inv; [| |exact Hf]; [|exact Hok].
      intros w3 r w4 _. apply handle_remove_ok.
  - destruct l as [|[cs to] [|]]; [by intros [= _ <-]| |by intros [= _ <-]].
    set (w1 := MkPoolWorker _ _ _ _ _ _ _ _ _ _). unfold worker_extract.
    destruct (extract_transactions_for_block cs (pool w1)) as [[txs p]|] eqn:Hx; [|done]. cbn [mbind option_bind]. intros [= _ <-].
    pose proof (recv_many_queue _ _ _ _ Hext) as Hq. assert (WorkerOk c max w1) as Hok1.
    { destruct Hok as [H1 H2 H3 H4 H5 H6]. split; [done..| |done|done]. intros cs' to' Hin. apply (H4 cs' to'), Hq. by right. }
    eapply WorkerOk_core; [|apply (pool_step_ok c max w1 (OpExtract cs) p Hok1)]; [done| |].
    + apply (wo_extracts _ _ _ _ _ _ Hok cs to), Hq. left. left.
    + cbn [run_op]. by rewrite Hx.
Qed.

Lemma worker_step_ok c max w w' : worker_step w w' → WorkerOk c max w → WorkerOk c max w'.
Proof.
  intros Hstep Hok. destruct Hstep as [tick w stop w' Hrun|w tx source Hv|w r|w r|w cs to Hcs|w|w ch].
  - by eapply run_ok.
  - destruct Hok as [H1 H2 H3 H4 H5 H6]. split; [done| |done..]. intros tx' source' Hin.
    apply try_send_elem in Hin as [Hin|[= -> _]]; [by eapply H2|done].
  - exact Hok.
  - exact Hok.
  - destruct Hok as [H1 H2 H3 H4 H5 H6]. split; [done..| |done|done]. intros cs' to' Hin.
    apply try_send_elem in Hin as [Hin|[= -> _]]; [by eapply H4|done].
  - exact Hok.
  - exact Hok.
Qed.

Lemma worker_reachable_ok c max w : worker_reachable c max w → WorkerOk c max w.
Proof.
  unfold worker_reachable. intros Hw. revert w Hw. apply (rtc_ind_r (R := worker_step) (WorkerOk c max) (PoolWorker_new (Pool_new c max))).
  - assert (∀ a b, 0 ≤ pending_share a b) as Hsh.
    { intros a b. unfold pending_share, saturating_div. apply (clamp_ge_min u64). }
    split; [constructor|set_solver| |set_solver| |];
      cbn [PoolWorker_new pending_pool PendingPool_new pending_inputs_by_tx pending_current_gas pending_current_bytes
        pending_current_txs].
    + intros id t. by rewrite lookup_empty.
    + split; [intros id t; cbn [PendingPool_new pending_inputs_by_tx]; by rewrite lookup_empty|cbn; lia].
    + repeat split; apply Hsh.
  - intros w1 w2 _ Hstep. by apply worker_step_ok.
Qed.

(** C40 The pending pool keeps to its share: in every state that rounds of the
    worker, and requests with well typed transactions and constraints, can lead
    to, the gas, the size and the number of the transactions counted there stay
    within the configured percentage of the limits of the pool. *)
Theorem pending_within_share c max w :
  worker_reachable c max w →
  pending_current_gas (pending_pool w) ≤ pending_share (limit_max_gas (pool_limits c)) (max_pending_pool_size_percentage c)
  ∧ pending_current_bytes (pending_pool w)
      ≤ pending_share (limit_max_bytes_size (pool_limits c)) (max_pending_pool_size_percentage c)
  ∧ pending_current_txs (pending_pool w) ≤ pending_share (limit_max_txs (pool_limits c)) (max_pending_pool_size_percentage c).
Proof. intros Hw%worker_reachable_ok. apply Hw. Qed.

(** ** The outcome of a submission *)












End worker_facts.
