(* ===== verification/TxPoolSamples.v ===== *)
(** * Sample pools

    A graph library and a hash order that satisfy the laws, and pools on which
    the properties of [TxPoolClaims.v] are evaluated; also two behaviours of
    the pool that its documentation does not announce. *)
From S2P Require Import Prelude FuelTypes TxPoolTypes TxPoolGraph TxPool TxPoolForest TxPoolGraphFacts.
From S2P Require Import TxPoolTables TxPoolSelection TxPoolFacts TxPoolBlocks TxPoolClaims.

(** ** A graph *)
Record ListGraph := MkListGraph {
  lg_nodes : gmap NodeIndex StorageData;
  lg_edges : list (NodeIndex * NodeIndex)
}.
Definition next_index (m : gmap NodeIndex StorageData) : NodeIndex :=
  foldr (λ n acc, Z.max (n + 1) acc) 0 (elements (dom m)).

Lemma next_index_fresh m : m !! next_index m = None.
Proof.
  apply not_elem_of_dom. rewrite <- elem_of_elements. unfold next_index.
  assert (∀ l n, n ∈ l → n < foldr (λ n acc, Z.max (n + 1) acc) 0 l) as Hlt.
  { induction l as [|k l IH]; intros n; [by intros ?%not_elem_of_nil|]. intros [->|Hn]%elem_of_cons; cbn; [lia|].
    specialize (IH n Hn). lia. }
  intros Hin%Hlt. lia.
Qed.

#[export] Instance sample_graph : StableDiGraph := {
  Graph := ListGraph;
  graph_new := MkListGraph ∅ [];
  node_count g := size (lg_nodes g);
  node_weight g n := lg_nodes g !! n;
  update_node g n d := MkListGraph (<[n := d]> (lg_nodes g)) (lg_edges g);
  add_node g d := (next_index (lg_nodes g), MkListGraph (<[next_index (lg_nodes g) := d]> (lg_nodes g)) (lg_edges g));
  add_edge g a b := MkListGraph (lg_nodes g) ((a, b) :: lg_edges g);
  remove_node g n := (lg_nodes g !! n,
    MkListGraph (delete n (lg_nodes g))
      (filter (λ e : NodeIndex * NodeIndex, e.1 ≠ n ∧ e.2 ≠ n) (lg_edges g)));
  outgoing g n := snd <$> filter (λ e : NodeIndex * NodeIndex, e.1 = n) (lg_edges g);
  incoming g n := fst <$> filter (λ e : NodeIndex * NodeIndex, e.2 = n) (lg_edges g)
}.
#[export] Instance sample_graph_laws : StableDiGraphLaws.
Proof.
  refine {| nodes := (lg_nodes : Graph → _); edges := (lg_edges : Graph → _) |}; try done.
  intros g d. apply next_index_fresh.
Defined.
#[export] Instance sample_order : HashOrder := {| iter_set := elements; iter_set_perm X := reflexivity _ |}.

(** ** Transactions and pools *)
Definition sample_coin (tx_id index : Z) : Input :=
  InputCoinSigned (MkCoinInput (tx_id, index) 7 10 0 (0, 0) 0).
Definition sample_tx (id tip gas : Z) (inputs : list Input) (outputs : list Output) : PoolTransaction :=
  MkPoolTx id inputs outputs tip gas 5 100 4294967295 None.
Definition sample_db : PersistentStorage :=
  MkPersistentStorage (λ _, Ok None) (λ _, Ok true) (λ _, Ok false) (λ _, Ok None).
Definition sample_config : PoolConfig :=
  MkPoolConfig false (MkPoolLimits 10 1000 100000) (MkServiceChannelLimits 8 8) (MkBlackList ∅ ∅ ∅ ∅) 3 50.

Definition tx_parent : PoolTransaction := sample_tx 1 10 20 [sample_coin 100 0] [OutputCoin 7 10 0].
Definition tx_child : PoolTransaction := sample_tx 2 10 30 [sample_coin 1 0] [].
Definition tx_other : PoolTransaction := sample_tx 3 5 40 [sample_coin 101 0] [].
(** Spends the same coin as [tx_child] and pays more. *)
Definition tx_replacing : PoolTransaction := sample_tx 4 90 30 [sample_coin 1 0] [].

Definition after (ops : list PoolOp) (p : Pool) : Pool :=
  foldl (λ p op, default p (run_op op p)) p ops.
Definition empty_pool : Pool := Pool_new sample_config 8.
Definition pool_of_one : Pool := after [OpInsert tx_parent sample_db 1] empty_pool.
Definition pool_of_two : Pool := after [OpInsert tx_child sample_db 2] pool_of_one.
Definition sample_pool : Pool := after [OpInsert tx_other sample_db 3] pool_of_two.

Lemma reachable_insert exact p tx now :
  reachable exact sample_config 8 p → valid_tx tx → room p tx →
  bool_decide (is_Some (run_op (OpInsert tx sample_db now) p)) = true →
  reachable exact sample_config 8 (after [OpInsert tx sample_db now] p).
Proof.
  intros Hp Hv Hr [p' Hrun]%bool_decide_eq_true. eapply (reachable_step _ _ _ p (OpInsert tx sample_db now)); [exact Hp|by split|].
  cbn [after foldl]. by rewrite Hrun.
Qed.

Ltac sample_valid :=
  repeat split; try (vm_compute; discriminate); cbn; intros u Hu; repeat (apply elem_of_cons in Hu as [->|Hu]; [done|]);
  by apply not_elem_of_nil in Hu.
Ltac sample_room := intros q; destruct q; vm_compute; discriminate.
Ltac sample_run := vm_compute; reflexivity.

Lemma sample_pool_reachable exact : reachable exact sample_config 8 sample_pool.
Proof.
  apply reachable_insert; [|sample_valid|sample_room|sample_run].
  apply reachable_insert; [|sample_valid|sample_room|sample_run].
  apply reachable_insert; [apply reachable_new|sample_valid|sample_room|sample_run].
Qed.

(** The parent is node 0, the child node 1 and the other transaction node 2. *)
Lemma sample_deps a b : edge (deps sample_pool) a b ↔ a = 0 ∧ b = 1.
Proof.
  assert (deps sample_pool = {[(0, 1)]}) as -> by (apply (bool_decide_unpack _); vm_compute; exact I).
  unfold edge. rewrite elem_of_singleton. naive_solver.
Qed.
Lemma sample_reach_parent m : m ∈ ({[0; 1]} : gset NodeIndex) ↔ reach (deps sample_pool) 0 m.
Proof.
  split.
  - intros [->%elem_of_singleton| ->%elem_of_singleton]%elem_of_union; [apply rtc_refl|]. by apply reach_edge, sample_deps.
  - apply (reach_closed _ (λ m, m ∈ ({[0; 1]} : gset NodeIndex))); [|set_solver]. intros a b _ [-> ->]%sample_deps. set_solver.
Qed.
Lemma sample_reach_child m : m ∈ ({[1]} : gset NodeIndex) ↔ reach (deps sample_pool) 1 m.
Proof.
  split; [intros ->%elem_of_singleton; apply rtc_refl|].
  apply (reach_closed _ (λ m, m ∈ ({[1]} : gset NodeIndex))); [|set_solver]. intros a b Ha [-> ->]%sample_deps. set_solver.
Qed.
Lemma tx_replacing_valid : valid_tx tx_replacing.
Proof. sample_valid. Qed.
Lemma tx_replacing_room : room sample_pool tx_replacing.
Proof. sample_room. Qed.
Definition sample_constraints : Constraints := MkConstraints 1 55 10 100000.

(** ** The properties at the sample pool *)
Lemma chain_block_ordered : block_ordered sample_pool [1; 2].
Proof.
  intros before id after n a x Hids Hn [-> ->]%sample_deps Hx.
  assert (txs sample_pool !! 0 = Some (tx_parent, 1)) as H0 by (vm_compute; reflexivity). rewrite H0 in Hx. injection Hx as <-.
  destruct before as [|i before]; injection Hids as <- Hids; [|left].
  assert (tx_id_to_storage_id sample_pool !! 1 = Some 0) as H1 by (vm_compute; reflexivity). congruence.
Qed.

(** An insertion, and a block with a transaction and one that depends on it. *)
Lemma pool_never_panics_witness :
  is_Some (run_op (OpInsert tx_replacing sample_db 4) sample_pool)
  ∧ is_Some (run_op (OpProcessBlock [1; 2]) sample_pool) ∧ process_block true [1; 2] sample_pool = None.
Proof.
  split; [apply (pool_never_panics True sample_config 8 sample_pool); [apply sample_pool_reachable| |done]|].
  - split; [apply tx_replacing_valid|intros _; apply tx_replacing_room].
  - destruct (pool_never_panics True sample_config 8 sample_pool (OpProcessBlock [1; 2])) as [Hrun Hdebug];
      [apply sample_pool_reachable|intros _; apply chain_block_ordered|done|].
    split; [exact Hrun|]. apply (Hdebug [1; 2] I eq_refl).
    exists 0, 1, (tx_parent, 1), (tx_child, 2). split; [by apply sample_deps|].
    do 2 (split; [vm_compute; reflexivity|]). cbn. rewrite !elem_of_cons. auto.
Defined.

Lemma pool_integrity_witness :
  forest (deps sample_pool) ∧ edge (deps sample_pool) 0 1 ∧ pool_stats sample_pool = MkStats 3 300 90.
Proof.
  split; [apply (pool_integrity sample_config 8 sample_pool (sample_pool_reachable False))|].
  split; [by apply sample_deps|]. vm_compute. reflexivity.
Defined.

Lemma counters_exact_witness :
  current_gas sample_pool = 90 ∧ current_gas sample_pool = total (txs sample_pool) QGas
  ∧ (dependents_cumulative_gas <$> nodes (graph (storage sample_pool)) !! 0) = Some 50.
Proof.
  split; [vm_compute; reflexivity|]. split; [|vm_compute; reflexivity].
  apply (counters_exact sample_config 8 sample_pool (sample_pool_reachable True)).
Defined.

Lemma sample_replacement : fst <$> insert tx_replacing sample_db 4 sample_pool = Some (Ok [tx_child]).
Proof. vm_compute. reflexivity. Qed.

Lemma insertion_effect_witness :
  ∃ p' n, insert tx_replacing sample_db 4 sample_pool = Some (Ok [tx_child], p') ∧ txs p' !! n = Some (tx_replacing, 4).
Proof.
  pose proof sample_replacement as Hrun. apply fmap_Some in Hrun as ([r p'] & Hrun & Hr). cbn in Hr. subst r.
  destruct (insertion_effect sample_config 8 sample_pool tx_replacing sample_db 4 _ _
    (sample_pool_reachable False) tx_replacing_valid Hrun) as (ev & ns & es & n & Hs & _).
  exists p', n. split; [done|]. rewrite Hs. apply lookup_insert_eq.
Defined.

Lemma replacement_pays_more_witness :
  conflict tx_child tx_replacing
  ∧ set_sum (weight_at (txs sample_pool) QTip) {[1]} * pt_max_gas tx_replacing
    < pt_tip tx_replacing * set_sum (weight_at (txs sample_pool) QGas) {[1]}.
Proof.
  assert (conflict tx_child tx_replacing) as Hc by (left; exists (1, 0); split; left). split; [done|].
  pose proof sample_replacement as Hrun. apply fmap_Some in Hrun as ([r p'] & Hrun & Hr). cbn in Hr. subst r.
  apply (replacement_pays_more sample_config 8 sample_pool tx_replacing sample_db 4 _ _
    (sample_pool_reachable True) tx_replacing_valid tx_replacing_room Hrun 1 (tx_child, 2));
    [vm_compute; reflexivity|done|apply sample_reach_child].
Defined.

Lemma extraction_valid_witness :
  ∃ es p', extract_transactions_for_block sample_constraints sample_pool = Some (es, p')
    ∧ es = [tx_parent; tx_child] ∧ (∀ n x, txs p' !! n = Some x → txs sample_pool !! n = Some x).
Proof.
  destruct (extraction_valid sample_config 8 sample_pool sample_constraints (sample_pool_reachable False))
    as (es & p' & ns & Hrun & _ & _ & _ & Htx & _).
  { repeat split; vm_compute; discriminate. }
  exists (transaction <$> es), p'. split; [done|]. split; [|intros n x Hx; by apply Htx in Hx as [? _]].
  assert (fst <$> extract_transactions_for_block sample_constraints sample_pool = Some [tx_parent; tx_child]) as Hfst
    by (vm_compute; reflexivity).
  rewrite Hrun in Hfst. by injection Hfst.
Defined.

Lemma process_block_effect_witness :
  ∃ p' warnings, process_block false [1] sample_pool = Some (p', warnings) ∧ is_Some (txs p' !! 1) ∧ txs p' !! 0 = None.
Proof.
  destruct (process_block_effect sample_config 8 sample_pool [1] (sample_pool_reachable False)) as (p' & ws & Hrun & Htx & _).
  exists p', ws. split; [done|]. split.
  - exists (tx_child, 2). apply Htx. split; [vm_compute; reflexivity|]. cbn. rewrite list_elem_of_singleton. done.
  - apply eq_None_not_Some. intros [x [Hx Hid]%Htx]. apply Hid.
    assert (txs sample_pool !! 0 = Some (tx_parent, 1)) as H0 by (vm_compute; reflexivity). rewrite H0 in Hx.
    injection Hx as <-. left.
Defined.

Lemma removal_effect_witness :
  ∃ p', remove_transaction_and_dependents [1] sample_pool = Some ([tx_parent; tx_child], p')
    ∧ ∀ n x, txs p' !! n = Some x → txs sample_pool !! n = Some x.
Proof.
  destruct (removal_effect sample_config 8 sample_pool [1] (sample_pool_reachable False)) as (es & p' & ns & Hrun & _ & _ & Hs & _).
  exists p'. split; [|intros n x; rewrite Hs, remove_nodes_lookup; by case_decide].
  assert (fst <$> remove_transaction_and_dependents [1] sample_pool = Some [tx_parent; tx_child]) as Hfst
    by (vm_compute; reflexivity).
  rewrite Hrun in Hfst. rewrite Hrun. by injection Hfst as ->.
Defined.

Lemma dependents_bounded_witness : Z.of_nat (size ({[0; 1]} : gset NodeIndex)) ≤ Z.max 1 8.
Proof.
  apply (dependents_bounded sample_config 8 sample_pool 0 {[0; 1]} (sample_pool_reachable True));
    [vm_compute; by eexists|apply sample_reach_parent].
Defined.

(** ** Stale counters *)

Definition tx_deploying : PoolTransaction :=
  sample_tx 5 10 20 [sample_coin 100 0] [OutputContractCreated 77 0].
Definition tx_calling : PoolTransaction :=
  sample_tx 6 10 30 [InputContract (MkContractInput (102, 0) 0 0 (0, 0) 77); sample_coin 101 0] [].
Definition block_result (tx_ids : list TxId) (p : Pool) : Pool := unwrap_or p (run_op (OpProcessBlock tx_ids) p).
Definition contract_pool : Pool :=
  after [OpInsert tx_calling sample_db 2] (after [OpInsert tx_deploying sample_db 1] empty_pool).

(** When a block brings a transaction whose dependency stays in the pool (the
    contract it uses was created by another transaction of the chain), the
    counters of the dependency keep counting it: here they still say 50 gas and
    two transactions for a transaction with 20 gas that nothing depends on. *)
Theorem counters_stale_after_block :
  reachable False sample_config 8 contract_pool
  ∧ let p := block_result [6] contract_pool in
    (∀ m, ¬ edge (deps p) 0 m)
    ∧ (dependents_cumulative_gas <$> nodes (graph (storage p)) !! 0) = Some 50
    ∧ (number_dependents_in_chain <$> nodes (graph (storage p)) !! 0) = Some 2
    ∧ (λ x : PoolTransaction * Instant, pt_max_gas x.1) <$> txs p !! 0 = Some 20.
Proof.
  split.
  - apply reachable_insert; [|sample_valid|sample_room|sample_run].
    apply reachable_insert; [apply reachable_new|sample_valid|sample_room|sample_run].
  - split; [|vm_compute; repeat split]. intros m.
    assert (deps (block_result [6] contract_pool) = ∅) as -> by (apply (bool_decide_unpack _); vm_compute; exact I).
    unfold edge. set_solver.
Qed.
