(* ===== verification/TxPoolWorkerSamples.v ===== *)
(** * A sample worker

    A pending pool and a worker on which the properties of
    [TxPoolPendingClaims.v] and [TxPoolWorkerFacts.v] are evaluated. *)
From stdpp Require Import strings.
From S2P Require Import Prelude FuelTypes TxPoolTypes TxPoolGraph TxPool TxPoolPending TxPoolFacts TxPoolClaims.
From S2P Require Import TxPoolPendingFacts TxPoolPendingClaims TxPoolWorker TxPoolWorkerFacts TxPoolSamples.

(** The child waits for the coin that its parent creates, and for a contract. *)
Definition coin_of_parent : MissingInput := MissingUtxo (1, 0).
Definition source_rpc : InsertionSource := SourceRPC (Some 5).
Definition source_p2p : InsertionSource := SourceP2P (MkGossipsubMessageInfo [1] [2]).
Definition child_waits : PendingOp := PendingInsert tx_child source_rpc [coin_of_parent; MissingContract 9] 10.

Lemma waiting_ends_witness :
  ∃ n self, run_pending [child_waits; PendingKnownTx tx_parent; PendingExpire 13] (PendingPool_new 3) = Some ([], n, self)
    ∧ pending_inputs_by_tx self !! 2 = None ∧ n ≠ [].
Proof.
  destruct (waiting_ends 0 3 [] tx_child source_rpc [coin_of_parent; MissingContract 9] 10 [PendingKnownTx tx_parent] 13)
    as (r1 & n1 & self & r2 & n2 & self' & [= <- <- <-] & Hrun & Hgone & Ha).
  - repeat constructor; vm_compute; discriminate.
  - cbn. lia.
  - by repeat constructor.
  - lia.
  - assert (r2 = []) as ->.
    { assert (fst ∘ fst <$> run_pending [child_waits; PendingKnownTx tx_parent; PendingExpire 13] (PendingPool_new 3) = Some [])
        as Hr by (vm_compute; reflexivity).
      cbn [app] in Hrun. fold child_waits in Hrun. rewrite Hrun in Hr. by injection Hr. }
    exists n2, self'. split; [exact Hrun|]. split; [exact Hgone|].
    destruct Ha as [[]%not_elem_of_nil|(i & _ & Hin)]. intros ->. by apply not_elem_of_nil in Hin.
Defined.

(** A transaction that is inserted again while it waits: only the second
    sender is notified. *)
Lemma first_sender_is_forgotten :
  (λ x, (x.1.1, x.1.2)) <$> run_pending
    [child_waits; PendingInsert tx_child source_p2p [coin_of_parent] 11; PendingExpire 20] (PendingPool_new 3)
  = Some ([], [NotifyErrorInsertion 2 (Error_from_missing coin_of_parent) source_p2p]).
Proof. vm_compute. reflexivity. Qed.

Definition waiting_pool : PendingPool := waits_for tx_child source_rpc [coin_of_parent; MissingContract 9] 10 (PendingPool_new 3).

Lemma waiting_pool_reachable : pending_reachable 3 waiting_pool.
Proof.
  apply (pending_reachable_step 3 (PendingPool_new 3) child_waits [] []); [constructor| |vm_compute; reflexivity].
  split; try (vm_compute; done); split; vm_compute; done.
Qed.

Lemma pending_tables_exact_witness :
  waiting waiting_pool coin_of_parent = {[2]} ∧ pending_current_gas waiting_pool = 30
  ∧ pending_current_gas waiting_pool = pending_gas (pending_inputs_by_tx waiting_pool).
Proof.
  split; [apply (bool_decide_unpack _); vm_compute; exact I|]. split; [vm_compute; reflexivity|].
  apply (pending_tables_exact 3 waiting_pool waiting_pool_reachable).
Defined.

(** A block with the parent, and a transaction that creates the contract. *)
Definition sample_block : list (Transaction * TxId) :=
  [(TxChargeable (MkTx Script [] [OutputCoin 7 10 0] 0 []), 1);
   (TxChargeable (MkTx Create [] [OutputContractCreated 9 0] 0 []), 50)].

Lemma release_exact_witness :
  ∃ r self', new_known_txs sample_block waiting_pool = Some (r, self') ∧ pending_inputs_by_tx self' !! 2 = None
    ∧ r = [(tx_child, source_rpc)].
Proof.
  destruct (release_exact 3 waiting_pool sample_block waiting_pool_reachable) as (r & self' & Hrun & HP & Hr).
  { repeat constructor; vm_compute; discriminate. }
  exists r, self'. split; [exact Hrun|]. split; [rewrite HP; vm_compute; reflexivity|].
  apply Permutation_singleton_r. rewrite Hr. vm_compute. reflexivity.
Defined.

Lemma waiting_twice_leaks_witness :
  ∃ n self, run_pending [PendingInsert tx_child source_rpc [coin_of_parent] 10; PendingInsert tx_child source_p2p [coin_of_parent] 10;
              PendingExpire 13] (PendingPool_new 3) = Some ([], n, self)
    ∧ pending_inputs_by_tx self = ∅ ∧ pending_current_gas self = 30.
Proof.
  destruct (waiting_twice_leaks 3 tx_child source_rpc source_p2p [coin_of_parent] 10) as (n & self & Hrun & HP & _ & _ & Hg & _).
  - done.
  - split; vm_compute; discriminate.
  - split; vm_compute; discriminate.
  - split; vm_compute; discriminate.
  - by exists n, self.
Defined.

(** ** The worker *)
#[export] Instance sample_env : WorkerEnv := {|
  latest_view q := Ok sample_db;
  system_now q := 10;
  skipped_message tx_id reason := "skipped"
|}.

Definition sample_worker : PoolWorker := PoolWorker_new empty_pool.
Definition requested_worker : PoolWorker :=
  sample_worker <| request_insert := try_send (RequestInsert tx_parent source_rpc) (request_insert sample_worker) |>.
Definition after_round (w : PoolWorker) : PoolWorker :=
  match run false w with Some (Finished _ w') => w' | _ => w end.
Definition busy_worker : PoolWorker := after_round requested_worker.

Lemma after_round_step w :
  match run false w with Some (Finished _ _) => true | _ => false end = true → worker_step w (after_round w).
Proof.
  unfold after_round. destruct (run false w) as [[|stop w']|] eqn:Hrun; [done| |done]. intros _. by apply (step_round false w stop).
Qed.

Lemma busy_worker_reachable : worker_reachable sample_config 8 busy_worker.
Proof.
  eapply rtc_l; [apply (step_send_insert sample_worker tx_parent source_rpc); sample_valid|].
  eapply rtc_l; [|apply rtc_refl]. apply (after_round_step requested_worker). vm_compute. reflexivity.
Qed.

Lemma pending_within_share_witness :
  pending_share (limit_max_gas (pool_limits sample_config)) (max_pending_pool_size_percentage sample_config) = 500
  ∧ pending_current_gas (pending_pool busy_worker) ≤ 500.
Proof.
  split; [vm_compute; reflexivity|]. etrans; [apply (pending_within_share sample_config 8 busy_worker busy_worker_reachable)|].
  vm_compute. discriminate.
Defined.

