(* ===== verification/Relayer.v ===== *)
(** * The relayer

    [crates/services/relayer/src]: downloading the logs of the settlement layer
    page by page, their conversion to events, the history of events in the
    database, and a run of the task.

    The node of the settlement layer is a record of answers, numbered by request.
    Decoding a log is third-party code, the class [EthAbi].  A run may end after
    any number of pages, when the service is stopped. *)
From stdpp Require Import strings.
From S2P Require Import Prelude FuelTypes ExecutorTypes Importer.

(** ** Logs and events *)
Record Log := MkLog {
  topics : list Bytes32;
  log_data : list Z;
  block_number : option Z;
  log_index : option Z
}.
(** The decoded events of the bridge contract *)
Record MessageSentFilter := MkMessageSentFilter {
  ms_sender : Address;
  ms_recipient : Address;
  ms_nonce : Nonce;
  ms_amount : Z;
  ms_data : list Z
}.
Record TransactionFilter := MkTransactionFilter { tf_nonce : Nonce; tf_max_gas : Z; canonically_serialized_tx : list Z }.
Class EthAbi := {
  ETH_LOG_MESSAGE : Bytes32;
  ETH_FORCED_TX : Bytes32;
  decode_message : list Bytes32 → list Z → result string MessageSentFilter;
  decode_transaction : list Bytes32 → list Z → result string TransactionFilter
}.

(** With the events that [MessageLog] and [TransactionLog] are converted to *)
Inductive EthEventLog := EthMessage (m : Message) | EthTransaction (tx : RelayedTransaction) | EthIgnored.

Section logs.
Context `{ABI : EthAbi}.
Definition parse_message_to_event (log : Log) : result string EthEventLog :=
  if decide (length (topics log) ≠ 4%nat) then Err "Malformed topics for Message"
  else
    message ← decode_message (topics log) (log_data log);
    da_height ← ok_or (block_number log) "Log missing block height";
    Ok (EthMessage (MkMessage (ms_sender message) (ms_recipient message) (ms_nonce message) (ms_amount message) (ms_data message) da_height)).
Definition parse_forced_tx_to_event (log : Log) : result string EthEventLog :=
  if decide (length (topics log) ≠ 2%nat) then Err "Malformed topics for forced Transaction"
  else
    event ← decode_transaction (topics log) (log_data log);
    da_height ← ok_or (block_number log) "Log missing block height";
    Ok (EthTransaction (MkRelayedTransaction (tf_nonce event) (tf_max_gas event) (canonically_serialized_tx event) da_height)).
Definition EthEventLog_try_from (log : Log) : result string EthEventLog :=
  match topics log with
  | [] => Err "Topic list is empty"
  | n :: _ =>
      if decide (n = ETH_LOG_MESSAGE) then parse_message_to_event log
      else if decide (n = ETH_FORCED_TX) then parse_forced_tx_to_event log
      else Ok EthIgnored
  end.
(** The closure of [write_logs]: an event, an error, or nothing *)
Definition fuel_event (log : Log) : option (result string RelayerEvent) :=
  match EthEventLog_try_from log with
  | Ok (EthMessage m) => Some (Ok (EventMessage m))
  | Ok (EthTransaction tx) => Some (Ok (EventTransaction tx))
  | Ok EthIgnored => None
  | Err e => Some (Err e)
  end.
End logs.
Definition event_da_height (e : RelayerEvent) : DaBlockHeight :=
  match e with EventMessage m => msg_da_height m | EventTransaction tx => rtx_da_height tx end.

(** A stable sort, as [sort_by] *)
Fixpoint insert_by_index (x : Z * Log) (l : list (Z * Log)) : list (Z * Log) :=
  match l with
  | [] => [x]
  | y :: l' => if decide (x.1 ≤ y.1) then x :: l else y :: insert_by_index x l'
  end.
Definition sort_events_by_log_index (events : list Log) : result string (list Log) :=
  with_indexes ← result_map (λ e, log_index ← ok_or (log_index e) "Log missing log_index"; Ok (log_index, e)) events;
  Ok (snd <$> foldr insert_by_index [] with_indexes).

(** ** The state of the synchronisation *)
Inductive RelayerSyncState := PartiallySynced (height : DaBlockHeight) | RelayerSynced (height : DaBlockHeight).
Definition da_block_height (self : RelayerSyncState) : DaBlockHeight := match self with PartiallySynced h | RelayerSynced h => h end.
Record EthState := MkEthState { remote : Z; local : Z }.
Record EthSyncGap := MkEthSyncGap { oldest : Z; latest : Z }.
Definition eth_is_synced (self : EthState) : bool := bool_decide (remote self ≤ local self).
Definition sync_state (self : EthState) : RelayerSyncState :=
  if eth_is_synced self then RelayerSynced (local self) else PartiallySynced (local self).
Definition needs_to_sync_eth (self : EthState) : option EthSyncGap :=
  if eth_is_synced self then None else Some (MkEthSyncGap (saturating_add u64 (local self) 1) (remote self)).

Record EthSyncPage := MkEthSyncPage { page_oldest : Z; page_latest : Z; page_size : Z; page_end : Z }.
Definition page_is_empty (self : EthSyncPage) : bool := bool_decide (page_latest self < page_oldest self ∨ page_size self = 0).
Definition some_page (self : EthSyncPage) : option EthSyncPage := if page_is_empty self then None else Some self.
Definition page (self : EthSyncGap) (size : Z) : option EthSyncPage :=
  some_page (MkEthSyncPage (oldest self) (Z.min (saturating_add u64 (oldest self) (saturating_sub u64 size 1)) (latest self)) size (latest self)).
Definition reduce (self : EthSyncPage) : option EthSyncPage :=
  some_page (MkEthSyncPage (saturating_add u64 (page_oldest self) (page_size self))
               (Z.min (saturating_add u64 (page_latest self) (page_size self)) (page_end self)) (page_size self) (page_end self)).
(** The pages of a download; the fuel is the number of blocks. *)
Fixpoint pages (fuel : nat) (p : option EthSyncPage) : list EthSyncPage :=
  match fuel, p with
  | S fuel, Some p => p :: pages fuel (reduce p)
  | _, _ => []
  end.

(** ** The history of events *)
Record RelayerDb := MkRelayerDb { events_history : gmap DaBlockHeight (list RelayerEvent); latest_da_height : option DaBlockHeight }.
(** [commit_changes_with_height_update] with the one height of the change *)
Definition commit_events (da_height : DaBlockHeight) (events : list RelayerEvent) (self : RelayerDb) : result DatabaseError RelayerDb :=
  _ ← match latest_da_height self with
      | None => Ok ()
      | Some prev_height =>
          next_expected_height ← ok_or (checked_add u64 prev_height 1) FailedToAdvanceHeight;
          if decide (next_expected_height = da_height) then Ok () else Err (HeightsAreNotLinked prev_height da_height)
      end;
  Ok (MkRelayerDb (<[da_height := events]> (events_history self)) (Some da_height)).
(** The database stays committed when the height went back. *)
Definition insert_events (da_height : DaBlockHeight) (events : list RelayerEvent) (self : RelayerDb) : result string unit * RelayerDb :=
  let before := unwrap_or 0 (latest_da_height self) in
  if decide (Forall (λ e, event_da_height e = da_height) events) then
    match commit_events da_height events self with
    | Err _ => (Err "the commit failed", self)
    | Ok self =>
        let after := unwrap_or 0 (latest_da_height self) in
        (if decide (after < before) then Err "Block height must be monotonically increasing" else Ok (), self)
    end
  else (Err "Invalid da height", self).
(** [RelayerPort] of the executor *)
Definition relayer_port (self : RelayerDb) : Relayer := MkRelayer true (λ h, Ok (unwrap_or [] (events_history self !! h))).

(** ** A run *)
Record EthNode := MkEthNode {
  eth_wait_if_syncing : result string unit;
  eth_finalized : result string Z;
  eth_get_logs : nat → Z → Z → result string (list Log)
}.
Record RelayerTask := MkRelayerTask { rt_synced : RelayerSyncState; rt_database : RelayerDb }.
Record RelayerConfig := MkRelayerConfig { da_deploy_height : Z; log_page_size : Z }.

Definition NotInitializedTask_new (config : RelayerConfig) (database : RelayerDb) : RelayerTask :=
  MkRelayerTask (PartiallySynced (unwrap_or (saturating_sub u64 (da_deploy_height config) 1) (latest_da_height database))) database.

Section run.
Context `{ABI : EthAbi}.
(** The events of a page by height, up to the first error *)
Fixpoint group_events (logs : list Log) (unordered_events : gmap DaBlockHeight (list RelayerEvent))
    : result string (gmap DaBlockHeight (list RelayerEvent)) :=
  match logs with
  | [] => Ok unordered_events
  | log :: logs =>
      match fuel_event log with
      | None => group_events logs unordered_events
      | Some (Err e) => Err e
      | Some (Ok event) =>
          let height := event_da_height event in
          group_events logs (<[height := unwrap_or [] (unordered_events !! height) ++ [event]]> unordered_events)
      end
  end.
Definition write_page (p : EthSyncPage) (events : list Log) (self : RelayerDb) : result string unit * RelayerDb :=
  match sort_events_by_log_index events with
  | Err e => (Err e, self)
  | Ok sorted_events =>
      match group_events sorted_events ∅ with
      | Err e => (Err e, self)
      | Ok unordered_events =>
          st_for (λ height, insert_events height (unwrap_or [] (unordered_events !! height)))
            (seqZ (page_oldest p) (page_latest p - page_oldest p + 1)) self
      end
  end.
(** [download_logs] and [write_logs]: the pages are requested one after the other,
    and the first error ends both. *)
Fixpoint write_logs (node : EthNode) (number : nat) (ps : list EthSyncPage) : ST RelayerDb string unit :=
  match ps with
  | [] => mret ()
  | p :: ps => λ self,
      match eth_get_logs node number (page_oldest p) (page_latest p) with
      | Err e => (Err e, self)
      | Ok logs => (write_page p logs ≫= λ _, write_logs node (S number) ps) self
      end
  end.
(** [delivered] is the number of pages before a shutdown. *)
Definition download_logs (config : RelayerConfig) (node : EthNode) (delivered : nat) (gap : EthSyncGap) : ST RelayerDb string unit :=
  write_logs node 0 (take delivered (pages (Z.to_nat (latest gap - oldest gap + 1)) (page gap (log_page_size config)))).

Definition update_synced (state : EthState) (self : RelayerTask) : RelayerTask := MkRelayerTask (sync_state state) (rt_database self).
Definition run_relayer (config : RelayerConfig) (node : EthNode) (delivered : nat) : ST RelayerTask string unit := λ self,
  match eth_wait_if_syncing node with
  | Err e => (Err e, self)
  | Ok _ =>
      match eth_finalized node with
      | Err e => (Err e, self)
      | Ok finalized =>
          let state := MkEthState finalized (da_block_height (rt_synced self)) in
          match needs_to_sync_eth state with
          | None => (Ok (), self)
          | Some gap =>
              let '(result, db) := download_logs config node delivered gap (rt_database self) in
              let self := MkRelayerTask (rt_synced self) db in
              (result,
               match latest_da_height db with
               | Some latest_written_height => update_synced (MkEthState (remote state) latest_written_height) self
               | None => self
               end)
          end
      end
  end.
End run.
