(* ===== verification/RelayerFacts.v ===== *)
(** * The relayer: theorems

    Whatever the node of the settlement layer answers in time, and whenever runs
    fail, are stopped or the service is started again, the history of the relayer
    is the events of the settlement layer, height by height without a gap. *)
From stdpp Require Import strings sorting.
From S2P Require Import Prelude FuelTypes ExecutorTypes Importer Relayer.

(** ** Sorting *)
Definition index_of (l : Log) : Z := unwrap_or 0 (log_index l).
Definition by_index (a b : Log) : Prop := index_of a ≤ index_of b.

Lemma insert_by_index_perm x l : insert_by_index x l ≡ₚ x :: l.
Proof. induction l as [|y l IH]; cbn; [done|]. case_decide; [done|]. rewrite IH. by constructor. Qed.
Lemma insert_by_index_sorted x l :
  StronglySorted (λ a b : Z * Log, a.1 ≤ b.1) l → StronglySorted (λ a b : Z * Log, a.1 ≤ b.1) (insert_by_index x l).
Proof.
  induction 1 as [|y l Hl IH Hy]; cbn; [by repeat constructor|]. case_decide.
  - constructor; [by constructor|]. constructor; [done|]. eapply Forall_impl; [done|]. cbn. lia.
  - constructor; [done|]. rewrite insert_by_index_perm. constructor; [lia|done].
Qed.
Lemma sort_spec logs sorted : sort_events_by_log_index logs = Ok sorted → sorted ≡ₚ logs ∧ StronglySorted by_index sorted.
Proof.
  unfold sort_events_by_log_index. destruct (result_map _ logs) as [pairs|] eqn:Hp; [|done]. cbn [mbind result_bind]. intros [= <-].
  assert (Forall (λ p : Z * Log, p.1 = index_of p.2) pairs ∧ snd <$> pairs = logs) as [Hidx <-].
  { revert pairs Hp. induction logs as [|l logs IH]; intros pairs; cbn; [by intros [= <-]|]. destruct (log_index l) as [i|] eqn:Hi; [|done]. cbn.
    destruct (result_map _ logs) as [ps|]; [|done]. intros [= <-]. destruct (IH ps eq_refl) as [H1 H2]. split; [|cbn; by rewrite H2].
    constructor; [|done]. cbn. unfold index_of. by rewrite Hi. }
  assert (foldr insert_by_index [] pairs ≡ₚ pairs ∧ StronglySorted (λ a b : Z * Log, a.1 ≤ b.1) (foldr insert_by_index [] pairs)) as [Hperm Hsort].
  { clear. induction pairs as [|x pairs [IH1 IH2]]; cbn; [by split; [|constructor]|]. split; [rewrite insert_by_index_perm; by f_equiv|by apply insert_by_index_sorted]. }
  split; [by rewrite Hperm|]. rewrite <- Hperm in Hidx. clear -Hsort Hidx. induction Hsort as [|x l Hl IH Hx]; cbn; [constructor|].
  apply Forall_cons in Hidx as [H1 H2]. constructor; [by apply IH|]. apply Forall_fmap, Forall_forall. intros y Hy.
  unfold by_index. cbn. rewrite Forall_forall in Hx, H2. rewrite <- H1, <- (H2 y Hy). by apply Hx.
Qed.
Lemma sort_ok logs : Forall (λ l, is_Some (log_index l)) logs → ∃ sorted, sort_events_by_log_index logs = Ok sorted.
Proof.
  intros Hi. unfold sort_events_by_log_index. assert (∃ ps, result_map (λ e, log_index ← ok_or (log_index e) "Log missing log_index"; Ok (log_index, e)) logs = Ok ps) as [ps ->].
  { induction Hi as [|l logs [i Hl] _ [ps IH]]; cbn; [by eexists|]. rewrite Hl. cbn. rewrite IH. by eexists. }
  by eexists.
Qed.

Section relayer.
Context `{ABI : EthAbi}.

(** ** Events by height *)
Definition event_of (l : Log) : option RelayerEvent := match fuel_event l with Some (Ok e) => Some e | _ => None end.
Lemma event_height l e : event_of l = Some e → block_number l = Some (event_da_height e).
Proof.
  unfold event_of, fuel_event, EthEventLog_try_from, parse_message_to_event, parse_forced_tx_to_event. destruct (topics l) as [|n ts]; [done|].
  case_decide; [|case_decide; [|done]]; case_decide; try done.
  - destruct (decode_message _ _); cbn; [|done]. destruct (block_number l); cbn; [|done]. by intros [= <-].
  - destruct (decode_transaction _ _); cbn; [|done]. destruct (block_number l); cbn; [|done]. by intros [= <-].
Qed.

Definition logs_at (h : Z) (logs : list Log) : list Log := filter (λ l, block_number l = Some h) logs.
Lemma group_events_spec logs m m' h :
  group_events logs m = Ok m' → unwrap_or [] (m' !! h) = unwrap_or [] (m !! h) ++ omap event_of (logs_at h logs).
Proof.
  revert m. induction logs as [|l logs IH]; intros m; cbn [group_events]; [intros [= <-]; by rewrite app_nil_r|].
  pose proof (event_height l) as Hh. unfold event_of in Hh. unfold logs_at. rewrite filter_cons.
  destruct (fuel_event l) as [[e|]|] eqn:He; [|done|].
  - specialize (Hh e eq_refl). intros Hg. rewrite (IH _ Hg), Hh. destruct (decide (event_da_height e = h)) as [->|Hne].
    + rewrite lookup_insert_eq, decide_True by done. cbn [unwrap_or omap list_omap]. unfold event_of at 2. rewrite He. by rewrite <- app_assoc.
    + rewrite lookup_insert_ne by done. rewrite decide_False by congruence. done.
  - intros Hg. rewrite (IH _ Hg). case_decide; [|done]. cbn [omap list_omap]. unfold event_of at 2. by rewrite He.
Qed.
Lemma group_events_ok logs m : Forall (λ l, is_ok (EthEventLog_try_from l) = true) logs → ∃ m', group_events logs m = Ok m'.
Proof.
  intros Hl. revert m. induction Hl as [|l logs Hl _ IH]; intros m; cbn [group_events]; [by eexists|]. unfold fuel_event.
  destruct (EthEventLog_try_from l) as [[]|]; [apply IH..|done].
Qed.
Lemma omap_event_height h logs : Forall (λ e, event_da_height e = h) (omap event_of (logs_at h logs)).
Proof.
  unfold logs_at. induction logs as [|l logs IH]; [constructor|]. rewrite filter_cons. case_decide as Hb; [|done]. cbn [omap list_omap].
  destruct (event_of l) as [e|] eqn:He; [|done]. constructor; [|done]. apply event_height in He. congruence.
Qed.

(** ** The settlement layer *)
(** The logs of the contracts at each height: with their height and with distinct
    indexes *)
Context (chain_logs : Z → list Log).
Context (Hchain : ∀ h, Forall (λ l, block_number l = Some h ∧ is_Some (log_index l)) (chain_logs h) ∧ NoDup (index_of <$> chain_logs h)).
(** The events of a height, in the order of the log indexes *)
Definition events_of (h : Z) : list RelayerEvent :=
  match sort_events_by_log_index (chain_logs h) with Ok sorted => omap event_of sorted | Err _ => [] end.
(** What is answered is right, in any order. *)
Definition honest_node (node : EthNode) : Prop :=
  (∀ n a b logs, eth_get_logs node n a b = Ok logs → logs ≡ₚ seqZ a (b - a + 1) ≫= chain_logs)
  ∧ ∀ r, eth_finalized node = Ok r → 0 ≤ r < int_max u64.

Lemma logs_at_seq a n h :
  logs_at h (seqZ a n ≫= chain_logs) = if decide (a ≤ h < a + n) then chain_logs h else [].
Proof.
  assert (∀ k, logs_at h (chain_logs k) = if decide (k = h) then chain_logs h else []) as Hk.
  { intros k. unfold logs_at. destruct (Hchain k) as [Hf _]. case_decide as Heq.
    - subst k. apply list_filter_all. intros l Hl. rewrite Forall_forall in Hf. by apply Hf.
    - destruct (filter _ (chain_logs k)) as [|l ls] eqn:Hfil; [done|]. assert (l ∈ filter (λ l, block_number l = Some h) (chain_logs k)) as Hin by (rewrite Hfil; left).
      apply list_elem_of_filter in Hin as [Hb Hin]. rewrite Forall_forall in Hf. destruct (Hf l Hin). congruence. }
  destruct (decide (0 ≤ n)) as [Hn|Hn]; [|rewrite seqZ_nil, decide_False by lia; done]. revert a. pattern n. apply natlike_ind; [|clear n Hn|done].
  { intros a. rewrite decide_False by lia. done. }
  intros n Hn IH a. rewrite seqZ_cons by lia. rewrite bind_cons. unfold logs_at in *. rewrite filter_app, Hk, Z.pred_succ, IH.
  repeat case_decide; subst; try lia; [by rewrite app_nil_r|done..].
Qed.

(** The events of a page at a height are those of the settlement layer. *)
Lemma page_events a b logs sorted m h :
  logs ≡ₚ seqZ a (b - a + 1) ≫= chain_logs → sort_events_by_log_index logs = Ok sorted → group_events sorted ∅ = Ok m → a ≤ h ≤ b →
  unwrap_or [] (m !! h) = events_of h.
Proof.
  intros Hlogs Hsort Hgroup Hh. rewrite (group_events_spec _ _ _ h Hgroup), lookup_empty. cbn [unwrap_or app].
  destruct (sort_spec _ _ Hsort) as [Hperm Hs]. destruct (Hchain h) as [Hf Hnd].
  destruct (sort_ok (chain_logs h)) as [sorted_h Hsorted]; [eapply Forall_impl; [exact Hf|]; by intros l [_ ?]|].
  unfold events_of. rewrite Hsorted. destruct (sort_spec _ _ Hsorted) as [Hperm' Hs']. f_equal.
  assert (logs_at h sorted ≡ₚ chain_logs h) as Hat.
  { unfold logs_at. rewrite Hperm, Hlogs. fold (logs_at h (seqZ a (b - a + 1) ≫= chain_logs)). rewrite logs_at_seq, decide_True by lia. done. }
  apply (StronglySorted_unique_strong by_index).
  - intros x y Hx Hy H1 H2. assert (index_of x = index_of y) as Heq by (unfold by_index in *; lia). rewrite Hat in Hx. rewrite Hperm' in Hy.
    apply list_elem_of_lookup in Hx as [i Hi], Hy as [j Hj].
    assert (i = j) as ->; [|congruence]. eapply NoDup_lookup; [exact Hnd|by rewrite list_lookup_fmap, Hi|rewrite list_lookup_fmap, Hj; cbn; by rewrite Heq].
  - clear -Hs. unfold logs_at. induction Hs as [|x l Hl IH Hx]; [constructor|]. rewrite filter_cons. case_decide; [|done]. constructor; [done|].
    rewrite Forall_forall in *. intros y [_ Hy]%list_elem_of_filter. by apply Hx.
  - done.
  - by rewrite Hat, Hperm'.
Qed.

(** ** The history *)
Lemma events_of_height h : Forall (λ e, event_da_height e = h) (events_of h).
Proof.
  unfold events_of. destruct (sort_events_by_log_index (chain_logs h)) as [sorted|] eqn:Hs; [|constructor]. destruct (sort_spec _ _ Hs) as [Hperm _].
  assert (logs_at h sorted = sorted) as <-; [|apply omap_event_height]. apply list_filter_all. intros l Hl. rewrite Hperm in Hl.
  destruct (Hchain h) as [Hf _]. rewrite Forall_forall in Hf. by apply Hf.
Qed.

(** The history has the events of every height from [first] to the latest. *)
Definition next_da (first : Z) (db : RelayerDb) : Z := match latest_da_height db with Some l => l + 1 | None => first end.
Definition history_ok (first : Z) (db : RelayerDb) : Prop :=
  0 ≤ first ≤ next_da first db ∧ next_da first db ≤ int_max u64 + 1
  ∧ ∀ h, events_history db !! h = if decide (first ≤ h < next_da first db) then Some (events_of h) else None.

Lemma insert_events_ok first db h :
  history_ok first db → h = next_da first db → h ≤ int_max u64 →
  ∃ db', insert_events h (events_of h) db = (Ok (), db') ∧ history_ok first db' ∧ latest_da_height db' = Some h.
Proof.
  intros (Hf & Hmax & Hh) -> Hle. unfold insert_events. rewrite decide_True by apply events_of_height. unfold commit_events.
  assert (match latest_da_height db with
          | None => Ok ()
          | Some prev_height =>
              next_expected_height ← ok_or (checked_add u64 prev_height 1) FailedToAdvanceHeight;
              if decide (next_expected_height = next_da first db) then Ok () else Err (HeightsAreNotLinked prev_height (next_da first db))
          end = Ok ()) as ->.
  { unfold next_da in *. destruct (latest_da_height db) as [l|]; [|done]. unfold checked_add. rewrite fit_ok; [cbn; by rewrite decide_True|].
    split; [cbn; lia|done]. }
  cbn [mbind result_bind latest_da_height unwrap_or]. rewrite decide_False.
  2:{ unfold next_da in *. destruct (latest_da_height db); cbn; lia. }
  eexists. split; [done|]. split; [|done]. unfold history_ok.
  change (next_da first (MkRelayerDb _ _)) with (next_da first db + 1). cbn [events_history]. split; [lia|]. split; [lia|]. intros h.
  destruct (decide (h = next_da first db)) as [->|Hne]; [rewrite lookup_insert_eq, decide_True by lia; done|].
  rewrite lookup_insert_ne, Hh by done. repeat case_decide; (done || lia).
Qed.

Lemma insert_range_ok first db (m : gmap DaBlockHeight (list RelayerEvent)) a n :
  history_ok first db → a = next_da first db → 0 ≤ n → a + n ≤ int_max u64 + 1 → (∀ h, a ≤ h < a + n → unwrap_or [] (m !! h) = events_of h) →
  ∃ db', st_for (λ height, insert_events height (unwrap_or [] (m !! height))) (seqZ a n) db = (Ok (), db')
    ∧ history_ok first db' ∧ next_da first db' = a + n.
Proof.
  intros Hok Ha Hn. revert a db Hok Ha. pattern n. apply natlike_ind; [|clear n Hn|done].
  { intros a db Hok -> _ _. exists db. rewrite Z.add_0_r. by split_and!. }
  intros n Hn IH a db Hok Ha Hl Hm. rewrite seqZ_cons by lia. cbn [st_for]. rewrite bind_case, Hm by lia.
  destruct (insert_events_ok first db a Hok Ha ltac:(lia)) as (db1 & -> & Hok1 & Hlat). rewrite Z.pred_succ.
  destruct (IH (Z.succ a) db1 Hok1) as (db' & -> & Hok' & Hnext); [unfold next_da; rewrite Hlat; lia|lia|intros h Hh; apply Hm; lia|].
  exists db'. split_and!; [done..|lia].
Qed.

Lemma write_page_ok first db p logs :
  history_ok first db → page_oldest p = next_da first db → page_oldest p ≤ page_latest p ≤ int_max u64 →
  logs ≡ₚ seqZ (page_oldest p) (page_latest p - page_oldest p + 1) ≫= chain_logs →
  let '(r, db') := write_page p logs db in
  history_ok first db' ∧ if is_ok r then next_da first db' = page_latest p + 1 else db' = db.
Proof.
  intros Hok Ho Hl Hlogs. unfold write_page. destruct (sort_events_by_log_index logs) as [sorted|] eqn:Hs; [|done].
  destruct (group_events sorted ∅) as [m|] eqn:Hg; [|done].
  destruct (insert_range_ok first db m (page_oldest p) (page_latest p - page_oldest p + 1) Hok Ho) as (db' & -> & Hok' & Hn); [lia..| |by split; [|cbn; lia]].
  intros h Hh. apply (page_events _ _ _ _ _ _ Hlogs Hs Hg). lia.
Qed.
(** A page of well formed logs is written. *)
Definition logs_decode (a b : Z) : Prop := ∀ h, a ≤ h ≤ b → Forall (λ l, is_ok (EthEventLog_try_from l) = true) (chain_logs h).
Lemma write_page_succeeds first db p logs :
  history_ok first db → page_oldest p = next_da first db → page_oldest p ≤ page_latest p ≤ int_max u64 →
  logs ≡ₚ seqZ (page_oldest p) (page_latest p - page_oldest p + 1) ≫= chain_logs → logs_decode (page_oldest p) (page_latest p) →
  ∃ db', write_page p logs db = (Ok (), db').
Proof.
  intros Hok Ho Hl Hlogs Hdec. assert (∀ Q : Log → Prop, (∀ h, page_oldest p ≤ h ≤ page_latest p → Forall Q (chain_logs h)) → Forall Q logs) as Hall.
  { intros Q HQ. rewrite Hlogs. apply Forall_forall. intros l (h & Hh & Hin%elem_of_seqZ)%list_elem_of_bind.
    specialize (HQ h ltac:(lia)). rewrite Forall_forall in HQ. by apply HQ. }
  unfold write_page. destruct (sort_ok logs) as [sorted Hs]; [apply Hall; intros h _; eapply Forall_impl; [apply Hchain|]; by intros l [_ ?]|]. rewrite Hs.
  destruct (group_events_ok sorted ∅) as [m Hg]; [destruct (sort_spec _ _ Hs) as [Hperm _]; rewrite Hperm; apply Hall, Hdec|]. rewrite Hg.
  destruct (insert_range_ok first db m (page_oldest p) (page_latest p - page_oldest p + 1) Hok Ho) as (db' & -> & _); [lia..| |by eexists].
  intros h Hh. apply (page_events _ _ _ _ _ _ Hlogs Hs Hg). lia.
Qed.

(** ** Pages *)
(** Pages that follow each other from [a] up to [e] *)
Fixpoint pages_from (a e : Z) (ps : list EthSyncPage) : Prop :=
  match ps with
  | [] => a = e + 1
  | p :: ps => page_oldest p = a ∧ a ≤ page_latest p ≤ e ∧ pages_from (page_latest p + 1) e ps
  end.
Lemma pages_from_length a e ps : pages_from a e ps → Z.of_nat (length ps) ≤ Z.max 0 (e + 1 - a).
Proof. revert a. induction ps as [|p ps IH]; intros a; cbn [pages_from length]; [lia|]. intros (H1 & H2 & H3). specialize (IH _ H3). lia. Qed.
Lemma pages_spec fuel a e size :
  0 ≤ a ≤ e → e < int_max u64 → in_range u64 size → size ≠ 0 → e - a + 1 ≤ Z.of_nat fuel →
  pages_from a e (pages fuel (Some (MkEthSyncPage a (Z.min (a + size - 1) e) size e))).
Proof.
  intros Ha He Hsz Hsz0. assert (0 < size) as Hpos by (revert Hsz; int_unfold; lia). revert a Ha. induction fuel as [|fuel IH]; intros a Ha Hfuel; [lia|].
  cbn [pages pages_from page_oldest page_latest]. split; [done|]. split; [lia|]. unfold reduce, some_page, page_is_empty.
  cbn [page_oldest page_latest page_size page_end]. destruct (decide (a + size ≤ e)) as [Hle|Hgt].
  - assert (saturating_add u64 a size = a + size) as -> by (revert He; int_unfold; lia).
    replace (Z.min (saturating_add u64 (Z.min (a + size - 1) e) size) e) with (Z.min (a + size + size - 1) e) by (revert He; int_unfold; lia).
    rewrite bool_decide_eq_false_2 by lia. replace (Z.min (a + size - 1) e + 1) with (a + size) by lia.
    replace (a + size + size - 1) with ((a + size) + size - 1) by lia. apply IH; lia.
  - rewrite bool_decide_eq_true_2 by (left; revert He; int_unfold; lia). destruct fuel; cbn; lia.
Qed.
Lemma page_some gap size :
  0 ≤ oldest gap ≤ latest gap → latest gap < int_max u64 → in_range u64 size → size ≠ 0 →
  page gap size = Some (MkEthSyncPage (oldest gap) (Z.min (oldest gap + size - 1) (latest gap)) size (latest gap)).
Proof.
  intros Hg Hmax Hsz Hsz0. unfold page, some_page, page_is_empty. cbn [page_oldest page_latest page_size].
  replace (Z.min (saturating_add u64 (oldest gap) (saturating_sub u64 size 1)) (latest gap)) with (Z.min (oldest gap + size - 1) (latest gap))
    by (revert Hsz Hmax; int_unfold; lia).
  rewrite bool_decide_eq_false_2; [done|]. revert Hsz. int_unfold. lia.
Qed.

Lemma write_logs_ok first node number db a e ps n :
  honest_node node → history_ok first db → a = next_da first db → pages_from a e ps → e < int_max u64 →
  let '(r, db') := write_logs node number (take n ps) db in
  history_ok first db' ∧ next_da first db ≤ next_da first db' ≤ Z.max (next_da first db) (e + 1).
Proof.
  intros Hnode Hok Ha Hps He. revert number db a n Hok Ha Hps. induction ps as [|p ps IH]; intros number db a n Hok Ha Hps.
  { rewrite take_nil. cbn. split; [done|lia]. }
  destruct n as [|n]; cbn [take write_logs]; [cbn; split; [done|lia]|]. destruct Hps as (Ho & Hl & Hps).
  destruct (eth_get_logs node number (page_oldest p) (page_latest p)) as [logs|] eqn:Hlogs; [|split; [done|lia]]. apply (proj1 Hnode) in Hlogs.
  rewrite bind_case. pose proof (write_page_ok first db p logs Hok ltac:(congruence) ltac:(lia) Hlogs) as Hw.
  destruct (write_page p logs db) as [[[]|err] db1]; cbn [is_ok] in Hw; destruct Hw as [Hok1 Hn1]; [|subst db1; split; [done|lia]].
  specialize (IH (S number) db1 _ n Hok1 (eq_sym Hn1) Hps). destruct (write_logs node (S number) (take n ps) db1) as [r db2].
  destruct IH as [Hok2 Hn2]. split; [done|lia].
Qed.
Lemma write_logs_succeeds first node number db a e ps :
  honest_node node → (∀ n x y, ∃ logs, eth_get_logs node n x y = Ok logs) → history_ok first db → a = next_da first db → pages_from a e ps →
  e < int_max u64 → logs_decode a e → ∃ db', write_logs node number ps db = (Ok (), db') ∧ history_ok first db' ∧ next_da first db' = e + 1.
Proof.
  intros Hnode Hans Hok Ha Hps He. revert number db a Hok Ha Hps. induction ps as [|p ps IH]; intros number db a Hok Ha Hps Hdec.
  { exists db. cbn in Hps. split_and!; [done..|lia]. }
  cbn [write_logs]. destruct Hps as (Ho & Hl & Hps). destruct (Hans number (page_oldest p) (page_latest p)) as [logs Hlogs]. rewrite Hlogs.
  apply (proj1 Hnode) in Hlogs. rewrite bind_case.
  destruct (write_page_succeeds first db p logs Hok ltac:(congruence) ltac:(lia) Hlogs) as [db1 Hw]; [intros h Hh; apply Hdec; lia|].
  pose proof (write_page_ok first db p logs Hok ltac:(congruence) ltac:(lia) Hlogs) as Hw1. rewrite Hw in *. destruct Hw1 as [Hok1 Hn1].
  apply (IH (S number) db1 _ Hok1 (eq_sym Hn1) Hps). intros h Hh. apply Hdec. lia.
Qed.

(** ** The task *)
Section task.
Context (config : RelayerConfig) (Hdeploy : in_range u64 (da_deploy_height config)) (Hsize : in_range u64 (log_page_size config)).
(** The first height that is downloaded *)
Definition first_da : Z := saturating_sub u64 (da_deploy_height config) 1 + 1.
Definition task_ok (t : RelayerTask) : Prop :=
  history_ok first_da (rt_database t) ∧ da_block_height (rt_synced t) = next_da first_da (rt_database t) - 1.

(** Runs with honest nodes, that may fail or be stopped at any point, and new
    starts of the service *)
Inductive relayer_reach : RelayerTask → Prop :=
| relayer_start : relayer_reach (NotInitializedTask_new config (MkRelayerDb ∅ None))
| relayer_run t node delivered : relayer_reach t → honest_node node → relayer_reach (run_relayer config node delivered t).2
| relayer_restart t : relayer_reach t → relayer_reach (NotInitializedTask_new config (rt_database t)).

Lemma new_task_ok db : history_ok first_da db → task_ok (NotInitializedTask_new config db).
Proof. intros Hok. split; [done|]. cbn. unfold next_da, first_da. destruct (latest_da_height db); cbn [unwrap_or]; lia. Qed.
Lemma update_task_ok db db' synced r :
  history_ok first_da db → history_ok first_da db' → da_block_height synced = next_da first_da db - 1 → next_da first_da db ≤ next_da first_da db' →
  task_ok match latest_da_height db' with Some l => update_synced (MkEthState r l) (MkRelayerTask synced db') | None => MkRelayerTask synced db' end.
Proof.
  intros ((_ & Hf) & _) Hok Hs Hle. destruct (latest_da_height db') as [l|] eqn:Hl; (split; [done|]); cbn.
  - unfold sync_state, next_da. rewrite Hl. case_match; cbn; lia.
  - unfold next_da in *. rewrite Hl in *. lia.
Qed.

(** The pages of the gap that a task finds *)
Lemma gap_pages t r :
  task_ok t → da_block_height (rt_synced t) < r → r < int_max u64 → log_page_size config ≠ 0 →
  let gap := MkEthSyncGap (saturating_add u64 (da_block_height (rt_synced t)) 1) r in
  pages_from (next_da first_da (rt_database t)) r (pages (Z.to_nat (latest gap - oldest gap + 1)) (page gap (log_page_size config))).
Proof.
  intros [((Hf & Hf2) & Hm & _) Hs] Hr Hmax Hz gap.
  assert (gap = MkEthSyncGap (next_da first_da (rt_database t)) r) as -> by (unfold gap; f_equal; revert Hs Hr Hmax Hm; int_unfold; lia).
  rewrite page_some by (cbn [oldest latest]; (done || lia)). cbn [oldest latest]. apply pages_spec; [lia|done..|lia].
Qed.

Lemma relayer_run_ok t node delivered : task_ok t → honest_node node → task_ok (run_relayer config node delivered t).2.
Proof.
  intros Ht Hnode. unfold run_relayer. destruct (eth_wait_if_syncing node); [|done]. destruct (eth_finalized node) as [r|] eqn:Hr; [|done].
  apply (proj2 Hnode) in Hr. unfold needs_to_sync_eth, eth_is_synced. cbn [remote local]. destruct (bool_decide (r ≤ da_block_height (rt_synced t))) eqn:Hb; [done|].
  apply bool_decide_eq_false in Hb. unfold download_logs. set (gap := MkEthSyncGap _ r).
  assert (let '(_, db') := write_logs node 0 (take delivered (pages (Z.to_nat (latest gap - oldest gap + 1)) (page gap (log_page_size config)))) (rt_database t) in
    history_ok first_da db' ∧ next_da first_da (rt_database t) ≤ next_da first_da db') as Hw.
  { destruct (decide (log_page_size config = 0)) as [Hz|Hz].
    - assert (page gap (log_page_size config) = None) as ->.
      { unfold page, some_page, page_is_empty. cbn [page_size]. by rewrite bool_decide_eq_true_2 by (by right). }
      assert (pages (Z.to_nat (latest gap - oldest gap + 1)) None = []) as -> by (by destruct (Z.to_nat _)). rewrite take_nil. cbn. split; [apply Ht|lia].
    - pose proof (write_logs_ok first_da node 0 (rt_database t) _ r _ delivered Hnode (proj1 Ht) eq_refl (gap_pages t r Ht ltac:(lia) ltac:(lia) Hz) ltac:(lia)) as Hw.
      destruct (write_logs node 0 _ _) as [r' db']. split; [apply Hw|lia]. }
  destruct (write_logs node 0 _ _) as [r' db']. destruct Hw as [Hok' Hle]. cbn [snd remote]. destruct Ht as [Ht Hs]. by apply (update_task_ok (rt_database t)).
Qed.
Lemma reach_ok t : relayer_reach t → task_ok t.
Proof.
  induction 1 as [|t node delivered _ IH Hnode|t _ IH]; [|by apply relayer_run_ok|apply new_task_ok, IH].
  apply new_task_ok. unfold history_ok, next_da. cbn [latest_da_height events_history]. unfold first_da.
  split; [revert Hdeploy; int_unfold; lia|]. split; [revert Hdeploy; int_unfold; lia|]. intros h. by rewrite decide_False, lookup_empty by lia.
Qed.

(** C15 The history of the relayer is that of the settlement layer.  After any runs,
    with nodes that answer rightly or not at all, stopped between any two pages,
    and after any restarts of the service with the same configuration, the
    history holds, for every height from the configured deployment height to the
    height that the relayer announces, the height zero excepted, and for no other,
    exactly the events of that height in the order of their log indexes, which
    are distinct; these are what the executor is given.  (The block at height zero
    is never downloaded, not even if the contract is deployed there.)  And a run
    that is not interrupted, with a node that answers, logs that can be decoded
    and pages that are not empty, announces that the relayer is synchronised at
    the finalized height. *)
Theorem relayer_history_exact t :
  relayer_reach t →
  (∀ h, events_history (rt_database t) !! h
        = if decide (da_deploy_height config ≤ h ≤ da_block_height (rt_synced t) ∧ h ≠ 0) then Some (events_of h) else None)
  ∧ (∀ h, da_deploy_height config ≤ h ≤ da_block_height (rt_synced t) → h ≠ 0 → get_events (relayer_port (rt_database t)) h = Ok (events_of h))
  ∧ ∀ node delivered r,
      honest_node node → (∀ n a b, ∃ logs, eth_get_logs node n a b = Ok logs) → eth_wait_if_syncing node = Ok () → eth_finalized node = Ok r →
      da_block_height (rt_synced t) < r → logs_decode (da_block_height (rt_synced t) + 1) r → log_page_size config ≠ 0 → r < Z.of_nat delivered →
      ∃ db', run_relayer config node delivered t = (Ok (), MkRelayerTask (RelayerSynced r) db').
Proof.
  intros Hr. pose proof (reach_ok t Hr) as Ht. destruct Ht as [Hok Hs]. pose proof Hok as (Hf & Hm & Hh).
  assert (∀ h, events_history (rt_database t) !! h
    = if decide (da_deploy_height config ≤ h ≤ da_block_height (rt_synced t) ∧ h ≠ 0) then Some (events_of h) else None) as Hhist.
  { assert (first_da = Z.max 1 (da_deploy_height config)) as Hfirst by (unfold first_da; revert Hdeploy; int_unfold; lia).
    revert Hdeploy. unfold in_range. cbn [int_min u64 unsigned]. intros Hdeploy' h. rewrite Hh. repeat case_decide; (done || lia). }
  split; [done|]. split; [intros h Hin Hz; cbn; by rewrite Hhist, decide_True|].
  intros node delivered r Hnode Hans Hw Hfin Hlt Hdec Hz Hdel. destruct (proj2 Hnode r Hfin) as [Hr0 Hmax]. unfold run_relayer. rewrite Hw, Hfin.
  unfold needs_to_sync_eth, eth_is_synced. cbn [remote local]. rewrite bool_decide_eq_false_2 by lia. unfold download_logs. set (gap := MkEthSyncGap _ r).
  pose proof (gap_pages t r (conj Hok Hs) Hlt Hmax Hz) as Hps. cbn zeta in Hps. fold gap in Hps.
  pose proof (pages_from_length _ _ _ Hps) as Hlen. set (ps := pages _ _) in *.
  rewrite take_ge by lia.
  destruct (write_logs_succeeds first_da node 0 (rt_database t) _ r ps Hnode Hans Hok eq_refl Hps Hmax) as (db' & -> & Hok' & Hn'); [intros h Hin; apply Hdec; lia|].
  assert (latest_da_height db' = Some r) as Hlat.
  { unfold next_da in *. destruct (latest_da_height db') as [l|]; [f_equal; lia|]. destruct Hok' as ((_ & Hx) & _). unfold next_da in Hx. exfalso. lia. }
  rewrite Hlat. exists db'. unfold update_synced, sync_state, eth_is_synced. cbn. by rewrite bool_decide_eq_true_2 by lia.
Qed.
End task.
End relayer.

(** ** A witness *)
Definition sample_abi : EthAbi := {|
  ETH_LOG_MESSAGE := 1;
  ETH_FORCED_TX := 2;
  decode_message := λ _ data, Ok (MkMessageSentFilter 5 6 (nth 0 data 0) (nth 1 data 0) []);
  decode_transaction := λ _ data, Ok (MkTransactionFilter (nth 0 data 0) 500 data)
|}.
#[local] Existing Instance sample_abi.
(** Three logs at height 8, answered in another order than that of their indexes *)
Definition sample_chain_logs (h : Z) : list Log :=
  if decide (h = 8)
  then [MkLog [2; 0] [21] (Some 8) (Some 4); MkLog [1; 0; 0; 0] [22; 30] (Some 8) (Some 2); MkLog [9] [] (Some 8) (Some 3)]
  else [].
Definition sample_node (r : Z) : EthNode := MkEthNode (Ok ()) (Ok r) (λ _ a b, Ok (seqZ a (b - a + 1) ≫= sample_chain_logs)).
Definition sample_relayer_config : RelayerConfig := MkRelayerConfig 6 2.
Definition sample_task : RelayerTask := NotInitializedTask_new sample_relayer_config (MkRelayerDb ∅ None).

Lemma sample_chain_logs_ok h :
  Forall (λ l, block_number l = Some h ∧ is_Some (log_index l)) (sample_chain_logs h) ∧ NoDup (index_of <$> sample_chain_logs h).
Proof.
  unfold sample_chain_logs. case_decide as Heq; [|split; constructor]. subst h. split; [by repeat (constructor; [split; [done|by eexists]|]); constructor|].
  cbn. repeat constructor; set_solver.
Qed.
Lemma sample_node_honest : honest_node sample_chain_logs (sample_node 9).
Proof. split; [by intros n a b logs [= <-]|]. intros r [= <-]. vm_compute. split; [discriminate|reflexivity]. Qed.

Lemma relayer_history_exact_witness :
  ∃ t, run_relayer sample_relayer_config (sample_node 9) 10 sample_task = (Ok (), t) ∧ rt_synced t = RelayerSynced 9
    ∧ events_history (rt_database t) !! 8
      = Some [EventMessage (MkMessage 5 6 22 30 [] 8); EventTransaction (MkRelayedTransaction 21 500 [21] 8)].
Proof.
  assert (relayer_reach sample_chain_logs sample_relayer_config sample_task) as H0 by apply relayer_start.
  assert (in_range u64 (da_deploy_height sample_relayer_config)) as Hd by (vm_compute; split; discriminate).
  assert (in_range u64 (log_page_size sample_relayer_config)) as Hz by (vm_compute; split; discriminate).
  destruct (relayer_history_exact sample_chain_logs sample_chain_logs_ok sample_relayer_config Hd Hz sample_task H0) as (_ & _ & Hrun).
  destruct (Hrun (sample_node 9) 10%nat 9) as [db' Hdb].
  - exact sample_node_honest.
  - intros n a b. eexists. reflexivity.
  - reflexivity.
  - reflexivity.
  - vm_compute. reflexivity.
  - intros h _. unfold sample_chain_logs. case_decide; [|constructor]. repeat constructor.
  - discriminate.
  - reflexivity.
  - exists (MkRelayerTask (RelayerSynced 9) db'). split; [exact Hdb|]. split; [reflexivity|].
    pose proof (relayer_run sample_chain_logs sample_relayer_config _ (sample_node 9) 10 H0 sample_node_honest) as H1. rewrite Hdb in H1.
    destruct (relayer_history_exact sample_chain_logs sample_chain_logs_ok sample_relayer_config Hd Hz _ H1) as (Hh & _). cbn [rt_database snd] in Hh.
    refine (eq_trans (Hh 8) _). vm_compute. reflexivity.
Defined.
