(* ===== verification/P2P.v ===== *)
(** * Peers and connections

    [crates/services/p2p/src]: the table of connected peers with its slots,
    scores and heartbeats (peer_manager.rs, peer_manager/heartbeat_data.rs), the
    admission of a peer to a slot (config/connection_tracker.rs), the limits on
    connections (connection_limits.rs), the behaviour that keeps the reserved
    nodes connected (peer_report.rs) inside the wrapper that hides connections
    above a limit from it (limited_behaviour.rs), and the handlers of the
    service that join them (p2p_service.rs, behavior.rs).

    Addresses of the network are a parameter.  Instants are nanoseconds, given
    to the calls that read a clock; the result of [choose] on a random
    generator is the parameter [pick]. *)
From Stdlib Require Import SpecFloat.
From stdpp Require Import gmap strings.
From S2P Require Import Prelude GasPriceEstimate.

Abbreviation PeerId := Z (only parsing).
Abbreviation ConnectionId := Z (only parsing).

Class Multiaddrs := {
  Multiaddr : Type;
  multiaddr_eq_dec :: EqDecision Multiaddr;
  multiaddr_countable :: Countable Multiaddr;
  protocol_stack : Multiaddr → list string;
  try_to_peer_id : Multiaddr → option PeerId
}.

(** ** Scores *)
(** [f64::min]: the other argument when one is not a number *)
Definition f64_min (x y : f64) : f64 :=
  match x, y with
  | S754_nan, _ => y
  | _, S754_nan => x
  | _, _ => if SFltb y x then y else x
  end.
Definition f64_neg_of_Z (n : Z) : f64 := SFopp (f64_of_Z n).
Definition MIN_APP_SCORE : f64 := f64_neg_of_Z 50.
Definition DEFAULT_APP_SCORE : f64 := S754_zero false.
Definition MAX_APP_SCORE : f64 := f64_of_Z 150.
Definition DECAY_APP_SCORE : f64 := f64_of_decimal (D 9 1).
Definition GRAYLIST_THRESHOLD : f64 := f64_neg_of_Z 16000.

Record ScoreConfig := MkScoreConfig { max_app_score : f64; min_app_score_allowed : f64; min_gossip_score_allowed : f64 }.
Definition ScoreConfig_new : ScoreConfig := MkScoreConfig MAX_APP_SCORE MIN_APP_SCORE GRAYLIST_THRESHOLD.

(** ** Heartbeats *)
Record HeartbeatData := MkHeartbeatData { hb_block_height : option Z; last_heartbeat : Z; window : Z; durations : list Z }.
#[export] Instance eta_HeartbeatData : Eta HeartbeatData := λ r,
  MkHeartbeatData (hb_block_height r) (last_heartbeat r) (window r) (durations r).
Definition HeartbeatData_new (now w : Z) : HeartbeatData := MkHeartbeatData None now w [].
(** The sum of durations panics when its seconds leave [u64]. *)
Definition DURATION_MAX : Z := 2 ^ 64 * 1000000000 - 1.
Definition average_time_between_heartbeats (self : HeartbeatData) : option Z :=
  match durations self with
  | [] => Some 0
  | ds => let sum := foldr Z.add 0 ds in if decide (sum ≤ DURATION_MAX) then Some (sum / Z.of_nat (length ds)) else None
  end.
(** [pop_back] is [removelast]; the front is the head of the list. *)
Definition add_new_duration (self : HeartbeatData) (new_duration : Z) : HeartbeatData :=
  let ds := if decide (Z.of_nat (length (durations self)) = window self) then removelast (durations self) else durations self in
  self <| durations := new_duration :: ds |>.
Definition heartbeat_update (now block_height : Z) (self : HeartbeatData) : HeartbeatData :=
  add_new_duration (MkHeartbeatData (Some block_height) now (window self) (durations self)) (Z.max 0 (now - last_heartbeat self)).

(** ** The peer manager *)
Section manager.
Context `{Multiaddrs}.

Record PeerInfo := MkPeerInfo {
  peer_addresses : gset Multiaddr;
  client_version : option string;
  heartbeat_data : HeartbeatData;
  score : f64
}.
#[local] Instance eta_PeerInfo : Eta PeerInfo := λ r, MkPeerInfo (peer_addresses r) (client_version r) (heartbeat_data r) (score r).
Definition HEARTBEAT_AVG_WINDOW : Z := 10.
Definition PeerInfo_new (now : Z) : PeerInfo := MkPeerInfo ∅ None (HeartbeatData_new now HEARTBEAT_AVG_WINDOW) DEFAULT_APP_SCORE.

Record ConnectionState := MkConnectionState { peers_allowed : bool }.
Definition ConnectionState_new : ConnectionState := MkConnectionState true.
Definition available_slot (self : ConnectionState) : bool := peers_allowed self.
Definition allow_new_peers (self : ConnectionState) : ConnectionState := MkConnectionState true.
Definition deny_new_peers (self : ConnectionState) : ConnectionState := MkConnectionState false.

(** [reserved_peers_updates] are the values that were broadcast. *)
Record PeerManager := MkPeerManager {
  score_config : ScoreConfig;
  non_reserved_connected_peers : gmap PeerId PeerInfo;
  reserved_connected_peers : gmap PeerId PeerInfo;
  manager_reserved_peers : gset PeerId;
  connection_state : ConnectionState;
  max_non_reserved_peers : Z;
  reserved_peers_updates : list Z
}.
#[local] Instance eta_PeerManager : Eta PeerManager := λ r,
  MkPeerManager (score_config r) (non_reserved_connected_peers r) (reserved_connected_peers r) (manager_reserved_peers r)
    (connection_state r) (max_non_reserved_peers r) (reserved_peers_updates r).
Definition PeerManager_new (reserved_peers : gset PeerId) (max_non_reserved_peers : Z) : PeerManager :=
  MkPeerManager ScoreConfig_new ∅ ∅ reserved_peers ConnectionState_new max_non_reserved_peers [].

Definition is_reserved (self : PeerManager) (peer_id : PeerId) : bool := bool_decide (peer_id ∈ manager_reserved_peers self).
Definition send_reserved_peers_update (self : PeerManager) : PeerManager :=
  self <| reserved_peers_updates := reserved_peers_updates self ++ [Z.of_nat (size (reserved_connected_peers self))] |>.

(** A call of the manager gives the peers that it bans. *)
Definition handle_gossip_score_update (peer_id : PeerId) (gossip_score : f64) (self : PeerManager) : list PeerId :=
  if SFltb gossip_score (min_gossip_score_allowed (score_config self)) && negb (is_reserved self peer_id) then [peer_id] else [].

(** [get_assigned_peer_table_mut], with what is done to the entry of the peer *)
Definition update_assigned_peer (peer_id : PeerId) (f : PeerInfo → PeerInfo) (self : PeerManager) : PeerManager :=
  if is_reserved self peer_id
  then self <| reserved_connected_peers := alter f peer_id (reserved_connected_peers self) |>
  else self <| non_reserved_connected_peers := alter f peer_id (non_reserved_connected_peers self) |>.
Definition handle_peer_info_updated (now : Z) (peer_id : PeerId) (block_height : Z) (self : PeerManager) : PeerManager :=
  update_assigned_peer peer_id (λ peer, peer <| heartbeat_data := heartbeat_update now block_height (heartbeat_data peer) |>) self.
Definition insert_client_version (client_version' : string) (peer : PeerInfo) : PeerInfo := peer <| client_version := Some client_version' |>.
Definition insert_peer_addresses (addresses : list Multiaddr) (peer : PeerInfo) : PeerInfo :=
  peer <| peer_addresses := foldl (λ s a, {[a]} ∪ s) (peer_addresses peer) addresses |>.
Definition handle_peer_identified (peer_id : PeerId) (addresses : list Multiaddr) (agent_version : string) (self : PeerManager) : PeerManager :=
  update_assigned_peer peer_id (insert_peer_addresses addresses) (update_assigned_peer peer_id (insert_client_version agent_version) self).

Definition batch_update_score_with_decay (self : PeerManager) : PeerManager :=
  self <| non_reserved_connected_peers :=
    (λ peer, peer <| score := f64_mul (score peer) DECAY_APP_SCORE |>) <$> non_reserved_connected_peers self |>.
Definition update_app_score (peer_id : PeerId) (report : f64) (self : PeerManager) : list PeerId * PeerManager :=
  match non_reserved_connected_peers self !! peer_id with
  | Some peer =>
      let new_score := f64_min (max_app_score (score_config self)) (f64_add (score peer) report) in
      (if SFltb new_score (min_app_score_allowed (score_config self)) then [peer_id] else [],
       self <| non_reserved_connected_peers := <[peer_id := peer <| score := new_score |>]> (non_reserved_connected_peers self) |>)
  | None => ([], self)
  end.

Definition total_peers_connected (self : PeerManager) : Z :=
  saturating_add u64 (Z.of_nat (size (reserved_connected_peers self))) (Z.of_nat (size (non_reserved_connected_peers self))).
Definition get_all_peers (self : PeerManager) : list (PeerId * PeerInfo) :=
  map_to_list (non_reserved_connected_peers self) ++ map_to_list (reserved_connected_peers self).
Definition get_peers_ids (self : PeerManager) : list PeerId := (get_all_peers self).*1.
Definition get_peer_info (self : PeerManager) (peer_id : PeerId) : option PeerInfo :=
  if is_reserved self peer_id then reserved_connected_peers self !! peer_id else non_reserved_connected_peers self !! peer_id.

(** [None] is below every height. *)
Definition holds_height (height : Z) (peer : PeerInfo) : bool :=
  match hb_block_height (heartbeat_data peer) with Some h => bool_decide (height ≤ h) | None => false end.
Definition get_peer_id_with_height (pick : list PeerId → option PeerId) (height : Z) (self : PeerManager) : option PeerId :=
  pick (filter (λ x, holds_height height x.2 = true) (get_all_peers self)).*1.

(** The result says whether the peer is to be disconnected. *)
Definition handle_initial_connection (now : Z) (peer_id : PeerId) (self : PeerManager) : bool * PeerManager :=
  let reserved := is_reserved self peer_id in
  if negb reserved && bool_decide (non_reserved_connected_peers self !! peer_id = None) then
    let connected := Z.of_nat (size (non_reserved_connected_peers self)) in
    if decide (max_non_reserved_peers self ≤ connected) then (true, self)
    else
      let self :=
        if decide (saturating_add u64 connected 1 = max_non_reserved_peers self)
        then self <| connection_state := deny_new_peers (connection_state self) |> else self in
      (false, self <| non_reserved_connected_peers := <[peer_id := PeerInfo_new now]> (non_reserved_connected_peers self) |>)
  else if reserved && bool_decide (reserved_connected_peers self !! peer_id = None) then
    (false, send_reserved_peers_update
              (self <| reserved_connected_peers := <[peer_id := PeerInfo_new now]> (reserved_connected_peers self) |>))
  else (false, self).
Definition handle_peer_connected := handle_initial_connection.

(** The result says whether to reconnect. *)
Definition handle_peer_disconnect (peer_id : PeerId) (self : PeerManager) : bool * PeerManager :=
  if negb (is_reserved self peer_id) then
    let all_slots_taken :=
      bool_decide (max_non_reserved_peers self = saturating_add u64 (Z.of_nat (size (non_reserved_connected_peers self))) 1) in
    let removed := bool_decide (is_Some (non_reserved_connected_peers self !! peer_id)) in
    let self := self <| non_reserved_connected_peers := delete peer_id (non_reserved_connected_peers self) |> in
    (false, if removed && all_slots_taken then self <| connection_state := allow_new_peers (connection_state self) |> else self)
  else if bool_decide (is_Some (reserved_connected_peers self !! peer_id)) then
    (true, send_reserved_peers_update
             (self <| reserved_connected_peers := delete peer_id (reserved_connected_peers self) |>))
  else (false, self).

(** *** The admission of a peer *)
(** [tracked] is [None] in the reserved-nodes-only mode. *)
Definition allow_peer (reserved_nodes : gset PeerId) (tracked : option ConnectionState) (peer_id : PeerId) : bool :=
  if bool_decide (peer_id ∈ reserved_nodes) then true
  else match tracked with Some state => available_slot state | None => false end.
End manager.

(** ** Limits on connections *)
Inductive Kind := PendingIncoming | PendingOutgoing | EstablishedIncoming | EstablishedOutgoing | EstablishedPerPeer | EstablishedTotal.
Record Exceeded := MkExceeded { exceeded_limit : Z; exceeded_kind : Kind }.
Record ConnectionLimits := MkConnectionLimits {
  max_pending_incoming : option Z;
  max_pending_outgoing : option Z;
  max_established_incoming : option Z;
  max_established_outgoing : option Z;
  max_established_per_peer : option Z;
  max_established_total : option Z
}.
Record ConnectionsStatistic := MkConnectionsStatistic {
  pending_inbound_connections : gset ConnectionId;
  pending_outbound_connections : gset ConnectionId;
  established_inbound_connections : gset ConnectionId;
  established_outbound_connections : gset ConnectionId;
  established_per_peer : gmap PeerId (gset ConnectionId);
  reserved_peers : gset PeerId
}.
#[export] Instance eta_ConnectionsStatistic : Eta ConnectionsStatistic := λ r,
  MkConnectionsStatistic (pending_inbound_connections r) (pending_outbound_connections r) (established_inbound_connections r)
    (established_outbound_connections r) (established_per_peer r) (reserved_peers r).
Definition ConnectionsStatistic_new (reserved : gset PeerId) : ConnectionsStatistic := MkConnectionsStatistic ∅ ∅ ∅ ∅ ∅ reserved.

Definition check_limit (limit : option Z) (current : nat) (kind : Kind) : result Exceeded unit :=
  let limit := unwrap_or (int_max u32) limit in
  let current := Z.min (Z.of_nat current) (int_max u32) in
  if decide (limit ≤ current) then Err (MkExceeded limit kind) else Ok ().

Definition handle_pending_inbound_connection (limits : ConnectionLimits) (connection_id : ConnectionId) (self : ConnectionsStatistic) :
    result Exceeded unit * ConnectionsStatistic :=
  match check_limit (max_pending_incoming limits) (size (pending_inbound_connections self)) PendingIncoming with
  | Err e => (Err e, self)
  | Ok _ => (Ok (), self <| pending_inbound_connections := {[connection_id]} ∪ pending_inbound_connections self |>)
  end.
Definition handle_pending_outbound_connection (limits : ConnectionLimits) (connection_id : ConnectionId) (self : ConnectionsStatistic) :
    result Exceeded unit * ConnectionsStatistic :=
  match check_limit (max_pending_outgoing limits) (size (pending_outbound_connections self)) PendingOutgoing with
  | Err e => (Err e, self)
  | Ok _ => (Ok (), self <| pending_outbound_connections := {[connection_id]} ∪ pending_outbound_connections self |>)
  end.
(** The two checks that the established handlers share *)
Definition check_peer_and_total (limits : ConnectionLimits) (peer : PeerId) (self : ConnectionsStatistic) : result Exceeded unit :=
  _ ← check_limit (max_established_per_peer limits)
        (match established_per_peer self !! peer with Some connections => size connections | None => 0 end)%nat EstablishedPerPeer;
  check_limit (max_established_total limits)
    (size (established_inbound_connections self) + size (established_outbound_connections self)) EstablishedTotal.
Definition handle_established_inbound_connection (limits : ConnectionLimits) (connection_id : ConnectionId) (peer : PeerId)
    (self : ConnectionsStatistic) : result Exceeded unit * ConnectionsStatistic :=
  let self := self <| pending_inbound_connections := pending_inbound_connections self ∖ {[connection_id]} |> in
  if bool_decide (peer ∈ reserved_peers self) then (Ok (), self)
  else (_ ← check_limit (max_established_incoming limits) (size (established_inbound_connections self)) EstablishedIncoming;
        check_peer_and_total limits peer self, self).
Definition handle_established_outbound_connection (limits : ConnectionLimits) (connection_id : ConnectionId) (peer : PeerId)
    (self : ConnectionsStatistic) : result Exceeded unit * ConnectionsStatistic :=
  let self := self <| pending_outbound_connections := pending_outbound_connections self ∖ {[connection_id]} |> in
  if bool_decide (peer ∈ reserved_peers self) then (Ok (), self)
  else (_ ← check_limit (max_established_outgoing limits) (size (established_outbound_connections self)) EstablishedOutgoing;
        check_peer_and_total limits peer self, self).

Inductive Endpoint := Listener | Dialer.
#[export] Instance endpoint_eq_dec : EqDecision Endpoint.
Proof. solve_decision. Defined.
Inductive FromSwarm :=
| ConnectionClosed (peer_id : PeerId) (connection_id : ConnectionId) (remaining_established : nat)
| ConnectionEstablished (peer_id : PeerId) (endpoint : Endpoint) (connection_id : ConnectionId)
| AddressChange (connection_id : ConnectionId)
| DialFailure (peer_id : option PeerId) (connection_id : ConnectionId)
| ListenFailure (connection_id : ConnectionId)
| OtherSwarmEvent.

Definition forget_peer_connection (peer_id : PeerId) (connection_id : ConnectionId) (remaining_established : nat)
    (per_peer : gmap PeerId (gset ConnectionId)) : gmap PeerId (gset ConnectionId) :=
  match per_peer !! peer_id with
  | Some entry =>
      let entry := entry ∖ {[connection_id]} in
      if decide (remaining_established = 0%nat ∨ entry = ∅) then delete peer_id per_peer else <[peer_id := entry]> per_peer
  | None => per_peer
  end.
Definition limits_on_swarm_event (event : FromSwarm) (self : ConnectionsStatistic) : ConnectionsStatistic :=
  match event with
  | ConnectionClosed peer_id connection_id remaining_established =>
      let self := self <| established_inbound_connections := established_inbound_connections self ∖ {[connection_id]} |> in
      let self := self <| established_outbound_connections := established_outbound_connections self ∖ {[connection_id]} |> in
      if negb (bool_decide (peer_id ∈ reserved_peers self))
      then self <| established_per_peer := forget_peer_connection peer_id connection_id remaining_established (established_per_peer self) |>
      else self
  | ConnectionEstablished peer_id endpoint connection_id =>
      let self :=
        match endpoint with
        | Listener => self <| established_inbound_connections := {[connection_id]} ∪ established_inbound_connections self |>
        | Dialer => self <| established_outbound_connections := {[connection_id]} ∪ established_outbound_connections self |>
        end in
      if negb (bool_decide (peer_id ∈ reserved_peers self))
      then self <| established_per_peer :=
             <[peer_id := {[connection_id]} ∪ unwrap_or ∅ (established_per_peer self !! peer_id)]> (established_per_peer self) |>
      else self
  | DialFailure _ connection_id => self <| pending_outbound_connections := pending_outbound_connections self ∖ {[connection_id]} |>
  | ListenFailure connection_id => self <| pending_inbound_connections := pending_inbound_connections self ∖ {[connection_id]} |>
  | _ => self
  end.
