(* ===== verification/P2PFacts.v ===== *)
(** * Facts about the table of peers

    The invariant of the peer manager over every sequence of its calls, and the
    slot that stays closed after a peer of a full table leaves. *)
From Stdlib Require Import SpecFloat.
From stdpp Require Import gmap strings.
From S2P Require Import Prelude GasPriceEstimate P2P.

Section facts.
Context `{Multiaddrs}.

(** The calls of the manager that change it *)
Inductive ManagerCall :=
| CallConnected (now : Z) (p : PeerId)
| CallDisconnected (p : PeerId)
| CallHeartbeat (now : Z) (p : PeerId) (height : Z)
| CallIdentified (p : PeerId) (addresses : list Multiaddr) (agent : string)
| CallDecay
| CallScore (p : PeerId) (report : f64).
Definition manager_call (c : ManagerCall) (m : PeerManager) : PeerManager :=
  match c with
  | CallConnected now p => (handle_peer_connected now p m).2
  | CallDisconnected p => (handle_peer_disconnect p m).2
  | CallHeartbeat now p height => handle_peer_info_updated now p height m
  | CallIdentified p addresses agent => handle_peer_identified p addresses agent m
  | CallDecay => batch_update_score_with_decay m
  | CallScore p report => (update_app_score p report m).2
  end.
Definition manager_calls (cs : list ManagerCall) (m : PeerManager) : PeerManager := foldl (λ m c, manager_call c m) m cs.

Definition heartbeats_ok (peer : PeerInfo) : Prop :=
  window (heartbeat_data peer) = HEARTBEAT_AVG_WINDOW ∧ Z.of_nat (length (durations (heartbeat_data peer))) ≤ HEARTBEAT_AVG_WINDOW.
Definition free_slots (m : PeerManager) : Z := max_non_reserved_peers m - Z.of_nat (size (non_reserved_connected_peers m)).
Definition peers_ok (P : PeerId → Prop) (peers : gmap PeerId PeerInfo) : Prop := map_Forall (λ p peer, P p ∧ heartbeats_ok peer) peers.
Record manager_ok (reserved : gset PeerId) (max : Z) (m : PeerManager) : Prop := {
  mo_config : score_config m = ScoreConfig_new ∧ manager_reserved_peers m = reserved ∧ max_non_reserved_peers m = max;
  mo_slots : 0 ≤ free_slots m;
  mo_non_reserved : peers_ok (λ p, p ∉ reserved) (non_reserved_connected_peers m);
  mo_reserved : peers_ok (λ p, p ∈ reserved) (reserved_connected_peers m);
  mo_open : available_slot (connection_state m) = true → 0 < free_slots m ∨ max = 0;
  mo_closed : available_slot (connection_state m) = false → free_slots m ≤ 1;
  mo_updates : unwrap_or 0 (last (reserved_peers_updates m)) = Z.of_nat (size (reserved_connected_peers m))
}.

Lemma new_manager_ok reserved max : 0 ≤ max → manager_ok reserved max (PeerManager_new reserved max).
Proof. intros Hm. split; unfold free_slots; cbn; rewrite ?map_size_empty; try done; try lia; apply map_Forall_empty. Qed.

(** A call that changes entries leaves the keys. *)
Lemma same_peers_ok reserved max m nr r :
  manager_ok reserved max m → size nr = size (non_reserved_connected_peers m) → size r = size (reserved_connected_peers m) →
  peers_ok (λ p, p ∉ reserved) nr → peers_ok (λ p, p ∈ reserved) r →
  manager_ok reserved max (MkPeerManager (score_config m) nr r (manager_reserved_peers m) (connection_state m) (max_non_reserved_peers m)
                             (reserved_peers_updates m)).
Proof. intros [Hc Hs Hn Hr Ho Hcl Hu] En Er. split; unfold free_slots in *; cbn; rewrite ?En, ?Er; done. Qed.
Lemma size_alter (f : PeerInfo → PeerInfo) p (t : gmap PeerId PeerInfo) : size (alter f p t) = size t.
Proof. rewrite <- !(size_dom (D := gset Z)). by rewrite dom_alter_L. Qed.
Lemma alter_peers_ok P f p t : (∀ peer, heartbeats_ok peer → heartbeats_ok (f peer)) → peers_ok P t → peers_ok P (alter f p t).
Proof. intros Hf Ht q peer Hq. apply lookup_alter_Some in Hq as [(<- & x & Hx & ->) | [_ Hq]]; [|by apply Ht]. destruct (Ht _ _ Hx). auto. Qed.
Lemma updated_peer_ok reserved max p f m :
  manager_ok reserved max m → (∀ peer, heartbeats_ok peer → heartbeats_ok (f peer)) →
  manager_ok reserved max (update_assigned_peer p f m).
Proof.
  intros Hm Hf. unfold update_assigned_peer. destruct Hm as [? ? ? ? ? ? ?] eqn:E; clear E.
  destruct (is_reserved m p); apply same_peers_ok; auto using size_alter, alter_peers_ok.
Qed.
Lemma heartbeat_update_ok now height peer :
  heartbeats_ok peer → heartbeats_ok (MkPeerInfo (peer_addresses peer) (client_version peer) (heartbeat_update now height (heartbeat_data peer)) (score peer)).
Proof.
  intros [Hw Hl]. split; cbn; [done|]. case_decide as E; [|cbn; lia].
  destruct (durations (heartbeat_data peer)) as [|d ds] using rev_ind; [cbn; unfold HEARTBEAT_AVG_WINDOW; lia|].
  rewrite removelast_last. rewrite length_app in *. cbn in *. lia.
Qed.
Lemma new_peer_ok now : heartbeats_ok (PeerInfo_new now).
Proof. split; cbn; [done|]. unfold HEARTBEAT_AVG_WINDOW. lia. Qed.

Lemma connected_ok reserved max now p m :
  max < int_max u64 → manager_ok reserved max m → manager_ok reserved max (handle_peer_connected now p m).2.
Proof.
  intros Hmax Hm. pose proof Hm as [(Hc & Hre & Hma) Hs Hn Hr Ho Hcl Hu]. unfold handle_peer_connected, handle_initial_connection, is_reserved.
  rewrite Hre, Hma. unfold free_slots in *. rewrite Hma in *.
  destruct (decide (p ∈ reserved)) as [Hp | Hp]; [rewrite (bool_decide_eq_true_2 _ Hp) | rewrite (bool_decide_eq_false_2 _ Hp)];
    cbn [negb andb]; (case_bool_decide as Ht; [|done]).
  - split; cbn; try done.
    + apply map_Forall_insert_2; [split; [done | apply new_peer_ok] | done].
    + rewrite last_snoc. done.
  - case_decide; [done|]. assert (Hsz : size (<[p := PeerInfo_new now]> (non_reserved_connected_peers m)) = S (size (non_reserved_connected_peers m)))
      by by apply map_size_insert_None.
    assert (Hn' : peers_ok (λ p, p ∉ reserved) (<[p := PeerInfo_new now]> (non_reserved_connected_peers m)))
      by by apply map_Forall_insert_2; [split; [done | apply new_peer_ok] | done].
    case_decide as E; split; unfold free_slots; cbn; rewrite ?Hsz, ?Hma; try done; revert E; int_unfold; intros; try lia.
    specialize (Hcl ltac:(done)). lia.
Qed.

Lemma disconnected_ok reserved max p m :
  max < int_max u64 → manager_ok reserved max m → manager_ok reserved max (handle_peer_disconnect p m).2.
Proof.
  intros Hmax Hm. pose proof Hm as [(Hc & Hre & Hma) Hs Hn Hr Ho Hcl Hu]. unfold handle_peer_disconnect, is_reserved.
  rewrite Hre, Hma. unfold free_slots in *. rewrite Hma in *.
  destruct (decide (p ∈ reserved)) as [Hp | Hp]; [rewrite (bool_decide_eq_true_2 _ Hp) | rewrite (bool_decide_eq_false_2 _ Hp)]; cbn [negb].
  - case_bool_decide as Ht; [|done]. split; cbn; try done; [by apply map_Forall_delete|]. rewrite last_snoc. done.
  - assert (Hn' : peers_ok (λ p, p ∉ reserved) (delete p (non_reserved_connected_peers m))) by by apply map_Forall_delete.
    pose proof (map_size_delete p (non_reserved_connected_peers m)) as Hsz.
    destruct (non_reserved_connected_peers m !! p) as [peer|] eqn:Ht; cbn in Hsz.
    + assert (Hpos : size (non_reserved_connected_peers m) ≠ 0%nat) by by apply (map_size_ne_0_lookup_2 _ p); rewrite Ht.
      rewrite (bool_decide_eq_true_2 _ (mk_is_Some _ _ eq_refl)). cbn [andb]. case_bool_decide as E;
        split; unfold free_slots; cbn; rewrite ?Hsz, ?Hma; try done; revert E; int_unfold; intros; try lia;
        first [specialize (Hcl ltac:(done)) | specialize (Ho ltac:(done))]; lia.
    + rewrite bool_decide_eq_false_2 by by intros [? ?]. cbn [andb]. split; unfold free_slots; cbn; rewrite ?Hsz, ?Hma; done.
Qed.

Lemma manager_call_ok reserved max c m : max < int_max u64 → manager_ok reserved max m → manager_ok reserved max (manager_call c m).
Proof.
  intros Hmax Hm. destruct c as [now p | p | now p height | p addresses agent | | p report]; cbn [manager_call].
  - by apply connected_ok.
  - by apply disconnected_ok.
  - apply updated_peer_ok; [done|]. intros peer Hp. by apply heartbeat_update_ok.
  - by apply updated_peer_ok; [apply updated_peer_ok|].
  - pose proof (mo_non_reserved _ _ _ Hm) as Hn. apply same_peers_ok; try done; [by rewrite map_size_fmap | | by destruct Hm].
    intros p peer Hp. apply lookup_fmap_Some in Hp as (x & <- & Hx). destruct (Hn _ _ Hx). done.
  - pose proof (mo_non_reserved _ _ _ Hm) as Hn. unfold update_app_score.
    destruct (non_reserved_connected_peers m !! p) as [peer|] eqn:Hp; [|done]. cbn [snd].
    apply same_peers_ok; try done; [by apply map_size_insert_Some; rewrite Hp | | by destruct Hm].
    apply map_Forall_insert_2; [|done]. destruct (Hn _ _ Hp). done.
Qed.
Lemma manager_calls_ok reserved max cs m : max < int_max u64 → manager_ok reserved max m → manager_ok reserved max (manager_calls cs m).
Proof. intros Hmax. revert m. induction cs as [|c cs IH]; intros m Hm; [done|]. apply IH, manager_call_ok; done. Qed.

(** The highest score is a positive finite number. *)
Lemma max_score_bound x : SFleb (f64_min MAX_APP_SCORE x) MAX_APP_SCORE = true.
Proof.
  assert (Hr : SFleb MAX_APP_SCORE MAX_APP_SCORE = true) by (vm_compute; reflexivity).
  assert (Hn : ∃ s m e, MAX_APP_SCORE = S754_finite s m e) by (vm_compute; eauto).
  assert (Hlt : SFltb x MAX_APP_SCORE = true → SFleb x MAX_APP_SCORE = true).
  { unfold SFltb, SFleb. destruct (SFcompare x MAX_APP_SCORE) as [[]|]; done. }
  destruct Hn as (s & m & e & Hn). unfold f64_min. rewrite Hn in *. destruct x; try done; destruct (SFltb _ _); auto.
Qed.

(** C35 the table of peers, after any sequence of calls from the start: it never
    holds more than the configured number of non-reserved peers, a peer is in
    the table that its reservation says, a new non-reserved peer is turned away
    exactly when no slot is free, admission is open only when a slot is free
    (or the configured number is zero) and closed only when at most one is, the
    last number broadcast is that of the connected reserved peers, a score that
    is reported is never above the maximum afterwards, and only peers that are
    not reserved are banned. *)
Theorem peer_table_invariant reserved max cs :
  0 ≤ max < int_max u64 →
  let m := manager_calls cs (PeerManager_new reserved max) in
  manager_ok reserved max m ∧
  (∀ now p, (handle_peer_connected now p m).1 = true ↔
     (p ∉ reserved ∧ non_reserved_connected_peers m !! p = None ∧ free_slots m = 0)) ∧
  (∀ p report, (∀ peer, non_reserved_connected_peers (update_app_score p report m).2 !! p = Some peer → SFleb (score peer) MAX_APP_SCORE = true) ∧
     Forall (λ q, q ∉ reserved) (update_app_score p report m).1) ∧
  (∀ p gossip_score, Forall (λ q, q ∉ reserved) (handle_gossip_score_update p gossip_score m)).
Proof.
  intros Hmax m. assert (Hm : manager_ok reserved max m) by (apply manager_calls_ok, new_manager_ok; lia). split; [done|].
  destruct Hm as [(Hc & Hre & Hma) Hs Hn Hr Ho Hcl Hu]. split; [|split].
  - intros now p. unfold handle_peer_connected, handle_initial_connection, is_reserved, free_slots in *. rewrite Hre, Hma in *.
    repeat case_bool_decide; cbn [negb andb]; repeat case_decide; cbn [fst]; intuition (try done; try lia).
  - intros p report. unfold update_app_score. destruct (non_reserved_connected_peers m !! p) as [peer|] eqn:Hp; cbn [fst snd].
    + rewrite Hc. cbn [max_app_score min_app_score_allowed ScoreConfig_new]. split.
      * intros peer'. cbn. rewrite lookup_insert_eq. intros [= <-]. apply max_score_bound.
      * case_match; [|constructor]. destruct (Hn _ _ Hp). by repeat constructor.
    + split; [|constructor]. by rewrite Hp.
  - intros p gossip_score. unfold handle_gossip_score_update, is_reserved. rewrite Hre. case_bool_decide; rewrite ?andb_false_r; [constructor|].
    case_match; by repeat constructor.
Qed.

(** A call that is not the departure of a non-reserved peer does not open the
    admission. *)
Lemma admission_stays_closed reserved max c m :
  manager_ok reserved max m → available_slot (connection_state m) = false → (∀ q, c = CallDisconnected q → q ∈ reserved) →
  available_slot (connection_state (manager_call c m)) = false.
Proof.
  intros [(Hc & Hre & Hma) _ _ _ _ _ _] Hf Hq. destruct c as [now p | p | now p height | p addresses agent | | p report]; cbn [manager_call].
  - unfold handle_peer_connected, handle_initial_connection. repeat case_match; done.
  - unfold handle_peer_disconnect, is_reserved. rewrite Hre, bool_decide_eq_true_2 by by apply Hq. cbn [negb]. case_match; done.
  - unfold handle_peer_info_updated, update_assigned_peer. case_match; done.
  - unfold handle_peer_identified, update_assigned_peer. repeat case_match; done.
  - done.
  - unfold update_app_score. repeat case_match; done.
Qed.
Lemma admission_stays_closed_calls reserved max cs m :
  max < int_max u64 → manager_ok reserved max m → available_slot (connection_state m) = false →
  Forall (λ c, ∀ q, c = CallDisconnected q → q ∈ reserved) cs → available_slot (connection_state (manager_calls cs m)) = false.
Proof.
  intros Hmax. revert m. induction cs as [|c cs IH]; intros m Hm Hf Hcs; [done|]. apply Forall_cons in Hcs as [Hc Hcs].
  apply IH; [by apply manager_call_ok | by eapply admission_stays_closed | done].
Qed.

(** The slot of a peer that leaves a full table is not opened again: one slot
    is free, and yet no peer that is not reserved is admitted until a second
    non-reserved peer leaves, whatever else happens. *)
Theorem freed_slot_stays_closed reserved max cs p cs' q :
  0 < max < int_max u64 →
  let m := manager_calls cs (PeerManager_new reserved max) in
  free_slots m = 0 → is_Some (non_reserved_connected_peers m !! p) →
  let m' := (handle_peer_disconnect p m).2 in
  Forall (λ c, ∀ q, c = CallDisconnected q → q ∈ reserved) cs' → q ∉ reserved →
  free_slots m' = 1 ∧ allow_peer reserved (Some (connection_state (manager_calls cs' m'))) q = false.
Proof.
  intros Hmax m Hfull Hp m' Hcs Hq. assert (Hm : manager_ok reserved max m) by (apply manager_calls_ok, new_manager_ok; lia).
  assert (Hm' : manager_ok reserved max m') by (apply disconnected_ok; [lia | done]).
  assert (Hclosed : available_slot (connection_state m') = false ∧ free_slots m' = 1).
  { destruct Hm as [(Hc & Hre & Hma) Hs Hn Hr Ho Hcl Hu]. assert (Hp' : p ∉ reserved) by (destruct Hp as [x Hx]; by destruct (Hn _ _ Hx)).
    assert (Hf : available_slot (connection_state m) = false) by (destruct (available_slot _); [destruct Ho; lia | done]).
    unfold m', handle_peer_disconnect, is_reserved. rewrite Hre, (bool_decide_eq_false_2 (p ∈ reserved)) by done. cbn [negb snd].
    unfold free_slots in *. rewrite Hma in *. pose proof (map_size_delete_Some p _ Hp) as Hsz.
    assert (Hpos : size (non_reserved_connected_peers m) ≠ 0%nat) by by apply (map_size_ne_0_lookup_2 _ p).
    rewrite (bool_decide_eq_true_2 _ Hp), bool_decide_eq_false_2 by int_lia. cbn. rewrite Hsz, ?Hma. split; [done | lia]. }
  split; [apply Hclosed|]. unfold allow_peer. rewrite bool_decide_eq_false_2 by done.
  eapply admission_stays_closed_calls; [|apply Hm' |apply Hclosed|done]. lia.
Qed.
End facts.
