(* ===== verification/P2PSwarm.v ===== *)
(** * Reserved nodes, and the behaviours inside the swarm

    [crates/services/p2p/src]: peer_report.rs, limited_behaviour.rs, and the
    parts of behavior.rs and p2p_service.rs that join them to the limits on
    connections and to the peer manager.

    The swarm of libp2p, which is not part of the repository, is the step
    relation [swarm_step]: the order in which it is documented to call a
    behaviour about a connection.  The behaviours that are not modelled
    (discovery, gossip, heartbeat, identification, requests) may dial any peer
    and may deny any connection. *)
From stdpp Require Import gmap strings.
From S2P Require Import Prelude GasPriceEstimate P2P.

(** ** The limited behaviour *)
Record LimitedBehaviour (B : Type) := MkLimitedBehaviour {
  connection_limit : nat;
  inner_behaviour : B;
  limited_connected_peers : gset PeerId;
  known_connections : gset ConnectionId
}.
Arguments MkLimitedBehaviour {B}.
Arguments connection_limit {B}.
Arguments inner_behaviour {B}.
Arguments limited_connected_peers {B}.
Arguments known_connections {B}.
Section limited.
Context {B : Type}.
Definition LimitedBehaviour_new (limit : nat) (b : B) : LimitedBehaviour B := MkLimitedBehaviour limit b ∅ ∅.

(** The handler of an established connection, of either direction; the result
    says whether the connection is shown to the behaviour ([Either::Right]). *)
Definition limited_handle_established (handle : ConnectionId → PeerId → B → result string unit * B) (connections : ConnectionsStatistic)
    (connection_id : ConnectionId) (peer : PeerId) (self : LimitedBehaviour B) : result string bool * LimitedBehaviour B :=
  let total_connections := size (established_per_peer connections) in
  if bool_decide (peer ∈ reserved_peers connections) || bool_decide (peer ∈ limited_connected_peers self)
     || bool_decide (total_connections < connection_limit self)%nat
  then
    let '(r, b) := handle connection_id peer (inner_behaviour self) in
    let self := MkLimitedBehaviour (connection_limit self) b ({[peer]} ∪ limited_connected_peers self) ({[connection_id]} ∪ known_connections self) in
    (match r with Ok _ => Ok true | Err e => Err e end, self)
  else (Ok false, self).

Definition limited_allowed (event : FromSwarm) (self : LimitedBehaviour B) : bool * LimitedBehaviour B :=
  match event with
  | ConnectionEstablished _ _ connection_id | AddressChange connection_id | DialFailure _ connection_id | ListenFailure connection_id =>
      (bool_decide (connection_id ∈ known_connections self), self)
  | ConnectionClosed peer_id connection_id remaining_established =>
      let peers := if decide (remaining_established = 0%nat) then limited_connected_peers self ∖ {[peer_id]} else limited_connected_peers self in
      (bool_decide (connection_id ∈ known_connections self),
       MkLimitedBehaviour (connection_limit self) (inner_behaviour self) peers (known_connections self ∖ {[connection_id]}))
  | OtherSwarmEvent => (true, self)
  end.
Definition limited_on_swarm_event (on_swarm_event : FromSwarm → B → B) (event : FromSwarm) (self : LimitedBehaviour B) : LimitedBehaviour B :=
  let '(allowed, self) := limited_allowed event self in
  if allowed
  then MkLimitedBehaviour (connection_limit self) (on_swarm_event event (inner_behaviour self)) (limited_connected_peers self) (known_connections self)
  else self.
End limited.

(** ** The reserved nodes *)
Section swarm.
Context `{Multiaddrs}.

Definition is_dialable (multiaddr : Multiaddr) : bool :=
  match protocol_stack multiaddr with [] => false | protocol :: _ => negb (bool_decide (protocol = "p2p"%string)) end.

Inductive PeerReportEvent := PeerConnected (peer_id : PeerId) | PeerDisconnected (peer_id : PeerId) | PerformDecay.
Record PeerReport := MkPeerReport {
  reserved_nodes_multiaddr : gmap PeerId (list Multiaddr);
  reserved_nodes_to_connect : list (Z * PeerId);
  connected_reserved_nodes : gset PeerId;
  pending_connections : gset ConnectionId;
  pending_events : list PeerReportEvent
}.
#[local] Instance eta_PeerReport : Eta PeerReport := λ r,
  MkPeerReport (reserved_nodes_multiaddr r) (reserved_nodes_to_connect r) (connected_reserved_nodes r) (pending_connections r) (pending_events r).

(** The loop of [new]; an address without a peer id panics. *)
Fixpoint reserved_nodes_loop (now : Z) (multiaddrs : list Multiaddr) (queue : list (Z * PeerId)) (addresses : gmap PeerId (list Multiaddr)) :
    option (list (Z * PeerId) * gmap PeerId (list Multiaddr)) :=
  match multiaddrs with
  | [] => Some (queue, addresses)
  | multiaddr :: rest =>
      if negb (is_dialable multiaddr) then Some (queue, addresses)
      else
        peer_id ← try_to_peer_id multiaddr;
        reserved_nodes_loop now rest (queue ++ [(now, peer_id)])
          (<[peer_id := unwrap_or [] (addresses !! peer_id) ++ [multiaddr]]> addresses)
  end.
Definition PeerReport_new (now : Z) (reserved_nodes_multiaddrs : list Multiaddr) : option PeerReport :=
  '(queue, addresses) ← reserved_nodes_loop now reserved_nodes_multiaddrs [] ∅;
  Some (MkPeerReport addresses queue ∅ ∅ []).

Definition is_reserved_node (peer_id : PeerId) (self : PeerReport) : bool := bool_decide (is_Some (reserved_nodes_multiaddr self !! peer_id)).
Definition report_on_swarm_event (now : Z) (event : FromSwarm) (self : PeerReport) : PeerReport :=
  match event with
  | ConnectionEstablished peer_id _ connection_id =>
      let self := self <| pending_events := pending_events self ++ [PeerConnected peer_id] |> in
      if is_reserved_node peer_id self then
        let self := self <| connected_reserved_nodes := {[peer_id]} ∪ connected_reserved_nodes self |> in
        self <| pending_connections := pending_connections self ∖ {[connection_id]} |>
      else self
  | ConnectionClosed peer_id _ remaining_established =>
      if decide (remaining_established = 0%nat) then
        let self := self <| pending_events := pending_events self ++ [PeerDisconnected peer_id] |> in
        if is_reserved_node peer_id self then
          let self := self <| connected_reserved_nodes := connected_reserved_nodes self ∖ {[peer_id]} |> in
          self <| reserved_nodes_to_connect := reserved_nodes_to_connect self ++ [(now, peer_id)] |>
        else self
      else self
  | DialFailure (Some peer_id) connection_id =>
      let was_pending := bool_decide (connection_id ∈ pending_connections self) in
      let self := self <| pending_connections := pending_connections self ∖ {[connection_id]} |> in
      if was_pending && negb (bool_decide (peer_id ∈ connected_reserved_nodes self))
      then self <| reserved_nodes_to_connect := reserved_nodes_to_connect self ++ [(now, peer_id)] |>
      else self
  | _ => self
  end.

Definition HEALTH_CHECK_INTERVAL : Z := 10 * 1000000000.
Inductive ReportPoll :=
| GenerateEvent (event : PeerReportEvent)
| Dial (peer_id : PeerId) (addresses : list Multiaddr) (connection_id : ConnectionId)
| Pending.
(** [connection_id] is the id that the options of a dial are given, [ticks] says
    whether the decay interval is ready.  [None] is the panic of [expect]. *)
Definition report_poll (now : Z) (connection_id : ConnectionId) (ticks : bool) (self : PeerReport) : option (ReportPoll * PeerReport) :=
  let decay := if ticks then GenerateEvent PerformDecay else Pending in
  match pending_events self with
  | event :: events => Some (GenerateEvent event, self <| pending_events := events |>)
  | [] =>
      match reserved_nodes_to_connect self with
      | (instant, peer_id) :: queue =>
          if decide (HEALTH_CHECK_INTERVAL < now - instant) then
            multiaddrs ← reserved_nodes_multiaddr self !! peer_id;
            Some (Dial peer_id multiaddrs connection_id,
                  MkPeerReport (reserved_nodes_multiaddr self) queue (connected_reserved_nodes self)
                    ({[connection_id]} ∪ pending_connections self) [])
          else Some (decay, self)
      | [] => Some (decay, self)
      end
  end.

(** ** The behaviour of the node *)
Record FuelBehaviour := MkFuelBehaviour {
  blocked_peer : gset PeerId;
  connection_limits : ConnectionLimits;
  connections : ConnectionsStatistic;
  peer_report : LimitedBehaviour PeerReport
}.
#[local] Instance eta_FuelBehaviour : Eta FuelBehaviour := λ r,
  MkFuelBehaviour (blocked_peer r) (connection_limits r) (connections r) (peer_report r).
Record P2PConfig := MkP2PConfig {
  reserved_nodes : list Multiaddr;
  max_discovery_peers_connected : Z;
  max_functional_peers_connected : Z;
  max_outgoing_connections : Z;
  max_connections_per_peer : option Z
}.
Definition FuelBehaviour_new (now : Z) (config : P2PConfig) : option FuelBehaviour :=
  report ← PeerReport_new now (reserved_nodes config);
  let reserved_peer_ids := dom (reserved_nodes_multiaddr report) in
  let limits :=
    MkConnectionLimits (Some 100) (Some (Z.min (max_outgoing_connections config) 100)) None (Some (max_outgoing_connections config))
      (max_connections_per_peer config) (Some (max_discovery_peers_connected config)) in
  Some (MkFuelBehaviour ∅ limits (ConnectionsStatistic_new reserved_peer_ids)
          (LimitedBehaviour_new (Z.to_nat (max_functional_peers_connected config)) report)).

(** The order of the fields: the list of blocked peers, the limits, the other
    behaviours ([first], [last] say whether one before or after the reports
    denies), the reports. *)
Definition fuel_handle_established (endpoint : Endpoint) (connection_id : ConnectionId) (peer : PeerId) (first last : bool)
    (self : FuelBehaviour) : bool * FuelBehaviour :=
  if bool_decide (peer ∈ blocked_peer self) then (false, self)
  else
    let handle := match endpoint with Listener => handle_established_inbound_connection | Dialer => handle_established_outbound_connection end in
    let '(r, statistic) := handle (connection_limits self) connection_id peer (connections self) in
    let self := self <| connections := statistic |> in
    match r with
    | Err _ => (false, self)
    | Ok _ =>
        if first then (false, self)
        else
          let '(_, report) := limited_handle_established (λ _ _ b, (Ok (), b)) statistic connection_id peer (peer_report self) in
          (negb last, self <| peer_report := report |>)
    end.
Definition fuel_on_swarm_event (now : Z) (event : FromSwarm) (self : FuelBehaviour) : FuelBehaviour :=
  let self := self <| connections := limits_on_swarm_event event (connections self) |> in
  self <| peer_report := limited_on_swarm_event (report_on_swarm_event now) event (peer_report self) |>.
(** The reports have no handler of their own for a connection that is dialled. *)
Definition fuel_handle_pending_outbound (connection_id : ConnectionId) (maybe_peer : option PeerId) (other : bool) (self : FuelBehaviour) :
    bool * FuelBehaviour :=
  if (match maybe_peer with Some p => bool_decide (p ∈ blocked_peer self) | None => false end) then (false, self)
  else
    let '(r, statistic) := handle_pending_outbound_connection (connection_limits self) connection_id (connections self) in
    (is_ok r && negb other, self <| connections := statistic |>).

(** ** The service *)
Inductive FuelP2PEvent := ServicePeerConnected (peer_id : PeerId) | ServicePeerDisconnected (peer_id : PeerId) | PeerInfoUpdated (peer_id : PeerId) (block_height : Z).
(** The second component is the peer that the swarm is told to disconnect. *)
Definition handle_peer_report_event (now : Z) (event : PeerReportEvent) (self : PeerManager) :
    option FuelP2PEvent * option PeerId * PeerManager :=
  match event with
  | PerformDecay => (None, None, batch_update_score_with_decay self)
  | PeerConnected peer_id =>
      let '(disconnect, self) := handle_peer_connected now peer_id self in
      if disconnect then (None, Some peer_id, self) else (Some (ServicePeerConnected peer_id), None, self)
  | PeerDisconnected peer_id =>
      let '(_, self) := handle_peer_disconnect peer_id self in (Some (ServicePeerDisconnected peer_id), None, self)
  end.
Definition handle_heartbeat_event (now : Z) (peer_id : PeerId) (latest_block_height : Z) (self : PeerManager) : option FuelP2PEvent * PeerManager :=
  (Some (PeerInfoUpdated peer_id latest_block_height), handle_peer_info_updated now peer_id latest_block_height self).
Definition MAX_IDENTIFY_ADDRESSES : nat := 10.
Definition handle_identify_event (peer_id : PeerId) (listen_addrs : list Multiaddr) (agent_version : string) (self : PeerManager) : PeerManager :=
  handle_peer_identified peer_id (take MAX_IDENTIFY_ADDRESSES listen_addrs) agent_version self.

Inductive MessageAcceptance := Accept | Reject | Ignore.
(** [reported] and [peer_score] are the answers of gossipsub. *)
Definition behaviour_report_message (reported : MessageAcceptance → result string bool) (peer_score : option f64) (acceptance : MessageAcceptance) : option f64 :=
  let should_check_score := match acceptance with Reject => true | _ => false end in
  match reported acceptance with Ok true => if should_check_score then peer_score else None | _ => None end.
Definition report_message_validation_result (reported : MessageAcceptance → result string bool) (peer_score : option f64)
    (propagation_source : PeerId) (acceptance : MessageAcceptance) (self : PeerManager) : list PeerId :=
  let acceptance := match acceptance with Reject => if is_reserved self propagation_source then Ignore else Reject | a => a end in
  match behaviour_report_message reported peer_score acceptance with
  | Some gossip_score => handle_gossip_score_update propagation_source gossip_score self
  | None => []
  end.

(** ** The swarm *)
(** [used] are the ids of connections that were given out, with the peer of a
    dial; [dialing], [incoming] and [live] are the connections of the swarm. *)
Record Network := MkNetwork {
  behaviour : FuelBehaviour;
  manager : PeerManager;
  used : gmap ConnectionId (option PeerId);
  dialing : gset ConnectionId;
  incoming : gset ConnectionId;
  live : gmap ConnectionId (PeerId * Endpoint)
}.
#[local] Instance eta_Network : Eta Network := λ r,
  MkNetwork (behaviour r) (manager r) (used r) (dialing r) (incoming r) (live r).
Definition Network_new (now : Z) (config : P2PConfig) : option Network :=
  b ← FuelBehaviour_new now config;
  Some (MkNetwork b (PeerManager_new (list_to_set (omap try_to_peer_id (reserved_nodes config))) (max_discovery_peers_connected config)) ∅ ∅ ∅ ∅).

Definition connections_where (P : PeerId * Endpoint → Prop) `{∀ x, Decision (P x)} (l : gmap ConnectionId (PeerId * Endpoint)) : gset ConnectionId :=
  dom (filter (λ x, P x.2) l).
Definition connections_of (p : PeerId) (l : gmap ConnectionId (PeerId * Endpoint)) : gset ConnectionId := connections_where (λ x, x.1 = p) l.
Definition emit (now : Z) (event : FromSwarm) (n : Network) : Network := n <| behaviour := fuel_on_swarm_event now event (behaviour n) |>.

(** A dial, which [condition] (the peer is neither connected nor dialled) lets
    through; [other] says whether another behaviour denies it. *)
Definition start_dial (now : Z) (c : ConnectionId) (p : option PeerId) (condition other : bool) (n : Network) : Network :=
  let n := n <| used := <[c := p]> (used n) |> in
  if negb condition then emit now (DialFailure p c) n
  else
    let '(ok, b) := fuel_handle_pending_outbound c p other (behaviour n) in
    let n := n <| behaviour := b |> in
    if ok then n <| dialing := {[c]} ∪ dialing n |> else emit now (DialFailure p c) n.
Definition start_incoming (now : Z) (c : ConnectionId) (other : bool) (n : Network) : Network :=
  let n := n <| used := <[c := None]> (used n) |> in
  let '(r, statistic) := handle_pending_inbound_connection (connection_limits (behaviour n)) c (connections (behaviour n)) in
  let n := n <| behaviour := (behaviour n) <| connections := statistic |> |> in
  if is_ok r && negb other then n <| incoming := {[c]} ∪ incoming n |> else emit now (ListenFailure c) n.
(** A connection that was authenticated as one to [p] *)
Definition establish (now : Z) (e : Endpoint) (c : ConnectionId) (p : PeerId) (first last : bool) (n : Network) : Network :=
  let n := MkNetwork (behaviour n) (manager n) (used n) (dialing n ∖ {[c]}) (incoming n ∖ {[c]}) (live n) in
  let '(ok, b) := fuel_handle_established e c p first last (behaviour n) in
  let n := n <| behaviour := b |> in
  if ok then emit now (ConnectionEstablished p e c) (n <| live := <[c := (p, e)]> (live n) |>)
  else emit now (match e with Listener => ListenFailure c | Dialer => DialFailure (Some p) c end) n.
Definition fail_connection (now : Z) (c : ConnectionId) (n : Network) : Network :=
  if bool_decide (c ∈ dialing n)
  then emit now (DialFailure (match used n !! c with Some p => p | None => None end) c) (n <| dialing := dialing n ∖ {[c]} |>)
  else emit now (ListenFailure c) (n <| incoming := incoming n ∖ {[c]} |>).
Definition close_connection (now : Z) (c : ConnectionId) (p : PeerId) (n : Network) : Network :=
  let l := delete c (live n) in
  emit now (ConnectionClosed p c (size (connections_of p l))) (n <| live := l |>).

(** A call of the service that is not about a connection; peers may be banned. *)
Inductive ServiceCall :=
| Heartbeat (now : Z) (p : PeerId) (height : Z)
| Identified (p : PeerId) (addresses : list Multiaddr) (agent : string)
| ReportPeer (p : PeerId) (report : f64)
| ReportMessage (reported : MessageAcceptance → result string bool) (peer_score : option f64) (p : PeerId) (acceptance : MessageAcceptance).
Definition service_call (call : ServiceCall) (n : Network) : Network :=
  let '(banned, m) :=
    match call with
    | Heartbeat now p height => ([], (handle_heartbeat_event now p height (manager n)).2)
    | Identified p addresses agent => ([], handle_identify_event p addresses agent (manager n))
    | ReportPeer p report => update_app_score p report (manager n)
    | ReportMessage reported peer_score p acceptance =>
        (report_message_validation_result reported peer_score p acceptance (manager n), manager n)
    end in
  n <| behaviour := (behaviour n) <| blocked_peer := list_to_set banned ∪ blocked_peer (behaviour n) |> |> <| manager := m |>.

Definition poll_reports (now : Z) (c : ConnectionId) (ticks condition other : bool) (n : Network) : option Network :=
  let b := behaviour n in
  '(poll, report) ← report_poll now c ticks (inner_behaviour (peer_report b));
  let limited := MkLimitedBehaviour (connection_limit (peer_report b)) report (limited_connected_peers (peer_report b)) (known_connections (peer_report b)) in
  let n := n <| behaviour := b <| peer_report := limited |> |> in
  Some match poll with
       | GenerateEvent event => n <| manager := (handle_peer_report_event now event (manager n)).2 |>
       | Dial p _ c => start_dial now c (Some p) condition other n
       | Pending => n
       end.

Inductive SwarmInput :=
| Accepted (now : Z) (c : ConnectionId) (other : bool)
| OtherDial (now : Z) (c : ConnectionId) (p : option PeerId) (condition other : bool)
| PollReports (now : Z) (c : ConnectionId) (ticks condition other : bool)
| Upgraded (now : Z) (c : ConnectionId) (p : PeerId) (first last : bool)
| Failed (now : Z) (c : ConnectionId)
| Closed (now : Z) (c : ConnectionId)
| Called (call : ServiceCall).
(** [None] is an input that the swarm cannot give: an id that is not fresh, a
    connection it does not have, another peer than the one that was dialled. *)
Definition swarm_step (i : SwarmInput) (n : Network) : option Network :=
  match i with
  | Accepted now c other => if decide (used n !! c = None) then Some (start_incoming now c other n) else None
  | OtherDial now c p condition other => if decide (used n !! c = None) then Some (start_dial now c p condition other n) else None
  | PollReports now c ticks condition other => if decide (used n !! c = None) then poll_reports now c ticks condition other n else None
  | Upgraded now c p first last =>
      if decide (c ∈ incoming n) then Some (establish now Listener c p first last n)
      else if decide (c ∈ dialing n ∧ (used n !! c = Some None ∨ used n !! c = Some (Some p))) then Some (establish now Dialer c p first last n)
      else None
  | Failed now c => if decide (c ∈ dialing n ∪ incoming n) then Some (fail_connection now c n) else None
  | Closed now c => match live n !! c with Some (p, _) => Some (close_connection now c p n) | None => None end
  | Called call => Some (service_call call n)
  end.
Definition swarm_run (inputs : list SwarmInput) (n : Network) : option Network := foldl (λ n i, n ← n; swarm_step i n) (Some n) inputs.
Inductive swarm_reach (now0 : Z) (config : P2PConfig) : Network → Prop :=
| swarm_start n : Network_new now0 config = Some n → swarm_reach now0 config n
| swarm_next n i n' : swarm_reach now0 config n → swarm_step i n = Some n' → swarm_reach now0 config n'.
End swarm.
