(* ===== verification/P2PSwarmFacts.v ===== *)
(** * Facts about the connections of the swarm *)
From stdpp Require Import gmap strings.
From S2P Require Import Prelude P2P P2PSwarm.

(** ** Sets of connections *)
Section connection_sets.
Context (P : PeerId * Endpoint → Prop) `{∀ x, Decision (P x)}.
Implicit Types l : gmap ConnectionId (PeerId * Endpoint).

Lemma elem_of_connections_where c l : c ∈ connections_where P l ↔ ∃ x, l !! c = Some x ∧ P x.
Proof. unfold connections_where. rewrite elem_of_dom. unfold is_Some. by setoid_rewrite map_lookup_filter_Some. Qed.
Lemma connections_where_insert c x l : l !! c = None →
  connections_where P (<[c := x]> l) = if decide (P x) then {[c]} ∪ connections_where P l else connections_where P l.
Proof.
  intros Hl. apply set_eq. intros d. rewrite elem_of_connections_where.
  assert (Hd : d ∈ (if decide (P x) then {[c]} ∪ connections_where P l else connections_where P l) ↔
    (d = c ∧ P x) ∨ d ∈ connections_where P l) by (case_decide; set_solver).
  rewrite Hd, elem_of_connections_where. setoid_rewrite lookup_insert_Some. naive_solver.
Qed.
Lemma connections_where_delete c l : connections_where P (delete c l) = connections_where P l ∖ {[c]}.
Proof.
  apply set_eq. intros d. rewrite elem_of_difference, !elem_of_connections_where, elem_of_singleton. setoid_rewrite lookup_delete_Some. naive_solver.
Qed.
Lemma connections_where_fresh c l : l !! c = None → c ∉ connections_where P l.
Proof. rewrite elem_of_connections_where. intros E (x & Ex & _). congruence. Qed.
Lemma connections_where_empty : connections_where P ∅ = ∅.
Proof. unfold connections_where. by rewrite map_filter_empty, dom_empty_L. Qed.
End connection_sets.

Definition limit_of (o : option Z) : Z := unwrap_or (int_max u32) o.
Definition limit_fits (o : option Z) : Prop := in_range u32 (limit_of o).
Lemma check_limit_ok o n k : limit_fits o → check_limit o n k = Ok () → Z.of_nat (S n) ≤ limit_of o.
Proof.
  unfold check_limit, limit_fits, limit_of. case_decide as E; [done|]. intros Hf _. revert E Hf. generalize (unwrap_or (int_max u32) o). int_unfold. lia.
Qed.
Record limits_fit (limits : ConnectionLimits) : Prop := {
  lf_pending_incoming : limit_fits (max_pending_incoming limits);
  lf_pending_outgoing : limit_fits (max_pending_outgoing limits);
  lf_incoming : limit_fits (max_established_incoming limits);
  lf_outgoing : limit_fits (max_established_outgoing limits);
  lf_per_peer : limit_fits (max_established_per_peer limits);
  lf_total : limit_fits (max_established_total limits)
}.

(** ** The limits on connections *)
Section statistic.
Abbreviation Live := (gmap ConnectionId (PeerId * Endpoint)).
Definition non_reserved_connections (reserved : gset PeerId) (l : Live) : gset ConnectionId := connections_where (λ x, x.1 ∉ reserved) l.
Definition non_reserved_of (reserved : gset PeerId) (e : Endpoint) (l : Live) : gset ConnectionId :=
  connections_where (λ x, x.1 ∉ reserved ∧ x.2 = e) l.

Definition size_within (s : gset ConnectionId) (o : option Z) : Prop := Z.of_nat (size s) ≤ limit_of o.
Lemma empty_within o : limit_fits o → size_within ∅ o.
Proof. unfold limit_fits, size_within. rewrite size_empty. int_lia. Qed.
Lemma subset_within s t o : t ⊆ s → size_within s o → size_within t o.
Proof. unfold size_within. intros Hs. apply subseteq_size in Hs. lia. Qed.
Lemma union_within c s t o k : limit_fits o → check_limit o (size t) k = Ok () → s ⊆ t → size_within ({[c]} ∪ s) o.
Proof.
  intros Hf Hc Hs. unfold size_within. apply (check_limit_ok _ _ _ Hf) in Hc. apply subseteq_size in Hs.
  rewrite size_union_alt, size_singleton. assert (Hd : s ∖ {[c]} ⊆ s) by set_solver. apply subseteq_size in Hd. lia.
Qed.

(** The statistic is a function of the connections of the swarm, and within the
    limits of the peers that are not reserved. *)
Record statistic_ok (limits : ConnectionLimits) (s : ConnectionsStatistic) (l : Live) (dialing incoming : gset ConnectionId) : Prop := {
  so_inbound : established_inbound_connections s = connections_where (λ x, x.2 = Listener) l;
  so_outbound : established_outbound_connections s = connections_where (λ x, x.2 = Dialer) l;
  so_per_peer p : established_per_peer s !! p =
    if decide (p ∈ reserved_peers s ∨ connections_of p l = ∅) then None else Some (connections_of p l);
  so_pending_inbound : pending_inbound_connections s ⊆ incoming;
  so_pending_outbound : pending_outbound_connections s ⊆ dialing;
  so_limit_pending_inbound : size_within (pending_inbound_connections s) (max_pending_incoming limits);
  so_limit_pending_outbound : size_within (pending_outbound_connections s) (max_pending_outgoing limits);
  so_limit_peer p : p ∉ reserved_peers s → size_within (connections_of p l) (max_established_per_peer limits);
  so_limit_total : size_within (non_reserved_connections (reserved_peers s) l) (max_established_total limits);
  so_limit_inbound : size_within (non_reserved_of (reserved_peers s) Listener l) (max_established_incoming limits);
  so_limit_outbound : size_within (non_reserved_of (reserved_peers s) Dialer l) (max_established_outgoing limits)
}.

Lemma new_statistic_ok limits reserved : limits_fit limits → statistic_ok limits (ConnectionsStatistic_new reserved) ∅ ∅ ∅.
Proof.
  intros []. split; cbn; unfold connections_of, non_reserved_connections, non_reserved_of; intros; rewrite ?connections_where_empty; auto using empty_within.
  rewrite decide_True by auto. by rewrite lookup_empty.
Qed.

(** What is pending changes, what is established does not. *)
Lemma pending_changed limits s l dialing incoming pi po dialing' incoming' :
  statistic_ok limits s l dialing incoming → pi ⊆ incoming' → po ⊆ dialing' →
  size_within pi (max_pending_incoming limits) → size_within po (max_pending_outgoing limits) →
  statistic_ok limits (MkConnectionsStatistic pi po (established_inbound_connections s) (established_outbound_connections s)
                         (established_per_peer s) (reserved_peers s)) l dialing' incoming'.
Proof. intros [] ????. split; auto. Qed.

Lemma difference_of (c : Z) (s t : gset Z) : s ⊆ t → s ∖ {[c]} ⊆ t.
Proof. set_solver. Qed.
Lemma union_difference_of (c : Z) (s t : gset Z) : s ⊆ t → ({[c]} ∪ s) ∖ {[c]} ⊆ t.
Proof. set_solver. Qed.
Lemma union_of (c : Z) (s t : gset Z) : s ⊆ t → {[c]} ∪ s ⊆ {[c]} ∪ t.
Proof. set_solver. Qed.
Hint Resolve difference_of union_difference_of union_of : core.

Lemma incoming_started limits c s l dialing incoming :
  limits_fit limits → statistic_ok limits s l dialing incoming →
  let '(r, s') := handle_pending_inbound_connection limits c s in
  reserved_peers s' = reserved_peers s ∧
  (is_ok r = true → statistic_ok limits s' l dialing ({[c]} ∪ incoming)) ∧
  statistic_ok limits (limits_on_swarm_event (ListenFailure c) s') l dialing incoming.
Proof.
  intros Hf Hs. pose proof Hs as [_ _ _ Hi Ho Hil Hol _ _ _ _]. unfold handle_pending_inbound_connection.
  destruct (check_limit _ _ _) as [[]|] eqn:E; cbn [limits_on_swarm_event is_ok]; (split; [done|]); (split; [intros Hok; try discriminate Hok|]);
    apply (pending_changed _ s _ dialing incoming); cbn; auto;
    first [eapply union_within; [apply Hf | exact E | done] | eapply subset_within; [|exact Hil]; by first [apply union_difference_of | apply difference_of]].
Qed.
Lemma dial_started limits c s l dialing incoming p :
  limits_fit limits → statistic_ok limits s l dialing incoming →
  let '(r, s') := handle_pending_outbound_connection limits c s in
  reserved_peers s' = reserved_peers s ∧
  (is_ok r = true → statistic_ok limits s' l ({[c]} ∪ dialing) incoming) ∧
  statistic_ok limits (limits_on_swarm_event (DialFailure p c) s') l dialing incoming.
Proof.
  intros Hf Hs. pose proof Hs as [_ _ _ Hi Ho Hil Hol _ _ _ _]. unfold handle_pending_outbound_connection.
  destruct (check_limit _ _ _) as [[]|] eqn:E; cbn [limits_on_swarm_event is_ok]; (split; [done|]); (split; [intros Hok; try discriminate Hok|]);
    apply (pending_changed _ s _ dialing incoming); cbn; auto;
    first [eapply union_within; [apply Hf | exact E | done] | eapply subset_within; [|exact Hol]; by first [apply union_difference_of | apply difference_of]].
Qed.
(** A connection that fails, or that is denied after its handler *)
Lemma pending_failed limits s l dialing incoming dialing' incoming' event :
  statistic_ok limits s l dialing incoming →
  match event with
  | ListenFailure c => incoming ∖ {[c]} ⊆ incoming' ∧ dialing ⊆ dialing'
  | DialFailure _ c => dialing ∖ {[c]} ⊆ dialing' ∧ incoming ⊆ incoming'
  | _ => False
  end →
  statistic_ok limits (limits_on_swarm_event event s) l dialing' incoming'.
Proof.
  intros Hs. pose proof Hs as [_ _ _ Hi Ho Hil Hol _ _ _ _]. destruct event as [| | |p c|c|]; intros He; try done; destruct He as [He1 He2];
    cbn [limits_on_swarm_event]; apply (pending_changed _ s _ dialing incoming); auto;
    first [by etrans | eapply subset_within; [|eassumption]; by apply difference_of | idtac].
  all: clear -Hi Ho He1; set_solver.
Qed.

Definition handle_established (e : Endpoint) :=
  match e with Listener => handle_established_inbound_connection | Dialer => handle_established_outbound_connection end.
Lemma handled_statistic limits e c p s l dialing incoming :
  statistic_ok limits s l dialing incoming → match e with Listener => c ∉ dialing | Dialer => c ∉ incoming end →
  let s' := (handle_established e limits c p s).2 in
  statistic_ok limits s' l (dialing ∖ {[c]}) (incoming ∖ {[c]}) ∧ established_per_peer s' = established_per_peer s ∧
  established_inbound_connections s' = established_inbound_connections s ∧
  established_outbound_connections s' = established_outbound_connections s ∧ reserved_peers s' = reserved_peers s.
Proof.
  intros Hs Hc. pose proof Hs as [_ _ _ Hi Ho Hil Hol _ _ _ _].
  destruct e; cbn [handle_established]; unfold handle_established_inbound_connection, handle_established_outbound_connection;
    case_bool_decide; cbn [snd]; (split; [|done]); apply (pending_changed _ s _ dialing incoming); auto;
    try (eapply subset_within; [|eassumption]; by apply difference_of); clear -Hi Ho Hc; set_solver.
Qed.

Lemma per_peer_lookup limits s l dialing incoming p :
  statistic_ok limits s l dialing incoming → p ∉ reserved_peers s →
  unwrap_or ∅ (established_per_peer s !! p) = connections_of p l ∧
  (match established_per_peer s !! p with Some connections => size connections | None => 0 end)%nat = size (connections_of p l).
Proof.
  intros Hs Hp. rewrite (so_per_peer _ _ _ _ _ Hs). case_decide as E; cbn; [|done]. destruct E as [? | ->]; [done|]. by rewrite size_empty.
Qed.
Lemma established_size limits s l dialing incoming :
  statistic_ok limits s l dialing incoming →
  (size (established_inbound_connections s) + size (established_outbound_connections s))%nat = size (dom l).
Proof.
  intros [-> -> _ _ _ _ _ _ _ _ _]. rewrite <- size_union.
  - f_equal. apply set_eq. intros c. rewrite elem_of_union, !elem_of_connections_where, elem_of_dom. unfold is_Some.
    split; [naive_solver|]. intros [[p e] Hx]. destruct e; eauto.
  - intros c. rewrite !elem_of_connections_where. intros ([? ?] & ? & ?) ([? ?] & ? & ?). naive_solver.
Qed.
Lemma where_dom P `{∀ x, Decision (P x)} (l : Live) : connections_where P l ⊆ dom l.
Proof. intros c. rewrite elem_of_connections_where, elem_of_dom. intros (x & -> & _). by eexists. Qed.

(** What the checks of the handler mean, for a peer that is not reserved *)
Lemma handled_checks limits e c p s l dialing incoming :
  limits_fit limits → statistic_ok limits s l dialing incoming → (handle_established e limits c p s).1 = Ok () → p ∉ reserved_peers s →
  size_within ({[c]} ∪ connections_of p l) (max_established_per_peer limits) ∧
  size_within ({[c]} ∪ non_reserved_connections (reserved_peers s) l) (max_established_total limits) ∧
  size_within ({[c]} ∪ non_reserved_of (reserved_peers s) e l) (match e with Listener => max_established_incoming limits | Dialer => max_established_outgoing limits end).
Proof.
  intros Hf Hs Hr Hp. destruct (per_peer_lookup _ _ _ _ _ _ Hs Hp) as [_ Hpp].
  assert (Hr' : (_ ← match e with
                     | Listener => check_limit (max_established_incoming limits) (size (established_inbound_connections s)) EstablishedIncoming
                     | Dialer => check_limit (max_established_outgoing limits) (size (established_outbound_connections s)) EstablishedOutgoing
                     end; check_peer_and_total limits p s) = Ok ()).
  { destruct e; cbn [handle_established] in Hr; unfold handle_established_inbound_connection, handle_established_outbound_connection in Hr;
      cbn in Hr; rewrite bool_decide_eq_false_2 in Hr by done; exact Hr. }
  clear Hr. unfold check_peer_and_total in Hr'. rewrite Hpp, (established_size _ _ _ _ _ Hs) in Hr'.
  destruct (match e with Listener => _ | Dialer => _ end) as [[]|] eqn:E1 in Hr'; cbn in Hr'; [|done].
  destruct (check_limit (max_established_per_peer limits) _ _) as [[]|] eqn:E2; cbn in Hr'; [|done].
  split; [by eapply union_within; [apply Hf | exact E2|]|]. split; [by eapply union_within; [apply Hf | exact Hr' | apply where_dom]|].
  destruct Hs as [Hi Ho _ _ _ _ _ _ _ _ _]. rewrite ?Hi, ?Ho in E1.
  destruct e; (eapply union_within; [apply Hf | exact E1|]); intros d; unfold non_reserved_of; rewrite !elem_of_connections_where; naive_solver.
Qed.

Lemma established_event limits e c p s l dialing incoming :
  statistic_ok limits s l dialing incoming → l !! c = None →
  (p ∉ reserved_peers s →
   size_within ({[c]} ∪ connections_of p l) (max_established_per_peer limits) ∧
   size_within ({[c]} ∪ non_reserved_connections (reserved_peers s) l) (max_established_total limits) ∧
   size_within ({[c]} ∪ non_reserved_of (reserved_peers s) e l) (match e with Listener => max_established_incoming limits | Dialer => max_established_outgoing limits end)) →
  statistic_ok limits (limits_on_swarm_event (ConnectionEstablished p e c) s) (<[c := (p, e)]> l) dialing incoming.
Proof.
  intros Hs Hl Hw. pose proof Hs as [Hi Ho Hp Hpi Hpo Hil Hol Hlp Hlt Hli Hlo].
  assert (Hpp : p ∉ reserved_peers s → unwrap_or ∅ (established_per_peer s !! p) = connections_of p l)
    by (intros; by eapply per_peer_lookup).
  assert (Hr : reserved_peers (limits_on_swarm_event (ConnectionEstablished p e c) s) = reserved_peers s)
    by (cbn; destruct e; case_bool_decide; done).
  split; rewrite ?Hr; unfold connections_of, non_reserved_connections, non_reserved_of in *;
    intros; rewrite ?(connections_where_insert _ _ _ _ Hl); cbn [fst snd].
  - destruct e; cbn; case_bool_decide; cbn; rewrite Hi; done.
  - destruct e; cbn; case_bool_decide; cbn; rewrite Ho; done.
  - rename p0 into q. destruct (decide (p = q)) as [<- | Hq].
    + assert (Hne : {[c]} ∪ connections_where (λ x, x.1 = p) l ≠ ∅) by set_solver.
      destruct (decide (p ∈ reserved_peers s)) as [Hres | Hres].
      * rewrite (decide_True (P := _ ∨ _)) by auto. rewrite <- (decide_True (P := p ∈ reserved_peers s ∨ connections_where (λ x, x.1 = p) l = ∅)
          None (Some (connections_where (λ x, x.1 = p) l))) by auto. destruct e; cbn; case_bool_decide; cbn; try done; apply Hp.
      * destruct (decide (p = p)); [|done]. rewrite decide_False by by intros [?|?].
        destruct e; cbn; rewrite bool_decide_eq_false_2 by done; cbn; rewrite lookup_insert_eq, Hpp; done.
    + destruct e; cbn; case_bool_decide as Hres; cbn; rewrite ?lookup_insert_ne by done; apply Hp.
  - destruct e; cbn; case_bool_decide; done.
  - destruct e; cbn; case_bool_decide; done.
  - destruct e; cbn; case_bool_decide; done.
  - destruct e; cbn; case_bool_decide; done.
  - case_decide as E; [subst; by apply Hw | by apply Hlp].
  - case_decide; [by apply Hw | done].
  - case_decide as E; [destruct E as [E ->]; by apply Hw | done].
  - case_decide as E; [destruct E as [E ->]; by apply Hw | done].
Qed.

Lemma lookup_forget_ne p q c n (per_peer : gmap PeerId (gset ConnectionId)) :
  p ≠ q → forget_peer_connection p c n per_peer !! q = per_peer !! q.
Proof. intros Hq. unfold forget_peer_connection. repeat case_match; rewrite ?lookup_delete_ne, ?lookup_insert_ne by done; done. Qed.
Lemma closed_event limits c p e s l dialing incoming :
  statistic_ok limits s l dialing incoming → l !! c = Some (p, e) →
  statistic_ok limits (limits_on_swarm_event (ConnectionClosed p c (size (connections_of p (delete c l)))) s) (delete c l) dialing incoming.
Proof.
  intros Hs Hl. pose proof Hs as [Hi Ho Hp Hpi Hpo Hil Hol Hlp Hlt Hli Hlo].
  set (n := size (connections_of p (delete c l))).
  assert (Hr : reserved_peers (limits_on_swarm_event (ConnectionClosed p c n) s) = reserved_peers s) by (cbn; case_bool_decide; done).
  assert (Hn : n = 0%nat ↔ connections_of p l ∖ {[c]} = ∅).
  { unfold n, connections_of. rewrite connections_where_delete, size_empty_iff. split; [apply leibniz_equiv | by intros ->]. }
  split; rewrite ?Hr; unfold connections_of, non_reserved_connections, non_reserved_of in *; intros;
    rewrite ?connections_where_delete.
  - cbn; case_bool_decide; cbn; rewrite Hi; done.
  - cbn; case_bool_decide; cbn; rewrite Ho; done.
  - rename p0 into q. cbn. destruct (decide (p = q)) as [<- | Hq].
    + case_bool_decide as Hres; cbn; [rewrite Hp, !decide_True by auto; done|]. unfold forget_peer_connection. rewrite Hp.
      assert (Hne : connections_where (λ x, x.1 = p) l ≠ ∅).
      { apply (non_empty_inhabited_L c), elem_of_connections_where. by exists (p, e). }
      rewrite decide_False by by intros [?|?]. destruct (decide (connections_where (λ x, x.1 = p) l ∖ {[c]} = ∅)) as [E|E].
      * rewrite !decide_True by auto. by rewrite lookup_delete_eq.
      * rewrite !decide_False by (rewrite ?Hn; by intros [?|?]). by rewrite lookup_insert_eq.
    + assert (Hd : connections_where (λ x, x.1 = q) l ∖ {[c]} = connections_where (λ x, x.1 = q) l).
      { apply set_eq. intros d. rewrite elem_of_difference, elem_of_connections_where, elem_of_singleton. naive_solver. }
      rewrite Hd. case_bool_decide; cbn; [apply Hp|]. by rewrite lookup_forget_ne.
  - cbn; case_bool_decide; done.
  - cbn; case_bool_decide; done.
  - cbn; case_bool_decide; done.
  - cbn; case_bool_decide; done.
  - eapply subset_within; [|by apply Hlp]. by apply difference_of.
  - eapply subset_within; [|done]. by apply difference_of.
  - eapply subset_within; [|done]. by apply difference_of.
  - eapply subset_within; [|done]. by apply difference_of.
Qed.
End statistic.

(** ** The steps of the swarm *)
(** A connection that the swarm has is in one state, and its id was given out. *)
Definition ids_disjoint (used live dialing incoming : gset ConnectionId) : Prop :=
  live ∪ dialing ∪ incoming ⊆ used ∧ live ## dialing ∧ live ## incoming ∧ dialing ## incoming.
Section ids.
Implicit Types U L D I : gset Z.
Lemma ids_dial c U L D I : c ∉ U → ids_disjoint U L D I → ids_disjoint ({[c]} ∪ U) L ({[c]} ∪ D) I.
Proof. unfold ids_disjoint. set_solver. Qed.
Lemma ids_accept c U L D I : c ∉ U → ids_disjoint U L D I → ids_disjoint ({[c]} ∪ U) L D ({[c]} ∪ I).
Proof. unfold ids_disjoint. set_solver. Qed.
Lemma ids_used c U L D I : ids_disjoint U L D I → ids_disjoint ({[c]} ∪ U) L D I.
Proof. unfold ids_disjoint. set_solver. Qed.
Lemma ids_shrink U L D I L' D' I' : L' ⊆ L → D' ⊆ D → I' ⊆ I → ids_disjoint U L D I → ids_disjoint U L' D' I'.
Proof. unfold ids_disjoint. set_solver. Qed.
Lemma ids_establish c U L D I : c ∈ D ∪ I → ids_disjoint U L D I → ids_disjoint U ({[c]} ∪ L) (D ∖ {[c]}) (I ∖ {[c]}).
Proof. unfold ids_disjoint. set_solver. Qed.
Lemma ids_of_pending c U L D I : c ∈ D ∪ I → ids_disjoint U L D I → c ∉ L ∧ (c ∈ D → c ∉ I) ∧ (c ∈ I → c ∉ D).
Proof. unfold ids_disjoint. set_solver. Qed.
End ids.

Section network.
Context `{Multiaddrs}.

Definition statistic_of (n : Network) : ConnectionsStatistic := connections (behaviour n).
Definition reserved_of (n : Network) : gset PeerId := reserved_peers (statistic_of n).
Definition ids_ok (n : Network) : Prop := ids_disjoint (dom (used n)) (dom (live n)) (dialing n) (incoming n).
Definition net_statistic_ok (n : Network) : Prop :=
  limits_fit (connection_limits (behaviour n)) ∧
  statistic_ok (connection_limits (behaviour n)) (statistic_of n) (live n) (dialing n) (incoming n).

Lemma limits_event_reserved event s : reserved_peers (limits_on_swarm_event event s) = reserved_peers s.
Proof. destruct event; cbn; repeat case_match; done. Qed.

Lemma start_dial_ids now c p condition other n : used n !! c = None → ids_ok n → ids_ok (start_dial now c p condition other n).
Proof.
  intros Hc%not_elem_of_dom Hn. unfold ids_ok, start_dial in *. destruct condition; cbn [negb]; [destruct (fuel_handle_pending_outbound _ _ _ _) as [[] b]|];
    cbn [emit used live dialing incoming]; rewrite dom_insert_L; auto using ids_dial, ids_used.
Qed.
Lemma start_incoming_ids now c other n : used n !! c = None → ids_ok n → ids_ok (start_incoming now c other n).
Proof.
  intros Hc%not_elem_of_dom Hn. unfold ids_ok, start_incoming in *. destruct (handle_pending_inbound_connection _ _ _) as [r s]. case_match;
    cbn [emit used live dialing incoming]; rewrite dom_insert_L; auto using ids_accept, ids_used.
Qed.
Lemma establish_ids now e c p first last n : c ∈ dialing n ∪ incoming n → ids_ok n → ids_ok (establish now e c p first last n).
Proof.
  intros Hc Hn. unfold ids_ok, establish in *. cbn [behaviour]. destruct (fuel_handle_established _ _ _ _ _ _) as [[] b];
    cbn [emit used live dialing incoming]; rewrite ?dom_insert_L; [by apply ids_establish|].
  eapply ids_shrink; [..|done]; [done | by apply difference_of..].
Qed.
Lemma polled_id now c ticks r p addresses c' r' : report_poll now c ticks r = Some (Dial p addresses c', r') → c' = c.
Proof.
  unfold report_poll. destruct (pending_events r); [|done]. destruct (reserved_nodes_to_connect r) as [|[instant q] queue]; [by destruct ticks|].
  case_decide; [|by destruct ticks]. destruct (reserved_nodes_multiaddr r !! q); cbn; [|done]. congruence.
Qed.
Lemma step_ids i n n' : swarm_step i n = Some n' → ids_ok n → ids_ok n'.
Proof.
  intros Hs Hn. destruct i as [now c other | now c p condition other | now c ticks condition other | now c p first last | now c | now c | call];
    cbn [swarm_step] in Hs.
  - case_decide; [|done]. injection Hs as <-. by apply start_incoming_ids.
  - case_decide; [|done]. injection Hs as <-. by apply start_dial_ids.
  - case_decide; [|done]. unfold poll_reports in Hs. destruct (report_poll _ _ _ _) as [[poll report]|] eqn:E; [|done]. cbn in Hs. injection Hs as <-.
    destruct poll as [event | p addresses c' |]; [exact Hn | | exact Hn]. apply polled_id in E as ->. by apply start_dial_ids.
  - case_decide; [|case_decide; [|done]]; injection Hs as <-; apply establish_ids; rewrite ?elem_of_union; tauto.
  - case_decide; [|done]. injection Hs as <-. unfold fail_connection, ids_ok in *. case_bool_decide; cbn [emit used live dialing incoming];
      (eapply ids_shrink; [..|done]); try done; by apply difference_of.
  - destruct (live n !! c) as [[p e]|] eqn:E; [|done]. injection Hs as <-. unfold close_connection, ids_ok in *. cbn [emit used live dialing incoming].
    rewrite dom_delete_L. eapply ids_shrink; [..|done]; [by apply difference_of | done..].
  - injection Hs as <-. unfold service_call. case_match. exact Hn.
Qed.

Lemma emitted_statistic now event n : statistic_of (emit now event n) = limits_on_swarm_event event (statistic_of n).
Proof. reflexivity. Qed.
Lemma start_dial_statistic now c p condition other n : net_statistic_ok n → net_statistic_ok (start_dial now c p condition other n).
Proof.
  intros [Hf Hs]. unfold start_dial, net_statistic_ok, statistic_of in *. destruct condition; cbn [negb].
  - unfold fuel_handle_pending_outbound. cbn [behaviour]. destruct (match p with Some p0 => _ | None => false end).
    + split; [done|]. apply (pending_failed _ _ _ _ _ _ _ (DialFailure p c) Hs). split; [by apply difference_of | done].
    + pose proof (dial_started _ c _ _ _ _ p Hf Hs) as Hd. destruct (handle_pending_outbound_connection _ _ _) as [r s]. destruct Hd as (_ & Hok & Hfail).
      destruct (is_ok r) eqn:Er, other; cbn [andb negb]; (split; [exact Hf|]); first [exact Hfail | exact (Hok eq_refl)].
  - split; [done|]. apply (pending_failed _ _ _ _ _ _ _ (DialFailure p c) Hs). split; [by apply difference_of | done].
Qed.
Lemma start_incoming_statistic now c other n : net_statistic_ok n → net_statistic_ok (start_incoming now c other n).
Proof.
  intros [Hf Hs]. unfold start_incoming, net_statistic_ok, statistic_of in *. cbn [behaviour].
  pose proof (incoming_started _ c _ _ _ _ Hf Hs) as Hd. destruct (handle_pending_inbound_connection _ _ _) as [r s]. destruct Hd as (_ & Hok & Hfail).
  destruct (is_ok r) eqn:Er, other; cbn [andb negb]; (split; [exact Hf|]); first [exact Hfail | exact (Hok eq_refl)].
Qed.

(** The behaviour after its handlers were asked about a connection *)
Lemma fuel_handled e c p first last b b' ok :
  fuel_handle_established e c p first last b = (ok, b') →
  connection_limits b' = connection_limits b ∧
  ((ok = false ∧ connections b' = connections b ∧ peer_report b' = peer_report b) ∨
   (ok = false ∧ connections b' = (handle_established e (connection_limits b) c p (connections b)).2 ∧ peer_report b' = peer_report b) ∨
   ((handle_established e (connection_limits b) c p (connections b)).1 = Ok () ∧
    connections b' = (handle_established e (connection_limits b) c p (connections b)).2 ∧
    peer_report b' = (limited_handle_established (λ _ _ b, (Ok (), b)) (connections b') c p (peer_report b)).2)).
Proof.
  unfold fuel_handle_established, handle_established. case_bool_decide as Hb; [intros [= <- <-]; auto|].
  destruct (match e with Listener => _ | Dialer => _ end _ _ _ _) as [r s]. destruct r as [[]|]; [|intros [= <- <-]; auto 10].
  destruct first; [intros [= <- <-]; auto 10|].
  destruct (limited_handle_established _ _ _ _ _) as [r report] eqn:El. cbn in El. intros [= <- <-]. cbn. rewrite El. auto 10.
Qed.

Lemma establish_statistic now e c p first last n :
  match e with Listener => c ∈ incoming n | Dialer => c ∈ dialing n end → ids_ok n →
  net_statistic_ok n → net_statistic_ok (establish now e c p first last n).
Proof.
  intros Hc Hids [Hf Hs]. assert (Hpend : c ∈ dialing n ∪ incoming n) by (apply elem_of_union; destruct e; auto).
  destruct (ids_of_pending c _ _ _ _ Hpend Hids) as (Hl & Hd & Hi). apply not_elem_of_dom in Hl.
  assert (Hother : match e with Listener => c ∉ dialing n | Dialer => c ∉ incoming n end) by (destruct e; auto).
  destruct (handled_statistic _ e c p _ _ _ _ Hs Hother) as (Hs' & Hpp & Hin & Hout & Hres).
  unfold establish, net_statistic_ok, statistic_of in *. cbn [behaviour].
  destruct (fuel_handle_established _ _ _ _ _ _) as [ok b] eqn:E. apply fuel_handled in E as (El & E).
  assert (Hfail : statistic_ok (connection_limits (behaviour n))
    (limits_on_swarm_event (match e with Listener => ListenFailure c | Dialer => DialFailure (Some p) c end) (connections b))
    (live n) (dialing n ∖ {[c]}) (incoming n ∖ {[c]})).
  { destruct E as [(_ & -> & _) | [(_ & -> & _) | (_ & -> & _)]]; (eapply pending_failed; [first [exact Hs | exact Hs']|]);
      clear -Hother; destruct e; set_solver. }
  destruct ok; cbn [emit behaviour live dialing incoming connections connection_limits fuel_on_swarm_event]; rewrite El; (split; [done|]); [|exact Hfail].
  destruct E as [(? & _) | [(? & _) | (Hok & -> & _)]]; [done..|]. apply established_event; [done..|]. rewrite Hres. intros Hp.
  apply (handled_checks _ _ _ _ _ _ _ _ Hf Hs Hok Hp).
Qed.
Lemma step_statistic i n n' : swarm_step i n = Some n' → ids_ok n → net_statistic_ok n → net_statistic_ok n'.
Proof.
  intros Hstep Hids Hn. destruct i as [now c other | now c p condition other | now c ticks condition other | now c p first last | now c | now c | call];
    cbn [swarm_step] in Hstep.
  - case_decide; [|done]. injection Hstep as <-. by apply start_incoming_statistic.
  - case_decide; [|done]. injection Hstep as <-. by apply start_dial_statistic.
  - case_decide; [|done]. unfold poll_reports in Hstep. destruct (report_poll _ _ _ _) as [[poll report]|]; [|done]. cbn in Hstep. injection Hstep as <-.
    destruct poll; [exact Hn | by apply start_dial_statistic | exact Hn].
  - case_decide; [|case_decide; [|done]]; injection Hstep as <-; apply establish_statistic; tauto.
  - case_decide as Hc; [|done]. injection Hstep as <-. destruct Hn as [Hf Hs]. unfold fail_connection. case_bool_decide; (split; [exact Hf|]);
      (eapply pending_failed; [exact Hs|]); cbn; auto.
  - destruct (live n !! c) as [[p e]|] eqn:E; [|done]. injection Hstep as <-. destruct Hn as [Hf Hs]. split; [exact Hf|]. by eapply closed_event.
  - injection Hstep as <-. unfold service_call. case_match. exact Hn.
Qed.
End network.
