(* ===== verification/P2PReserved.v ===== *)
(** * Facts about the reserved nodes

    The invariant that joins the reports, the connections of the swarm and the
    table of the peer manager, and what the node promises of its reserved
    nodes: they are in the table exactly while they are connected, and they are
    never forgotten unless a dial to them failed. *)
From stdpp Require Import gmap strings.
From S2P Require Import Prelude P2P P2PSwarm P2PSwarmFacts.

#[local] Arguments limited_on_swarm_event : simpl never.

Section reserved.
Context `{Multiaddrs}.
Abbreviation Live := (gmap ConnectionId (PeerId * Endpoint)).

Definition connected (l : Live) (p : PeerId) : Prop := connections_of p l ≠ ∅.
(** What the events that are waiting will make of the entry of a peer *)
Definition replay (p : PeerId) (events : list PeerReportEvent) (present : bool) : bool :=
  foldl (λ b event,
    match event with
    | PeerConnected q => if decide (q = p) then true else b
    | PeerDisconnected q => if decide (q = p) then false else b
    | PerformDecay => b
    end) present events.
Arguments replay : simpl never.
Definition in_table (m : PeerManager) (p : PeerId) : bool := bool_decide (is_Some (reserved_connected_peers m !! p)).

Record report_ok (r : gset PeerId) (rep : PeerReport) (known : gset ConnectionId) (m : PeerManager)
    (used : gmap ConnectionId (option PeerId)) (dialing incoming : gset ConnectionId) (l : Live) : Prop := {
  ro_reserved : dom (reserved_nodes_multiaddr rep) = r;
  ro_known : known ⊆ dom used ∧ known ## dialing ∧ known ## incoming;
  ro_incoming c : c ∈ incoming → used !! c = Some None;
  ro_live c p e : l !! c = Some (p, e) → p ∈ r → c ∈ known;
  ro_connected p : p ∈ connected_reserved_nodes rep ↔ (p ∈ r ∧ connected l p);
  ro_queue p : p ∈ (reserved_nodes_to_connect rep).*2 → p ∈ r;
  ro_pending c : c ∈ pending_connections rep → ∃ p, used !! c = Some (Some p) ∧ p ∈ r;
  ro_tracked p : p ∈ r → connected l p ∨ p ∈ (reserved_nodes_to_connect rep).*2 ∨
    ∃ c, c ∈ pending_connections rep ∧ used !! c = Some (Some p);
  ro_manager : r ⊆ manager_reserved_peers m;
  ro_events p : p ∈ r → replay p (pending_events rep) (in_table m p) = bool_decide (connected l p)
}.
Definition net_report_ok (n : Network) : Prop :=
  report_ok (reserved_of n) (inner_behaviour (peer_report (behaviour n))) (known_connections (peer_report (behaviour n)))
    (manager n) (used n) (dialing n) (incoming n) (live n).

Lemma replay_snoc p events event b : replay p (events ++ [event]) b = replay p [event] (replay p events b).
Proof. unfold replay. by rewrite foldl_app. Qed.
Lemma replay_cons p events event b : replay p (event :: events) b = replay p events (replay p [event] b).
Proof. reflexivity. Qed.

(** *** The wrapper *)
Lemma unknown_failure_ignored {B} (f : FromSwarm → B → B) event (b : LimitedBehaviour B) :
  match event with DialFailure _ c | ListenFailure c => c ∉ known_connections b | _ => False end → limited_on_swarm_event f event b = b.
Proof. intros Hc. unfold limited_on_swarm_event, limited_allowed. destruct event; try done; by rewrite bool_decide_eq_false_2. Qed.

(** *** A new connection *)
Lemma started_report r rep known m used dialing incoming l c p dialing' incoming' :
  report_ok r rep known m used dialing incoming l → used !! c = None →
  dialing' ⊆ {[c]} ∪ dialing → (∀ d, d ∈ incoming' → d ∈ incoming ∨ (d = c ∧ p = None)) →
  report_ok r rep known m (<[c := p]> used) dialing' incoming' l.
Proof.
  intros [Hr (Hk1 & Hk2 & Hk3) Hi Hl Hc Hq Hp Ht Hm He] Hu Hd Hinc.
  assert (Hck : c ∉ known) by (intros ?; by apply Hk1, elem_of_dom in H0; rewrite Hu in H0; destruct H0).
  assert (Hkeep : ∀ d x, used !! d = Some x → <[c := p]> used !! d = Some x).
  { intros d x Hx. rewrite lookup_insert_ne; [done|]. congruence. }
  split; try done.
  - split; [rewrite dom_insert_L; set_solver|]. split; [set_solver|]. intros d Hdk Hdi. destruct (Hinc _ Hdi) as [? | [-> _]]; [|done]. by apply (Hk3 d).
  - intros d Hdi. destruct (Hinc _ Hdi) as [? | [-> ->]]; [auto|]. by rewrite lookup_insert_eq.
  - intros d Hdp. destruct (Hp d Hdp) as (q & ? & ?). eauto.
  - intros q Hqr. destruct (Ht q Hqr) as [? | [? | (d & ? & ?)]]; eauto 6.
Qed.
(** A dial of the reports: the entry of the queue becomes a pending connection. *)
Lemma dialled_report r rep known m used dialing incoming l c instant p queue dialing' :
  report_ok r rep known m used dialing incoming l → used !! c = None → reserved_nodes_to_connect rep = (instant, p) :: queue →
  dialing' ⊆ {[c]} ∪ dialing → pending_events rep = [] →
  report_ok r (MkPeerReport (reserved_nodes_multiaddr rep) queue (connected_reserved_nodes rep) ({[c]} ∪ pending_connections rep) [])
    known m (<[c := Some p]> used) dialing' incoming l.
Proof.
  intros Hrep Hu Hqueue Hd Hev. pose proof (started_report _ _ _ _ _ _ _ _ c (Some p) dialing' incoming Hrep Hu Hd ltac:(auto)) as Hs.
  destruct Hs as [Hr Hk Hi Hl Hc Hq Hp Ht Hm He]. rewrite Hqueue in Hq, Ht. rewrite Hev in He. cbn in Hq, Ht.
  split; cbn; try done.
  - intros q Hqq. apply Hq. by right.
  - intros d. rewrite elem_of_union, elem_of_singleton. intros [-> | Hdp]; [|by apply Hp]. exists p. rewrite lookup_insert_eq. split; [done|]. apply Hq. by left.
  - intros q Hqr. destruct (Ht q Hqr) as [? | [Hqq | (d & ? & ?)]]; [by auto| |right; right; exists d; split; [set_solver | done]].
    apply elem_of_cons in Hqq as [-> | ?]; [|by auto]. right; right. exists c. split; [set_solver|]. by rewrite lookup_insert_eq.
Qed.

(** *** A connection is established, or denied after its handler *)
Lemma connected_insert c p e l q : l !! c = None → connected (<[c := (p, e)]> l) q ↔ (p = q ∨ connected l q).
Proof.
  intros Hl. unfold connected, connections_of. rewrite connections_where_insert by done. cbn [fst]. case_decide; [|tauto].
  split; [auto|]. intros _. clear. set_solver.
Qed.
Lemma known_more (c : Z) (known D I U : gset Z) : c ∈ U → known ⊆ U ∧ known ## D ∧ known ## I →
  {[c]} ∪ known ⊆ U ∧ {[c]} ∪ known ## D ∖ {[c]} ∧ {[c]} ∪ known ## I ∖ {[c]}.
Proof. set_solver. Qed.
Lemma shrunk_report r rep known m used dialing incoming l dialing' incoming' :
  report_ok r rep known m used dialing incoming l → dialing' ⊆ dialing → incoming' ⊆ incoming → report_ok r rep known m used dialing' incoming' l.
Proof.
  intros [Hr (Hk1 & Hk2 & Hk3) Hi Hl Hc Hq Hp Ht Hm He] Hd Hn. split; try done; [|intros d Hx; by apply Hi, Hn].
  split; [done|]. split; [intros d Hx Hy; exact (Hk2 d Hx (Hd _ Hy)) | intros d Hx Hy; exact (Hk3 d Hx (Hn _ Hy))].
Qed.
Lemma known_report r rep known m used dialing incoming l c :
  report_ok r rep known m used dialing incoming l → is_Some (used !! c) →
  report_ok r rep ({[c]} ∪ known) m used (dialing ∖ {[c]}) (incoming ∖ {[c]}) l.
Proof.
  intros [Hr Hk Hi Hl Hc Hq Hp Ht Hm He] Hu. split; try done; [by apply known_more; [apply elem_of_dom|]|..].
  - intros d [Hd _]%elem_of_difference. by apply Hi.
  - intros d p e Hd Hpr. apply elem_of_union. right. by eapply Hl.
Qed.
Lemma unseen_report r rep known m used dialing incoming l c p e :
  report_ok r rep known m used dialing incoming l → l !! c = None → p ∉ r →
  report_ok r rep known m used dialing incoming (<[c := (p, e)]> l).
Proof.
  intros [Hr Hk Hi Hl Hc Hq Hp Ht Hm He] Hcl Hpr.
  assert (Hcon : ∀ q, q ∈ r → connected (<[c := (p, e)]> l) q ↔ connected l q).
  { intros q Hqr. rewrite connected_insert by done. split; [intros [-> | ?]; done | auto]. }
  split; try done.
  - intros d q e' Hd Hqr. apply lookup_insert_Some in Hd as [[_ [= -> ->]] | [_ Hd]]; [done | by eapply Hl].
  - intros q. rewrite Hc. split; intros [Hqr ?]; split; try done; by apply Hcon.
  - intros q Hqr. rewrite Hcon by done. by apply Ht.
  - intros q Hqr. rewrite He by done. apply bool_decide_ext. by rewrite Hcon.
Qed.
Lemma established_report now r rep known m used dialing incoming l c p e :
  report_ok r rep known m used dialing incoming l → l !! c = None → c ∈ known → (used !! c = Some None ∨ used !! c = Some (Some p)) →
  report_ok r (report_on_swarm_event now (ConnectionEstablished p e c) rep) known m used dialing incoming (<[c := (p, e)]> l).
Proof.
  intros [Hr Hk Hi Hl Hc Hq Hp Ht Hm He] Hcl Hck Hu.
  assert (Hev : ∀ q, q ∈ r → replay q (pending_events rep ++ [PeerConnected p]) (in_table m q) = bool_decide (connected (<[c := (p, e)]> l) q)).
  { intros q Hqr. rewrite replay_snoc, He by done. unfold replay; cbn [foldl]. case_decide as E.
    - symmetry. apply bool_decide_eq_true_2, connected_insert; auto.
    - apply bool_decide_ext. rewrite connected_insert by done. tauto. }
  assert (Hlv : ∀ d q e', <[c := (p, e)]> l !! d = Some (q, e') → q ∈ r → d ∈ known).
  { intros d q e' Hd Hqr. apply lookup_insert_Some in Hd as [[<- _] | [_ Hd]]; [done | by eapply Hl]. }
  cbn [report_on_swarm_event]. unfold is_reserved_node. cbn [reserved_nodes_multiaddr]. case_bool_decide as Hpr.
  - apply elem_of_dom in Hpr. rewrite Hr in Hpr. split; cbn; try done.
    + intros q. rewrite elem_of_union, elem_of_singleton, Hc, connected_insert by done. split; [intros [->|[? ?]]; auto | intros [? [->|?]]; auto].
    + intros d [Hd _]%elem_of_difference. by apply Hp.
    + intros q Hqr. destruct (Ht q Hqr) as [? | [? | (d & Hd & Hdu)]]; [rewrite connected_insert by done; by auto | by auto |].
      destruct (decide (d = c)) as [-> | Hne]; [left; rewrite connected_insert by done; left; destruct Hu; congruence|].
      right; right. exists d. split; [apply elem_of_difference; rewrite elem_of_singleton|]; done.
  - assert (Hpr' : p ∉ r) by (rewrite <- Hr; by intros ?%elem_of_dom).
    destruct (unseen_report r rep known m used dialing incoming l c p e) as [? ? ? ? Hc' ? ? Ht' ? ?]; [by split | done | done|]. split; cbn; try done.
Qed.
Lemma denied_dial_report now r rep known m used dialing incoming l c p :
  report_ok r rep known m used dialing incoming l → (used !! c = Some None ∨ used !! c = Some (Some p)) →
  report_ok r (report_on_swarm_event now (DialFailure (Some p) c) rep) known m used dialing incoming l.
Proof.
  intros [Hr Hk Hi Hl Hc Hq Hp Ht Hm He] Hu. cbn [report_on_swarm_event]. cbn [connected_reserved_nodes].
  assert (Hpend : ∀ d, d ∈ pending_connections rep ∖ {[c]} → ∃ q, used !! d = Some (Some q) ∧ q ∈ r) by (intros d [Hd _]%elem_of_difference; by apply Hp).
  assert (Hpr : c ∈ pending_connections rep → p ∈ r) by (intros (q & ? & ?)%Hp; destruct Hu; congruence).
  assert (Htr : ∀ q, q ∈ r → q ≠ p ∨ c ∉ pending_connections rep → connected l q ∨ q ∈ (reserved_nodes_to_connect rep).*2 ∨
    ∃ d, d ∈ pending_connections rep ∖ {[c]} ∧ used !! d = Some (Some q)).
  { intros q Hqr Hne. destruct (Ht q Hqr) as [? | [? | (d & Hd & Hdu)]]; [by auto..|]. right; right. exists d.
    rewrite elem_of_difference, elem_of_singleton. split; [split; [done|] | done]. intros ->. destruct Hne; [destruct Hu; congruence | done]. }
  case_bool_decide as Hcp; cbn [andb]; [case_bool_decide as Hcon; cbn [negb]|]; split; cbn; try done.
  - intros q Hqr. destruct (decide (q = p)) as [-> | ?]; [left; by apply Hc | by apply Htr; auto].
  - intros q. rewrite fmap_app, elem_of_app. cbn. rewrite list_elem_of_singleton. intros [? | ->]; auto.
  - intros q Hqr. rewrite fmap_app, elem_of_app. cbn. rewrite list_elem_of_singleton. destruct (decide (q = p)) as [-> | Hne]; [by auto|].
    destruct (Htr q Hqr (or_introl Hne)) as [? | [? | ?]]; auto.
  - intros q Hqr. apply Htr; auto.
Qed.

(** *** A connection is closed *)
Lemma connected_delete_ne c p e l q : l !! c = Some (p, e) → q ≠ p → connected (delete c l) q ↔ connected l q.
Proof.
  intros Hl Hq. unfold connected, connections_of. rewrite connections_where_delete.
  assert (Hd : connections_where (λ x, x.1 = q) l ∖ {[c]} = connections_where (λ x, x.1 = q) l); [|by rewrite Hd].
  apply set_eq. intros d. rewrite elem_of_difference, elem_of_connections_where, elem_of_singleton. naive_solver.
Qed.
Lemma connected_delete_eq c p l : connected (delete c l) p ↔ size (connections_of p (delete c l)) ≠ 0%nat.
Proof. unfold connected. rewrite size_non_empty_iff. by unfold_leibniz. Qed.
Lemma connected_self c p e l : l !! c = Some (p, e) → connected l p.
Proof. intros Hl. apply (non_empty_inhabited_L c), elem_of_connections_where. by exists (p, e). Qed.
Lemma forgotten_id r rep known m used dialing incoming l c :
  report_ok r rep known m used dialing incoming l →
  (known ∖ {[c]} ⊆ dom used ∧ known ∖ {[c]} ## dialing ∧ known ∖ {[c]} ## incoming) ∧
  (∀ d q e, delete c l !! d = Some (q, e) → q ∈ r → d ∈ known ∖ {[c]}).
Proof.
  intros [_ (Hk1 & Hk2 & Hk3) _ Hl _ _ _ _ _ _]. split; [clear -Hk1 Hk2 Hk3; set_solver|].
  intros d q e [Hne Hd]%lookup_delete_Some Hq. rewrite elem_of_difference, elem_of_singleton. split; [by eapply Hl | done].
Qed.
Lemma unseen_closed_report r rep known m used dialing incoming l c p e :
  report_ok r rep known m used dialing incoming l → l !! c = Some (p, e) → p ∉ r →
  report_ok r rep (known ∖ {[c]}) m used dialing incoming (delete c l).
Proof.
  intros Hrep Hcl Hpr. destruct (forgotten_id _ _ _ _ _ _ _ _ c Hrep) as [Hk' Hl']. destruct Hrep as [Hr Hk Hi Hl Hc Hq Hp Ht Hm He].
  assert (Hcon : ∀ q, q ∈ r → connected (delete c l) q ↔ connected l q) by (intros q ?; eapply connected_delete_ne; [done | congruence]).
  split; try done.
  - intros q. rewrite Hc. split; intros [Hqr ?]; split; try done; by apply Hcon.
  - intros q Hqr. rewrite Hcon by done. by apply Ht.
  - intros q Hqr. rewrite He by done. apply bool_decide_ext. by rewrite Hcon.
Qed.
Lemma closed_report now r rep known m used dialing incoming l c p e :
  report_ok r rep known m used dialing incoming l → l !! c = Some (p, e) →
  report_ok r (report_on_swarm_event now (ConnectionClosed p c (size (connections_of p (delete c l)))) rep) (known ∖ {[c]}) m used dialing incoming
    (delete c l).
Proof.
  intros Hrep Hcl. cbn [report_on_swarm_event]. unfold is_reserved_node. cbn [reserved_nodes_multiaddr].
  destruct (decide (p ∈ r)) as [Hpr | Hpr].
  2: { pose proof (unseen_closed_report _ _ _ _ _ _ _ _ _ _ _ Hrep Hcl Hpr) as [Hr Hk Hi Hl Hc Hq Hp Ht Hm He].
       case_decide; [|by split]. rewrite bool_decide_eq_false_2 by (rewrite <- elem_of_dom, Hr; done). split; cbn; try done.
       intros q Hqr. rewrite replay_snoc, He by done. unfold replay; cbn [foldl]. rewrite decide_False by congruence. done. }
  destruct (forgotten_id _ _ _ _ _ _ _ _ c Hrep) as [Hk' Hl']. destruct Hrep as [Hr Hk Hi Hl Hc Hq Hp Ht Hm He].
  assert (Hself := connected_self _ _ _ _ Hcl). pose proof (connected_delete_eq c p l) as Heq.
  case_decide as Hn.
  - rewrite bool_decide_eq_true_2 by (rewrite <- elem_of_dom, Hr; done).
    assert (Hcon : ∀ q, connected (delete c l) q ↔ (q ≠ p ∧ connected l q)).
    { intros q. destruct (decide (q = p)) as [-> | Hne]; [tauto|]. rewrite (connected_delete_ne _ _ _ _ _ Hcl Hne). tauto. }
    split; cbn; try done.
    + intros q. rewrite elem_of_difference, elem_of_singleton, Hc, Hcon. tauto.
    + intros q. rewrite fmap_app, elem_of_app. cbn. rewrite list_elem_of_singleton. intros [? | ->]; auto.
    + intros q Hqr. rewrite fmap_app, elem_of_app, Hcon. cbn. rewrite list_elem_of_singleton. destruct (Ht q Hqr); destruct (decide (q = p)); tauto.
    + intros q Hqr. rewrite replay_snoc, He by done. unfold replay; cbn [foldl]. case_decide as E; [symmetry; apply bool_decide_eq_false_2; rewrite Hcon; intros []; congruence|].
      apply bool_decide_ext. rewrite Hcon. split; [split; [congruence | done] | tauto].
  - assert (Hcon : ∀ q, connected (delete c l) q ↔ connected l q).
    { intros q. destruct (decide (q = p)) as [-> | Hne]; [tauto|]. by apply (connected_delete_ne _ _ _ _ _ Hcl). }
    split; try done.
    + intros q. rewrite Hcon. apply Hc.
    + intros q. rewrite Hcon. apply Ht.
    + intros q Hqr. rewrite He by done. apply bool_decide_ext. by rewrite Hcon.
Qed.

(** *** The manager follows the events *)
Lemma manager_event now event m :
  (handle_peer_report_event now event m).2 =
  match event with
  | PeerConnected p => (handle_peer_connected now p m).2
  | PeerDisconnected p => (handle_peer_disconnect p m).2
  | PerformDecay => batch_update_score_with_decay m
  end.
Proof. destruct event as [p | p |]; cbn [handle_peer_report_event]; [destruct (handle_peer_connected _ _ _) as [[] ?] | destruct (handle_peer_disconnect _ _)|]; done. Qed.
Lemma manager_event_reserved now event m : manager_reserved_peers (handle_peer_report_event now event m).2 = manager_reserved_peers m.
Proof.
  rewrite manager_event. destruct event; [| |done].
  - unfold handle_peer_connected, handle_initial_connection. repeat case_match; done.
  - unfold handle_peer_disconnect. repeat case_match; done.
Qed.
Lemma manager_event_table now event m p : p ∈ manager_reserved_peers m → in_table (handle_peer_report_event now event m).2 p = replay p [event] (in_table m p).
Proof.
  intros Hp. rewrite manager_event. unfold replay. destruct event as [q | q |]; cbn [foldl]; [| |done].
  - unfold handle_peer_connected, handle_initial_connection, is_reserved.
    destruct (decide (q = p)) as [-> | E]; [rewrite bool_decide_eq_true_2 by done; cbn [negb andb]|].
    + case_bool_decide as Ht; cbn [snd]; [unfold in_table; cbn; by rewrite lookup_insert_eq|].
      unfold in_table. apply bool_decide_eq_true_2. by apply not_eq_None_Some.
    + case_bool_decide; cbn [negb andb]; case_bool_decide; try case_decide; try case_decide; try done. unfold in_table. cbn. by rewrite lookup_insert_ne.
  - unfold handle_peer_disconnect, is_reserved. destruct (decide (q = p)) as [-> | E]; [rewrite bool_decide_eq_true_2 by done; cbn [negb andb]|].
    + case_bool_decide as Ht; cbn [snd]; [unfold in_table; cbn; by rewrite lookup_delete_eq|]. unfold in_table. by apply bool_decide_eq_false_2.
    + case_bool_decide; cbn [negb andb]; repeat case_bool_decide; cbn; try done. unfold in_table. cbn. by rewrite lookup_delete_ne.
Qed.

(** *** The steps *)
Lemma pending_unknown n c : net_report_ok n → c ∈ dialing n ∪ incoming n → c ∉ known_connections (peer_report (behaviour n)).
Proof. intros [_ (_ & Hk2 & Hk3) _ _ _ _ _ _ _ _] Hc Hk. apply elem_of_union in Hc as [?|?]; [by apply (Hk2 c) | by apply (Hk3 c)]. Qed.
Lemma pending_not_live n c : ids_ok n → c ∈ dialing n ∪ incoming n → live n !! c = None.
Proof. intros Hids Hc. destruct (ids_of_pending c _ _ _ _ Hc Hids) as (Hl & _ & _). by apply not_elem_of_dom. Qed.
Lemma started_fields now c p condition other n :
  c ∉ known_connections (peer_report (behaviour n)) →
  let n' := start_dial now c p condition other n in
  peer_report (behaviour n') = peer_report (behaviour n) ∧ manager n' = manager n ∧ used n' = <[c := p]> (used n) ∧ incoming n' = incoming n ∧
  live n' = live n ∧ dialing n' ⊆ {[c]} ∪ dialing n ∧ reserved_of n' = reserved_of n.
Proof.
  intros Hc. assert (Hsub : dialing n ⊆ {[c]} ∪ dialing n) by (clear; set_solver). unfold start_dial. destruct condition; cbn [negb].
  - unfold fuel_handle_pending_outbound, handle_pending_outbound_connection. cbn [behaviour].
    destruct (match p with Some p0 => _ | None => false end); [|destruct (check_limit _ _ _) as [[]|], other]; cbn;
      rewrite ?unknown_failure_ignored by done; by split_and!.
  - cbn. rewrite unknown_failure_ignored by done. by split_and!.
Qed.
Lemma unused_unknown n c : net_report_ok n → used n !! c = None → c ∉ known_connections (peer_report (behaviour n)).
Proof. intros [_ (Hk & _) _ _ _ _ _ _ _ _] Hu Hc. apply Hk, elem_of_dom in Hc as [? ?]. congruence. Qed.
Lemma start_dial_report now c p condition other n : used n !! c = None → net_report_ok n → net_report_ok (start_dial now c p condition other n).
Proof.
  intros Hu Hn. destruct (started_fields now c p condition other n (unused_unknown _ _ Hn Hu)) as (E1 & E2 & E3 & E4 & E5 & E6 & E7).
  unfold net_report_ok. rewrite E1, E2, E3, E4, E5, E7. eapply started_report; [exact Hn | done | done | auto].
Qed.
Lemma start_incoming_report now c other n : used n !! c = None → net_report_ok n → net_report_ok (start_incoming now c other n).
Proof.
  intros Hu Hn. pose proof (unused_unknown _ _ Hn Hu) as Hc. assert (Hsub : dialing n ⊆ {[c]} ∪ dialing n) by (clear; set_solver).
  unfold start_incoming, handle_pending_inbound_connection, net_report_ok.
  destruct (check_limit _ _ _) as [[]|], other; cbn; rewrite ?unknown_failure_ignored by done; (eapply started_report; [exact Hn | done | done |]); auto.
  intros d. rewrite elem_of_union, elem_of_singleton. tauto.
Qed.
Lemma poll_report now c ticks condition other n n' :
  used n !! c = None → poll_reports now c ticks condition other n = Some n' → net_report_ok n → net_report_ok n'.
Proof.
  intros Hu Hp Hn. pose proof (unused_unknown _ _ Hn Hu) as Hck. unfold poll_reports, report_poll in Hp.
  destruct (pending_events (inner_behaviour (peer_report (behaviour n)))) as [|event events] eqn:Eev.
  - destruct (reserved_nodes_to_connect (inner_behaviour (peer_report (behaviour n)))) as [|[instant p] queue] eqn:Eq;
      [destruct ticks; injection Hp as <-; by destruct Hn; split|].
    case_decide; [|destruct ticks; injection Hp as <-; by destruct Hn; split].
    destruct (reserved_nodes_multiaddr _ !! p) as [addresses|]; [|done]. cbn [mbind option_bind] in Hp. injection Hp as <-.
    match goal with |- net_report_ok (start_dial _ _ _ _ _ ?m) => set (n1 := m) end.
    destruct (started_fields now c (Some p) condition other n1 Hck) as (E1 & E2 & E3 & E4 & E5 & E6 & E7).
    unfold net_report_ok. rewrite E1, E2, E3, E4, E5, E7. by eapply dialled_report.
  - injection Hp as <-. destruct Hn as [Hr Hk Hi Hl Hc Hq Hp Ht Hm He]. split; cbn; try done; [by rewrite manager_event_reserved|].
    intros p Hpr. rewrite manager_event_table by by apply Hm. rewrite <- replay_cons. rewrite <- Eev. by apply He.
Qed.

(** The wrapper after its handler: it knows the connection, or it hides it. *)
Definition wrapper_handled (b b' : LimitedBehaviour PeerReport) (c : ConnectionId) (hidden : Prop) : Prop :=
  inner_behaviour b' = inner_behaviour b ∧
  (known_connections b' = {[c]} ∪ known_connections b ∨ (known_connections b' = known_connections b ∧ hidden)).
Lemma limited_handled b c p (s : ConnectionsStatistic) :
  wrapper_handled b (limited_handle_established (λ _ _ b, (Ok (), b)) s c p b).2 c (p ∉ reserved_peers s).
Proof. unfold wrapper_handled, limited_handle_established. case_bool_decide; cbn [orb snd]; [by auto|]. case_match; cbn; auto. Qed.
Lemma handle_established_reserved e limits c p s : reserved_peers (handle_established e limits c p s).2 = reserved_peers s.
Proof. destruct e; cbn; unfold handle_established_inbound_connection, handle_established_outbound_connection; case_bool_decide; done. Qed.

Section handled.
Context (now : Z) (r : gset PeerId) (b b' : LimitedBehaviour PeerReport) (m : PeerManager) (used : gmap ConnectionId (option PeerId)).
Context (dialing incoming : gset ConnectionId) (l : Live) (c : ConnectionId) (p : PeerId).
Hypothesis Hb : report_ok r (inner_behaviour b) (known_connections b) m used dialing incoming l.
Hypothesis Hc : c ∉ known_connections b.
Hypothesis Hu : used !! c = Some None ∨ used !! c = Some (Some p).

Lemma handled_report hidden : wrapper_handled b b' c hidden →
  report_ok r (inner_behaviour b') (known_connections b') m used (dialing ∖ {[c]}) (incoming ∖ {[c]}) l.
Proof using Hb Hc Hu.
  intros [Hi [Hk | [Hk _]]]; rewrite Hi, Hk; [by apply known_report; [|destruct Hu as [-> | ->]]|].
  by eapply shrunk_report; [exact Hb | apply difference_of..].
Qed.
Lemma denied_wrapper hidden e : wrapper_handled b b' c hidden →
  let b'' := limited_on_swarm_event (report_on_swarm_event now) (match e with Listener => ListenFailure c | Dialer => DialFailure (Some p) c end) b' in
  report_ok r (inner_behaviour b'') (known_connections b'') m used (dialing ∖ {[c]}) (incoming ∖ {[c]}) l.
Proof using Hb Hc Hu.
  intros Hw. pose proof (handled_report _ Hw) as Hrep. unfold limited_on_swarm_event, limited_allowed.
  destruct e; case_bool_decide; try exact Hrep. by apply denied_dial_report.
Qed.
Lemma established_wrapper e : wrapper_handled b b' c (p ∉ r) → l !! c = None →
  let b'' := limited_on_swarm_event (report_on_swarm_event now) (ConnectionEstablished p e c) b' in
  report_ok r (inner_behaviour b'') (known_connections b'') m used (dialing ∖ {[c]}) (incoming ∖ {[c]}) (<[c := (p, e)]> l).
Proof using Hb Hc Hu.
  intros Hw Hl. pose proof (handled_report _ Hw) as Hrep. unfold limited_on_swarm_event, limited_allowed.
  case_bool_decide as Hk; [by apply established_report|]. apply unseen_report; [done..|]. destruct Hw as [_ [Hk' | [_ ?]]]; [|done].
  rewrite Hk' in Hk. clear -Hk. set_solver.
Qed.
End handled.

Lemma emitted_reserved now event n : reserved_of (emit now event n) = reserved_of n.
Proof. apply limits_event_reserved. Qed.
Lemma establish_report now e c p first last n :
  match e with Listener => c ∈ incoming n | Dialer => c ∈ dialing n ∧ (used n !! c = Some None ∨ used n !! c = Some (Some p)) end →
  ids_ok n → net_report_ok n → net_report_ok (establish now e c p first last n).
Proof.
  intros Hc Hids Hn. assert (Hpend : c ∈ dialing n ∪ incoming n) by (apply elem_of_union; destruct e; tauto).
  pose proof (pending_not_live _ _ Hids Hpend) as Hl. pose proof (pending_unknown _ _ Hn Hpend) as Hck.
  assert (Hu : used n !! c = Some None ∨ used n !! c = Some (Some p)) by (destruct e; [left; by eapply ro_incoming | tauto]).
  unfold establish, net_report_ok. cbn [behaviour]. destruct (fuel_handle_established _ _ _ _ _ _) as [ok b] eqn:E. apply fuel_handled in E as [_ E].
  assert (Hres : reserved_peers (connections b) = reserved_of n)
    by (destruct E as [(_ & -> & _) | [(_ & -> & _) | (_ & -> & _)]]; rewrite ?handle_established_reserved; done).
  assert (Hw : wrapper_handled (peer_report (behaviour n)) (peer_report b) c (ok = false ∨ p ∉ reserved_of n)).
  { destruct E as [(-> & _ & ->) | [(-> & _ & ->) | (_ & _ & ->)]]; [split; by auto..|].
    destruct (limited_handled (peer_report (behaviour n)) c p (connections b)) as [? [? | [? ?]]]; split; try rewrite Hres in *; auto. }
  destruct ok; rewrite emitted_reserved; unfold net_report_ok, reserved_of, statistic_of in *;
    cbn [emit behaviour manager used dialing incoming live fuel_on_swarm_event peer_report connections]; rewrite Hres.
  - eapply established_wrapper; [exact Hn | done | done | | done]. destruct Hw as [? [? | [? [?|?]]]]; split; by auto.
  - by eapply denied_wrapper.
Qed.

Definition same_reserved (m m' : PeerManager) : Prop := manager_reserved_peers m' = manager_reserved_peers m ∧ ∀ p, in_table m' p = in_table m p.
Lemma same_reserved_trans m1 m2 m3 : same_reserved m1 m2 → same_reserved m2 m3 → same_reserved m1 m3.
Proof. intros [E1 E2] [E3 E4]. split; [congruence|]. intros p. by rewrite E4. Qed.
Lemma updated_same_reserved p f m : same_reserved m (update_assigned_peer p f m).
Proof. unfold update_assigned_peer. case_match; split; try done. intros q. apply bool_decide_ext. cbn. by rewrite lookup_alter_is_Some. Qed.
Lemma service_call_report call n : net_report_ok n → net_report_ok (service_call call n).
Proof.
  intros [Hr Hk Hi Hl Hc Hq Hp Ht Hm He].
  assert (Hsame : same_reserved (manager n) (manager (service_call call n))).
  { unfold service_call. destruct call as [now p height | p addresses agent | p report | reported peer_score p acceptance].
    - apply updated_same_reserved.
    - eapply same_reserved_trans; apply updated_same_reserved.
    - unfold update_app_score. destruct (non_reserved_connected_peers (manager n) !! p); done.
    - done. }
  assert (Hsc : ∃ blocked m, service_call call n =
    MkNetwork (MkFuelBehaviour blocked (connection_limits (behaviour n)) (connections (behaviour n)) (peer_report (behaviour n))) m
      (used n) (dialing n) (incoming n) (live n)).
  { unfold service_call. destruct (match call with Heartbeat _ _ _ => _ | _ => _ end) as [banned m]. eauto. }
  destruct Hsc as (blocked & m & Hsc), Hsame as [E1 E2]. rewrite Hsc in *. cbn in E1, E2.
  split; try done; cbn; [by rewrite E1|]. intros p Hpr. rewrite E2. by apply He.
Qed.
Lemma step_report i n n' : swarm_step i n = Some n' → ids_ok n → net_report_ok n → net_report_ok n'.
Proof.
  intros Hstep Hids Hn. destruct i as [now c other | now c p condition other | now c ticks condition other | now c p first last | now c | now c | call];
    cbn [swarm_step] in Hstep.
  - case_decide; [|done]. injection Hstep as <-. by apply start_incoming_report.
  - case_decide; [|done]. injection Hstep as <-. by apply start_dial_report.
  - case_decide; [|done]. by eapply poll_report.
  - case_decide; [|case_decide; [|done]]; injection Hstep as <-; by apply establish_report.
  - case_decide as Hc; [|done]. injection Hstep as <-.
    pose proof (pending_unknown _ _ Hn Hc) as Hck.
    unfold fail_connection, net_report_ok. case_bool_decide; rewrite emitted_reserved;
      cbn [emit behaviour manager used dialing incoming live fuel_on_swarm_event peer_report]; rewrite unknown_failure_ignored by done;
      (eapply shrunk_report; [exact Hn|..]); cbn; try done; by apply difference_of.
  - destruct (live n !! c) as [[p e]|] eqn:E; [|done]. injection Hstep as <-. unfold close_connection, net_report_ok. rewrite emitted_reserved.
    cbn [emit behaviour manager used dialing incoming live fuel_on_swarm_event peer_report]. unfold limited_on_swarm_event, limited_allowed.
    case_bool_decide as Hk; cbn [inner_behaviour known_connections]; [by eapply closed_report|].
    eapply unseen_closed_report; [exact Hn | done|]. intros Hp. apply Hk. by eapply ro_live.
  - injection Hstep as <-. by apply service_call_report.
Qed.

(** *** The start *)
Lemma reserved_loop now multiaddrs queue addresses queue' addresses' :
  reserved_nodes_loop now multiaddrs queue addresses = Some (queue', addresses') →
  (∀ p, p ∈ queue.*2 ↔ p ∈ dom addresses) →
  (∀ p, p ∈ queue'.*2 ↔ p ∈ dom addresses') ∧ (∀ p, p ∈ dom addresses' → p ∈ dom addresses ∨ p ∈ omap try_to_peer_id multiaddrs).
Proof.
  revert queue addresses. induction multiaddrs as [|a rest IH]; intros queue addresses; cbn; [by intros [= <- <-]; auto|].
  destruct (is_dialable a); cbn; [|by intros [= <- <-]; auto]. destruct (try_to_peer_id a) as [p|]; cbn; [|done]. intros Hl Hq.
  destruct (IH _ _ Hl) as [H1 H2].
  - intros q. rewrite fmap_app, elem_of_app, dom_insert_L, elem_of_union, elem_of_singleton. cbn. rewrite list_elem_of_singleton, Hq. tauto.
  - split; [done|]. intros q [Hx | Hx]%H2; rewrite elem_of_cons; [|by auto]. rewrite dom_insert_L, elem_of_union, elem_of_singleton in Hx. tauto.
Qed.
Definition config_fits (config : P2PConfig) : Prop :=
  in_range u32 (max_discovery_peers_connected config) ∧ in_range u32 (max_functional_peers_connected config) ∧
  in_range u32 (max_outgoing_connections config) ∧ limit_fits (max_connections_per_peer config).
Lemma start_ok now0 config n : config_fits config → Network_new now0 config = Some n → ids_ok n ∧ net_statistic_ok n ∧ net_report_ok n.
Proof.
  intros (Hf1 & _ & Hf2 & Hf3) Hn. unfold Network_new, FuelBehaviour_new, PeerReport_new in Hn.
  destruct (reserved_nodes_loop _ _ _ _) as [[queue addresses]|] eqn:El; [|done]. cbn in Hn. injection Hn as <-.
  destruct (reserved_loop _ _ _ _ _ _ El) as [Hq Ha]; [intros p; cbn; rewrite dom_empty_L; set_solver|].
  assert (Hempty : ∀ p, ¬ connected ∅ p) by (intros p; unfold connected, connections_of; rewrite connections_where_empty; auto).
  split; [|split].
  - unfold ids_ok, ids_disjoint. cbn. set_solver.
  - assert (Hfit : limits_fit (MkConnectionLimits (Some 100) (Some (Z.min (max_outgoing_connections config) 100)) None
      (Some (max_outgoing_connections config)) (max_connections_per_peer config) (Some (max_discovery_peers_connected config)))).
    { split; try done; unfold limit_fits; cbn; int_lia. }
    split; [exact Hfit | by apply new_statistic_ok].
  - split; cbn; try done.
    + set_solver.
    + intros p Hp. by apply Hq in Hp.
    + intros p Hp. right; left. by apply Hq.
    + intros p Hp. apply elem_of_list_to_set. destruct (Ha p Hp) as [Hx|?]; [|done]. by rewrite dom_empty_L in Hx.
Qed.
Lemma swarm_ok now0 config n : config_fits config → swarm_reach now0 config n → ids_ok n ∧ net_statistic_ok n ∧ net_report_ok n.
Proof.
  intros Hf. induction 1 as [n Hn | n i n' _ (Hi & Hs & Hr) Hstep]; [by eapply start_ok|].
  split; [by eapply step_ids|]. split; [by eapply step_statistic | by eapply step_report].
Qed.


(** C33 the reports about reserved nodes are faithful in every state that the
    swarm can reach: once the waiting events are handled, a reserved node is in
    the table of the manager exactly when it has a connection; polling never
    panics; and a reserved node that is not connected is queued for a dial, or
    a dial to it was made whose end the reports have not seen. *)
Theorem reserved_nodes_tracked now0 config n p :
  config_fits config → swarm_reach now0 config n → p ∈ reserved_of n →
  let rep := inner_behaviour (peer_report (behaviour n)) in
  (pending_events rep = [] → is_Some (reserved_connected_peers (manager n) !! p) ↔ ∃ c e, live n !! c = Some (p, e)) ∧
  (∀ now c ticks, is_Some (report_poll now c ticks rep)) ∧
  ((∃ c e, live n !! c = Some (p, e)) ∨ p ∈ (reserved_nodes_to_connect rep).*2 ∨
   ∃ c, c ∈ pending_connections rep ∧ used n !! c = Some (Some p)).
Proof.
  intros Hf Hn Hp. destruct (swarm_ok _ _ _ Hf Hn) as (_ & _ & [Hr Hk Hi Hl Hc Hq Hpd Ht Hm He]).
  assert (Hcon : connected (live n) p ↔ ∃ c e, live n !! c = Some (p, e)).
  { unfold connected. split.
    - intros [c (x & Hx & Ex)%elem_of_connections_where]%set_choose_L. destruct x as [q e]. cbn in Ex. subst q. eauto.
    - intros (c & e & Hx). by eapply connected_self. }
  split; [|split].
  - intros Hev. specialize (He p Hp). rewrite Hev in He. cbn in He. rewrite <- Hcon. unfold replay, in_table in He. cbn in He.
    by rewrite <- (bool_decide_spec (is_Some _)), He, bool_decide_spec.
  - intros now c ticks. unfold report_poll. destruct (pending_events _); [|done]. destruct (reserved_nodes_to_connect _) as [|[instant q] queue]; [done|].
    case_decide; [|done]. assert (Hqr : q ∈ dom (reserved_nodes_multiaddr (inner_behaviour (peer_report (behaviour n))))) by (rewrite Hr; apply Hq; by left).
    apply elem_of_dom in Hqr as [x ->]. done.
  - rewrite <- Hcon. by apply Ht.
Qed.

(** ** A dial that fails *)
Definition queue_of (n : Network) : list PeerId := (reserved_nodes_to_connect (inner_behaviour (peer_report (behaviour n)))).*2.
Definition forgotten (p : PeerId) (n : Network) : Prop := p ∉ queue_of n ∧ ¬ connected (live n) p.
(** The wrapper adds to the queue at most the peer of the event. *)
Lemma event_queue now event (b : LimitedBehaviour PeerReport) p :
  p ∈ (reserved_nodes_to_connect (inner_behaviour (limited_on_swarm_event (report_on_swarm_event now) event b))).*2 →
  p ∈ (reserved_nodes_to_connect (inner_behaviour b)).*2 ∨
  match event with DialFailure (Some q) _ | ConnectionClosed q _ _ => p = q | _ => False end.
Proof.
  unfold limited_on_swarm_event, limited_allowed. destruct event as [q c m | q e c | c | [q|] c | c |]; try case_bool_decide; cbn [inner_behaviour]; auto;
    unfold report_on_swarm_event; cbn; repeat case_match; cbn; auto; rewrite fmap_app, elem_of_app; cbn; rewrite list_elem_of_singleton; auto.
Qed.
Lemma start_dial_forgotten now c q condition other n p :
  c ∉ known_connections (peer_report (behaviour n)) → forgotten p n → forgotten p (start_dial now c q condition other n).
Proof.
  intros Hc Hp. destruct (started_fields now c q condition other n Hc) as (E1 & _ & _ & _ & E5 & _). unfold forgotten, queue_of. by rewrite E1, E5.
Qed.
Lemma establish_forgotten now e c q first last n p :
  live n !! c = None → q ≠ p → forgotten p n → forgotten p (establish now e c q first last n).
Proof.
  intros Hl Hq [Hp1 Hp2]. unfold establish, forgotten, queue_of. cbn [behaviour]. destruct (fuel_handle_established _ _ _ _ _ _) as [ok b] eqn:E.
  apply fuel_handled in E as [_ E].
  assert (Hrep : inner_behaviour (peer_report b) = inner_behaviour (peer_report (behaviour n))).
  { destruct E as [(_ & _ & ->) | [(_ & _ & ->) | (_ & _ & ->)]]; [done..|]. apply limited_handled. }
  destruct ok; cbn [emit behaviour live fuel_on_swarm_event peer_report]; split; try done.
  - intros Hx%event_queue. rewrite Hrep in Hx. tauto.
  - rewrite connected_insert by done. tauto.
  - intros Hx%event_queue. rewrite Hrep in Hx. destruct e; [tauto|]. destruct Hx; [by apply Hp1 | congruence].
Qed.
Lemma forgotten_step i n n' p :
  swarm_step i n = Some n' → ids_ok n → net_report_ok n → (∀ now c first last, i ≠ Upgraded now c p first last) →
  forgotten p n → forgotten p n'.
Proof.
  intros Hstep Hids Hn Hi Hp.
  destruct i as [now c other | now c q condition other | now c ticks condition other | now c q first last | now c | now c | call]; cbn [swarm_step] in Hstep.
  - case_decide as Hu; [|done]. injection Hstep as <-. pose proof (unused_unknown _ _ Hn Hu). unfold start_incoming, handle_pending_inbound_connection.
    destruct (check_limit _ _ _) as [[]|], other; unfold forgotten, queue_of; cbn; rewrite ?unknown_failure_ignored by done; done.
  - case_decide as Hu; [|done]. injection Hstep as <-. apply start_dial_forgotten; [by apply unused_unknown | done].
  - case_decide as Hu; [|done]. pose proof (unused_unknown _ _ Hn Hu) as Hck. destruct Hp as [Hp1 Hp2]. unfold poll_reports, report_poll in Hstep.
    unfold forgotten, queue_of in *.
    destruct (pending_events _); [|injection Hstep as <-; done].
    destruct (reserved_nodes_to_connect _) as [|[instant q] queue] eqn:Eq; [destruct ticks; injection Hstep as <-; unfold queue_of; cbn; by rewrite Eq|].
    case_decide; [|destruct ticks; injection Hstep as <-; unfold queue_of; cbn; by rewrite Eq].
    destruct (reserved_nodes_multiaddr _ !! q); [|done]. cbn [mbind option_bind] in Hstep. injection Hstep as <-.
    apply start_dial_forgotten; [done|]. split; [|done]. cbn in *. intros Hx. apply Hp1. by right.
  - assert (Hq : q ≠ p) by (intros ->; by apply (Hi now c first last)).
    case_decide; [|case_decide; [|done]]; injection Hstep as <-; apply establish_forgotten; try done;
      apply pending_not_live; try done; rewrite elem_of_union; tauto.
  - case_decide as Hc; [|done]. injection Hstep as <-. pose proof (pending_unknown _ _ Hn Hc). unfold fail_connection.
    case_bool_decide; unfold forgotten, queue_of; cbn; rewrite unknown_failure_ignored by done; done.
  - destruct (live n !! c) as [[q e]|] eqn:E; [|done]. injection Hstep as <-. destruct Hp as [Hp1 Hp2].
    assert (Hq : p ≠ q) by (intros ->; by apply Hp2; eapply connected_self). split.
    + intros Hx%event_queue. tauto.
    + cbn. by rewrite (connected_delete_ne _ _ _ _ _ E Hq).
  - injection Hstep as <-. unfold service_call. case_match. exact Hp.
Qed.
Lemma forgotten_run inputs n n' p :
  swarm_run inputs n = Some n' → ids_ok n → net_report_ok n → Forall (λ i, ∀ now c first last, i ≠ Upgraded now c p first last) inputs →
  forgotten p n → forgotten p n'.
Proof.
  unfold swarm_run. revert n. induction inputs as [|i inputs IH]; intros n Hrun Hids Hn Hf Hp; [by injection Hrun as <-|].
  apply Forall_cons in Hf as [Hi Hf]. cbn in Hrun. destruct (swarm_step i n) as [n1|] eqn:Es.
  - apply (IH n1); [done | by eapply step_ids | by eapply step_report | done | by eapply forgotten_step].
  - exfalso. clear -Hrun. induction inputs as [|i' inputs IH]; [done | by apply IH].
Qed.

(** A dial to a reserved node that fails before the connection is
    established is never repeated: the wrapper has not seen the connection, so
    the reports are not told of the failure, and until the peer itself connects
    no poll dials it, whatever the swarm and the service do. *)
Theorem failed_dial_is_not_repeated now0 config n c p now n1 inputs n2 :
  config_fits config → swarm_reach now0 config n →
  c ∈ dialing n → used n !! c = Some (Some p) → p ∉ queue_of n → (∀ d e, live n !! d ≠ Some (p, e)) →
  swarm_step (Failed now c) n = Some n1 →
  Forall (λ i, ∀ now c first last, i ≠ Upgraded now c p first last) inputs → swarm_run inputs n1 = Some n2 →
  p ∉ queue_of n2 ∧
  ∀ now' c' ticks poll rep', report_poll now' c' ticks (inner_behaviour (peer_report (behaviour n2))) = Some (poll, rep') →
    ∀ addresses d, poll ≠ Dial p addresses d.
Proof.
  intros Hf Hn Hc Hu Hq Hl Hs Hi Hrun. destruct (swarm_ok _ _ _ Hf Hn) as (Hids & _ & Hrep).
  assert (Hforgot : forgotten p n).
  { split; [done|]. unfold connected. intros [d ([q e] & Hd & Eq)%elem_of_connections_where]%set_choose_L. cbn in Eq. subst q. by apply (Hl d e). }
  assert (Hn1 : forgotten p n1) by (eapply forgotten_step; [exact Hs | done | done | done | done]).
  destruct (forgotten_run inputs n1 n2 p) as [Hq2 _]; [done | by eapply step_ids | by eapply step_report | done | done |]. split; [done|].
  intros now' c' ticks poll rep' Hpoll addresses d ->. unfold report_poll in Hpoll. unfold queue_of in Hq2.
  destruct (pending_events _); [|done]. destruct (reserved_nodes_to_connect _) as [|[instant q] queue]; [by destruct ticks|].
  case_decide; [|by destruct ticks]. destruct (reserved_nodes_multiaddr _ !! q); cbn in Hpoll; [|done]. simplify_eq. apply Hq2. by left.
Qed.
End reserved.
