(* ===== verification/P2PSamples.v ===== *)
(** * Samples of peers and connections

    A node with one reserved peer, for which the theorems about peers and
    connections are applied, and two runs that show what they leave open: a
    node with one slot that turns everyone away after its first peer left, and
    a peer that keeps its slot although it is gone. *)
From Stdlib Require Import SpecFloat.
From stdpp Require Import gmap strings.
From S2P Require Import Prelude GasPriceEstimate P2P P2PFacts P2PSwarm P2PSwarmFacts P2PReserved.

#[local] Instance sample_multiaddrs : Multiaddrs := {|
  Multiaddr := list string * option Z;
  protocol_stack := fst;
  try_to_peer_id := snd
|}.
Definition sample_address (p : Z) : Multiaddr := (["ip4"; "tcp"; "p2p"]%string, Some p).
Definition sample_calls : list ManagerCall :=
  [CallConnected 0 10; CallConnected 0 1; CallHeartbeat 5 10 7; CallConnected 1 11; CallScore 10 (f64_of_Z 200); CallDecay].

(** The hypotheses of [peer_table_invariant] hold of a table with two slots. *)
Lemma peer_table_invariant_witness :
  0 ≤ 2 < int_max u64 ∧
  (handle_peer_connected 2 12 (manager_calls sample_calls (PeerManager_new {[1]} 2))).1 = true ∧
  (12 ∉ ({[1]} : gset Z) ∧ non_reserved_connected_peers (manager_calls sample_calls (PeerManager_new {[1]} 2)) !! 12 = None ∧
   free_slots (manager_calls sample_calls (PeerManager_new {[1]} 2)) = 0).
Proof.
  assert (Hm : 0 ≤ 2 < int_max u64) by (cbn; lia).
  assert (Hc : (handle_peer_connected 2 12 (manager_calls sample_calls (PeerManager_new {[1]} 2))).1 = true) by (vm_compute; reflexivity).
  destruct (peer_table_invariant {[1]} 2 sample_calls Hm) as (_ & Ht & _). split; [exact Hm|]. split; [exact Hc|]. exact (proj1 (Ht 2 12) Hc).
Defined.

(** The hypotheses of [freed_slot_stays_closed] hold when one of two peers of a
    full table leaves. *)
Lemma freed_slot_stays_closed_witness :
  free_slots (handle_peer_disconnect 10 (manager_calls sample_calls (PeerManager_new {[1]} 2))).2 = 1 ∧
  allow_peer {[1]} (Some (connection_state (manager_calls [CallDisconnected 1; CallHeartbeat 6 11 8]
    (handle_peer_disconnect 10 (manager_calls sample_calls (PeerManager_new {[1]} 2))).2))) 12 = false.
Proof.
  apply (freed_slot_stays_closed {[1]} 2 sample_calls 10 [CallDisconnected 1; CallHeartbeat 6 11 8] 12).
  - cbn. lia.
  - vm_compute. reflexivity.
  - apply (bool_decide_unpack _). vm_compute. exact I.
  - repeat constructor; [intros q [= <-]; set_solver | done].
  - set_solver.
Defined.

(** A node with one slot: after its peer left it admits nobody, and since
    nobody is admitted nobody can leave. *)
Lemma single_slot_is_lost :
  let m := manager_calls [CallConnected 0 10; CallDisconnected 10] (PeerManager_new ∅ 1) in
  non_reserved_connected_peers m = ∅ ∧ ∀ q, allow_peer ∅ (Some (connection_state m)) q = false.
Proof. split; [vm_compute; reflexivity|]. intros q. vm_compute. reflexivity. Qed.

(** ** The swarm *)
Definition sample_config (functional : Z) : P2PConfig := MkP2PConfig [sample_address 1] 3 functional 5 (Some 3).
Definition sample_default : Network :=
  MkNetwork (MkFuelBehaviour ∅ (MkConnectionLimits None None None None None None) (ConnectionsStatistic_new ∅)
    (LimitedBehaviour_new 0 (MkPeerReport ∅ [] ∅ ∅ []))) (PeerManager_new ∅ 0) ∅ ∅ ∅ ∅.
Definition sample_start (functional : Z) : Network := match Network_new 0 (sample_config functional) with Some n => n | None => sample_default end.
Definition sample_net (functional : Z) (inputs : list SwarmInput) : Network :=
  match swarm_run inputs (sample_start functional) with Some n => n | None => sample_default end.
Definition is_some {A} (x : option A) : bool := match x with Some _ => true | None => false end.

Lemma sample_fits functional : in_range u32 functional → config_fits (sample_config functional).
Proof. intros Hf. split; [split; cbn; lia|]. split; [exact Hf|]. split; split; cbn; lia. Qed.
Lemma run_reach inputs n n' now0 config : swarm_reach now0 config n → swarm_run inputs n = Some n' → swarm_reach now0 config n'.
Proof.
  unfold swarm_run. revert n. induction inputs as [|i inputs IH]; intros n Hn Hrun; [by injection Hrun as <-|].
  cbn in Hrun. destruct (swarm_step i n) as [n1|] eqn:Es; [by eapply IH; [eapply swarm_next|]|].
  exfalso. clear -Hrun. induction inputs as [|i' inputs IH]; [done | by apply IH].
Qed.
Lemma sample_reach functional inputs : is_some (swarm_run inputs (sample_start functional)) = true → swarm_reach 0 (sample_config functional) (sample_net functional inputs).
Proof.
  intros Hrun. unfold sample_net. destruct (swarm_run inputs (sample_start functional)) as [n|] eqn:E; [|done].
  eapply run_reach; [|exact E]. apply swarm_start. reflexivity.
Qed.

Definition sample_inputs : list SwarmInput :=
  [Accepted 1 100 false; Upgraded 2 100 10 false false; PollReports 3 101 false true false;
   PollReports 20000000000 102 false true false; Upgraded 20000000001 102 1 false false; PollReports 20000000002 103 false true false;
   Accepted 20000000003 104 false].
(** [reserved_nodes_tracked] there: the reserved peer is in the table. *)
Lemma reserved_nodes_tracked_witness :
  1 ∈ reserved_of (sample_net 3 sample_inputs) ∧ is_Some (reserved_connected_peers (manager (sample_net 3 sample_inputs)) !! 1) ∧
  ∃ c e, live (sample_net 3 sample_inputs) !! c = Some (1, e).
Proof.
  assert (Hf : config_fits (sample_config 3)) by (apply sample_fits; int_lia).
  assert (Hn : swarm_reach 0 (sample_config 3) (sample_net 3 sample_inputs)) by (apply sample_reach; vm_compute; reflexivity).
  assert (Hp : 1 ∈ reserved_of (sample_net 3 sample_inputs)) by (apply (bool_decide_unpack _); vm_compute; exact I).
  assert (Hev : pending_events (inner_behaviour (peer_report (behaviour (sample_net 3 sample_inputs)))) = []) by (vm_compute; reflexivity).
  assert (Ht : is_Some (reserved_connected_peers (manager (sample_net 3 sample_inputs)) !! 1)) by (apply (bool_decide_unpack _); vm_compute; exact I).
  destruct (reserved_nodes_tracked 0 (sample_config 3) _ 1 Hf Hn Hp) as (Hiff & _ & _).
  exact (conj Hp (conj Ht (proj1 (Hiff Hev) Ht))).
Defined.

(** [failed_dial_is_not_repeated] for the first dial of the reserved peer *)
Definition dial_inputs : list SwarmInput := [PollReports 20000000000 100 false true false].
Lemma failed_dial_is_not_repeated_witness :
  1 ∉ queue_of (sample_net 3 (dial_inputs ++ [Failed 20000000001 100; PollReports 90000000000 101 false true false])) .
Proof.
  assert (Hf : config_fits (sample_config 3)) by (apply sample_fits; int_lia).
  assert (Hn : swarm_reach 0 (sample_config 3) (sample_net 3 dial_inputs)) by (apply sample_reach; vm_compute; reflexivity).
  refine (proj1 (failed_dial_is_not_repeated 0 (sample_config 3) (sample_net 3 dial_inputs) 100 1 20000000001
    (sample_net 3 (dial_inputs ++ [Failed 20000000001 100])) [PollReports 90000000000 101 false true false] _ Hf Hn _ _ _ _ _ _ _)).
  - apply (bool_decide_unpack _). vm_compute. exact I.
  - vm_compute. reflexivity.
  - apply (bool_decide_unpack _). vm_compute. exact I.
  - intros d e. assert (El : live (sample_net 3 dial_inputs) = ∅) by (vm_compute; reflexivity). rewrite El, lookup_empty. discriminate.
  - vm_compute. reflexivity.
  - repeat constructor. discriminate.
  - vm_compute. reflexivity.
Defined.

(** A peer whose first connection the wrapper hides (two others fill the limit)
    and whose second one it shows: when the second closes before the first, the
    departure is not reported, and the slot of the peer stays taken although no
    connection is left and no event is waiting. *)
Definition stale_inputs : list SwarmInput :=
  [Accepted 1 100 false; Upgraded 2 100 10 false false; Accepted 3 101 false; Upgraded 4 101 11 false false;
   Accepted 5 102 false; Upgraded 6 102 20 false false; Closed 7 100; Closed 8 101;
   Accepted 9 103 false; Upgraded 10 103 20 false false; Closed 11 103; Closed 12 102] ++
  ((λ c, PollReports 13 c false true false) <$> [200; 201; 202; 203; 204]).
Lemma departed_peer_keeps_slot :
  let n := sample_net 2 stale_inputs in
  live n = ∅ ∧ pending_events (inner_behaviour (peer_report (behaviour n))) = [] ∧ is_some (non_reserved_connected_peers (manager n) !! 20) = true.
Proof. vm_compute. repeat split. Qed.
