(* ===== verification/GasPriceService.v ===== *)
(** * The gas price service

    [crates/services/gas_price_service/src], version 1: what a block means to
    the algorithm (common/fuel_core_storage_adapter.rs, common/l2_block_source.rs),
    the stored state of the algorithm (v1/metadata.rs,
    common/updater_metadata.rs), the service that feeds blocks and costs to it
    (v1/service.rs), its start (v1/uninitialized_task.rs), and the source of the
    costs (v1/da_source_service/service.rs).  The algorithm itself is
    [GasPrice.V1].

    The size of a serialized block and the settings of the chain are parameters;
    the storage may fail to read the recorded height or to commit, as each
    input says. *)
From stdpp Require Import gmap strings.
From S2P Require Import Prelude GasPrice FuelTypes Importer.
#[export] Existing Instance V1.btree_unrecorded_blocks.

Abbreviation Updater := V1.AlgorithmUpdaterV1.

(** The errors of common/utils.rs; after them, those that the calls below wrap
    into an [anyhow::Error]. *)
Inductive GasPriceError :=
| CouldNotFetchL2Block (source_error : string)
| CouldNotFetchRecordedHeight
| CouldNotSetRecordedHeight
| CouldNotFetchMetadata
| CouldNotSetMetadata (block_height : Z)
| CouldNotInitUpdater
| CouldNotConvertMetadata
| CouldNotCommit (source_error : option DatabaseError)
| ZeroBlockGasCapacity
| AlgorithmFailed (source_error : V1.Error)
| BlockNotFound.

(** ** Blocks *)
Inductive BlockInfo :=
| GenesisBlock
| BlockOf (height gas_used block_gas_capacity block_bytes block_fees gas_price : Z).
Record GasPriceSettings := MkGasPriceSettings { gs_gas_price_factor : Z; gs_block_gas_limit : Z }.

Definition mint_values (block : Block Transaction) : result GasPriceError (Z * Z) :=
  match last (transactions block) with
  | Some (TxMint mint) => Ok (mint_amount mint, mint_gas_price mint)
  | _ => Err (CouldNotFetchL2Block "Block has no mint transaction")
  end.
Definition block_used_gas (fee gas_price gas_price_factor max_used_gas : Z) : result GasPriceError Z :=
  scaled_fee ← ok_or (fit u64 (fee * gas_price_factor))
    (CouldNotFetchL2Block "Failed to scale fee by gas price factor, overflow");
  let approximate := unwrap_or max_used_gas (checked_div u64 scaled_fee gas_price) in
  Ok (Z.min approximate max_used_gas).
Section blocks.
Context (block_bytes : Block Transaction → Z) (settings : Z → result GasPriceError GasPriceSettings).

Definition block_height (block : Block Transaction) : Z := height (consensus (header block)).
Definition get_block_info (block : Block Transaction) (gas_price_factor block_gas_limit : Z) : result GasPriceError BlockInfo :=
  '(fee, gas_price) ← mint_values block;
  used_gas ← block_used_gas fee gas_price gas_price_factor block_gas_limit;
  Ok (BlockOf (block_height block) used_gas block_gas_limit (block_bytes block) fee gas_price).
(** [None] is the end of the stream of imported blocks. *)
Definition get_l2_block (genesis_block_height : Z) (next : option (Block Transaction)) : result GasPriceError BlockInfo :=
  block ← ok_or next (CouldNotFetchL2Block "No committed block found");
  if decide (block_height block < genesis_block_height) then Err (CouldNotFetchL2Block "Block precedes expected genesis block height")
  else if decide (block_height block = genesis_block_height) then Ok GenesisBlock
  else
    s ← settings (consensus_parameters_version (application (header block)));
    get_block_info block (gs_gas_price_factor s) (gs_block_gas_limit s).
End blocks.

(** ** Metadata *)
Record V0Metadata := MkV0Metadata {
  v0_new_exec_price : Z;
  v0_min_exec_gas_price : Z;
  v0_exec_gas_price_change_percent : Z;
  v0_l2_block_height : Z;
  v0_l2_block_fullness_threshold_percent : Z
}.
Record V1Metadata := MkV1Metadata {
  md_new_scaled_exec_price : Z;
  md_l2_block_height : Z;
  md_new_scaled_da_gas_price : Z;
  md_gas_price_factor : Z;
  md_total_da_rewards : Z;
  md_latest_known_total_da_cost : Z;
  md_last_profit : Z;
  md_second_to_last_profit : Z;
  md_latest_da_cost_per_byte : Z;
  md_unrecorded_block_bytes : Z
}.
Inductive UpdaterMetadata := MetadataV0 (v0 : V0Metadata) | MetadataV1 (v1 : V1Metadata).
Definition metadata_height (self : UpdaterMetadata) : Z :=
  match self with MetadataV0 v0 => v0_l2_block_height v0 | MetadataV1 v1 => md_l2_block_height v1 end.
(** Without the interval of the polls, which are inputs of the node, and the
    switch of the metrics *)
Record V1AlgorithmConfig := MkV1AlgorithmConfig {
  cf_new_exec_gas_price : Z;
  cf_min_exec_gas_price : Z;
  cf_exec_gas_price_change_percent : Z;
  cf_l2_block_fullness_threshold_percent : Z;
  cf_gas_price_factor : Z;
  cf_min_da_gas_price : Z;
  cf_max_da_gas_price : Z;
  cf_max_da_gas_price_change_percent : Z;
  cf_da_p_component : Z;
  cf_da_d_component : Z;
  cf_normal_range_size : Z;
  cf_capped_range_size : Z;
  cf_decrease_range_size : Z;
  cf_block_activity_threshold : Z;
  cf_starting_recorded_height : option Z
}.
Definition construct_from_v0_metadata (v0 : V0Metadata) (config : V1AlgorithmConfig) : V1Metadata :=
  MkV1Metadata (saturating_mul u64 (v0_new_exec_price v0) (cf_gas_price_factor config)) (v0_l2_block_height v0)
    (saturating_mul u64 (cf_min_da_gas_price config) (cf_gas_price_factor config)) (cf_gas_price_factor config) 0 0 0 0 0 0.
Definition config_activity (config : V1AlgorithmConfig) : V1.L2ActivityTracker :=
  V1.tracker_new_full (cf_normal_range_size config) (cf_capped_range_size config) (cf_decrease_range_size config)
    (V1.ClampedPercentage_new (cf_block_activity_threshold config)).
Definition updater_from_config (value : V1AlgorithmConfig) (l2_block_height : Z) : Updater :=
  V1.MkUpdaterV1 (saturating_mul u64 (cf_new_exec_gas_price value) (cf_gas_price_factor value)) (cf_min_exec_gas_price value)
    (cf_exec_gas_price_change_percent value) l2_block_height (V1.ClampedPercentage_new (cf_l2_block_fullness_threshold_percent value))
    (saturating_mul u64 (cf_min_da_gas_price value) (cf_gas_price_factor value)) (cf_gas_price_factor value)
    (cf_min_da_gas_price value) (cf_max_da_gas_price value) (cf_max_da_gas_price_change_percent value) 0 0 0
    (cf_da_p_component value) (cf_da_d_component value) 0 0 0 (config_activity value) 0.
(** [From<AlgorithmUpdaterV1> for V1Metadata] *)
Definition metadata_of (updater : Updater) : V1Metadata :=
  MkV1Metadata (V1.new_scaled_exec_price updater) (V1.l2_block_height updater) (V1.new_scaled_da_gas_price updater)
    (V1.gas_price_factor updater) (V1.total_da_rewards updater) (V1.latest_known_total_da_cost updater) (V1.last_profit updater)
    (V1.second_to_last_profit updater) (V1.latest_da_cost_per_byte updater) (V1.unrecorded_blocks_bytes updater).
Definition v1_algorithm_from_metadata (metadata : V1Metadata) (config : V1AlgorithmConfig) : Updater :=
  let projected_portion := saturating_mul u128 (md_unrecorded_block_bytes metadata) (md_latest_da_cost_per_byte metadata) in
  let projected_total_da_cost := saturating_add u128 (md_latest_known_total_da_cost metadata) projected_portion in
  V1.MkUpdaterV1 (md_new_scaled_exec_price metadata) (cf_min_exec_gas_price config) (cf_exec_gas_price_change_percent config)
    (md_l2_block_height metadata) (V1.ClampedPercentage_new (cf_l2_block_fullness_threshold_percent config))
    (md_new_scaled_da_gas_price metadata) (md_gas_price_factor metadata) (cf_min_da_gas_price config) (cf_max_da_gas_price config)
    (cf_max_da_gas_price_change_percent config) (md_total_da_rewards metadata) (md_latest_known_total_da_cost metadata)
    projected_total_da_cost (cf_da_p_component config) (cf_da_d_component config) (md_last_profit metadata)
    (md_second_to_last_profit metadata) (md_latest_da_cost_per_byte metadata) (config_activity config) (md_unrecorded_block_bytes metadata).
Definition convert_to_v1_metadata (updater_metadata : UpdaterMetadata) (config : V1AlgorithmConfig) : V1Metadata :=
  match updater_metadata with MetadataV1 v1 => v1 | MetadataV0 v0 => construct_from_v0_metadata v0 config end.

(** ** Storage *)
(** [db_height] is the height of the last commit, which the database checks. *)
Record GasPriceDb := MkGasPriceDb {
  db_metadata : gmap Z UpdaterMetadata;
  db_unrecorded : gmap Z Z;
  db_recorded_height : option Z;
  db_height : option Z
}.
(** A transaction, with the heights of the metadata that it changes *)
Record GasPriceTx := MkGasPriceTx { tx_db : GasPriceDb; tx_heights : list Z }.
#[export] Instance eta_GasPriceDb : Eta GasPriceDb := λ r,
  MkGasPriceDb (db_metadata r) (db_unrecorded r) (db_recorded_height r) (db_height r).
Definition begin_transaction (db : GasPriceDb) : GasPriceTx := MkGasPriceTx db [].
Definition set_metadata (metadata : UpdaterMetadata) (tx : GasPriceTx) : GasPriceTx :=
  let db := tx_db tx in
  let h := metadata_height metadata in
  MkGasPriceTx (db <| db_metadata := <[h := metadata]> (db_metadata db) |>) (h :: filter (.≠ h) (tx_heights tx)).
Definition set_recorded_height (recorded_height : Z) (tx : GasPriceTx) : GasPriceTx :=
  let db := tx_db tx in MkGasPriceTx (db <| db_recorded_height := Some recorded_height |>) (tx_heights tx).
Definition set_unrecorded (unrecorded : gmap Z Z) (tx : GasPriceTx) : GasPriceTx :=
  let db := tx_db tx in MkGasPriceTx (db <| db_unrecorded := unrecorded |>) (tx_heights tx).
(** [commit_changes_with_height_update] of the gas price database; [stored]
    says whether the write succeeds. *)
Definition link_heights (prev_height : option Z) (new_heights : list Z) : result DatabaseError (option Z) :=
  if decide (1 < length new_heights)%nat then Err (MultipleHeightsInCommit new_heights)
  else
    match prev_height, last new_heights with
    | None, None => Ok None
    | Some prev_height, Some new_height =>
        next_expected_height ← ok_or (checked_add u32 prev_height 1) FailedToAdvanceHeight;
        if decide (next_expected_height = new_height) then Ok (Some new_height) else Err (HeightsAreNotLinked prev_height new_height)
    | None, Some new_height => Ok (Some new_height)
    | Some prev_height, None => Err (NewHeightIsNotSet prev_height)
    end.
Definition commit_transaction (stored : bool) (tx : GasPriceTx) : result GasPriceError GasPriceDb :=
  new_height ← map_err (CouldNotCommit ∘ Some) (link_heights (db_height (tx_db tx)) (tx_heights tx));
  if stored then Ok ((tx_db tx) <| db_height := new_height |>) else Err (CouldNotCommit None).

Definition initialize_algorithm (config : V1AlgorithmConfig) (latest_metadata_block_height latest_l2_block_height : Z) (db : GasPriceDb) :
    Updater * V1.AlgorithmV1 :=
  let algorithm_updater :=
    match db_metadata db !! latest_metadata_block_height with
    | Some updater_metadata => v1_algorithm_from_metadata (convert_to_v1_metadata updater_metadata config) config
    | None => updater_from_config config latest_l2_block_height
    end in
  (algorithm_updater, V1.algorithm algorithm_updater).

(** ** The service *)
Record DaBlockCosts := MkDaBlockCosts { bundle_id : Z; l2_blocks : Z * Z; bundle_size_bytes : Z; blob_cost_wei : Z }.
(** The channel of costs and the handle of their source are in [GasPriceNode];
    the blocks of [l2_block_source] are inputs. *)
Record GasPriceService := MkGasPriceService {
  shared_algo : V1.AlgorithmV1;
  latest_gas_price : Z * Z;
  algorithm_updater : Updater;
  da_block_costs_buffer : list DaBlockCosts;
  storage_tx_provider : GasPriceDb;
  latest_l2_block : Z;
  initial_recorded_height : option Z
}.
#[export] Instance eta_GasPriceService : Eta GasPriceService := λ r,
  MkGasPriceService (shared_algo r) (latest_gas_price r) (algorithm_updater r) (da_block_costs_buffer r) (storage_tx_provider r)
    (latest_l2_block r) (initial_recorded_height r).

Definition update_latest_gas_price (block_info : BlockInfo) (self : GasPriceService) : GasPriceService :=
  match block_info with
  | GenesisBlock => self
  | BlockOf height _ _ _ _ gas_price => self <| latest_gas_price := (height, gas_price) |>
  end.
Definition notify_da_source_service_l2_block (block : BlockInfo) (self : GasPriceService) : GasPriceService :=
  match block with GenesisBlock => self | BlockOf height _ _ _ _ _ => self <| latest_l2_block := height |> end.

(** The loop over the buffer: the updater, the transaction and the height that
    was recorded last *)
Fixpoint apply_da_costs (costs : list DaBlockCosts) (new_recorded_height : option Z) :
    ST (Updater * gmap Z Z) V1.Error (option Z) := λ s,
  match costs with
  | [] => (Ok new_recorded_height, s)
  | da_block_costs :: costs =>
      match V1.update_da_record_data (l2_blocks da_block_costs) (bundle_size_bytes da_block_costs) (blob_cost_wei da_block_costs) s with
      | (Err e, s) => (Err e, s)
      | (Ok _, s) => apply_da_costs costs (Some (l2_blocks da_block_costs).2) s
      end
  end.
(** [read_ok] and [stored] say whether the storage reads and commits. *)
Definition handle_normal_block (read_ok stored : bool) (height gas_used block_gas_capacity block_bytes block_fees gas_price : Z) :
    ST GasPriceService GasPriceError unit := λ self,
  if decide (block_gas_capacity = 0) then (Err ZeroBlockGasCapacity, self)
  else if negb read_ok then (Err CouldNotFetchRecordedHeight, self)
  else
    let tx := begin_transaction (storage_tx_provider self) in
    let '(new_recorded_height, self) :=
      match db_recorded_height (tx_db tx) with
      | Some _ => (None, self)
      | None => (initial_recorded_height self, self <| initial_recorded_height := (None : option Z) |>)
      end in
    match apply_da_costs (da_block_costs_buffer self) new_recorded_height (algorithm_updater self, db_unrecorded (tx_db tx)) with
    | (Err e, (updater, _)) => (Err (AlgorithmFailed e), self <| algorithm_updater := updater |>)
    | (Ok new_recorded_height, (updater, unrecorded)) =>
        let tx := match new_recorded_height with Some h => set_recorded_height h tx | None => tx end in
        let fee_in_wei := saturating_mul u128 block_fees 1000000000 in
        match V1.update_l2_block_data height gas_used block_gas_capacity block_bytes fee_in_wei (updater, unrecorded) with
        | (Err e, (updater, _)) => (Err (AlgorithmFailed e), self <| algorithm_updater := updater |>)
        | (Ok _, (updater, unrecorded)) =>
            let self := self <| algorithm_updater := updater |> in
            let tx := set_metadata (MetadataV1 (metadata_of updater)) (set_unrecorded unrecorded tx) in
            match commit_transaction stored tx with
            | Err e => (Err e, self)
            | Ok db =>
                let self := self <| storage_tx_provider := db |> in
                let self := self <| shared_algo := V1.algorithm updater |> in
                (Ok (), self <| da_block_costs_buffer := ([] : list DaBlockCosts) |>)
            end
        end
    end.
Definition apply_block_info_to_gas_algorithm (read_ok stored : bool) (l2_block : BlockInfo) : ST GasPriceService GasPriceError unit := λ self,
  match l2_block with
  | GenesisBlock =>
      let tx := set_metadata (MetadataV1 (metadata_of (algorithm_updater self))) (begin_transaction (storage_tx_provider self)) in
      match commit_transaction stored tx with
      | Err e => (Err e, self)
      | Ok db => (Ok (), (self <| storage_tx_provider := db |>) <| shared_algo := V1.algorithm (algorithm_updater self) |>)
      end
  | BlockOf height gas_used block_gas_capacity block_bytes block_fees gas_price =>
      handle_normal_block read_ok stored height gas_used block_gas_capacity block_bytes block_fees gas_price self
  end.
Definition commit_block_data_to_algorithm (read_ok stored : bool) (l2_block_res : result GasPriceError BlockInfo) : ST GasPriceService GasPriceError unit := λ self,
  match l2_block_res with
  | Err e => (Err e, self)
  | Ok block =>
      match apply_block_info_to_gas_algorithm read_ok stored block (update_latest_gas_price block self) with
      | (Err e, self) => (Err e, self)
      | (Ok _, self) => (Ok (), notify_da_source_service_l2_block block self)
      end
  end.

(** A turn of [run] that is not a stop *)
Inductive ServiceInput :=
| InputBlock (read_ok stored : bool) (l2_block_res : result GasPriceError BlockInfo)
| InputCosts (da_block_costs_res : option DaBlockCosts).
Definition run_service (i : ServiceInput) (self : GasPriceService) : GasPriceService :=
  match i with
  | InputBlock read_ok stored l2_block_res => (commit_block_data_to_algorithm read_ok stored l2_block_res self).2
  | InputCosts (Some costs) => self <| da_block_costs_buffer := da_block_costs_buffer self ++ [costs] |>
  | InputCosts None => self
  end.
(** [shutdown] with the results that are ready; it stops at the first error. *)
Fixpoint shutdown_service (ready : list (bool * bool * result GasPriceError BlockInfo)) : ST GasPriceService GasPriceError unit := λ self,
  match ready with
  | (read_ok, stored, Ok block) :: ready =>
      match apply_block_info_to_gas_algorithm read_ok stored block self with
      | (Err e, self) => (Err e, self)
      | (Ok _, self) => shutdown_service ready self
      end
  | _ => (Ok (), self)
  end.

(** ** The start of the service *)
(** A view of the on-chain database *)
Record L2View := MkL2View { view_latest_height : option Z; view_get_block : Z → result GasPriceError (option (Block Transaction)) }.
Section start.
Context (block_bytes : Block Transaction → Z) (settings : Z → result GasPriceError GasPriceSettings).
Context (config : V1AlgorithmConfig) (genesis_block_height : Z).

Definition view_height (view : L2View) : Z := unwrap_or genesis_block_height (view_latest_height view).
(** [UninitializedTask::new]: the updater, the shared algorithm and the latest price *)
Definition UninitializedTask_new (db : GasPriceDb) (view : L2View) :
    result GasPriceError (Updater * V1.AlgorithmV1 * (Z * Z)) :=
  let latest_block_height := view_height view in
  let gas_price_metadata_height := unwrap_or latest_block_height (db_height db) in
  let '(algo_updater, shared_algo) := initialize_algorithm config gas_price_metadata_height latest_block_height db in
  block ← view_get_block view latest_block_height;
  let mint_price := block ≫= λ block, match mint_values block with Ok (_, gas_price) => Some gas_price | Err _ => None end in
  let latest_gas_price := unwrap_or (V1.calculate (V1.algorithm algo_updater)) mint_price in
  Ok (algo_updater, shared_algo, (latest_block_height, latest_gas_price)).

(** One block of [sync_gas_price_db_with_on_chain_storage] *)
Definition sync_block (stored : bool) (view : L2View) (height : Z) : ST (Updater * GasPriceDb) GasPriceError unit := λ '(updater, db),
  let tx := begin_transaction db in
  match (maybe_block ← view_get_block view height;
         block ← ok_or maybe_block BlockNotFound;
         s ← settings (consensus_parameters_version (application (header block)));
         block_gas_capacity ← (if decide (gs_block_gas_limit s = 0) then Err ZeroBlockGasCapacity else Ok (gs_block_gas_limit s));
         info ← get_block_info block_bytes block (gs_gas_price_factor s) (gs_block_gas_limit s);
         block_gas_used ← match info with
                          | GenesisBlock => Err (CouldNotFetchL2Block "should not be genesis block")
                          | BlockOf _ gas_used _ _ _ _ => Ok gas_used
                          end;
         '(fee_gwei, _) ← mint_values block;
         Ok (block, block_gas_capacity, block_gas_used, saturating_mul u64 fee_gwei 1000000000)) with
  | Err e => (Err e, (updater, db))
  | Ok (block, block_gas_capacity, block_gas_used, fee_wei) =>
      match V1.update_l2_block_data height block_gas_used block_gas_capacity (block_bytes block) fee_wei (updater, db_unrecorded (tx_db tx)) with
      | (Err e, (updater, _)) => (Err (AlgorithmFailed e), (updater, db))
      | (Ok _, (updater, unrecorded)) =>
          match commit_transaction stored (set_metadata (MetadataV1 (metadata_of updater)) (set_unrecorded unrecorded tx)) with
          | Err e => (Err e, (updater, db))
          | Ok db => (Ok (), (updater, db))
          end
      end
  end.
(** [stopping] and [stored]: what the watcher and the storage say at a height *)
Fixpoint sync_heights (stopping stored : Z → bool) (view : L2View) (heights : list Z) : ST (Updater * GasPriceDb) GasPriceError unit := λ s,
  match heights with
  | [] => (Ok (), s)
  | height :: heights =>
      if stopping height then (Ok (), s)
      else
        match sync_block (stored height) view height s with
        | (Err e, s) => (Err e, s)
        | (Ok _, s) => sync_heights stopping stored view heights s
        end
  end.
Definition sync_gas_price_db_with_on_chain_storage (stopping stored : Z → bool) (view : L2View) (metadata_height latest_block_height : Z) :
    ST (Updater * GasPriceDb) GasPriceError unit :=
  sync_heights stopping stored view (V1.range_heights (saturating_add u32 metadata_height 1, latest_block_height)).

(** [UninitializedTask::init], with the database that is left; the second part
    of the result is the height that the source of costs starts from. *)
Definition init (read_ok : bool) (stopping stored : Z → bool) (view : L2View)
    (task : Updater * V1.AlgorithmV1 * (Z * Z)) (db : GasPriceDb) : result GasPriceError (GasPriceService * Z) * GasPriceDb :=
  let '(algo_updater, shared_algo, latest_gas_price) := task in
  let latest_block_height := view_height view in
  let metadata_height := unwrap_or latest_block_height (db_height db) in
  if negb read_ok then (Err CouldNotFetchRecordedHeight, db)
  else
    let starting_recorded_height :=
      match db_recorded_height db with
      | Some height => height
      | None => unwrap_or latest_block_height (cf_starting_recorded_height config)
      end in
    if decide (latest_block_height = genesis_block_height) then
      (Ok (MkGasPriceService shared_algo latest_gas_price algo_updater [] db latest_block_height (Some starting_recorded_height),
           starting_recorded_height), db)
    else
      match (if decide (metadata_height < latest_block_height) then
               sync_gas_price_db_with_on_chain_storage stopping stored view metadata_height latest_block_height (algo_updater, db)
             else (Ok (), (algo_updater, db))) with
      | (Err e, (_, db)) => (Err e, db)
      | (Ok _, (algo_updater, db)) =>
          let latest_gas_price := (latest_block_height, V1.calculate (V1.algorithm algo_updater)) in
          (Ok (MkGasPriceService shared_algo latest_gas_price algo_updater [] db latest_block_height (Some starting_recorded_height),
               starting_recorded_height), db)
      end.
End start.

(** ** The source of the costs *)
Record RawDaBlockCosts := MkRawDaBlockCosts { raw_id : Z; start_height : Z; end_height : Z; raw_da_block_height : Z; raw_cost : Z; raw_size : Z }.
Definition costs_of_raw (raw : RawDaBlockCosts) : DaBlockCosts :=
  MkDaBlockCosts (raw_id raw) (start_height raw, end_height raw) (raw_size raw) (raw_cost raw).
(** [client] is the API of the block committer. *)
Definition request_da_block_costs (client : Z → option (list RawDaBlockCosts)) (last_recorded_height : Z) : option (list DaBlockCosts) :=
  match checked_add u32 last_recorded_height 1 with
  | None => None
  | Some next_height => option_map (map costs_of_raw) (client next_height)
  end.

Definition DA_BLOCK_COSTS_CHANNEL_SIZE : nat := 16 * 1024.
(** The channel of tokio: a full channel drops its oldest value, and the next
    receive fails. *)
Record CostsChannel := MkCostsChannel { channel_values : list DaBlockCosts; channel_lagged : bool }.
Definition channel_send (v : DaBlockCosts) (c : CostsChannel) : CostsChannel :=
  if decide (length (channel_values c) < DA_BLOCK_COSTS_CHANNEL_SIZE)%nat
  then MkCostsChannel (channel_values c ++ [v]) (channel_lagged c)
  else MkCostsChannel (drop 1 (channel_values c) ++ [v]) true.

Definition filter_costs (latest_l2_height : Z) (da_block_costs : list DaBlockCosts) : list DaBlockCosts :=
  filter (λ c, (l2_blocks c).2 < latest_l2_height) da_block_costs.
(** The loop of [process_block_costs]: the channel and the recorded height.  A
    send fails only without a receiver, before the service runs. *)
Definition send_costs (costs : list DaBlockCosts) (s : CostsChannel * Z) : CostsChannel * Z :=
  foldl (λ '(channel, recorded_height) c,
    (channel_send c channel, if decide (recorded_height < (l2_blocks c).2) then (l2_blocks c).2 else recorded_height)) s costs.
Definition process_block_costs (client : Z → option (list RawDaBlockCosts)) (latest_l2_height : Z) (s : CostsChannel * Z) : CostsChannel * Z :=
  match request_da_block_costs client s.2 with
  | None => s
  | Some da_block_costs => send_costs (filter_costs latest_l2_height da_block_costs) s
  end.

(** ** The two services of a node *)
Inductive GasPriceNode :=
| NodeRunning (service : GasPriceService) (channel : CostsChannel) (recorded_height : Z)
| NodeStopped (db : GasPriceDb).
Inductive NodeInput :=
| NodeBlock (read_ok stored : bool) (l2_block_res : result GasPriceError BlockInfo)
| NodeReceive
| NodePoll (client : Z → option (list RawDaBlockCosts))
| NodeStop (ready : list (bool * bool * result GasPriceError BlockInfo))
| NodeStart (read_ok : bool) (stopping stored : Z → bool) (view_new view_init : L2View).
Definition node_db (n : GasPriceNode) : GasPriceDb :=
  match n with NodeRunning service _ _ => storage_tx_provider service | NodeStopped db => db end.

Section node.
Context (block_bytes : Block Transaction → Z) (settings : Z → result GasPriceError GasPriceSettings).
Context (config : V1AlgorithmConfig) (genesis_block_height : Z).
(** A receive with nothing in the channel waits. *)
Definition node_step (i : NodeInput) (n : GasPriceNode) : GasPriceNode :=
  match i, n with
  | NodeBlock read_ok stored res, NodeRunning service channel recorded =>
      NodeRunning (run_service (InputBlock read_ok stored res) service) channel recorded
  | NodeReceive, NodeRunning service (MkCostsChannel values true) recorded =>
      NodeRunning (run_service (InputCosts None) service) (MkCostsChannel values false) recorded
  | NodeReceive, NodeRunning service (MkCostsChannel (v :: values) false) recorded =>
      NodeRunning (run_service (InputCosts (Some v)) service) (MkCostsChannel values false) recorded
  | NodePoll client, NodeRunning service channel recorded =>
      let '(channel, recorded) := process_block_costs client (latest_l2_block service) (channel, recorded) in
      NodeRunning service channel recorded
  | NodeStop ready, NodeRunning service _ _ => NodeStopped (storage_tx_provider (shutdown_service ready service).2)
  | NodeStart read_ok stopping stored view_new view_init, NodeStopped db =>
      match UninitializedTask_new config genesis_block_height db view_new with
      | Err _ => NodeStopped db
      | Ok task =>
          match init block_bytes settings config genesis_block_height read_ok stopping stored view_init task db with
          | (Ok (service, recorded), _) => NodeRunning service (MkCostsChannel [] false) recorded
          | (Err _, db) => NodeStopped db
          end
      end
  | _, _ => n
  end.
Definition node_run (inputs : list NodeInput) (n : GasPriceNode) : GasPriceNode := foldl (λ n i, node_step i n) n inputs.
End node.
