(* ===== verification/GasPriceServiceFacts.v ===== *)
(** * What the gas price service keeps

    The outcomes of a block, the restart from the stored metadata, the
    synchronisation with the on-chain blocks, and the failures after which the
    service never updates again. *)
From stdpp Require Import gmap strings.
From S2P Require Import Prelude GasPrice GasPriceFacts FuelTypes Importer GasPriceService.
Import V1Facts.

(** ** The updater *)
(** The fields that the configuration sets, and the projected cost *)
Definition configured (config : V1AlgorithmConfig) (u : Updater) : Prop :=
  (V1.min_exec_gas_price u, V1.exec_gas_price_change_percent u, V1.l2_block_fullness_threshold_percent u, V1.min_da_gas_price u,
   V1.max_da_gas_price u, V1.max_da_gas_price_change_percent u, V1.da_p_component u, V1.da_d_component u) =
  (cf_min_exec_gas_price config, cf_exec_gas_price_change_percent config,
   V1.ClampedPercentage_new (cf_l2_block_fullness_threshold_percent config), cf_min_da_gas_price config,
   cf_max_da_gas_price config, cf_max_da_gas_price_change_percent config, cf_da_p_component config, cf_da_d_component config).
Definition projected (u : Updater) : Prop :=
  V1.projected_total_da_cost u =
  saturating_add u128 (V1.latest_known_total_da_cost u) (saturating_mul u128 (V1.unrecorded_blocks_bytes u) (V1.latest_da_cost_per_byte u)).
Definition reset_activity (config : V1AlgorithmConfig) (u : Updater) : Updater :=
  V1.MkUpdaterV1 (V1.new_scaled_exec_price u) (V1.min_exec_gas_price u) (V1.exec_gas_price_change_percent u) (V1.l2_block_height u)
    (V1.l2_block_fullness_threshold_percent u) (V1.new_scaled_da_gas_price u) (V1.gas_price_factor u) (V1.min_da_gas_price u)
    (V1.max_da_gas_price u) (V1.max_da_gas_price_change_percent u) (V1.total_da_rewards u) (V1.latest_known_total_da_cost u)
    (V1.projected_total_da_cost u) (V1.da_p_component u) (V1.da_d_component u) (V1.last_profit u) (V1.second_to_last_profit u)
    (V1.latest_da_cost_per_byte u) (config_activity config) (V1.unrecorded_blocks_bytes u).
Record restorable (config : V1AlgorithmConfig) (u : Updater) : Prop := {
  rs_wf : wf u;
  rs_configured : configured config u;
  rs_projected : projected u
}.

Lemma restored_updater config u :
  restorable config u → v1_algorithm_from_metadata (metadata_of u) config = reset_activity config u.
Proof.
  intros [_ Hc Hp]. destruct u. unfold configured, projected in *. cbn in *. simplify_eq.
  unfold v1_algorithm_from_metadata, reset_activity, metadata_of. done.
Qed.

Lemma clamp_nonneg x : 0 ≤ x → clamp u128 x = Z.min x (int_max u128).
Proof. unfold clamp. change (int_min u128) with 0. assert (0 ≤ int_max u128) by done. lia. Qed.
Lemma saturating_cost a u b c :
  0 ≤ a → 0 ≤ u → 0 ≤ b → 0 ≤ c →
  saturating_add u128 (saturating_add u128 a (saturating_mul u128 u c)) (saturating_mul u128 b c) =
  saturating_add u128 a (saturating_mul u128 (saturating_add u128 u b) c).
Proof.
  intros Ha Hu Hb Hc. unfold saturating_add, saturating_mul. assert (0 ≤ int_max u128) as HM by done.
  assert (0 ≤ u * c ∧ 0 ≤ b * c) as [? ?] by nia.
  assert (0 ≤ Z.min (u + b) (int_max u128) * c) by (apply Z.mul_nonneg_nonneg; lia).
  rewrite (clamp_nonneg (u * c)), (clamp_nonneg (b * c)), (clamp_nonneg (u + b)) by lia.
  repeat match goal with |- context [clamp u128 ?x] => rewrite (clamp_nonneg x) by lia end.
  generalize dependent (int_max u128). intros M HM _.
  assert (c = 0 ∨ 1 ≤ c) as [-> | Hc'] by lia; [rewrite !Z.mul_0_r; lia|].
  assert (Z.min (Z.min (u + b) M * c) M = Z.min (u * c + b * c) M) as ->.
  { rewrite <- Z.mul_add_distr_r. destruct (Z_le_gt_dec (u + b) M); [by rewrite (Z.min_l (u + b))|].
    rewrite (Z.min_r (u + b)) by lia. assert (M ≤ M * c ∧ M ≤ (u + b) * c) by nia. lia. }
  generalize dependent (u * c). generalize dependent (b * c). clear -Ha HM. lia.
Qed.

Lemma restorable_l2 config u (m : gmap Z Z) height used capacity bytes fee :
  restorable config u → in_range u32 height → 0 ≤ bytes →
  restorable config (V1.update_l2_block_data height used capacity bytes fee (u, m)).2.1.
Proof.
  intros [Hwf Hc Hp] Hh Hb. split; [by apply wf_update_l2| |]; rewrite update_l2_eq; case_decide; try done.
  pose proof (wf_known_cost u Hwf). pose proof (wf_bytes u Hwf). pose proof (wf_cost_per_byte u Hwf).
  unfold projected in *.
  change (saturating_add u128 (V1.projected_total_da_cost u) (saturating_mul u128 bytes (V1.latest_da_cost_per_byte u)) =
    saturating_add u128 (V1.latest_known_total_da_cost u)
      (saturating_mul u128 (saturating_add u128 (V1.unrecorded_blocks_bytes u) bytes) (V1.latest_da_cost_per_byte u))).
  rewrite Hp. unfold in_range in *. cbn [u128 unsigned int_min] in *. apply saturating_cost; lia.
Qed.

(** The height of a block, and the failure of a block out of order *)
Lemma l2_height u (m : gmap Z Z) height used capacity bytes fee :
  V1.l2_block_height (V1.update_l2_block_data height used capacity bytes fee (u, m)).2.1 =
  if decide (height ≠ saturating_add u32 (V1.l2_block_height u) 1) then V1.l2_block_height u else height.
Proof. rewrite update_l2_eq. case_decide; reflexivity. Qed.
Lemma l2_known_cost u (m : gmap Z Z) height used capacity bytes fee :
  V1.latest_known_total_da_cost (V1.update_l2_block_data height used capacity bytes fee (u, m)).2.1 = V1.latest_known_total_da_cost u.
Proof. rewrite update_l2_eq. case_decide; reflexivity. Qed.
Lemma l2_result u (m : gmap Z Z) height used capacity bytes fee :
  let r := V1.update_l2_block_data height used capacity bytes fee (u, m) in
  (is_ok r.1 = true ∧ height = saturating_add u32 (V1.l2_block_height u) 1) ∨
  (is_ok r.1 = false ∧ height ≠ saturating_add u32 (V1.l2_block_height u) 1 ∧ r.2 = (u, m)).
Proof.
  rewrite update_l2_eq. case_decide as Hd; [by right|]. left. split; [reflexivity|]. exact Hd.
Qed.

Lemma remove_heights_ok hs : ∀ total (m : gmap Z Z), ∃ t m', V1.remove_heights hs total m = (Ok t, m').
Proof. induction hs as [|h hs IH]; intros total m; [by eexists _, _|]. cbn. destruct (m !! h); apply IH. Qed.

(** ** The costs of the buffer *)
(** A bundle that the updater cannot record: the cost of a byte is not defined *)
Definition empty_bundle (c : DaBlockCosts) : Prop :=
  (l2_blocks c).1 ≤ (l2_blocks c).2 ∧ checked_div u128 (blob_cost_wei c) (bundle_size_bytes c) = None.
#[export] Instance empty_bundle_dec c : Decision (empty_bundle c).
Proof. unfold empty_bundle. apply _. Defined.

Lemma zero_size_is_empty c : (l2_blocks c).1 ≤ (l2_blocks c).2 → bundle_size_bytes c = 0 → empty_bundle c.
Proof. intros H Hs. split; [done|]. rewrite Hs. reflexivity. Qed.

(** What a step of the loop over the buffer keeps *)
Record kept (ok : bool) (u u' : Updater) : Prop := {
  kept_height : V1.l2_block_height u' = V1.l2_block_height u;
  kept_wf : wf u → wf u';
  kept_configured : ∀ config, configured config u → configured config u';
  kept_projected : ok = true → projected u → projected u'
}.
Lemma kept_trans ok u1 u2 u3 : kept true u1 u2 → kept ok u2 u3 → kept ok u1 u3.
Proof. intros [] []. split; [congruence|auto..]. Qed.

Lemma record_data_eq u (m : gmap Z Z) c :
  ∃ u' m', V1.update_da_record_data (l2_blocks c) (bundle_size_bytes c) (blob_cost_wei c) (u, m) =
    ((if decide (empty_bundle c) then Err (V1.CouldNotCalculateCostPerByte (bundle_size_bytes c) (blob_cost_wei c)) else Ok ()), (u', m')) ∧
    kept (bool_decide (¬ empty_bundle c)) u u' ∧
    ((l2_blocks c).1 ≤ (l2_blocks c).2 →
     V1.latest_known_total_da_cost u' = saturating_add u128 (V1.latest_known_total_da_cost u) (blob_cost_wei c)).
Proof.
  pose proof (wf_update_da u m (l2_blocks c) (bundle_size_bytes c) (blob_cost_wei c)) as Hwf. revert Hwf.
  unfold V1.update_da_record_data, V1.da_block_update, V1.update_unrecorded_block_bytes.
  case_decide as Hr.
  2:{ intros _. exists u, m. rewrite decide_False by (unfold empty_bundle; tauto). split_and!; [done| |lia].
      split; auto. }
  destruct (remove_heights_ok (V1.range_heights (l2_blocks c)) 0 m) as (t & m' & ->).
  destruct (checked_div u128 _ _) as [q|] eqn:Hq; cbn [fst snd]; intros Hwf; eexists _, _.
  - rewrite decide_False by (unfold empty_bundle; rewrite Hq; naive_solver).
    split; [reflexivity|]. split; [|intros _; reflexivity]. split; [reflexivity|exact Hwf|intros config Hc; exact Hc|].
    intros _ _. reflexivity.
  - assert (empty_bundle c) as He by done. rewrite decide_True by done.
    split; [reflexivity|]. split; [|intros _; reflexivity]. split; [reflexivity|exact Hwf|intros config Hc; exact Hc|].
    rewrite bool_decide_eq_false_2 by tauto. discriminate.
Qed.

Lemma costs_keep costs : ∀ rh u m,
  let '(r, (u', _)) := apply_da_costs costs rh (u, m) in kept (is_ok r) u u'.
Proof.
  induction costs as [|c costs IH]; intros rh u m; cbn [apply_da_costs]; [by split|].
  destruct (record_data_eq u m c) as (u1 & m1 & -> & Hk & _).
  case_decide as He.
  - rewrite bool_decide_eq_false_2 in Hk by tauto. exact Hk.
  - rewrite bool_decide_eq_true_2 in Hk by done. specialize (IH (Some (l2_blocks c).2) u1 m1).
    destruct (apply_da_costs _ _ _) as [r [u2 m2]]. by eapply kept_trans.
Qed.

Lemma costs_result costs : ∀ rh s, is_ok (apply_da_costs costs rh s).1 = true ↔ ¬ Exists empty_bundle costs.
Proof.
  induction costs as [|c costs IH]; intros rh [u m]; cbn [apply_da_costs]; [rewrite Exists_nil; cbn; tauto|].
  rewrite Exists_cons. destruct (record_data_eq u m c) as (u1 & m1 & -> & _). case_decide as Hd; [cbn; naive_solver|].
  rewrite IH. tauto.
Qed.

(** The end of the last bundle *)
Definition recorded_after (rh : option Z) (costs : list DaBlockCosts) : option Z :=
  match last costs with Some c => Some (l2_blocks c).2 | None => rh end.
Definition total_cost (costs : list DaBlockCosts) : Z := foldr (λ c acc, blob_cost_wei c + acc) 0 costs.
Definition good_bundle (c : DaBlockCosts) : Prop :=
  (l2_blocks c).1 ≤ (l2_blocks c).2 ∧ 0 < bundle_size_bytes c ∧ 0 ≤ blob_cost_wei c.

Lemma total_cost_app l k : total_cost (l ++ k) = total_cost l + total_cost k.
Proof. induction l as [|c l IH]; cbn; [done|]. unfold total_cost in *. rewrite IH. lia. Qed.
Lemma total_cost_nonneg l : Forall good_bundle l → 0 ≤ total_cost l.
Proof. induction 1 as [|c l (_ & _ & ?) _ IH]; cbn; [done|]. unfold total_cost in IH. lia. Qed.

Lemma good_not_empty c : good_bundle c → blob_cost_wei c ≤ int_max u128 → ¬ empty_bundle c.
Proof.
  intros (Hr & Hs & Hc) Hm [_ Hd]. unfold checked_div in Hd. rewrite decide_False in Hd by lia.
  apply fit_None in Hd. destruct Hd. rewrite Z.quot_div_nonneg by lia. split; [apply Z.div_pos; lia|].
  etransitivity; [apply Z.div_le_upper_bound with (q := blob_cost_wei c); nia|done].
Qed.

Lemma costs_good costs : ∀ rh u m,
  Forall good_bundle costs → 0 ≤ V1.latest_known_total_da_cost u →
  V1.latest_known_total_da_cost u + total_cost costs ≤ int_max u128 →
  ∃ u' m', apply_da_costs costs rh (u, m) = (Ok (recorded_after rh costs), (u', m')) ∧
    V1.latest_known_total_da_cost u' = V1.latest_known_total_da_cost u + total_cost costs.
Proof.
  induction costs as [|c costs IH]; intros rh u m Hg Hu Hb.
  { exists u, m. split; [done|]. cbn. lia. }
  apply Forall_cons in Hg as [Hc Hg]. pose proof (total_cost_nonneg _ Hg). cbn [total_cost foldr] in Hb. fold (total_cost costs) in Hb.
  cbn [apply_da_costs]. destruct (record_data_eq u m c) as (u1 & m1 & -> & _ & Hk). pose proof Hc as (Hr & _ & Hc0).
  rewrite decide_False by (apply good_not_empty; [done|lia]).
  unfold saturating_add in Hk. rewrite (clamp_id u128) in Hk by (unfold in_range; cbn [u128 unsigned int_min] in *; lia). specialize (Hk Hr).
  destruct (IH (Some (l2_blocks c).2) u1 m1) as (u' & m' & -> & Hk'); [done|lia..|].
  exists u', m'. split; [|cbn [total_cost foldr]; fold (total_cost costs); lia].
  f_equal. unfold recorded_after. rewrite last_cons. by destruct (last costs).
Qed.

(** ** The outcome of a block *)
(** The height that the first block of a database records *)
Definition first_recorded (s : GasPriceService) : option Z :=
  match db_recorded_height (storage_tx_provider s) with Some _ => None | None => initial_recorded_height s end.
Definition costs_applied (s : GasPriceService) : result V1.Error (option Z) * (Updater * gmap Z Z) :=
  apply_da_costs (da_block_costs_buffer s) (first_recorded s) (algorithm_updater s, db_unrecorded (storage_tx_provider s)).
(** The database after a block that the updater took *)
Definition stored_db (rh : option Z) (u : Updater) (m : gmap Z Z) (db : GasPriceDb) : GasPriceDb :=
  MkGasPriceDb (<[V1.l2_block_height u := MetadataV1 (metadata_of u)]> (db_metadata db)) m
    (match rh with Some h => Some h | None => db_recorded_height db end) (Some (V1.l2_block_height u)).
(** The two services agree on what a failed block leaves *)
Record same_store (s s' : GasPriceService) : Prop := {
  ss_storage : storage_tx_provider s' = storage_tx_provider s;
  ss_shared : shared_algo s' = shared_algo s;
  ss_buffer : da_block_costs_buffer s' = da_block_costs_buffer s
}.
Lemma same_store_refl s : same_store s s.
Proof. done. Qed.
Definition block_taken (s : GasPriceService) (height gas_used capacity bytes fees : Z) (rh : option Z) (u : Updater) (m : gmap Z Z) : Prop :=
  ∃ u1 m1, costs_applied s = (Ok rh, (u1, m1)) ∧ height = saturating_add u32 (V1.l2_block_height u1) 1 ∧
    V1.update_l2_block_data height gas_used capacity bytes (saturating_mul u128 fees 1000000000) (u1, m1) = (Ok (), (u, m)).

Lemma taken_height s height gas_used capacity bytes fees rh u m :
  block_taken s height gas_used capacity bytes fees rh u m → V1.l2_block_height u = height.
Proof.
  intros (u1 & m1 & _ & Hh & Hl). pose proof (l2_height u1 m1 height gas_used capacity bytes (saturating_mul u128 fees 1000000000)) as H.
  rewrite Hl, decide_False in H by tauto. exact H.
Qed.

Lemma link_one prev h :
  is_ok (link_heights prev [h]) = true → link_heights prev [h] = Ok (Some h) ∧ ∀ d, prev = Some d → h = d + 1.
Proof.
  unfold link_heights. rewrite decide_False by (cbn; lia). cbn [last]. destruct prev as [d|]; [|done].
  unfold checked_add. destruct (fit u32 (d + 1)) as [x|] eqn:Hf; [|done]. apply fit_Some in Hf as [<- _].
  cbn [ok_or mbind result_bind]. case_decide; [|done]. intros _. split; [done|]. intros ? [= <-]. done.
Qed.
Lemma commit_eq stored rh u m db :
  commit_transaction stored
    (set_metadata (MetadataV1 (metadata_of u))
       (set_unrecorded m match rh with Some h => set_recorded_height h (begin_transaction db) | None => begin_transaction db end)) =
  match link_heights (db_height db) [V1.l2_block_height u] with
  | Err e => Err (CouldNotCommit (Some e))
  | Ok _ => if stored then Ok (stored_db rh u m db) else Err (CouldNotCommit None)
  end.
Proof.
  unfold commit_transaction, stored_db.
  set (tx := set_metadata _ _). assert (tx_heights tx = [V1.l2_block_height u]) as -> by (by destruct rh).
  assert (db_height (tx_db tx) = db_height db) as -> by (by destruct rh).
  pose proof (link_one (db_height db) (V1.l2_block_height u)) as Hl.
  destruct (link_heights _ _) as [o|e]; [|done]. destruct (Hl eq_refl) as [[= ->] _]. cbn. destruct stored; [|done].
  by destruct rh.
Qed.

Lemma handle_cases read_ok stored height gas_used capacity bytes fees price s :
  match handle_normal_block read_ok stored height gas_used capacity bytes fees price s with
  | (Ok _, s') =>
      ∃ rh u m, block_taken s height gas_used capacity bytes fees rh u m ∧ is_ok (link_heights (db_height (storage_tx_provider s)) [height]) = true ∧
        storage_tx_provider s' = stored_db rh u m (storage_tx_provider s) ∧ algorithm_updater s' = u ∧ shared_algo s' = V1.algorithm u ∧
        da_block_costs_buffer s' = []
  | (Err e, s') =>
      same_store s s' ∧
      (algorithm_updater s' = algorithm_updater s ∧ (∀ x, e ≠ CouldNotCommit x) ∨
       algorithm_updater s' = (costs_applied s).2.1 ∧ (∀ x, e ≠ CouldNotCommit x) ∧
         (is_ok (costs_applied s).1 = false ∨ height ≠ saturating_add u32 (V1.l2_block_height (algorithm_updater s')) 1) ∨
       ∃ rh m, block_taken s height gas_used capacity bytes fees rh (algorithm_updater s') m)
  end.
Proof.
  unfold handle_normal_block. case_decide; [by split; [|left]|]. destruct read_ok; cbn [negb]; [|by split; [|left]].
  set (s1 := match db_recorded_height _ with Some _ => _ | None => _ end).
  assert (∃ i, s1 = (first_recorded s, MkGasPriceService (shared_algo s) (latest_gas_price s) (algorithm_updater s) (da_block_costs_buffer s)
    (storage_tx_provider s) (latest_l2_block s) i)) as [i ->].
  { subst s1. unfold first_recorded. cbn. destruct s, (db_recorded_height _); by eexists. }
  cbn [da_block_costs_buffer algorithm_updater]. change (tx_db (begin_transaction ?d)) with d.
  fold (costs_applied s). destruct (costs_applied s) as [[rh|e] [u1 m1]] eqn:Hc.
  2:{ split; [done|]. right; left. split_and!; [done..|by left]. }
  destruct (V1.update_l2_block_data _ _ _ _ _ _) as [[[]|e] [u m]] eqn:Hl.
  all: pose proof (l2_result u1 m1 height gas_used capacity bytes (saturating_mul u128 fees 1000000000)) as Hr.
  all: rewrite Hl in Hr; cbn in Hr; destruct Hr as [[Hr Hh]|(Hr & Hh & Hs)]; try discriminate.
  2:{ injection Hs as -> ->. split; [done|]. right; left. split_and!; [done..|by right]. }
  assert (block_taken s height gas_used capacity bytes fees rh u m) as Ht by (by exists u1, m1).
  rewrite commit_eq, (taken_height _ _ _ _ _ _ _ _ _ Ht).
  destruct (link_heights _ _) as [o|e] eqn:Hk; [destruct stored|].
  - exists rh, u, m. split; [done|]. done.
  - split; [done|]. right; right. by exists rh, m.
  - split; [done|]. right; right. by exists rh, m.
Qed.

(** ** Restart *)
Definition typed_block (b : BlockInfo) : Prop :=
  match b with GenesisBlock => True | BlockOf height _ _ block_bytes _ _ => in_range u32 height ∧ 0 ≤ block_bytes end.
Definition typed_input (i : ServiceInput) : Prop :=
  match i with InputBlock _ _ (Ok b) => typed_block b | _ => True end.
Definition run_inputs (inputs : list ServiceInput) (s : GasPriceService) : GasPriceService := foldl (λ s i, run_service i s) s inputs.
(** The updater can be restored, or a bundle of the buffer keeps it from storing anything. *)
Definition recoverable (config : V1AlgorithmConfig) (s : GasPriceService) : Prop :=
  restorable config (algorithm_updater s) ∨ Exists empty_bundle (da_block_costs_buffer s).

Lemma applied_kept s : kept (is_ok (costs_applied s).1) (algorithm_updater s) (costs_applied s).2.1.
Proof.
  pose proof (costs_keep (da_block_costs_buffer s) (first_recorded s) (algorithm_updater s) (db_unrecorded (storage_tx_provider s))) as H.
  fold (costs_applied s) in H. by destruct (costs_applied s) as [r [u m]].
Qed.
Lemma kept_restorable config u u' : kept true u u' → restorable config u → restorable config u'.
Proof. intros [_ Hw Hc Hp] []. split; auto. Qed.
Lemma taken_restorable config s height gas_used capacity bytes fees rh u m :
  restorable config (algorithm_updater s) → in_range u32 height → 0 ≤ bytes →
  block_taken s height gas_used capacity bytes fees rh u m → restorable config u.
Proof.
  intros Hs Hh Hb (u1 & m1 & Hc & _ & Hl). pose proof (applied_kept s) as Hk. rewrite Hc in Hk.
  apply (kept_restorable _ _ _ Hk) in Hs. cbn [fst snd] in Hs.
  pose proof (restorable_l2 config u1 m1 height gas_used capacity bytes (saturating_mul u128 fees 1000000000) Hs Hh Hb) as H.
  by rewrite Hl in H.
Qed.
Lemma applied_ok s : is_ok (costs_applied s).1 = true ↔ ¬ Exists empty_bundle (da_block_costs_buffer s).
Proof. apply costs_result. Qed.
Lemma taken_no_empty s height gas_used capacity bytes fees rh u m :
  block_taken s height gas_used capacity bytes fees rh u m → ¬ Exists empty_bundle (da_block_costs_buffer s).
Proof. intros (u1 & m1 & Hc & _). apply applied_ok. by rewrite Hc. Qed.

Lemma normal_block_recoverable config read_ok stored height gas_used capacity bytes fees price s :
  recoverable config s → in_range u32 height → 0 ≤ bytes →
  recoverable config (handle_normal_block read_ok stored height gas_used capacity bytes fees price s).2.
Proof.
  intros Hr Hh Hb. pose proof (handle_cases read_ok stored height gas_used capacity bytes fees price s) as Hc.
  destruct (handle_normal_block _ _ _ _ _ _ _ _ s) as [[[]|e] s']; cbn [snd].
  - destruct Hc as (rh & u & m & Ht & _ & _ & Hu & _). destruct Hr as [Hr|He]; [|by apply taken_no_empty in Ht].
    left. rewrite Hu. by eapply taken_restorable.
  - destruct Hc as [[_ _ Hbuf] Hu]. destruct (decide (Exists empty_bundle (da_block_costs_buffer s))) as [He|He]; [right; by rewrite Hbuf|].
    destruct Hr as [Hr|]; [left|done]. pose proof (applied_kept s) as Hk. rewrite (proj2 (applied_ok s) He) in Hk.
    destruct Hu as [[-> _]|[[-> _]|(rh & m & Ht)]]; [done|by eapply kept_restorable|by eapply taken_restorable].
Qed.

Lemma recoverable_step config i s : recoverable config s → typed_input i → recoverable config (run_service i s).
Proof.
  intros Hr Hi. destruct i as [read_ok stored [b|e]|[c|]]; [|exact Hr| |exact Hr].
  - cbn [run_service]. unfold commit_block_data_to_algorithm, apply_block_info_to_gas_algorithm.
    destruct b as [|height gas_used capacity bytes fees price]; cbn [update_latest_gas_price].
    + destruct (commit_transaction _ _); exact Hr.
    + destruct Hi as [Hh Hb].
      pose proof (normal_block_recoverable config read_ok stored height gas_used capacity bytes fees price
        (update_latest_gas_price (BlockOf height gas_used capacity bytes fees price) s) Hr Hh Hb) as H.
      cbn [update_latest_gas_price] in H. destruct (handle_normal_block _ _ _ _ _ _ _ _ _) as [[[]|e] s']; exact H.
  - destruct Hr as [Hr|He]; [by left|right]. cbn. apply Exists_app. by left.
Qed.
Lemma recoverable_run config inputs : ∀ s,
  recoverable config s → Forall typed_input inputs → recoverable config (run_inputs inputs s).
Proof.
  induction inputs as [|i inputs IH]; intros s Hr Hi; [done|]. apply Forall_cons in Hi as [? ?]. apply IH; [|done].
  by apply recoverable_step.
Qed.
Definition typed_activity (config : V1AlgorithmConfig) : Prop :=
  0 ≤ cf_normal_range_size config ∧ 0 ≤ cf_capped_range_size config ∧ in_range u16 (cf_decrease_range_size config).
Lemma reset_restorable config u : typed_activity config → restorable config u → restorable config (reset_activity config u).
Proof.
  intros (Hn & Hc & Hd) [[] ? ?]. split; [|done..]. constructor; try done. constructor; cbn; int_lia.
Qed.

(** C31 After any inputs, once a block is stored, the service that starts from the
    database has the same updater, apart from the activity of the chain, which
    starts again from the configuration, and the same algorithm is shared. *)
Theorem restart_restores_updater config s inputs read_ok stored height gas_used capacity bytes fees price latest s' :
  restorable config (algorithm_updater s) → typed_activity config → Forall typed_input inputs →
  typed_block (BlockOf height gas_used capacity bytes fees price) →
  commit_block_data_to_algorithm read_ok stored (Ok (BlockOf height gas_used capacity bytes fees price)) (run_inputs inputs s) = (Ok (), s') →
  db_height (storage_tx_provider s') = Some height ∧
  initialize_algorithm config height latest (storage_tx_provider s') =
    (reset_activity config (algorithm_updater s'), shared_algo s') ∧
  restorable config (reset_activity config (algorithm_updater s')).
Proof.
  intros Hr Ha Hi [Hh Hb]. pose proof (recoverable_run config inputs s (or_introl Hr) Hi) as Hs.
  generalize dependent (run_inputs inputs s). clear s Hr Hi. intros s Hs.
  unfold commit_block_data_to_algorithm, apply_block_info_to_gas_algorithm. cbn [update_latest_gas_price].
  set (s1 := MkGasPriceService _ _ _ _ _ _ _). change (recoverable config s1) in Hs.
  pose proof (handle_cases read_ok stored height gas_used capacity bytes fees price s1) as Hc.
  destruct (handle_normal_block _ _ _ _ _ _ _ _ s1) as [[[]|e] s2]; [|done]. intros [= <-].
  destruct Hc as (rh & u & m & Ht & _ & Hst & Hu & Halgo & _). destruct Hs as [Hs|Hs]; [|by apply taken_no_empty in Ht].
  pose proof (taken_restorable _ _ _ _ _ _ _ _ _ _ Hs Hh Hb Ht) as Hru. pose proof (taken_height _ _ _ _ _ _ _ _ _ Ht) as Hhu.
  cbn [storage_tx_provider notify_da_source_service_l2_block algorithm_updater shared_algo]. rewrite Hst, Hu, Halgo.
  split_and!; [by cbn; rewrite Hhu| |by apply reset_restorable].
  unfold initialize_algorithm, stored_db. cbn [db_metadata]. rewrite Hhu, lookup_insert_eq. cbn [convert_to_v1_metadata].
  by rewrite (restored_updater config u Hru).
Qed.

(** ** Failures that last *)
Definition no_genesis (i : ServiceInput) : Prop :=
  match i with InputBlock _ _ (Ok GenesisBlock) => False | _ => True end.
Inductive stalled (s : GasPriceService) : Prop :=
| stalled_ahead d :
    db_height (storage_tx_provider s) = Some d → d + 1 < int_max u32 →
    d < V1.l2_block_height (algorithm_updater s) ≤ int_max u32 → stalled s
| stalled_bundle : Exists empty_bundle (da_block_costs_buffer s) → stalled s.

Lemma taken_next s height gas_used capacity bytes fees rh u m :
  block_taken s height gas_used capacity bytes fees rh u m →
  height = saturating_add u32 (V1.l2_block_height (algorithm_updater s)) 1.
Proof.
  intros (u1 & m1 & Hc & -> & _). pose proof (kept_height _ _ _ (applied_kept s)) as H. rewrite Hc in H.
  cbn [fst snd] in H. by rewrite H.
Qed.

Lemma stalled_block read_ok stored height gas_used capacity bytes fees price s :
  stalled s →
  let r := handle_normal_block read_ok stored height gas_used capacity bytes fees price s in
  is_ok r.1 = false ∧ stalled r.2 ∧ same_store s r.2.
Proof.
  intros Hs. pose proof (handle_cases read_ok stored height gas_used capacity bytes fees price s) as Hc. cbn zeta.
  destruct (handle_normal_block _ _ _ _ _ _ _ _ s) as [[[]|e] s']; cbn [fst snd].
  - exfalso. destruct Hc as (rh & u & m & Ht & Hl & _). destruct Hs as [d Hd Hm Hu|He]; [|by apply taken_no_empty in Ht].
    apply taken_next in Ht. apply link_one in Hl as [_ Hl]. specialize (Hl d Hd). subst height. revert Hl. revert Hm Hu. int_lia.
  - destruct Hc as [Hss Hu]. split_and!; [done| |done]. destruct Hs as [d Hd Hm Hdu|He].
    2:{ apply stalled_bundle. by rewrite (ss_buffer _ _ Hss). }
    apply (stalled_ahead _ d); [by rewrite (ss_storage _ _ Hss)|done|].
    destruct Hu as [[-> _]|[(-> & _)|(rh & m & Ht)]]; [done|by rewrite (kept_height _ _ _ (applied_kept s))|].
    rewrite (taken_height _ _ _ _ _ _ _ _ _ Ht), (taken_next _ _ _ _ _ _ _ _ _ Ht). revert Hm Hdu. int_lia.
Qed.

Lemma stalled_step i s :
  no_genesis i → stalled s →
  stalled (run_service i s) ∧ storage_tx_provider (run_service i s) = storage_tx_provider s ∧ shared_algo (run_service i s) = shared_algo s.
Proof.
  intros Hi Hs. destruct i as [read_ok stored [[|height gas_used capacity bytes fees price]|e]|[c|]]; try done.
  - cbn [run_service]. unfold commit_block_data_to_algorithm, apply_block_info_to_gas_algorithm. cbn [update_latest_gas_price].
    set (s1 := MkGasPriceService _ _ _ _ _ _ _). assert (stalled s1) as Hs1 by (destruct Hs; econstructor; done).
    destruct (stalled_block read_ok stored height gas_used capacity bytes fees price s1 Hs1) as (Hr & Hs' & [Hst Hsh _]).
    destruct (handle_normal_block _ _ _ _ _ _ _ _ s1) as [[[]|e] s']; done.
  - cbn [run_service]. split_and!; [|done..]. destruct Hs as [d Hd Hm Hu|He]; [by apply (stalled_ahead _ d)|].
    apply stalled_bundle. apply Exists_app. by left.
Qed.

Lemma stalled_run inputs : ∀ s,
  stalled s → Forall no_genesis inputs →
  storage_tx_provider (run_inputs inputs s) = storage_tx_provider s ∧ shared_algo (run_inputs inputs s) = shared_algo s.
Proof.
  induction inputs as [|i inputs IH]; intros s Hs Hi; [done|]. apply Forall_cons in Hi as [Hi Hi'].
  destruct (stalled_step i s Hi Hs) as (Hs' & <- & <-). by apply IH.
Qed.

(** A commit that fails, or a bundle without bytes *)
Inductive stall_event (s : GasPriceService) : GasPriceService → Prop :=
| failed_commit d read_ok stored height gas_used capacity bytes fees price e s' :
    db_height (storage_tx_provider s) = Some d → d ≤ V1.l2_block_height (algorithm_updater s) →
    in_range u32 (V1.l2_block_height (algorithm_updater s)) → V1.l2_block_height (algorithm_updater s) + 1 < int_max u32 →
    commit_block_data_to_algorithm read_ok stored (Ok (BlockOf height gas_used capacity bytes fees price)) s = (Err (CouldNotCommit e), s') →
    stall_event s s'
| unusable_bundle c :
    (l2_blocks c).1 ≤ (l2_blocks c).2 → bundle_size_bytes c = 0 → stall_event s (run_service (InputCosts (Some c)) s).

(** C34 A commit that fails once, or one bundle of costs that has no bytes, stops
    the service until it is started again: whatever blocks after the genesis
    block and whatever costs follow, and even when the storage works again,
    nothing is stored and the shared algorithm stays.  For the failed commit, the
    database has stored a block before, none above the height of the updater,
    which is not among the last two of 32 bits; with an empty database the next
    block would be stored. *)
Theorem stalled_service_never_updates s s' inputs :
  stall_event s s' → Forall no_genesis inputs →
  storage_tx_provider (run_inputs inputs s') = storage_tx_provider s ∧ shared_algo (run_inputs inputs s') = shared_algo s.
Proof.
  intros [d read_ok stored height gas_used capacity bytes fees price e s2 Hd Hdu Hr Hm Hc|c Hc Hz] Hi.
  - revert Hc. unfold commit_block_data_to_algorithm, apply_block_info_to_gas_algorithm. cbn [update_latest_gas_price].
    set (s1 := MkGasPriceService _ _ _ _ _ _ _).
    pose proof (handle_cases read_ok stored height gas_used capacity bytes fees price s1) as Hcs.
    destruct (handle_normal_block _ _ _ _ _ _ _ _ s1) as [[[]|e'] s3]; [done|]. intros [= -> ->].
    destruct Hcs as [[Hst Hsh _] [[_ He]|[(_ & He & _)|(rh & m & Ht)]]]; [by destruct (He e)..|].
    change (storage_tx_provider s) with (storage_tx_provider s1). change (shared_algo s) with (shared_algo s1).
    rewrite <- Hst, <- Hsh. apply stalled_run; [|done].
    eapply stalled_ahead; [rewrite Hst; exact Hd|cbn [algorithm_updater s1] in *; lia|].
    rewrite (taken_height _ _ _ _ _ _ _ _ _ Ht), (taken_next _ _ _ _ _ _ _ _ _ Ht). cbn [algorithm_updater s1].
    revert Hr Hm Hdu. int_lia.
  - apply (stalled_run inputs (run_service (InputCosts (Some c)) s)); [|done].
    apply stalled_bundle. apply Exists_app. right. apply Exists_cons_hd. by apply zero_size_is_empty.
Qed.

(** ** Synchronisation with the on-chain blocks *)
Section resync.
Context (block_bytes : Block Transaction → Z) (settings : Z → result GasPriceError GasPriceSettings) (genesis : Z) (view : L2View).

Definition block_at (h : Z) : option (Block Transaction) := match view_get_block view h with Ok o => o | Err _ => None end.
(** The live input of the block at a height *)
Definition live_input (h : Z) : ServiceInput := InputBlock true true (get_l2_block block_bytes settings genesis (block_at h)).
Definition block_fits (h : Z) : Prop :=
  ∀ b, block_at h = Some b → block_height b = h ∧ genesis < h ∧
    ∀ fee price, mint_values b = Ok (fee, price) → 0 ≤ fee ∧ fee * 1000000000 ≤ int_max u64.
(** The height up to which costs are recorded, in the database or as the
    service will store it with its next block *)
Definition recorded_next (s : GasPriceService) : option Z :=
  match db_recorded_height (storage_tx_provider s) with Some r => Some r | None => initial_recorded_height s end.
(** A service that waits for blocks with an empty buffer of costs; its database
    is [db], but may have another recorded height *)
Record idle (u : Updater) (db : GasPriceDb) (s : GasPriceService) : Prop := {
  idle_updater : algorithm_updater s = u;
  idle_storage : storage_tx_provider s = db <| db_recorded_height := db_recorded_height (storage_tx_provider s) |>;
  idle_buffer : da_block_costs_buffer s = []
}.

Lemma wei_widths fee : 0 ≤ fee → fee * 1000000000 ≤ int_max u64 → saturating_mul u128 fee 1000000000 = saturating_mul u64 fee 1000000000.
Proof. intros. unfold saturating_mul. rewrite !clamp_id; [done|int_lia..]. Qed.

(** A block that such a service takes *)
Lemma idle_block (db : GasPriceDb) s height gas_used capacity bytes fees price u m :
  capacity ≠ 0 → da_block_costs_buffer s = [] →
  storage_tx_provider s = db <| db_recorded_height := db_recorded_height (storage_tx_provider s) |> →
  V1.update_l2_block_data height gas_used capacity bytes (saturating_mul u128 fees 1000000000) (algorithm_updater s, db_unrecorded db)
    = (Ok (), (u, m)) →
  is_ok (link_heights (db_height db) [V1.l2_block_height u]) = true →
  handle_normal_block true true height gas_used capacity bytes fees price s =
    (Ok (), MkGasPriceService (V1.algorithm u) (latest_gas_price s) u [] (stored_db None u m db <| db_recorded_height := recorded_next s |>)
       (latest_l2_block s) (match db_recorded_height (storage_tx_provider s) with Some _ => initial_recorded_height s | None => None end)).
Proof.
  intros Hc Hb Hd Hu Hl. unfold handle_normal_block, recorded_next. rewrite decide_False by done. cbn [negb].
  change (tx_db (begin_transaction ?d)) with d. set (st := storage_tx_provider s) in *.
  assert (db_unrecorded st = db_unrecorded db) as Hun by (by rewrite Hd).
  assert (db_height st = db_height db) as Hht by (by rewrite Hd).
  assert (∀ rh, stored_db rh u m st = stored_db None u m db <| db_recorded_height := match rh with Some h => Some h | None => db_recorded_height st end |>)
    as Hst by (intros rh; unfold stored_db; by rewrite Hd).
  destruct (db_recorded_height st) as [r|] eqn:Hr; cbn [da_block_costs_buffer algorithm_updater]; rewrite Hb; cbn [apply_da_costs];
    rewrite Hun, Hu.
  - pose proof (commit_eq true None u m st) as Hk. cbn match in Hk. rewrite Hk, Hht. destruct (link_heights _ _); [|done]. by rewrite Hst.
  - pose proof (commit_eq true (initial_recorded_height s) u m st) as Hk. rewrite Hk, Hht. destruct (link_heights _ _); [|done].
    rewrite Hst. by destruct (initial_recorded_height s).
Qed.

Lemma sync_live_step h u db u' db' s :
  sync_block block_bytes settings true view h (u, db) = (Ok (), (u', db')) → block_fits h → idle u db s →
  let s' := run_service (live_input h) s in
  idle u' db' s' ∧ shared_algo s' = V1.algorithm u'
  ∧ db_recorded_height (storage_tx_provider s') = recorded_next s ∧ recorded_next s' = recorded_next s.
Proof.
  intros Hs Hf [Hu Hd Hb]. unfold sync_block in Hs. unfold live_input, block_fits, block_at in *.
  destruct (view_get_block view h) as [[b|]|e]; try done. destruct (Hf b eq_refl) as (Hh & Hg & Hm).
  cbn [mbind result_bind ok_or] in Hs. unfold get_l2_block. cbn [mbind result_bind ok_or].
  rewrite Hh, decide_False, decide_False by lia.
  destruct (settings _) as [[factor limit]|e]; cbn [mbind result_bind gs_block_gas_limit gs_gas_price_factor] in *; [|done].
  case_decide as Hl; cbn [mbind result_bind] in Hs; [done|]. unfold get_block_info in *.
  destruct (mint_values b) as [[fee price]|e]; cbn [mbind result_bind] in *; [|done].
  destruct (block_used_gas _ _ _ _) as [used|e]; cbn [mbind result_bind] in *; [|done].
  destruct (Hm fee price eq_refl) as [Hf0 Hf1]. rewrite <- wei_widths in Hs by done. rewrite Hh.
  change (db_unrecorded (tx_db (begin_transaction db))) with (db_unrecorded db) in Hs.
  destruct (V1.update_l2_block_data _ _ _ _ _ _) as [[[]|e] [u2 m2]] eqn:Hup; [|done].
  pose proof (commit_eq true None u2 m2 db) as Hk. cbn match in Hk. rewrite Hk in Hs.
  destruct (link_heights _ _) as [o|e] eqn:Hlink; [|done]. injection Hs as <- <-.
  cbn [run_service]. unfold commit_block_data_to_algorithm, apply_block_info_to_gas_algorithm, recorded_next. cbn [update_latest_gas_price].
  set (s1 := MkGasPriceService _ _ _ _ _ _ _).
  rewrite (idle_block db s1 _ _ _ _ _ _ u2 m2 Hl) by (subst s1; cbn [algorithm_updater]; rewrite ?Hu, ?Hlink; done).
  unfold recorded_next. subst s1. cbn.
  destruct (db_recorded_height (storage_tx_provider s)), (initial_recorded_height s); (split_and!; [split; reflexivity|reflexivity..]).
Qed.

Lemma resync_idle heights : ∀ u db u' db' s,
  sync_heights block_bytes settings (λ _, false) (λ _, true) view heights (u, db) = (Ok (), (u', db')) →
  Forall block_fits heights → idle u db s →
  let s' := run_inputs (live_input <$> heights) s in
  idle u' db' s'
  ∧ (heights ≠ [] → shared_algo s' = V1.algorithm u' ∧ db_recorded_height (storage_tx_provider s') = recorded_next s).
Proof.
  induction heights as [|h heights IH]; intros u db u' db' s Hs Hf Hi; [injection Hs as <- <-; by split|].
  apply Forall_cons in Hf as [Hf Hf']. cbn [sync_heights] in Hs.
  destruct (sync_block _ _ _ _ _ _) as [[[]|e] [u1 db1]] eqn:Hb; [|done].
  destruct (sync_live_step h u db u1 db1 s Hb Hf Hi) as (Hi1 & Ha & Hr & Hn).
  change (run_inputs (live_input <$> h :: heights) s) with (run_inputs (live_input <$> heights) (run_service (live_input h) s)).
  destruct (IH u1 db1 u' db' _ Hs Hf' Hi1) as [Hi2 Ha2]. split; [exact Hi2|]. intros _. rewrite <- Hn.
  destruct heights as [|h2 heights]; [|by apply Ha2]. injection Hs as <- <-. by rewrite Hn.
Qed.

(** C32 The blocks that a start takes from the on-chain database leave the updater
    and the database that the same blocks leave when they arrive one by one at a
    service with an empty buffer of costs, as long as no costs arrive, the
    blocks are above the genesis block and have the height they are stored at,
    and their fees in wei fit 64 bits.  The one difference is the height up to
    which costs are recorded: if the database has none, the first block that
    arrives stores the one that the service was started with, while a start
    stores none. *)
Theorem resync_matches_live heights u db u' db' s :
  sync_heights block_bytes settings (λ _, false) (λ _, true) view heights (u, db) = (Ok (), (u', db')) →
  Forall block_fits heights →
  algorithm_updater s = u → storage_tx_provider s = db → da_block_costs_buffer s = [] →
  let s' := run_inputs (live_input <$> heights) s in
  let recorded := match heights, db_recorded_height db with _ :: _, None => initial_recorded_height s | _, r => r end in
  algorithm_updater s' = u' ∧ storage_tx_provider s' = db' <| db_recorded_height := recorded |> ∧ da_block_costs_buffer s' = []
  ∧ (heights ≠ [] → shared_algo s' = V1.algorithm u').
Proof.
  intros Hs Hf Hu Hd Hb. assert (idle u db s) as Hi by (split; [done|rewrite Hd; by destruct db|done]).
  destruct (resync_idle heights u db u' db' s Hs Hf Hi) as ([Hu' Hd' Hb'] & Hr). split_and!; [done| |done|].
  - rewrite Hd'. f_equal. destruct heights as [|h heights]; [cbn; by rewrite Hd|]. destruct Hr as (_ & ->); [done|].
    unfold recorded_next. rewrite Hd. by destruct (db_recorded_height db).
  - intros Hne. by destruct Hr.
Qed.
End resync.
