(* ===== verification/GasPriceNode.v ===== *)
(** * The costs of the DA chain reach the updater once

    The service and the source of costs of a node, with restarts and failing
    commits: what the database says has been paid is the sum of the bundles up
    to the recorded height, each counted once. *)
From stdpp Require Import gmap strings.
From S2P Require Import Prelude GasPrice GasPriceFacts FuelTypes Importer GasPriceService GasPriceServiceFacts.

(** ** Bundles *)
(** The last L2 block of some bundles that follow [r] *)
Definition end_of (r : Z) (bundles : list DaBlockCosts) : Z := unwrap_or r (recorded_after None bundles).
Fixpoint follows (r : Z) (bundles : list DaBlockCosts) : Prop :=
  match bundles with
  | [] => True
  | c :: bundles => (l2_blocks c).1 = r + 1 ∧ good_bundle c ∧ follows (l2_blocks c).2 bundles
  end.

Lemma end_of_cons r c l : end_of r (c :: l) = end_of (l2_blocks c).2 l.
Proof. unfold end_of, recorded_after. rewrite last_cons. by destruct (last l). Qed.
Lemma end_of_app r l k : end_of r (l ++ k) = end_of (end_of r l) k.
Proof. revert r. induction l as [|c l IH]; intros r; [done|]. cbn [app]. by rewrite !end_of_cons, IH. Qed.
Lemma follows_app r l k : follows r (l ++ k) ↔ follows r l ∧ follows (end_of r l) k.
Proof.
  revert r. induction l as [|c l IH]; intros r; cbn [app follows]; [naive_solver|]. rewrite end_of_cons, IH. tauto.
Qed.
Lemma follows_good r l : follows r l → Forall good_bundle l.
Proof. revert r. induction l as [|c l IH]; intros r; [constructor|]. intros (_ & Hc & Hl). constructor; [done|]. by eapply IH. Qed.
Lemma follows_after r l : follows r l → Forall (λ c, r < (l2_blocks c).2) l.
Proof.
  revert r. induction l as [|c l IH]; intros r; [constructor|]. intros (Hs & Hc & Hl). destruct Hc as (? & _).
  constructor; [lia|]. apply IH in Hl. eapply Forall_impl; [exact Hl|]. cbn. lia.
Qed.

(** The costs below a height are a first part of the costs. *)
Lemma filter_prefix h l : ∀ r, follows r l → ∃ j, filter_costs h l = take j l.
Proof.
  induction l as [|c l IH]; intros r Hl; [by exists 0%nat|]. destruct Hl as (_ & _ & Hl). unfold filter_costs in *.
  rewrite filter_cons. case_decide as Hc.
  - destruct (IH _ Hl) as [j ->]. by exists (S j).
  - exists 0%nat. cbn. destruct (filter _ l) as [|x k] eqn:Hf; [done|]. exfalso.
    assert (x ∈ filter (λ c, (l2_blocks c).2 < h) l) as Hx by (rewrite Hf; left).
    apply list_elem_of_filter in Hx as [Hx1 Hx2]. apply follows_after in Hl. rewrite Forall_forall in Hl. specialize (Hl x Hx2). cbn in Hl. lia.
Qed.

(** Bundles sent into a channel that has room *)
Lemma send_costs_eq l : ∀ values r,
  follows r l → (length values + length l ≤ DA_BLOCK_COSTS_CHANNEL_SIZE)%nat →
  send_costs l (MkCostsChannel values false, r) = (MkCostsChannel (values ++ l) false, end_of r l).
Proof.
  induction l as [|c l IH]; intros values r Hl Hn; [by rewrite app_nil_r|]. pose proof Hl as (Hs & (Hc & _) & Hl').
  cbn [length] in Hn. unfold send_costs. cbn [foldl]. unfold channel_send. cbn [channel_values channel_lagged].
  rewrite decide_True by lia. rewrite decide_True by lia. fold (send_costs l).
  change (foldl _ ?s l) with (send_costs l s). rewrite IH; [|done|rewrite length_app; cbn [length]; lia].
  by rewrite end_of_cons, <- app_assoc.
Qed.

Section node.
Context (block_bytes : Block Transaction → Z) (settings : Z → result GasPriceError GasPriceSettings).
Context (config : V1AlgorithmConfig) (genesis_block_height : Z).
(** The bundles of the block committer, from the block after [r]; [base] is what
    was paid up to [r]. *)
Context (bundles : list DaBlockCosts) (r base : Z).

(** Asked for the block after a bundle, the committer answers with bundles that
    follow, as many as it chooses. *)
Definition honest_committer (client : Z → option (list RawDaBlockCosts)) : Prop :=
  ∀ pre post raws, bundles = pre ++ post → client (end_of r pre + 1) = Some raws → ∃ k, map costs_of_raw raws = take k post.

(** The cost that a database says has been paid *)
Definition stored_cost (db : GasPriceDb) : option Z :=
  d ← db_height db;
  md ← db_metadata db !! d;
  if decide (metadata_height md = d) then Some (md_latest_known_total_da_cost (convert_to_v1_metadata md config)) else None.
Definition paid_up_to (db : GasPriceDb) (paid : list DaBlockCosts) : Prop :=
  db_recorded_height db = Some (end_of r paid) ∧ stored_cost db = Some (base + total_cost paid) ∧
  ∀ d, db_height db = Some d → d ≤ int_max u32.

(** A block in order, or one that finds no costs in the buffer *)
Definition block_in_order (b : BlockInfo) (s : GasPriceService) : Prop :=
  match b with
  | GenesisBlock => False
  | BlockOf height _ _ _ _ _ =>
      height < int_max u32 ∧
      (da_block_costs_buffer s = [] ∨ height = saturating_add u32 (V1.l2_block_height (algorithm_updater s)) 1)
  end.
Fixpoint ready_in_order (ready : list (bool * bool * result GasPriceError BlockInfo)) (s : GasPriceService) : Prop :=
  match ready with
  | (read_ok, stored, Ok b) :: ready =>
      block_in_order b s ∧ ready_in_order ready (apply_block_info_to_gas_algorithm read_ok stored b s).2
  | _ => True
  end.
Definition admissible (i : NodeInput) (n : GasPriceNode) : Prop :=
  match i, n with
  | NodeBlock _ _ (Ok b), NodeRunning s _ _ => block_in_order b s
  | NodePoll client, NodeRunning _ channel _ =>
      honest_committer client ∧
      ∀ h raws, client h = Some raws → (length (channel_values channel) + length raws ≤ DA_BLOCK_COSTS_CHANNEL_SIZE)%nat
  | NodeStop ready, NodeRunning s _ _ => ready_in_order ready s
  | _, _ => True
  end.
Fixpoint admissible_run (inputs : list NodeInput) (n : GasPriceNode) : Prop :=
  match inputs with
  | [] => True
  | i :: inputs => admissible i n ∧ admissible_run inputs (node_step block_bytes settings config genesis_block_height i n)
  end.

Context (Hbundles : follows r bundles) (Hbase : 0 ≤ base) (Htotal : base + total_cost bundles ≤ int_max u128).

(** The updater agrees with the database, or it is ahead of it for good. *)
Record service_inv (paid : list DaBlockCosts) (s : GasPriceService) : Prop := {
  si_paid : paid_up_to (storage_tx_provider s) paid;
  si_updater :
    ∀ d, db_height (storage_tx_provider s) = Some d →
    V1.l2_block_height (algorithm_updater s) = d ∧ V1.latest_known_total_da_cost (algorithm_updater s) = base + total_cost paid ∨
    d < V1.l2_block_height (algorithm_updater s);
  si_range : V1.l2_block_height (algorithm_updater s) ≤ int_max u32
}.

Lemma paid_total paid rest : bundles = paid ++ rest → 0 ≤ total_cost paid ∧ 0 ≤ total_cost rest ∧ base + total_cost paid + total_cost rest ≤ int_max u128.
Proof.
  intros Hb. pose proof Hbundles as Hf. rewrite Hb in Hf. apply follows_app in Hf as [Hp Hr].
  apply follows_good, total_cost_nonneg in Hp, Hr. rewrite Hb, total_cost_app in Htotal. lia.
Qed.

Lemma paid_height db paid : paid_up_to db paid → ∃ d, db_height db = Some d.
Proof. intros (_ & Hs & _). unfold stored_cost in Hs. destruct (db_height db) as [d|]; [by exists d|done]. Qed.

(** A stored block *)
Lemma stored_paid paid buf u m db rh :
  paid_up_to db paid → rh = recorded_after None buf → V1.latest_known_total_da_cost u = base + total_cost (paid ++ buf) →
  V1.l2_block_height u ≤ int_max u32 →
  paid_up_to (stored_db rh u m db) (paid ++ buf).
Proof.
  intros (Hr & Hs & _) -> Hc Hh. split_and!; [| |by intros d [= <-]].
  - cbn [stored_db db_recorded_height]. rewrite Hr, end_of_app. generalize (end_of r paid). intros e.
    unfold end_of, recorded_after. by destruct (last buf).
  - unfold stored_cost, stored_db. cbn. rewrite lookup_insert_eq. cbn. rewrite decide_True by done. by rewrite Hc.
Qed.

Lemma costs_in_sync paid buf s :
  paid_up_to (storage_tx_provider s) paid → da_block_costs_buffer s = buf → (∃ rest, bundles = paid ++ buf ++ rest) →
  V1.latest_known_total_da_cost (algorithm_updater s) = base + total_cost paid →
  ∃ u m, costs_applied s = (Ok (recorded_after None buf), (u, m)) ∧ V1.latest_known_total_da_cost u = base + total_cost (paid ++ buf).
Proof.
  intros (Hr & _) Hb [rest Hbs] Hk. rewrite app_assoc in Hbs.
  pose proof Hbundles as Hf. rewrite Hbs in Hf. apply follows_app in Hf as [Hf _]. apply follows_app in Hf as [_ Hf].
  apply follows_good in Hf. destruct (paid_total _ _ Hbs) as (_ & Hp2 & Hp3). rewrite total_cost_app in Hp3.
  assert (0 ≤ total_cost paid) by (apply (paid_total paid (buf ++ rest)); by rewrite Hbs, app_assoc).
  destruct (costs_good buf None (algorithm_updater s) (db_unrecorded (storage_tx_provider s)) Hf) as (u & m & Ha & Hu); [lia..|].
  exists u, m. unfold costs_applied, first_recorded. rewrite Hr, Hb. split; [exact Ha|]. rewrite total_cost_app. lia.
Qed.

(** The services that agree on what the invariant is about *)
Definition same_state (s s' : GasPriceService) : Prop :=
  storage_tx_provider s' = storage_tx_provider s ∧ algorithm_updater s' = algorithm_updater s ∧ da_block_costs_buffer s' = da_block_costs_buffer s.
Lemma same_state_inv paid s s' : same_state s s' → service_inv paid s → service_inv paid s'.
Proof. intros (Hs & Hu & _) []. split; rewrite ?Hs, ?Hu; done. Qed.

Lemma updater_inv paid d s s' :
  paid_up_to (storage_tx_provider s) paid → db_height (storage_tx_provider s) = Some d → storage_tx_provider s' = storage_tx_provider s →
  (V1.l2_block_height (algorithm_updater s') = d ∧ V1.latest_known_total_da_cost (algorithm_updater s') = base + total_cost paid ∨
   d < V1.l2_block_height (algorithm_updater s')) ∧ V1.l2_block_height (algorithm_updater s') ≤ int_max u32 →
  service_inv paid s'.
Proof. intros Hp Hd Hs [Hu Hr]. split; [by rewrite Hs| |done]. rewrite Hs, Hd. by intros d' [= <-]. Qed.

Lemma block_inv paid read_ok stored b s :
  service_inv paid s → (∃ rest, bundles = paid ++ da_block_costs_buffer s ++ rest) → block_in_order b s →
  let s' := (apply_block_info_to_gas_algorithm read_ok stored b s).2 in
  (service_inv paid s' ∧ da_block_costs_buffer s' = da_block_costs_buffer s) ∨
  (service_inv (paid ++ da_block_costs_buffer s) s' ∧ da_block_costs_buffer s' = []).
Proof.
  intros [Hp Hu Hrg] Hb Ho. destruct b as [|height gas_used capacity bytes fees price]; [done|]. destruct Ho as [Hm Ho].
  cbn [apply_block_info_to_gas_algorithm]. destruct (paid_height _ _ Hp) as [d Hd]. specialize (Hu d Hd).
  pose proof (handle_cases read_ok stored height gas_used capacity bytes fees price s) as Hc.
  destruct (handle_normal_block _ _ _ _ _ _ _ _ s) as [[[]|e] s']; cbn [snd].
  - right. destruct Hc as (rh & u & m & Ht & Hl & Hst & Hu' & _ & Hbuf). split; [|done].
    pose proof (taken_height _ _ _ _ _ _ _ _ _ Ht) as Hh. pose proof (taken_next _ _ _ _ _ _ _ _ _ Ht) as Hn.
    apply link_one in Hl as [_ Hl]. specialize (Hl d Hd).
    destruct Hu as [[Hu1 Hu2]|Hu]; [|exfalso; revert Hm Hrg; subst height; revert Hn; int_lia].
    destruct (costs_in_sync paid _ s Hp eq_refl Hb Hu2) as (u1 & m1 & Ha & Hk). destruct Ht as (u1' & m1' & Ha' & _ & Hl2).
    rewrite Ha in Ha'. injection Ha' as <- <- <-.
    assert (V1.latest_known_total_da_cost u = V1.latest_known_total_da_cost u1) as Hku.
    { pose proof (l2_known_cost u1 m1 height gas_used capacity bytes (saturating_mul u128 fees 1000000000)) as H. by rewrite Hl2 in H. }
    rewrite Hk in Hku. split.
    + rewrite Hst. apply stored_paid; [done..|]. rewrite Hh. lia.
    + rewrite Hst, Hu'. cbn [stored_db db_height]. intros d' [= <-]. by left.
    + rewrite Hu', Hh. lia.
  - left. destruct Hc as [[Hst _ Hbuf] Hc]. split; [|done]. apply (updater_inv paid d s s'); [done..|].
    destruct Hc as [[-> _]|[(Hs' & _ & Hc)|(rh & m & Ht)]]; [by split| |].
    + pose proof (kept_height _ _ _ (applied_kept s)) as Hk. rewrite Hs' in Hc |- *. rewrite Hk in Hc |- *. split; [|done].
      destruct Hu as [[Hu1 Hu2]|Hu]; [left|by right]. split; [done|].
      destruct (costs_in_sync paid _ s Hp eq_refl Hb Hu2) as (u1 & m1 & Ha & Hk1). rewrite Ha in Hc |- *.
      destruct Hc as [|Hc]; [done|]. destruct Ho as [Ho|]; [|done]. rewrite Ho, app_nil_r in Hk1. exact Hk1.
    + rewrite (taken_height _ _ _ _ _ _ _ _ _ Ht). pose proof (taken_next _ _ _ _ _ _ _ _ _ Ht) as Hn.
      split; [right|lia]. revert Hn Hm. destruct Hu as [[<- _]|Hu]; int_lia.
Qed.

(** ** The node *)
Definition node_inv (n : GasPriceNode) : Prop :=
  ∃ paid rest, bundles = paid ++ rest ∧
  match n with
  | NodeStopped db => paid_up_to db paid
  | NodeRunning s channel recorded =>
      service_inv paid s ∧ channel_lagged channel = false ∧
      recorded = end_of r (paid ++ da_block_costs_buffer s ++ channel_values channel) ∧
      ∃ later, rest = da_block_costs_buffer s ++ channel_values channel ++ later
  end.

Lemma shutdown_inv ready : ∀ paid s,
  service_inv paid s → (∃ rest, bundles = paid ++ da_block_costs_buffer s ++ rest) → ready_in_order ready s →
  ∃ paid' rest, bundles = paid' ++ rest ∧ paid_up_to (storage_tx_provider (shutdown_service ready s).2) paid'.
Proof.
  induction ready as [|[[read_ok stored] [b|e]] ready IH]; intros paid s Hs Hb Ho; cbn [shutdown_service snd].
  1,3: destruct Hb as [rest Hb]; exists paid, (da_block_costs_buffer s ++ rest); split; [done|apply Hs].
  destruct Ho as [Ho Ho']. pose proof (block_inv paid read_ok stored b s Hs Hb Ho) as Hi. cbn zeta in Hi.
  assert (∃ paid', service_inv paid' (apply_block_info_to_gas_algorithm read_ok stored b s).2 ∧
    ∃ rest, bundles = paid' ++ da_block_costs_buffer (apply_block_info_to_gas_algorithm read_ok stored b s).2 ++ rest) as (paid' & Hs' & Hb').
  { destruct Hb as [rest Hb], Hi as [[Hi Hbuf]|[Hi Hbuf]]; rewrite Hbuf.
    - by exists paid; split; [|exists rest].
    - exists (paid ++ da_block_costs_buffer s). split; [done|]. exists rest. by rewrite <- app_assoc. }
  destruct (apply_block_info_to_gas_algorithm _ _ _ _) as [[[]|e] s']; cbn [snd] in *.
  - by apply (IH paid' s').
  - destruct Hb' as [rest Hb']. exists paid', (da_block_costs_buffer s' ++ rest). split; [done|apply Hs'].
Qed.

(** The start from a database *)
Definition synced (paid : list DaBlockCosts) (u : Updater) (db : GasPriceDb) : Prop :=
  paid_up_to db paid ∧ db_height db = Some (V1.l2_block_height u) ∧ V1.latest_known_total_da_cost u = base + total_cost paid.

Lemma sync_block_inv paid stored view h u db :
  synced paid u db →
  let '(res, (u', db')) := sync_block block_bytes settings stored view h (u, db) in
  if is_ok res then synced paid u' db' else paid_up_to db' paid.
Proof.
  intros (Hp & Hh & Hk). unfold sync_block. destruct (view_get_block view h ≫= _) as [[[[b capacity] used] fee]|e]; [|done].
  change (tx_db (begin_transaction db)) with db.
  pose proof (l2_known_cost u (db_unrecorded db) h used capacity (block_bytes b) fee) as Hk'.
  pose proof (l2_height u (db_unrecorded db) h used capacity (block_bytes b) fee) as Hh'.
  pose proof (l2_result u (db_unrecorded db) h used capacity (block_bytes b) fee) as Hr.
  destruct (V1.update_l2_block_data _ _ _ _ _ _) as [[[]|e] [u' m']]; [|done]. cbn [fst snd] in *.
  pose proof (commit_eq stored None u' m' db) as Hc. cbn match in Hc. rewrite Hc.
  destruct (link_heights _ _) as [o|e]; [|done]. destruct stored; [|done].
  destruct Hr as [[_ Hr]|(Hr & _)]; [|done]. rewrite decide_False in Hh' by tauto.
  split_and!; [|done|by rewrite Hk'].
  rewrite <- (app_nil_r paid). apply stored_paid; [done..|by rewrite app_nil_r, Hk'|]. rewrite Hh', Hr. apply clamp_range. done.
Qed.

Lemma sync_heights_inv paid stopping stored view heights : ∀ u db,
  synced paid u db →
  let '(res, (u', db')) := sync_heights block_bytes settings stopping stored view heights (u, db) in
  if is_ok res then synced paid u' db' else paid_up_to db' paid.
Proof.
  induction heights as [|h heights IH]; intros u db Hs; cbn [sync_heights]; [done|]. destruct (stopping h); [done|].
  pose proof (sync_block_inv paid (stored h) view h u db Hs) as H.
  destruct (sync_block _ _ _ _ _ _) as [[[]|e] [u1 db1]]; [|done]. by apply IH.
Qed.

Lemma initial_synced paid db latest view :
  paid_up_to db paid → db_height db = Some latest → ∃ algo,
  initialize_algorithm config latest (view_height genesis_block_height view) db = algo ∧ synced paid algo.1 db.
Proof.
  intros Hp Hd. eexists. split; [done|]. destruct Hp as (Hr & Hs & Hm). pose proof Hs as Hs'. unfold stored_cost in Hs'.
  rewrite Hd in Hs'. cbn in Hs'. unfold initialize_algorithm. destruct (db_metadata db !! latest) as [md|]; [|done]. cbn in Hs'.
  case_decide as Hh; [|done]. injection Hs' as Hs'. cbn [fst]. split_and!; [done| |done].
  rewrite Hd, <- Hh. by destruct md.
Qed.

Lemma start_inv paid db read_ok stopping stored view_new view_init task :
  paid_up_to db paid → UninitializedTask_new config genesis_block_height db view_new = Ok task →
  match init block_bytes settings config genesis_block_height read_ok stopping stored view_init task db with
  | (Ok (s, recorded), _) => service_inv paid s ∧ da_block_costs_buffer s = [] ∧ recorded = end_of r paid
  | (Err _, db') => paid_up_to db' paid
  end.
Proof.
  intros Hp Ht. destruct (paid_height _ _ Hp) as [d Hd]. unfold UninitializedTask_new in Ht. rewrite Hd in Ht. cbn [unwrap_or] in Ht.
  destruct (initial_synced paid db d view_new Hp Hd) as ([u algo] & Hi & Hs). rewrite Hi in Ht. cbn [fst] in Hs.
  destruct (view_get_block view_new _) as [blk|e]; [|done]. cbn [mbind result_bind] in Ht. injection Ht as <-.
  unfold init. destruct read_ok; [|done]. cbn [negb]. pose proof Hp as (Hr & _ & _). rewrite Hr.
  assert (∀ u' db' lgp h, synced paid u' db' → service_inv paid (MkGasPriceService algo lgp u' [] db' h (Some (end_of r paid)))) as Hmk.
  { intros u' db' lgp h (Hp' & Hh' & Hk'). pose proof Hp' as (_ & _ & Hm). split; cbn; [done| |by apply Hm].
    rewrite Hh'. intros d' [= <-]. by left. }
  case_decide; [by split_and!; [apply Hmk|..]|].
  case_decide; [|by split_and!; [apply Hmk|..]].
  unfold sync_gas_price_db_with_on_chain_storage.
  pose proof (sync_heights_inv paid stopping stored view_init
    (V1.range_heights (saturating_add u32 (unwrap_or (view_height genesis_block_height view_init) (db_height db)) 1, view_height genesis_block_height view_init)) u db Hs) as Hy.
  destruct (sync_heights _ _ _ _ _ _ _) as [[[]|e] [u' db']]; cbn [is_ok] in Hy; [|done].
  by split_and!; [apply Hmk|..].
Qed.

(** A poll sends bundles that follow those already sent. *)
Lemma poll_inv sent rest client latest values :
  bundles = sent ++ rest → honest_committer client →
  (∀ h raws, client h = Some raws → (length values + length raws ≤ DA_BLOCK_COSTS_CHANNEL_SIZE)%nat) →
  ∃ new later, rest = new ++ later ∧
    process_block_costs client latest (MkCostsChannel values false, end_of r sent) = (MkCostsChannel (values ++ new) false, end_of r (sent ++ new)).
Proof.
  intros Hb Hc Hn. unfold process_block_costs, request_da_block_costs. cbn [snd].
  assert (∃ new later, rest = new ++ later ∧
    (MkCostsChannel values false, end_of r sent) = (MkCostsChannel (values ++ new) false, end_of r (sent ++ new))) as Hnone.
  { exists [], rest. by rewrite !app_nil_r. }
  unfold checked_add. destruct (fit u32 (end_of r sent + 1)) as [h|] eqn:Hf; [|exact Hnone]. apply fit_Some in Hf as [<- _].
  destruct (client (end_of r sent + 1)) as [raws|] eqn:Hcl; [|exact Hnone]. cbn [option_map].
  destruct (Hc sent rest raws Hb Hcl) as [k Hk]. specialize (Hn _ _ Hcl).
  pose proof Hbundles as Hfo. rewrite Hb in Hfo. apply follows_app in Hfo as [_ Hfo].
  pose proof Hfo as Hfk. rewrite <- (take_drop k rest) in Hfk. apply follows_app in Hfk as [Hfk _].
  destruct (filter_prefix latest (take k rest) _ Hfk) as [j Hj]. rewrite Hk, Hj, take_take.
  exists (take (j `min` k) rest), (drop (j `min` k) rest). split; [by rewrite take_drop|].
  rewrite <- (take_drop (j `min` k) rest) in Hfo. apply follows_app in Hfo as [Hfj _].
  rewrite send_costs_eq, <- end_of_app; [done..|].
  apply (f_equal length) in Hk. rewrite length_map, length_take in Hk. rewrite length_take. lia.
Qed.

Lemma node_block_inv paid later read_ok stored b s values :
  service_inv paid s → bundles = paid ++ da_block_costs_buffer s ++ values ++ later → block_in_order b s →
  node_inv (NodeRunning (run_service (InputBlock read_ok stored (Ok b)) s) (MkCostsChannel values false)
    (end_of r (paid ++ da_block_costs_buffer s ++ values))).
Proof.
  intros Hs Hb Ho. set (s' := run_service _ _).
  assert (same_state s (update_latest_gas_price b s)) as Hs1 by (by destruct b).
  assert (block_in_order b (update_latest_gas_price b s)) as Ho1 by (by destruct b).
  pose proof (block_inv paid read_ok stored b _ (same_state_inv _ _ _ Hs1 Hs)) as Hi. cbn zeta in Hi. destruct Hs1 as (_ & _ & Hbuf).
  rewrite Hbuf in Hi. specialize (Hi (ex_intro _ _ Hb) Ho1).
  assert (same_state (apply_block_info_to_gas_algorithm read_ok stored b (update_latest_gas_price b s)).2 s') as Hs2.
  { subst s'. cbn [run_service]. unfold commit_block_data_to_algorithm. destruct (apply_block_info_to_gas_algorithm _ _ _ _) as [[] x]; by destruct b. }
  generalize dependent (apply_block_info_to_gas_algorithm read_ok stored b (update_latest_gas_price b s)).2. clearbody s'.
  intros x [[Hi Hx]|[Hi Hx]] Hsx; pose proof Hsx as (_ & _ & Hbx); rewrite Hx in Hbx; apply (same_state_inv _ _ _ Hsx) in Hi.
  - exists paid, (da_block_costs_buffer s ++ values ++ later). rewrite Hbx. split_and!; [done..|by exists later].
  - exists (paid ++ da_block_costs_buffer s), (values ++ later). rewrite Hbx. cbn [app channel_values channel_lagged].
    rewrite <- !app_assoc. split_and!; [done..|by exists later].
Qed.

Lemma node_step_inv i n : node_inv n → admissible i n → node_inv (node_step block_bytes settings config genesis_block_height i n).
Proof.
  intros (paid & rest & Hb & Hn) Ha. destruct i as [read_ok stored res| |client|ready|read_ok stopping stored view_new view_init],
    n as [s [values lagged] recorded|db]; try (by exists paid, rest).
  all: try (destruct Hn as (Hs & Hl & Hr & later & ->); cbn [channel_values channel_lagged] in *; subst lagged recorded).
  - destruct res as [b|e]; [by eapply node_block_inv|]. exists paid, (da_block_costs_buffer s ++ values ++ later).
    split; [done|]. split_and!; [done..|by exists later].
  - destruct values as [|v values]; [exists paid, (da_block_costs_buffer s ++ [] ++ later); split; [done|]; split_and!; eauto|].
    exists paid, ((da_block_costs_buffer s ++ [v]) ++ values ++ later). cbn. rewrite <- !app_assoc. cbn.
    split_and!; [done|by destruct Hs|done|done|exists later; by rewrite <- app_assoc].
  - destruct Ha as [Hc Hn]. cbn [node_step channel_values] in *. rewrite !app_assoc in Hb.
    destruct (poll_inv _ _ client (latest_l2_block s) values Hb Hc Hn) as (new & later' & -> & Hp).
    rewrite app_assoc. rewrite Hp. exists paid, (da_block_costs_buffer s ++ (values ++ new) ++ later').
    cbn [channel_values]. rewrite <- !app_assoc in *. split_and!; [done..|exists later'; by rewrite <- app_assoc].
  - cbn [node_step]. destruct (shutdown_inv ready paid s Hs) as (paid' & rest & Hb' & Hp); [by eexists|done|]. by exists paid', rest.
  - cbn [node_step]. destruct (UninitializedTask_new _ _ _ _) as [task|e] eqn:Ht; [|by exists paid, rest].
    pose proof (start_inv paid db read_ok stopping stored view_new view_init task Hn Ht) as Hi.
    destruct (init _ _ _ _ _ _ _ _ _ _) as [[[s recorded]|e] db']; [|by exists paid, rest].
    destruct Hi as (Hs & Hbuf & ->). exists paid, rest. rewrite Hbuf. cbn. rewrite app_nil_r. split_and!; [done..|by exists rest].
Qed.

Lemma node_run_inv inputs : ∀ n,
  node_inv n → admissible_run inputs n → node_inv (node_run block_bytes settings config genesis_block_height inputs n).
Proof.
  induction inputs as [|i inputs IH]; intros n Hn Ha; [done|]. destruct Ha as [Ha Ha']. apply (IH _ (node_step_inv i n Hn Ha) Ha').
Qed.

(** C16 From a database that has stored a block, whatever blocks, polls, failures
    of the storage, stops and restarts follow, the database says that exactly the
    bundles up to its recorded height have been paid, each counted once.  The
    block committer answers with the bundles that follow, the channel of costs
    does not overflow, and no block is refused while costs wait in the buffer. *)
Theorem da_costs_counted_once inputs db :
  paid_up_to db [] → admissible_run inputs (NodeStopped db) →
  ∃ paid rest, bundles = paid ++ rest ∧
    paid_up_to (node_db (node_run block_bytes settings config genesis_block_height inputs (NodeStopped db))) paid.
Proof.
  intros Hp Ha. assert (node_inv (NodeStopped db)) as Hn by (by exists [], bundles).
  destruct (node_run_inv inputs _ Hn Ha) as (paid & rest & Hb & Hr). exists paid, rest. split; [done|].
  destruct (node_run _ _ _ _ _ _); [apply Hr|done].
Qed.
End node.
