(* ===== verification/GasPriceSamples.v ===== *)
(** * Runs of the gas price service

    A node that synchronises, fails to commit, restarts and records two bundles
    of costs, and the runs that show where the code loses or repeats work. *)
From stdpp Require Import gmap strings.
From S2P Require Import Prelude GasPrice GasPriceFacts FuelTypes Importer GasPriceService GasPriceServiceFacts GasPriceNode.

Definition sample_gas_config : V1AlgorithmConfig :=
  MkV1AlgorithmConfig 10 1 10 50 100 1 1000 10 5 5 10 10 10 0 None.
Definition sample_gas_updater : Updater := updater_from_config sample_gas_config 10.
Definition sample_gas_db : GasPriceDb :=
  MkGasPriceDb {[ 10 := MetadataV1 (metadata_of sample_gas_updater) ]} ∅ (Some 3) (Some 10).
Definition sample_gas_service : GasPriceService :=
  MkGasPriceService (V1.algorithm sample_gas_updater) (10, 11) sample_gas_updater [] sample_gas_db 10 None.
Definition sample_gas_bytes : Block Transaction → Z := λ _, 100.
Definition sample_gas_settings : Z → result GasPriceError GasPriceSettings := λ _, Ok (MkGasPriceSettings 100 1000).
(** A block with one mint transaction *)
Definition sample_gas_block (h fee : Z) : Block Transaction :=
  MkBlock (MkBlockHeader (MkApplicationHeader 0 0 0 (MkGeneratedApplicationFields 1 0 0 0 0))
             (MkConsensusHeader 0 h 0 (MkGeneratedConsensusFields 0)) None)
    [TxMint (MkMint (h, 0) (MkContractInput (0, 0) 0 0 (0, 0) 0) (MkContractOutput 0 0 0) fee 0 11)].
Definition sample_gas_view (latest fee : Z) : L2View :=
  MkL2View (Some latest) (λ h, Ok (if decide (h ≤ latest) then Some (sample_gas_block h fee) else None)).
Definition sample_gas_info (h : Z) : BlockInfo := BlockOf h 600 1000 100 66 11.

Lemma sample_gas_restorable : restorable sample_gas_config sample_gas_updater.
Proof.
  split; [|reflexivity..]. repeat first [split | constructor]; vm_compute; try reflexivity; discriminate.
Qed.

Lemma restart_restores_updater_witness :
  let r := commit_block_data_to_algorithm true true (Ok (sample_gas_info 12))
             (run_inputs [InputBlock true true (Ok (sample_gas_info 11)); InputCosts (Some (MkDaBlockCosts 1 (4, 6) 1000 5000))] sample_gas_service) in
  is_ok r.1 = true ∧ db_height (storage_tx_provider r.2) = Some 12 ∧
  initialize_algorithm sample_gas_config 12 12 (storage_tx_provider r.2) = (reset_activity sample_gas_config (algorithm_updater r.2), shared_algo r.2) ∧
  restorable sample_gas_config (reset_activity sample_gas_config (algorithm_updater r.2)).
Proof.
  intros r. split; [vm_compute; reflexivity|].
  apply (restart_restores_updater sample_gas_config sample_gas_service
    [InputBlock true true (Ok (sample_gas_info 11)); InputCosts (Some (MkDaBlockCosts 1 (4, 6) 1000 5000))] true true 12 600 1000 100 66 11 12 r.2).
  - exact sample_gas_restorable.
  - split_and!; vm_compute; try split; discriminate.
  - repeat constructor; vm_compute; discriminate.
  - split; [split|]; vm_compute; discriminate.
  - vm_compute. reflexivity.
Defined.

(** The storage fails once, and works again for the next two blocks. *)
Lemma stalled_service_never_updates_witness :
  let s' := (commit_block_data_to_algorithm true false (Ok (sample_gas_info 11)) sample_gas_service).2 in
  let inputs := [InputBlock true true (Ok (sample_gas_info 12)); InputBlock true true (Ok (sample_gas_info 13))] in
  storage_tx_provider (run_inputs inputs s') = storage_tx_provider sample_gas_service ∧
  shared_algo (run_inputs inputs s') = shared_algo sample_gas_service.
Proof.
  intros s' inputs. apply stalled_service_never_updates.
  - apply (failed_commit sample_gas_service 10 true false 11 600 1000 100 66 11 None s').
    + reflexivity.
    + vm_compute; discriminate.
    + split; vm_compute; discriminate.
    + vm_compute; reflexivity.
    + vm_compute; reflexivity.
  - repeat constructor.
Defined.

(** With an empty database the next block is stored. *)
Lemma empty_database_recovers :
  let s := sample_gas_service <| storage_tx_provider := MkGasPriceDb ∅ ∅ None None |> in
  let s' := (commit_block_data_to_algorithm true false (Ok (sample_gas_info 11)) s).2 in
  db_height (storage_tx_provider s') = None ∧
  db_height (storage_tx_provider (run_service (InputBlock true true (Ok (sample_gas_info 12))) s')) = Some 12.
Proof. by vm_compute. Qed.

Lemma sample_block_fits h : 0 < h → h ≤ 12 → block_fits 0 (sample_gas_view 12 66) h.
Proof.
  intros Hh Hl b Hb. unfold block_at, sample_gas_view in Hb. cbn [view_get_block] in Hb. rewrite decide_True in Hb by done.
  injection Hb as <-. split_and!; [done..|]. intros fee price [= <- <-]. by vm_compute.
Qed.
Lemma resync_matches_live_witness :
  let view := sample_gas_view 12 66 in
  let r := sync_heights sample_gas_bytes sample_gas_settings (λ _, false) (λ _, true) view [11; 12] (sample_gas_updater, sample_gas_db) in
  let s' := run_inputs (live_input sample_gas_bytes sample_gas_settings 0 view <$> [11; 12]) sample_gas_service in
  db_height r.2.2 = Some 12 ∧ algorithm_updater s' = r.2.1 ∧ shared_algo s' = V1.algorithm r.2.1.
Proof.
  intros view r s'. split; [vm_compute; reflexivity|].
  destruct (resync_matches_live sample_gas_bytes sample_gas_settings 0 view [11; 12] sample_gas_updater sample_gas_db r.2.1 r.2.2
    sample_gas_service) as (Hu & _ & _ & Ha).
  - vm_compute. reflexivity.
  - repeat (apply Forall_cons_2; [apply sample_block_fits; done|]). apply Forall_nil_2.
  - reflexivity.
  - reflexivity.
  - reflexivity.
  - split; [exact Hu|]. apply Ha. discriminate.
Defined.

(** ** A node *)
Definition sample_raws : list RawDaBlockCosts := [MkRawDaBlockCosts 1 4 6 100 5000 1000; MkRawDaBlockCosts 2 7 9 101 4000 500].
Definition sample_bundles : list DaBlockCosts := map costs_of_raw sample_raws.
Definition sample_committer : Z → option (list RawDaBlockCosts) := λ h, Some (filter (λ raw, h ≤ start_height raw) sample_raws).
Definition sample_node_inputs : list NodeInput :=
  [NodeStart true (λ _, false) (λ _, true) (sample_gas_view 12 66) (sample_gas_view 12 66); NodePoll sample_committer; NodeReceive; NodeReceive;
   NodeBlock true false (Ok (sample_gas_info 13)); NodeBlock true true (Ok (sample_gas_info 14)); NodeStop [];
   NodeStart true (λ _, false) (λ _, true) (sample_gas_view 14 66) (sample_gas_view 14 66); NodePoll sample_committer; NodeReceive; NodeReceive;
   NodeBlock true true (Ok (sample_gas_info 15))].
Abbreviation sample_node_run inputs db :=
  (node_run sample_gas_bytes sample_gas_settings sample_gas_config 0 inputs (NodeStopped db)).

Lemma sample_committer_honest : honest_committer sample_bundles 3 sample_committer.
Proof.
  intros pre post raws Hb Hc. exists (length post). rewrite firstn_all. injection Hc as <-. unfold sample_bundles, sample_raws in Hb. cbn in Hb.
  destruct pre as [|c1 [|c2 [|c3 pre]]]; cbn in Hb; simplify_eq; reflexivity.
Qed.
Lemma sample_committer_room h raws : sample_committer h = Some raws → (0 + length raws ≤ DA_BLOCK_COSTS_CHANNEL_SIZE)%nat.
Proof.
  intros [= <-]. etransitivity; [apply length_filter|]. unfold DA_BLOCK_COSTS_CHANNEL_SIZE. cbn [sample_raws length]. lia.
Qed.

(** One step of a run that is evaluated *)
Lemma admissible_cons bb st cf g bs r i inputs n n' :
  node_step bb st cf g i n = n' → admissible bs r i n → admissible_run bb st cf g bs r inputs n' →
  admissible_run bb st cf g bs r (i :: inputs) n.
Proof. intros <- ? ?. by split. Qed.
Ltac node_step_tac :=
  match goal with
  | |- admissible_run ?bb ?st ?cf ?g ?bs ?r (?i :: ?inputs) ?n =>
      let n' := eval vm_compute in (node_step bb st cf g i n) in
      apply (admissible_cons bb st cf g bs r i inputs n n');
      [vm_compute; reflexivity
      |first [exact I
             |split; [exact sample_committer_honest|exact sample_committer_room]
             |split; [vm_compute; reflexivity|right; vm_compute; reflexivity]]
      |]
  end.

Lemma da_costs_counted_once_witness :
  (let db := node_db (sample_node_run sample_node_inputs sample_gas_db) in
   db_recorded_height db = Some 9 ∧ stored_cost sample_gas_config db = Some 9000 ∧ db_height db = Some 15) ∧
  ∃ paid rest, sample_bundles = paid ++ rest ∧
    paid_up_to sample_gas_config 3 0 (node_db (sample_node_run sample_node_inputs sample_gas_db)) paid.
Proof.
  split; [vm_compute; done|].
  apply da_costs_counted_once.
  - repeat split; vm_compute; discriminate.
  - done.
  - vm_compute. discriminate.
  - split_and!; [reflexivity..|]. intros d [= <-]. vm_compute. discriminate.
  - unfold sample_node_inputs. repeat node_step_tac. exact I.
Defined.

(** ** What the code does not keep *)
(** A block that is refused while a bundle waits leaves the bundle in the updater
    and in the buffer: the next block stores its cost twice. *)
Lemma refused_block_counts_twice :
  let s := run_inputs [InputCosts (Some (MkDaBlockCosts 1 (4, 6) 1000 5000)); InputBlock true true (Ok (sample_gas_info 10));
                       InputBlock true true (Ok (sample_gas_info 11))] sample_gas_service in
  stored_cost sample_gas_config (storage_tx_provider s) = Some 10000 ∧ db_recorded_height (storage_tx_provider s) = Some 6.
Proof. vm_compute. done. Qed.

(** The algorithm that a start shares is the one before the synchronisation. *)
Lemma shared_algorithm_after_start_is_stale :
  match sample_node_run [NodeStart true (λ _, false) (λ _, true) (sample_gas_view 12 66) (sample_gas_view 12 66)] sample_gas_db with
  | NodeRunning s _ _ =>
      V1.alg_for_height (shared_algo s) = 10 ∧ V1.l2_block_height (algorithm_updater s) = 12 ∧
      V1.calculate (shared_algo s) ≠ V1.calculate (V1.algorithm (algorithm_updater s))
  | NodeStopped _ => False
  end.
Proof. vm_compute. split_and!; [done..|discriminate]. Qed.

(** A fee that does not fit 64 bits in wei is cut by the synchronisation and not
    by a block that arrives. *)
Lemma large_fees_diverge :
  let fee := 20000000000 in
  let view := sample_gas_view 11 fee in
  let r := sync_heights sample_gas_bytes sample_gas_settings (λ _, false) (λ _, true) view [11] (sample_gas_updater, sample_gas_db) in
  let s' := run_inputs (live_input sample_gas_bytes sample_gas_settings 0 view <$> [11]) sample_gas_service in
  is_ok r.1 = true ∧ V1.total_da_rewards r.2.1 < V1.total_da_rewards (algorithm_updater s').
Proof. vm_compute. done. Qed.
